(* ===== verification/_CoqProject ===== *)
-Q . S2P
Prelude.v
Bits.v
Search.v
Errors.v
Codec.v
CellData.v
CellHash.v
CellModel.v
Binding.v
CellCheck.v
CellSlice.v
CellBuilder.v
Fields.v
BuilderOps.v
Merkle.v
MerkleUpdate.v
CellText.v
Usage.v
UsageTheorems.v
DictLabel.v
Dict.v
DictTree.v
DictCells.v
DictWalk.v
DictSpec.v
DictTheorems.v
DictOps.v
DictBulk.v
DictQueries.v
DictTyped.v
AugDict.v
AugSpec.v
AugSums.v
AugTheorems.v
PfxDict.v
PfxCells.v
PfxEdit.v
PfxSpec.v
PfxTheorems.v
Boc.v
BocWaves.v
BocRun.v
BocCells.v
BocParse.v
BocTheorems.v
BocWrite.v
BocOrder.v
BocEncode.v
BocRoundtrip.v
BocGraph.v
BocTrip.v
BocChunked.v
BocLazy.v
BocLazySpec.v
BocViews.v
Block.v
States.v
Validators.v
BlockTheorems.v
Covered.v
CoveredProofs.v
Proof.v
ProofTheorems.v
Chain.v
ChainTheorems.v
Sync.v
SyncTheorems.v
Address.v
AddressTheorems.v
Adnl.v
AdnlTheorems.v
Lite.v
LiteTheorems.v
Client.v
ClientTheorems.v
Examples.v
ExamplesDict.v
ExamplesBoc.v
ExamplesChain.v
ExamplesNet.v
