(* ===== verification/Prelude.v ===== *)
(** * A verification of the ton-net core

    This development models the part of the repository that everything a TON
    client believes rests on: the cells of [core/src/cell], their builders and
    cursors, the dictionaries and Merkle proofs made of them, their text forms,
    the bags of cells they travel in, and, over these, the blocks, states and accounts a client
    reads out of proofs, the chains of signed blocks it follows, the walk to
    the head that does so, and the session to a server all of it is asked over.
    The definitions follow the Rust function by function and keep its names; the theorems say what each part promises its callers.

    ** How the model reads

    - A fallible function returns [result E A], Rust's [Result]; a [&mut self]
      method returning one is a [stm S E A], a state transformer whose state
      comes back on the error path too, so that what a failed call leaves behind
      can be stated. [let?], [do!] and [run!] are the question mark.
    - An unsigned or signed integer is a [Z]; where the source wraps, narrows or
      saturates, the model says so ([wrap], [swrap], [checked],
      [saturating_add]). A run of bytes is a list of [Z], a bit string a list of
      booleans.
    - A loop whose bound is not structural takes fuel; the theorems that its
      bound is enough are named below. Where a Rust value shares memory ([Arc]
      in a payload or a cell) sharing is not observable, cells being immutable,
      and the model copies.
    - SHA-256 ([sha2]) is the class [Hasher], an unknown function from bytes to
      bytes; [HasherOk] says it gives thirty-two bytes. No property of it beyond
      that is assumed, except where a theorem says that it does not collide on
      the byte strings hashed in building the trees it speaks of
      ([collision_free]).

    ** The files

    - [Prelude], [Bits]: results, state, machine integers, lists read by machine
      indices, bits within bytes. [Errors]: [cell/error.rs] and the part of
      [error.rs] the proofs return.
    - [Codec]: [cell/codec.rs], base64 and hex.
    - [CellData], [CellHash], [CellModel]: [cell/cell.rs] and its children
      [payload], [refs], [exotic], [level] and [hash]. [cell_wf] is the invariant
      of every cell: [Cell::from_parts] is the only constructor, and it makes
      cells whose stored identity is the one their contents give.
    - [Binding]: what a hash says about a tree ([agrees], [same]).
      [CellCheck]: deciding these notions on concrete cells.
    - [CellSlice], [CellBuilder]: [slice.rs], [builder.rs] and their children.
      Each store is specified by the bits it puts ([put], [writes]), each load by
      the bits [ahead] of the cursor; [Fields] pairs them up under the class
      [LawfulField], and [BuilderOps] runs any sequence of stores.
    - [Merkle], [MerkleUpdate]: [cell/merkle.rs] and its children, and the
      Merkle verification of [proof.rs]. [CellText]: [cell/cell/json.rs] and
      [cell/cell/dump.rs].
    - [DictLabel], [Dict]: [cell/dict/label.rs], [cell/dict.rs] and
      [cell/dict/plain.rs]. [DictTree] is the specification: the tree of labels
      a dictionary's cells spell, the map it stands for, and the proof that a map
      has one tree. [DictCells] relates cells to trees ([shows]), [DictWalk] the
      walks, both for any kind of dictionary that is a [LawfulShape]; [DictSpec] and
      [DictTheorems] the operations. [DictOps] is the rest of
      the plain dictionary: the bulk builder and rerooting of [dict.rs],
      [dict/floor.rs], [dict/typed.rs] and what [plain.rs] makes of its iterator;
      [DictBulk], [DictQueries] and [DictTyped] prove what
      they do, over the same trees.
    - [AugDict]: [dict/aug.rs], the augmented dictionary, over any [Augmentation], and
      what [dict.rs] keeps for it. [AugSpec] makes an augmentation that keeps what it
      writes ([LawfulAug]) a lawful shape, so that the walks of [DictWalk] and the
      edits of [DictSpec] are proved of it; [AugSums] is about the summaries, [AugTheorems]
      the guarantees.
    - [PfxDict]: [dict/prefix.rs], the prefix-code dictionary. [PfxCells] is what it
      means (the trees of [DictTree] with labels of any length) and the walks,
      [PfxEdit] its edits, [PfxSpec] and [PfxTheorems] its operations.
    - [Boc]: the reader of bags, [cell/boc.rs], [boc/header.rs] and
      [boc/parse.rs]: the header, the raw cells, their waves by height, and the
      workers that finish a wave, whose number is the parameter [parallelism].
      [BocWaves], [BocRun], [BocCells], [BocParse] prove what the phases give,
      and [BocTheorems] what a parse does.
    - [BocWrite]: the writer, [boc/serialize.rs] and [boc/large.rs]. [BocOrder]
      is about its order of cells, [BocEncode] and [BocRoundtrip] the
      bytes, [BocGraph] and [BocTrip] the trees read back and [boc/compress.rs], [BocChunked] the bag
      in chunks.
    - [BocLazy]: [boc/lazy.rs], [boc/view.rs] and [boc/random.rs], with the
      lemmas of [BocLazySpec] and the theorems of [BocViews].
    - [Search]: the order of byte strings, binary search, sorted insertion and
      stable sorting of Rust's standard library. [Block], [States]: [tlb/block.rs],
      [tlb/coins.rs], [tlb/shard.rs], [tlb/account.rs]. [Validators]:
      [proof/validators.rs].
    - [Covered], [CoveredProofs]: what a reader finds in a tree cut down by a
      proof is what it finds in the whole one. [view c t] says that [c] shows [t];
      [tracks] is the relation on readers that keeps it, closed under the
      operations of the cursor, so that each reader of [Block], [States] and
      [Validators] is covered by walking its text.
    - [Proof]: [proof.rs], with [ProofTheorems]. [Chain]:
      [proof/signature.rs], [proof/chain.rs] and the types of [tl/lite.rs] and
      [tl/signed.rs], with [ChainTheorems]. [Sync]: [client/sync.rs] and the
      synchronous part of [client.rs], with [SyncTheorems].
    - [Usage]: [cell/usage.rs] and [usage/trace.rs], with [UsageTheorems].
    - [Address]: [address.rs] and the [codec.rs] it reads with, with
      [AddressTheorems].
    - [Adnl]: [adnl/frame.rs], [adnl/handshake.rs] and [adnl/connection.rs]. An
      [async fn] is a step of the state it holds that may give nothing: its
      caller dropped it where it waited. [in_step] is the invariant of a
      connection, [AdnlTheorems] keeps it. [Lite]: [lite/client.rs],
      [lite/types.rs] and the conversions of [error.rs], with [LiteTheorems].
      [Client]: [client.rs] over such a connection, and [config.rs];
      [ClientTheorems] shows that it does what [Sync] does over the answers it
      gets, so that [sync_sound] and its like speak of it.
    - [Examples], [ExamplesDict], [ExamplesBoc], [ExamplesChain], [ExamplesNet]: the
      theorems at concrete inputs.

    ** What stands outside

    More parameters stand for code that is not in the repository.
    [TlCodec] is what the [tl_proto] macros derive for four types; where a
    theorem needs that a message determines its contents, [TlCodecOk] says the
    encodings are one to one and start with different constructors. [Curve] is
    the arithmetic of [curve25519_dalek] and SHA-512, of which nothing is assumed:
    the theorems say of a signature that [signature.verify] takes it. [Network]
    is what a server and the clocks say during a sync, of which only the types
    are assumed. [Ctr] is AES in counter mode, of which [CtrOk] says that it is a
    keystream (applied twice from one place it undoes itself, and pieces are
    applied as the whole is); [Exchange] X25519 and SHA-512, [AdnlTl] and
    [LiteTl] the derived serializers, [Json] and [Clock] what [serde_json] and
    the standard library's clocks give, [Dial] the socket. [World] is the
    transport and the randomness, of which [WorldOk] says that what is read is
    what the peer sends in order and what is written whole arrives, and that a
    call that fails or is dropped may have done part of that.

    ** What the theorems show

    - An account a client is shown is the account of the chain, the block a
      verified chain ends at is one the validators of the blocks before it
      signed, and a sync reports only such a block, fresh, and keeps only such
      an anchor ([verify_account_sound], [verify_chain_sound], [sync_sound]).
      The chain is there as the whole trees of its blocks and states, of which a
      server sends pieces: [real] trees, held against what was [told]. Weight is
      counted once per member that signed, and is always enough when enough
      signed ([carried_weight_sound], [carried_weight_tolerates]).
    - A bag of any bytes parses to well-formed cells or fails, as finishing one
      cell at a time would, whatever the number of workers ([parse_boc_sound],
      [parse_boc_planned], [parse_boc_error], [parse_boc_bounds]); what is
      written reads back ([boc_round_trip]), compressed ([compressed_round_trip]) or
      not, in one buffer or in chunks
      ([chunks_are_the_bag]); and the readers of parts agree with the parse
      ([verify_agrees], [lazy_history_free], [lazy_roots_parse]).
    - A Merkle proof or update that verifies shows the tree its hash names and
      nothing else ([verify_merkle_proof_sound], [apply_update_sound]), what the
      crate makes verifies and gives back what it was made of
      ([create_proof_roundtrip], [create_apply_update]), and pruning keeps hashes
      ([rebuild_keeps_hash]). Two updates that chain combine into one that does what
      they do in turn ([combine_applies]), unless a side reveals a library
      reference ([library_refused]).
    - The JSON form of a tree reads back as that tree ([json_round_trip]) and what
      is read is a well-formed cell ([from_json_sound]); two trees are dumped alike
      only when they are the same ([dump_tells]).
    - A builder never leaves its bounds, building never fails, failures leave the
      builder alone, and every field read back is the field written
      ([builder_reachable_builds], [builder_failure_atomic],
      [build_parse_roundtrip], [snake_roundtrip], [either_roundtrip]).
    - A dictionary is the map its lookups show: stores and removals change one
      key, iteration is complete and ordered, and the cells depend on the map
      alone and not on how it was made ([dict_set_then_get],
      [dict_remove_then_get], [dict_iter_complete],
      [dict_history_independent]). Walks end within the key's width
      ([dict_walks_terminate]). Building in bulk is storing one by one
      ([dict_bulk_is_sets]), a subdictionary is the entries under its prefix
      ([dict_subdict]), the nearest entries are the nearest even in a proof
      ([dict_nearest]), [retain] keeps what it is told to ([dict_retain]), and
      integers are keys of the widths they fit ([dict_integer_keys]). Labels take the shortest form
      ([label_encoding_minimal]).
    - The summaries of an augmented dictionary are the totals of its entries whatever
      was stored and removed ([aug_totals]), and of any dictionary that passes the check
      of them ([aug_validate_exact]). Its stores, removals, bulk building and merges do to
      its entries what they say ([aug_set_then_get], [aug_remove_then_get],
      [aug_bulk_is_sets], [aug_combine_with]) and its cells depend on its entries alone
      ([aug_history_independent]). A summary is taken to be of bits alone: one that holds
      a reference is written where the walks look for a branch ([linked_misread]).
    - A prefix-code dictionary never holds a key that begins another
      ([pfx_set_then_get], [pfx_remove_then_get]), finds the one key that begins an
      input ([pfx_lookup_prefix]), yields everything in order ([pfx_iter_complete]),
      depends on its contents alone ([pfx_history_independent]), and its check lets
      through the dictionaries and nothing else ([pfx_validate_exact]).
    - A proof made of recorded usage shows what was used under the hash of the
      whole tree, and no more ([usage_proof], [mark_path_exposes]).
    - A connection that says it is intact is in step with its server whatever was
      asked and whatever failed or was dropped, and one that does not say so is
      never touched again ([connection_in_sync], [timeout_is_final]); a query gives
      the first answer to it and over a transport that does not fail it ends
      ([query_answers], [query_completes]); sealed frames open in order
      ([frames_in_order]) under the ciphers of one handshake
      ([handshake_opens]). The client over it refines the walk ([client_refines]),
      connects to the first server it can ([connect_tries]) and names a refused
      duplicate when the server did ([duplicate_named]).
    - An address is read from exactly the texts that spell it
      ([address_friendly], [address_raw]), and no slip of one or two characters
      makes another ([address_typo]).
    - Text encodings are one to one ([base64_encode_decode], and
      [hex_encode_decode] up to case).

    ** Bounds and fuel

    Dictionary walks get one round per key bit and one more, and
    [dict_walks_terminate] shows more would change nothing; those of a prefix-code
    dictionary get the same, and so do the walks over the forks of an augmented one. The bit-copying
    loops get the number of bits left, the unary count of a label two more than
    the maximum it may reach, a snake one round per byte and one more; each
    specification lemma shows the loop ends by itself within that. The bulk
    builder gets a round per key bit and one more, rerooting a round per bit of
    the prefix and one more, and the items of an iterator as many as the root has
    places below it ([entries_places]). The walk that
    orders the cells of a bag gets [walk_steps], two rounds for every place in the
    trees; a lazy build [collect_fuel], five for every cell of the bag and two;
    the drain of a chunked bag any number
    past its cells. A binary search gets the length of its list, and the loop of
    a sync one round more than [MAX_ROUNDS], past which the walk refuses
    ([sync_terminates]). Rendering bytes as text takes a byte a round at least,
    and reading JSON a round for every level the value nests
    ([json_round_trip] names one that is enough).

    ** Not modelled

    The TCP socket, the serializers derived for TL, LZ4 and the values of
    [serde_json] are third-party code: parameters of the parts above. The
    bindings are glue over those parts, and the spikes are experiments the
    crate does not use.
*)

From stdpp Require Import base list list_numbers numbers strings.
From Stdlib Require Import ZArith Lia.

Local Open Scope Z_scope.

(** ** Results: [Result<A, E>] *)

Inductive result (E A : Type) : Type :=
| Ok (a : A)
| Err (e : E).
Arguments Ok {E A} a.
Arguments Err {E A} e.

#[export] Instance result_eq_dec {E A} `{EqDecision E} `{EqDecision A} :
  EqDecision (result E A).
Proof. solve_decision. Defined.

Definition res_bind {E A B} (m : result E A) (k : A → result E B) : result E B :=
  match m with Ok a => k a | Err e => Err e end.

Definition res_map {E A B} (f : A → B) (m : result E A) : result E B :=
  match m with Ok a => Ok (f a) | Err e => Err e end.

Definition map_err {E F A} (f : E → F) (m : result E A) : result F A :=
  match m with Ok a => Ok a | Err e => Err (f e) end.

Definition ok_or {E A} (o : option A) (e : E) : result E A :=
  match o with Some a => Ok a | None => Err e end.

Definition is_ok {E A} (m : result E A) : bool :=
  match m with Ok _ => true | Err _ => false end.

(** [for x in l { state = f(state, x)? }] *)
Fixpoint res_fold {E A S} (f : S → A → result E S) (l : list A) (s : S) : result E S :=
  match l with
  | [] => Ok s
  | x :: l' => res_bind (f s x) (res_fold f l')
  end.

Lemma res_fold_ext {E A S} (f g : S → A → result E S) l s :
  (∀ s x, x ∈ l → f s x = g s x) → res_fold f l s = res_fold g l s.
Proof.
  revert s. induction l as [|x l IH]; intros s Hfg; simpl; [done|].
  rewrite (Hfg s x) by left. destruct (g s x); simpl; [|done].
  apply IH. intros s' y Hy. apply Hfg. by right.
Qed.

Lemma res_fold_app {E A S} (f : S → A → result E S) l1 l2 s :
  res_fold f (l1 ++ l2) s = res_bind (res_fold f l1 s) (res_fold f l2).
Proof.
  revert s. induction l1 as [|x l1 IH]; intros s; [done|]. simpl. destruct (f s x); [apply IH|done].
Qed.

(** ** State and error: a [&mut self] method returning [Result]

    The state comes back on the error path too, so that what a failed call
    leaves behind is visible. *)

Definition stm (S E A : Type) : Type := S → result E A * S.

Definition st_ret {S E A} (a : A) : stm S E A := λ s, (Ok a, s).
Definition st_err {S E A} (e : E) : stm S E A := λ s, (Err e, s).
Definition st_get {S E} : stm S E S := λ s, (Ok s, s).
Definition st_put {S E} (s : S) : stm S E unit := λ _, (Ok tt, s).
Definition st_modify {S E} (f : S → S) : stm S E unit := λ s, (Ok tt, f s).
Definition st_lift {S E A} (m : result E A) : stm S E A := λ s, (m, s).
Definition st_bind {S E A B} (m : stm S E A) (k : A → stm S E B) : stm S E B :=
  λ s, match m s with (Ok a, s') => k a s' | (Err e, s') => (Err e, s') end.

(** [for x in l { body }] with [?] on the body: stops at the first error. *)
Fixpoint st_for {S E A} (l : list A) (body : A → stm S E unit) : stm S E unit :=
  match l with
  | [] => st_ret tt
  | x :: l' => st_bind (body x) (λ _, st_for l' body)
  end.

Declare Scope ton_scope.
Delimit Scope ton_scope with ton.

Notation "'let?' x := m 'in' k" := (res_bind m (λ x, k))
  (at level 10, x name, m at level 100, k at level 200) : ton_scope.
Notation "'let?' ' p := m 'in' k" := (res_bind m (λ p, k))
  (at level 10, p strict pattern, m at level 100, k at level 200) : ton_scope.
Notation "'do!' x <- m ; k" := (st_bind m (λ x, k))
  (at level 10, x name, m at level 100, k at level 200) : ton_scope.
Notation "'run!' m ; k" := (st_bind m (λ _, k))
  (at level 10, m at level 100, k at level 200) : ton_scope.

Open Scope ton_scope.

(** [(for x in l { body }).collect()]: the results in order, up to the first error. *)
Fixpoint st_map {S E A B} (l : list A) (body : A → stm S E B) : stm S E (list B) :=
  match l with
  | [] => st_ret []
  | x :: l' => st_bind (body x) (λ b, st_bind (st_map l' body) (λ bs, st_ret (b :: bs)))
  end.

Section stm_lemmas.
Context {S E : Type}.

Lemma st_bind_ok {A B} (m : stm S E A) (k : A → stm S E B) s a s' :
  m s = (Ok a, s') → st_bind m k s = k a s'.
Proof. unfold st_bind. by intros ->. Qed.

Lemma st_bind_err {A B} (m : stm S E A) (k : A → stm S E B) s e s' :
  m s = (Err e, s') → st_bind m k s = (Err e, s').
Proof. unfold st_bind. by intros ->. Qed.

Lemma st_bind_inv {A B} (m : stm S E A) (k : A → stm S E B) s b s'' :
  st_bind m k s = (Ok b, s'') → ∃ a s', m s = (Ok a, s') ∧ k a s' = (Ok b, s'').
Proof. unfold st_bind. destruct (m s) as [[a|e] s']; naive_solver. Qed.

Lemma st_for_app {A} (l1 l2 : list A) (body : A → stm S E unit) s :
  st_for (l1 ++ l2) body s = (run! st_for l1 body; st_for l2 body) s.
Proof.
  revert s. induction l1 as [|x l1 IH]; intros s; [done|].
  simpl. unfold st_bind in *. destruct (body x s) as [[[]|e] s']; [apply IH|done].
Qed.

(** A loop whose body succeeds at every step succeeds, along the states the
    steps go through. *)
Lemma st_for_ok {A} (l : list A) (body : A → stm S E unit) (st : nat → S) :
  (∀ i x, l !! i = Some x → body x (st i) = (Ok tt, st (1 + i)%nat)) →
  st_for l body (st O) = (Ok tt, st (length l)).
Proof.
  revert st. induction l as [|x l IH]; intros st H; [done|].
  simpl. erewrite st_bind_ok by exact (H O x eq_refl).
  apply (IH (λ i, st (1 + i)%nat)). intros i y Hy. exact (H (1 + i)%nat y Hy).
Qed.

(** A loop that ended well did so at every element, from states that kept what
    the body keeps. *)
Lemma st_map_inv {A B} (Q : S → Prop) (R : A → B → Prop) (body : A → stm S E B) l : ∀ s bs s',
  (∀ x s b s', x ∈ l → Q s → body x s = (Ok b, s') → Q s' ∧ R x b) →
  Q s → st_map l body s = (Ok bs, s') → Q s' ∧ Forall2 R l bs.
Proof.
  induction l as [|x l IH]; intros s bs s' Hb Hs Hm; simpl in Hm.
  - injection Hm as <- <-. by split.
  - apply st_bind_inv in Hm as (b & s1 & Hx & Hm). apply st_bind_inv in Hm as (bs1 & s2 & Hl & Hm).
    injection Hm as <- <-. apply Hb in Hx as [Hs1 Hr]; [|by left|done].
    apply IH in Hl as [Hs2 Hrs]; [by split; [|constructor]| |done].
    intros y t b' t' Hy. apply Hb. by right.
Qed.
End stm_lemmas.

(** Decomposes a hypothesis that a monadic program succeeded. *)
Ltac inv_res :=
  repeat match goal with
  | H : (_, _) = (_, _) |- _ => injection H as H
  | H : Ok _ = Ok _ |- _ => injection H as H
  | H : Err _ = Err _ |- _ => injection H as H
  | H : Some _ = Some _ |- _ => injection H as H
  | H : Ok _ = Err _ |- _ => discriminate H
  | H : Err _ = Ok _ |- _ => discriminate H
  | H : Some _ = None |- _ => discriminate H
  | H : None = Some _ |- _ => discriminate H
  | H : st_bind _ _ _ = (Ok _, _) |- _ =>
      let a := fresh "a" in let s := fresh "s" in let H1 := fresh "Hm" in
      apply st_bind_inv in H as (a & s & H1 & H)
  | H : res_bind ?m _ = Ok _ |- _ =>
      let E := fresh "Hm" in destruct m eqn:E; simpl in H
  | H : ok_or ?m _ = Ok _ |- _ =>
      let E := fresh "Hm" in destruct m eqn:E; simpl in H
  end; subst.

(** Case analysis on the [if] or [match] a hypothesis or the goal is stuck on. *)
Ltac case_if :=
  match goal with
  | H : context [if ?b then _ else _] |- _ => let E := fresh "Hc" in destruct b eqn:E
  | |- context [if ?b then _ else _] => let E := fresh "Hc" in destruct b eqn:E
  end.

(** Linear arithmetic with [/] and [mod] by constants. *)
Ltac zdiv := Z.to_euclidean_division_equations; lia.

(** ** Machine integers *)

Definition U8_MAX : Z := 255.
Definition U16_MAX : Z := 65535.
Definition U32_MAX : Z := 4294967295.
Definition U64_MAX : Z := 18446744073709551615.
Definition USIZE_MAX : Z := U64_MAX.

(** [as uN], and the bits a left shift keeps. *)
Definition wrap (w z : Z) : Z := z mod 2 ^ w.
Definition shl (w x k : Z) : Z := wrap w (Z.shiftl x k).

(** [as iN]: the two's complement reading of the low [w] bits. *)
Definition swrap (w z : Z) : Z := (z + 2 ^ (w - 1)) mod 2 ^ w - 2 ^ (w - 1).

Definition checked (max v : Z) : option Z := if v <=? max then Some v else None.
Definition checked_add (max a b : Z) : option Z := checked max (a + b).
Definition checked_mul (max a b : Z) : option Z := checked max (a * b).
Definition saturating_add (max a b : Z) : Z := Z.min max (a + b).
Definition saturating_mul (max a b : Z) : Z := Z.min max (a * b).
Definition saturating_sub (a b : Z) : Z := Z.max 0 (a - b).

Definition div_ceil (a b : Z) : Z := (a + b - 1) / b.

(** [leading_zeros] of a [w]-bit unsigned integer. *)
Definition leading_zeros (w v : Z) : Z := if v <=? 0 then w else w - 1 - Z.log2 v.

Definition b2z (b : bool) : Z := if b then 1 else 0.

(** [count_ones] of a [w]-bit unsigned integer. *)
Fixpoint count_ones_nat (w : nat) (v : Z) : Z :=
  match w with
  | O => 0
  | S w' => b2z (Z.odd v) + count_ones_nat w' (Z.div2 v)
  end.
Definition count_ones (w v : Z) : Z := count_ones_nat (Z.to_nat w) v.

(** Length of a list as a [usize]. *)
Definition len {A} (l : list A) : Z := Z.of_nat (length l).

(** [slice.get(i)] and [slice.get(a..b)] *)
Definition get {A} (l : list A) (i : Z) : option A :=
  if i <? 0 then None else l !! Z.to_nat i.
Definition get_range {A} (l : list A) (a b : Z) : option (list A) :=
  if (0 <=? a) && (a <=? b) && (b <=? len l)
  then Some (take (Z.to_nat (b - a)) (drop (Z.to_nat a) l)) else None.

(** [last_mut] with an update in place. *)
Definition update_last (f : Z → Z) (l : list Z) : list Z :=
  match length l with
  | O => l
  | S n => alter f n l
  end.

Definition is_byte (b : Z) : Prop := 0 <= b < 256.

(** [to_be_bytes] and [from_be_bytes] of an [n]-byte unsigned integer. *)
Fixpoint to_be_bytes (n : nat) (v : Z) : list Z :=
  match n with
  | O => []
  | S n' => to_be_bytes n' (v / 256) ++ [v mod 256]
  end.
Definition from_be_bytes (l : list Z) : Z := fold_left (λ acc b, acc * 256 + b) l 0.
