(* ===== verification/Bits.v ===== *)
(** Bits inside bytes: the reading every cursor of the crate uses (the most
    significant bit of a byte first), the packing of a bit string into bytes,
    and integers as big-endian bit strings. *)

From S2P Require Import Prelude.
From stdpp Require Import base list list_numbers numbers.
From Stdlib Require Import ZArith Lia.

Local Open Scope Z_scope.

(** ** Bit [k] of a byte, counted from the top *)

Definition byte_bit (byte k : Z) : bool := Z.land (Z.shiftr byte (7 - k)) 1 =? 1.

(** Bit [i] of a run of bytes; a bit past its end reads as unset. *)
Definition data_bit (data : list Z) (i : Z) : bool :=
  match get data (i / 8) with
  | Some byte => byte_bit byte (i mod 8)
  | None => false
  end.

(** The first [n] bits of a run of bytes. *)
Definition bits_of (data : list Z) (n : Z) : list bool := data_bit data <$> seqZ 0 n.

(** Sets bit [i] in place: [byte |= 1 << (7 - i % 8)]. *)
Definition data_or (i : Z) (data : list Z) : list Z :=
  alter (λ byte, Z.lor byte (Z.shiftl 1 (7 - i mod 8))) (Z.to_nat (i / 8)) data.

Definition byte_of (f : Z → bool) : Z :=
  b2z (f 0) * 128 + b2z (f 1) * 64 + b2z (f 2) * 32 + b2z (f 3) * 16 +
  b2z (f 4) * 8 + b2z (f 5) * 4 + b2z (f 6) * 2 + b2z (f 7).

Definition nth_bit (bs : list bool) (i : Z) : bool := default false (get bs i).

(** A bit string packed into the fewest bytes that hold it, zeros past its end. *)
Definition packed (bs : list bool) : list Z :=
  (λ j, byte_of (λ k, nth_bit bs (8 * j + k))) <$> seqZ 0 (div_ceil (len bs) 8).

(** The [n] low bits of an integer, the most significant first. *)
Fixpoint uint_bits (n : nat) (v : Z) : list bool :=
  match n with
  | O => []
  | S n' => Z.testbit v (Z.of_nat n') :: uint_bits n' v
  end.

(** The unsigned reading of a bit string: what [value = (value << 1) | bit] folds. *)
Definition bits_uint (bs : list bool) : Z := fold_left (λ v b, 2 * v + b2z b) bs 0.

(** ** Lists read by machine indices *)

Lemma len_nonneg {A} (l : list A) : 0 <= len l.
Proof. unfold len. lia. Qed.

Lemma len_app {A} (l1 l2 : list A) : len (l1 ++ l2) = len l1 + len l2.
Proof. unfold len. rewrite length_app. lia. Qed.

Lemma len_cons {A} (x : A) l : len (x :: l) = 1 + len l.
Proof. unfold len. simpl. lia. Qed.

Lemma get_Some_lt {A} (l : list A) i x : get l i = Some x → 0 <= i < len l.
Proof.
  unfold get, len. destruct (Z.ltb_spec i 0); [done|]. intros Hl%lookup_lt_Some. lia.
Qed.

Lemma get_lt_Some {A} (l : list A) i : 0 <= i < len l → ∃ x, get l i = Some x.
Proof.
  unfold get, len. intros H. destruct (Z.ltb_spec i 0); [lia|].
  apply lookup_lt_is_Some. lia.
Qed.

Lemma get_None {A} (l : list A) i : get l i = None ↔ i < 0 ∨ len l <= i.
Proof.
  unfold get, len. destruct (Z.ltb_spec i 0); [naive_solver lia|].
  rewrite lookup_ge_None. lia.
Qed.

Lemma get_of_nat {A} (l : list A) (i : nat) : get l (Z.of_nat i) = l !! i.
Proof. unfold get. destruct (Z.ltb_spec (Z.of_nat i) 0); [lia|]. by rewrite Nat2Z.id. Qed.

Lemma get_app_l {A} (l1 l2 : list A) i : i < len l1 → get (l1 ++ l2) i = get l1 i.
Proof.
  unfold get, len. intros H. destruct (Z.ltb_spec i 0); [done|].
  apply lookup_app_l. lia.
Qed.

Lemma get_app_r {A} (l1 l2 : list A) i :
  len l1 <= i → get (l1 ++ l2) i = get l2 (i - len l1).
Proof.
  unfold get, len. intros H. destruct (Z.ltb_spec i 0); [lia|].
  destruct (Z.ltb_spec (i - Z.of_nat (length l1)) 0); [lia|].
  rewrite lookup_app_r by lia. f_equal. lia.
Qed.

Lemma get_fmap {A B} (f : A → B) l i : get (f <$> l) i = f <$> get l i.
Proof. unfold get. destruct (Z.ltb_spec i 0); [done|]. apply list_lookup_fmap. Qed.

Lemma get_seqZ n i : 0 <= i < n → get (seqZ 0 n) i = Some i.
Proof.
  intros H. unfold get. destruct (Z.ltb_spec i 0); [lia|].
  apply lookup_seqZ. lia.
Qed.

Lemma len_seqZ m n : 0 <= n → len (seqZ m n) = n.
Proof. intros. unfold len. rewrite length_seqZ. lia. Qed.

Lemma len_fmap {A B} (f : A → B) l : len (f <$> l) = len l.
Proof. unfold len. by rewrite length_fmap. Qed.

Lemma list_get_ext {A} (l1 l2 : list A) :
  len l1 = len l2 → (∀ i, 0 <= i < len l1 → get l1 i = get l2 i) → l1 = l2.
Proof.
  intros Hlen H. apply list_eq. intros i. rewrite <- !get_of_nat.
  destruct (decide (Z.of_nat i < len l1)).
  - apply H. lia.
  - rewrite (proj2 (get_None l1 _)), (proj2 (get_None l2 _)); [done|lia..].
Qed.

(** ** Bytes *)

Lemma byte_bit_testbit b k : 0 <= k < 8 → byte_bit b k = Z.testbit b (7 - k).
Proof.
  intros Hk. unfold byte_bit.
  rewrite Z.testbit_odd. change 1 with (Z.ones 1) at 1. rewrite Z.land_ones by lia.
  change (2 ^ 1) with 2. rewrite Zmod_odd. by destruct (Z.odd _).
Qed.

Lemma is_byte_testbit_high b i : is_byte b → 8 <= i → Z.testbit b i = false.
Proof.
  intros [H0 H1] Hi. rewrite <- (Z.mod_small b (2 ^ 8)) by (simpl; lia).
  by apply Z.mod_pow2_bits_high.
Qed.

Lemma byte_ext a b :
  is_byte a → is_byte b → (∀ k, 0 <= k < 8 → byte_bit a k = byte_bit b k) → a = b.
Proof.
  intros Ha Hb H. apply Z.bits_inj'. intros i Hi.
  destruct (decide (i < 8)).
  - specialize (H (7 - i) ltac:(lia)). rewrite !byte_bit_testbit in H by lia.
    by replace (7 - (7 - i)) with i in H by lia.
  - rewrite !is_byte_testbit_high by (done || lia). done.
Qed.

Lemma byte_of_is_byte f : is_byte (byte_of f).
Proof.
  unfold byte_of, is_byte, b2z.
  repeat match goal with |- context [f ?k] => destruct (f k) end; lia.
Qed.

Lemma byte_of_ext f g : (∀ k, 0 <= k < 8 → f k = g k) → byte_of f = byte_of g.
Proof. intros H. unfold byte_of. by rewrite !H by lia. Qed.

Lemma byte_bit_byte_of f k : 0 <= k < 8 → byte_bit (byte_of f) k = f k.
Proof.
  intros Hk. unfold byte_of.
  assert (k = 0 ∨ k = 1 ∨ k = 2 ∨ k = 3 ∨ k = 4 ∨ k = 5 ∨ k = 6 ∨ k = 7) as Hcases by lia.
  destruct (f 0) eqn:?, (f 1) eqn:?, (f 2) eqn:?, (f 3) eqn:?,
    (f 4) eqn:?, (f 5) eqn:?, (f 6) eqn:?, (f 7) eqn:?;
  destruct Hcases as [->|[->|[->|[->|[->|[->|[->| ->]]]]]]]; simpl; by vm_compute; congruence.
Qed.

(** ** Runs of bytes *)

Lemma div_ceil_8 n : 0 <= n → 8 * div_ceil n 8 - 8 < n <= 8 * div_ceil n 8.
Proof. intros. unfold div_ceil. zdiv. Qed.

Lemma div_ceil_8_nonneg n : 0 <= n → 0 <= div_ceil n 8.
Proof. intros H. unfold div_ceil. apply Z.div_pos; lia. Qed.

Lemma data_bit_past data i : 8 * len data <= i → data_bit data i = false.
Proof.
  intros H. unfold data_bit. rewrite (proj2 (get_None data (i / 8))); [done|].
  right. pose proof (len_nonneg data). apply Z.div_le_lower_bound; lia.
Qed.

Lemma data_bit_app_l d1 d2 i : i < 8 * len d1 → data_bit (d1 ++ d2) i = data_bit d1 i.
Proof.
  intros H. unfold data_bit. rewrite get_app_l; [done|].
  apply Z.div_lt_upper_bound; lia.
Qed.

Lemma data_bit_app_r d1 d2 i :
  8 * len d1 <= i → data_bit (d1 ++ d2) i = data_bit d2 (i - 8 * len d1).
Proof.
  intros H. unfold data_bit. rewrite get_app_r.
  - replace (i - 8 * len d1) with (i + (- len d1) * 8) by lia.
    rewrite Z.div_add, Z.mod_add by lia. done.
  - apply Z.div_le_lower_bound; lia.
Qed.

Lemma data_ext d1 d2 :
  len d1 = len d2 → Forall is_byte d1 → Forall is_byte d2 →
  (∀ i, 0 <= i < 8 * len d1 → data_bit d1 i = data_bit d2 i) → d1 = d2.
Proof.
  intros Hlen H1 H2 H. apply list_get_ext; [done|]. intros j Hj.
  destruct (get_lt_Some d1 j ltac:(lia)) as [a Ha].
  destruct (get_lt_Some d2 j ltac:(lia)) as [b Hb].
  rewrite Ha, Hb. f_equal.
  assert (∀ l x, get l j = Some x → Forall is_byte l → is_byte x) as Hin.
  { intros l x Hx. unfold get in Hx. destruct (j <? 0); [done|].
    intros Hl. by eapply Forall_lookup_1. }
  apply byte_ext; [by eapply Hin..|]. intros k Hk.
  specialize (H (8 * j + k) ltac:(lia)). unfold data_bit in H.
  replace ((8 * j + k) / 8) with j in H by (apply (Z.div_unique _ 8 _ k); lia).
  replace ((8 * j + k) mod 8) with k in H by (apply (Z.mod_unique _ 8 j); lia).
  by rewrite Ha, Hb in H.
Qed.

Lemma len_packed bs : len (packed bs) = div_ceil (len bs) 8.
Proof.
  unfold packed. rewrite len_fmap. apply len_seqZ, div_ceil_8_nonneg, len_nonneg.
Qed.

Lemma packed_bytes bs : Forall is_byte (packed bs).
Proof. apply Forall_fmap, Forall_true. intros. apply byte_of_is_byte. Qed.

Lemma nth_bit_past bs i : len bs <= i → nth_bit bs i = false.
Proof. intros. unfold nth_bit. by rewrite (proj2 (get_None bs i)) by lia. Qed.

Lemma nth_bit_app_l b1 b2 i : i < len b1 → nth_bit (b1 ++ b2) i = nth_bit b1 i.
Proof. intros. unfold nth_bit. by rewrite get_app_l. Qed.

Lemma nth_bit_app_r b1 b2 i : len b1 <= i → nth_bit (b1 ++ b2) i = nth_bit b2 (i - len b1).
Proof. intros. unfold nth_bit. by rewrite get_app_r. Qed.

Lemma data_bit_packed bs i : 0 <= i → data_bit (packed bs) i = nth_bit bs i.
Proof.
  intros Hi. pose proof (div_ceil_8 (len bs) (len_nonneg bs)).
  destruct (decide (i < 8 * div_ceil (len bs) 8)).
  - unfold data_bit, packed. rewrite get_fmap, get_seqZ.
    + simpl. rewrite byte_bit_byte_of by (apply Z.mod_pos_bound; lia).
      f_equal. pose proof (Z.div_mod i 8). lia.
    + split; [apply Z.div_pos; lia|apply Z.div_lt_upper_bound; lia].
  - rewrite data_bit_past by (rewrite len_packed; lia).
    rewrite nth_bit_past; [done|lia].
Qed.

(** A run of bytes of the right size, whose bits are [bs] and then zeros, is
    the packing of [bs]. *)
Lemma packed_unique d bs :
  len d = div_ceil (len bs) 8 → Forall is_byte d →
  (∀ i, 0 <= i → data_bit d i = nth_bit bs i) → d = packed bs.
Proof.
  intros Hlen Hd H. apply data_ext; [by rewrite len_packed|done|apply packed_bytes|].
  intros i Hi. rewrite H, data_bit_packed; [done|lia..].
Qed.

Lemma len_data_or i d : len (data_or i d) = len d.
Proof. unfold data_or, len. by rewrite length_alter. Qed.

Lemma lor_bit_byte b k : is_byte b → 0 <= k < 8 → is_byte (Z.lor b (Z.shiftl 1 k)).
Proof.
  intros Hb Hk. rewrite Z.shiftl_1_l. unfold is_byte in *.
  assert (2 ^ k <= 2 ^ 7) by (apply Z.pow_le_mono_r; lia).
  assert (0 < 2 ^ k) by (apply Z.pow_pos_nonneg; lia).
  split; [apply Z.lor_nonneg; lia|].
  change 256 with (2 ^ 8). apply Z.log2_lt_cancel. rewrite Z.log2_lor by lia.
  change (Z.log2 (2 ^ 8)) with 8. rewrite Z.log2_pow2 by lia.
  assert (Z.log2 b <= Z.log2 255) by (apply Z.log2_le_mono; lia).
  change (Z.log2 255) with 7 in *. lia.
Qed.

Lemma data_or_bytes i d : Forall is_byte d → Forall is_byte (data_or i d).
Proof.
  intros H. unfold data_or. apply Forall_alter; [done|]. intros b _ Hb.
  pose proof (Z.mod_pos_bound i 8 ltac:(lia)). apply lor_bit_byte; [done|lia].
Qed.

Lemma data_bit_or d i j :
  0 <= i < 8 * len d → 0 <= j → data_bit (data_or i d) j = data_bit d j || (j =? i).
Proof.
  intros Hi Hj. unfold data_bit, data_or, get.
  assert (0 <= i / 8) by (apply Z.div_pos; lia).
  assert (0 <= j / 8) by (apply Z.div_pos; lia).
  assert (i / 8 < len d) by (apply Z.div_lt_upper_bound; lia).
  pose proof (Z.div_mod i 8 ltac:(lia)). pose proof (Z.div_mod j 8 ltac:(lia)).
  pose proof (Z.mod_pos_bound i 8 ltac:(lia)). pose proof (Z.mod_pos_bound j 8 ltac:(lia)).
  destruct (Z.ltb_spec (j / 8) 0); [lia|].
  destruct (decide (j / 8 = i / 8)) as [E|E].
  - rewrite E, list_lookup_alter_eq. unfold len in *.
    destruct (lookup_lt_is_Some_2 d (Z.to_nat (i / 8))) as [b Hb]; [lia|].
    rewrite Hb. simpl. rewrite !byte_bit_testbit by lia.
    rewrite Z.lor_spec, Z.shiftl_1_l, Z.pow2_bits_eqb by lia. f_equal.
    destruct (Z.eqb_spec (7 - i mod 8) (7 - j mod 8)), (Z.eqb_spec j i); lia.
  - rewrite list_lookup_alter_ne by lia.
    destruct (Z.eqb_spec j i) as [->|]; [done|]. by rewrite orb_false_r.
Qed.

Lemma update_last_or k d i :
  len d = 1 + i / 8 → 0 <= i → k = i mod 8 →
  update_last (λ byte, Z.lor byte (Z.shiftl 1 (7 - k))) d = data_or i d.
Proof.
  intros Hlen Hi ->. unfold update_last, data_or, len in *.
  assert (0 <= i / 8) by zdiv.
  destruct (length d) as [|m] eqn:E; [lia|]. f_equal. lia.
Qed.

(** Appending one bit to a packed bit string, the way [Builder::store_bit] does
    it: open a byte on a byte boundary, then set the bit in the last byte. *)
Lemma packed_snoc bs b :
  packed (bs ++ [b]) =
    let d := if len bs mod 8 =? 0 then packed bs ++ [0] else packed bs in
    if b then update_last (λ byte, Z.lor byte (Z.shiftl 1 (7 - len bs mod 8))) d else d.
Proof.
  pose proof (len_nonneg bs) as Hn. pose proof (len_packed bs) as Hp.
  unfold div_ceil in Hp.
  set (d := if len bs mod 8 =? 0 then packed bs ++ [0] else packed bs).
  assert (len d = 1 + len bs / 8) as Hd.
  { subst d. destruct (Z.eqb_spec (len bs mod 8) 0); rewrite ?len_app, Hp;
      change (len [0]) with 1; zdiv. }
  assert (Forall is_byte d) as Hb.
  { subst d. destruct (_ =? _); [|apply packed_bytes].
    apply Forall_app; split; [apply packed_bytes|]. apply Forall_singleton. unfold is_byte; lia. }
  assert (∀ i, 0 <= i → data_bit d i = nth_bit bs i) as Hbits.
  { intros i Hi. subst d. destruct (Z.eqb_spec (len bs mod 8) 0) as [E|E];
      [|by apply data_bit_packed].
    destruct (decide (i < 8 * len (packed bs))).
    - rewrite data_bit_app_l by lia. by apply data_bit_packed.
    - rewrite data_bit_app_r, nth_bit_past by zdiv.
      unfold data_bit, get. destruct (_ <? 0); [done|].
      destruct (Z.to_nat _) as [|[|?]]; simpl; try done.
      unfold byte_bit. by rewrite Z.shiftr_0_l. }
  cbv zeta. symmetry. assert (len (bs ++ [b]) = len bs + 1) as Hlen by by rewrite len_app.
  assert (∀ i, 0 <= i → nth_bit (bs ++ [b]) i = nth_bit bs i || ((i =? len bs) && b)) as Hsnoc.
  { intros i Hi. destruct (Z.eqb_spec i (len bs)) as [->|]; simpl.
    - rewrite nth_bit_app_r, (nth_bit_past bs) by lia. by rewrite Z.sub_diag.
    - rewrite orb_false_r. destruct (decide (i < len bs)); [by apply nth_bit_app_l|].
      by rewrite !nth_bit_past by lia. }
  destruct b.
  - rewrite (update_last_or _ _ (len bs)) by (done || lia).
    apply packed_unique; [rewrite len_data_or, Hd, Hlen; unfold div_ceil; zdiv|by apply data_or_bytes|].
    intros i Hi. rewrite data_bit_or by zdiv. rewrite Hbits, Hsnoc by done.
    by rewrite andb_true_r.
  - apply packed_unique; [rewrite Hd, Hlen; unfold div_ceil; zdiv|done|].
    intros i Hi. rewrite Hbits, Hsnoc by done. by rewrite andb_false_r, orb_false_r.
Qed.

Lemma packed_nil : packed [] = [].
Proof. reflexivity. Qed.

(** ** The first bits of a run of bytes *)

Lemma len_bits_of d n : 0 <= n → len (bits_of d n) = n.
Proof. intros. unfold bits_of. rewrite len_fmap. by apply len_seqZ. Qed.

Lemma get_bits_of d n i : 0 <= i < n → get (bits_of d n) i = Some (data_bit d i).
Proof. intros. unfold bits_of. by rewrite get_fmap, get_seqZ. Qed.

Lemma bits_of_unique d bs :
  (∀ i, 0 <= i < len bs → data_bit d i = nth_bit bs i) → bits_of d (len bs) = bs.
Proof.
  intros H. pose proof (len_nonneg bs).
  apply list_get_ext; rewrite len_bits_of by done; [done|].
  intros i Hi. rewrite get_bits_of, H by done. unfold nth_bit.
  by destruct (get_lt_Some bs i Hi) as [x ->].
Qed.

Lemma bits_of_packed bs : bits_of (packed bs) (len bs) = bs.
Proof. apply bits_of_unique. intros. apply data_bit_packed. lia. Qed.

(** The completion bit past the end of the data is not one of its bits. *)
Lemma bits_of_completed bs :
  len bs mod 8 ≠ 0 → bits_of (data_or (len bs) (packed bs)) (len bs) = bs.
Proof.
  intros Hm. pose proof (len_nonneg bs). pose proof (len_packed bs) as Hp. unfold div_ceil in Hp.
  apply bits_of_unique. intros i Hi.
  rewrite data_bit_or by zdiv. rewrite data_bit_packed by lia.
  destruct (Z.eqb_spec i (len bs)); [lia|]. apply orb_false_r.
Qed.

(** ** Integers as bit strings *)

Lemma length_uint_bits n v : length (uint_bits n v) = n.
Proof. induction n; simpl; congruence. Qed.

Lemma len_uint_bits n v : len (uint_bits n v) = Z.of_nat n.
Proof. unfold len. by rewrite length_uint_bits. Qed.

Lemma bits_uint_acc bs v :
  fold_left (λ v b, 2 * v + b2z b) bs v = v * 2 ^ len bs + bits_uint bs.
Proof.
  revert v. induction bs as [|b bs IH]; intros v.
  - unfold len, bits_uint. simpl. lia.
  - unfold bits_uint. cbn [fold_left]. rewrite IH, (IH (2 * 0 + b2z b)).
    replace (len (b :: bs)) with (1 + len bs) by (unfold len; simpl; lia).
    rewrite Z.pow_add_r by (pose proof (len_nonneg bs); lia). lia.
Qed.

Lemma bits_uint_cons b bs : bits_uint (b :: bs) = b2z b * 2 ^ len bs + bits_uint bs.
Proof. unfold bits_uint at 1. cbn [fold_left]. rewrite bits_uint_acc. lia. Qed.

Lemma bits_uint_app b1 b2 : bits_uint (b1 ++ b2) = bits_uint b1 * 2 ^ len b2 + bits_uint b2.
Proof. unfold bits_uint at 1. rewrite fold_left_app. apply bits_uint_acc. Qed.

Lemma bits_uint_range bs : 0 <= bits_uint bs < 2 ^ len bs.
Proof.
  induction bs as [|b bs IH]; [unfold bits_uint, len; simpl; lia|].
  rewrite bits_uint_cons.
  replace (len (b :: bs)) with (1 + len bs) by (unfold len; simpl; lia).
  rewrite Z.pow_add_r by (pose proof (len_nonneg bs); lia).
  destruct b; simpl; lia.
Qed.

Lemma bits_uint_uint_bits n v : bits_uint (uint_bits n v) = v mod 2 ^ Z.of_nat n.
Proof.
  induction n as [|n IH]; [by rewrite Z.mod_1_r|].
  simpl uint_bits. rewrite bits_uint_cons, IH, len_uint_bits.
  rewrite Nat2Z.inj_succ, Z.pow_succ_r by lia.
  assert (0 < 2 ^ Z.of_nat n) by (apply Z.pow_pos_nonneg; lia).
  rewrite (Z.mul_comm 2), Z.rem_mul_r by lia.
  enough (b2z (Z.testbit v (Z.of_nat n)) = (v / 2 ^ Z.of_nat n) mod 2) by lia.
  rewrite <- Z.testbit_spec' by lia. by destruct (Z.testbit _ _).
Qed.

Lemma uint_bits_id n v : 0 <= v < 2 ^ Z.of_nat n → bits_uint (uint_bits n v) = v.
Proof. intros. rewrite bits_uint_uint_bits. by apply Z.mod_small. Qed.

Lemma bits_uint_inj b1 b2 : length b1 = length b2 → bits_uint b1 = bits_uint b2 → b1 = b2.
Proof.
  revert b2. induction b1 as [|x b1 IH]; intros [|y b2] Hlen; try done.
  rewrite !bits_uint_cons. simpl in Hlen.
  assert (len b1 = len b2) as -> by (unfold len; lia).
  pose proof (bits_uint_range b1). pose proof (bits_uint_range b2).
  assert (len b1 = len b2) as Hl by (unfold len; lia). rewrite Hl in *.
  intros H'. assert (x = y) as -> by (destruct x, y; simpl in *; lia || done).
  f_equal. apply IH; lia.
Qed.

Lemma uint_bits_bits_uint bs : uint_bits (length bs) (bits_uint bs) = bs.
Proof.
  apply bits_uint_inj; [apply length_uint_bits|].
  apply uint_bits_id, bits_uint_range.
Qed.

Lemma uint_bits_mod n v m : Z.of_nat n <= m → uint_bits n (v mod 2 ^ m) = uint_bits n v.
Proof.
  intros Hm. apply bits_uint_inj; [by rewrite !length_uint_bits|].
  rewrite !bits_uint_uint_bits.
  replace m with (Z.of_nat n + (m - Z.of_nat n)) by lia.
  rewrite Z.pow_add_r, Z.rem_mul_r by (try apply Z.pow_pos_nonneg; lia).
  assert (0 < 2 ^ Z.of_nat n) by (apply Z.pow_pos_nonneg; lia).
  rewrite Z.mul_comm, Z.mod_add by lia. by rewrite Z.mod_mod by lia.
Qed.

Lemma uint_bits_app n m v : uint_bits (n + m) v = uint_bits n (v / 2 ^ Z.of_nat m) ++ uint_bits m v.
Proof.
  induction n as [|n IH]; [done|]. simpl. rewrite IH. f_equal.
  rewrite Z.div_pow2_bits by lia. f_equal. lia.
Qed.

(** ** Enumeration of small ranges, for facts decided by computation *)

Lemma decide_range (P : Z → Prop) `{∀ x, Decision (P x)} n :
  forallb (λ x, bool_decide (P x)) (seqZ 0 n) = true → ∀ x, 0 <= x < n → P x.
Proof.
  intros Hall x Hx. rewrite forallb_forall in Hall.
  apply (bool_decide_eq_true_1 _), Hall, list_elem_of_In, elem_of_seqZ. lia.
Qed.

Lemma decide_range2 (P : Z → Z → Prop) `{∀ x y, Decision (P x y)} n m :
  forallb (λ x, forallb (λ y, bool_decide (P x y)) (seqZ 0 m)) (seqZ 0 n) = true →
  ∀ x y, 0 <= x < n → 0 <= y < m → P x y.
Proof.
  intros Hall x y Hx Hy. apply (decide_range (P x) m); [|done].
  rewrite forallb_forall in Hall. apply Hall, list_elem_of_In, elem_of_seqZ. lia.
Qed.

Ltac enum_goal :=
  lazymatch goal with
  | |- forallb _ _ = true => vm_compute; reflexivity
  | |- _ => intros; cbv beta; solve [apply _]
  end.
Ltac enum1 :=
  lazymatch goal with
  | |- ∀ x, 0 <= x < ?n → @?P x => unshelve refine (@decide_range P _ n _); enum_goal
  end.
Ltac enum2 :=
  lazymatch goal with
  | |- ∀ x y, 0 <= x < ?n → 0 <= y < ?m → @?P x y =>
      unshelve refine (@decide_range2 P _ n m _); enum_goal
  end.

(** Proves that a literal list of bytes is one. *)
Ltac solve_bytes := repeat (apply Forall_cons_2; [unfold is_byte; lia|]); apply Forall_nil_2.

(** ** Signed readings *)

Lemma swrap_mod w x : 0 < w → swrap w (x mod 2 ^ w) = swrap w x.
Proof. intros. unfold swrap. by rewrite Z.add_mod_idemp_l by (apply Z.pow_nonzero; lia). Qed.

Lemma swrap_small w x : 0 < w → - 2 ^ (w - 1) <= x < 2 ^ (w - 1) → swrap w x = x.
Proof.
  intros Hw Hx. unfold swrap.
  assert (2 ^ w = 2 * 2 ^ (w - 1)) as Hp
    by (rewrite <- Z.pow_succ_r by lia; f_equal; lia).
  rewrite Z.mod_small by lia. lia.
Qed.

(** Shifting the low [n] bits up to the top and back extends their sign. *)
Lemma sign_extend w n v :
  0 < n <= w → - 2 ^ (n - 1) <= v < 2 ^ (n - 1) →
  Z.shiftr (swrap w (shl w (v mod 2 ^ n) (w - n))) (w - n) = v.
Proof.
  intros Hn Hv. set (k := w - n). assert (0 <= k) by (subst k; lia).
  assert (0 < 2 ^ k) by (apply Z.pow_pos_nonneg; lia).
  assert (2 ^ w = 2 ^ n * 2 ^ k) as Hw by (rewrite <- Z.pow_add_r by lia; f_equal; subst k; lia).
  assert (2 ^ (w - 1) = 2 ^ (n - 1) * 2 ^ k) as Hw1
    by (rewrite <- Z.pow_add_r by lia; f_equal; subst k; lia).
  unfold shl, wrap. rewrite Z.shiftl_mul_pow2 by done.
  rewrite <- Z.mul_mod_distr_r by (try apply Z.pow_nonzero; lia).
  rewrite <- Hw, Z.mod_mod by (apply Z.pow_nonzero; lia).
  rewrite swrap_mod, swrap_small by nia.
  rewrite Z.shiftr_div_pow2, Z.div_mul by lia. done.
Qed.

(** ** Bytes as bit strings *)

Definition bytes_bits (l : list Z) : list bool := concat (uint_bits 8 <$> l).

Lemma bytes_bits_cons b l : bytes_bits (b :: l) = uint_bits 8 b ++ bytes_bits l.
Proof. done. Qed.

Lemma bytes_bits_app l1 l2 : bytes_bits (l1 ++ l2) = bytes_bits l1 ++ bytes_bits l2.
Proof. unfold bytes_bits. by rewrite fmap_app, concat_app. Qed.

Lemma len_bytes_bits l : len (bytes_bits l) = 8 * len l.
Proof.
  induction l as [|b l IH]; [done|].
  rewrite bytes_bits_cons, len_app, len_uint_bits, IH. unfold len. simpl length. lia.
Qed.

(** ** Integers as bytes *)

Lemma length_to_be_bytes n v : length (to_be_bytes n v) = n.
Proof. revert v. induction n as [|n IH]; intros v; simpl; [done|]. rewrite length_app, IH. simpl. lia. Qed.

Lemma to_be_bytes_bytes n v : Forall is_byte (to_be_bytes n v).
Proof.
  revert v. induction n as [|n IH]; intros v; simpl; [constructor|].
  apply Forall_app. split; [apply IH|]. constructor; [|constructor]. by apply Z.mod_pos_bound.
Qed.

Lemma from_be_snoc l b : from_be_bytes (l ++ [b]) = from_be_bytes l * 256 + b.
Proof. unfold from_be_bytes. by rewrite fold_left_app. Qed.

Lemma from_to_be_bytes n v : 0 <= v < 256 ^ Z.of_nat n → from_be_bytes (to_be_bytes n v) = v.
Proof.
  revert v. induction n as [|n IH]; intros v Hv; [unfold from_be_bytes; simpl in *; lia|]. cbn [to_be_bytes].
  rewrite from_be_snoc, IH; [pose proof (Z.div_mod v 256); lia|].
  rewrite Nat2Z.inj_succ, Z.pow_succ_r in Hv by lia. split; [apply Z.div_pos; lia|].
  apply Z.div_lt_upper_bound; lia.
Qed.

Lemma from_be_bounds l : Forall is_byte l → 0 <= from_be_bytes l < 256 ^ len l.
Proof.
  induction l as [|b l IH] using rev_ind; intros Hl; [by vm_compute|].
  apply Forall_app in Hl as [Hl Hb]. rewrite Forall_singleton in Hb. specialize (IH Hl).
  rewrite from_be_snoc, len_app. change (len [b]) with 1. pose proof (len_nonneg l).
  rewrite Z.pow_add_r by lia. unfold is_byte in Hb. rewrite Z.pow_1_r. set (m := 256 ^ len l) in *. clearbody m. lia.
Qed.

Lemma to_be_bytes_drop n m v :
  drop n (to_be_bytes (n + m) v) = to_be_bytes m v.
Proof.
  revert v. induction m as [|m IH]; intros v.
  - rewrite Nat.add_0_r. apply drop_ge. by rewrite length_to_be_bytes.
  - rewrite Nat.add_succ_r. simpl. rewrite drop_app_le by (rewrite length_to_be_bytes; lia). by rewrite IH.
Qed.
