(* ===== verification/Search.v ===== *)
(** What the proofs use of the standard library on sorted vectors: the order of
    byte strings, binary search, insertion where a search points, and sorting. *)

From stdpp Require Import base list list_numbers numbers sorting.
From Stdlib Require Import ZArith Lia.
From S2P Require Import Prelude Bits.

Local Open Scope Z_scope.

(** ** Byte strings in order: [Ord] for [[u8; N]] *)

Definition bytes_cmp : list Z → list Z → comparison := list_compare Z.compare.
Definition bytes_lt (a b : list Z) : Prop := bytes_cmp a b = Lt.
Definition bytes_le (a b : list Z) : Prop := bytes_cmp a b ≠ Gt.

#[export] Instance bytes_le_dec a b : Decision (bytes_le a b).
Proof. unfold bytes_le. apply _. Defined.

Lemma bytes_cmp_eq a b : bytes_cmp a b = Eq ↔ a = b.
Proof. apply list_compare_refl, Z.compare_eq_iff. Qed.

Lemma bytes_cmp_opp a b : bytes_cmp b a = CompOpp (bytes_cmp a b).
Proof.
  apply list_compare_antisym; [apply Z.compare_eq_iff|]. intros x y. apply Z.compare_antisym.
Qed.

Lemma bytes_cmp_trans a b c r : bytes_cmp a b = r → bytes_cmp b c = r → bytes_cmp a c = r.
Proof.
  apply list_compare_trans; [apply Z.compare_eq_iff| |intros; apply Z.compare_antisym].
  intros x y z []; rewrite ?Z.compare_eq_iff, ?Z.compare_lt_iff, ?Z.compare_gt_iff; lia.
Qed.

#[export] Instance bytes_lt_trans : Transitive bytes_lt.
Proof. intros a b c. apply bytes_cmp_trans. Qed.

Lemma bytes_lt_irrefl a : ¬ bytes_lt a a.
Proof. unfold bytes_lt. by rewrite (proj2 (bytes_cmp_eq a a)). Qed.

Lemma bytes_gt_lt a b : bytes_cmp a b = Gt ↔ bytes_lt b a.
Proof. unfold bytes_lt. rewrite (bytes_cmp_opp a b). by destruct (bytes_cmp a b). Qed.

#[export] Instance bytes_le_total : Total bytes_le.
Proof. intros a b. unfold bytes_le. rewrite (bytes_cmp_opp a b). destruct (bytes_cmp a b); simpl; auto. Qed.

Lemma bytes_le_cases a b : bytes_le a b ↔ a = b ∨ bytes_lt a b.
Proof. unfold bytes_le, bytes_lt. rewrite <- bytes_cmp_eq. destruct (bytes_cmp a b); split; intros; try done; auto; by destruct_or!. Qed.

#[export] Instance bytes_le_trans : Transitive bytes_le.
Proof.
  intros a b c. rewrite !bytes_le_cases. intros [->|Hab] [->|Hbc]; auto. right. by trans b.
Qed.

(** ** [binary_search_by] *)

Section search.
Context {A : Type} (f : A → comparison).

(** The size halves, rounded up, so one round per element is more than enough. *)
Fixpoint search_loop (fuel : nat) (l : list A) (base size : Z) : Z :=
  match fuel with
  | O => base
  | S fuel' =>
      if size <=? 1 then base
      else
        let half := size / 2 in
        let mid := base + half in
        let base := match f <$> get l mid with Some Gt => base | _ => mid end in
        search_loop fuel' l base (size - half)
  end.

Definition binary_search_by (l : list A) : Z + Z :=
  let size := len l in
  if size =? 0 then inr 0
  else
    let base := search_loop (length l) l 0 size in
    match f <$> get l base with
    | Some Eq => inl base
    | Some Lt => inr (base + 1)
    | _ => inr base
    end.

(** The answers of [f] along the list rise from below to above. *)
Definition rising (l : list A) : Prop :=
  ∀ i j x y, 0 <= i < j → get l i = Some x → get l j = Some y →
    (f y ≠ Gt → f x = Lt) ∧ (f x ≠ Lt → f y = Gt).

Lemma search_loop_spec l fuel base size :
  rising l → 0 <= base → 1 <= size <= Z.of_nat fuel → base + size <= len l →
  (0 < base → ∃ x, get l base = Some x ∧ f x ≠ Gt) →
  (∀ j x, base + size <= j → get l j = Some x → f x = Gt) →
  ∃ base', search_loop fuel l base size = base' ∧ 0 <= base' < len l ∧
    (0 < base' → ∃ x, get l base' = Some x ∧ f x ≠ Gt) ∧
    (∀ j x, base' < j → get l j = Some x → f x = Gt).
Proof.
  intros Hr. revert base size. induction fuel as [|fuel IH]; intros base size Hb Hs Hl Hlo Hhi; [lia|].
  simpl. case_if.
  - exists base. split; [done|]. split; [lia|]. split; [done|]. intros j x Hj. apply Hhi. lia.
  - assert (2 * (size / 2) <= size ∧ 1 <= size / 2 < size) as [Hh2 Hh] by zdiv.
    destruct (get_lt_Some l (base + size / 2)) as [m Hm]; [lia|]. rewrite Hm. simpl.
    destruct (f m) eqn:Ef.
    + apply IH; try lia; [intros _; exists m; split; [done|congruence]|intros j x Hj; apply Hhi; lia].
    + apply IH; try lia; [intros _; exists m; split; [done|congruence]|intros j x Hj; apply Hhi; lia].
    + apply IH; try lia; [done|]. intros j x Hj Hx.
      destruct (decide (j = base + size / 2)) as [->|]; [congruence|].
      destruct (Hr (base + size / 2) j m x) as [_ H]; [lia|done..|]. apply H. congruence.
Qed.

Lemma binary_search_rising l :
  rising l →
  match binary_search_by l with
  | inl i => ∃ x, get l i = Some x ∧ f x = Eq
  | inr i => 0 <= i <= len l ∧
      (∀ j x, j < i → get l j = Some x → f x = Lt) ∧ (∀ j x, i <= j → get l j = Some x → f x = Gt)
  end.
Proof.
  intros Hr. unfold binary_search_by. destruct (Z.eqb_spec (len l) 0) as [E|E].
  - split; [lia|]. split; intros j x Hj Hx%get_Some_lt; lia.
  - pose proof (len_nonneg l).
    destruct (search_loop_spec l (length l) 0 (len l) Hr) as (b & -> & Hb & Hlo & Hhi);
      [lia|unfold len in *; lia|lia|lia|intros j x Hj Hx%get_Some_lt; lia|].
    destruct (get_lt_Some l b) as [m Hm]; [lia|]. rewrite Hm. simpl.
    assert (f m ≠ Gt → ∀ j x, j < b → get l j = Some x → f x = Lt) as Hbelow.
    { intros Hne j x Hj Hx. pose proof (get_Some_lt _ _ _ Hx). destruct (Hr j b x m) as [Hlt _]; [lia|done..|by apply Hlt]. }
    destruct (f m) eqn:Ef; [by exists m| |].
    + split; [lia|]. split.
      * intros j x Hj Hx. destruct (decide (j = b)) as [->|]; [congruence|].
        apply Hbelow with j; [congruence|lia|done].
      * intros j x Hj. apply Hhi. lia.
    + split; [lia|]. split.
      * intros j x Hj Hx. pose proof (get_Some_lt _ _ _ Hx). destruct Hlo as (y & Hy & Hn); [lia|]. congruence.
      * intros j x Hj Hx. destruct (decide (j = b)) as [->|]; [congruence|]. apply Hhi with j; [lia|done].
Qed.
End search.

(** [partition_point]: a search that takes an element for less than what is sought
    where the predicate holds. *)
Definition partition_point {A} (pred : A → bool) (l : list A) : Z :=
  match binary_search_by (λ x, if pred x then Lt else Gt) l with inl i | inr i => i end.

(** ** Lists sorted by a key *)

Section keyed.
Context {A : Type} (key : A → list Z).

Definition key_sorted : list A → Prop := StronglySorted (λ x y, bytes_lt (key x) (key y)).

Lemma key_sorted_get l i j x y :
  key_sorted l → 0 <= i < j → get l i = Some x → get l j = Some y → bytes_lt (key x) (key y).
Proof.
  unfold get. intros Hs Hij. rewrite !(proj2 (Z.ltb_ge _ _)) by lia. intros Hx Hy.
  revert Hs. rewrite <- (take_drop_middle l (Z.to_nat i) x Hx). intros (_ & _ & Hs)%StronglySorted_app.
  apply StronglySorted_cons in Hs as [Hs _]. rewrite Forall_forall in Hs. apply Hs.
  apply (list_elem_of_lookup_2 _ (Z.to_nat j - S (Z.to_nat i))). rewrite lookup_drop. rewrite <- Hy. f_equal. lia.
Qed.

Definition search (k : list Z) (l : list A) : Z + Z := binary_search_by (λ x, bytes_cmp (key x) k) l.

Lemma sorted_rising k l : key_sorted l → rising (λ x, bytes_cmp (key x) k) l.
Proof.
  intros Hs i j x y Hij Hx Hy. pose proof (key_sorted_get _ _ _ _ _ Hs Hij Hx Hy) as Hlt. split.
  - intros Hle. apply bytes_le_cases in Hle as [<-|]; [done|]. by apply (bytes_lt_trans _ (key y)).
  - intros Hge. apply bytes_gt_lt. destruct (bytes_cmp (key x) k) eqn:E; [|done|].
    + by apply bytes_cmp_eq in E as <-.
    + apply bytes_gt_lt in E. by apply (bytes_lt_trans _ (key x)).
Qed.

(** A search of a sorted vector finds the entry of the key, or the place it would have. *)
Lemma search_spec k l :
  key_sorted l →
  match search k l with
  | inl i => ∃ x, get l i = Some x ∧ key x = k
  | inr i => ¬ k ∈ key <$> l ∧ ∃ below above, l = below ++ above ∧ len below = i ∧
      Forall (λ x, bytes_lt (key x) k) below ∧ Forall (λ x, bytes_lt k (key x)) above
  end.
Proof.
  intros Hs. pose proof (binary_search_rising _ _ (sorted_rising k l Hs)) as H. fold (search k l) in H.
  destruct (search k l) as [i|i].
  - destruct H as (x & Hx & E%bytes_cmp_eq). by exists x.
  - destruct H as (Hi & Hlt & Hgt).
    assert (∃ below above, l = below ++ above ∧ len below = i ∧
      Forall (λ x, bytes_lt (key x) k) below ∧ Forall (λ x, bytes_lt k (key x)) above) as Hsplit.
    { exists (take (Z.to_nat i) l), (drop (Z.to_nat i) l). split; [by rewrite take_drop|].
      assert (len (take (Z.to_nat i) l) = i) as El by (unfold len in *; rewrite length_take; lia).
      split; [done|]. split; apply Forall_forall; intros x [n Hn]%list_elem_of_lookup.
      - apply (Hlt (Z.of_nat n)); [apply lookup_lt_Some in Hn; unfold len in El; lia|]. rewrite get_of_nat.
        by apply lookup_take_Some in Hn as [? _].
      - apply bytes_gt_lt, (Hgt (i + Z.of_nat n)); [lia|]. rewrite lookup_drop in Hn.
        replace (i + Z.of_nat n) with (Z.of_nat (Z.to_nat i + n)) by lia. by rewrite get_of_nat. }
    split; [|done]. destruct Hsplit as (lo & hi & -> & _ & Hlo & Hhi).
    rewrite fmap_app, elem_of_app, !list_elem_of_fmap. rewrite Forall_forall in Hlo, Hhi.
    intros [(x & -> & Hx)|(x & -> & Hx)]; [by apply (bytes_lt_irrefl (key x)), Hlo|by apply (bytes_lt_irrefl (key x)), Hhi].
Qed.

Lemma key_sorted_NoDup l : key_sorted l → NoDup (key <$> l).
Proof.
  induction 1 as [|x l Hs IH Hx]; [constructor|]. rewrite fmap_cons. constructor; [|done].
  intros (y & E & Hy)%list_elem_of_fmap. rewrite Forall_forall in Hx. apply Hx in Hy.
  rewrite <- E in Hy. by apply bytes_lt_irrefl in Hy.
Qed.

(** [sort_unstable_by_key]. Which of two entries of one key comes first the
    standard library leaves open; here it is the one that came first. *)
Definition sort_by_key (l : list A) : list A := merge_sort (λ x y, bytes_le (key x) (key y)) l.

#[local] Instance key_le_total : Total (λ x y, bytes_le (key x) (key y)).
Proof. intros x y. apply bytes_le_total. Qed.
#[local] Instance key_le_trans : Transitive (λ x y, bytes_le (key x) (key y)).
Proof. intros x y z. apply bytes_le_trans. Qed.

Lemma sort_by_key_permutes l : sort_by_key l ≡ₚ l.
Proof. apply merge_sort_Permutation. Qed.

(** Neighbours of a sorted vector with the same key. *)
Definition repeats (l : list A) : bool :=
  existsb (λ '(x, y), bool_decide (key x = key y)) (zip l (drop 1 l)).

Lemma sort_by_key_strict l : repeats (sort_by_key l) = false → key_sorted (sort_by_key l).
Proof.
  assert (Sorted (λ x y, bytes_le (key x) (key y)) (sort_by_key l)) as Hs by apply Sorted_merge_sort, _.
  revert Hs. generalize (sort_by_key l). clear l. intros l Hs Hr.
  assert (Transitive (λ x y, bytes_lt (key x) (key y))) as Ht by (intros x y z; apply bytes_lt_trans).
  apply Sorted_StronglySorted; [done|]. induction Hs as [|x l Hs IH Hd]; [constructor|].
  constructor; [|].
  - apply IH. destruct l as [|y l]; [done|]. unfold repeats in Hr. simpl in Hr. by apply orb_false_iff in Hr as [_ ?].
  - destruct Hd as [|y l Hxy]; constructor. unfold repeats in Hr. simpl in Hr. apply orb_false_iff in Hr as [Hne _].
    apply bool_decide_eq_false in Hne. by apply bytes_le_cases in Hxy as [?|].
Qed.
End keyed.

(** [vec.insert(at, x)] *)
Definition insert_at {A} (i : Z) (x : A) (l : list A) : list A :=
  take (Z.to_nat i) l ++ x :: drop (Z.to_nat i) l.

Lemma insert_at_middle {A} (x : A) below above : insert_at (len below) x (below ++ above) = below ++ x :: above.
Proof. unfold insert_at, len. rewrite Nat2Z.id, take_app_length, drop_app_length. done. Qed.

(** An entry goes where the search for its key points, and the vector stays sorted. *)
Lemma insert_search_sorted {A} (key : A → list Z) l x i :
  key_sorted key l → search key (key x) l = inr i →
  key_sorted key (insert_at i x l) ∧ insert_at i x l ≡ₚ x :: l.
Proof.
  intros Hs E. pose proof (search_spec key (key x) l Hs) as H. rewrite E in H.
  destruct H as (_ & lo & hi & -> & <- & Hlo & Hhi). rewrite insert_at_middle. split; [|by rewrite Permutation_middle].
  apply StronglySorted_app in Hs as (Hcross & Hs1 & Hs2). apply StronglySorted_app.
  rewrite Forall_forall in Hlo. split; [|split; [done|by apply StronglySorted_cons]].
  intros a b Ha [->|Hb]%elem_of_cons; [by apply Hlo|by apply Hcross].
Qed.

(** ** [sort_by]: the stable sort *)

Section stable.
Context {A K : Type} (key : A → K) (R : relation K) `{∀ x y, Decision (R x y)}.

Fixpoint insert_sorted (x : A) (l : list A) : list A :=
  match l with
  | [] => [x]
  | y :: l => if decide (R (key x) (key y)) then x :: y :: l else y :: insert_sorted x l
  end.

Definition sort_by (l : list A) : list A := foldr insert_sorted [] l.

Definition sorted_by : list A → Prop := StronglySorted (λ x y, R (key x) (key y)).

Lemma insert_sorted_permutes x l : insert_sorted x l ≡ₚ x :: l.
Proof. induction l as [|y l IH]; [done|]. cbn [insert_sorted]. case_decide; [done|]. by rewrite IH, Permutation_swap. Qed.

Lemma sort_by_permutes l : sort_by l ≡ₚ l.
Proof. induction l as [|x l IH]; [done|]. cbn [sort_by foldr]. by rewrite insert_sorted_permutes, IH. Qed.

Lemma insert_sorted_sorted `{!Transitive R, !Total R} x l : sorted_by l → sorted_by (insert_sorted x l).
Proof.
  induction 1 as [|y l Hs IH Hy]; cbn [insert_sorted]; [by repeat constructor|]. case_decide as Hxy.
  - constructor; [by constructor|]. constructor; [done|]. eapply Forall_impl; [exact Hy|]. intros z. by apply transitivity.
  - constructor; [done|]. rewrite insert_sorted_permutes. constructor; [|done]. by destruct (total R (key x) (key y)).
Qed.

Lemma sort_by_sorted `{!Transitive R, !Total R} l : sorted_by (sort_by l).
Proof. induction l as [|x l IH]; [constructor|]. by apply insert_sorted_sorted. Qed.

(** Elements of one key keep their order. *)
Lemma sort_by_stable `{!Reflexive R} (P : A → Prop) `{∀ x, Decision (P x)} k l :
  (∀ x, P x → key x = k) → filter P (sort_by l) = filter P l.
Proof.
  intros Hk. assert (∀ x l, filter P (insert_sorted x l) = filter P (x :: l)) as Hins.
  { clear l. intros x l. induction l as [|y l IH]; [done|]. cbn [insert_sorted]. case_decide as Hd; [done|].
    rewrite !filter_cons, IH, filter_cons. repeat case_decide; try done.
    destruct Hd. by rewrite (Hk x), (Hk y). }
  induction l as [|x l IH]; [done|]. cbn [sort_by foldr]. rewrite Hins, !filter_cons. fold (sort_by l). by rewrite IH.
Qed.
End stable.

Lemma sort_by_fmap {A B K} (f : A → B) (key : B → K) (R : relation K) `{∀ x y, Decision (R x y)} l :
  sort_by key R (f <$> l) = f <$> sort_by (key ∘ f) R l.
Proof.
  assert (∀ x l, insert_sorted key R (f x) (f <$> l) = f <$> insert_sorted (key ∘ f) R x l) as Hins.
  { clear l. intros x l. induction l as [|y l IH]; [done|]. cbn [fmap list_fmap insert_sorted compose].
    rewrite IH. by case_decide. }
  induction l as [|x l IH]; [done|]. unfold sort_by in *. cbn [fmap list_fmap foldr]. by rewrite IH, Hins.
Qed.
