(* ===== verification/Errors.v ===== *)
(** The error types of cell and bag-of-cells operations
    (core/src/cell/error.rs) and of reading and proving blocks
    (core/src/tlb/error.rs). *)

From S2P Require Import Prelude.
From stdpp Require Import base strings.
From Stdlib Require Import ZArith.

Inductive CellError : Type :=
| NotABagOfCells
| Truncated
| Header (what : string)
| Checksum
| BadReference
| Malformed (what : string)
| TooManyCells (limit : Z)
| TooDeep (limit : Z)
| NotEnoughBits (requested available : Z)
| NotEnoughRefs
| TooWide (requested width : Z)
| NoRoomForBits (requested available : Z)
| NoRoomForRefs (limit : Z)
| KeyLength (given expected : Z)
| LabelTooLong
| Encoding (what : string)
| Pruned.

#[export] Instance CellError_eq_dec : EqDecision CellError.
Proof. solve_decision. Defined.

Inductive BlockError : Type :=
| BCell (e : CellError)
| WrongConstructor (expected : string)
| BMalformed (what : string)
| NotAMerkleProof
| ProofInconsistent
| ProofNotAnchored
| NotCovered
| ChainBroken (what : string)
| BackwardLink
| NotEnoughWeight (carried total : Z)
| NotAKeyBlock
| NotBound.

#[export] Instance BlockError_eq_dec : EqDecision BlockError.
Proof. solve_decision. Defined.

(** [?] on a cell operation inside a block operation. *)
Definition from_cell_error {A} (m : result CellError A) : result BlockError A := map_err BCell m.
