(* ===== verification/Codec.v ===== *)
(** Base64 and hex (core/src/cell/codec.rs): the two text spellings of a bag
    and of a hash, and the claim of that file's header, that a byte string has
    one base64 spelling and no other. A text is the list of its bytes
    ([str::as_bytes]); every character written is ASCII. *)

From S2P Require Import Prelude Errors Bits.
From stdpp Require Import base list list_numbers numbers strings.
From Stdlib Require Import ZArith Lia.

Local Open Scope Z_scope.

(** [slice.chunks(n)]: [fuel] is the length of the slice, which every step
    shortens. *)
Fixpoint chunks_from {A} (fuel : nat) (n : nat) (l : list A) : list (list A) :=
  match fuel, l with
  | O, _ => []
  | _, [] => []
  | S fuel', _ => take n l :: chunks_from fuel' n (drop n l)
  end.
Definition chunks {A} (n : nat) (l : list A) : list (list A) := chunks_from (length l) n l.

(** A loop over values that stops at the first error, collecting what each
    round pushes. *)
Fixpoint collect {E A B} (f : A → result E (list B)) (l : list A) : result E (list B) :=
  match l with
  | [] => Ok []
  | x :: l' => let? out := f x in let? rest := collect f l' in Ok (out ++ rest)
  end.

(** ** The alphabets *)

Definition digit (value : Z) : Z :=
  let sextet := Z.land value 63 in
  if sextet <=? 25 then 65 + sextet
  else if sextet <=? 51 then 97 + sextet - 26
  else if sextet <=? 61 then 48 + sextet - 52
  else if sextet =? 62 then 43
  else 47.

Definition between (lo c hi : Z) : bool := (lo <=? c) && (c <=? hi).

Definition sextet (character : Z) : result CellError Z :=
  if between 65 character 90 then Ok (character - 65)
  else if between 97 character 122 then Ok (character - 97 + 26)
  else if between 48 character 57 then Ok (character - 48 + 52)
  else if character =? 43 then Ok 62
  else if character =? 47 then Ok 63
  else Err (Encoding "base64 holds a character outside its alphabet").

Definition nibble (character : Z) : result CellError Z :=
  if between 48 character 57 then Ok (character - 48)
  else if between 97 character 102 then Ok (character - 97 + 10)
  else if between 65 character 70 then Ok (character - 65 + 10)
  else Err (Encoding "hex holds a character that is not one").

(** ** Base64 *)

Definition PAD : Z := 61.

(** One round of the loop of [base64_encode]: a quantum of four characters. *)
Definition encode_chunk (chunk : list Z) : list Z :=
  let quantum first second third carried :=
    take (carried + 1)
      [digit (Z.shiftr first 2);
       digit (Z.lor (shl 8 first 4) (Z.shiftr second 4));
       digit (Z.lor (shl 8 second 2) (Z.shiftr third 6));
       digit third] ++ replicate (3 - carried) PAD in
  match chunk with
  | [first; second; third] => quantum first second third 3%nat
  | [first; second] => quantum first second 0 2%nat
  | [first] => quantum first 0 0 1%nat
  | _ => []
  end.

Definition base64_encode (bytes : list Z) : list Z :=
  concat (encode_chunk <$> chunks 3 bytes).

(** One round of the loop of [base64_decode]. *)
Definition decode_quantum (quantum : list Z) : result CellError (list Z) :=
  match quantum with
  | [c1; c2; c3; c4] =>
      let? first := sextet c1 in let? second := sextet c2 in
      let? third := sextet c3 in let? fourth := sextet c4 in
      Ok [Z.lor (shl 8 first 2) (Z.shiftr second 4);
          Z.lor (shl 8 second 4) (Z.shiftr third 2);
          Z.lor (shl 8 third 6) fourth]
  | [c1; c2; c3] =>
      let? first := sextet c1 in let? second := sextet c2 in let? third := sextet c3 in
      if negb (Z.land third 3 =? 0) then Err (Encoding "base64 sets a bit no byte carries")
      else Ok [Z.lor (shl 8 first 2) (Z.shiftr second 4);
               Z.lor (shl 8 second 4) (Z.shiftr third 2)]
  | [c1; c2] =>
      let? first := sextet c1 in let? second := sextet c2 in
      if negb (Z.land second 15 =? 0) then Err (Encoding "base64 sets a bit no byte carries")
      else Ok [Z.lor (shl 8 first 2) (Z.shiftr second 4)]
  | _ => Err (Encoding "base64 ends in a character that spells no byte")
  end.

(** [iter().rev().take_while(|c| c == b'=').count()] *)
Fixpoint leading_pads (l : list Z) : Z :=
  match l with
  | [] => 0
  | c :: l' => if c =? PAD then 1 + leading_pads l' else 0
  end.

Definition base64_decode (text : list Z) : result CellError (list Z) :=
  if negb (len text mod 4 =? 0) then Err (Encoding "base64 is not a whole number of quanta")
  else
    let padding := leading_pads (reverse text) in
    if 2 <? padding then Err (Encoding "base64 pads a quantum away entirely")
    else
      let? body := ok_or (get_range text 0 (len text - padding))
                     (Encoding "base64 padding runs past its string") in
      collect decode_quantum (chunks 4 body).

(** ** Hex *)

(** The two characters [{byte:02x}] writes. *)
Definition hex_digit (n : Z) : Z := if n <=? 9 then 48 + n else 97 + n - 10.

Definition hex_encode (bytes : list Z) : list Z :=
  fold_left (λ out byte, out ++ [hex_digit (byte / 16); hex_digit (byte mod 16)]) bytes [].

(** One round of the loop of [hex_decode]. *)
Definition hex_pair (pair : list Z) : result CellError (list Z) :=
  match pair with
  | [high; low] =>
      let? h := nibble high in let? l := nibble low in
      Ok [Z.lor (shl 8 h 4) l]
  | _ => Err (Encoding "hex is not a whole number of bytes")
  end.

(** [chunks_exact(2)] is [chunks(2)] on the even length the guard leaves. *)
Definition hex_decode (text : list Z) : result CellError (list Z) :=
  if negb (len text mod 2 =? 0) then Err (Encoding "hex is not a whole number of bytes")
  else collect hex_pair (chunks 2 text).

Example encode_pads : base64_encode [251; 255] = [43; 47; 56; 61].
Proof. reflexivity. Qed.
Example decode_pads : base64_decode [43; 47; 56; 61] = Ok [251; 255].
Proof. reflexivity. Qed.
Example decode_url_safe : is_ok (base64_decode [45; 95; 56; 61]) = false.
Proof. reflexivity. Qed.
Example hex_example : hex_decode (hex_encode [0; 15; 255]) = Ok [0; 15; 255].
Proof. reflexivity. Qed.

(** ** Chunks *)

Lemma chunks_from_fuel {A} n (l : list A) f1 f2 :
  (0 < n)%nat → (length l <= f1)%nat → (length l <= f2)%nat →
  chunks_from f1 n l = chunks_from f2 n l.
Proof.
  intros Hn. revert l f2. induction f1 as [|f1 IH]; intros [|x l] [|f2] H1 H2; simpl in *; try lia; try done.
  f_equal. apply IH; rewrite length_drop; simpl; lia.
Qed.

Lemma chunks_cons {A} n (l : list A) :
  (0 < n)%nat → l ≠ [] → chunks n l = take n l :: chunks n (drop n l).
Proof.
  intros Hn Hl. unfold chunks. destruct l as [|x l]; [done|].
  simpl length at 1. cbn [chunks_from]. f_equal.
  apply chunks_from_fuel; [done|rewrite length_drop; simpl; lia|done].
Qed.

Lemma chunks_full {A} n (q l : list A) :
  (0 < n)%nat → length q = n → chunks n (q ++ l) = q :: chunks n l.
Proof.
  intros Hn Hq. rewrite chunks_cons; [|done|destruct q; simpl in *; [lia|done]].
  by rewrite take_app_length', drop_app_length'.
Qed.

Lemma chunks_short {A} n (l : list A) :
  (0 < n)%nat → l ≠ [] → (length l <= n)%nat → chunks n l = [l].
Proof.
  intros Hn Hl Hle. rewrite chunks_cons, take_ge, drop_ge by done. done.
Qed.

(** Induction over a list in whole chunks of [n], down to a short tail. *)
Lemma chunk_ind {A} (n : nat) (P : list A → Prop) :
  (0 < n)%nat →
  (∀ l, (length l < n)%nat → P l) →
  (∀ q l, length q = n → P l → P (q ++ l)) →
  ∀ l, P l.
Proof.
  intros Hn Hshort Hstep l. remember (length l) as m eqn:Em. revert l Em.
  induction (Nat.lt_wf_0 m) as [m _ IH]. intros l ->.
  destruct (decide (length l < n)%nat); [by apply Hshort|].
  rewrite <- (take_drop n l). apply Hstep; [rewrite length_take; lia|].
  eapply IH; [|done]. rewrite length_drop. lia.
Qed.

Lemma collect_cons_ok {E A B} (f : A → result E (list B)) x l out rest :
  f x = Ok out → collect f l = Ok rest → collect f (x :: l) = Ok (out ++ rest).
Proof. simpl. by intros -> ->. Qed.

Lemma collect_cons_inv {E A B} (f : A → result E (list B)) x l r :
  collect f (x :: l) = Ok r →
  ∃ out rest, f x = Ok out ∧ collect f l = Ok rest ∧ r = out ++ rest.
Proof. simpl. intros. inv_res. eauto. Qed.

(** ** The alphabets are bijections *)

Lemma sextet_digit v : 0 <= v < 256 → sextet (digit v) = Ok (v mod 64).
Proof. revert v. enum1. Qed.

Lemma digit_sextet c v : is_byte c → sextet c = Ok v → 0 <= v < 64 ∧ digit v = c ∧ c ≠ PAD.
Proof.
  intros Hc. revert v.
  enough (match sextet c with
          | Ok v => bool_decide (0 <= v < 64 ∧ digit v = c ∧ c ≠ PAD) | Err _ => true end = true) as H'
    by (intros v E; rewrite E in H'; by apply bool_decide_eq_true in H').
  revert c Hc. unfold is_byte. enum1.
Qed.

Lemma digit_not_pad v : 0 <= v < 256 → digit v ≠ PAD.
Proof. revert v. enum1. Qed.

Lemma digit_mod v : digit (v mod 64) = digit v.
Proof.
  unfold digit. change 63 with (Z.ones 6). rewrite !Z.land_ones by lia.
  change (2 ^ 6) with 64. by rewrite Z.mod_mod.
Qed.

Lemma digit_eq v w : v mod 64 = w mod 64 → digit v = digit w.
Proof. intros E. rewrite <- (digit_mod v), <- (digit_mod w). by rewrite E. Qed.

(** ** The shifts as arithmetic *)

Lemma shr2 v : Z.shiftr v 2 = v / 4.
Proof. by rewrite Z.shiftr_div_pow2. Qed.

Lemma enc_second a b : 0 <= a < 256 → 0 <= b < 256 →
  Z.lor (shl 8 a 4) (Z.shiftr b 4) = (a mod 16) * 16 + b / 16.
Proof. revert a b. enum2. Qed.

Lemma enc_third a b : 0 <= a < 256 → 0 <= b < 256 →
  Z.lor (shl 8 a 2) (Z.shiftr b 6) = (a mod 64) * 4 + b / 64.
Proof. revert a b. enum2. Qed.

Lemma dec_first a b : 0 <= a < 64 → 0 <= b < 64 →
  Z.lor (shl 8 a 2) (Z.shiftr b 4) = a * 4 + b / 16.
Proof. revert a b. enum2. Qed.

Lemma dec_second a b : 0 <= a < 64 → 0 <= b < 64 →
  Z.lor (shl 8 a 4) (Z.shiftr b 2) = (a mod 16) * 16 + b / 4.
Proof. revert a b. enum2. Qed.

Lemma dec_third a b : 0 <= a < 64 → 0 <= b < 64 →
  Z.lor (shl 8 a 6) b = (a mod 4) * 64 + b.
Proof. revert a b. enum2. Qed.

Lemma land3 v : Z.land v 3 = v mod 4.
Proof. change 3 with (Z.ones 2). by rewrite Z.land_ones. Qed.
Lemma land15 v : Z.land v 15 = v mod 16.
Proof. change 15 with (Z.ones 4). by rewrite Z.land_ones. Qed.

Create Rewrite HintDb b64.
Hint Rewrite shr2 land3 land15 : b64.
Hint Rewrite enc_second enc_third dec_first dec_second dec_third using zdiv : b64.

(** ** One quantum *)

Ltac b64_bytes := repeat match goal with
  | H : Forall is_byte (_ :: _) |- _ => apply Forall_cons in H as [? H]
  end; unfold is_byte in *.

(** Replaces each character read by the value of its sextet. *)
Ltac b64_sextets := repeat match goal with
  | H : sextet ?c = Ok ?v |- _ => apply digit_sextet in H as (? & <- & ?); [|done]
  end.

(** The bytes are in range, and the characters are the digits of their sextets. *)
Ltac b64_close :=
  split; [done|]; split;
  [ repeat (apply Forall_cons; split); [unfold is_byte; zdiv ..|apply Forall_nil; done]
  | cbn [encode_chunk take replicate app Nat.add Nat.sub]; autorewrite with b64;
    repeat (apply (f_equal2 cons); [first [reflexivity | apply digit_eq; zdiv]|]); reflexivity ].

(** Evaluates a quantum written by the encoder back into arithmetic on its bytes. *)
Ltac b64_eval :=
  cbn [encode_chunk decode_quantum take replicate app Nat.add Nat.sub res_bind];
  autorewrite with b64; rewrite !sextet_digit by zdiv;
  cbn [res_bind]; autorewrite with b64.

Lemma decode_encode_3 a b c :
  Forall is_byte [a; b; c] → decode_quantum (encode_chunk [a; b; c]) = Ok [a; b; c].
Proof. intros. b64_bytes. b64_eval. repeat f_equal; zdiv. Qed.

Lemma decode_encode_2 a b :
  Forall is_byte [a; b] → decode_quantum (take 3 (encode_chunk [a; b])) = Ok [a; b].
Proof.
  intros. b64_bytes. b64_eval.
  destruct (Z.eqb_spec (((b mod 64 * 4 + 0 / 64) mod 64) mod 4) 0); [|exfalso; zdiv].
  cbn [negb]. repeat f_equal; zdiv.
Qed.

Lemma decode_encode_1 a :
  Forall is_byte [a] → decode_quantum (take 2 (encode_chunk [a])) = Ok [a].
Proof.
  intros. b64_bytes. b64_eval.
  destruct (Z.eqb_spec (((a mod 16 * 16 + 0 / 16) mod 64) mod 16) 0); [|exfalso; zdiv].
  cbn [negb]. repeat f_equal; zdiv.
Qed.

(** Reading one quantum back: the bytes it gives spell exactly the characters
    it was read from. *)
Lemma encode_decode_4 c1 c2 c3 c4 out :
  Forall is_byte [c1; c2; c3; c4] → decode_quantum [c1; c2; c3; c4] = Ok out →
  length out = 3%nat ∧ Forall is_byte out ∧ encode_chunk out = [c1; c2; c3; c4].
Proof.
  intros. b64_bytes. cbn [decode_quantum] in *. inv_res. b64_sextets.
  autorewrite with b64. b64_close.
Qed.

Lemma encode_decode_3 c1 c2 c3 out :
  Forall is_byte [c1; c2; c3] → decode_quantum [c1; c2; c3] = Ok out →
  length out = 2%nat ∧ Forall is_byte out ∧ encode_chunk out = [c1; c2; c3; PAD].
Proof.
  intros. b64_bytes. cbn [decode_quantum] in *. inv_res. b64_sextets.
  rewrite land3 in *. destruct (Z.eqb_spec (a1 mod 4) 0); cbn [negb] in *; inv_res.
  autorewrite with b64. b64_close.
Qed.

Lemma encode_decode_2 c1 c2 out :
  Forall is_byte [c1; c2] → decode_quantum [c1; c2] = Ok out →
  length out = 1%nat ∧ Forall is_byte out ∧ encode_chunk out = [c1; c2; PAD; PAD].
Proof.
  intros. b64_bytes. cbn [decode_quantum] in *. inv_res. b64_sextets.
  rewrite land15 in *. destruct (Z.eqb_spec (a0 mod 16) 0); cbn [negb] in *; inv_res.
  autorewrite with b64. b64_close.
Qed.

(** ** Whole strings *)

Lemma base64_encode_full q l :
  length q = 3%nat → base64_encode (q ++ l) = encode_chunk q ++ base64_encode l.
Proof. intros Hq. unfold base64_encode. by rewrite chunks_full by (done || lia). Qed.

Lemma base64_encode_short l :
  l ≠ [] → (length l <= 3)%nat → base64_encode l = encode_chunk l.
Proof.
  intros Hl Hle. unfold base64_encode. rewrite chunks_short by (done || lia).
  simpl. by rewrite app_nil_r.
Qed.

Lemma leading_pads_app n l :
  (∀ c l', l = c :: l' → c ≠ PAD) → leading_pads (replicate n PAD ++ l) = Z.of_nat n.
Proof.
  intros Hl. induction n as [|n IH]; simpl.
  - destruct l as [|c l']; [done|]. simpl. destruct (Z.eqb_spec c PAD); [|done].
    by destruct (Hl c l').
  - rewrite IH. lia.
Qed.

Lemma leading_pads_split l :
  ∃ n l', l = replicate n PAD ++ l' ∧ leading_pads l = Z.of_nat n.
Proof.
  induction l as [|c l IH]; [by exists O, []|]. simpl.
  destruct (Z.eqb_spec c PAD) as [->|].
  - destruct IH as (n & l' & -> & ->). exists (S n), l'. split; [done|lia].
  - by exists O, (c :: l).
Qed.

(** The guards and the cut of [base64_decode], on a text split at its padding. *)
Lemma base64_decode_body body n :
  Forall (λ c, c ≠ PAD) body → (n <= 2)%nat → (len body + Z.of_nat n) mod 4 = 0 →
  base64_decode (body ++ replicate n PAD) = collect decode_quantum (chunks 4 body).
Proof.
  intros Hb Hn Hm. unfold base64_decode.
  rewrite len_app. change (len (replicate n PAD)) with (Z.of_nat (length (replicate n PAD))).
  rewrite length_replicate, Hm. simpl negb. cbv iota.
  rewrite reverse_app, reverse_replicate, leading_pads_app.
  2:{ intros c l' E. apply Forall_reverse in Hb. rewrite E in Hb. by apply Forall_cons in Hb as [? _]. }
  destruct (Z.ltb_spec 2 (Z.of_nat n)); [lia|].
  unfold get_range. rewrite len_app. pose proof (len_nonneg body).
  change (len (replicate n PAD)) with (Z.of_nat (length (replicate n PAD))).
  rewrite length_replicate.
  replace (len body + Z.of_nat n - Z.of_nat n) with (len body) by lia.
  destruct (Z.leb_spec 0 (len body)), (Z.leb_spec (len body) (len body + Z.of_nat n)); try lia.
  simpl. f_equal. f_equal. rewrite drop_0. apply take_app_length'. unfold len. lia.
Qed.

Lemma encode_chunk_not_pad l :
  Forall is_byte l → (0 < length l <= 3)%nat →
  Forall (λ c, c ≠ PAD) (take (length l + 1) (encode_chunk l)).
Proof.
  intros Hl Hlen. destruct l as [|a [|b [|c [|]]]]; simpl in Hlen; try lia; b64_bytes;
  cbn [encode_chunk take replicate app Nat.add Nat.sub length]; autorewrite with b64;
  repeat (apply Forall_cons; split); try (apply digit_not_pad; zdiv); by apply Forall_nil.
Qed.

Lemma encode_split bytes :
  Forall is_byte bytes →
  ∃ body n, base64_encode bytes = body ++ replicate n PAD ∧ (n <= 2)%nat ∧
    (len body + Z.of_nat n) mod 4 = 0 ∧ Forall (λ c, c ≠ PAD) body ∧
    collect decode_quantum (chunks 4 body) = Ok bytes.
Proof.
  revert bytes. refine (chunk_ind 3 _ ltac:(lia) _ _).
  - intros l Hlen Hl. destruct l as [|a [|b [|c l]]]; simpl in Hlen; try lia.
    + exists [], O. split; [done|]. split; [lia|]. split; [done|]. split; [by apply Forall_nil|done].
    + exists (take 2 (encode_chunk [a])), 2%nat. rewrite base64_encode_short by (done || simpl; lia).
      split; [done|]. split; [lia|]. split; [done|].
      split; [apply (encode_chunk_not_pad [a]); simpl; [done|lia]|].
      rewrite chunks_short by (done || simpl; lia).
      by rewrite (collect_cons_ok _ _ _ [a] []) by (done || by apply decode_encode_1).
    + exists (take 3 (encode_chunk [a; b])), 1%nat. rewrite base64_encode_short by (done || simpl; lia).
      split; [done|]. split; [lia|]. split; [done|].
      split; [apply (encode_chunk_not_pad [a; b]); simpl; [done|lia]|].
      rewrite chunks_short by (done || simpl; lia).
      by rewrite (collect_cons_ok _ _ _ [a; b] []) by (done || by apply decode_encode_2).
  - intros q l Hq IH Hl. apply Forall_app in Hl as [Hlq Hl].
    destruct (IH Hl) as (body & n & E & Hn & Hm & Hp & Hc).
    destruct q as [|a [|b [|c [|]]]]; simpl in Hq; try lia.
    exists (encode_chunk [a; b; c] ++ body), n.
    rewrite base64_encode_full, E, app_assoc by done. split; [done|]. split; [done|].
    rewrite len_app. split; [change (len (encode_chunk [a; b; c])) with 4; zdiv|].
    split; [apply Forall_app; split; [|done]; apply (encode_chunk_not_pad [a; b; c]); simpl; [done|lia]|].
    rewrite chunks_full by (done || lia).
    rewrite (collect_cons_ok _ _ _ [a; b; c] l) by (done || by apply decode_encode_3). done.
Qed.

Lemma decode_split body :
  Forall is_byte body → ∀ out, collect decode_quantum (chunks 4 body) = Ok out →
  Forall is_byte out ∧ len body mod 4 ≠ 1 ∧
  base64_encode out = body ++ replicate (Z.to_nat ((- len body) mod 4)) PAD.
Proof.
  revert body. refine (chunk_ind 4 _ ltac:(lia) _ _).
  - intros l Hlen Hl out. destruct l as [|c1 [|c2 [|c3 [|c4 l]]]]; simpl in Hlen; try lia;
      rewrite ?chunks_short by (done || simpl; lia).
    + intros [= <-]. done.
    + intros (o & r & E & _ & _)%collect_cons_inv. discriminate.
    + intros (o & r & E & [= <-] & ->)%collect_cons_inv.
      apply encode_decode_2 in E as (Ho & Hb & E); [|done]. rewrite app_nil_r.
      rewrite base64_encode_short, E by (destruct o; simpl in *; (done || lia)). done.
    + intros (o & r & E & [= <-] & ->)%collect_cons_inv.
      apply encode_decode_3 in E as (Ho & Hb & E); [|done]. rewrite app_nil_r.
      rewrite base64_encode_short, E by (destruct o; simpl in *; (done || lia)). done.
  - intros q l Hq IH Hl out. apply Forall_app in Hl as [Hlq Hl].
    rewrite chunks_full by (done || lia). destruct q as [|c1 [|c2 [|c3 [|c4 [|]]]]]; simpl in Hq; try lia.
    intros (o & r & E & Er & ->)%collect_cons_inv.
    apply encode_decode_4 in E as (Ho & Hb & E); [|done].
    destruct (IH Hl r Er) as (Hr & Hm & Henc).
    assert (len ([c1; c2; c3; c4] ++ l) = 4 + len l) as -> by (rewrite len_app; done).
    split; [by apply Forall_app|]. split; [zdiv|].
    rewrite base64_encode_full, E, Henc by done.
    replace ((- (4 + len l)) mod 4) with ((- len l) mod 4) by zdiv. by rewrite <- app_assoc.
Qed.

(** What [base64_encode] writes, [base64_decode] reads back as the same
    bytes, for every byte string. *)
Theorem base64_decode_encode bytes :
  Forall is_byte bytes → base64_decode (base64_encode bytes) = Ok bytes.
Proof.
  intros H. destruct (encode_split bytes H) as (body & n & -> & Hn & Hm & Hp & Hc).
  by rewrite base64_decode_body.
Qed.

(** A text [base64_decode] accepts is the text [base64_encode] writes for
    the bytes it gave, so no byte string has a second accepted spelling. *)
Theorem base64_encode_decode text bytes :
  Forall is_byte text → base64_decode text = Ok bytes →
  Forall is_byte bytes ∧ base64_encode bytes = text.
Proof.
  intros Ht. unfold base64_decode.
  destruct (Z.eqb_spec (len text mod 4) 0) as [Hm|]; [|done]. simpl.
  destruct (leading_pads_split (reverse text)) as (n & l & Er & ->).
  assert (text = reverse l ++ replicate n PAD) as ->.
  { rewrite <- (reverse_involutive text), Er, reverse_app. by rewrite reverse_replicate. }
  apply Forall_app in Ht as [Ht _].
  destruct (Z.ltb_spec 2 (Z.of_nat n)); [done|]. rewrite len_app in *.
  assert (len (replicate n PAD) = Z.of_nat n) as Hr by (unfold len; by rewrite length_replicate).
  rewrite Hr in *. replace (len (reverse l) + Z.of_nat n - Z.of_nat n) with (len (reverse l)) by lia.
  intros H'. inv_res. unfold get_range in *. case_if; [|done]. inv_res.
  rewrite drop_0, take_app_length' in H' by (unfold len; lia).
  apply decode_split in H' as (Hb & Hm1 & E); [|done]. split; [done|]. rewrite E.
  do 2 f_equal. zdiv.
Qed.

(** ** Hex *)

(** ASCII lower case, the step a caller comparing hex texts takes. *)
Definition to_ascii_lowercase (c : Z) : Z := if between 65 c 90 then c + 32 else c.

Lemma hex_encode_acc bytes out :
  fold_left (λ out byte, out ++ [hex_digit (byte / 16); hex_digit (byte mod 16)]) bytes out =
  out ++ hex_encode bytes.
Proof.
  unfold hex_encode. revert out. induction bytes as [|b l IH]; intros out; simpl.
  - by rewrite app_nil_r.
  - by rewrite IH, (IH [_; _]), <- app_assoc.
Qed.

Lemma hex_encode_cons b l :
  hex_encode (b :: l) = [hex_digit (b / 16); hex_digit (b mod 16)] ++ hex_encode l.
Proof. unfold hex_encode at 1. simpl fold_left. by rewrite hex_encode_acc. Qed.

Lemma hex_pair_digits b :
  0 <= b < 256 → hex_pair [hex_digit (b / 16); hex_digit (b mod 16)] = Ok [b].
Proof. revert b. enum1. Qed.

Lemma nibble_inv c v :
  is_byte c → nibble c = Ok v → 0 <= v < 16 ∧ hex_digit v = to_ascii_lowercase c.
Proof.
  intros Hc. revert v.
  enough (match nibble c with
          | Ok v => bool_decide (0 <= v < 16 ∧ hex_digit v = to_ascii_lowercase c)
          | Err _ => true end = true) as H'
    by (intros v E; rewrite E in H'; by apply bool_decide_eq_true in H').
  revert c Hc. unfold is_byte. enum1.
Qed.

Lemma hex_nibbles h l : 0 <= h < 16 → 0 <= l < 16 → Z.lor (shl 8 h 4) l = h * 16 + l.
Proof. revert h l. enum2. Qed.

(** Hex text written for a byte string reads back as that byte string. *)
Theorem hex_decode_encode bytes :
  Forall is_byte bytes → hex_decode (hex_encode bytes) = Ok bytes.
Proof.
  intros H.
  enough (len (hex_encode bytes) mod 2 = 0 ∧ collect hex_pair (chunks 2 (hex_encode bytes)) = Ok bytes)
    as [E1 E2] by (unfold hex_decode; by rewrite E1).
  induction bytes as [|b l IH]; [done|]. apply Forall_cons in H as [Hb Hl].
  destruct (IH Hl) as [E1 E2]. rewrite hex_encode_cons, len_app.
  rewrite chunks_full by (done || lia). split; [change (len [_; _]) with 2; zdiv|].
  by rewrite (collect_cons_ok _ _ _ [b] l) by (done || by apply hex_pair_digits).
Qed.

(** Hex text that reads as some bytes is, up to the case of its letters,
    the text written for those bytes. *)
Theorem hex_encode_decode text bytes :
  Forall is_byte text → hex_decode text = Ok bytes →
  Forall is_byte bytes ∧ hex_encode bytes = to_ascii_lowercase <$> text.
Proof.
  intros Ht. unfold hex_decode. destruct (negb _); [done|]. revert bytes. revert text Ht.
  refine (chunk_ind 2 _ ltac:(lia) _ _).
  - intros [|c [|]] Hlen Ht bytes; simpl in Hlen; try lia; intros E.
    + injection E as <-. by split; [apply Forall_nil|].
    + discriminate.
  - intros q l Hq IH Ht bytes. apply Forall_app in Ht as [Hq' Hl].
    rewrite chunks_full by (done || lia). destruct q as [|a [|b [|]]]; simpl in Hq; try lia.
    intros (o & r & E & Er & ->)%collect_cons_inv. destruct (IH Hl r Er) as [Hr Hr'].
    apply Forall_cons in Hq' as [Ha Hq']. apply Forall_cons in Hq' as [Hb _].
    cbn [hex_pair] in E. inv_res.
    apply nibble_inv in Hm as [? Hda]; [|done]. apply nibble_inv in Hm0 as [? Hdb]; [|done].
    rewrite hex_nibbles by done. simpl.
    split; [apply Forall_cons; split; [unfold is_byte; lia|done]|].
    rewrite hex_encode_cons, Hr'. simpl. rewrite <- Hda, <- Hdb.
    do 2 (apply (f_equal2 cons); [f_equal; zdiv|]). done.
Qed.

Lemma base64_decode_encode_witness :
  base64_decode (base64_encode [1; 2; 3; 4]) = Ok [1; 2; 3; 4].
Proof. apply base64_decode_encode. solve_bytes. Defined.

Lemma base64_encode_decode_witness :
  base64_decode [65; 81; 73; 61] = Ok [1; 2] ∧ base64_encode [1; 2] = [65; 81; 73; 61].
Proof.
  split; [reflexivity|]. apply base64_encode_decode; [solve_bytes|reflexivity].
Defined.

Lemma hex_decode_encode_witness : hex_decode (hex_encode [0; 15; 255]) = Ok [0; 15; 255].
Proof. apply hex_decode_encode. solve_bytes. Defined.

Lemma hex_encode_decode_witness :
  hex_decode [65; 98] = Ok [171] ∧ hex_encode [171] = to_ascii_lowercase <$> [65; 98].
Proof.
  split; [reflexivity|]. apply hex_encode_decode; [solve_bytes|reflexivity].
Defined.
