(* ===== verification/CellData.v ===== *)
(** The parts a cell is made of, below its hashing: its kind
    (core/src/cell/cell/exotic.rs), the level-mask arithmetic
    (core/src/cell/cell/level.rs), the window its bytes are read through
    (core/src/cell/cell/payload.rs) and its references
    (core/src/cell/cell/refs.rs). *)

From S2P Require Import Prelude Errors Bits.
From stdpp Require Import base list list_numbers numbers strings.
From Stdlib Require Import ZArith Lia.

Local Open Scope Z_scope.

Definition MAX_BITS : Z := 1023.
Definition MAX_REFS : Z := 4.

(** ** Kinds *)

Inductive CellType : Type :=
| Ordinary
| PrunedBranch
| LibraryReference
| MerkleProof
| MerkleUpdate.

#[export] Instance CellType_eq_dec : EqDecision CellType.
Proof. solve_decision. Defined.

Definition tag (self : CellType) : option Z :=
  match self with
  | Ordinary => None
  | PrunedBranch => Some 1
  | LibraryReference => Some 2
  | MerkleProof => Some 3
  | MerkleUpdate => Some 4
  end.

Definition from_tag (tag : Z) : option CellType :=
  if tag =? 1 then Some PrunedBranch
  else if tag =? 2 then Some LibraryReference
  else if tag =? 3 then Some MerkleProof
  else if tag =? 4 then Some MerkleUpdate
  else None.

Definition is_merkle (self : CellType) : bool :=
  match self with MerkleProof | MerkleUpdate => true | _ => false end.

(** ** Level masks *)

Definition level_of (mask : Z) : Z := wrap 8 (8 - leading_zeros 8 mask).

Definition applied_mask (mask level : Z) : Z :=
  if 3 <=? level then mask else Z.land mask (shl 8 1 level - 1).

Definition hash_index (mask level : Z) : Z := count_ones 8 (applied_mask mask level).

Definition bits_descriptor (bits : Z) : Z := wrap 8 (bits / 8 + div_ceil bits 8).

(** The sum is a [u8] sum; [refs_descriptor_exact] shows it does not wrap. *)
Definition refs_descriptor (refs : Z) (exotic : bool) (mask level : Z) : Z :=
  wrap 8 (wrap 8 refs + (if exotic then 8 else 0) + 32 * applied_mask mask level).

(** ** Payloads *)

Record Span : Type := { start : Z; stop : Z }.

Definition Span_new (start len : Z) : result CellError Span :=
  let too_far := Malformed "bag of cells is too large to index" in
  let? start := ok_or (checked U32_MAX start) too_far in
  let? len := ok_or (checked U32_MAX len) too_far in
  let? stop := ok_or (checked_add U32_MAX start len) too_far in
  Ok {| start := start; stop := stop |}.

Definition Span_of (self : Span) (bytes : list Z) : result CellError (list Z) :=
  ok_or (get_range bytes (start self) (stop self)) Truncated.

Record Payload : Type := { bytes : list Z; span : Span }.

Definition owned (data : list Z) : result CellError Payload :=
  let? span := Span_new 0 (len data) in
  Ok {| bytes := data; span := span |}.

Definition window (bytes : list Z) (span : Span) : result CellError Payload :=
  let? _ := Span_of span bytes in
  Ok {| bytes := bytes; span := span |}.

Definition payload_slice (self : Payload) : list Z :=
  match Span_of (span self) (bytes self) with Ok l => l | Err _ => [] end.

(** ** References *)

Inductive Refs (A : Type) : Type :=
| RNone
| ROne (a : A)
| RTwo (a b : A)
| RThree (a b c : A)
| RFour (a b c d : A).
Arguments RNone {A}.
Arguments ROne {A} a.
Arguments RTwo {A} a b.
Arguments RThree {A} a b c.
Arguments RFour {A} a b c d.

Definition refs_slice {A} (self : Refs A) : list A :=
  match self with
  | RNone => []
  | ROne a => [a]
  | RTwo a b => [a; b]
  | RThree a b c => [a; b; c]
  | RFour a b c d => [a; b; c; d]
  end.

Definition push {A} (cell : A) : stm (Refs A) CellError unit := λ self,
  match self with
  | RFour _ _ _ _ => (Err (NoRoomForRefs MAX_REFS), self)
  | RNone => (Ok tt, ROne cell)
  | ROne a => (Ok tt, RTwo a cell)
  | RTwo a b => (Ok tt, RThree a b cell)
  | RThree a b c => (Ok tt, RFour a b c cell)
  end.

Definition refs_truncate {A} (self : Refs A) (n : Z) : Refs A :=
  if len (refs_slice self) <=? n then self
  else
    match self with
    | RFour a b c _ =>
        if n =? 3 then RThree a b c else if n =? 2 then RTwo a b
        else if n =? 1 then ROne a else RNone
    | RThree a b _ => if n =? 2 then RTwo a b else if n =? 1 then ROne a else RNone
    | RTwo a _ => if n =? 1 then ROne a else RNone
    | _ => RNone
    end.

(** The references holding a given list, when it is short enough. *)
Definition refs_of {A} (l : list A) : option (Refs A) :=
  match l with
  | [] => Some RNone
  | [a] => Some (ROne a)
  | [a; b] => Some (RTwo a b)
  | [a; b; c] => Some (RThree a b c)
  | [a; b; c; d] => Some (RFour a b c d)
  | _ => None
  end.

(** ** Lemmas *)

Lemma from_tag_tag k t : tag k = Some t → from_tag t = Some k.
Proof. by destruct k; intros [= <-]. Qed.

Lemma tag_from_tag t k : from_tag t = Some k → tag k = Some t.
Proof.
  unfold from_tag. intros E.
  repeat case_if; simplify_eq; simpl; f_equal; symmetry; by apply Z.eqb_eq.
Qed.

Lemma refs_slice_inj {A} (r1 r2 : Refs A) : refs_slice r1 = refs_slice r2 → r1 = r2.
Proof. destruct r1, r2; simpl; congruence. Qed.

Lemma len_refs_slice {A} (r : Refs A) : 0 <= len (refs_slice r) <= MAX_REFS.
Proof. destruct r; unfold MAX_REFS, len; simpl; lia. Qed.

Lemma push_spec {A} (c : A) r :
  push c r =
    if len (refs_slice r) <? MAX_REFS
    then (Ok tt, default RNone (refs_of (refs_slice r ++ [c])))
    else (Err (NoRoomForRefs MAX_REFS), r).
Proof. by destruct r. Qed.

Lemma refs_of_slice {A} (l : list A) r : refs_of l = Some r → refs_slice r = l.
Proof. destruct l as [|a [|b [|c [|d [|]]]]]; intros [= <-]; done. Qed.

Lemma refs_of_is_Some {A} (l : list A) : len l <= MAX_REFS → ∃ r, refs_of l = Some r.
Proof.
  unfold len, MAX_REFS. destruct l as [|a [|b [|c [|d [|]]]]]; simpl; eauto. lia.
Qed.

Lemma push_slice {A} (c : A) r :
  len (refs_slice r) < MAX_REFS →
  ∃ r', push c r = (Ok tt, r') ∧ refs_slice r' = refs_slice r ++ [c].
Proof. destruct r; unfold len, MAX_REFS; simpl; intros; try lia; eauto. Qed.

Lemma refs_truncate_slice {A} (r : Refs A) n :
  0 <= n → refs_slice (refs_truncate r n) = take (Z.to_nat n) (refs_slice r).
Proof.
  intros Hn. unfold refs_truncate. destruct (Z.leb_spec (len (refs_slice r)) n) as [H|H].
  - rewrite take_ge; [done|]. unfold len in H. lia.
  - assert (n = 0 ∨ n = 1 ∨ n = 2 ∨ n = 3) as Hc
      by (pose proof (len_refs_slice r); unfold MAX_REFS in *; lia).
    destruct r; unfold len in H; simpl in H;
      destruct Hc as [->|[->|[->| ->]]]; first [lia|reflexivity].
Qed.

(** A mask of the cell model is three bits wide. *)
Definition mask_ok (mask : Z) : Prop := 0 <= mask < 8.

Lemma mask_cases (P : Z → Prop) :
  P 0 → P 1 → P 2 → P 3 → P 4 → P 5 → P 6 → P 7 → ∀ m, mask_ok m → P m.
Proof.
  unfold mask_ok. intros. assert (m = 0 ∨ m = 1 ∨ m = 2 ∨ m = 3 ∨ m = 4 ∨ m = 5 ∨ m = 6 ∨ m = 7) as Hm by lia.
  by destruct Hm as [->|[->|[->|[->|[->|[->|[->| ->]]]]]]].
Qed.

(** Splits a goal over the eight masks of the cell model. *)
Ltac case_mask m :=
  match goal with
  | Hm : mask_ok m |- _ => pattern m; refine (mask_cases _ _ _ _ _ _ _ _ _ m Hm); clear Hm; cbv beta
  end.

Lemma refs_descriptor_exact refs exotic mask level :
  0 <= refs <= MAX_REFS → mask_ok mask → 0 <= level →
  refs_descriptor refs exotic mask level =
    refs + (if exotic then 8 else 0) + 32 * applied_mask mask level.
Proof.
  unfold MAX_REFS, refs_descriptor, wrap. intros Hr Hm Hl.
  assert (0 <= applied_mask mask level < 8) as Ha.
  { unfold applied_mask. destruct (Z.leb_spec 3 level); [by destruct Hm; lia|].
    assert (level = 0 ∨ level = 1 ∨ level = 2) as Hc by lia.
    revert mask Hm. apply mask_cases; destruct Hc as [->|[->| ->]]; by vm_compute. }
  rewrite (Z.mod_small refs) by (simpl; lia). apply Z.mod_small. destruct exotic; simpl; lia.
Qed.

Lemma bits_descriptor_exact bits :
  0 <= bits <= MAX_BITS → bits_descriptor bits = bits / 8 + div_ceil bits 8.
Proof.
  unfold MAX_BITS, bits_descriptor, wrap, div_ceil. intros H. apply Z.mod_small.
  change (2 ^ 8) with 256. zdiv.
Qed.

Lemma payload_owned data :
  len data <= U32_MAX → ∃ p, owned data = Ok p ∧ payload_slice p = data.
Proof.
  intros H. pose proof (len_nonneg data).
  assert (owned data = Ok {| bytes := data; span := {| start := 0; stop := len data |} |}) as ->.
  { unfold owned, Span_new, checked_add, checked. change (0 <=? U32_MAX) with true.
    rewrite (proj2 (Z.leb_le _ _) H). simpl.
    by rewrite Z.add_0_l, (proj2 (Z.leb_le _ _) H). }
  eexists. split; [done|]. unfold payload_slice, Span_of, get_range. simpl.
  rewrite (proj2 (Z.leb_le 0 (len data))), Z.leb_refl by lia. simpl.
  rewrite drop_0, take_ge; [done|]. unfold len. lia.
Qed.
