(* ===== verification/CellHash.v ===== *)
(** A cell's identity: its representation hashes and depths, and the rules that
    compute them (core/src/cell/cell/hash.rs). SHA-256 is the [sha2] crate's, so
    it is a parameter here: the class [Hasher]. *)

From S2P Require Import Prelude Errors Bits CellData.
From stdpp Require Import base list list_numbers numbers strings.
From Stdlib Require Import ZArith Lia.

Local Open Scope Z_scope.

Definition MAX_HASHES : Z := 4.

(** The digest of [sha2::Sha256], on the whole of what was fed to it. *)
Class Hasher : Type := sha256 : list Z → list Z.

(** What the crate relies on: a digest is thirty-two bytes. *)
Class HasherOk (H : Hasher) : Prop := {
  sha256_len m : length (sha256 m) = 32%nat;
  sha256_bytes m : Forall is_byte (sha256 m);
}.

Record Extra : Type := { hashes : list (list Z); depths : list Z }.

Record Identity : Type := {
  id_mask : Z;
  hash0 : list Z;
  depth0 : Z;
  extra : option Extra;
}.

#[export] Instance Extra_eq_dec : EqDecision Extra.
Proof. solve_decision. Defined.
#[export] Instance Identity_eq_dec : EqDecision Identity.
Proof. solve_decision. Defined.

Definition zero_hash : list Z := replicate 32 0.

Definition NONE : Identity :=
  {| id_mask := 0; hash0 := zero_hash; depth0 := 0; extra := None |}.

Module Identity.
Definition count (self : Identity) : Z := count_ones 8 (id_mask self) + 1.

Definition blank (level_mask : Z) : result CellError Identity :=
  let count := count_ones 8 level_mask + 1 in
  if MAX_HASHES <? count
  then Err (Malformed "cell level mask marks more levels than the cell model has")
  else Ok {| id_mask := level_mask; hash0 := zero_hash; depth0 := 0;
             extra := if 1 <? count
                      then Some {| hashes := replicate 3 zero_hash; depths := replicate 3 0 |}
                      else None |}.

Definition set (self : Identity) (index : Z) (hash : list Z) (depth : Z) :
    result CellError Identity :=
  let past_the_end := Malformed "cell has more hashes than its level mask allows" in
  if index =? 0
  then Ok {| id_mask := id_mask self; hash0 := hash; depth0 := depth; extra := extra self |}
  else
    let? ex := ok_or (extra self) past_the_end in
    let? _ := ok_or (get (hashes ex) (index - 1)) past_the_end in
    let? _ := ok_or (get (depths ex) (index - 1)) past_the_end in
    Ok {| id_mask := id_mask self; hash0 := hash0 self; depth0 := depth0 self;
          extra := Some {| hashes := <[Z.to_nat (index - 1) := hash]> (hashes ex);
                           depths := <[Z.to_nat (index - 1) := depth]> (depths ex) |} |}.

Definition hash (self : Identity) (index : Z) : option (list Z) :=
  if index =? 0 then Some (hash0 self)
  else if count self <=? index then None
  else ex ← extra self; get (hashes ex) (index - 1).

Definition depth (self : Identity) (index : Z) : option Z :=
  if index =? 0 then Some (depth0 self)
  else if count self <=? index then None
  else ex ← extra self; get (depths ex) (index - 1).

Definition stored_len (self : Identity) : Z := count self * (32 + 2).

Definition write_stored (self : Identity) (out : list Z) : list Z :=
  let out := fold_left (λ out index,
    match hash self index with Some h => out ++ h | None => out end) (seqZ 0 (count self)) out in
  fold_left (λ out index,
    match depth self index with Some d => out ++ to_be_bytes 2 d | None => out end)
    (seqZ 0 (count self)) out.

Definition hash_at (self : Identity) (level : Z) : list Z :=
  let index := hash_index (id_mask self) level in
  default (hash0 self) (hash self (Z.min index (saturating_sub (count self) 1))).

Definition depth_at (self : Identity) (level : Z) : Z :=
  let index := hash_index (id_mask self) level in
  default (depth0 self) (depth self (Z.min index (saturating_sub (count self) 1))).

Definition repr_hash (self : Identity) : list Z := hash_at self (level_of (id_mask self)).
End Identity.

Definition read_hash (data : list Z) (at' : Z) : result CellError (list Z) :=
  ok_or (get_range data at' (at' + 32)) (Malformed "exotic cell is too short for its hash").

Definition read_depth (data : list Z) (at' : Z) : result CellError Z :=
  let? slice := ok_or (get_range data at' (at' + 2))
                  (Malformed "exotic cell is too short for its depth") in
  Ok (from_be_bytes slice).

Section compute.
Context `{Hasher}.

(** The loop body of the pruned branch: one stored hash and depth. *)
Definition stored_level (data : list Z) (stored : Z) (identity : Identity) (index : Z) :
    result CellError Identity :=
  let? hash := read_hash data (2 + 32 * index) in
  let? depth := read_depth data (2 + 32 * stored + 2 * index) in
  Identity.set identity index hash depth.

(** What one level of the other kinds is hashed over. *)
Definition level_depth (refs : list Identity) (child_level : Z) : Z :=
  fold_left (λ depth child,
    Z.max depth (saturating_add U16_MAX (Identity.depth_at child child_level) 1)) refs 0.

Definition level_repr (data : list Z) (bits : Z) (refs : list Identity) (exotic : bool)
    (mask this_level child_level : Z) (below : option (list Z)) : list Z :=
  [refs_descriptor (len refs) exotic mask this_level; bits_descriptor bits] ++
  match below with None => data | Some previous => previous end ++
  concat ((λ child, to_be_bytes 2 (Identity.depth_at child child_level)) <$> refs) ++
  concat ((λ child, Identity.hash_at child child_level) <$> refs).

(** The loop body of the other kinds: a level that opens a new hash index
    writes the hash of that level. *)
Definition hash_level (data : list Z) (bits : Z) (refs : list Identity) (cell_type : CellType)
    (mask : Z) (state : Identity * Z) (this_level : Z) : result CellError (Identity * Z) :=
  let '(identity, written) := state in
  if negb (hash_index mask this_level =? written) then Ok (identity, written)
  else
    let child_level := this_level + b2z (is_merkle cell_type) in
    let below := if 1 <=? written then Identity.hash identity (written - 1) else None in
    let sum := sha256 (level_repr data bits refs (negb (bool_decide (cell_type = Ordinary)))
                         mask this_level child_level below) in
    let? identity := Identity.set identity written sum (level_depth refs child_level) in
    Ok (identity, written + 1).

Definition compute (data : list Z) (bits : Z) (refs : list Identity) (cell_type : CellType)
    (mask : Z) : result CellError Identity :=
  let? identity := Identity.blank mask in
  let level := level_of mask in
  let stored := count_ones 8 mask in
  let? '(identity, written) :=
    if bool_decide (cell_type = PrunedBranch) then
      let? identity := res_fold (stored_level data stored) (seqZ 0 stored) identity in
      let? identity := Identity.set identity stored
        (sha256 ([refs_descriptor 0 true mask level; bits_descriptor bits] ++ data)) 0 in
      Ok (identity, stored + 1)
    else res_fold (hash_level data bits refs cell_type mask) (seqZ 0 (level + 1)) (identity, 0) in
  if negb (written =? Identity.count identity)
  then Err (Malformed "cell has fewer hashes than its level mask calls for")
  else Ok identity.
End compute.

(** ** What [compute] computes *)

(** An identity holding a given run of hashes and depths, lowest level first. *)
Definition mk_identity (mask : Z) (hs : list (list Z * Z)) : Identity :=
  match hs with
  | [] => NONE
  | (h, d) :: rest =>
      {| id_mask := mask; hash0 := h; depth0 := d;
         extra := match rest with
                  | [] => None
                  | _ => Some {| hashes := take 3 ((fst <$> rest) ++ replicate 3 zero_hash);
                                 depths := take 3 ((snd <$> rest) ++ replicate 3 0) |}
                  end |}
  end.

(** The levels a mask makes significant. *)
Definition significant (mask : Z) : list Z :=
  filter (λ l, l = 0 ∨ Z.testbit mask (l - 1) = true) [0; 1; 2; 3].

Lemma hash_index_min mask l : hash_index mask l = hash_index mask (Z.min l 3).
Proof.
  unfold hash_index, applied_mask. destruct (decide (l <= 3)); [by rewrite Z.min_l|].
  rewrite Z.min_r by lia. by rewrite !(proj2 (Z.leb_le _ _)) by lia.
Qed.

(** Splits a goal over the levels a mask can be applied at. *)
Lemma level_cases (P : Z → Prop) l :
  0 <= l → P 0 → P 1 → P 2 → P 3 → P (Z.min l 3).
Proof.
  intros. assert (Z.min l 3 = 0 ∨ Z.min l 3 = 1 ∨ Z.min l 3 = 2 ∨ Z.min l 3 = 3) as Hl by lia.
  by destruct Hl as [->|[->|[->| ->]]].
Qed.

Lemma mk_identity_at mask hs l :
  mask_ok mask → 0 <= l → len hs = count_ones 8 mask + 1 →
  hs !! Z.to_nat (hash_index mask l) =
    Some (Identity.hash_at (mk_identity mask hs) l, Identity.depth_at (mk_identity mask hs) l).
Proof.
  intros Hm Hl Hlen.
  assert (id_mask (mk_identity mask hs) = mask) as Hid.
  { destruct hs as [|[]]; [|done]. unfold len in Hlen. simpl in Hlen.
    revert Hlen. case_mask mask; done. }
  unfold Identity.hash_at, Identity.depth_at. rewrite Hid, (hash_index_min mask l).
  clear Hid. revert Hlen. pattern (Z.min l 3). apply level_cases; [done|..]; clear l Hl;
    case_mask mask; intros Hlen; unfold len in Hlen;
    match type of Hlen with _ = ?n => let k := eval vm_compute in n in change n with k in Hlen end;
    destruct hs as [|[] [|[] [|[] [|[] [|]]]]]; simpl in Hlen; try lia; reflexivity.
Qed.

Section spec.
Context `{Hasher}.

(** The byte string and the depth of each significant level: the lowest is
    taken over the data, each one above over the hash below it. *)
Fixpoint level_reprs (data : list Z) (bits : Z) (refs : list Identity) (cell_type : CellType)
    (mask : Z) (levels : list Z) (below : option (list Z)) : list (list Z * Z) :=
  match levels with
  | [] => []
  | l :: ls =>
      let child_level := l + b2z (is_merkle cell_type) in
      let repr := level_repr data bits refs (negb (bool_decide (cell_type = Ordinary)))
                    mask l child_level below in
      (repr, level_depth refs child_level)
        :: level_reprs data bits refs cell_type mask ls (Some (sha256 repr))
  end.

Definition digest (rd : list Z * Z) : list Z * Z := (sha256 (fst rd), snd rd).

(** A cell of any kind but a pruned branch always has an identity, and every
    slot its mask calls for is written. *)
Lemma compute_other data bits refs cell_type mask :
  cell_type ≠ PrunedBranch → mask_ok mask →
  compute data bits refs cell_type mask =
    Ok (mk_identity mask
          (digest <$> level_reprs data bits refs cell_type mask (significant mask) None)).
Proof.
  intros Ht Hm. case_mask mask; destruct cell_type; try done; reflexivity.
Qed.

(** What a pruned branch says of the subtree it stands for, at one level. *)
Definition stored_hash (data : list Z) (index : Z) : list Z :=
  take 32 (drop (Z.to_nat (2 + 32 * index)) data).
Definition stored_depth (data : list Z) (stored index : Z) : Z :=
  from_be_bytes (take 2 (drop (Z.to_nat (2 + 32 * stored + 2 * index)) data)).

Lemma stored_level_ok data stored identity index :
  len data = 2 + 34 * stored → 0 <= index < stored →
  stored_level data stored identity index =
    Identity.set identity index (stored_hash data index) (stored_depth data stored index).
Proof.
  intros Hlen Hi.
  assert (∀ a b, 0 <= a → 0 <= b → a + b <= len data →
    get_range data a (a + b) = Some (take (Z.to_nat b) (drop (Z.to_nat a) data))) as Hget.
  { intros a b Ha Hb Hab. unfold get_range.
    rewrite !(proj2 (Z.leb_le _ _)) by lia. simpl. do 2 f_equal. lia. }
  unfold stored_level, read_hash, read_depth. by rewrite !Hget by lia.
Qed.

Definition pruned_repr (data : list Z) (bits mask : Z) : list Z :=
  [refs_descriptor 0 true mask (level_of mask); bits_descriptor bits] ++ data.

Lemma compute_pruned data bits refs mask :
  mask_ok mask → mask ≠ 0 → len data = 2 + 34 * count_ones 8 mask →
  compute data bits refs PrunedBranch mask =
    Ok (mk_identity mask
      (((λ i, (stored_hash data i, stored_depth data (count_ones 8 mask) i))
          <$> seqZ 0 (count_ones 8 mask)) ++ [digest (pruned_repr data bits mask, 0)])).
Proof.
  intros Hm Hz Hlen. unfold compute. rewrite bool_decide_eq_true_2 by done.
  destruct (Identity.blank mask) as [id|] eqn:Eb; cbn [res_bind];
    [|revert Eb; case_mask mask; discriminate].
  rewrite (res_fold_ext _ (λ identity index, Identity.set identity index
    (stored_hash data index) (stored_depth data (count_ones 8 mask) index))).
  2:{ intros identity index Hi%elem_of_seqZ. apply stored_level_ok; [done|lia]. }
  revert Hz Eb. clear Hlen. case_mask mask; intros Hz [= <-]; done || reflexivity.
Qed.
End spec.

(** A digest to evaluate examples with: the first thirty-two bytes of the
    message, padded. *)
Definition toy_sha256 : Hasher := λ m, take 32 (((λ b, b mod 256) <$> m) ++ replicate 32 0).

Lemma toy_sha256_ok : HasherOk toy_sha256.
Proof.
  split; intros m; unfold sha256, toy_sha256.
  - rewrite length_take, length_app, length_replicate. lia.
  - apply Forall_take, Forall_app. split; [|by apply Forall_replicate].
    apply Forall_fmap, Forall_true. intros b. by apply Z.mod_pos_bound.
Qed.
