(* ===== verification/CellModel.v ===== *)
(** Cells (core/src/cell/cell.rs): the immutable node, the one constructor that
    makes it ([from_parts]), and the invariant every cell in the program holds
    because of it. *)

From S2P Require Import Prelude Errors Bits CellData CellHash.
From stdpp Require Import base list list_numbers numbers strings.
From Stdlib Require Import ZArith Lia.

Local Open Scope Z_scope.

Local Unset Elimination Schemes.
Inductive Cell : Type := MkCell {
  inner_data : Payload;
  inner_bits : Z;
  inner_refs : Refs Cell;
  inner_cell_type : CellType;
  inner_identity : Identity;
}.
Local Set Elimination Schemes.

Definition implied_mask (cell_type : CellType) (children_mask stored : Z) : Z :=
  match cell_type with
  | PrunedBranch => stored
  | LibraryReference => 0
  | MerkleProof | MerkleUpdate => Z.shiftr children_mask 1
  | Ordinary => children_mask
  end.

Section summarize.
Context `{Hasher}.

Definition summarize (data : list Z) (bits : Z) (refs : list Identity) (cell_type : CellType)
    (mask : Z) : result CellError Identity :=
  let children_mask := fold_left (λ acc child, Z.lor acc (id_mask child)) refs 0 in
  if negb (mask =? implied_mask cell_type children_mask mask)
  then Err (Malformed "cell level mask is not the one its children imply")
  else compute data bits refs cell_type mask.
End summarize.

Module Cell.
(** [data], [bit_len], [refs], [reference], [cell_type], [is_exotic],
    [level_mask], [identity], [level], [hash], [repr_hash], [hash_at],
    [depth], [depth_at] *)
Definition data (self : Cell) : list Z := payload_slice (inner_data self).
Definition bit_len (self : Cell) : Z := inner_bits self.
Definition refs (self : Cell) : list Cell := refs_slice (inner_refs self).
Definition reference (self : Cell) (index : Z) : option Cell := get (refs self) index.
Definition cell_type (self : Cell) : CellType := inner_cell_type self.
Definition is_exotic (self : Cell) : bool := negb (bool_decide (inner_cell_type self = Ordinary)).
Definition identity (self : Cell) : Identity := inner_identity self.
Definition level_mask (self : Cell) : Z := id_mask (inner_identity self).
Definition level (self : Cell) : Z := level_of (level_mask self).
Definition hash_at (self : Cell) (l : Z) : list Z := Identity.hash_at (inner_identity self) l.
Definition hash (self : Cell) : list Z := hash_at self 0.
Definition repr_hash (self : Cell) : list Z := hash_at self (level self).
Definition depth_at (self : Cell) (l : Z) : Z := Identity.depth_at (inner_identity self) l.
Definition depth (self : Cell) : Z := depth_at self 0.

Definition eqb (self other : Cell) : bool := bool_decide (repr_hash self = repr_hash other).

Definition stored_descriptors (self : Cell) : Z * Z :=
  (refs_descriptor (len (refs self)) (is_exotic self) (level_mask self) 3,
   bits_descriptor (inner_bits self)).

Section from_parts.
Context `{Hasher}.

Definition from_parts (data : Payload) (bits : Z) (refs : Refs Cell) (cell_type : CellType)
    (level_mask : Z) : result CellError Cell :=
  let unfilled := replicate (Z.to_nat MAX_REFS) NONE in
  let children := (identity <$> refs_slice refs) ++ drop (length (refs_slice refs)) unfilled in
  let? children := ok_or (get_range children 0 (len (refs_slice refs)))
                     (Malformed "cell has more than four references") in
  let? id := summarize (payload_slice data) bits children cell_type level_mask in
  Ok (MkCell data bits refs cell_type id).
End from_parts.

(** The bits a cell holds: its first [bit_len] bits, the completion past them
    left out. *)
Definition bits (self : Cell) : list bool := bits_of (data self) (bit_len self).
End Cell.

(** ** Induction over the tree of references *)

Section cell_ind.
Variable P : Cell → Prop.
Hypothesis step : ∀ d b r t i, Forall P (refs_slice r) → P (MkCell d b r t i).

Fixpoint cell_tree_ind (c : Cell) : P c :=
  match c with
  | MkCell d b r t i =>
      step d b r t i
        match r return Forall P (refs_slice r) with
        | RNone => Forall_nil_2 P
        | ROne a => Forall_cons_2 P _ _ (cell_tree_ind a) (Forall_nil_2 P)
        | RTwo a b =>
            Forall_cons_2 P _ _ (cell_tree_ind a) (Forall_cons_2 P _ _ (cell_tree_ind b) (Forall_nil_2 P))
        | RThree a b c =>
            Forall_cons_2 P _ _ (cell_tree_ind a) (Forall_cons_2 P _ _ (cell_tree_ind b)
              (Forall_cons_2 P _ _ (cell_tree_ind c) (Forall_nil_2 P)))
        | RFour a b c d =>
            Forall_cons_2 P _ _ (cell_tree_ind a) (Forall_cons_2 P _ _ (cell_tree_ind b)
              (Forall_cons_2 P _ _ (cell_tree_ind c)
                (Forall_cons_2 P _ _ (cell_tree_ind d) (Forall_nil_2 P))))
        end
  end.
End cell_ind.

(** ** The invariant of cells *)

(** A cell's bytes carry its bits, then, off a byte boundary, a set bit and zeros. *)
Definition completed (data : list Z) (bits : Z) : Prop :=
  len data = div_ceil bits 8 ∧ Forall is_byte data ∧
  (bits mod 8 ≠ 0 → data_bit data bits = true ∧ ∀ i, bits < i → data_bit data i = false).

(** What each kind asks of a cell's references, mask and leading byte. *)
Definition kind_ok (c : Cell) : Prop :=
  match Cell.cell_type c with
  | Ordinary => True
  | PrunedBranch =>
      Cell.refs c = [] ∧ Cell.level_mask c ≠ 0 ∧
      (get (Cell.data c) 0 = Some 1 ∧ get (Cell.data c) 1 = Some (Cell.level_mask c)) ∧
      len (Cell.data c) = 2 + 34 * count_ones 8 (Cell.level_mask c)
  | LibraryReference => Cell.refs c = [] ∧ get (Cell.data c) 0 = Some 2
  | MerkleProof => length (Cell.refs c) = 1%nat ∧ get (Cell.data c) 0 = Some 3
  | MerkleUpdate => length (Cell.refs c) = 2%nat ∧ get (Cell.data c) 0 = Some 4
  end.

Section wf.
Context `{Hasher}.

Local Unset Elimination Schemes.
Inductive cell_wf : Cell → Prop :=
| cell_wf_intro c :
    0 <= Cell.bit_len c <= MAX_BITS →
    completed (Cell.data c) (Cell.bit_len c) →
    mask_ok (Cell.level_mask c) →
    kind_ok c →
    summarize (Cell.data c) (Cell.bit_len c) (Cell.identity <$> Cell.refs c)
      (Cell.cell_type c) (Cell.level_mask c) = Ok (Cell.identity c) →
    Forall cell_wf (Cell.refs c) →
    cell_wf c.
Local Set Elimination Schemes.

(** The byte strings hashed for a cell itself, with their depths. *)
Definition own_reprs (c : Cell) : list (list Z * Z) :=
  match Cell.cell_type c with
  | PrunedBranch => [(pruned_repr (Cell.data c) (Cell.bit_len c) (Cell.level_mask c), 0)]
  | t => level_reprs (Cell.data c) (Cell.bit_len c) (Cell.identity <$> Cell.refs c) t
           (Cell.level_mask c) (significant (Cell.level_mask c)) None
  end.

(** The run of hashes and depths a cell's identity holds. *)
Definition own_hashes (c : Cell) : list (list Z * Z) :=
  match Cell.cell_type c with
  | PrunedBranch =>
      let n := count_ones 8 (Cell.level_mask c) in
      ((λ i, (stored_hash (Cell.data c) i, stored_depth (Cell.data c) n i)) <$> seqZ 0 n)
  | _ => []
  end ++ (digest <$> own_reprs c).

Lemma length_level_reprs data bits refs t mask ls below :
  length (level_reprs data bits refs t mask ls below) = length ls.
Proof. revert below. induction ls; intros; simpl; auto. Qed.

Lemma length_significant mask :
  mask_ok mask → Z.of_nat (length (significant mask)) = count_ones 8 mask + 1.
Proof. intros Hm. case_mask mask; reflexivity. Qed.

Lemma count_ones_nonneg mask : mask_ok mask → 0 <= count_ones 8 mask.
Proof. intros Hm. case_mask mask; vm_compute; congruence. Qed.

Lemma cell_wf_identity c :
  cell_wf c →
  Cell.identity c = mk_identity (Cell.level_mask c) (own_hashes c) ∧
  len (own_hashes c) = count_ones 8 (Cell.level_mask c) + 1.
Proof.
  intros [c' Hb Hc Hm Hk Hs _]. clear c. revert Hs. unfold summarize.
  destruct (negb _); [done|]. unfold own_hashes, own_reprs, kind_ok in *.
  pose proof (length_significant _ Hm) as Hsig. pose proof (count_ones_nonneg _ Hm).
  destruct (Cell.cell_type c').
  2:{ destruct Hk as (Hr & Hz & Ht & Hlen). rewrite compute_pruned by done. intros [= <-].
      split; [done|]. rewrite len_app, len_fmap, len_seqZ by done. done. }
  all: rewrite compute_other by done; intros [= <-]; split; [done|];
    rewrite app_nil_l, len_fmap; unfold len; rewrite length_level_reprs; exact Hsig.
Qed.

Lemma cell_wf_at c l :
  cell_wf c → 0 <= l →
  own_hashes c !! Z.to_nat (hash_index (Cell.level_mask c) l) =
    Some (Cell.hash_at c l, Cell.depth_at c l).
Proof.
  intros Hwf Hl. destruct (cell_wf_identity c Hwf) as [Hid Hlen].
  unfold Cell.hash_at, Cell.depth_at, Cell.identity in *. rewrite Hid.
  apply mk_identity_at; [by destruct Hwf|done|done].
Qed.
End wf.

(** ** Masks of children *)

Lemma fold_mask_acc cs acc :
  fold_left (λ acc child, Z.lor acc (id_mask child)) cs acc =
  Z.lor acc (fold_left (λ acc child, Z.lor acc (id_mask child)) cs 0).
Proof.
  revert acc. induction cs as [|c cs IH]; intros acc; simpl; [by rewrite Z.lor_0_r|].
  rewrite IH, (IH (Z.lor 0 _)), Z.lor_0_l. by rewrite Z.lor_assoc.
Qed.

Lemma fold_mask_elem c cs :
  c ∈ cs →
  Z.lor (id_mask c) (fold_left (λ acc child, Z.lor acc (id_mask child)) cs 0) =
  fold_left (λ acc child, Z.lor acc (id_mask child)) cs 0.
Proof.
  induction 1 as [c cs|c c' cs _ IH]; simpl; rewrite fold_mask_acc, Z.lor_0_l.
  - by rewrite Z.lor_assoc, Z.lor_diag.
  - rewrite Z.lor_assoc, (Z.lor_comm (id_mask c)), <- Z.lor_assoc. by rewrite IH.
Qed.
