(* ===== verification/Binding.v ===== *)
(** What a cell hash commits to. A hash at a level fixes the whole tree it was
    computed over, down to the pruned branches that stand for something at that
    level, unless SHA-256 collides on two byte strings actually hashed for the
    two trees. This is what makes [Cell::eq] (core/src/cell/cell.rs) an equality
    of trees, and a Merkle proof a proof. *)

From S2P Require Import Prelude Errors Bits CellData CellHash CellModel.
From stdpp Require Import base list list_numbers numbers strings.
From Stdlib Require Import ZArith Lia.

Local Open Scope Z_scope.

Lemma concat_inj_len {A} (k : nat) (l1 l2 : list (list A)) :
  length l1 = length l2 → Forall (λ x, length x = k) l1 → Forall (λ x, length x = k) l2 →
  concat l1 = concat l2 → l1 = l2.
Proof.
  revert l2. induction l1 as [|x l1 IH]; intros [|y l2] Hlen H1 H2; try done.
  apply Forall_cons in H1 as [Hx H1]. apply Forall_cons in H2 as [Hy H2]. simpl.
  intros E. apply app_inj_1 in E as [-> E]; [|congruence].
  f_equal. apply IH; [simpl in Hlen; lia|done..].
Qed.

Lemma length_concat_len {A} (k : nat) (l : list (list A)) :
  Forall (λ x, length x = k) l → length (concat l) = (k * length l)%nat.
Proof.
  induction 1 as [|x l Hx _ IH]; simpl; [lia|]. rewrite length_app, Hx, IH. lia.
Qed.

(** ** Masks and levels, by enumeration *)

Lemma level_of_range mask : mask_ok mask → 0 <= level_of mask <= 3.
Proof. intros Hm. case_mask mask; vm_compute; split; congruence. Qed.

Lemma applied_full mask : mask_ok mask → applied_mask mask (level_of mask) = mask.
Proof. intros Hm. case_mask mask; reflexivity. Qed.

Lemma level_full mask l :
  mask_ok mask → level_of mask <= l → hash_index mask l = count_ones 8 mask.
Proof.
  intros Hm Hl. rewrite hash_index_min. pose proof (level_of_range mask Hm).
  assert (0 <= l) as H0 by lia.
  assert (level_of mask <= Z.min l 3) as Hl' by lia. revert Hl'. clear Hl.
  pattern (Z.min l 3). apply level_cases; [done|..]; case_mask mask; vm_compute; done.
Qed.

Lemma level_stored mask l :
  mask_ok mask → 0 <= l < level_of mask → hash_index mask l < count_ones 8 mask.
Proof.
  intros Hm Hl. rewrite hash_index_min.
  pose proof (level_of_range mask Hm).
  assert (Z.min l 3 < level_of mask) as Hl' by lia. revert Hl'.
  assert (0 <= l) as H0 by lia. clear Hl.
  pattern (Z.min l 3). apply level_cases; [done|..]; case_mask mask; vm_compute; done.
Qed.

(** The level a hash is opened at, read back off the mask applied there. *)
Lemma significant_lookup mask i lev :
  mask_ok mask → significant mask !! i = Some lev →
  lev = level_of (applied_mask mask lev) ∧ Z.of_nat i = count_ones 8 (applied_mask mask lev) ∧
  0 <= applied_mask mask lev < 8 ∧ 0 <= lev.
Proof.
  intros Hm. case_mask mask;
    match goal with |- context [significant ?m] =>
      let s := eval vm_compute in (significant m) in change (significant m) with s end;
    destruct i as [|[|[|[|i]]]]; intros E; try discriminate E; injection E as <-;
    vm_compute; repeat split; congruence.
Qed.

(** Between the level a hash is opened at and the level it answers for, a
    child's mask marks nothing, so the child answers the same at both. *)
Lemma child_index mask cm l lev (merkle : bool) :
  mask_ok mask → mask_ok cm → 0 <= l →
  Z.lor (if merkle then Z.shiftr cm 1 else cm) mask = mask →
  significant mask !! Z.to_nat (hash_index mask l) = Some lev →
  hash_index cm (lev + b2z merkle) = hash_index cm (l + b2z merkle).
Proof.
  intros Hm Hc Hl Hsub Hlev.
  replace (hash_index cm (l + b2z merkle)) with (hash_index cm (Z.min l 3 + b2z merkle)).
  2:{ destruct (decide (l <= 3)); [by rewrite Z.min_l|].
      rewrite Z.min_r, hash_index_min, (hash_index_min _ (l + _)) by lia.
      f_equal. destruct merkle; simpl; lia. }
  rewrite hash_index_min in Hlev. revert Hlev Hsub.
  pattern (Z.min l 3). apply level_cases; [done|..]; clear l Hl; case_mask mask;
    match goal with |- ?s = Some lev → _ => let s' := eval vm_compute in s in change s with s' end;
    intros [= <-]; case_mask cm; destruct merkle; vm_compute; congruence.
Qed.

Section binding.
Context `{HH : Hasher} `{!HasherOk HH}.

(** At level [l] the cell is a pruned branch answering for what it stands for. *)
Definition stored_at (l : Z) (c : Cell) : Prop :=
  Cell.cell_type c = PrunedBranch ∧ l < Cell.level c.

(** The byte strings hashed in building a tree. *)
Inductive hashed : Cell → list Z → Prop :=
| hashed_here c x : x ∈ (own_reprs c).*1 → hashed c x
| hashed_below c r x : r ∈ Cell.refs c → hashed r x → hashed c x.

(** Two trees agree at a level: node for node the same bits, kind and
    references, down to the pruned branches that stand for something there. *)
Local Unset Elimination Schemes.
Inductive agrees : Z → Cell → Cell → Prop :=
| agrees_stored l c1 c2 :
    stored_at l c1 ∨ stored_at l c2 →
    Cell.hash_at c1 l = Cell.hash_at c2 l →
    agrees l c1 c2
| agrees_node l c1 c2 :
    Cell.data c1 = Cell.data c2 →
    Cell.bit_len c1 = Cell.bit_len c2 →
    Cell.cell_type c1 = Cell.cell_type c2 →
    (Cell.cell_type c1 = PrunedBranch → Cell.level_mask c1 = Cell.level_mask c2) →
    Forall2 (agrees (l + b2z (is_merkle (Cell.cell_type c1)))) (Cell.refs c1) (Cell.refs c2) →
    agrees l c1 c2.
Local Set Elimination Schemes.

Lemma own_hashes_len c h d : cell_wf c → (h, d) ∈ own_hashes c → length h = 32%nat.
Proof.
  intros [c' _ _ Hm Hk _ _] Hin. unfold own_hashes in Hin.
  apply elem_of_app in Hin as [Hin|Hin].
  - unfold kind_ok in Hk. destruct (Cell.cell_type c'); try by apply not_elem_of_nil in Hin.
    destruct Hk as (_ & _ & _ & Hlen).
    apply list_elem_of_fmap in Hin as (i & [= -> ->] & Hi%elem_of_seqZ).
    unfold stored_hash. rewrite length_take, length_drop. unfold len in Hlen. lia.
  - apply list_elem_of_fmap in Hin as ([r d'] & [= -> ->] & _). apply sha256_len.
Qed.

Lemma hash_at_len c l : cell_wf c → 0 <= l → length (Cell.hash_at c l) = 32%nat.
Proof.
  intros Hwf Hl. eapply own_hashes_len; [done|].
  eapply list_elem_of_lookup_2. by apply cell_wf_at.
Qed.

(** A hash the cell computed itself, rather than one a pruned branch stores. *)
Lemma hash_at_own c l :
  cell_wf c → 0 <= l → ¬ stored_at l c →
  ∃ i r d, own_reprs c !! i = Some (r, d) ∧ Cell.hash_at c l = sha256 r ∧
    (Cell.cell_type c ≠ PrunedBranch → i = Z.to_nat (hash_index (Cell.level_mask c) l)).
Proof.
  intros Hwf Hl Hs. pose proof (cell_wf_at c l Hwf Hl) as E.
  assert (mask_ok (Cell.level_mask c)) as Hm by by destruct Hwf.
  pose proof (count_ones_nonneg _ Hm).
  assert (∀ i h d, (digest <$> own_reprs c) !! i = Some (h, d) →
    ∃ r, own_reprs c !! i = Some (r, d) ∧ h = sha256 r) as Hd.
  { intros i h d Hi. rewrite list_lookup_fmap in Hi.
    destruct (own_reprs c !! i) as [[r d']|]; [|done]. injection Hi as <- <-. eauto. }
  unfold own_hashes in E. destruct (decide (Cell.cell_type c = PrunedBranch)) as [Et|Et].
  - rewrite Et in E. rewrite lookup_app_r in E.
    + apply Hd in E as (r & Hr & Eh). eexists _, r, (Cell.depth_at c l). by split_and!.
    + rewrite length_fmap, length_seqZ, level_full; [done|done|].
      destruct (decide (l < level_of (Cell.level_mask c))); [|lia]. by destruct Hs.
  - destruct (Cell.cell_type c); try done; apply Hd in E as (r & Hr & Eh);
      eexists _, r, (Cell.depth_at c l); by split_and!.
Qed.

Lemma level_reprs_lookup data bits refs t mask ls below i r d :
  level_reprs data bits refs t mask ls below !! i = Some (r, d) →
  ∃ lev b, ls !! i = Some lev ∧
    r = level_repr data bits refs (negb (bool_decide (t = Ordinary))) mask lev
          (lev + b2z (is_merkle t)) b ∧
    match i with
    | O => b = below
    | S k => ∃ r' d', level_reprs data bits refs t mask ls below !! k = Some (r', d') ∧
                      b = Some (sha256 r')
    end.
Proof.
  revert below i. induction ls as [|l ls IH]; intros below [|i]; simpl; try done.
  - intros [= <- <-]. eauto.
  - intros E. destruct (IH _ _ E) as (lev & b & Hl & Hr & Hb). exists lev, b.
    split; [done|]. split; [done|]. destruct i as [|i]; simpl in *.
    + rewrite Hb. eauto.
    + done.
Qed.

(** The descriptor bytes, read back. *)
Lemma descriptor_inj n1 n2 e1 e2 m1 m2 l1 l2 :
  0 <= n1 <= MAX_REFS → 0 <= n2 <= MAX_REFS → mask_ok m1 → mask_ok m2 → 0 <= l1 → 0 <= l2 →
  0 <= applied_mask m1 l1 < 8 → 0 <= applied_mask m2 l2 < 8 →
  refs_descriptor n1 e1 m1 l1 = refs_descriptor n2 e2 m2 l2 →
  n1 = n2 ∧ e1 = e2 ∧ applied_mask m1 l1 = applied_mask m2 l2.
Proof.
  unfold MAX_REFS. intros. rewrite !refs_descriptor_exact in * by (unfold MAX_REFS; done || lia).
  destruct e1, e2; repeat split; (lia || (exfalso; lia)).
Qed.

Lemma bits_descriptor_ceil b1 b2 :
  0 <= b1 <= MAX_BITS → 0 <= b2 <= MAX_BITS → bits_descriptor b1 = bits_descriptor b2 →
  div_ceil b1 8 = div_ceil b2 8 ∧ (b1 mod 8 = 0 ↔ b2 mod 8 = 0).
Proof.
  intros H1 H2. rewrite !bits_descriptor_exact by done. unfold div_ceil, MAX_BITS in *.
  intros E. split; [|split]; intros; zdiv.
Qed.

(** Descriptors and bytes fix the bit count. *)
Lemma completed_bits data b1 b2 :
  0 <= b1 <= MAX_BITS → 0 <= b2 <= MAX_BITS → completed data b1 → completed data b2 →
  bits_descriptor b1 = bits_descriptor b2 → b1 = b2.
Proof.
  intros H1 H2 (L1 & _ & C1) (L2 & _ & C2) E.
  apply bits_descriptor_ceil in E as [Ec Em]; [|done..].
  destruct (decide (b1 mod 8 = 0)) as [M1|M1].
  - pose proof (proj1 Em M1). unfold div_ceil in *. zdiv.
  - assert (b2 mod 8 ≠ 0) as M2 by tauto.
    destruct (C1 M1) as [T1 F1], (C2 M2) as [T2 F2].
    destruct (decide (b1 < b2)); [rewrite F1 in T2 by lia; done|].
    destruct (decide (b2 < b1)); [rewrite F2 in T1 by lia; done|]. lia.
Qed.

(** What a cell brings to the byte string of one of its levels. *)
Record repr_ok (data : list Z) (bits : Z) (refs : list Identity) (mask lev cl : Z)
    (below : option (list Z)) : Prop := {
  ro_bits : 0 <= bits <= MAX_BITS;
  ro_data : len data = div_ceil bits 8;
  ro_refs : len refs <= MAX_REFS;
  ro_mask : mask_ok mask;
  ro_lev : 0 <= lev;
  ro_applied : 0 <= applied_mask mask lev < 8;
  ro_below : ∀ h, below = Some h → length h = 32%nat;
  ro_hashes : Forall (λ id, length (Identity.hash_at id cl) = 32%nat) refs;
}.

Lemma level_repr_inj data1 bits1 refs1 e1 m1 lev1 cl1 b1 data2 bits2 refs2 e2 m2 lev2 cl2 b2 :
  repr_ok data1 bits1 refs1 m1 lev1 cl1 b1 → repr_ok data2 bits2 refs2 m2 lev2 cl2 b2 →
  (b1 = None ↔ b2 = None) →
  level_repr data1 bits1 refs1 e1 m1 lev1 cl1 b1 = level_repr data2 bits2 refs2 e2 m2 lev2 cl2 b2 →
  e1 = e2 ∧ applied_mask m1 lev1 = applied_mask m2 lev2 ∧
  bits_descriptor bits1 = bits_descriptor bits2 ∧ b1 = b2 ∧ (b1 = None → data1 = data2) ∧
  (λ id, Identity.hash_at id cl1) <$> refs1 = (λ id, Identity.hash_at id cl2) <$> refs2.
Proof.
  intros [B1 D1 R1 M1 L1 A1 W1 H1] [B2 D2 R2 M2 L2 A2 W2 H2] Hb E.
  unfold level_repr in E. injection E as Ed Eb E.
  pose proof (len_nonneg refs1). pose proof (len_nonneg refs2).
  apply descriptor_inj in Ed as (En & -> & Ea); try done.
  pose proof (proj1 (bits_descriptor_ceil _ _ B1 B2 Eb)) as Ec.
  assert (∀ refs : list Identity, ∀ cl,
    Forall (λ x, length x = 2%nat)
      ((λ child, to_be_bytes 2 (Identity.depth_at child cl)) <$> refs)) as Hd.
  { intros refs cl. apply Forall_fmap, Forall_true. intros. apply length_to_be_bytes. }
  assert (length refs1 = length refs2) as Enat by (unfold len in En; lia).
  assert (∀ X1 X2 : list Z, length X1 = length X2 →
    X1 ++ concat ((λ child, to_be_bytes 2 (Identity.depth_at child cl1)) <$> refs1) ++
      concat ((λ child, Identity.hash_at child cl1) <$> refs1) =
    X2 ++ concat ((λ child, to_be_bytes 2 (Identity.depth_at child cl2)) <$> refs2) ++
      concat ((λ child, Identity.hash_at child cl2) <$> refs2) →
    X1 = X2 ∧ (λ id, Identity.hash_at id cl1) <$> refs1 = (λ id, Identity.hash_at id cl2) <$> refs2)
    as Hsplit.
  { intros X1 X2 HX HE. apply app_inj_1 in HE as [-> HE]; [|done]. split; [done|].
    apply app_inj_1 in HE as [_ HE].
    - apply (concat_inj_len 32); rewrite ?length_fmap; [done|by apply Forall_fmap..|done].
    - rewrite !(length_concat_len 2), !length_fmap by apply Hd. lia. }
  do 3 (split; [done|]). destruct b1 as [h1|], b2 as [h2|].
  - apply Hsplit in E as [-> E]; [done|by rewrite (W1 h1), (W2 h2)].
  - discriminate (proj2 Hb eq_refl).
  - discriminate (proj1 Hb eq_refl).
  - apply Hsplit in E as [-> E]; [done|]. unfold len in *. lia.
Qed.

Lemma cell_repr_ok c lev b i :
  cell_wf c → Cell.cell_type c ≠ PrunedBranch →
  significant (Cell.level_mask c) !! i = Some lev →
  (∀ h, b = Some h → length h = 32%nat) →
  repr_ok (Cell.data c) (Cell.bit_len c) (Cell.identity <$> Cell.refs c) (Cell.level_mask c) lev
    (lev + b2z (is_merkle (Cell.cell_type c))) b.
Proof.
  intros [c' B D M K S W] Ht Hlev Hb.
  destruct (significant_lookup _ _ _ M Hlev) as (_ & _ & Ha & Hl).
  split; [done|by destruct D| |done|done|done|done|].
  - rewrite len_fmap. apply len_refs_slice.
  - apply Forall_fmap. eapply Forall_impl; [exact W|]. intros x Hx. simpl.
    apply (hash_at_len x _ Hx). destruct (is_merkle _); simpl; lia.
Qed.

Lemma own_reprs_other c :
  Cell.cell_type c ≠ PrunedBranch →
  own_reprs c = level_reprs (Cell.data c) (Cell.bit_len c) (Cell.identity <$> Cell.refs c)
    (Cell.cell_type c) (Cell.level_mask c) (significant (Cell.level_mask c)) None.
Proof. unfold own_reprs. by destruct (Cell.cell_type c). Qed.

Definition collision_free (P : list Z → Prop) : Prop :=
  ∀ x y, P x → P y → sha256 x = sha256 y → x = y.

Lemma own_reprs_hashed c i r d : own_reprs c !! i = Some (r, d) → hashed c r.
Proof.
  intros Hi. apply hashed_here. eapply list_elem_of_lookup_2 with (i := i).
  by rewrite list_lookup_fmap, Hi.
Qed.

(** Two equal byte strings of computed levels: same node, and the children
    answer the same at the level below. *)
Lemma reprs_node c1 c2 i r d1 d2 :
  cell_wf c1 → cell_wf c2 →
  Cell.cell_type c1 ≠ PrunedBranch → Cell.cell_type c2 ≠ PrunedBranch →
  collision_free (λ x, hashed c1 x ∨ hashed c2 x) →
  own_reprs c1 !! i = Some (r, d1) → own_reprs c2 !! i = Some (r, d2) →
  ∃ lev1 lev2, significant (Cell.level_mask c1) !! i = Some lev1 ∧
    significant (Cell.level_mask c2) !! i = Some lev2 ∧
    Cell.is_exotic c1 = Cell.is_exotic c2 ∧
    applied_mask (Cell.level_mask c1) lev1 = applied_mask (Cell.level_mask c2) lev2 ∧
    bits_descriptor (Cell.bit_len c1) = bits_descriptor (Cell.bit_len c2) ∧
    Cell.data c1 = Cell.data c2 ∧
    (λ x, Cell.hash_at x (lev1 + b2z (is_merkle (Cell.cell_type c1)))) <$> Cell.refs c1 =
    (λ x, Cell.hash_at x (lev2 + b2z (is_merkle (Cell.cell_type c2)))) <$> Cell.refs c2.
Proof.
  intros W1 W2 T1 T2 Hcf. revert r d1 d2. induction i as [|i IH]; intros r d1 d2 E1 E2;
    pose proof E1 as Q1; pose proof E2 as Q2;
    rewrite own_reprs_other in Q1, Q2 by done;
    apply level_reprs_lookup in Q1 as (lev1 & b1 & S1 & R1 & B1);
    apply level_reprs_lookup in Q2 as (lev2 & b2 & S2 & R2 & B2);
    exists lev1, lev2; (split; [done|]); (split; [done|]); rewrite R1 in R2.
  - subst b1 b2. apply level_repr_inj in R2 as (He & Ha & Hd & _ & Hdata & Hh);
      [|by eapply cell_repr_ok..|done].
    rewrite <- !list_fmap_compose in Hh. split_and!; try done. by apply Hdata.
  - destruct B1 as (p1 & q1 & P1 & ->), B2 as (p2 & q2 & P2 & ->).
    rewrite <- own_reprs_other in P1, P2 by done.
    apply level_repr_inj in R2 as (He & Ha & Hd & Hs & _ & Hh);
      [|eapply cell_repr_ok; [done|done|done|intros h [= <-]; apply sha256_len]..|done].
    rewrite <- !list_fmap_compose in Hh. injection Hs as Hs.
    apply Hcf in Hs as ->; [|left; by eapply own_reprs_hashed|right; by eapply own_reprs_hashed].
    destruct (IH _ _ _ P1 P2) as (_ & _ & _ & _ & _ & _ & _ & Hdata & _). by split_and!.
Qed.

Lemma repr_head c i r d :
  cell_wf c → own_reprs c !! i = Some (r, d) →
  ∃ lev rest,
    r = refs_descriptor (len (Cell.refs c)) (Cell.is_exotic c) (Cell.level_mask c) lev :: rest ∧
    0 <= lev ∧ 0 <= applied_mask (Cell.level_mask c) lev < 8 ∧
    (Cell.cell_type c = PrunedBranch → applied_mask (Cell.level_mask c) lev = Cell.level_mask c) ∧
    (Cell.cell_type c ≠ PrunedBranch →
      Z.of_nat i = count_ones 8 (applied_mask (Cell.level_mask c) lev) ∧
      significant (Cell.level_mask c) !! i = Some lev).
Proof.
  intros [c' B D M K S W] Hr. clear c. destruct (decide (Cell.cell_type c' = PrunedBranch)) as [T|T].
  - unfold own_reprs, kind_ok in *. rewrite T in *. destruct K as (-> & Hz & _).
    destruct i as [|i]; [|done]. injection Hr as <- <-.
    exists (level_of (Cell.level_mask c')), (bits_descriptor (Cell.bit_len c') :: Cell.data c').
    rewrite applied_full by done. unfold Cell.is_exotic. change (inner_cell_type c') with (Cell.cell_type c').
    rewrite T. pose proof (level_of_range _ M). split; [done|]. split; [lia|].
    split; [exact M|]. split; [done|]. intros T'. by destruct T'.
  - rewrite own_reprs_other in Hr by done.
    apply level_reprs_lookup in Hr as (lev & b & Hl & -> & _).
    destruct (significant_lookup _ _ _ M Hl) as (_ & Hi & Ha & H0).
    exists lev. eexists. unfold level_repr. rewrite len_fmap. split_and!; done || lia.
Qed.

Lemma reprs_heads c1 c2 i1 i2 r d1 d2 :
  cell_wf c1 → cell_wf c2 →
  own_reprs c1 !! i1 = Some (r, d1) → own_reprs c2 !! i2 = Some (r, d2) →
  (Cell.cell_type c1 = PrunedBranch ↔ Cell.cell_type c2 = PrunedBranch) ∧
  (Cell.cell_type c1 ≠ PrunedBranch → i1 = i2).
Proof.
  intros W1 W2 E1 E2. pose proof (repr_head c1 i1 r d1 W1 E1) as (l1 & t1 & H1 & P1 & A1 & Q1 & I1).
  pose proof (repr_head c2 i2 r d2 W2 E2) as (l2 & t2 & H2 & P2 & A2 & Q2 & I2).
  rewrite H1 in H2. injection H2 as Hd _.
  destruct W1 as [c1 _ _ M1 K1 S1 _], W2 as [c2 _ _ M2 K2 S2 _].
  apply descriptor_inj in Hd as (En & Ee & Ea); try done; [|apply len_refs_slice..].
  assert (∀ c c' l l', kind_ok c → kind_ok c' → len (Cell.refs c) = len (Cell.refs c') →
    Cell.is_exotic c = Cell.is_exotic c' →
    Cell.cell_type c = PrunedBranch → Cell.cell_type c' ≠ PrunedBranch →
    mask_ok (Cell.level_mask c') →
    summarize (Cell.data c') (Cell.bit_len c') (Cell.identity <$> Cell.refs c')
      (Cell.cell_type c') (Cell.level_mask c') = Ok (Cell.identity c') →
    applied_mask (Cell.level_mask c) l = Cell.level_mask c →
    applied_mask (Cell.level_mask c) l = applied_mask (Cell.level_mask c') l' → False) as Hmix.
  { clear. intros c c' l l' K K' En Ee T T' M' S' A Ea. unfold kind_ok, Cell.is_exotic in *.
    change (inner_cell_type c) with (Cell.cell_type c) in *.
    change (inner_cell_type c') with (Cell.cell_type c') in *.
    rewrite T in *. destruct K as (Hr & Hz & _). rewrite Hr in En.
    destruct (Cell.cell_type c'); try done; unfold len in En; simpl in En.
    - revert S'. unfold summarize. simpl. destruct (Z.eqb_spec (Cell.level_mask c') 0) as [E0|]; [|done].
      intros _. rewrite E0 in Ea. apply Hz. rewrite <- A, Ea. unfold applied_mask. by destruct (3 <=? l').
    - destruct K' as [K' _]. rewrite K' in En. done.
    - destruct K' as [K' _]. rewrite K' in En. done. }
  split.
  - split; intros T; apply dec_stable; intros T'.
    + eapply (Hmix c1 c2 l1 l2); eauto.
    + eapply (Hmix c2 c1 l2 l1); eauto.
  - intros T1. assert (Cell.cell_type c2 ≠ PrunedBranch) as T2.
    { intros T2. eapply (Hmix c2 c1 l2 l1); eauto. }
    destruct (I1 T1) as [N1 _], (I2 T2) as [N2 _]. rewrite Ea in N1. lia.
Qed.

Lemma child_mask c x :
  cell_wf c → Cell.cell_type c ≠ PrunedBranch → x ∈ Cell.refs c →
  Z.lor (if is_merkle (Cell.cell_type c) then Z.shiftr (Cell.level_mask x) 1 else Cell.level_mask x)
    (Cell.level_mask c) = Cell.level_mask c.
Proof.
  intros [c' _ _ M K S _] T Hx. revert S. unfold summarize.
  match goal with |- context [negb (?a =? ?b)] => destruct (Z.eqb_spec a b) as [E|]; [|done] end.
  intros _. apply (list_elem_of_fmap_2 Cell.identity) in Hx as Hi.
  apply fold_mask_elem in Hi. unfold kind_ok in K.
  change (id_mask (Cell.identity x)) with (Cell.level_mask x) in Hi.
  destruct (Cell.cell_type c'); simpl in *; try done.
  - by rewrite E.
  - destruct K as [K _]. rewrite K in Hx. by apply not_elem_of_nil in Hx.
  - rewrite E, <- Z.shiftr_lor. by rewrite Hi.
  - rewrite E, <- Z.shiftr_lor. by rewrite Hi.
Qed.

Lemma kind_tag c1 c2 :
  kind_ok c1 → kind_ok c2 → Cell.is_exotic c1 = Cell.is_exotic c2 →
  Cell.data c1 = Cell.data c2 → Cell.cell_type c1 = Cell.cell_type c2.
Proof.
  intros K1 K2 Ee Ed. unfold kind_ok, Cell.is_exotic in *. rewrite Ed in K1.
  change (inner_cell_type c1) with (Cell.cell_type c1) in *.
  change (inner_cell_type c2) with (Cell.cell_type c2) in *.
  destruct (Cell.cell_type c1), (Cell.cell_type c2); try done; simpl in *; destruct_and?; congruence.
Qed.

#[local] Instance stored_at_dec l c : Decision (stored_at l c).
Proof. unfold stored_at. apply _. Defined.

Lemma hash_at_congr c a b :
  hash_index (Cell.level_mask c) a = hash_index (Cell.level_mask c) b →
  Cell.hash_at c a = Cell.hash_at c b.
Proof.
  unfold Cell.hash_at, Cell.level_mask, Identity.hash_at. by intros ->.
Qed.

Lemma collision_free_child c1 c2 x y :
  x ∈ Cell.refs c1 → y ∈ Cell.refs c2 →
  collision_free (λ z, hashed c1 z ∨ hashed c2 z) →
  collision_free (λ z, hashed x z ∨ hashed y z).
Proof.
  intros Hx Hy Hcf a b Ha Hb. apply Hcf; [destruct Ha|destruct Hb];
    eauto using hashed_below.
Qed.

(** The children of two nodes with the same computed hash answer the same. *)
Lemma reprs_children c1 c2 i r d1 d2 l :
  cell_wf c1 → cell_wf c2 → 0 <= l →
  Cell.cell_type c1 ≠ PrunedBranch → Cell.cell_type c2 ≠ PrunedBranch →
  collision_free (λ x, hashed c1 x ∨ hashed c2 x) →
  i = Z.to_nat (hash_index (Cell.level_mask c1) l) →
  i = Z.to_nat (hash_index (Cell.level_mask c2) l) →
  own_reprs c1 !! i = Some (r, d1) → own_reprs c2 !! i = Some (r, d2) →
  Cell.data c1 = Cell.data c2 ∧ Cell.bit_len c1 = Cell.bit_len c2 ∧
  Cell.cell_type c1 = Cell.cell_type c2 ∧
  Forall2 (λ x y, Cell.hash_at x (l + b2z (is_merkle (Cell.cell_type c1))) =
                  Cell.hash_at y (l + b2z (is_merkle (Cell.cell_type c1))))
    (Cell.refs c1) (Cell.refs c2).
Proof.
  intros W1 W2 Hl T1 T2 Hcf I1 I2 E1 E2.
  destruct (reprs_node c1 c2 i r d1 d2) as (lev1 & lev2 & S1 & S2 & Ee & Ea & Eb & Ed & Eh); [done..|].
  pose proof (λ x, child_mask c1 x W1 T1) as CM1. pose proof (λ x, child_mask c2 x W2 T2) as CM2.
  destruct W1 as [c1 B1 D1 M1 K1 _ F1], W2 as [c2 B2 D2 M2 K2 _ F2].
  assert (Cell.cell_type c1 = Cell.cell_type c2) as Et by by apply kind_tag.
  assert (lev1 = lev2) as <-.
  { destruct (significant_lookup _ _ _ M1 S1) as [-> _], (significant_lookup _ _ _ M2 S2) as [-> _].
    by rewrite Ea. }
  split; [done|]. split; [rewrite Ed in D1; by eapply completed_bits|]. split; [done|].
  assert (∀ c x, cell_wf x → mask_ok (Cell.level_mask c) →
    Z.lor (if is_merkle (Cell.cell_type c) then Z.shiftr (Cell.level_mask x) 1 else Cell.level_mask x)
      (Cell.level_mask c) = Cell.level_mask c →
    significant (Cell.level_mask c) !! Z.to_nat (hash_index (Cell.level_mask c) l) = Some lev1 →
    Cell.hash_at x (lev1 + b2z (is_merkle (Cell.cell_type c))) =
    Cell.hash_at x (l + b2z (is_merkle (Cell.cell_type c)))) as Hx.
  { intros c x Wx Mc CM S. apply hash_at_congr. eapply child_index; [exact Mc| |done|done|done].
    by destruct Wx. }
  rewrite <- Et in Eh. rewrite Forall_forall in F1, F2. subst i. rewrite I2 in S2.
  apply (f_equal length) in Eh as Elen. rewrite !length_fmap in Elen.
  apply Forall2_same_length_lookup. split; [done|]. intros k x y Hkx Hky.
  apply list_elem_of_lookup_2 in Hkx as Hinx. apply list_elem_of_lookup_2 in Hky as Hiny.
  rewrite <- (Hx c1 x) by auto. rewrite Et, <- (Hx c2 y) by auto. rewrite <- Et.
  apply (f_equal (.!! k)) in Eh. rewrite !list_lookup_fmap, Hkx, Hky in Eh. by injection Eh.
Qed.

Lemma pruned_same c1 c2 i1 i2 r d1 d2 :
  cell_wf c1 → cell_wf c2 → Cell.cell_type c1 = PrunedBranch → Cell.cell_type c2 = PrunedBranch →
  own_reprs c1 !! i1 = Some (r, d1) → own_reprs c2 !! i2 = Some (r, d2) →
  Cell.data c1 = Cell.data c2 ∧ Cell.bit_len c1 = Cell.bit_len c2 ∧
  Cell.level_mask c1 = Cell.level_mask c2 ∧ Cell.refs c1 = [] ∧ Cell.refs c2 = [].
Proof.
  intros [c B1 D1 M1 K1 _ _] [c' B2 D2 M2 K2 _ _] T1 T2 E1 E2.
  unfold own_reprs, kind_ok in *. rewrite T1 in *. rewrite T2 in *.
  destruct i1 as [|i1]; [|done]. destruct i2 as [|i2]; [|done].
  injection E1 as <- _. injection E2 as Em Eb Ed _.
  destruct K1 as (-> & _), K2 as (-> & _).
  split; [done|]. split; [rewrite Ed in D2; by eapply completed_bits|]. split; [|done].
  pose proof (level_of_range _ M1). pose proof (level_of_range _ M2).
  apply descriptor_inj in Em as (_ & _ & Em); unfold MAX_REFS; try done || lia;
    rewrite ?applied_full in * by done; done.
Qed.

(** Two trees that answer with the same hash at a level agree at that level. *)
Lemma hash_at_agrees c1 : ∀ c2 l,
  cell_wf c1 → cell_wf c2 → 0 <= l →
  collision_free (λ x, hashed c1 x ∨ hashed c2 x) →
  Cell.hash_at c1 l = Cell.hash_at c2 l → agrees l c1 c2.
Proof.
  induction c1 as [d b rs t id IH] using cell_tree_ind. intros c2 l W1 W2 Hl Hcf E.
  set (c1 := MkCell d b rs t id) in *. change (refs_slice rs) with (Cell.refs c1) in IH.
  destruct (decide (stored_at l c1)) as [|N1]; [by apply agrees_stored; [left|]|].
  destruct (decide (stored_at l c2)) as [|N2]; [by apply agrees_stored; [right|]|].
  destruct (hash_at_own c1 l W1 Hl N1) as (i1 & r1 & d1 & R1 & H1 & I1).
  destruct (hash_at_own c2 l W2 Hl N2) as (i2 & r2 & d2 & R2 & H2 & I2).
  rewrite H1, H2 in E.
  apply Hcf in E as <-; [|left; by eapply own_reprs_hashed|right; by eapply own_reprs_hashed].
  destruct (reprs_heads c1 c2 i1 i2 r1 d1 d2) as [Hp Hi]; [done..|].
  destruct (decide (Cell.cell_type c1 = PrunedBranch)) as [T1|T1].
  - destruct (pruned_same c1 c2 i1 i2 r1 d1 d2) as (Ed & Eb & Em & F1 & F2); [tauto..|done|].
    apply agrees_node; [done|done|by rewrite T1; symmetry; apply Hp|done|]. by rewrite F1, F2.
  - assert (Cell.cell_type c2 ≠ PrunedBranch) as T2 by tauto. rewrite <- (Hi T1) in *.
    destruct (reprs_children c1 c2 i1 r1 d1 d2 l) as (Ed & Eb & Et & Hch); auto.
    apply agrees_node; [done..|done|].
    assert (Forall cell_wf (Cell.refs c1)) as F1 by by destruct W1.
    assert (Forall cell_wf (Cell.refs c2)) as F2 by by destruct W2.
    rewrite Forall_forall in IH, F1, F2. apply Forall2_same_length_lookup.
    split; [by eapply Forall2_length|]. intros k x y Hx Hy.
    pose proof (Forall2_lookup_lr _ _ _ _ _ _ Hch Hx Hy) as Exy.
    apply list_elem_of_lookup_2 in Hx, Hy.
    apply (IH x); auto.
    + destruct (is_merkle (Cell.cell_type c1)); simpl; lia.
    + by apply (collision_free_child c1 c2).
Qed.

(** The same tree: the same bits, kind and identity at every node. *)
Local Unset Elimination Schemes.
Inductive same : Cell → Cell → Prop :=
| same_intro c1 c2 :
    Cell.data c1 = Cell.data c2 →
    Cell.bit_len c1 = Cell.bit_len c2 →
    Cell.cell_type c1 = Cell.cell_type c2 →
    Cell.identity c1 = Cell.identity c2 →
    Forall2 same (Cell.refs c1) (Cell.refs c2) →
    same c1 c2.
Local Set Elimination Schemes.

Lemma same_identity x y : same x y → Cell.identity x = Cell.identity y.
Proof. by intros []. Qed.

Lemma same_refl c : same c c.
Proof.
  induction c as [d b r t i IH] using cell_tree_ind. apply same_intro; [done..|].
  unfold Cell.refs. simpl. induction IH; by constructor.
Qed.

Lemma same_trans a : ∀ b c, same a b → same b c → same a c.
Proof.
  induction a as [d b0 r t i IH] using cell_tree_ind. intros b c Hab Hbc.
  set (a := MkCell d b0 r t i) in *. change (refs_slice r) with (Cell.refs a) in IH. clearbody a.
  destruct Hab as [a b E1 E2 E3 E4 Hr]. destruct Hbc as [b c F1 F2 F3 F4 Hr'].
  constructor; try congruence. revert IH Hr'. generalize (Cell.refs c). revert Hr.
  generalize (Cell.refs a) (Cell.refs b). intros la lb Hr. induction Hr as [|x y la lb Hxy _ IHr];
    intros lc IH Hr'; inversion Hr'; subst; [constructor|].
  apply Forall_cons in IH as [IHx IH]. constructor; [by eapply IHx|by apply IHr].
Qed.

(** Above every level a mask can mark, agreement leaves nothing pruned away. *)
Lemma agrees_same c1 : ∀ c2 l,
  cell_wf c1 → cell_wf c2 → 3 <= l → agrees l c1 c2 → same c1 c2.
Proof.
  induction c1 as [d b rs t id IH] using cell_tree_ind. intros c2 l W1 W2 Hl Hag.
  set (c1 := MkCell d b rs t id) in *. change (refs_slice rs) with (Cell.refs c1) in IH.
  clearbody c1. inversion Hag as [l' c1' c2' Hs E|l' c1' c2' Ed Eb Et Em Hch]; subst.
  - exfalso. destruct W1 as [c1 _ _ M1 _ _ _], W2 as [c2 _ _ M2 _ _ _].
    pose proof (level_of_range _ M1). pose proof (level_of_range _ M2).
    unfold stored_at, Cell.level in Hs. lia.
  - destruct W1 as [c1 _ _ M1 K1 S1 F1], W2 as [c2 _ _ M2 K2 S2 F2].
    rewrite Forall_forall in IH, F1, F2.
    assert (Forall2 same (Cell.refs c1) (Cell.refs c2)) as Hsame.
    { apply Forall2_same_length_lookup. split; [by eapply Forall2_length|]. intros k x y Hx Hy.
      pose proof (Forall2_lookup_lr _ _ _ _ _ _ Hch Hx Hy) as Exy.
      apply list_elem_of_lookup_2 in Hx, Hy. eapply IH; auto; [|exact Exy].
      destruct (is_merkle (Cell.cell_type c1)); simpl; lia. }
    assert (Cell.identity <$> Cell.refs c1 = Cell.identity <$> Cell.refs c2) as Eid.
    { clear -Hsame. induction Hsame as [|x y l1 l2 [x' y' _ _ _ Hxy _] _ IHs]; [done|].
      by apply (f_equal2 cons). }
    apply same_intro; try done.
    assert (Cell.level_mask c1 = Cell.level_mask c2) as Emask.
    { revert S1 S2. unfold summarize. rewrite <- Eid, <- Et.
      repeat match goal with |- context [negb (?a =? ?b)] =>
        destruct (Z.eqb_spec a b); simpl; [|done] end.
      destruct (Cell.cell_type c1); simpl in *; intros; (congruence || auto). }
    rewrite Ed, Eb, Et, Eid, Emask, S2 in S1. by injection S1.
Qed.

Lemma repr_hash_top c : cell_wf c → Cell.repr_hash c = Cell.hash_at c 3.
Proof.
  intros [c' _ _ M _ _ _]. unfold Cell.repr_hash. apply hash_at_congr.
  pose proof (level_of_range _ M). rewrite !level_full; [done|done|lia|done|].
  unfold Cell.level. lia.
Qed.

(** Two well-formed cells of the same hash are the same tree. *)
Lemma repr_hash_same c1 c2 :
  cell_wf c1 → cell_wf c2 → collision_free (λ x, hashed c1 x ∨ hashed c2 x) →
  Cell.repr_hash c1 = Cell.repr_hash c2 → same c1 c2.
Proof.
  intros W1 W2 Hcf. rewrite !repr_hash_top by done. intros E.
  apply (agrees_same c1 c2 3); [done..|by apply hash_at_agrees].
Qed.

Lemma same_repr_hash c1 c2 : same c1 c2 → Cell.repr_hash c1 = Cell.repr_hash c2.
Proof.
  intros [x y _ _ _ Hid _]. unfold Cell.repr_hash, Cell.hash_at, Cell.level, Cell.level_mask.
  unfold Cell.identity in Hid. by rewrite Hid.
Qed.

(** C38: [Cell::eq] holds of two well-formed cells exactly when they are the
    same tree, provided SHA-256 does not collide on the byte strings hashed
    in building them. *)
Theorem cell_eq_same c1 c2 :
  cell_wf c1 → cell_wf c2 →
  collision_free (λ x, hashed c1 x ∨ hashed c2 x) →
  Cell.eqb c1 c2 = true ↔ same c1 c2.
Proof.
  intros W1 W2 Hcf. unfold Cell.eqb. rewrite bool_decide_eq_true.
  split; [by apply repr_hash_same|apply same_repr_hash].
Qed.
End binding.
