(* ===== verification/CellCheck.v ===== *)
(** Deciding the invariants of cells on concrete trees, so that examples of the
    theorems about them evaluate: [cell_wfb] decides well-formedness,
    [hashed_list] lists the byte strings hashed in building a tree and
    [no_collision] decides that none of them collide. *)

From S2P Require Import Prelude Errors Bits CellData CellHash CellModel Binding.
From stdpp Require Import base list list_numbers numbers strings.
From Stdlib Require Import ZArith Lia.

Local Open Scope Z_scope.

Definition completedb (data : list Z) (bits : Z) : bool :=
  (len data =? div_ceil bits 8) && forallb (λ b, (0 <=? b) && (b <? 256)) data &&
  ((bits mod 8 =? 0) ||
   (data_bit data bits &&
    forallb (λ i, negb (data_bit data i)) (seqZ (bits + 1) (8 * len data - bits - 1)))).

Definition kind_okb (c : Cell) : bool :=
  match Cell.cell_type c with
  | Ordinary => true
  | PrunedBranch =>
      bool_decide (length (Cell.refs c) = 0%nat) && negb (Cell.level_mask c =? 0) &&
      bool_decide (get (Cell.data c) 0 = Some 1) &&
      bool_decide (get (Cell.data c) 1 = Some (Cell.level_mask c)) &&
      (len (Cell.data c) =? 2 + 34 * count_ones 8 (Cell.level_mask c))
  | LibraryReference =>
      bool_decide (length (Cell.refs c) = 0%nat) && bool_decide (get (Cell.data c) 0 = Some 2)
  | MerkleProof =>
      bool_decide (length (Cell.refs c) = 1%nat) && bool_decide (get (Cell.data c) 0 = Some 3)
  | MerkleUpdate =>
      bool_decide (length (Cell.refs c) = 2%nat) && bool_decide (get (Cell.data c) 0 = Some 4)
  end.

Section check.
Context `{HH : Hasher}.

Definition node_okb (c : Cell) : bool :=
  (0 <=? Cell.bit_len c) && (Cell.bit_len c <=? MAX_BITS) &&
  completedb (Cell.data c) (Cell.bit_len c) &&
  (0 <=? Cell.level_mask c) && (Cell.level_mask c <? 8) && kind_okb c &&
  bool_decide (summarize (Cell.data c) (Cell.bit_len c) (Cell.identity <$> Cell.refs c)
    (Cell.cell_type c) (Cell.level_mask c) = Ok (Cell.identity c)).

Fixpoint cell_wfb (c : Cell) : bool :=
  match c with
  | MkCell d b r t i =>
      node_okb (MkCell d b r t i) &&
      match r with
      | RNone => true
      | ROne x => cell_wfb x
      | RTwo x y => cell_wfb x && cell_wfb y
      | RThree x y z => cell_wfb x && cell_wfb y && cell_wfb z
      | RFour x y z w => cell_wfb x && cell_wfb y && cell_wfb z && cell_wfb w
      end
  end.

Fixpoint hashed_list (c : Cell) : list (list Z) :=
  match c with
  | MkCell d b r t i =>
      (own_reprs (MkCell d b r t i)).*1 ++
      match r with
      | RNone => []
      | ROne x => hashed_list x
      | RTwo x y => hashed_list x ++ hashed_list y
      | RThree x y z => hashed_list x ++ hashed_list y ++ hashed_list z
      | RFour x y z w => hashed_list x ++ hashed_list y ++ hashed_list z ++ hashed_list w
      end
  end.

Definition no_collision (l : list (list Z)) : bool :=
  forallb (λ x, forallb (λ y, bool_decide (x = y) || negb (bool_decide (sha256 x = sha256 y))) l) l.

Lemma completedb_ok data bits : 0 <= bits → completedb data bits = true → completed data bits.
Proof.
  unfold completedb. rewrite !andb_true_iff, orb_true_iff, Z.eqb_eq.
  intros Hb [[Hlen Hby] Hc]. split; [done|]. split.
  { rewrite Forall_forall. rewrite forallb_forall in Hby. intros b Hin.
    apply list_elem_of_In, Hby, andb_true_iff in Hin as [H1%Z.leb_le H2%Z.ltb_lt]. done. }
  intros Hm. destruct Hc as [Hc%Z.eqb_eq|Hc]; [done|].
  apply andb_true_iff in Hc as [H1 H2]. split; [done|]. intros i Hi.
  destruct (decide (i < 8 * len data)); [|by rewrite data_bit_past by lia].
  rewrite forallb_forall in H2. apply negb_true_iff, H2, list_elem_of_In, elem_of_seqZ. lia.
Qed.

Lemma length_nil {A} (l : list A) : length l = 0%nat → l = [].
Proof. by destruct l. Qed.

Lemma kind_okb_ok c : kind_okb c = true → kind_ok c.
Proof.
  unfold kind_okb, kind_ok. destruct (Cell.cell_type c); [done|..];
    rewrite ?andb_true_iff, ?negb_true_iff, ?bool_decide_eq_true, ?Z.eqb_eq, ?Z.eqb_neq;
    intros; destruct_and?; repeat split; auto using length_nil.
Qed.

Lemma cell_wfb_ok c : cell_wfb c = true → cell_wf c.
Proof.
  induction c as [d b r t i IH] using cell_tree_ind. cbn [cell_wfb].
  rewrite andb_true_iff. intros [Hn Hr]. set (c := MkCell d b r t i) in *.
  unfold node_okb in Hn. rewrite !andb_true_iff, bool_decide_eq_true in Hn.
  destruct Hn as [[[[[[Hb1%Z.leb_le Hb2%Z.leb_le] Hc] Hm1%Z.leb_le] Hm2%Z.ltb_lt] Hk] Hs].
  constructor; [done|by apply completedb_ok|done|by apply kind_okb_ok|done|].
  change (Cell.refs c) with (refs_slice r). clear -IH Hr.
  destruct r; simpl in *; rewrite ?andb_true_iff in Hr; rewrite ?Forall_cons in IH; destruct_and?;
    repeat (apply Forall_cons_2; [by auto|]); apply Forall_nil_2.
Qed.

Lemma hashed_list_spec c x : hashed c x → x ∈ hashed_list c.
Proof.
  induction 1 as [c x Hx|c r x Hr _ IH].
  - destruct c. cbn [hashed_list]. apply elem_of_app. by left.
  - destruct c as [d b rs t i]. cbn [hashed_list]. apply elem_of_app. right.
    unfold Cell.refs in Hr. simpl in Hr. revert Hr.
    destruct rs; simpl; rewrite ?elem_of_cons, ?elem_of_app, ?elem_of_nil; intros;
      destruct_or?; subst; tauto.
Qed.

Lemma no_collision_ok P l :
  (∀ x, P x → x ∈ l) → no_collision l = true → collision_free P.
Proof.
  intros HP Hn x y Hx%HP Hy%HP E. unfold no_collision in Hn.
  rewrite forallb_forall in Hn. specialize (Hn x). rewrite <- list_elem_of_In in Hn.
  specialize (Hn Hx). rewrite forallb_forall in Hn. specialize (Hn y).
  rewrite <- list_elem_of_In in Hn. specialize (Hn Hy).
  apply orb_true_iff in Hn as [Hn|Hn]; [by apply bool_decide_eq_true in Hn|].
  apply negb_true_iff, bool_decide_eq_false in Hn. done.
Qed.

Lemma no_collision_one c : no_collision (hashed_list c) = true → collision_free (hashed c).
Proof. apply no_collision_ok. intros x. apply hashed_list_spec. Qed.

Lemma no_collision_two c1 c2 :
  no_collision (hashed_list c1 ++ hashed_list c2) = true →
  collision_free (λ x, hashed c1 x ∨ hashed c2 x).
Proof.
  apply no_collision_ok. intros x [Hx|Hx]; apply elem_of_app; [left|right]; by apply hashed_list_spec.
Qed.
End check.
