(* ===== verification/CellSlice.v ===== *)
(** The reading cursor (core/src/cell/slice.rs and its submodules compare.rs,
    address.rs, either.rs): a window on a cell's bits and references, and the
    typed loads that move it. *)

From S2P Require Import Prelude Errors Bits CellData CellHash CellModel.
From stdpp Require Import base list list_numbers numbers strings.
From Stdlib Require Import ZArith Lia.

Local Open Scope Z_scope.

Record Slice : Type := MkSlice {
  s_cell : Cell;
  s_bit : Z;
  s_next_ref : Z;
  s_end_bit : Z;
  s_end_ref : Z;
}.

Definition sign_extend_128 (raw bits : Z) : Z :=
  if bits =? 0 then 0
  else
    let pad := saturating_sub 128 bits in
    Z.shiftr (swrap 128 (shl 128 raw pad)) pad.

Inductive MsgAddress : Type :=
| AddrNone
| AddrStd (workchain : Z) (account : list Z).

Inductive EitherRef : Type :=
| EInline
| ERef (cell : Cell).

Module Slice.
Definition bit_at (data : list Z) (index : Z) : bool :=
  match get data (index / 8) with
  | Some byte => Z.land (Z.shiftr byte (7 - index mod 8)) 1 =? 1
  | None => false
  end.

Definition new (cell : Cell) : Slice :=
  MkSlice cell 0 0 (Cell.bit_len cell) (len (Cell.refs cell)).

Definition remaining_bits (self : Slice) : Z := s_end_bit self - s_bit self.
Definition remaining_refs (self : Slice) : Z := s_end_ref self - s_next_ref self.
Definition is_empty (self : Slice) : bool :=
  (remaining_bits self =? 0) && (remaining_refs self =? 0).
Definition can_read (self : Slice) (bits refs : Z) : bool :=
  (bits <=? remaining_bits self) && (refs <=? remaining_refs self).

Definition set_bit (self : Slice) (bit : Z) : Slice :=
  MkSlice (s_cell self) bit (s_next_ref self) (s_end_bit self) (s_end_ref self).
Definition set_ref (self : Slice) (r : Z) : Slice :=
  MkSlice (s_cell self) (s_bit self) r (s_end_bit self) (s_end_ref self).

Definition advance (n : Z) : stm Slice CellError Z := λ self,
  let available := remaining_bits self in
  if available <? n then (Err (NotEnoughBits n available), self)
  else (Ok (s_bit self), set_bit self (s_bit self + n)).

Definition skip_bits (n : Z) : stm Slice CellError unit :=
  run! advance n; st_ret tt.

Definition load_bit : stm Slice CellError bool :=
  do! at' <- advance 1; λ self, (Ok (bit_at (Cell.data (s_cell self)) at'), self).

(** The accumulation loop of the unsigned loads, at the width of the target. *)
Definition gather (w : Z) (data : list Z) (start n : Z) : Z :=
  fold_left (λ value i, Z.lor (shl w value 1) (b2z (bit_at data (start + i)))) (seqZ 0 n) 0.

Definition load_uint (n : Z) : stm Slice CellError Z :=
  if 64 <? n then st_err (TooWide n 64)
  else
    do! start <- advance n;
    λ self, (Ok (gather 64 (Cell.data (s_cell self)) start n), self).

Definition load_u8 : stm Slice CellError Z :=
  do! v <- load_uint 8; st_ret (from_be_bytes (drop 7 (to_be_bytes 8 v))).
Definition load_u16 : stm Slice CellError Z :=
  do! v <- load_uint 16; st_ret (from_be_bytes (drop 6 (to_be_bytes 8 v))).
Definition load_u32 : stm Slice CellError Z :=
  do! v <- load_uint 32; st_ret (from_be_bytes (drop 4 (to_be_bytes 8 v))).
Definition load_i32 : stm Slice CellError Z :=
  do! v <- load_uint 32; st_ret (swrap 32 (from_be_bytes (drop 4 (to_be_bytes 8 v)))).

Definition load_uint128 (n : Z) : stm Slice CellError Z :=
  if 128 <? n then st_err (TooWide n 128)
  else
    do! start <- advance n;
    λ self, (Ok (gather 128 (Cell.data (s_cell self)) start n), self).

(** The length of a [VarUInteger], and its raw value and width; a failure
    puts the cursor back where it stood. *)
Definition read_var (max : Z) : stm Slice CellError (Z * Z) :=
  if max <? 2 then st_err (Malformed "variable integer needs a max above one")
  else
    let len_bits := 32 - leading_zeros 32 (max - 1) in
    do! self0 <- st_get;
    let start := s_bit self0 in
    do! len <- load_uint len_bits;
    match checked_mul U32_MAX len 8 with
    | None => λ self, (Err (TooWide len 128), set_bit self start)
    | Some value_bits => λ self,
        match load_uint128 value_bits self with
        | (Ok raw, self') => (Ok (raw, value_bits), self')
        | (Err err, self') => (Err err, set_bit self' start)
        end
    end.

Definition load_var_uint (max : Z) : stm Slice CellError Z :=
  do! rb <- read_var max; st_ret (fst rb).
Definition load_var_int (max : Z) : stm Slice CellError Z :=
  do! rb <- read_var max; st_ret (sign_extend_128 (fst rb) (snd rb)).

Definition load_bits (n : Z) : stm Slice CellError (list bool) :=
  do! start <- advance n;
  λ self, (Ok ((λ i, bit_at (Cell.data (s_cell self)) (start + i)) <$> seqZ 0 n), self).

(** The bytes pushed onto [into]; nothing is pushed on the error path. *)
Definition load_bytes_into (n : Z) (into : list Z) : stm Slice CellError (list Z) :=
  do! self0 <- st_get;
  do! requested <- st_lift (ok_or (checked_mul USIZE_MAX n 8)
                     (NotEnoughBits USIZE_MAX (remaining_bits self0)));
  do! start <- advance requested;
  λ self,
    let data := Cell.data (s_cell self) in
    (Ok (into ++ ((λ byte, fold_left (λ v i, Z.lor (shl 8 v 1) (b2z (bit_at data (start + byte * 8 + i))))
                             (seqZ 0 8) 0) <$> seqZ 0 n)), self).
Definition load_bytes (n : Z) : stm Slice CellError (list Z) := load_bytes_into n [].

Definition load_ref : stm Slice CellError Cell := λ self,
  if s_end_ref self <=? s_next_ref self then (Err NotEnoughRefs, self)
  else
    match get (Cell.refs (s_cell self)) (s_next_ref self) with
    | None => (Err NotEnoughRefs, self)
    | Some cell => (Ok cell, set_ref self (s_next_ref self + 1))
    end.

Definition load_maybe_ref : stm Slice CellError (option Cell) :=
  do! present <- load_bit;
  if present then do! cell <- load_ref; st_ret (Some cell) else st_ret None.

Definition load_int (n : Z) : stm Slice CellError Z :=
  if 64 <? n then st_err (TooWide n 64)
  else if n =? 0 then st_ret 0
  else
    do! raw <- load_uint n;
    st_ret (Z.shiftr (swrap 64 (shl 64 raw (64 - n))) (64 - n)).

Definition load_int128 (n : Z) : stm Slice CellError Z :=
  do! raw <- load_uint128 n; st_ret (sign_extend_128 raw n).

Definition load_coins : stm Slice CellError Z := load_var_uint 16.

Definition preload_uint (self : Slice) (n : Z) : result CellError Z := fst (load_uint n self).
Definition preload_bit (self : Slice) : result CellError bool := fst (load_bit self).
Definition peek_ref (self : Slice) : result CellError Cell :=
  if s_end_ref self <=? s_next_ref self then Err NotEnoughRefs
  else ok_or (get (Cell.refs (s_cell self)) (s_next_ref self)) NotEnoughRefs.

Definition skip_refs (n : Z) : stm Slice CellError unit := λ self,
  if remaining_refs self <? n then (Err NotEnoughRefs, self)
  else (Ok tt, set_ref self (s_next_ref self + n)).

Definition skip_bits_and_refs (bits refs : Z) : stm Slice CellError unit := λ self,
  if remaining_bits self <? bits then (Err (NotEnoughBits bits (remaining_bits self)), self)
  else if remaining_refs self <? refs then (Err NotEnoughRefs, self)
  else (Ok tt, set_ref (set_bit self (s_bit self + bits)) (s_next_ref self + refs)).

Definition subslice (self : Slice) (skip_bits bits skip_refs refs : Z) : result CellError Slice :=
  let? bit_span := ok_or (checked_add USIZE_MAX skip_bits bits)
                     (NotEnoughBits USIZE_MAX (remaining_bits self)) in
  if remaining_bits self <? bit_span then Err (NotEnoughBits bit_span (remaining_bits self))
  else
    let? ref_span := ok_or (checked_add USIZE_MAX skip_refs refs) NotEnoughRefs in
    if remaining_refs self <? ref_span then Err NotEnoughRefs
    else Ok (MkSlice (s_cell self) (s_bit self + skip_bits) (s_next_ref self + skip_refs)
               (s_bit self + skip_bits + bits) (s_next_ref self + skip_refs + refs)).

Definition load_slice (bits refs : Z) : stm Slice CellError Slice := λ self,
  match subslice self 0 bits 0 refs with
  | Err e => (Err e, self)
  | Ok window => (Ok window, set_ref (set_bit self (s_bit self + bits)) (s_next_ref self + refs))
  end.

(** *** compare.rs *)

(** Each round that reads on spends a bit, so [remaining + 1] rounds suffice. *)
Fixpoint compare_loop (fuel : nat) (here there : Slice) : comparison :=
  match fuel with
  | O => Eq
  | S fuel' =>
      match load_bit here, load_bit there with
      | (Ok this, here'), (Ok that, there') =>
          if Bool.eqb this that then compare_loop fuel' here' there'
          else if this then Gt else Lt
      | (Ok _, _), (Err _, _) => Gt
      | (Err _, _), (Ok _, _) => Lt
      | (Err _, _), (Err _, _) => Eq
      end
  end.
Definition compare_bits (self other : Slice) : comparison :=
  compare_loop (Z.to_nat (remaining_bits self) + 1) self other.
Definition bits_equal (self other : Slice) : bool :=
  match compare_bits self other with Eq => true | _ => false end.

Fixpoint leading_loop (fuel : nat) (bit : bool) (probe : Slice) : Z :=
  match fuel with
  | O => 0
  | S fuel' =>
      match load_bit probe with
      | (Ok seen, probe') => if Bool.eqb seen bit then 1 + leading_loop fuel' bit probe' else 0
      | (Err _, _) => 0
      end
  end.
Definition count_leading (self : Slice) (bit : bool) : Z :=
  leading_loop (Z.to_nat (remaining_bits self) + 1) bit self.

Fixpoint trailing_loop (fuel : nat) (self : Slice) (bit : bool) (run : Z) : Z :=
  match fuel with
  | O => run
  | S fuel' =>
      if (run <? remaining_bits self) &&
         Bool.eqb (bit_at (Cell.data (s_cell self)) (s_bit self + remaining_bits self - 1 - run)) bit
      then trailing_loop fuel' self bit (run + 1) else run
  end.
Definition count_trailing (self : Slice) (bit : bool) : Z :=
  trailing_loop (Z.to_nat (remaining_bits self) + 1) self bit 0.

(** *** address.rs *)

Definition load_address : stm Slice CellError MsgAddress :=
  do! kind <- load_uint 2;
  if kind =? 0 then st_ret AddrNone
  else if kind =? 2 then
    do! anycast <- load_bit;
    if anycast then st_err (Malformed "anycast address is not supported")
    else
      do! workchain <- load_int 8;
      do! account <- load_bytes 32;
      if len account =? 32 then st_ret (AddrStd (swrap 8 workchain) account)
      else st_err (Malformed "address is not thirty-two bytes")
  else st_err (Malformed "external and variable addresses are not supported").

(** *** either.rs *)

Definition load_either_ref : stm Slice CellError EitherRef :=
  do! in_ref <- load_bit;
  if in_ref then do! cell <- load_ref; st_ret (ERef cell) else st_ret EInline.

Definition load_maybe_either_ref : stm Slice CellError (option EitherRef) :=
  do! present <- load_bit;
  if present then do! e <- load_either_ref; st_ret (Some e) else st_ret None.
End Slice.

(** ** The window a cursor reads *)

(** A cursor stays inside the cell it reads. *)
Record slice_wf (s : Slice) : Prop := {
  sw_bit : 0 <= s_bit s <= s_end_bit s;
  sw_end_bit : s_end_bit s <= Cell.bit_len (s_cell s);
  sw_ref : 0 <= s_next_ref s <= s_end_ref s;
  sw_end_ref : s_end_ref s <= len (Cell.refs (s_cell s));
}.

(** The bits and references still ahead of it. *)
Definition slice_bits (s : Slice) : list bool :=
  data_bit (Cell.data (s_cell s)) <$> seqZ (s_bit s) (Slice.remaining_bits s).
Definition slice_refs (s : Slice) : list Cell :=
  take (Z.to_nat (Slice.remaining_refs s)) (drop (Z.to_nat (s_next_ref s)) (Cell.refs (s_cell s))).

(** The cursor after [n] bits. *)
Definition step_bits (n : Z) (s : Slice) : Slice := Slice.set_bit s (s_bit s + n).
Definition step_refs (n : Z) (s : Slice) : Slice := Slice.set_ref s (s_next_ref s + n).

Lemma bit_at_data_bit data i : Slice.bit_at data i = data_bit data i.
Proof. done. Qed.

Lemma len_slice_bits s : slice_wf s → len (slice_bits s) = Slice.remaining_bits s.
Proof.
  intros [? _ _ _]. unfold slice_bits. rewrite len_fmap. apply len_seqZ.
  unfold Slice.remaining_bits. lia.
Qed.

Lemma len_slice_refs s : slice_wf s → len (slice_refs s) = Slice.remaining_refs s.
Proof.
  intros [_ _ ? ?]. unfold slice_refs, len, Slice.remaining_refs in *.
  rewrite length_take, length_drop. unfold len in *. lia.
Qed.

Lemma seqZ_take m n k : 0 <= k <= n → take (Z.to_nat k) (seqZ m n) = seqZ m k.
Proof.
  intros Hk. replace n with (k + (n - k)) by lia. rewrite seqZ_app by lia.
  apply take_app_length'. rewrite length_seqZ. done.
Qed.

Lemma seqZ_drop m n k : 0 <= k <= n → drop (Z.to_nat k) (seqZ m n) = seqZ (m + k) (n - k).
Proof.
  intros Hk. replace n with (k + (n - k)) at 1 by lia. rewrite seqZ_app by lia.
  apply drop_app_length'. by rewrite length_seqZ.
Qed.

Lemma step_bits_wf n s :
  slice_wf s → 0 <= n <= Slice.remaining_bits s → slice_wf (step_bits n s).
Proof. intros [] ?. unfold Slice.remaining_bits in *. split; simpl; try done; lia. Qed.

Lemma step_bits_bits n s :
  slice_wf s → 0 <= n <= Slice.remaining_bits s →
  slice_bits (step_bits n s) = drop (Z.to_nat n) (slice_bits s).
Proof.
  intros Hwf Hn. unfold slice_bits. rewrite <- fmap_drop, seqZ_drop by done.
  unfold step_bits, Slice.set_bit, Slice.remaining_bits in *. simpl. do 2 f_equal. lia.
Qed.

Lemma step_bits_refs n s : slice_refs (step_bits n s) = slice_refs s.
Proof. done. Qed.

Lemma step_refs_bits n s : slice_bits (step_refs n s) = slice_bits s.
Proof. done. Qed.

Lemma step_refs_wf n s :
  slice_wf s → 0 <= n <= Slice.remaining_refs s → slice_wf (step_refs n s).
Proof. intros [] ?. unfold Slice.remaining_refs in *. split; simpl; try done; lia. Qed.

Lemma step_bits_step n m s : step_bits n (step_bits m s) = step_bits (m + n) s.
Proof. unfold step_bits, Slice.set_bit. simpl. f_equal. lia. Qed.

Lemma new_wf c : 0 <= Cell.bit_len c → slice_wf (Slice.new c).
Proof. intros. pose proof (len_nonneg (Cell.refs c)). split; simpl; lia. Qed.

Lemma new_bits c : slice_bits (Slice.new c) = Cell.bits c.
Proof. unfold slice_bits, Cell.bits, bits_of, Slice.remaining_bits. simpl. by rewrite Z.sub_0_r. Qed.

Lemma new_refs c : slice_refs (Slice.new c) = Cell.refs c.
Proof.
  unfold slice_refs, Slice.remaining_refs. simpl. rewrite drop_0, take_ge; [done|].
  unfold len. lia.
Qed.

(** ** The loads *)

Lemma advance_ok n s :
  n <= Slice.remaining_bits s → Slice.advance n s = (Ok (s_bit s), step_bits n s).
Proof.
  intros. unfold Slice.advance. destruct (Z.ltb_spec (Slice.remaining_bits s) n); [lia|done].
Qed.

Lemma advance_err n s :
  Slice.remaining_bits s < n →
  Slice.advance n s = (Err (NotEnoughBits n (Slice.remaining_bits s)), s).
Proof.
  intros. unfold Slice.advance. destruct (Z.ltb_spec (Slice.remaining_bits s) n); [done|lia].
Qed.

(** Bits read by position from the cursor are the bits ahead of it. *)
Lemma read_window s n :
  slice_wf s → 0 <= n <= Slice.remaining_bits s →
  (λ i, Slice.bit_at (Cell.data (s_cell s)) (s_bit s + i)) <$> seqZ 0 n =
  take (Z.to_nat n) (slice_bits s).
Proof.
  intros Hwf Hn. unfold slice_bits. rewrite <- fmap_take, seqZ_take by done.
  replace (seqZ (s_bit s) n) with (Z.add (s_bit s) <$> seqZ 0 n)
    by (rewrite fmap_add_seqZ; f_equal; lia).
  rewrite <- list_fmap_compose.
  apply list_fmap_ext. intros k i _. done.
Qed.

Lemma gather_acc w (f : Z → bool) l v k :
  0 <= k → 0 <= v < 2 ^ k → k + len l <= w →
  fold_left (λ value i, Z.lor (shl w value 1) (b2z (f i))) l v =
  fold_left (λ v b, 2 * v + b2z b) (f <$> l) v.
Proof.
  revert v k. induction l as [|x l IH]; intros v k Hk Hv Hw; [done|]. simpl.
  assert (len (x :: l) = 1 + len l) as Hlen by (unfold len; simpl; lia).
  assert (2 ^ (k + 1) = 2 * 2 ^ k) as Hp by (rewrite Z.pow_add_r; lia).
  assert (Z.lor (shl w v 1) (b2z (f x)) = 2 * v + b2z (f x)) as ->.
  { unfold shl, wrap. rewrite Z.shiftl_mul_pow2 by lia.
    rewrite Z.mod_small.
    2:{ pose proof (len_nonneg l). assert (2 ^ (k + 1) <= 2 ^ w) by (apply Z.pow_le_mono_r; lia). lia. }
    change (2 ^ 1) with 2. rewrite Z.mul_comm. destruct (f x); simpl b2z.
    - destruct v; try done; lia.
    - by rewrite Z.lor_0_r, Z.add_0_r. }
  apply (IH _ (k + 1)); [lia| |lia]. destruct (f x); simpl b2z; lia.
Qed.

Lemma gather_bits w s n :
  slice_wf s → 0 <= n <= Slice.remaining_bits s → n <= w →
  Slice.gather w (Cell.data (s_cell s)) (s_bit s) n = bits_uint (take (Z.to_nat n) (slice_bits s)).
Proof.
  intros Hwf Hn Hw. unfold Slice.gather.
  rewrite (gather_acc w (λ i, Slice.bit_at (Cell.data (s_cell s)) (s_bit s + i)) _ _ 0);
    [by rewrite read_window|lia|done|rewrite len_seqZ; lia].
Qed.

(** The cursor has a given run of bits ahead of it. *)
Definition ahead (s : Slice) (bs : list bool) : Prop :=
  slice_wf s ∧ ∃ rest, slice_bits s = bs ++ rest.

Lemma ahead_remaining s bs : ahead s bs → 0 <= len bs <= Slice.remaining_bits s.
Proof.
  intros [Hwf [rest E]]. rewrite <- (len_slice_bits s Hwf), E, len_app.
  pose proof (len_nonneg bs). pose proof (len_nonneg rest). lia.
Qed.

Lemma ahead_take s bs : ahead s bs → take (Z.to_nat (len bs)) (slice_bits s) = bs.
Proof. intros [_ [rest ->]]. apply take_app_length'. unfold len. lia. Qed.

Lemma ahead_app s b1 b2 :
  ahead s (b1 ++ b2) → ahead s b1 ∧ ahead (step_bits (len b1) s) b2.
Proof.
  intros [Hwf [rest E]]. rewrite <- app_assoc in E.
  assert (ahead s b1) as Ha by (split; eauto).
  pose proof (ahead_remaining s b1 Ha). split; [done|]. split; [by apply step_bits_wf|].
  exists rest. rewrite step_bits_bits, E by done. apply drop_app_length'. unfold len. lia.
Qed.

Lemma load_bit_ok s b : ahead s [b] → Slice.load_bit s = (Ok b, step_bits 1 s).
Proof.
  intros Ha. pose proof (ahead_remaining _ _ Ha) as Hr. change (len [b]) with 1 in Hr.
  unfold Slice.load_bit. erewrite st_bind_ok by (apply advance_ok; lia).
  f_equal. f_equal. apply ahead_take in Ha as Et. destruct Ha as [Hwf _].
  rewrite <- read_window in Et by (done || (change (len [b]) with 1; lia)).
  injection Et as Et. by rewrite Z.add_0_r in Et.
Qed.

Lemma load_uint_ok s bs :
  ahead s bs → len bs <= 64 →
  Slice.load_uint (len bs) s = (Ok (bits_uint bs), step_bits (len bs) s).
Proof.
  intros Ha Hn. pose proof (ahead_remaining _ _ Ha) as Hr. unfold Slice.load_uint.
  destruct (Z.ltb_spec 64 (len bs)); [lia|].
  erewrite st_bind_ok by (apply advance_ok; lia). f_equal. f_equal. simpl.
  rewrite gather_bits by (done || by destruct Ha). by rewrite ahead_take.
Qed.

Lemma load_uint128_ok s bs :
  ahead s bs → len bs <= 128 →
  Slice.load_uint128 (len bs) s = (Ok (bits_uint bs), step_bits (len bs) s).
Proof.
  intros Ha Hn. pose proof (ahead_remaining _ _ Ha) as Hr. unfold Slice.load_uint128.
  destruct (Z.ltb_spec 128 (len bs)); [lia|].
  erewrite st_bind_ok by (apply advance_ok; lia). f_equal. f_equal. simpl.
  rewrite gather_bits by (done || by destruct Ha). by rewrite ahead_take.
Qed.

Lemma load_bits_ok s bs :
  ahead s bs → Slice.load_bits (len bs) s = (Ok bs, step_bits (len bs) s).
Proof.
  intros Ha. pose proof (ahead_remaining _ _ Ha) as Hr. unfold Slice.load_bits.
  erewrite st_bind_ok by (apply advance_ok; lia). f_equal. f_equal. simpl.
  rewrite read_window by (done || by destruct Ha). by apply ahead_take.
Qed.

Lemma load_uint_value s n v :
  0 <= n <= 64 → 0 <= v < 2 ^ n → ahead s (uint_bits (Z.to_nat n) v) →
  Slice.load_uint n s = (Ok v, step_bits n s).
Proof.
  intros Hn Hv Ha. pose proof (len_uint_bits (Z.to_nat n) v) as Hl. rewrite Z2Nat.id in Hl by lia.
  pose proof (load_uint_ok s _ Ha) as E. rewrite Hl in E. rewrite E by lia.
  rewrite uint_bits_id; [done|]. by rewrite Z2Nat.id by lia.
Qed.

Lemma load_uint128_value s n v :
  0 <= n <= 128 → 0 <= v < 2 ^ n → ahead s (uint_bits (Z.to_nat n) v) →
  Slice.load_uint128 n s = (Ok v, step_bits n s).
Proof.
  intros Hn Hv Ha. pose proof (len_uint_bits (Z.to_nat n) v) as Hl. rewrite Z2Nat.id in Hl by lia.
  pose proof (load_uint128_ok s _ Ha) as E. rewrite Hl in E. rewrite E by lia.
  rewrite uint_bits_id; [done|]. by rewrite Z2Nat.id by lia.
Qed.

Lemma step_bits_0 s : step_bits 0 s = s.
Proof. unfold step_bits, Slice.set_bit. rewrite Z.add_0_r. by destruct s. Qed.

Lemma load_int_value s n v :
  0 < n <= 64 → - 2 ^ (n - 1) <= v < 2 ^ (n - 1) → ahead s (uint_bits (Z.to_nat n) v) →
  Slice.load_int n s = (Ok v, step_bits n s).
Proof.
  intros Hn Hv Ha. unfold Slice.load_int.
  destruct (Z.ltb_spec 64 n); [lia|]. destruct (Z.eqb_spec n 0); [lia|].
  rewrite <- (uint_bits_mod _ _ n) in Ha by lia.
  erewrite st_bind_ok.
  2:{ eapply load_uint_value; [lia| |exact Ha]. apply Z.mod_pos_bound, Z.pow_pos_nonneg; lia. }
  unfold st_ret. by rewrite sign_extend.
Qed.

Lemma sign_extend_128_value n v :
  0 < n <= 128 → - 2 ^ (n - 1) <= v < 2 ^ (n - 1) → sign_extend_128 (v mod 2 ^ n) n = v.
Proof.
  intros Hn Hv. unfold sign_extend_128, saturating_sub. destruct (Z.eqb_spec n 0); [lia|].
  rewrite Z.max_r by lia. by apply sign_extend.
Qed.

Lemma load_int128_value s n v :
  0 < n <= 128 → - 2 ^ (n - 1) <= v < 2 ^ (n - 1) → ahead s (uint_bits (Z.to_nat n) v) →
  Slice.load_int128 n s = (Ok v, step_bits n s).
Proof.
  intros Hn Hv Ha. unfold Slice.load_int128.
  rewrite <- (uint_bits_mod _ _ n) in Ha by lia.
  erewrite st_bind_ok.
  2:{ eapply load_uint128_value; [lia| |exact Ha]. apply Z.mod_pos_bound, Z.pow_pos_nonneg; lia. }
  unfold st_ret. by rewrite sign_extend_128_value.
Qed.

(** The fixed-width loads keep the low bytes of what [load_uint] read. *)
Lemma low_bytes v : from_be_bytes (drop 7 (to_be_bytes 8 v)) = v mod 2 ^ 8 ∧
  from_be_bytes (drop 6 (to_be_bytes 8 v)) = v mod 2 ^ 16 ∧
  from_be_bytes (drop 4 (to_be_bytes 8 v)) = v mod 2 ^ 32.
Proof.
  unfold from_be_bytes. cbn [to_be_bytes app drop fold_left].
  change (2 ^ 8) with 256. change (2 ^ 16) with 65536. change (2 ^ 32) with 4294967296.
  repeat split; zdiv.
Qed.

Lemma load_u8_value s v :
  0 <= v < 2 ^ 8 → ahead s (uint_bits 8 v) → Slice.load_u8 s = (Ok v, step_bits 8 s).
Proof.
  intros Hv Ha. unfold Slice.load_u8.
  erewrite st_bind_ok by (apply (load_uint_value s 8 v); [lia|done|exact Ha]).
  unfold st_ret. by rewrite (proj1 (low_bytes v)), Z.mod_small.
Qed.

Lemma load_u16_value s v :
  0 <= v < 2 ^ 16 → ahead s (uint_bits 16 v) → Slice.load_u16 s = (Ok v, step_bits 16 s).
Proof.
  intros Hv Ha. unfold Slice.load_u16.
  erewrite st_bind_ok by (apply (load_uint_value s 16 v); [lia|done|exact Ha]).
  unfold st_ret. by rewrite (proj1 (proj2 (low_bytes v))), Z.mod_small.
Qed.

Lemma load_u32_value s v :
  0 <= v < 2 ^ 32 → ahead s (uint_bits 32 v) → Slice.load_u32 s = (Ok v, step_bits 32 s).
Proof.
  intros Hv Ha. unfold Slice.load_u32.
  erewrite st_bind_ok by (apply (load_uint_value s 32 v); [lia|done|exact Ha]).
  unfold st_ret. by rewrite (proj2 (proj2 (low_bytes v))), Z.mod_small.
Qed.

Lemma load_i32_value s v :
  - 2 ^ 31 <= v < 2 ^ 31 → ahead s (uint_bits 32 v) → Slice.load_i32 s = (Ok v, step_bits 32 s).
Proof.
  intros Hv Ha. unfold Slice.load_i32. rewrite <- (uint_bits_mod _ _ 32) in Ha by lia.
  erewrite st_bind_ok.
  2:{ apply (load_uint_value s 32 (v mod 2 ^ 32)); [lia| |exact Ha].
      by apply Z.mod_pos_bound. }
  unfold st_ret. rewrite (proj2 (proj2 (low_bytes _))), Z.mod_mod by done.
  rewrite swrap_mod, swrap_small by (done || lia). done.
Qed.

Lemma load_bytes_into_ok s l into :
  ahead s (bytes_bits l) → Forall is_byte l → len l * 8 <= USIZE_MAX →
  Slice.load_bytes_into (len l) into s = (Ok (into ++ l), step_bits (8 * len l) s).
Proof.
  intros Ha Hb Hl. pose proof (ahead_remaining _ _ Ha) as Hr. rewrite len_bytes_bits in Hr.
  pose proof (len_nonneg l) as Hn. unfold Slice.load_bytes_into, checked_mul, checked.
  erewrite st_bind_ok by done. rewrite (proj2 (Z.leb_le _ _)) by done.
  erewrite st_bind_ok by done. erewrite st_bind_ok by (apply advance_ok; lia).
  rewrite (Z.mul_comm 8). f_equal. f_equal. f_equal. simpl.
  apply list_get_ext; rewrite len_fmap, len_seqZ by done; [done|]. intros j Hj.
  rewrite get_fmap, get_seqZ by done. simpl. destruct (get_lt_Some l j Hj) as [b Hlb].
  rewrite Hlb. f_equal.
  assert (ahead (step_bits (8 * j) s) (uint_bits 8 b)) as Hab.
  { unfold get in Hlb. destruct (j <? 0); [done|].
    rewrite <- (take_drop_middle _ _ _ Hlb) in Ha.
    rewrite bytes_bits_app, bytes_bits_cons in Ha. apply ahead_app in Ha as [_ Ha].
    rewrite len_bytes_bits in Ha.
    replace (len (take (Z.to_nat j) l)) with j in Ha by (unfold len in *; rewrite length_take; lia).
    by apply ahead_app in Ha as [Ha _]. }
  transitivity (Slice.gather 8 (Cell.data (s_cell (step_bits (8 * j) s)))
    (s_bit (step_bits (8 * j) s)) 8).
  { unfold Slice.gather. simpl. rewrite (Z.mul_comm j). done. }
  pose proof (ahead_remaining _ _ Hab) as Hr'. rewrite len_uint_bits in Hr'.
  rewrite gather_bits by (try lia; by destruct Hab).
  apply ahead_take in Hab. rewrite len_uint_bits in Hab.
  change (Z.to_nat (Z.of_nat 8)) with (Z.to_nat 8) in Hab. rewrite Hab.
  apply uint_bits_id. unfold get in Hlb. destruct (j <? 0); [done|].
  by eapply (Forall_lookup_1 is_byte).
Qed.

(** *** Variable-width integers: a length, then that many bytes *)

Lemma read_var_ok s max bytes v :
  2 <= max < 2 ^ 32 → 0 <= bytes <= 16 → bytes < 2 ^ (32 - leading_zeros 32 (max - 1)) →
  0 <= v < 2 ^ (bytes * 8) → 1 <= 32 - leading_zeros 32 (max - 1) <= 32 →
  ahead s (uint_bits (Z.to_nat (32 - leading_zeros 32 (max - 1))) bytes ++
           uint_bits (Z.to_nat (bytes * 8)) v) →
  Slice.read_var max s =
    (Ok (v, bytes * 8), step_bits (32 - leading_zeros 32 (max - 1) + bytes * 8) s).
Proof.
  intros Hm Hb Hbl Hv Hlb Ha. unfold Slice.read_var.
  destruct (Z.ltb_spec max 2); [lia|]. cbv zeta.
  apply ahead_app in Ha as [Ha1 Ha2]. rewrite len_uint_bits, Z2Nat.id in Ha2 by lia.
  erewrite st_bind_ok by done.
  erewrite st_bind_ok by (apply (load_uint_value s _ bytes); [lia|lia|exact Ha1]).
  unfold checked_mul, checked. rewrite (proj2 (Z.leb_le _ _)) by (unfold U32_MAX; lia).
  rewrite (load_uint128_value _ (bytes * 8) v) by (done || lia).
  by rewrite step_bits_step.
Qed.

(** A failed variable load leaves the cursor where it stood. *)
Lemma read_var_err s max e s' : Slice.read_var max s = (Err e, s') → s' = s.
Proof.
  unfold Slice.read_var. destruct (Z.ltb_spec max 2); [by intros [= _ <-]|]. cbv zeta.
  erewrite st_bind_ok by done.
  set (n := 32 - _). unfold st_bind.
  destruct (Slice.load_uint n s) as [[len|e'] s1] eqn:E1.
  2:{ intros [= _ <-]. revert E1. unfold Slice.load_uint. destruct (64 <? n); [by intros [= _ <-]|].
      unfold st_bind, Slice.advance. case_if; by intros [= ]. }
  assert (s1 = step_bits n s) as ->.
  { revert E1. unfold Slice.load_uint. destruct (64 <? n); [done|].
    unfold st_bind, Slice.advance. case_if; by intros [= _ <-]. }
  assert (∀ k, Slice.set_bit (step_bits k s) (s_bit s) = s) as Hback by (intros; by destruct s).
  destruct (checked_mul U32_MAX len 8) as [vb|]; [|intros [= _ <-]; apply Hback].
  destruct (Slice.load_uint128 vb (step_bits n s)) as [[raw|e'] s2] eqn:E2; [done|].
  intros [= _ <-].
  assert (s2 = step_bits n s) as ->; [|apply Hback].
  revert E2. unfold Slice.load_uint128. destruct (128 <? vb); [by intros [= _ <-]|].
  unfold st_bind, Slice.advance. case_if; by intros [= ].
Qed.

(** ** What a load that succeeded has read *)

Lemma ahead_join s b1 b2 :
  ahead s b1 → ahead (step_bits (len b1) s) b2 → ahead s (b1 ++ b2).
Proof.
  intros Ha [_ [rest E]]. pose proof (ahead_remaining _ _ Ha) as Hr. pose proof (len_nonneg b1).
  destruct Ha as [Hwf [rest1 E1]]. split; [done|].
  rewrite step_bits_bits, E1 in E by (done || lia).
  rewrite drop_app_length' in E by (unfold len; lia). exists rest. by rewrite E1, E, app_assoc.
Qed.

Lemma ahead_of_remaining s n :
  slice_wf s → 0 <= n <= Slice.remaining_bits s →
  ∃ bs, ahead s bs ∧ len bs = n.
Proof.
  intros Hwf Hn. pose proof (len_slice_bits s Hwf) as Hl.
  exists (take (Z.to_nat n) (slice_bits s)). split.
  - split; [done|]. exists (drop (Z.to_nat n) (slice_bits s)). by rewrite take_drop.
  - unfold len in *. rewrite length_take. lia.
Qed.

Lemma advance_inv n s a s' :
  Slice.advance n s = (Ok a, s') → n <= Slice.remaining_bits s ∧ s' = step_bits n s.
Proof.
  unfold Slice.advance. destruct (Z.ltb_spec (Slice.remaining_bits s) n); [done|].
  by intros [= _ <-].
Qed.

Lemma load_bit_inv s b s' :
  slice_wf s → Slice.load_bit s = (Ok b, s') → ahead s [b] ∧ s' = step_bits 1 s.
Proof.
  intros Hwf E. pose proof E as E'. unfold Slice.load_bit in E'.
  apply st_bind_inv in E' as (a & s1 & [Hr _]%advance_inv & _).
  destruct (ahead_of_remaining s 1 Hwf ltac:(lia)) as ([|x [|]] & Ha & Hl); try done.
  rewrite (load_bit_ok s x Ha) in E. injection E as <- <-. done.
  rewrite !len_cons in Hl. pose proof (len_nonneg l). lia.
Qed.

Lemma load_uint_inv n s v s' :
  slice_wf s → 0 <= n → Slice.load_uint n s = (Ok v, s') →
  ∃ bs, ahead s bs ∧ len bs = n ∧ v = bits_uint bs ∧ s' = step_bits n s.
Proof.
  intros Hwf Hn E. pose proof E as E'. unfold Slice.load_uint in E'.
  destruct (Z.ltb_spec 64 n); [done|].
  apply st_bind_inv in E' as (a & s1 & [Hr _]%advance_inv & _).
  destruct (ahead_of_remaining s n Hwf ltac:(lia)) as (bs & Ha & <-).
  rewrite load_uint_ok in E by (done || lia). injection E as <- <-. by exists bs.
Qed.
