(* ===== verification/CellBuilder.v ===== *)
(** Writing cells (core/src/cell/builder.rs and its submodules address.rs,
    either.rs, snake.rs), the snake reader (core/src/cell/slice/snake.rs) and
    the two copies out of a cursor ([Slice::to_builder], [Slice::to_cell]).

    A builder is proved to hold the packing of the bits stored so far; each
    store is characterised on every branch as an append of an encoding, or as
    an error that leaves the builder as it was. *)

From S2P Require Import Prelude Errors Bits CellData CellHash CellModel CellSlice.
From stdpp Require Import base list list_numbers numbers strings.
From Stdlib Require Import ZArith Lia.

Local Open Scope Z_scope.

Record Builder : Type := MkBuilder {
  b_data : list Z;
  b_bits : Z;
  b_refs : Refs Cell;
}.

(** The fewest bytes a two's complement reading of [value] takes. *)
Definition signed_byte_len (value : Z) : Z :=
  if value =? 0 then 0
  else
    let magnitude_bits :=
      if value <? 0 then 128 - leading_zeros 128 (Z.lnot value)
      else 128 - leading_zeros 128 value in
    div_ceil (magnitude_bits + 1) 8.

Module Builder.
Definition new : Builder := MkBuilder [] 0 RNone.

Definition bits_used (self : Builder) : Z := b_bits self.
Definition bits_left (self : Builder) : Z := MAX_BITS - b_bits self.
Definition refs_used (self : Builder) : Z := len (refs_slice (b_refs self)).
Definition refs_left (self : Builder) : Z := MAX_REFS - len (refs_slice (b_refs self)).
Definition can_extend_by (self : Builder) (bits refs : Z) : bool :=
  (bits <=? bits_left self) && (refs <=? refs_left self).

Definition room_for (bits : Z) : stm Builder CellError unit := λ self,
  if bits_left self <? bits then (Err (NoRoomForBits bits (bits_left self)), self)
  else (Ok tt, self).

Definition store_bit (bit : bool) : stm Builder CellError unit :=
  run! room_for 1;
  λ self,
    let data := if b_bits self mod 8 =? 0 then b_data self ++ [0] else b_data self in
    let data :=
      if bit then update_last (λ byte, Z.lor byte (Z.shiftl 1 (7 - b_bits self mod 8))) data
      else data in
    (Ok tt, MkBuilder data (b_bits self + 1) (b_refs self)).

(** [for offset in (0..bits).rev() { self.store_bit((value >> offset) & 1 == 1)? }] *)
Definition store_offsets (value bits : Z) : stm Builder CellError unit :=
  st_for (reverse (seqZ 0 bits)) (λ offset, store_bit (Z.land (Z.shiftr value offset) 1 =? 1)).

Definition store_uint (value bits : Z) : stm Builder CellError unit :=
  if 64 <? bits then st_err (TooWide bits 64)
  else if (bits <? 64) && (2 ^ bits <=? value)
  then st_err (Malformed "value does not fit the requested bits")
  else
    run! room_for (wrap 16 bits);
    store_offsets value bits.

(** The range check the signed stores share, at the width of the value's type. *)
Definition fits_signed (width value bits : Z) : bool :=
  if bits =? 0 then value =? 0
  else if bits <? width then (- 2 ^ (bits - 1) <=? value) && (value <? 2 ^ (bits - 1))
  else true.

Definition store_int (value bits : Z) : stm Builder CellError unit :=
  if 64 <? bits then st_err (TooWide bits 64)
  else if negb (fits_signed 64 value bits)
  then st_err (Malformed "value does not fit the requested bits")
  else
    let unsigned := wrap 64 value in
    run! room_for (wrap 16 bits);
    store_offsets unsigned bits.

Definition store_u8 (value : Z) : stm Builder CellError unit := store_uint value 8.
Definition store_u16 (value : Z) : stm Builder CellError unit := store_uint value 16.
Definition store_u32 (value : Z) : stm Builder CellError unit := store_uint value 32.
Definition store_i32 (value : Z) : stm Builder CellError unit := store_int value 32.

Definition store_uint128 (value bits : Z) : stm Builder CellError unit :=
  if 128 <? bits then st_err (TooWide bits 128)
  else if (bits <? 128) && (2 ^ bits <=? value)
  then st_err (Malformed "value does not fit the requested bits")
  else
    run! room_for (wrap 16 bits);
    store_offsets value bits.

Definition store_int128 (value bits : Z) : stm Builder CellError unit :=
  if 128 <? bits then st_err (TooWide bits 128)
  else if negb (fits_signed 128 value bits)
  then st_err (Malformed "value does not fit the requested bits")
  else
    let unsigned := wrap 128 value in
    run! room_for (wrap 16 bits);
    store_offsets unsigned bits.

Definition store_var_uint (value max : Z) : stm Builder CellError unit :=
  if max <? 2 then st_err (Malformed "variable integer needs a max above one")
  else
    let len_bits := 32 - leading_zeros 32 (max - 1) in
    let bytes := if value =? 0 then 0 else div_ceil (128 - leading_zeros 128 value) 8 in
    if max <=? bytes then st_err (Malformed "value is too wide for this VarUInteger")
    else
      run! room_for (wrap 16 (len_bits + bytes * 8));
      run! store_uint bytes len_bits;
      store_uint128 value (bytes * 8).

Definition store_var_int (value max : Z) : stm Builder CellError unit :=
  if max <? 2 then st_err (Malformed "variable integer needs a max above one")
  else
    let len_bits := 32 - leading_zeros 32 (max - 1) in
    let bytes := signed_byte_len value in
    if max <=? bytes then st_err (Malformed "value is too wide for this VarInteger")
    else
      run! room_for (wrap 16 (len_bits + bytes * 8));
      run! store_uint bytes len_bits;
      store_int128 value (bytes * 8).

Definition store_coins (nanotons : Z) : stm Builder CellError unit := store_var_uint nanotons 16.

Definition store_same_bit (bit : bool) (count : Z) : stm Builder CellError unit :=
  run! room_for count;
  st_for (seqZ 0 count) (λ _, store_bit bit).

Definition store_bits (bits : list bool) : stm Builder CellError unit :=
  let count := default U16_MAX (checked U16_MAX (len bits)) in
  run! room_for count;
  st_for bits store_bit.

Definition truncate_bits (bits : Z) : stm Builder CellError unit := λ self,
  if b_bits self <? bits then (Err (NotEnoughBits bits (b_bits self)), self)
  else
    let data := take (Z.to_nat (div_ceil bits 8)) (b_data self) in
    let data :=
      if bits mod 8 =? 0 then data
      else update_last (λ last, Z.land last (shl 8 255 (8 - bits mod 8))) data in
    (Ok tt, MkBuilder data bits (b_refs self)).

Definition truncate_refs (refs : Z) : stm Builder CellError unit := λ self,
  if len (refs_slice (b_refs self)) <? refs then (Err NotEnoughRefs, self)
  else (Ok tt, MkBuilder (b_data self) (b_bits self) (refs_truncate (b_refs self) refs)).

Definition store_bytes (bytes : list Z) : stm Builder CellError unit :=
  do! self <- st_get;
  let size := saturating_mul USIZE_MAX (len bytes) 8 in
  do! bits <- st_lift (ok_or (checked U16_MAX size) (NoRoomForBits size (bits_left self)));
  run! room_for bits;
  st_for bytes (λ byte, store_uint byte 8).

Definition store_ref (cell : Cell) : stm Builder CellError unit := λ self,
  if MAX_REFS <=? len (refs_slice (b_refs self)) then (Err (NoRoomForRefs MAX_REFS), self)
  else
    let '(r, refs) := push cell (b_refs self) in
    (r, MkBuilder (b_data self) (b_bits self) refs).

Definition store_maybe_ref (cell : option Cell) : stm Builder CellError unit :=
  match cell with
  | Some cell => λ self,
      if MAX_REFS <=? len (refs_slice (b_refs self)) then (Err (NoRoomForRefs MAX_REFS), self)
      else (run! room_for 1; run! store_bit true; store_ref cell) self
  | None => store_bit false
  end.

(** The two loops of [store_slice]: a round spends a bit, or a reference, of
    the source cursor, so as many rounds as it has of them suffice. *)
Fixpoint copy_bits (fuel : nat) (slice : Slice) : stm Builder CellError Slice :=
  if 0 <? Slice.remaining_bits slice then
    match fuel with
    | O => st_ret slice
    | S fuel' =>
        match Slice.load_bit slice with
        | (Err e, _) => st_err e
        | (Ok bit, slice') => run! store_bit bit; copy_bits fuel' slice'
        end
    end
  else st_ret slice.

Fixpoint copy_refs (fuel : nat) (slice : Slice) : stm Builder CellError Slice :=
  if 0 <? Slice.remaining_refs slice then
    match fuel with
    | O => st_ret slice
    | S fuel' =>
        match Slice.load_ref slice with
        | (Err e, _) => st_err e
        | (Ok cell, slice') => run! store_ref cell; copy_refs fuel' slice'
        end
    end
  else st_ret slice.

Definition store_slice (slice : Slice) : stm Builder CellError unit :=
  let bits := default MAX_BITS (checked U16_MAX (Slice.remaining_bits slice)) in
  run! room_for bits;
  do! self <- st_get;
  if refs_left self <? Slice.remaining_refs slice then st_err (NoRoomForRefs MAX_REFS)
  else
    do! slice <- copy_bits (Z.to_nat (Slice.remaining_bits slice)) slice;
    do! slice <- copy_refs (Z.to_nat (Slice.remaining_refs slice)) slice;
    st_ret tt.

Definition bit_at (self : Builder) (index : Z) : bool :=
  if b_bits self <=? index then false
  else
    match get (b_data self) (index / 8) with
    | Some byte => Z.land (Z.shiftr byte (7 - index mod 8)) 1 =? 1
    | None => false
    end.

Definition store_builder (other : Builder) : stm Builder CellError unit :=
  run! room_for (b_bits other);
  do! self <- st_get;
  if refs_left self <? len (refs_slice (b_refs other)) then st_err (NoRoomForRefs MAX_REFS)
  else
    run! st_for (seqZ 0 (b_bits other)) (λ index, store_bit (bit_at other index));
    st_for (refs_slice (b_refs other)) store_ref.

(** *** address.rs *)

Definition store_address (address : MsgAddress) : stm Builder CellError unit :=
  match address with
  | AddrNone => store_uint 0 2
  | AddrStd workchain account =>
      run! store_uint 2 2;
      run! store_bit false;
      run! store_int workchain 8;
      store_bytes account
  end.

(** *** either.rs *)

Definition either_goes_inline (self : Builder) (payload : Cell) (ahead : Z) : result CellError bool :=
  let inline_bits := ahead + 1 + Cell.bit_len payload in
  if can_extend_by self inline_bits (len (Cell.refs payload)) then Ok true
  else if refs_left self =? 0 then Err (NoRoomForRefs MAX_REFS)
  else
    let? _ := fst (room_for (ahead + 1) self) in
    Ok false.

Definition store_either_where (payload : Cell) (inline : bool) : stm Builder CellError unit :=
  if inline
  then run! store_bit false; store_slice (Slice.new payload)
  else run! store_bit true; store_ref payload.

Definition store_either_ref (payload : Cell) : stm Builder CellError unit :=
  do! self <- st_get;
  do! inline <- st_lift (either_goes_inline self payload 0);
  store_either_where payload inline.

Definition store_maybe_either_ref (payload : option Cell) : stm Builder CellError unit :=
  match payload with
  | Some payload =>
      do! self <- st_get;
      do! inline <- st_lift (either_goes_inline self payload 1);
      run! store_bit true;
      store_either_where payload inline
  | None => store_bit false
  end.

(** *** Making the cell *)

Section build.
Context `{Hasher}.

Definition finish (self : Builder) (cell_type : CellType) (level_mask : Z) : result CellError Cell :=
  let data :=
    if b_bits self mod 8 =? 0 then b_data self
    else update_last (λ last, Z.lor last (Z.shiftl 1 (7 - b_bits self mod 8))) (b_data self) in
  let? payload := owned data in
  Cell.from_parts payload (b_bits self) (b_refs self) cell_type level_mask.

Definition build (self : Builder) : result CellError Cell :=
  let mask := fold_left (λ mask child, Z.lor mask (Cell.level_mask child))
                (refs_slice (b_refs self)) 0 in
  finish self Ordinary mask.

(** *** snake.rs *)

(** A child cell takes 127 bytes, so one round per byte and one more suffice. *)
Fixpoint store_snake_loop (fuel : nat) (bytes : list Z) : stm Builder CellError unit :=
  match fuel with
  | O => st_err (Malformed "out of fuel")
  | S fuel' =>
      do! self <- st_get;
      let capacity := bits_left self / 8 in
      let take' := Z.min capacity (len bytes) in
      let head := take (Z.to_nat take') bytes in
      let tail := drop (Z.to_nat take') bytes in
      run! store_bytes head;
      match tail with
      | [] => st_ret tt
      | _ =>
          match store_snake_loop fuel' tail new with
          | (Err e, _) => st_err e
          | (Ok _, child) =>
              do! child <- st_lift (build child);
              store_ref child
          end
      end
  end.
Definition store_snake (bytes : list Z) : stm Builder CellError unit :=
  store_snake_loop (S (S (length bytes))) bytes.

Definition to_builder (self : Slice) : result CellError Builder :=
  match store_slice self new with
  | (Ok _, builder) => Ok builder
  | (Err e, _) => Err e
  end.
Definition to_cell (self : Slice) : result CellError Cell :=
  let? builder := to_builder self in build builder.
End build.
End Builder.

(** *** Reading a snake string *)

Module Snake.
(** The chain of cells behind the first one. A cell is shallower than the one
    that refers to it, so the recursion is on the cell. *)
Fixpoint load_chain (cell : Cell) (into : list Z) : result CellError (list Z) :=
  match cell with
  | MkCell d b r t i =>
      let slice := Slice.new (MkCell d b r t i) in
      let whole := Slice.remaining_bits slice / 8 in
      match Slice.load_bytes_into whole into slice with
      | (Err e, _) => Err e
      | (Ok into, slice) =>
          if 0 <? Slice.remaining_refs slice then
            match r with
            | RNone => Err NotEnoughRefs
            | ROne next | RTwo next _ | RThree next _ _ | RFour next _ _ _ => load_chain next into
            end
          else Ok into
      end
  end.

Definition load_snake_into (into : list Z) : stm Slice CellError (list Z) :=
  do! self <- st_get;
  let whole := Slice.remaining_bits self / 8 in
  do! into <- Slice.load_bytes_into whole into;
  do! self <- st_get;
  if 0 <? Slice.remaining_refs self then
    do! next <- Slice.load_ref;
    st_lift (load_chain next into)
  else st_ret into.

Definition load_snake : stm Slice CellError (list Z) := load_snake_into [].
End Snake.

(** ** The bits a builder holds *)

(** A builder reached by stores holds the packing of the bits stored. *)
Definition holding (bs : list bool) (rs : Refs Cell) : Builder := MkBuilder (packed bs) (len bs) rs.

Definition builder_wf (b : Builder) : Prop :=
  ∃ bs rs, b = holding bs rs ∧ len bs <= MAX_BITS.

(** The reference store: append an encoding when there is room for all of it. *)
Definition put (xs bs : list bool) (rs : Refs Cell) : result CellError unit * Builder :=
  if MAX_BITS - len bs <? len xs
  then (Err (NoRoomForBits (len xs) (MAX_BITS - len bs)), holding bs rs)
  else (Ok tt, holding (bs ++ xs) rs).

Lemma new_holding : Builder.new = holding [] RNone.
Proof. reflexivity. Qed.

Lemma room_for_ok n bs rs :
  n <= MAX_BITS - len bs → Builder.room_for n (holding bs rs) = (Ok tt, holding bs rs).
Proof.
  intros. unfold Builder.room_for, Builder.bits_left. simpl.
  by destruct (Z.ltb_spec (MAX_BITS - len bs) n); [lia|].
Qed.

Lemma room_for_err n bs rs :
  MAX_BITS - len bs < n →
  Builder.room_for n (holding bs rs) = (Err (NoRoomForBits n (MAX_BITS - len bs)), holding bs rs).
Proof.
  intros. unfold Builder.room_for, Builder.bits_left. simpl.
  by destruct (Z.ltb_spec (MAX_BITS - len bs) n); [|lia].
Qed.

Lemma put_ok xs bs rs :
  len bs + len xs <= MAX_BITS → put xs bs rs = (Ok tt, holding (bs ++ xs) rs).
Proof. intros. unfold put. by destruct (Z.ltb_spec (MAX_BITS - len bs) (len xs)); [lia|]. Qed.

Lemma put_err xs bs rs :
  MAX_BITS - len bs < len xs →
  put xs bs rs = (Err (NoRoomForBits (len xs) (MAX_BITS - len bs)), holding bs rs).
Proof. intros. unfold put. by destruct (Z.ltb_spec (MAX_BITS - len bs) (len xs)); [|lia]. Qed.

Lemma store_bit_spec b bs rs : Builder.store_bit b (holding bs rs) = put [b] bs rs.
Proof.
  unfold Builder.store_bit. destruct (decide (1 <= MAX_BITS - len bs)).
  - erewrite st_bind_ok by (apply room_for_ok; lia).
    rewrite put_ok by (change (len [b]) with 1; lia). unfold holding. simpl.
    rewrite len_app, packed_snoc. done.
  - erewrite st_bind_err by (apply room_for_err; lia).
    by rewrite put_err by (change (len [b]) with 1; lia).
Qed.

(** A loop of bit stores with room for all of them. *)
Lemma store_bit_for {A} (f : A → bool) l bs rs :
  len bs + len l <= MAX_BITS →
  st_for l (λ x, Builder.store_bit (f x)) (holding bs rs) = (Ok tt, holding (bs ++ (f <$> l)) rs).
Proof.
  revert bs. induction l as [|x l IH]; intros bs Hr; simpl; [by rewrite app_nil_r|].
  assert (len (x :: l) = 1 + len l) as Hl by (unfold len; simpl; lia). pose proof (len_nonneg l).
  erewrite st_bind_ok.
  2:{ rewrite store_bit_spec. apply put_ok. change (len [f x]) with 1. lia. }
  rewrite IH by (rewrite len_app; change (len [f x]) with 1; lia).
  by rewrite <- app_assoc.
Qed.

(** A store that checks for room and then writes bit by bit is an append. *)
Lemma checked_loop {A} (f : A → bool) l n bs rs :
  n = len l →
  st_bind (Builder.room_for n) (λ _, st_for l (λ x, Builder.store_bit (f x))) (holding bs rs)
    = put (f <$> l) bs rs.
Proof.
  intros ->. destruct (decide (len l <= MAX_BITS - len bs)).
  - erewrite st_bind_ok by by apply room_for_ok.
    rewrite store_bit_for, put_ok by (rewrite ?len_fmap; lia). done.
  - erewrite st_bind_err by (apply room_for_err; lia).
    rewrite put_err by (rewrite len_fmap; lia). by rewrite len_fmap.
Qed.

Lemma seqZ_snoc n : 0 <= n → seqZ 0 (n + 1) = seqZ 0 n ++ [n].
Proof. intros. rewrite seqZ_app by lia. do 2 f_equal. Qed.

Lemma offsets_bits v n :
  (λ offset, Z.land (Z.shiftr v offset) 1 =? 1) <$> reverse (seqZ 0 (Z.of_nat n)) = uint_bits n v.
Proof.
  induction n as [|n IH]; [done|].
  rewrite Nat2Z.inj_succ, <- Z.add_1_r, seqZ_snoc, reverse_app by lia. simpl. f_equal; [|done].
  pose proof (byte_bit_testbit (Z.shiftr v (Z.of_nat n)) 7 ltac:(lia)) as E.
  unfold byte_bit in E. change (7 - 7) with 0 in E. rewrite Z.shiftr_0_r in E.
  rewrite E, Z.shiftr_spec by lia. by rewrite Z.add_0_l.
Qed.

Lemma offsets_spec v w n bs rs :
  0 <= n <= U16_MAX → Z.of_nat w = n →
  st_bind (Builder.room_for (wrap 16 n)) (λ _, Builder.store_offsets v n) (holding bs rs)
    = put (uint_bits w v) bs rs.
Proof.
  intros Hn <-. rewrite <- offsets_bits. apply checked_loop.
  unfold wrap. rewrite Z.mod_small by (unfold U16_MAX in *; simpl; lia).
  unfold len. rewrite length_reverse, length_seqZ. lia.
Qed.

#[local] Arguments uint_bits : simpl never.

(** ** Each store, on every branch *)

Lemma store_uint_spec v n bs rs :
  0 <= n →
  Builder.store_uint v n (holding bs rs) =
    if 64 <? n then (Err (TooWide n 64), holding bs rs)
    else if (n <? 64) && (2 ^ n <=? v)
    then (Err (Malformed "value does not fit the requested bits"), holding bs rs)
    else put (uint_bits (Z.to_nat n) v) bs rs.
Proof.
  intros Hn. unfold Builder.store_uint. destruct (Z.ltb_spec 64 n); [done|].
  destruct ((n <? 64) && (2 ^ n <=? v)); [done|].
  apply offsets_spec; unfold U16_MAX; lia.
Qed.

Lemma store_uint128_spec v n bs rs :
  0 <= n →
  Builder.store_uint128 v n (holding bs rs) =
    if 128 <? n then (Err (TooWide n 128), holding bs rs)
    else if (n <? 128) && (2 ^ n <=? v)
    then (Err (Malformed "value does not fit the requested bits"), holding bs rs)
    else put (uint_bits (Z.to_nat n) v) bs rs.
Proof.
  intros Hn. unfold Builder.store_uint128. destruct (Z.ltb_spec 128 n); [done|].
  destruct ((n <? 128) && (2 ^ n <=? v)); [done|].
  apply offsets_spec; unfold U16_MAX; lia.
Qed.

Lemma store_int_spec v n bs rs :
  0 <= n →
  Builder.store_int v n (holding bs rs) =
    if 64 <? n then (Err (TooWide n 64), holding bs rs)
    else if Builder.fits_signed 64 v n then put (uint_bits (Z.to_nat n) v) bs rs
    else (Err (Malformed "value does not fit the requested bits"), holding bs rs).
Proof.
  intros Hn. unfold Builder.store_int. destruct (Z.ltb_spec 64 n); [done|].
  destruct (Builder.fits_signed 64 v n); [|done]. simpl.
  rewrite <- (uint_bits_mod (Z.to_nat n) v 64) by lia.
  apply offsets_spec; unfold U16_MAX; lia.
Qed.

Lemma store_int128_spec v n bs rs :
  0 <= n →
  Builder.store_int128 v n (holding bs rs) =
    if 128 <? n then (Err (TooWide n 128), holding bs rs)
    else if Builder.fits_signed 128 v n then put (uint_bits (Z.to_nat n) v) bs rs
    else (Err (Malformed "value does not fit the requested bits"), holding bs rs).
Proof.
  intros Hn. unfold Builder.store_int128. destruct (Z.ltb_spec 128 n); [done|].
  destruct (Builder.fits_signed 128 v n); [|done]. simpl.
  rewrite <- (uint_bits_mod (Z.to_nat n) v 128) by lia.
  apply offsets_spec; unfold U16_MAX; lia.
Qed.

Lemma store_same_bit_spec b n bs rs :
  0 <= n → Builder.store_same_bit b n (holding bs rs) = put (replicate (Z.to_nat n) b) bs rs.
Proof.
  intros Hn. unfold Builder.store_same_bit. rewrite (checked_loop (λ _, b)) by (by rewrite len_seqZ).
  f_equal. apply list_eq. intros i. rewrite list_lookup_fmap.
  destruct (decide (i < Z.to_nat n)%nat).
  - rewrite lookup_replicate_2 by done. rewrite (proj2 (lookup_seqZ 0 n i (0 + Z.of_nat i))); [done|lia].
  - rewrite (lookup_ge_None_2 (replicate _ _)) by (rewrite length_replicate; lia).
    by rewrite (lookup_ge_None_2 (seqZ _ _)) by (rewrite length_seqZ; lia).
Qed.

Lemma store_bits_spec xs bs rs :
  len xs <= U16_MAX → Builder.store_bits xs (holding bs rs) = put xs bs rs.
Proof.
  intros Hl. unfold Builder.store_bits, checked. rewrite (proj2 (Z.leb_le _ _)) by done. simpl.
  rewrite (checked_loop id xs) by done. by rewrite list_fmap_id.
Qed.

Lemma store_bytes_spec l bs rs :
  Forall is_byte l → len l * 8 <= USIZE_MAX →
  Builder.store_bytes l (holding bs rs) = put (bytes_bits l) bs rs.
Proof.
  intros Hb Hl. unfold Builder.store_bytes.
  erewrite st_bind_ok by done. cbv zeta. unfold saturating_mul. rewrite Z.min_r by done.
  unfold checked. pose proof (len_bytes_bits l) as Hlb. pose proof (len_nonneg bs).
  destruct (decide (len bs + len l * 8 <= MAX_BITS)).
  2:{ rewrite put_err by lia. rewrite Hlb, (Z.mul_comm 8). unfold Builder.bits_left; simpl.
      destruct (Z.leb_spec (len l * 8) U16_MAX); [|done]. cbn [ok_or st_lift].
      erewrite st_bind_ok by done. by erewrite st_bind_err by (apply room_for_err; lia). }
  rewrite (proj2 (Z.leb_le _ _)) by (unfold U16_MAX, MAX_BITS in *; lia).
  erewrite st_bind_ok by done. erewrite st_bind_ok by (apply room_for_ok; lia).
  rewrite put_ok by lia. clear Hlb Hl.
  revert bs H l0. induction l as [|b l IH]; intros bs Hbs Hr; simpl; [by rewrite app_nil_r|].
  apply Forall_cons in Hb as [Hb Hb']. assert (len (b :: l) = 1 + len l) as Hl by (unfold len; simpl; lia).
  pose proof (len_nonneg l).
  erewrite st_bind_ok.
  2:{ rewrite store_uint_spec by lia. simpl.
      rewrite (proj2 (Z.leb_gt _ _)) by (destruct Hb; simpl; lia).
      apply put_ok. rewrite len_uint_bits. lia. }
  rewrite IH by (try done; rewrite ?len_app, ?len_uint_bits; lia).
  rewrite bytes_bits_cons. by rewrite app_assoc.
Qed.

(** Two stores behind one check for the room of both. *)
Lemma checked_two (m1 m2 : stm Builder CellError unit) n xs ys bs rs :
  n = len xs + len ys →
  (∀ bs, m1 (holding bs rs) = put xs bs rs) → (∀ bs, m2 (holding bs rs) = put ys bs rs) →
  st_bind (Builder.room_for n) (λ _, st_bind m1 (λ _, m2)) (holding bs rs) = put (xs ++ ys) bs rs.
Proof.
  intros -> H1 H2. pose proof (len_app xs ys) as Hl. pose proof (len_nonneg ys).
  destruct (decide (len xs + len ys <= MAX_BITS - len bs)).
  - erewrite st_bind_ok by by apply room_for_ok.
    erewrite st_bind_ok by (rewrite H1; apply put_ok; lia).
    rewrite H2, !put_ok by (rewrite ?len_app; lia). by rewrite <- app_assoc.
  - erewrite st_bind_err by (apply room_for_err; lia). rewrite put_err by lia. by rewrite Hl.
Qed.

(** ** Writing an encoding

    A program writes an encoding when it appends it where there is room for all
    of it and fails where there is not; what a failure leaves behind is said
    only of the single checked stores. Writes compose. *)
Definition writes (m : stm Builder CellError unit) (xs : list bool) : Prop :=
  ∀ bs rs, len bs <= MAX_BITS →
    if MAX_BITS - len bs <? len xs then is_ok (fst (m (holding bs rs))) = false
    else m (holding bs rs) = (Ok tt, holding (bs ++ xs) rs).

Lemma writes_put m xs : (∀ bs rs, m (holding bs rs) = put xs bs rs) → writes m xs.
Proof. intros Hm bs rs _. rewrite Hm. unfold put. by destruct (_ <? _). Qed.

Lemma writes_seq m k xs ys : writes m xs → writes k ys → writes (run! m; k) (xs ++ ys).
Proof.
  intros Hm Hk bs rs Hl. specialize (Hm bs rs Hl). unfold st_bind. rewrite len_app.
  pose proof (len_nonneg ys).
  destruct (Z.ltb_spec (MAX_BITS - len bs) (len xs)).
  - rewrite (proj2 (Z.ltb_lt _ _)) by lia. by destruct (m (holding bs rs)) as [[]].
  - rewrite Hm. specialize (Hk (bs ++ xs) rs). rewrite len_app, <- app_assoc in Hk.
    replace (MAX_BITS - (len bs + len xs) <? len ys) with (MAX_BITS - len bs <? len xs + len ys) in Hk;
      [apply Hk; lia|].
    destruct (Z.ltb_spec (MAX_BITS - len bs) (len xs + len ys)),
      (Z.ltb_spec (MAX_BITS - (len bs + len xs)) (len ys)); lia.
Qed.

Lemma writes_ok m xs bs rs :
  writes m xs → len bs + len xs <= MAX_BITS →
  m (holding bs rs) = (Ok tt, holding (bs ++ xs) rs).
Proof.
  intros Hm Hl. pose proof (len_nonneg xs). specialize (Hm bs rs ltac:(lia)).
  by destruct (Z.ltb_spec (MAX_BITS - len bs) (len xs)); [lia|].
Qed.

Lemma writes_full m xs bs rs :
  writes m xs → MAX_BITS < len bs + len xs → len bs <= MAX_BITS →
  is_ok (fst (m (holding bs rs))) = false.
Proof.
  intros Hm Hl Hb. specialize (Hm bs rs Hb).
  by destruct (Z.ltb_spec (MAX_BITS - len bs) (len xs)); [|lia].
Qed.

Lemma writes_bit b : writes (Builder.store_bit b) [b].
Proof. apply writes_put, store_bit_spec. Qed.

Lemma writes_same_bit b n : 0 <= n → writes (Builder.store_same_bit b n) (replicate (Z.to_nat n) b).
Proof. intros. apply writes_put. intros. by apply store_same_bit_spec. Qed.

Lemma writes_bytes l :
  Forall is_byte l → len l * 8 <= USIZE_MAX → writes (Builder.store_bytes l) (bytes_bits l).
Proof. intros. apply writes_put. intros. by apply store_bytes_spec. Qed.

Lemma store_uint_fits n v bs rs :
  0 <= n <= 64 → 0 <= v < 2 ^ n →
  Builder.store_uint v n (holding bs rs) = put (uint_bits (Z.to_nat n) v) bs rs.
Proof.
  intros Hn Hv. rewrite store_uint_spec by lia. destruct (Z.ltb_spec 64 n); [lia|].
  by rewrite (proj2 (Z.leb_gt _ _)), andb_false_r by lia.
Qed.

Lemma writes_uint n v :
  0 <= n <= 64 → 0 <= v < 2 ^ n → writes (Builder.store_uint v n) (uint_bits (Z.to_nat n) v).
Proof. intros. apply writes_put. intros. by apply store_uint_fits. Qed.

Lemma fits_signed_true w n v :
  0 < n → - 2 ^ (n - 1) <= v < 2 ^ (n - 1) → Builder.fits_signed w v n = true.
Proof.
  intros Hn Hv. unfold Builder.fits_signed. destruct (Z.eqb_spec n 0); [lia|].
  destruct (n <? w); [|done]. apply andb_true_iff. split; [apply Z.leb_le|apply Z.ltb_lt]; lia.
Qed.

Lemma store_int_fits n v bs rs :
  0 < n <= 64 → - 2 ^ (n - 1) <= v < 2 ^ (n - 1) →
  Builder.store_int v n (holding bs rs) = put (uint_bits (Z.to_nat n) v) bs rs.
Proof.
  intros Hn Hv. rewrite store_int_spec by lia. destruct (Z.ltb_spec 64 n); [lia|].
  by rewrite fits_signed_true by lia.
Qed.

Lemma writes_int n v :
  0 < n <= 64 → - 2 ^ (n - 1) <= v < 2 ^ (n - 1) →
  writes (Builder.store_int v n) (uint_bits (Z.to_nat n) v).
Proof. intros. apply writes_put. intros. by apply store_int_fits. Qed.

(** *** Variable-width integers *)

Definition var_len_bits (max : Z) : Z := 32 - leading_zeros 32 (max - 1).
Definition var_uint_len (v : Z) : Z := if v =? 0 then 0 else div_ceil (128 - leading_zeros 128 v) 8.

Definition var_bits (len_bits bytes v : Z) : list bool :=
  uint_bits (Z.to_nat len_bits) bytes ++ uint_bits (Z.to_nat (bytes * 8)) v.

Lemma leading_zeros_pos w v : 0 < v → w - leading_zeros w v = Z.log2 v + 1.
Proof. intros. unfold leading_zeros. destruct (Z.leb_spec v 0); lia. Qed.

Lemma var_len_bits_spec max :
  2 <= max < 2 ^ 32 → 1 <= var_len_bits max <= 32 ∧ max - 1 < 2 ^ var_len_bits max.
Proof.
  intros Hm. unfold var_len_bits. rewrite leading_zeros_pos by lia.
  pose proof (Z.log2_nonneg (max - 1)). pose proof (Z.log2_spec (max - 1) ltac:(lia)) as [_ H1].
  rewrite Z.add_1_r. split; [|done]. split; [lia|].
  assert (Z.log2 (max - 1) < 32); [|lia]. apply Z.log2_lt_pow2; lia.
Qed.

Lemma log2_bytes v n :
  0 < v < 2 ^ n → 0 <= n → let bytes := div_ceil (Z.log2 v + 1) 8 in
  1 <= bytes ∧ bytes <= div_ceil n 8 ∧ 2 ^ (8 * (bytes - 1)) <= v < 2 ^ (8 * bytes).
Proof.
  intros Hv Hn bytes. pose proof (Z.log2_nonneg v). pose proof (Z.log2_spec v ltac:(lia)) as [Hlo Hhi].
  assert (Z.log2 v < n) by (apply Z.log2_lt_pow2; lia).
  assert (8 * (bytes - 1) <= Z.log2 v < 8 * bytes) by (subst bytes; unfold div_ceil; zdiv).
  split; [lia|]. split; [subst bytes; unfold div_ceil; apply Z.div_le_mono; lia|]. split.
  - etransitivity; [|exact Hlo]. apply Z.pow_le_mono_r; lia.
  - eapply Z.lt_le_trans; [exact Hhi|]. apply Z.pow_le_mono_r; lia.
Qed.

(** The length written is the least that holds the value. *)
Lemma var_uint_len_spec v :
  0 <= v < 2 ^ 128 →
  0 <= var_uint_len v <= 16 ∧ v < 2 ^ (8 * var_uint_len v) ∧
  (0 < v → 1 <= var_uint_len v ∧ 2 ^ (8 * (var_uint_len v - 1)) <= v).
Proof.
  intros Hv. unfold var_uint_len. destruct (Z.eqb_spec v 0); [subst; simpl; lia|].
  rewrite leading_zeros_pos by lia.
  destruct (log2_bytes v 128 ltac:(lia) ltac:(lia)) as (H1 & H2 & H3 & H4).
  change (div_ceil 128 8) with 16 in H2. repeat split; try lia; done.
Qed.

Lemma store_var_uint_spec v max bs rs :
  0 <= v < 2 ^ 128 → 0 <= max < 2 ^ 32 →
  Builder.store_var_uint v max (holding bs rs) =
    if max <? 2 then (Err (Malformed "variable integer needs a max above one"), holding bs rs)
    else if max <=? var_uint_len v
    then (Err (Malformed "value is too wide for this VarUInteger"), holding bs rs)
    else put (var_bits (var_len_bits max) (var_uint_len v) v) bs rs.
Proof.
  intros Hv Hm. unfold Builder.store_var_uint. destruct (Z.ltb_spec max 2); [done|].
  fold (var_len_bits max) (var_uint_len v). cbv zeta.
  destruct (Z.leb_spec max (var_uint_len v)); [done|].
  destruct (var_len_bits_spec max ltac:(lia)) as [Hlb Hlm].
  destruct (var_uint_len_spec v Hv) as (Hb & Hvb & _).
  unfold var_bits. apply checked_two.
  - unfold wrap. rewrite !len_uint_bits, !Z2Nat.id by lia. apply Z.mod_small. simpl. lia.
  - intros bs'. rewrite store_uint_spec by lia.
    destruct (Z.ltb_spec 64 (var_len_bits max)); [lia|].
    destruct (Z.leb_spec (2 ^ var_len_bits max) (var_uint_len v)); [lia|]. by rewrite andb_false_r.
  - intros bs'. rewrite store_uint128_spec by lia.
    destruct (Z.ltb_spec 128 (var_uint_len v * 8)); [lia|].
    destruct (Z.leb_spec (2 ^ (var_uint_len v * 8)) v); [rewrite Z.mul_comm in Hvb; lia|].
    by rewrite andb_false_r.
Qed.

Lemma signed_byte_len_spec v :
  - 2 ^ 127 <= v < 2 ^ 127 →
  0 <= signed_byte_len v <= 16 ∧
  Builder.fits_signed 128 v (signed_byte_len v * 8) = true ∧
  (v ≠ 0 → 1 <= signed_byte_len v ∧
    - 2 ^ (signed_byte_len v * 8 - 1) <= v < 2 ^ (signed_byte_len v * 8 - 1)).
Proof.
  intros Hv. unfold signed_byte_len. destruct (Z.eqb_spec v 0) as [->|Hz]; [done|].
  set (m := if v <? 0 then 128 - leading_zeros 128 (Z.lnot v) else 128 - leading_zeros 128 v).
  assert (0 <= m <= 127 ∧ - 2 ^ m <= v < 2 ^ m) as [Hm Hr].
  { subst m. destruct (Z.ltb_spec v 0).
    - unfold leading_zeros, Z.lnot. destruct (Z.leb_spec (Z.pred (- v)) 0).
      + assert (v = -1) as -> by lia. simpl. lia.
      + pose proof (Z.log2_spec (Z.pred (- v)) ltac:(lia)) as [H1 H2]. rewrite <- Z.add_1_r in H2.
        pose proof (Z.log2_nonneg (Z.pred (- v))).
        assert (Z.log2 (Z.pred (- v)) < 127) by (apply Z.log2_lt_pow2; lia).
        replace (128 - (128 - 1 - Z.log2 (Z.pred (- v)))) with (Z.log2 (Z.pred (- v)) + 1) by lia. lia.
    - rewrite leading_zeros_pos by lia.
      pose proof (Z.log2_spec v ltac:(lia)) as [H1 H2]. rewrite <- Z.add_1_r in H2.
      pose proof (Z.log2_nonneg v). assert (Z.log2 v < 127) by (apply Z.log2_lt_pow2; lia). lia. }
  cbv zeta. fold m. set (n := div_ceil (m + 1) 8).
  assert (1 <= n <= 16 ∧ m <= n * 8 - 1) as [Hn Hmn] by (subst n; unfold div_ceil; zdiv).
  assert (2 ^ m <= 2 ^ (n * 8 - 1)) by (apply Z.pow_le_mono_r; lia).
  split; [lia|]. split; [|intros; lia].
  unfold Builder.fits_signed. destruct (Z.eqb_spec (n * 8) 0); [lia|].
  destruct (Z.ltb_spec (n * 8) 128); [|done].
  apply andb_true_iff. split; [apply Z.leb_le|apply Z.ltb_lt]; lia.
Qed.

Lemma store_var_int_spec v max bs rs :
  - 2 ^ 127 <= v < 2 ^ 127 → 0 <= max < 2 ^ 32 →
  Builder.store_var_int v max (holding bs rs) =
    if max <? 2 then (Err (Malformed "variable integer needs a max above one"), holding bs rs)
    else if max <=? signed_byte_len v
    then (Err (Malformed "value is too wide for this VarInteger"), holding bs rs)
    else put (var_bits (var_len_bits max) (signed_byte_len v) v) bs rs.
Proof.
  intros Hv Hm. unfold Builder.store_var_int. destruct (Z.ltb_spec max 2); [done|].
  fold (var_len_bits max). cbv zeta.
  destruct (Z.leb_spec max (signed_byte_len v)); [done|].
  destruct (var_len_bits_spec max ltac:(lia)) as [Hlb Hlm].
  destruct (signed_byte_len_spec v Hv) as (Hb & Hvb & _).
  unfold var_bits. apply checked_two.
  - unfold wrap. rewrite !len_uint_bits, !Z2Nat.id by lia. apply Z.mod_small. simpl. lia.
  - intros bs'. rewrite store_uint_spec by lia.
    destruct (Z.ltb_spec 64 (var_len_bits max)); [lia|].
    destruct (Z.leb_spec (2 ^ var_len_bits max) (signed_byte_len v)); [lia|]. by rewrite andb_false_r.
  - intros bs'. rewrite store_int128_spec, Hvb by lia.
    by destruct (Z.ltb_spec 128 (signed_byte_len v * 8)); [lia|].
Qed.

(** *** References *)

Definition refs_app (rs : Refs Cell) (l : list Cell) : Refs Cell :=
  default RNone (refs_of (refs_slice rs ++ l)).

Lemma refs_app_slice rs l :
  len (refs_slice rs) + len l <= MAX_REFS → refs_slice (refs_app rs l) = refs_slice rs ++ l.
Proof.
  intros Hl. unfold refs_app. destruct (refs_of_is_Some (refs_slice rs ++ l)) as [r Hr];
    [by rewrite len_app|]. rewrite Hr. by apply refs_of_slice.
Qed.

Lemma refs_app_nil rs : refs_app rs [] = rs.
Proof.
  apply refs_slice_inj. pose proof (len_refs_slice rs). unfold len in *.
  rewrite refs_app_slice, app_nil_r; [done|]. unfold len. simpl. lia.
Qed.

Lemma refs_app_app rs l1 l2 :
  len (refs_slice rs) + len l1 + len l2 <= MAX_REFS →
  refs_app (refs_app rs l1) l2 = refs_app rs (l1 ++ l2).
Proof.
  intros Hl. pose proof (len_nonneg l2). apply refs_slice_inj.
  rewrite !refs_app_slice; rewrite ?refs_app_slice, ?len_app; try lia. by rewrite app_assoc.
Qed.

Lemma store_ref_spec c bs rs :
  Builder.store_ref c (holding bs rs) =
    if MAX_REFS <=? len (refs_slice rs) then (Err (NoRoomForRefs MAX_REFS), holding bs rs)
    else (Ok tt, holding bs (refs_app rs [c])).
Proof.
  unfold Builder.store_ref. simpl. destruct (Z.leb_spec MAX_REFS (len (refs_slice rs))); [done|].
  rewrite push_spec. by rewrite (proj2 (Z.ltb_lt _ _)).
Qed.

Lemma store_ref_for l bs rs :
  len (refs_slice rs) + len l <= MAX_REFS →
  st_for l Builder.store_ref (holding bs rs) = (Ok tt, holding bs (refs_app rs l)).
Proof.
  revert rs. induction l as [|c l IH]; intros rs Hl; simpl; [by rewrite refs_app_nil|].
  assert (len (c :: l) = len [c] + len l) as Hc by (unfold len; simpl; lia).
  change (len [c]) with 1 in Hc. pose proof (len_nonneg l).
  erewrite st_bind_ok.
  2:{ rewrite store_ref_spec. by rewrite (proj2 (Z.leb_gt _ _)) by lia. }
  rewrite IH.
  - by rewrite refs_app_app by (change (len [c]) with 1; lia).
  - rewrite refs_app_slice, len_app; change (len [c]) with 1; lia.
Qed.

Lemma store_maybe_ref_spec oc bs rs :
  Builder.store_maybe_ref oc (holding bs rs) =
    match oc with
    | None => put [false] bs rs
    | Some c =>
        if MAX_REFS <=? len (refs_slice rs) then (Err (NoRoomForRefs MAX_REFS), holding bs rs)
        else put [true] bs (if len bs <? MAX_BITS then refs_app rs [c] else rs)
    end.
Proof.
  destruct oc as [c|]; [|apply store_bit_spec]. unfold Builder.store_maybe_ref. simpl.
  destruct (Z.leb_spec MAX_REFS (len (refs_slice rs))) as [|Hr]; [done|].
  destruct (Z.ltb_spec (len bs) MAX_BITS).
  - erewrite st_bind_ok by (apply room_for_ok; lia).
    erewrite st_bind_ok by (rewrite store_bit_spec; apply put_ok; change (len [true]) with 1; lia).
    rewrite store_ref_spec, (proj2 (Z.leb_gt _ _)) by done.
    by rewrite put_ok by (change (len [true]) with 1; lia).
  - erewrite st_bind_err by (apply room_for_err; lia).
    by rewrite put_err by (change (len [true]) with 1; lia).
Qed.

(** *** Copies *)

Lemma slice_bits_cons s :
  slice_wf s → 0 < Slice.remaining_bits s →
  ∃ b, Slice.load_bit s = (Ok b, step_bits 1 s) ∧
       slice_bits s = b :: slice_bits (step_bits 1 s).
Proof.
  intros Hwf Hr. rewrite step_bits_bits by (done || lia).
  pose proof (len_slice_bits s Hwf) as Hl. destruct (slice_bits s) as [|b l] eqn:E.
  { unfold len in Hl. simpl in Hl. lia. }
  exists b. split; [|done]. apply load_bit_ok. split; [done|]. by exists l.
Qed.

Lemma copy_bits_spec fuel s bs rs :
  slice_wf s → len bs + Slice.remaining_bits s <= MAX_BITS → Slice.remaining_bits s = Z.of_nat fuel →
  Builder.copy_bits fuel s (holding bs rs) =
    (Ok (step_bits (Slice.remaining_bits s) s), holding (bs ++ slice_bits s) rs).
Proof.
  revert s bs. induction fuel as [|fuel IH]; intros s bs Hwf Hl Hf; simpl.
  - pose proof (len_slice_bits s Hwf) as Hn. rewrite Hf in *. simpl in *. rewrite step_bits_0.
    destruct (slice_bits s); [by rewrite app_nil_r|]. unfold len in Hn. simpl in Hn. lia.
  - destruct (Z.ltb_spec 0 (Slice.remaining_bits s)); [|lia].
    destruct (slice_bits_cons s Hwf ltac:(lia)) as (b & -> & Hb).
    erewrite st_bind_ok by (rewrite store_bit_spec; apply put_ok; change (len [b]) with 1; lia).
    assert (Slice.remaining_bits (step_bits 1 s) = Slice.remaining_bits s - 1) as Hs
      by (unfold Slice.remaining_bits; simpl; lia).
    rewrite IH.
    + rewrite step_bits_step, Hs, Hb, <- app_assoc. do 3 f_equal. lia.
    + apply step_bits_wf; [done|lia].
    + rewrite len_app, Hs. change (len [b]) with 1. lia.
    + lia.
Qed.

Lemma slice_refs_cons s :
  slice_wf s → 0 < Slice.remaining_refs s →
  ∃ c, Slice.load_ref s = (Ok c, step_refs 1 s) ∧
       slice_refs s = c :: slice_refs (step_refs 1 s).
Proof.
  intros [_ _ H1 H2] Hr. unfold Slice.remaining_refs, len in *.
  unfold Slice.load_ref. destruct (Z.leb_spec (s_end_ref s) (s_next_ref s)); [lia|].
  destruct (get_lt_Some (Cell.refs (s_cell s)) (s_next_ref s)) as [c Hc]; [unfold len; lia|].
  rewrite Hc. exists c. split; [done|].
  unfold slice_refs, Slice.remaining_refs. simpl.
  unfold get in Hc. destruct (Z.ltb_spec (s_next_ref s) 0); [lia|].
  rewrite (drop_S _ _ _ Hc). replace (Z.to_nat (s_next_ref s + 1)) with (S (Z.to_nat (s_next_ref s))) by lia.
  replace (Z.to_nat (s_end_ref s - s_next_ref s)) with
    (S (Z.to_nat (s_end_ref s - (s_next_ref s + 1)))) by lia. done.
Qed.

Lemma step_refs_0 s : step_refs 0 s = s.
Proof. unfold step_refs, Slice.set_ref. rewrite Z.add_0_r. by destruct s. Qed.

Lemma copy_refs_spec fuel s bs rs :
  slice_wf s → len (refs_slice rs) + Slice.remaining_refs s <= MAX_REFS →
  Slice.remaining_refs s = Z.of_nat fuel →
  Builder.copy_refs fuel s (holding bs rs) =
    (Ok (step_refs (Slice.remaining_refs s) s), holding bs (refs_app rs (slice_refs s))).
Proof.
  revert s rs. induction fuel as [|fuel IH]; intros s rs Hwf Hl Hf; simpl.
  - pose proof (len_slice_refs s Hwf) as Hn. rewrite Hf in *. simpl in *. rewrite step_refs_0.
    destruct (slice_refs s); [by rewrite refs_app_nil|]. unfold len in Hn. simpl in Hn. lia.
  - destruct (Z.ltb_spec 0 (Slice.remaining_refs s)); [|lia].
    destruct (slice_refs_cons s Hwf ltac:(lia)) as (c & -> & Hc).
    erewrite st_bind_ok by (rewrite store_ref_spec; by rewrite (proj2 (Z.leb_gt _ _)) by lia).
    assert (Slice.remaining_refs (step_refs 1 s) = Slice.remaining_refs s - 1) as Hs
      by (unfold Slice.remaining_refs; simpl; lia).
    assert (slice_wf (step_refs 1 s)) as Hwf' by (apply step_refs_wf; [done|lia]).
    pose proof (len_slice_refs _ Hwf').
    rewrite IH; [|done| |lia].
    + rewrite Hs, Hc, refs_app_app by (change (len [c]) with 1; lia).
      f_equal. f_equal. unfold step_refs, Slice.set_ref. simpl. f_equal. lia.
    + rewrite refs_app_slice, len_app, Hs; change (len [c]) with 1; lia.
Qed.

Lemma store_slice_spec s bs rs :
  slice_wf s → Slice.remaining_bits s <= MAX_BITS →
  Builder.store_slice s (holding bs rs) =
    if MAX_BITS - len bs <? Slice.remaining_bits s
    then (Err (NoRoomForBits (Slice.remaining_bits s) (MAX_BITS - len bs)), holding bs rs)
    else if MAX_REFS - len (refs_slice rs) <? Slice.remaining_refs s
    then (Err (NoRoomForRefs MAX_REFS), holding bs rs)
    else (Ok tt, holding (bs ++ slice_bits s) (refs_app rs (slice_refs s))).
Proof.
  intros Hwf Hm. unfold Builder.store_slice, checked.
  rewrite (proj2 (Z.leb_le _ _)) by (unfold U16_MAX, MAX_BITS in *; lia). simpl.
  destruct (Z.ltb_spec (MAX_BITS - len bs) (Slice.remaining_bits s)).
  { by erewrite st_bind_err by (apply room_for_err; lia). }
  erewrite st_bind_ok by (apply room_for_ok; lia). erewrite st_bind_ok by done.
  unfold Builder.refs_left. simpl.
  destruct (Z.ltb_spec (MAX_REFS - len (refs_slice rs)) (Slice.remaining_refs s)); [done|].
  pose proof (len_nonneg (slice_bits s)) as Hb. rewrite len_slice_bits in Hb by done.
  pose proof (len_nonneg (slice_refs s)) as Hr. rewrite len_slice_refs in Hr by done.
  erewrite st_bind_ok by (apply copy_bits_spec; [done|lia|lia]).
  set (s' := step_bits (Slice.remaining_bits s) s).
  change (Slice.remaining_refs s') with (Slice.remaining_refs s).
  erewrite st_bind_ok.
  2:{ apply (copy_refs_spec (Z.to_nat (Slice.remaining_refs s)) s').
      - apply step_bits_wf; [done|lia].
      - change (Slice.remaining_refs s') with (Slice.remaining_refs s). lia.
      - change (Slice.remaining_refs s') with (Slice.remaining_refs s). lia. }
  done.
Qed.

Lemma bit_at_holding bs rs i : 0 <= i → Builder.bit_at (holding bs rs) i = nth_bit bs i.
Proof.
  intros Hi. unfold Builder.bit_at. simpl. destruct (Z.leb_spec (len bs) i).
  - by rewrite nth_bit_past.
  - rewrite <- data_bit_packed by done. done.
Qed.

Lemma nth_bits bs : nth_bit bs <$> seqZ 0 (len bs) = bs.
Proof.
  pose proof (len_nonneg bs). apply list_get_ext; rewrite len_fmap, len_seqZ by done; [done|].
  intros i Hi. rewrite get_fmap, get_seqZ by done. simpl. unfold nth_bit.
  by destruct (get_lt_Some bs i Hi) as [x ->].
Qed.

Lemma store_builder_spec bs' rs' bs rs :
  Builder.store_builder (holding bs' rs') (holding bs rs) =
    if MAX_BITS - len bs <? len bs'
    then (Err (NoRoomForBits (len bs') (MAX_BITS - len bs)), holding bs rs)
    else if MAX_REFS - len (refs_slice rs) <? len (refs_slice rs')
    then (Err (NoRoomForRefs MAX_REFS), holding bs rs)
    else (Ok tt, holding (bs ++ bs') (refs_app rs (refs_slice rs'))).
Proof.
  unfold Builder.store_builder. simpl. pose proof (len_nonneg bs').
  destruct (Z.ltb_spec (MAX_BITS - len bs) (len bs')).
  { by erewrite st_bind_err by (apply room_for_err; lia). }
  erewrite st_bind_ok by (apply room_for_ok; lia). erewrite st_bind_ok by done.
  unfold Builder.refs_left. simpl.
  destruct (Z.ltb_spec (MAX_REFS - len (refs_slice rs)) (len (refs_slice rs'))); [done|].
  erewrite st_bind_ok by (apply store_bit_for; rewrite len_seqZ; lia).
  rewrite store_ref_for by lia. do 2 f_equal. f_equal.
  transitivity (nth_bit bs' <$> seqZ 0 (len bs')); [|apply nth_bits].
  apply list_fmap_ext. intros k i Hk%lookup_seqZ. apply bit_at_holding. lia.
Qed.

(** *** Truncation *)

Lemma byte_bit_mask b k j :
  is_byte b → 0 <= k < 8 → 0 <= j < 8 →
  byte_bit (Z.land b (shl 8 255 (8 - k))) j = byte_bit b j && (j <? k).
Proof.
  intros Hb Hk Hj. rewrite !byte_bit_testbit by done. rewrite Z.land_spec. f_equal.
  revert k j Hk Hj. enum2.
Qed.

Lemma land_is_byte a b : is_byte a → 0 <= b → is_byte (Z.land a b).
Proof.
  intros [H1 H2] Hb. split; [by apply Z.land_nonneg; left|].
  assert (Z.land a b <= a); [|lia]. destruct (Z.eq_dec a 0) as [->|]; [by rewrite Z.land_0_l|].
  apply Z.ldiff_le; [done|]. apply Z.bits_inj'. intros i Hi.
  rewrite Z.ldiff_spec, Z.land_spec, Z.bits_0. by destruct (Z.testbit a i), (Z.testbit b i).
Qed.

Lemma truncate_bits_spec n bs rs :
  0 <= n →
  Builder.truncate_bits n (holding bs rs) =
    if len bs <? n then (Err (NotEnoughBits n (len bs)), holding bs rs)
    else (Ok tt, holding (take (Z.to_nat n) bs) rs).
Proof.
  intros Hn. unfold Builder.truncate_bits. simpl. destruct (Z.ltb_spec (len bs) n); [done|].
  unfold holding. assert (len (take (Z.to_nat n) bs) = n) as Ht
    by (unfold len in *; rewrite length_take; lia).
  rewrite Ht. do 2 f_equal.
  set (d := take (Z.to_nat (div_ceil n 8)) (packed bs)).
  assert (len d = div_ceil n 8) as Hd.
  { subst d. pose proof (len_packed bs) as Hp. unfold len in *. rewrite length_take.
    assert (div_ceil n 8 <= Z.of_nat (length (packed bs))).
    { rewrite Hp. apply Z.div_le_mono; lia. }
    pose proof (div_ceil_8_nonneg n Hn). lia. }
  assert (Forall is_byte d) as Hb by (apply Forall_take, packed_bytes).
  assert (∀ i, 0 <= i < 8 * div_ceil n 8 → data_bit d i = nth_bit bs i) as Hbits.
  { intros i Hi. rewrite <- data_bit_packed by lia. subst d.
    rewrite <- (take_drop (Z.to_nat (div_ceil n 8)) (packed bs)) at 2.
    by rewrite data_bit_app_l by lia. }
  assert (∀ i, 0 <= i → nth_bit (take (Z.to_nat n) bs) i = nth_bit bs i && (i <? n)) as Htake.
  { intros i Hi. unfold nth_bit, get. destruct (Z.ltb_spec i 0); [lia|].
    destruct (Z.ltb_spec i n).
    - rewrite lookup_take_lt by lia. by rewrite andb_true_r.
    - rewrite lookup_take_ge by lia. by rewrite andb_false_r. }
  destruct (Z.eqb_spec (n mod 8) 0) as [E|E].
  - apply packed_unique; [by rewrite Ht|done|]. intros i Hi.
    destruct (decide (i < 8 * div_ceil n 8)).
    + rewrite Hbits, Htake by lia. rewrite (proj2 (Z.ltb_lt i n)), andb_true_r; [done|].
      unfold div_ceil in *. zdiv.
    + rewrite data_bit_past, nth_bit_past; [done|..]; unfold div_ceil in *; zdiv.
  - set (f := λ last, Z.land last (shl 8 255 (8 - n mod 8))).
    pose proof (Z.mod_pos_bound n 8 ltac:(lia)) as Hm.
    assert (div_ceil n 8 = 1 + n / 8) as Hc by (unfold div_ceil; zdiv).
    assert (0 <= n / 8) by zdiv.
    assert (update_last f d = alter f (Z.to_nat (n / 8)) d) as ->.
    { unfold update_last. unfold len in Hd. destruct (length d) eqn:El; [lia|]. f_equal. lia. }
    apply packed_unique.
    + rewrite Ht. unfold len in *. by rewrite length_alter.
    + apply Forall_alter; [done|]. intros b _ Hbb. apply land_is_byte; [done|].
      apply Z.mod_pos_bound. by apply Z.pow_pos_nonneg.
    + intros i Hi. rewrite Htake by done.
      destruct (decide (i < 8 * div_ceil n 8)).
      2:{ rewrite data_bit_past, (proj2 (Z.ltb_ge i n)), andb_false_r; [done|zdiv|].
          unfold len in *. rewrite length_alter. lia. }
      rewrite <- Hbits by lia. unfold data_bit, get. destruct (Z.ltb_spec (i / 8) 0); [zdiv|].
      destruct (decide (i / 8 = n / 8)) as [Ei|Ei].
      * rewrite Ei, list_lookup_alter_eq.
        destruct (lookup_lt_is_Some_2 d (Z.to_nat (n / 8))) as [b Hlb]; [unfold len in Hd; lia|].
        rewrite Hlb. simpl. subst f. cbv beta.
        rewrite byte_bit_mask; [|by eapply Forall_lookup_1|done|apply Z.mod_pos_bound; lia].
        f_equal. destruct (Z.ltb_spec i n), (Z.ltb_spec (i mod 8) (n mod 8)); try done; exfalso; zdiv.
      * rewrite list_lookup_alter_ne by zdiv.
        rewrite (proj2 (Z.ltb_lt i n)) by zdiv. by rewrite andb_true_r.
Qed.

Lemma truncate_refs_spec n bs rs :
  0 <= n →
  Builder.truncate_refs n (holding bs rs) =
    if len (refs_slice rs) <? n then (Err NotEnoughRefs, holding bs rs)
    else (Ok tt, holding bs (default RNone (refs_of (take (Z.to_nat n) (refs_slice rs))))).
Proof.
  intros Hn. unfold Builder.truncate_refs. simpl.
  destruct (Z.ltb_spec (len (refs_slice rs)) n); [done|]. unfold holding. do 2 f_equal.
  apply refs_slice_inj. rewrite refs_truncate_slice by done.
  destruct (refs_of_is_Some (take (Z.to_nat n) (refs_slice rs))) as [r Hr].
  { pose proof (len_refs_slice rs). unfold len in *. rewrite length_take. lia. }
  rewrite Hr. symmetry. by apply refs_of_slice.
Qed.

(** ** The cell a builder makes *)

Section build_spec.
Context `{Hasher}.

(** The stored form of a bit string: its packing, completed off a byte boundary. *)
Definition stored_form (bs : list bool) : list Z :=
  if len bs mod 8 =? 0 then packed bs else data_or (len bs) (packed bs).

Lemma stored_form_completed bs : completed (stored_form bs) (len bs).
Proof.
  pose proof (len_nonneg bs). pose proof (len_packed bs) as Hp. unfold div_ceil in Hp.
  unfold stored_form, completed. destruct (Z.eqb_spec (len bs mod 8) 0) as [E|E].
  - repeat split; [apply len_packed|apply packed_bytes|done..].
  - repeat split.
    + rewrite len_data_or. apply len_packed.
    + apply data_or_bytes, packed_bytes.
    + rewrite data_bit_or by zdiv. by rewrite Z.eqb_refl, orb_true_r.
    + intros i Hi. rewrite data_bit_or by zdiv. rewrite data_bit_packed, nth_bit_past by lia.
      by destruct (Z.eqb_spec i (len bs)); [lia|].
Qed.

Lemma stored_form_bits bs : bits_of (stored_form bs) (len bs) = bs.
Proof.
  unfold stored_form. destruct (Z.eqb_spec (len bs mod 8) 0); [apply bits_of_packed|].
  by apply bits_of_completed.
Qed.

Lemma from_parts_summarize data bits rs t mask :
  Cell.from_parts data bits rs t mask =
    let? id := summarize (payload_slice data) bits (Cell.identity <$> refs_slice rs) t mask in
    Ok (MkCell data bits rs t id).
Proof.
  unfold Cell.from_parts. assert (∀ (l1 l2 : list Identity), get_range (l1 ++ l2) 0 (len l1) = Some l1) as Hg.
  { intros l1 l2. unfold get_range. pose proof (len_nonneg l1). pose proof (len_nonneg l2).
    rewrite len_app, !(proj2 (Z.leb_le _ _)) by lia. simpl. rewrite drop_0, Z.sub_0_r.
    f_equal. apply take_app_length'. unfold len. lia. }
  pose proof (Hg (Cell.identity <$> refs_slice rs)
    (drop (length (refs_slice rs)) (replicate (Z.to_nat MAX_REFS) NONE))) as E.
  rewrite len_fmap in E. by rewrite E.
Qed.

Lemma finish_spec bs rs t mask :
  len bs <= MAX_BITS →
  ∃ p, payload_slice p = stored_form bs ∧
    Builder.finish (holding bs rs) t mask =
      let? id := summarize (stored_form bs) (len bs) (Cell.identity <$> refs_slice rs) t mask in
      Ok (MkCell p (len bs) rs t id).
Proof.
  intros Hl. pose proof (len_nonneg bs).
  assert ((if len bs mod 8 =? 0 then packed bs
           else update_last (λ last, Z.lor last (Z.shiftl 1 (7 - len bs mod 8))) (packed bs))
          = stored_form bs) as Es.
  { unfold stored_form. destruct (Z.eqb_spec (len bs mod 8) 0); [done|].
    apply update_last_or; [|done..]. rewrite len_packed. unfold div_ceil. zdiv. }
  destruct (payload_owned (stored_form bs)) as (p & Ho & Hp).
  { destruct (stored_form_completed bs) as [-> _]. unfold div_ceil, MAX_BITS, U32_MAX in *. zdiv. }
  exists p. split; [done|]. unfold Builder.finish. simpl. rewrite Es, Ho. simpl.
  by rewrite from_parts_summarize, Hp.
Qed.

Lemma fold_mask_ok (cs : list Identity) :
  Forall (λ c, mask_ok (id_mask c)) cs →
  mask_ok (fold_left (λ acc child, Z.lor acc (id_mask child)) cs 0).
Proof.
  assert (∀ acc, mask_ok acc → Forall (λ c, mask_ok (id_mask c)) cs →
    mask_ok (fold_left (λ acc child, Z.lor acc (id_mask child)) cs acc)) as Hgen.
  { induction cs as [|c cs IH]; intros acc Ha Hcs; [done|]. apply Forall_cons in Hcs as [Hc Hcs].
    simpl. apply IH; [|done]. revert acc Ha. revert Hc. generalize (id_mask c). intros m Hm acc Ha.
    case_mask m; case_mask acc; by vm_compute. }
  by apply Hgen.
Qed.

(** Finishing a cell of any kind but a pruned branch succeeds with the mask its
    children imply, and makes a well-formed cell where the kind's own rules hold. *)
Lemma finish_other bs rs t mask :
  len bs <= MAX_BITS → t ≠ PrunedBranch → mask_ok mask →
  implied_mask t (fold_left (λ acc child, Z.lor acc (id_mask child))
                    (Cell.identity <$> refs_slice rs) 0) mask = mask →
  ∃ c, Builder.finish (holding bs rs) t mask = Ok c ∧ Cell.bits c = bs ∧ Cell.bit_len c = len bs ∧
    Cell.data c = stored_form bs ∧ inner_refs c = rs ∧ Cell.cell_type c = t ∧
    Cell.level_mask c = mask ∧ (Forall cell_wf (refs_slice rs) → kind_ok c → cell_wf c).
Proof.
  intros Hl Ht Hmask Himp. destruct (finish_spec bs rs t mask Hl) as (p & Hp & ->).
  set (id := mk_identity mask (digest <$> level_reprs (stored_form bs) (len bs)
               (Cell.identity <$> refs_slice rs) t mask (significant mask) None)).
  assert (summarize (stored_form bs) (len bs) (Cell.identity <$> refs_slice rs) t mask = Ok id) as Es.
  { unfold summarize. rewrite Himp, Z.eqb_refl. by apply compute_other. }
  assert (id_mask id = mask) as Hid.
  { subst id. clear -Hmask. case_mask mask; reflexivity. }
  rewrite Es. cbn [res_bind]. exists (MkCell p (len bs) rs t id). split; [done|]. split.
  { unfold Cell.bits, Cell.data, Cell.bit_len. simpl. rewrite Hp. apply stored_form_bits. }
  do 5 (split; [done|]). intros Hwf Hk. constructor; [..|exact Hk| |exact Hwf];
    unfold Cell.data, Cell.bit_len, Cell.level_mask, Cell.refs, Cell.cell_type, Cell.identity;
    simpl; rewrite ?Hp, ?Hid; [|apply stored_form_completed|done|exact Es].
  pose proof (len_nonneg bs). lia.
Qed.

Lemma fold_cell_masks (l : list Cell) acc :
  fold_left (λ mask child, Z.lor mask (Cell.level_mask child)) l acc =
  fold_left (λ acc child, Z.lor acc (id_mask child)) (Cell.identity <$> l) acc.
Proof. revert acc. induction l as [|c l IH]; intros acc; [done|]. apply IH. Qed.

(** A build never fails, and the cell it makes holds the bits and references
    stored, in order. *)
Lemma wf_masks l : Forall cell_wf l → Forall (λ c, mask_ok (Cell.level_mask c)) l.
Proof. intros Hf. eapply Forall_impl; [exact Hf|]. by intros ? []. Qed.

Lemma build_spec bs rs :
  len bs <= MAX_BITS → Forall (λ c, mask_ok (Cell.level_mask c)) (refs_slice rs) →
  ∃ c, Builder.build (holding bs rs) = Ok c ∧ Cell.bits c = bs ∧ Cell.bit_len c = len bs ∧
    Cell.data c = stored_form bs ∧
    inner_refs c = rs ∧ Cell.cell_type c = Ordinary ∧ (Forall cell_wf (refs_slice rs) → cell_wf c).
Proof.
  intros Hl Hm. unfold Builder.build. cbn [b_refs holding]. rewrite fold_cell_masks.
  set (mask := fold_left _ _ _).
  assert (mask_ok mask) as Hmask by by apply fold_mask_ok, Forall_fmap.
  destruct (finish_other bs rs Ordinary mask) as (c & Hc & Hb & Hn & Hd & Hr & Ht & _ & Hwf); [done..|].
  exists c. do 6 (split; [done|]). intros Hrefs. apply Hwf; [done|]. unfold kind_ok. by rewrite Ht.
Qed.
End build_spec.
