(* ===== verification/Fields.v ===== *)
(** The contract between the writer and the reader of a cell: a [field] pairs a
    [Builder] store with the [Slice] load meant to read it back, and
    [LawfulField] states what one promises to the other. The typed pairs of
    core/src/cell/builder.rs and core/src/cell/slice.rs are its instances, and
    whole-cell round trips are proved against the interface. *)

From S2P Require Import Prelude Errors Bits CellData CellHash CellModel CellSlice CellBuilder.
From stdpp Require Import base list list_numbers numbers strings.
From Stdlib Require Import ZArith Lia.

Local Open Scope Z_scope.

#[local] Arguments uint_bits : simpl never.

Record field (A : Type) : Type := MkField {
  f_store : A → stm Builder CellError unit;
  f_load : stm Slice CellError A;
  f_bits : A → list bool;
  f_ok : A → Prop;
}.
Arguments f_store {A} _ _.
Arguments f_load {A} _.
Arguments f_bits {A} _ _.
Arguments f_ok {A} _ _.

(** The store writes the encoding; the load takes it off the front of a cursor. *)
Class LawfulField {A} (f : field A) : Prop := {
  f_writes a : f_ok f a → writes (f_store f a) (f_bits f a);
  f_load_ok a s :
    f_ok f a → ahead s (f_bits f a) → f_load f s = (Ok a, step_bits (len (f_bits f a)) s);
}.

(** A store that is one checked append obeys the writer's half. *)
Lemma put_lawful {A} (f : field A) :
  (∀ a bs rs, f_ok f a → f_store f a (holding bs rs) = put (f_bits f a) bs rs) →
  (∀ a s, f_ok f a → ahead s (f_bits f a) → f_load f s = (Ok a, step_bits (len (f_bits f a)) s)) →
  LawfulField f.
Proof. intros Hs Hl. split; [|done]. intros a Ha. apply writes_put. auto. Qed.

(** ** The typed pairs *)

Definition bit_field : field bool := MkField _ Builder.store_bit Slice.load_bit (λ b, [b]) (λ _, True).

Definition uint_field (n : Z) : field Z :=
  MkField _ (λ v, Builder.store_uint v n) (Slice.load_uint n)
    (uint_bits (Z.to_nat n)) (λ v, 0 <= n <= 64 ∧ 0 <= v < 2 ^ n).

Definition uint128_field (n : Z) : field Z :=
  MkField _ (λ v, Builder.store_uint128 v n) (Slice.load_uint128 n)
    (uint_bits (Z.to_nat n)) (λ v, 0 <= n <= 128 ∧ 0 <= v < 2 ^ n).

Definition int_field (n : Z) : field Z :=
  MkField _ (λ v, Builder.store_int v n) (Slice.load_int n)
    (uint_bits (Z.to_nat n)) (λ v, 0 < n <= 64 ∧ - 2 ^ (n - 1) <= v < 2 ^ (n - 1)).

Definition int128_field (n : Z) : field Z :=
  MkField _ (λ v, Builder.store_int128 v n) (Slice.load_int128 n)
    (uint_bits (Z.to_nat n)) (λ v, 0 < n <= 128 ∧ - 2 ^ (n - 1) <= v < 2 ^ (n - 1)).

Definition u8_field : field Z :=
  MkField _ Builder.store_u8 Slice.load_u8 (uint_bits 8) (λ v, 0 <= v < 2 ^ 8).
Definition u16_field : field Z :=
  MkField _ Builder.store_u16 Slice.load_u16 (uint_bits 16) (λ v, 0 <= v < 2 ^ 16).
Definition u32_field : field Z :=
  MkField _ Builder.store_u32 Slice.load_u32 (uint_bits 32) (λ v, 0 <= v < 2 ^ 32).
Definition i32_field : field Z :=
  MkField _ Builder.store_i32 Slice.load_i32 (uint_bits 32) (λ v, - 2 ^ 31 <= v < 2 ^ 31).

Definition var_uint_field (max : Z) : field Z :=
  MkField _ (λ v, Builder.store_var_uint v max) (Slice.load_var_uint max)
    (λ v, var_bits (var_len_bits max) (var_uint_len v) v)
    (λ v, 2 <= max < 2 ^ 32 ∧ 0 <= v < 2 ^ 128 ∧ var_uint_len v < max).

Definition var_int_field (max : Z) : field Z :=
  MkField _ (λ v, Builder.store_var_int v max) (Slice.load_var_int max)
    (λ v, var_bits (var_len_bits max) (signed_byte_len v) v)
    (λ v, 2 <= max < 2 ^ 32 ∧ - 2 ^ 127 <= v < 2 ^ 127 ∧ signed_byte_len v < max).

Definition coins_field : field Z :=
  MkField _ Builder.store_coins Slice.load_coins
    (λ v, var_bits (var_len_bits 16) (var_uint_len v) v) (λ v, 0 <= v < 2 ^ 120).

Definition bits_field (n : Z) : field (list bool) :=
  MkField _ Builder.store_bits (Slice.load_bits n) id (λ l, len l = n ∧ n <= U16_MAX).

Definition bytes_field (n : Z) : field (list Z) :=
  MkField _ Builder.store_bytes (Slice.load_bytes n) bytes_bits
    (λ l, len l = n ∧ Forall is_byte l ∧ n * 8 <= USIZE_MAX).

Definition address_bits (a : MsgAddress) : list bool :=
  match a with
  | AddrNone => uint_bits 2 0
  | AddrStd workchain account => uint_bits 2 2 ++ [false] ++ uint_bits 8 workchain ++ bytes_bits account
  end.

Definition address_field : field MsgAddress :=
  MkField _ Builder.store_address Slice.load_address address_bits
    (λ a, match a with
          | AddrNone => True
          | AddrStd workchain account =>
              - 2 ^ 7 <= workchain < 2 ^ 7 ∧ len account = 32 ∧ Forall is_byte account
          end).

#[export] Instance bit_lawful : LawfulField bit_field.
Proof.
  apply put_lawful; simpl; intros; [apply store_bit_spec|].
  rewrite load_bit_ok with (b := a) by done. done.
Qed.

#[export] Instance uint_lawful n : LawfulField (uint_field n).
Proof.
  apply put_lawful; simpl; intros a.
  - intros bs rs [Hn Ha]. by apply store_uint_fits.
  - intros s [Hn Ha] Hh. rewrite len_uint_bits, Z2Nat.id by lia. by apply load_uint_value.
Qed.

#[export] Instance uint128_lawful n : LawfulField (uint128_field n).
Proof.
  apply put_lawful; simpl; intros a.
  - intros bs rs [Hn Ha]. rewrite store_uint128_spec by lia. destruct (Z.ltb_spec 128 n); [lia|].
    by rewrite (proj2 (Z.leb_gt _ _)), andb_false_r by lia.
  - intros s [Hn Ha] Hh. rewrite len_uint_bits, Z2Nat.id by lia. by apply load_uint128_value.
Qed.

#[export] Instance int_lawful n : LawfulField (int_field n).
Proof.
  apply put_lawful; simpl; intros a.
  - intros bs rs [Hn Ha]. by apply store_int_fits.
  - intros s [Hn Ha] Hh. rewrite len_uint_bits, Z2Nat.id by lia. by apply load_int_value.
Qed.

#[export] Instance int128_lawful n : LawfulField (int128_field n).
Proof.
  apply put_lawful; simpl; intros a.
  - intros bs rs [Hn Ha]. rewrite store_int128_spec by lia. destruct (Z.ltb_spec 128 n); [lia|].
    by rewrite fits_signed_true by lia.
  - intros s [Hn Ha] Hh. rewrite len_uint_bits, Z2Nat.id by lia. by apply load_int128_value.
Qed.

#[export] Instance u8_lawful : LawfulField u8_field.
Proof.
  apply put_lawful; simpl; intros a.
  - intros bs rs Ha. by apply (store_uint_fits 8).
  - intros s Ha Hh. rewrite len_uint_bits. by apply load_u8_value.
Qed.

#[export] Instance u16_lawful : LawfulField u16_field.
Proof.
  apply put_lawful; simpl; intros a.
  - intros bs rs Ha. by apply (store_uint_fits 16).
  - intros s Ha Hh. rewrite len_uint_bits. by apply load_u16_value.
Qed.

#[export] Instance u32_lawful : LawfulField u32_field.
Proof.
  apply put_lawful; simpl; intros a.
  - intros bs rs Ha. by apply (store_uint_fits 32).
  - intros s Ha Hh. rewrite len_uint_bits. by apply load_u32_value.
Qed.

#[export] Instance i32_lawful : LawfulField i32_field.
Proof.
  apply put_lawful; simpl; intros a.
  - intros bs rs Ha. by apply (store_int_fits 32).
  - intros s Ha Hh. rewrite len_uint_bits. by apply load_i32_value.
Qed.

Lemma len_var_bits max bytes v :
  2 <= max < 2 ^ 32 → 0 <= bytes → len (var_bits (var_len_bits max) bytes v) = var_len_bits max + bytes * 8.
Proof.
  intros Hm Hb. destruct (var_len_bits_spec max Hm) as [Hl _]. unfold var_bits.
  rewrite len_app, !len_uint_bits, !Z2Nat.id by lia. done.
Qed.

(** A variable-width integer reads back with the width it was written in. *)
Lemma read_var_bits s max bytes v :
  2 <= max < 2 ^ 32 → 0 <= bytes <= 16 → bytes < max → 0 <= v < 2 ^ (bytes * 8) →
  ahead s (var_bits (var_len_bits max) bytes v) →
  Slice.read_var max s = (Ok (v, bytes * 8), step_bits (var_len_bits max + bytes * 8) s).
Proof.
  intros Hm Hb Hbm Hv Ha. destruct (var_len_bits_spec max Hm) as [Hl Hlm].
  apply read_var_ok; try done. fold (var_len_bits max). lia.
Qed.

#[export] Instance var_uint_lawful max : LawfulField (var_uint_field max).
Proof.
  apply put_lawful; simpl; intros v.
  - intros bs rs (Hm & Hv & Hl). rewrite store_var_uint_spec by lia.
    destruct (Z.ltb_spec max 2); [lia|]. by destruct (Z.leb_spec max (var_uint_len v)); [lia|].
  - intros s (Hm & Hv & Hl) Hh. destruct (var_uint_len_spec v Hv) as (Hb & Hvb & _).
    rewrite Z.mul_comm in Hvb. rewrite len_var_bits by lia.
    unfold Slice.load_var_uint. erewrite st_bind_ok by (apply read_var_bits; [..|exact Hh]; lia). done.
Qed.

#[export] Instance coins_lawful : LawfulField coins_field.
Proof.
  assert (∀ v, 0 <= v < 2 ^ 120 → 0 <= v < 2 ^ 128 ∧ var_uint_len v < 16) as Hc.
  { intros v Hv. assert (0 <= v < 2 ^ 128) as Hv' by lia. split; [done|].
    destruct (var_uint_len_spec v Hv') as (Hb & _ & Hmin).
    destruct (Z.eq_dec v 0) as [->|]; [done|]. destruct Hmin as [H1 H2]; [lia|].
    assert (8 * (var_uint_len v - 1) < 120); [|lia].
    apply (Z.pow_lt_mono_r_iff 2); lia. }
  pose proof (var_uint_lawful 16) as [H1 H2].
  split; simpl in *.
  - intros a [Ha Hl]%Hc. apply H1. lia.
  - intros a s [Ha Hl]%Hc. apply H2. lia.
Qed.

#[export] Instance var_int_lawful max : LawfulField (var_int_field max).
Proof.
  apply put_lawful; simpl; intros v.
  - intros bs rs (Hm & Hv & Hl). rewrite store_var_int_spec by lia.
    destruct (Z.ltb_spec max 2); [lia|]. by destruct (Z.leb_spec max (signed_byte_len v)); [lia|].
  - intros s (Hm & Hv & Hl) Hh. destruct (signed_byte_len_spec v Hv) as (Hb & _ & Hr).
    set (n := signed_byte_len v) in *. rewrite len_var_bits by lia.
    assert (0 < 2 ^ (n * 8)) by (apply Z.pow_pos_nonneg; lia).
    unfold Slice.load_var_int. erewrite st_bind_ok.
    2:{ apply (read_var_bits s max n (v mod 2 ^ (n * 8))); [lia..| |].
        - apply Z.mod_pos_bound; lia.
        - unfold var_bits in *. by rewrite uint_bits_mod by lia. }
    unfold st_ret. simpl. do 2 f_equal. destruct (Z.eq_dec v 0) as [->|Hz].
    + done.
    + apply sign_extend_128_value; lia.
Qed.

#[export] Instance bits_lawful n : LawfulField (bits_field n).
Proof.
  apply put_lawful; simpl; intros l.
  - intros bs rs [Hl Hn]. rewrite store_bits_spec by lia. done.
  - intros s [<- Hn] Hh. by apply load_bits_ok.
Qed.

#[export] Instance bytes_lawful n : LawfulField (bytes_field n).
Proof.
  apply put_lawful; simpl; intros l.
  - intros bs rs (Hl & Hb & Hn). apply store_bytes_spec; [done|lia].
  - intros s (<- & Hb & Hn) Hh. rewrite len_bytes_bits. by apply (load_bytes_into_ok s l []).
Qed.

(** ** Addresses *)

Lemma len_address_std w acc : len acc = 32 → len (address_bits (AddrStd w acc)) = 267.
Proof.
  intros Hl. unfold address_bits. rewrite !len_app, !len_uint_bits, len_bytes_bits, Hl. done.
Qed.

Lemma load_address_std s w acc :
  - 2 ^ 7 <= w < 2 ^ 7 → Forall is_byte acc → len acc = 32 →
  ahead s (address_bits (AddrStd w acc)) →
  Slice.load_address s = (Ok (AddrStd w acc), step_bits 267 s).
Proof.
  intros Hw Hb Hl Ha. unfold address_bits in Ha. unfold Slice.load_address.
  apply ahead_app in Ha as [A1 Ha]. apply ahead_app in Ha as [A2 Ha]. apply ahead_app in Ha as [A3 Ha].
  rewrite len_uint_bits in *. rewrite len_uint_bits in Ha. change (len [false]) with 1 in *.
  rewrite !step_bits_step in *.
  erewrite st_bind_ok by (apply (load_uint_value s 2 2); [lia|lia|exact A1]). simpl.
  erewrite st_bind_ok by (apply (load_bit_ok _ false); exact A2). rewrite step_bits_step.
  erewrite st_bind_ok by (apply (load_int_value _ 8 w); [lia|lia|exact A3]). rewrite step_bits_step.
  erewrite st_bind_ok.
  2:{ rewrite <- Hl. apply (load_bytes_into_ok _ acc []); [exact Ha|done|].
      unfold USIZE_MAX, U64_MAX. lia. }
  rewrite app_nil_l, Hl. simpl. rewrite step_bits_step.
  rewrite swrap_small by lia. done.
Qed.

#[export] Instance address_lawful : LawfulField address_field.
Proof.
  split; simpl; intros [|w acc] *; cbn [Builder.store_address address_bits].
  - intros _. by apply writes_uint.
  - intros (Hw & Hl & Hb).
    apply writes_seq; [by apply writes_uint|]. apply writes_seq; [apply writes_bit|].
    apply writes_seq; [by apply writes_int|]. apply writes_bytes; [done|by rewrite Hl].
  - intros _ Ha. unfold Slice.load_address.
    by erewrite st_bind_ok by (apply (load_uint_value _ 2 0); [lia|lia|exact Ha]).
  - intros (Hw & Hl & Hb) Ha. change (step_bits (len _)) with (step_bits (len (address_bits (AddrStd w acc)))).
    rewrite len_address_std by done. by apply load_address_std.
Qed.

(** ** Bits and references together *)

(** A program that appends bits and references where there is room for both, and fails
    where there is not. *)
Definition emits (m : stm Builder CellError unit) (xs : list bool) (cs : list Cell) : Prop :=
  ∀ bs rs, len bs <= MAX_BITS →
    if bool_decide (len bs + len xs <= MAX_BITS ∧ len (refs_slice rs) + len cs <= MAX_REFS)
    then m (holding bs rs) = (Ok tt, holding (bs ++ xs) (refs_app rs cs))
    else is_ok (fst (m (holding bs rs))) = false.

Lemma emits_writes m xs : writes m xs → emits m xs [].
Proof.
  intros Hm bs rs Hl. specialize (Hm bs rs Hl). pose proof (len_refs_slice rs). change (len (A:=Cell) []) with 0.
  case_bool_decide; destruct (Z.ltb_spec (MAX_BITS - len bs) (len xs)); try lia; [|done]. by rewrite refs_app_nil.
Qed.

Lemma emits_seq m k xs cs ys ds : emits m xs cs → emits k ys ds → emits (run! m; k) (xs ++ ys) (cs ++ ds).
Proof.
  intros Hm Hk bs rs Hl. specialize (Hm bs rs Hl). pose proof (len_nonneg ys). pose proof (len_nonneg ds). rewrite !len_app.
  destruct (decide (len bs + len xs <= MAX_BITS ∧ len (refs_slice rs) + len cs <= MAX_REFS)) as [Hfit|Hfit].
  - rewrite bool_decide_true in Hm by done. rewrite (st_bind_ok _ _ _ _ _ Hm). specialize (Hk (bs ++ xs) (refs_app rs cs)).
    rewrite len_app, refs_app_slice, len_app, <- app_assoc in Hk by lia. specialize (Hk ltac:(lia)).
    destruct (decide (len bs + (len xs + len ys) <= MAX_BITS ∧ len (refs_slice rs) + (len cs + len ds) <= MAX_REFS)).
    + rewrite bool_decide_true in Hk by lia. rewrite bool_decide_true by lia. by rewrite refs_app_app in Hk by lia.
    + rewrite bool_decide_false in Hk by lia. by rewrite bool_decide_false by lia.
  - rewrite bool_decide_false in Hm by done. rewrite bool_decide_false by lia.
    unfold st_bind. by destruct (m (holding bs rs)) as [[]].
Qed.

Lemma emits_ref c : emits (Builder.store_ref c) [] [c].
Proof.
  intros bs rs Hl. rewrite store_ref_spec, app_nil_r. change (len (A:=bool) []) with 0. change (len [c]) with 1.
  case_bool_decide; destruct (Z.leb_spec MAX_REFS (len (refs_slice rs))); done || lia.
Qed.

Lemma emits_maybe_ref oc : emits (Builder.store_maybe_ref oc) [bool_decide (is_Some oc)] (option_list oc).
Proof.
  intros bs rs Hl. rewrite store_maybe_ref_spec. pose proof (len_refs_slice rs). destruct oc as [c|].
  - rewrite (bool_decide_true (is_Some (Some c))) by done. change (len [true]) with 1. change (len (option_list (Some c))) with 1.
    case_bool_decide; destruct (Z.leb_spec MAX_REFS (len (refs_slice rs))); try lia; try done.
    + rewrite put_ok by (change (len [true]) with 1; lia). by rewrite (proj2 (Z.ltb_lt _ _)) by lia.
    + by rewrite put_err by (change (len [true]) with 1; lia).
  - rewrite (bool_decide_false (is_Some (A:=Cell) None)) by by intros []. change (len [false]) with 1. change (len (option_list (A:=Cell) None)) with 0.
    case_bool_decide; [rewrite put_ok by (change (len [false]) with 1; lia); by rewrite <- (refs_app_nil rs) at 1|].
    by rewrite put_err by (change (len [false]) with 1; lia).
Qed.

(** The cursor has a run of bits and a run of references ahead of it. *)
Definition holds (s : Slice) (xs : list bool) (cs : list Cell) : Prop :=
  ahead s xs ∧ ∃ rest, slice_refs s = cs ++ rest.

(** The cursor past them. *)
Definition past (s : Slice) (xs : list bool) (cs : list Cell) : Slice := step_refs (len cs) (step_bits (len xs) s).

Lemma past_bits s xs : past s xs [] = step_bits (len xs) s.
Proof. unfold past, step_refs, Slice.set_ref. change (len (A:=Cell) []) with 0. rewrite Z.add_0_r. by destruct s. Qed.
(** ** Whole cells *)

(** A value as a program writes it: which store, with what. *)
Inductive Stored : Type :=
| StBit (bit : bool)
| StUint (value bits : Z)
| StUint128 (value bits : Z)
| StInt (value bits : Z)
| StInt128 (value bits : Z)
| StU8 (value : Z)
| StU16 (value : Z)
| StU32 (value : Z)
| StI32 (value : Z)
| StVarUint (value max : Z)
| StVarInt (value max : Z)
| StCoins (nanotons : Z)
| StBits (bits : list bool)
| StBytes (bytes : list Z)
| StAddress (address : MsgAddress)
| StRef (cell : Cell)
| StMaybeRef (cell : option Cell).

Definition store_one (x : Stored) : stm Builder CellError unit :=
  match x with
  | StBit bit => Builder.store_bit bit
  | StUint value bits => Builder.store_uint value bits
  | StUint128 value bits => Builder.store_uint128 value bits
  | StInt value bits => Builder.store_int value bits
  | StInt128 value bits => Builder.store_int128 value bits
  | StU8 value => Builder.store_u8 value
  | StU16 value => Builder.store_u16 value
  | StU32 value => Builder.store_u32 value
  | StI32 value => Builder.store_i32 value
  | StVarUint value max => Builder.store_var_uint value max
  | StVarInt value max => Builder.store_var_int value max
  | StCoins nanotons => Builder.store_coins nanotons
  | StBits bits => Builder.store_bits bits
  | StBytes bytes => Builder.store_bytes bytes
  | StAddress address => Builder.store_address address
  | StRef cell => Builder.store_ref cell
  | StMaybeRef cell => Builder.store_maybe_ref cell
  end.

(** The load that goes with a store, of the same width; what it gives, as the store that
    would write it. Of [x] it uses the kind and the width alone. *)
Definition load_one (x : Stored) : stm Slice CellError Stored :=
  match x with
  | StBit _ => do! bit <- Slice.load_bit; st_ret (StBit bit)
  | StUint _ bits => do! value <- Slice.load_uint bits; st_ret (StUint value bits)
  | StUint128 _ bits => do! value <- Slice.load_uint128 bits; st_ret (StUint128 value bits)
  | StInt _ bits => do! value <- Slice.load_int bits; st_ret (StInt value bits)
  | StInt128 _ bits => do! value <- Slice.load_int128 bits; st_ret (StInt128 value bits)
  | StU8 _ => do! value <- Slice.load_u8; st_ret (StU8 value)
  | StU16 _ => do! value <- Slice.load_u16; st_ret (StU16 value)
  | StU32 _ => do! value <- Slice.load_u32; st_ret (StU32 value)
  | StI32 _ => do! value <- Slice.load_i32; st_ret (StI32 value)
  | StVarUint _ max => do! value <- Slice.load_var_uint max; st_ret (StVarUint value max)
  | StVarInt _ max => do! value <- Slice.load_var_int max; st_ret (StVarInt value max)
  | StCoins _ => do! nanotons <- Slice.load_coins; st_ret (StCoins nanotons)
  | StBits bits => do! bits <- Slice.load_bits (len bits); st_ret (StBits bits)
  | StBytes bytes => do! bytes <- Slice.load_bytes (len bytes); st_ret (StBytes bytes)
  | StAddress _ => do! address <- Slice.load_address; st_ret (StAddress address)
  | StRef _ => do! cell <- Slice.load_ref; st_ret (StRef cell)
  | StMaybeRef _ => do! cell <- Slice.load_maybe_ref; st_ret (StMaybeRef cell)
  end.

Fixpoint load_all (l : list Stored) : stm Slice CellError (list Stored) :=
  match l with
  | [] => st_ret []
  | x :: l => do! y <- load_one x; do! ys <- load_all l; st_ret (y :: ys)
  end.

(** What a value is written as, and what can be. *)
Definition stored_bits (x : Stored) : list bool :=
  match x with
  | StBit bit => [bit]
  | StUint value bits | StUint128 value bits | StInt value bits | StInt128 value bits => uint_bits (Z.to_nat bits) value
  | StU8 value => uint_bits 8 value
  | StU16 value => uint_bits 16 value
  | StU32 value | StI32 value => uint_bits 32 value
  | StVarUint value max => var_bits (var_len_bits max) (var_uint_len value) value
  | StVarInt value max => var_bits (var_len_bits max) (signed_byte_len value) value
  | StCoins nanotons => var_bits (var_len_bits 16) (var_uint_len nanotons) nanotons
  | StBits bits => bits
  | StBytes bytes => bytes_bits bytes
  | StAddress address => address_bits address
  | StRef _ => []
  | StMaybeRef cell => [bool_decide (is_Some cell)]
  end.

Definition stored_refs (x : Stored) : list Cell :=
  match x with StRef cell => [cell] | StMaybeRef cell => option_list cell | _ => [] end.

Definition in_range (x : Stored) : Prop :=
  match x with
  | StBit _ => True
  | StUint value bits => 0 <= bits <= 64 ∧ 0 <= value < 2 ^ bits
  | StUint128 value bits => 0 <= bits <= 128 ∧ 0 <= value < 2 ^ bits
  | StInt value bits => 0 < bits <= 64 ∧ - 2 ^ (bits - 1) <= value < 2 ^ (bits - 1)
  | StInt128 value bits => 0 < bits <= 128 ∧ - 2 ^ (bits - 1) <= value < 2 ^ (bits - 1)
  | StU8 value => 0 <= value < 2 ^ 8
  | StU16 value => 0 <= value < 2 ^ 16
  | StU32 value => 0 <= value < 2 ^ 32
  | StI32 value => - 2 ^ 31 <= value < 2 ^ 31
  | StVarUint value max => 2 <= max < 2 ^ 32 ∧ 0 <= value < 2 ^ 128 ∧ var_uint_len value < max
  | StVarInt value max => 2 <= max < 2 ^ 32 ∧ - 2 ^ 127 <= value < 2 ^ 127 ∧ signed_byte_len value < max
  | StCoins nanotons => 0 <= nanotons < 2 ^ 120
  | StBits bits => len bits <= U16_MAX
  | StBytes bytes => Forall is_byte bytes ∧ len bytes * 8 <= USIZE_MAX
  | StAddress AddrNone => True
  | StAddress (AddrStd workchain account) => - 2 ^ 7 <= workchain < 2 ^ 7 ∧ len account = 32 ∧ Forall is_byte account
  | StRef _ | StMaybeRef _ => True
  end.

(** A field's laws, for a store of one kind and the load that goes with it. *)
Lemma field_one {A} (f : field A) `{!LawfulField f} (kind : A → Stored) a :
  f_ok f a →
  emits (f_store f a) (f_bits f a) [] ∧
  ∀ s, ahead s (f_bits f a) → (do! v <- f_load f; st_ret (kind v)) s = (Ok (kind a), step_bits (len (f_bits f a)) s).
Proof.
  intros Ha. split; [by apply emits_writes, f_writes|]. intros s Hs. by erewrite st_bind_ok by by apply f_load_ok.
Qed.

Lemma load_ref_ok s c rest : slice_wf s → slice_refs s = c :: rest → Slice.load_ref s = (Ok c, step_refs 1 s).
Proof.
  intros Hwf E. pose proof (len_slice_refs s Hwf) as Hl. rewrite E, len_cons in Hl. pose proof (len_nonneg rest).
  destruct (slice_refs_cons s Hwf ltac:(lia)) as (c' & Hc & E'). rewrite E in E'. by injection E' as <- _.
Qed.

(** One store and its load. *)
Lemma stored_one x :
  in_range x →
  emits (store_one x) (stored_bits x) (stored_refs x) ∧
  ∀ s, holds s (stored_bits x) (stored_refs x) → load_one x s = (Ok x, past s (stored_bits x) (stored_refs x)).
Proof.
  intros Hx.
  assert (∀ A (f : field A) (kind : A → Stored) a, LawfulField f → f_ok f a → x = kind a →
    store_one x = f_store f a → load_one x = (do! v <- f_load f; st_ret (kind v)) →
    stored_bits x = f_bits f a → stored_refs x = [] →
    emits (store_one x) (stored_bits x) (stored_refs x) ∧
    ∀ s, holds s (stored_bits x) (stored_refs x) → load_one x s = (Ok x, past s (stored_bits x) (stored_refs x))) as Hf.
  { intros A f kind a Hlaw Ha Ek -> -> -> ->. destruct (field_one f kind a Ha) as [Hs Hl]. split; [done|].
    intros s [Hh _]. by rewrite past_bits, Ek, Hl. }
  destruct x; cbn [in_range] in Hx.
  - by apply (Hf _ bit_field StBit bit _).
  - by apply (Hf _ (uint_field bits) (λ v, StUint v bits) value _).
  - by apply (Hf _ (uint128_field bits) (λ v, StUint128 v bits) value _).
  - by apply (Hf _ (int_field bits) (λ v, StInt v bits) value _).
  - by apply (Hf _ (int128_field bits) (λ v, StInt128 v bits) value _).
  - by apply (Hf _ u8_field StU8 value _).
  - by apply (Hf _ u16_field StU16 value _).
  - by apply (Hf _ u32_field StU32 value _).
  - by apply (Hf _ i32_field StI32 value _).
  - by apply (Hf _ (var_uint_field max) (λ v, StVarUint v max) value _).
  - by apply (Hf _ (var_int_field max) (λ v, StVarInt v max) value _).
  - by apply (Hf _ coins_field StCoins nanotons _).
  - by apply (Hf _ (bits_field (len bits)) StBits bits _).
  - by apply (Hf _ (bytes_field (len bytes)) StBytes bytes _).
  - apply (Hf _ address_field StAddress address _); [|done..]. by destruct address.
  - clear Hf. split; [apply emits_ref|]. intros s [[Hwf _] [rest E]]. cbn [stored_refs stored_bits load_one] in *.
    erewrite st_bind_ok by by eapply load_ref_ok. unfold past. change (len (A:=bool) []) with 0. by rewrite step_bits_0.
  - clear Hf. split; [apply emits_maybe_ref|]. intros s [Ha [rest E]]. cbn [stored_refs stored_bits load_one] in *.
    unfold Slice.load_maybe_ref. pose proof (load_bit_ok s _ Ha) as Hb. apply ahead_remaining in Ha as Hr. destruct Ha as [Hwf _].
    destruct cell as [c|].
    + rewrite (bool_decide_true (is_Some (Some c))) in * by done. unfold st_bind. rewrite Hb.
      rewrite (load_ref_ok _ c rest) by (done || by apply step_bits_wf). done.
    + rewrite (bool_decide_false (is_Some (A:=Cell) None)) in * by by intros []. unfold st_bind. rewrite Hb.
      unfold past. change (len (option_list (A:=Cell) None)) with 0. by rewrite step_refs_0.
Qed.

Definition all_bits (l : list Stored) : list bool := concat (stored_bits <$> l).
Definition all_refs (l : list Stored) : list Cell := concat (stored_refs <$> l).

Lemma store_all l : Forall in_range l → emits (st_for l store_one) (all_bits l) (all_refs l).
Proof.
  induction 1 as [|x l Hx _ IH]; [apply (emits_writes _ []); intros bs rs Hl|].
  - change (len (A:=bool) []) with 0. rewrite (proj2 (Z.ltb_ge _ _)) by lia. by rewrite app_nil_r.
  - cbn [st_for]. apply emits_seq; [by apply stored_one|done].
Qed.

Lemma holds_app s xs cs ys ds : holds s (xs ++ ys) (cs ++ ds) → holds s xs cs ∧ holds (past s xs cs) ys ds.
Proof.
  intros [Ha [rest E]]. apply ahead_app in Ha as [H1 H2]. rewrite <- app_assoc in E. split; [split; [done|by eexists]|].
  pose proof H1 as [Hwf _]. pose proof (len_slice_refs s Hwf) as Hl. rewrite E, !len_app in Hl.
  pose proof (len_nonneg cs). pose proof (len_nonneg ds). pose proof (len_nonneg rest). destruct H2 as [Hwf2 [rest2 E2]].
  split; [split; [apply step_refs_wf; [done|split; [lia|]]|exists rest2; unfold past; by rewrite step_refs_bits]|].
  - change (Slice.remaining_refs (step_bits (len xs) s)) with (Slice.remaining_refs s). lia.
  - exists rest. unfold past, slice_refs, step_refs, Slice.remaining_refs in *. cbn in *.
    assert (0 <= s_next_ref s) by apply Hwf.
    replace (Z.to_nat (s_next_ref s + len cs)) with (Z.to_nat (s_next_ref s) + length cs)%nat by (unfold len; lia).
    rewrite <- drop_drop.
    replace (Z.to_nat (s_end_ref s - (s_next_ref s + len cs))) with (Z.to_nat (s_end_ref s - s_next_ref s) - length cs)%nat by (unfold len; lia).
    rewrite <- skipn_firstn_comm, E. by rewrite drop_app_length.
Qed.

Lemma past_past s xs cs ys ds : past (past s xs cs) ys ds = past s (xs ++ ys) (cs ++ ds).
Proof. unfold past, step_refs, step_bits, Slice.set_ref, Slice.set_bit. cbn. rewrite !len_app. f_equal; lia. Qed.

Lemma past_nil s : past s [] [] = s.
Proof. rewrite past_bits. apply step_bits_0. Qed.

Lemma load_all_ok l s :
  Forall in_range l → holds s (all_bits l) (all_refs l) → load_all l s = (Ok l, past s (all_bits l) (all_refs l)).
Proof.
  intros Hl. revert s. induction Hl as [|x l Hx _ IH]; intros s Hs; cbn [load_all]; [by rewrite past_nil|].
  apply holds_app in Hs as [H1 H2]. erewrite st_bind_ok by by apply stored_one.
  erewrite st_bind_ok by by apply IH. by rewrite past_past.
Qed.

Section roundtrip.
Context `{Hasher}.

(** C30: what is stored value by value in a builder and built into a cell is what the
    matching loads read back from that cell, to its last bit and reference, for each of the
    typed stores and every value in its range; and a run of such stores fails exactly when
    the bits or the references do not fit a cell. *)
Theorem build_parse_roundtrip l :
  Forall in_range l → Forall cell_wf (all_refs l) →
  let '(r, b) := st_for l store_one Builder.new in
  if bool_decide (len (all_bits l) <= MAX_BITS ∧ len (all_refs l) <= MAX_REFS)
  then ∃ c s, r = Ok tt ∧ Builder.build b = Ok c ∧ cell_wf c ∧ Cell.bits c = all_bits l ∧ Cell.refs c = all_refs l ∧
         load_all l (Slice.new c) = (Ok l, s) ∧ Slice.is_empty s = true
  else is_ok r = false.
Proof.
  intros Hl Hc. rewrite new_holding. pose proof (store_all l Hl [] RNone ltac:(done)) as Hs.
  change (len (A:=bool) []) with 0 in Hs. change (len (refs_slice RNone)) with 0 in Hs. rewrite !Z.add_0_l in Hs.
  case_bool_decide as Hfit; [|by destruct (st_for l store_one (holding [] RNone))]. rewrite Hs. destruct Hfit as [Hb Hr].
  assert (refs_slice (refs_app RNone (all_refs l)) = all_refs l) as Hrs by (rewrite refs_app_slice; [done|change (len (refs_slice RNone)) with 0; lia]).
  destruct (build_spec (all_bits l) (refs_app RNone (all_refs l))) as (c & Hbuild & Hbits & Hn & _ & Hir & _ & Hwf);
    [done|rewrite Hrs; by apply wf_masks|].
  specialize (Hwf ltac:(by rewrite Hrs)). assert (Cell.refs c = all_refs l) as Hrefs by (unfold Cell.refs; by rewrite Hir).
  assert (slice_wf (Slice.new c)) as Hsw by (apply new_wf; rewrite Hn; apply len_nonneg).
  exists c, (past (Slice.new c) (all_bits l) (all_refs l)). do 5 (split; [done|]).
  split.
  - apply load_all_ok; [done|]. split; [split; [done|exists []; by rewrite new_bits, Hbits, app_nil_r]|].
    exists []. rewrite app_nil_r. unfold slice_refs, Slice.remaining_refs. cbn. rewrite Hrefs. change (Z.to_nat 0) with O.
    rewrite drop_0, take_ge; [done|unfold len; lia].
  - unfold Slice.is_empty, Slice.remaining_bits, Slice.remaining_refs, past. cbn. rewrite Hrefs, Hn.
    by rewrite !Z.add_0_l, !Z.sub_diag.
Qed.
End roundtrip.
