(* ===== verification/BuilderOps.v ===== *)
(** The builder as a state machine: every mutating method of
    core/src/cell/builder.rs (with address.rs, either.rs and snake.rs) as a step,
    the invariant that every reachable builder holds, which failing steps leave
    the builder untouched, and the round trips of the methods that store
    references (either.rs, snake.rs, [Slice::to_cell]). *)

From S2P Require Import Prelude Errors Bits CellData CellHash CellModel CellSlice CellBuilder Fields.
From stdpp Require Import base list list_numbers numbers strings.
From Stdlib Require Import ZArith Lia.

Local Open Scope Z_scope.

#[local] Arguments uint_bits : simpl never.

Inductive store_op : Type :=
| OpBit (bit : bool)
| OpUint (value bits : Z)
| OpInt (value bits : Z)
| OpU8 (value : Z)
| OpU16 (value : Z)
| OpU32 (value : Z)
| OpI32 (value : Z)
| OpUint128 (value bits : Z)
| OpInt128 (value bits : Z)
| OpVarUint (value max : Z)
| OpVarInt (value max : Z)
| OpCoins (nanotons : Z)
| OpSameBit (bit : bool) (count : Z)
| OpBits (bits : list bool)
| OpTruncateBits (bits : Z)
| OpTruncateRefs (refs : Z)
| OpBytes (bytes : list Z)
| OpRef (cell : Cell)
| OpMaybeRef (cell : option Cell)
| OpSlice (slice : Slice)
| OpBuilder (other : Builder)
| OpAddress (address : MsgAddress)
| OpEither (payload : Cell)
| OpMaybeEither (payload : option Cell)
| OpSnake (bytes : list Z).

Section ops.
Context `{Hasher}.

Definition run_op (op : store_op) : stm Builder CellError unit :=
  match op with
  | OpBit b => Builder.store_bit b
  | OpUint v n => Builder.store_uint v n
  | OpInt v n => Builder.store_int v n
  | OpU8 v => Builder.store_u8 v
  | OpU16 v => Builder.store_u16 v
  | OpU32 v => Builder.store_u32 v
  | OpI32 v => Builder.store_i32 v
  | OpUint128 v n => Builder.store_uint128 v n
  | OpInt128 v n => Builder.store_int128 v n
  | OpVarUint v max => Builder.store_var_uint v max
  | OpVarInt v max => Builder.store_var_int v max
  | OpCoins v => Builder.store_coins v
  | OpSameBit b n => Builder.store_same_bit b n
  | OpBits l => Builder.store_bits l
  | OpTruncateBits n => Builder.truncate_bits n
  | OpTruncateRefs n => Builder.truncate_refs n
  | OpBytes l => Builder.store_bytes l
  | OpRef c => Builder.store_ref c
  | OpMaybeRef oc => Builder.store_maybe_ref oc
  | OpSlice s => Builder.store_slice s
  | OpBuilder b => Builder.store_builder b
  | OpAddress a => Builder.store_address a
  | OpEither c => Builder.store_either_ref c
  | OpMaybeEither oc => Builder.store_maybe_either_ref oc
  | OpSnake l => Builder.store_snake l
  end.

(** The invariant: the bytes are the packing of at most 1023 bits, and the
    references, at most four, are cells. *)
Definition builder_inv (b : Builder) : Prop :=
  ∃ bs rs, b = holding bs rs ∧ len bs <= MAX_BITS ∧ Forall cell_wf (refs_slice rs).

(** The ranges the argument types of the methods impose. *)
Definition op_typed (op : store_op) : Prop :=
  match op with
  | OpBit _ => True
  | OpUint v n => 0 <= v < 2 ^ 64 ∧ 0 <= n < 2 ^ 32
  | OpInt v n => - 2 ^ 63 <= v < 2 ^ 63 ∧ 0 <= n < 2 ^ 32
  | OpU8 v => 0 <= v < 2 ^ 8
  | OpU16 v => 0 <= v < 2 ^ 16
  | OpU32 v => 0 <= v < 2 ^ 32
  | OpI32 v => - 2 ^ 31 <= v < 2 ^ 31
  | OpUint128 v n => 0 <= v < 2 ^ 128 ∧ 0 <= n < 2 ^ 32
  | OpInt128 v n => - 2 ^ 127 <= v < 2 ^ 127 ∧ 0 <= n < 2 ^ 32
  | OpVarUint v max => 0 <= v < 2 ^ 128 ∧ 0 <= max < 2 ^ 32
  | OpVarInt v max => - 2 ^ 127 <= v < 2 ^ 127 ∧ 0 <= max < 2 ^ 32
  | OpCoins v => 0 <= v < 2 ^ 128
  | OpSameBit _ n => 0 <= n < 2 ^ 16
  | OpBits _ => True
  | OpTruncateBits n => 0 <= n < 2 ^ 16
  | OpTruncateRefs n => 0 <= n < 2 ^ 64
  | OpBytes l => Forall is_byte l
  | OpRef c => cell_wf c
  | OpMaybeRef oc => ∀ c, oc = Some c → cell_wf c
  | OpSlice s => slice_wf s ∧ cell_wf (s_cell s)
  | OpBuilder b => builder_inv b
  | OpAddress a =>
      match a with
      | AddrNone => True
      | AddrStd w acc => - 2 ^ 7 <= w < 2 ^ 7 ∧ len acc = 32 ∧ Forall is_byte acc
      end
  | OpEither c => cell_wf c
  | OpMaybeEither oc => ∀ c, oc = Some c → cell_wf c
  | OpSnake l => Forall is_byte l
  end.

(** The methods that write in several checked pieces, so that a failure can
    leave the earlier pieces behind. *)
Definition piecewise (op : store_op) : bool :=
  match op with OpAddress _ | OpSnake _ => true | _ => false end.

(** What a step may do: fail and leave the builder as it was, or succeed and
    reach a builder that holds the invariant. *)
Definition clean (b : Builder) (r : result CellError unit * Builder) : Prop :=
  (is_ok (fst r) = false ∧ snd r = b) ∨ (fst r = Ok tt ∧ builder_inv (snd r)).

Lemma clean_put xs bs rs :
  len bs <= MAX_BITS → Forall cell_wf (refs_slice rs) → clean (holding bs rs) (put xs bs rs).
Proof.
  intros Hl Hr. destruct (decide (len bs + len xs <= MAX_BITS)).
  - rewrite put_ok by done. right. split; [done|]. eexists _, _. split; [done|].
    by rewrite len_app.
  - rewrite put_err by lia. by left.
Qed.

Lemma clean_err e b : clean b (Err e, b).
Proof. by left. Qed.

Lemma clean_holding b bs rs :
  len bs <= MAX_BITS → Forall cell_wf (refs_slice rs) → clean b (Ok tt, holding bs rs).
Proof. intros. right. split; [done|]. by eexists _, _. Qed.
End ops.

Create HintDb builder.
#[export] Hint Resolve clean_put clean_err : builder.

(** Solves [clean] goals left by rewriting a store with its specification. *)
Ltac clean_step :=
  repeat match goal with |- context [if ?b then _ else _] => destruct b eqn:? end;
  auto with builder.

(** ** Either: a payload inline or in a reference *)

Section either.
Context `{Hasher}.

Definition fits_inline (ahead : Z) (c : Cell) (bs : list bool) (rs : Refs Cell) : bool :=
  (ahead + 1 + Cell.bit_len c <=? MAX_BITS - len bs) &&
  (len (Cell.refs c) <=? MAX_REFS - len (refs_slice rs)).

Lemma slice_new_spec c : cell_wf c → slice_wf (Slice.new c) ∧ Slice.remaining_bits (Slice.new c) = Cell.bit_len c
  ∧ Slice.remaining_refs (Slice.new c) = len (Cell.refs c) ∧ 0 <= Cell.bit_len c <= MAX_BITS.
Proof.
  intros [c' Hb _ _ _ _ _]. split; [apply new_wf; lia|].
  unfold Slice.remaining_bits, Slice.remaining_refs. simpl. lia.
Qed.

Lemma either_goes_inline_spec ahead c bs rs :
  Builder.either_goes_inline (holding bs rs) c ahead =
    if fits_inline ahead c bs rs then Ok true
    else if MAX_REFS <=? len (refs_slice rs) then Err (NoRoomForRefs MAX_REFS)
    else if MAX_BITS - len bs <? ahead + 1
    then Err (NoRoomForBits (ahead + 1) (MAX_BITS - len bs)) else Ok false.
Proof.
  unfold Builder.either_goes_inline, Builder.can_extend_by, fits_inline.
  unfold Builder.bits_left, Builder.refs_left, Builder.room_for, Builder.bits_left. simpl.
  destruct ((_ <=? _) && (_ <=? _)); [done|]. pose proof (len_refs_slice rs).
  destruct (Z.eqb_spec (MAX_REFS - len (refs_slice rs)) 0), (Z.leb_spec MAX_REFS (len (refs_slice rs)));
    try lia; try done. by destruct (_ <? _).
Qed.

(** Where the payload goes, once the choice has been made and there is room. *)
Lemma store_either_where_ok c (inline : bool) bs rs :
  cell_wf c →
  (if inline then fits_inline 0 c bs rs = true
   else len bs < MAX_BITS ∧ len (refs_slice rs) < MAX_REFS) →
  Builder.store_either_where c inline (holding bs rs) =
    (Ok tt, if inline then holding (bs ++ false :: Cell.bits c) (refs_app rs (Cell.refs c))
            else holding (bs ++ [true]) (refs_app rs [c])).
Proof.
  intros Hwf Hfit. destruct (slice_new_spec c Hwf) as (Hs & Hb & Hr & Hl).
  unfold Builder.store_either_where. destruct inline.
  - unfold fits_inline in Hfit. apply andb_true_iff in Hfit as [H1%Z.leb_le H2%Z.leb_le].
    erewrite st_bind_ok.
    2:{ rewrite store_bit_spec. apply put_ok. change (len [false]) with 1. lia. }
    rewrite store_slice_spec, Hb, Hr by (done || lia). rewrite len_app. change (len [false]) with 1.
    rewrite !(proj2 (Z.ltb_ge _ _)) by lia. rewrite new_bits, new_refs, <- app_assoc. done.
  - destruct Hfit as [H1 H2]. erewrite st_bind_ok.
    2:{ rewrite store_bit_spec. apply put_ok. change (len [true]) with 1. lia. }
    rewrite store_ref_spec. by rewrite (proj2 (Z.leb_gt _ _)).
Qed.

Lemma store_either_ref_spec c bs rs :
  cell_wf c →
  Builder.store_either_ref c (holding bs rs) =
    if fits_inline 0 c bs rs
    then (Ok tt, holding (bs ++ false :: Cell.bits c) (refs_app rs (Cell.refs c)))
    else if MAX_REFS <=? len (refs_slice rs) then (Err (NoRoomForRefs MAX_REFS), holding bs rs)
    else if MAX_BITS - len bs <? 1 then (Err (NoRoomForBits 1 (MAX_BITS - len bs)), holding bs rs)
    else (Ok tt, holding (bs ++ [true]) (refs_app rs [c])).
Proof.
  intros Hwf. unfold Builder.store_either_ref. erewrite st_bind_ok by done.
  rewrite either_goes_inline_spec. destruct (fits_inline 0 c bs rs) eqn:Ef.
  { erewrite st_bind_ok by done. by rewrite (store_either_where_ok c true). }
  destruct (Z.leb_spec MAX_REFS (len (refs_slice rs))); [done|]. rewrite Z.add_0_l.
  destruct (Z.ltb_spec (MAX_BITS - len bs) 1); [done|].
  erewrite st_bind_ok by done. by rewrite (store_either_where_ok c false) by (done || lia).
Qed.

Lemma store_maybe_either_ref_spec oc bs rs :
  (∀ c, oc = Some c → cell_wf c) →
  Builder.store_maybe_either_ref oc (holding bs rs) =
    match oc with
    | None => put [false] bs rs
    | Some c =>
        if fits_inline 1 c bs rs
        then (Ok tt, holding (bs ++ true :: false :: Cell.bits c) (refs_app rs (Cell.refs c)))
        else if MAX_REFS <=? len (refs_slice rs) then (Err (NoRoomForRefs MAX_REFS), holding bs rs)
        else if MAX_BITS - len bs <? 2 then (Err (NoRoomForBits 2 (MAX_BITS - len bs)), holding bs rs)
        else (Ok tt, holding (bs ++ [true; true]) (refs_app rs [c]))
    end.
Proof.
  intros Hwf. destruct oc as [c|]; [|apply store_bit_spec]. specialize (Hwf c eq_refl).
  unfold Builder.store_maybe_either_ref. erewrite st_bind_ok by done.
  assert (len [true] = 1) as H1 by done.
  assert (len (bs ++ [true]) = len bs + 1) as Hl by by rewrite len_app.
  rewrite either_goes_inline_spec. change (1 + 1) with 2. destruct (fits_inline 1 c bs rs) eqn:Ef.
  { erewrite st_bind_ok by done. destruct (slice_new_spec c Hwf) as (_ & _ & _ & Hb).
    assert (fits_inline 0 c (bs ++ [true]) rs = true ∧ len bs + 1 <= MAX_BITS) as [Hf Hm].
    { unfold fits_inline in *. apply andb_true_iff in Ef as [E1%Z.leb_le E2]. rewrite E2, Hl.
      split; [|lia]. rewrite andb_true_r. apply Z.leb_le. lia. }
    erewrite st_bind_ok by (rewrite store_bit_spec; apply put_ok; lia).
    rewrite (store_either_where_ok c true) by done. by rewrite <- app_assoc. }
  destruct (Z.leb_spec MAX_REFS (len (refs_slice rs))); [done|].
  destruct (Z.ltb_spec (MAX_BITS - len bs) 2); [done|].
  erewrite st_bind_ok by done. erewrite st_bind_ok by (rewrite store_bit_spec; apply put_ok; lia).
  rewrite (store_either_where_ok c false) by (done || lia). by rewrite <- app_assoc.
Qed.
End either.

(** ** Snakes *)

Section snake.
Context `{Hasher}.

(** A chain of cells that carries [bytes], each cell the next through its first
    reference. *)
Definition carries (c : Cell) (bytes : list Z) : Prop :=
  ∀ into, Snake.load_chain c into = Ok (into ++ bytes).

Lemma load_chain_step c :
  ∀ into, Snake.load_chain c into =
    match Slice.load_bytes_into (Cell.bit_len c / 8) into (Slice.new c) with
    | (Err e, _) => Err e
    | (Ok into, _) =>
        match Cell.refs c with [] => Ok into | next :: _ => Snake.load_chain next into end
    end.
Proof.
  destruct c as [d b r t i]; intros into. simpl Snake.load_chain.
  set (c := MkCell d b r t i). unfold Slice.remaining_bits. simpl. rewrite Z.sub_0_r.
  unfold Slice.load_bytes_into. unfold Cell.refs, Cell.bit_len. simpl.
  destruct (checked_mul _ _ _); [|done]. simpl.
  unfold st_bind, st_get, st_lift, ok_or, Slice.advance. case_if; [done|].
  unfold Slice.remaining_refs. destruct r; done.
Qed.

Lemma carries_cell c bytes rest :
  cell_wf c → Cell.bits c = bytes_bits bytes → Forall is_byte bytes →
  match Cell.refs c with [] => rest = [] | next :: _ => carries next rest end →
  carries c (bytes ++ rest).
Proof.
  intros Hwf Hb Hbytes Hn into. rewrite load_chain_step.
  destruct (slice_new_spec c Hwf) as (Hs & _ & _ & Hl).
  assert (Cell.bit_len c = 8 * len bytes) as Hlen.
  { rewrite <- len_bytes_bits, <- Hb. unfold Cell.bits. by rewrite len_bits_of by lia. }
  rewrite Hlen, (Z.mul_comm 8), Z.div_mul by lia.
  rewrite (load_bytes_into_ok _ bytes).
  2:{ split; [done|]. exists []. by rewrite new_bits, app_nil_r. }
  2: done.
  2:{ unfold USIZE_MAX, U64_MAX, MAX_BITS in *. lia. }
  destruct (Cell.refs c) as [|next l]; [subst; by rewrite app_nil_r|].
  by rewrite Hn, app_assoc.
Qed.

Lemma snake_head bs bytes :
  len bs <= MAX_BITS → Forall is_byte bytes →
  let k := Z.min ((MAX_BITS - len bs) / 8) (len bytes) in
  ∀ rs, Builder.store_bytes (take (Z.to_nat k) bytes) (holding bs rs) =
    (Ok tt, holding (bs ++ bytes_bits (take (Z.to_nat k) bytes)) rs)
    ∧ len (take (Z.to_nat k) bytes) = k ∧ len bs + 8 * k <= MAX_BITS ∧ 0 <= k.
Proof.
  intros Hl Hb k rs. pose proof (len_nonneg bs). pose proof (len_nonneg bytes).
  assert (0 <= k ∧ len bs + 8 * k <= MAX_BITS) as [Hk Hr] by (subst k; unfold MAX_BITS in *; zdiv).
  assert (len (take (Z.to_nat k) bytes) = k) as Ht
    by (unfold len in *; rewrite length_take; lia).
  split; [|done]. rewrite store_bytes_spec.
  - apply put_ok. rewrite len_bytes_bits, Ht. lia.
  - by apply Forall_take.
  - rewrite Ht. unfold USIZE_MAX, U64_MAX, MAX_BITS in *. lia.
Qed.

(** The child cells of a snake always have room and always build. *)
Lemma store_snake_child fuel bytes :
  (length bytes < fuel)%nat → Forall is_byte bytes →
  ∃ b c, Builder.store_snake_loop fuel bytes Builder.new = (Ok tt, b) ∧ Builder.build b = Ok c ∧
    cell_wf c ∧ carries c bytes.
Proof.
  revert bytes. induction fuel as [|fuel IH]; intros bytes Hf Hb; [lia|].
  cbn [Builder.store_snake_loop]. rewrite new_holding. erewrite st_bind_ok by done.
  unfold Builder.bits_left. cbn [b_bits holding].
  destruct (snake_head [] bytes ltac:(done) Hb RNone) as (Hst & Hlen & Hroom & Hk).
  set (k := Z.min ((MAX_BITS - len []) / 8) (len bytes)) in *.
  erewrite st_bind_ok by exact Hst. rewrite app_nil_l.
  set (head := take (Z.to_nat k) bytes) in *.
  assert (Forall is_byte head) as Hbh by by apply Forall_take.
  assert (len (bytes_bits head) <= MAX_BITS) as Hhl
    by (rewrite len_bytes_bits, Hlen; change (len []) with 0 in Hroom; lia).
  assert (bytes = head ++ drop (Z.to_nat k) bytes) as Hsplit by (symmetry; apply take_drop).
  destruct (drop (Z.to_nat k) bytes) as [|t0 tail'] eqn:Etail.
  - destruct (build_spec (bytes_bits head) RNone) as (c & Hc & Hbits & _ & _ & Hrefs & _ & Hwf);
      [done..|].
    exists (holding (bytes_bits head) RNone), c. split; [done|]. split; [done|].
    split; [apply Hwf; constructor|].
    rewrite Hsplit. apply carries_cell; [apply Hwf; constructor|done..|].
    unfold Cell.refs. by rewrite Hrefs.
  - destruct (IH (t0 :: tail')) as (b' & c' & Hloop & Hb' & Hwf' & Hcar).
    { apply (f_equal length) in Etail. rewrite length_drop in Etail.
      assert (k = 127 ∨ k = len bytes) as [Hk'|Hk'] by (subst k; change ((MAX_BITS - len []) / 8) with 127; lia).
      - simpl in *. lia.
      - unfold len in Hk'. simpl in Etail. lia. }
    { rewrite <- Etail. by apply Forall_drop. }
    rewrite new_holding in Hloop. rewrite Hloop.
    erewrite st_bind_ok by (unfold st_lift; by rewrite Hb'). rewrite store_ref_spec. simpl.
    assert (refs_slice (refs_app RNone [c']) = [c']) as Hrs by done.
    destruct (build_spec (bytes_bits head) (refs_app RNone [c'])) as (c & Hc & Hbits & _ & _ & Hrefs & _ & Hwf).
    { done. } { rewrite Hrs. constructor; [by destruct Hwf'|constructor]. }
    assert (cell_wf c) as Hwfc by (apply Hwf; rewrite Hrs; by constructor).
    eexists _, c. split; [done|]. split; [done|]. split; [done|].
    rewrite Hsplit. apply carries_cell; [done..|]. unfold Cell.refs. by rewrite Hrefs, Hrs.
Qed.

(** A snake written into any builder: the bytes that fit a whole number of
    times, and a child that carries the rest. *)
Lemma store_snake_spec bytes bs rs :
  len bs <= MAX_BITS → Forall is_byte bytes →
  let k := Z.min ((MAX_BITS - len bs) / 8) (len bytes) in
  let b := bs ++ bytes_bits (take (Z.to_nat k) bytes) in
  len b <= MAX_BITS ∧
  if len bytes <=? k then Builder.store_snake bytes (holding bs rs) = (Ok tt, holding b rs)
  else ∃ c, cell_wf c ∧ carries c (drop (Z.to_nat k) bytes) ∧
    Builder.store_snake bytes (holding bs rs) =
      if MAX_REFS <=? len (refs_slice rs) then (Err (NoRoomForRefs MAX_REFS), holding b rs)
      else (Ok tt, holding b (refs_app rs [c])).
Proof.
  intros Hl Hb k b. destruct (snake_head bs bytes Hl Hb rs) as (Hst & Hlen & Hroom & Hk).
  fold k in Hst, Hlen, Hroom, Hk. fold b in Hst.
  split; [subst b; rewrite len_app, len_bytes_bits, Hlen; lia|].
  unfold Builder.store_snake. pose proof (Nat.lt_succ_diag_r (length bytes)) as Hfuel.
  revert Hfuel. generalize (S (length bytes)). intros fuel Hfuel. cbn [Builder.store_snake_loop].
  destruct (Z.leb_spec (len bytes) k) as [Hle|Hgt].
  - erewrite st_bind_ok by done. unfold Builder.bits_left. cbn [b_bits holding]. fold k.
    erewrite st_bind_ok by exact Hst. rewrite drop_ge by (unfold len in *; lia). done.
  - destruct (store_snake_child fuel (drop (Z.to_nat k) bytes)) as (b' & c & Hloop & Hbuild & Hwf & Hcar).
    { rewrite length_drop. lia. } { by apply Forall_drop. }
    exists c. split; [done|]. split; [done|].
    erewrite st_bind_ok by done. unfold Builder.bits_left. cbn [b_bits holding]. fold k.
    erewrite st_bind_ok by exact Hst.
    destruct (drop (Z.to_nat k) bytes) as [|t0 tail'] eqn:Etail.
    { apply (f_equal length) in Etail. rewrite length_drop in Etail. unfold len in *. simpl in Etail. lia. }
    rewrite Hloop.
    erewrite st_bind_ok by (unfold st_lift; by rewrite Hbuild). apply store_ref_spec.
Qed.
End snake.

(** ** The invariant, step by step *)

Section invariant.
Context `{Hasher}.

Lemma refs_app_wf rs l :
  Forall cell_wf (refs_slice rs) → Forall cell_wf l → Forall cell_wf (refs_slice (refs_app rs l)).
Proof.
  intros Hr Hl. unfold refs_app. destruct (refs_of (refs_slice rs ++ l)) as [r|] eqn:E; simpl; [|done].
  apply refs_of_slice in E. rewrite E. by apply Forall_app.
Qed.

Lemma cell_wf_refs c : cell_wf c → Forall cell_wf (Cell.refs c).
Proof. by intros []. Qed.

Lemma cell_wf_bit_len c : cell_wf c → 0 <= Cell.bit_len c <= MAX_BITS.
Proof. by intros []. Qed.

Lemma slice_refs_wf s : cell_wf (s_cell s) → Forall cell_wf (slice_refs s).
Proof. intros Hw%cell_wf_refs. by apply Forall_take, Forall_drop. Qed.

Lemma slice_room s : slice_wf s → cell_wf (s_cell s) → 0 <= Slice.remaining_bits s <= MAX_BITS.
Proof. intros [? ? _ _] Hb%cell_wf_bit_len. unfold Slice.remaining_bits. lia. Qed.

Lemma store_bits_clean l bs rs :
  len bs <= MAX_BITS → Forall cell_wf (refs_slice rs) →
  clean (holding bs rs) (Builder.store_bits l (holding bs rs)).
Proof.
  intros Hl Hr. destruct (decide (len l <= U16_MAX)).
  - rewrite store_bits_spec by done. by apply clean_put.
  - unfold Builder.store_bits, checked. rewrite (proj2 (Z.leb_gt _ _)) by lia. simpl.
    pose proof (len_nonneg bs).
    erewrite st_bind_err by (apply room_for_err; unfold MAX_BITS, U16_MAX in *; lia). apply clean_err.
Qed.

Lemma store_bytes_clean l bs rs :
  Forall is_byte l → len bs <= MAX_BITS → Forall cell_wf (refs_slice rs) →
  clean (holding bs rs) (Builder.store_bytes l (holding bs rs)).
Proof.
  intros Hb Hl Hr. destruct (decide (len l * 8 <= USIZE_MAX)).
  - rewrite store_bytes_spec by done. by apply clean_put.
  - unfold Builder.store_bytes. erewrite st_bind_ok by done. cbv zeta.
    unfold saturating_mul. rewrite Z.min_l by lia. apply clean_err.
Qed.

Lemma take_inv n bs rs :
  len bs <= MAX_BITS → Forall cell_wf (refs_slice rs) →
  builder_inv (holding (take (Z.to_nat n) bs) rs).
Proof.
  intros. eexists _, _. split; [done|]. split; [|done]. unfold len in *. rewrite length_take. lia.
Qed.

Lemma store_slice_clean s bs rs :
  slice_wf s → cell_wf (s_cell s) → len bs <= MAX_BITS → Forall cell_wf (refs_slice rs) →
  clean (holding bs rs) (Builder.store_slice s (holding bs rs)).
Proof.
  intros Hs Hc Hl Hr. pose proof (slice_room s Hs Hc). rewrite store_slice_spec by (done || lia).
  destruct (Z.ltb_spec (MAX_BITS - len bs) (Slice.remaining_bits s)); [apply clean_err|].
  destruct (_ <? _); [apply clean_err|]. apply clean_holding.
  - rewrite len_app, len_slice_bits by done. lia.
  - apply refs_app_wf; [done|]. by apply slice_refs_wf.
Qed.

Lemma store_builder_clean other bs rs :
  builder_inv other → len bs <= MAX_BITS → Forall cell_wf (refs_slice rs) →
  clean (holding bs rs) (Builder.store_builder other (holding bs rs)).
Proof.
  intros (bs' & rs' & -> & Hl' & Hr') Hl Hr. rewrite store_builder_spec.
  destruct (Z.ltb_spec (MAX_BITS - len bs) (len bs')); [apply clean_err|].
  destruct (_ <? _); [apply clean_err|]. apply clean_holding.
  - rewrite len_app. lia.
  - by apply refs_app_wf.
Qed.

Lemma either_clean (fit : bool) n c bs rs xs ys :
  cell_wf c → len bs <= MAX_BITS → Forall cell_wf (refs_slice rs) →
  (fit = true → len bs + len xs <= MAX_BITS) → len ys <= n →
  clean (holding bs rs)
    (if fit then (Ok tt, holding (bs ++ xs) (refs_app rs (Cell.refs c)))
     else if MAX_REFS <=? len (refs_slice rs) then (Err (NoRoomForRefs MAX_REFS), holding bs rs)
     else if MAX_BITS - len bs <? n then (Err (NoRoomForBits n (MAX_BITS - len bs)), holding bs rs)
     else (Ok tt, holding (bs ++ ys) (refs_app rs [c]))).
Proof.
  intros Hc Hl Hr Hx Hy. destruct fit.
  - apply clean_holding; [rewrite len_app; auto|]. apply refs_app_wf; [done|]. by apply cell_wf_refs.
  - destruct (_ <=? _); [apply clean_err|].
    destruct (Z.ltb_spec (MAX_BITS - len bs) n); [apply clean_err|]. apply clean_holding.
    + rewrite len_app. lia.
    + apply refs_app_wf; [done|]. by constructor.
Qed.

Lemma fits_inline_len ahead c bs rs :
  cell_wf c → fits_inline ahead c bs rs = true → len bs + (ahead + 1 + len (Cell.bits c)) <= MAX_BITS.
Proof.
  intros Hwf Hf. apply andb_true_iff in Hf as [Hf%Z.leb_le _].
  destruct Hwf as [c Hb _ _ _ _ _]. unfold Cell.bits. rewrite len_bits_of; lia.
Qed.

(** Every method but the piecewise two either succeeds and keeps the
    invariant or fails and changes nothing. *)
Lemma op_clean op b :
  builder_inv b → op_typed op → piecewise op = false → clean b (run_op op b).
Proof.
  intros (bs & rs & -> & Hl & Hr) Ht Hp. destruct op; simpl in Ht, Hp; try done; simpl run_op.
  - rewrite store_bit_spec. by apply clean_put.
  - rewrite store_uint_spec by lia. clean_step.
  - rewrite store_int_spec by lia. clean_step.
  - unfold Builder.store_u8. rewrite store_uint_spec by lia. clean_step.
  - unfold Builder.store_u16. rewrite store_uint_spec by lia. clean_step.
  - unfold Builder.store_u32. rewrite store_uint_spec by lia. clean_step.
  - unfold Builder.store_i32. rewrite store_int_spec by lia. clean_step.
  - rewrite store_uint128_spec by lia. clean_step.
  - rewrite store_int128_spec by lia. clean_step.
  - rewrite store_var_uint_spec by lia. clean_step.
  - rewrite store_var_int_spec by lia. clean_step.
  - unfold Builder.store_coins. rewrite store_var_uint_spec by lia. clean_step.
  - rewrite store_same_bit_spec by lia. by apply clean_put.
  - by apply store_bits_clean.
  - rewrite truncate_bits_spec by lia. destruct (_ <? _); [apply clean_err|].
    right. split; [done|]. by apply take_inv.
  - rewrite truncate_refs_spec by lia. destruct (_ <? _); [apply clean_err|].
    apply clean_holding; [done|]. destruct (refs_of _) as [r|] eqn:E; simpl; [|done].
    apply refs_of_slice in E. rewrite E. by apply Forall_take.
  - by apply store_bytes_clean.
  - rewrite store_ref_spec. destruct (_ <=? _); [apply clean_err|]. apply clean_holding; [done|].
    apply refs_app_wf; [done|by constructor].
  - rewrite store_maybe_ref_spec. destruct cell as [c|]; [|by apply clean_put].
    destruct (_ <=? _); [apply clean_err|]. destruct (Z.ltb_spec (len bs) MAX_BITS).
    + rewrite put_ok by (change (len [true]) with 1; lia). apply clean_holding.
      * rewrite len_app. change (len [true]) with 1. lia.
      * apply refs_app_wf; [done|]. constructor; [auto|constructor].
    + by apply clean_put.
  - destruct Ht. by apply store_slice_clean.
  - by apply store_builder_clean.
  - rewrite store_either_ref_spec by done. apply either_clean; [done..| |done].
    intros Hf%fits_inline_len; [|done]. unfold len in *. simpl. lia.
  - rewrite store_maybe_either_ref_spec by done. destruct payload as [c|]; [|by apply clean_put].
    apply either_clean; [by auto|done|done| |done].
    intros Hf%fits_inline_len; [|by auto]. unfold len in *. simpl. lia.
Qed.

Lemma address_pieces a bs rs :
  op_typed (OpAddress a) → len bs <= MAX_BITS →
  ∃ xs, snd (Builder.store_address a (holding bs rs)) = holding (bs ++ xs) rs ∧
        len (bs ++ xs) <= MAX_BITS.
Proof.
  intros Ht Hl.
  assert (∀ ys zs, len zs <= MAX_BITS → ∃ xs, snd (put ys zs rs) = holding (zs ++ xs) rs ∧
    len (zs ++ xs) <= MAX_BITS ∧ (fst (put ys zs rs) = Ok tt → xs = ys)) as Hput.
  { intros ys zs Hz. destruct (decide (len zs + len ys <= MAX_BITS)).
    - rewrite put_ok by done. exists ys. rewrite len_app. done.
    - rewrite put_err by lia. exists []. by rewrite app_nil_r. }
  destruct a as [|w acc]; cbn [Builder.store_address].
  { rewrite (store_uint_fits 2 0) by lia. destruct (Hput (uint_bits (Z.to_nat 2) 0) bs Hl) as (xs & -> & Hx & _). eauto. }
  destruct Ht as (Hw & Hla & Hb).
  unfold st_bind at 1. rewrite (store_uint_fits 2 2) by lia.
  destruct (Hput (uint_bits (Z.to_nat 2) 2) bs Hl) as (x1 & E1 & L1 & F1).
  destruct (put _ bs rs) as [[[]|] b1]; simpl in E1; subst b1; [|by exists x1]. clear F1.
  unfold st_bind at 1. rewrite store_bit_spec.
  destruct (Hput [false] (bs ++ x1) L1) as (x2 & E2 & L2 & _).
  destruct (put _ _ rs) as [[[]|] b2]; simpl in E2; subst b2; rewrite <- app_assoc in *; [|by eexists].
  unfold st_bind at 1. rewrite (store_int_fits 8) by lia.
  destruct (Hput (uint_bits (Z.to_nat 8) w) (bs ++ x1 ++ x2) L2) as (x3 & E3 & L3 & _).
  destruct (put _ _ rs) as [[[]|] b3]; simpl in E3; subst b3; rewrite <- !app_assoc in *; [|by eexists].
  rewrite store_bytes_spec by (done || (rewrite Hla; done)).
  destruct (Hput (bytes_bits acc) (bs ++ x1 ++ x2 ++ x3) L3) as (x4 & E4 & L4 & _).
  rewrite E4. rewrite <- !app_assoc in *. by eexists.
Qed.

Lemma op_inv op b : builder_inv b → op_typed op → builder_inv (snd (run_op op b)).
Proof.
  intros Hb Ht. destruct (piecewise op) eqn:Hp.
  2:{ destruct (op_clean op b Hb Ht Hp) as [[_ ->]|[_ Hi]]; done. }
  destruct Hb as (bs & rs & -> & Hl & Hr). destruct op; try done; simpl run_op.
  - destruct (address_pieces address bs rs Ht Hl) as (xs & -> & Hx). by eexists _, _.
  - destruct (store_snake_spec bytes bs rs Hl Ht) as [Hx Hs].
    destruct (_ <=? _); [rewrite Hs; by eexists _, _|].
    destruct Hs as (c & Hc & _ & ->). destruct (_ <=? _); eexists _, _; split; try done.
    split; [done|]. apply refs_app_wf; [done|by constructor].
Qed.

(** The builders a program can reach from a new one. *)
Inductive reachable : Builder → Prop :=
| reach_new : reachable Builder.new
| reach_op b op : reachable b → op_typed op → reachable (snd (run_op op b)).

Lemma reachable_inv b : reachable b → builder_inv b.
Proof.
  induction 1 as [|b op _ IH Ht]; [|by apply op_inv].
  exists [], RNone. split; [done|]. split; [done|constructor].
Qed.
End invariant.

(** ** Theorems *)

Section theorems.
Context `{Hasher}.

(** C31: every builder a program can reach holds at most 1023 bits in exactly the
    bytes they need, with zeros past the last bit, and at most four references;
    and building it succeeds, with a well-formed cell of just those bits and
    references. *)
Theorem builder_reachable_builds b :
  reachable b →
  0 <= Builder.bits_used b <= MAX_BITS ∧ 0 <= Builder.refs_used b <= MAX_REFS ∧
  len (b_data b) = div_ceil (Builder.bits_used b) 8 ∧
  (∀ i, Builder.bits_used b <= i → data_bit (b_data b) i = false) ∧
  ∃ c, Builder.build b = Ok c ∧ cell_wf c ∧
    Cell.bits c = bits_of (b_data b) (Builder.bits_used b) ∧ inner_refs c = b_refs b.
Proof.
  intros (bs & rs & -> & Hl & Hr)%reachable_inv. pose proof (len_nonneg bs).
  unfold Builder.bits_used. simpl. split; [done|]. split; [apply len_refs_slice|].
  split; [apply len_packed|]. split.
  { intros i Hi. rewrite data_bit_packed by lia. by apply nth_bit_past. }
  destruct (build_spec bs rs Hl) as (c & Hc & Hb & _ & _ & Hrefs & _ & Hwf).
  { eapply Forall_impl; [exact Hr|]. by intros ? []. }
  exists c. split; [done|]. split; [auto|]. by rewrite bits_of_packed.
Qed.

(** A store that fails leaves the builder exactly as it was, for every
    method of the builder but the two that write a sequence of separately
    checked pieces ([store_address], [store_snake]). *)
Theorem builder_failure_atomic b op e b' :
  reachable b → op_typed op → piecewise op = false →
  run_op op b = (Err e, b') → b' = b.
Proof.
  intros Hb Ht Hp E. destruct (op_clean op b (reachable_inv b Hb) Ht Hp) as [[_ Hs]|[Hs _]];
    rewrite E in Hs; [done|]. discriminate Hs.
Qed.

(** The cursor past what a builder held before a store. *)
Definition past (b : Builder) (c : Cell) : result CellError unit * Slice :=
  Slice.skip_bits_and_refs (Builder.bits_used b) (Builder.refs_used b) (Slice.new c).

Lemma past_ok bs rs c xs l :
  cell_wf c → Cell.bits c = bs ++ xs → Cell.refs c = refs_slice rs ++ l →
  ∃ s, past (holding bs rs) c = (Ok tt, s) ∧ s_cell s = c ∧ slice_wf s ∧
       slice_bits s = xs ∧ slice_refs s = l.
Proof.
  intros Hwf Hb Hr. destruct (slice_new_spec c Hwf) as (Hs & Hrb & Hrr & _).
  pose proof (len_slice_bits _ Hs) as Hlb. rewrite new_bits, Hb, len_app, Hrb in Hlb.
  rewrite Hr, len_app in Hrr. pose proof (len_nonneg xs). pose proof (len_nonneg l).
  pose proof (len_nonneg bs). pose proof (len_refs_slice rs).
  unfold past, Slice.skip_bits_and_refs, Builder.bits_used, Builder.refs_used. simpl b_bits. simpl b_refs.
  rewrite (proj2 (Z.ltb_ge _ _)), (proj2 (Z.ltb_ge _ _)) by lia.
  set (s := step_bits (len bs) (Slice.new c)).
  assert (slice_wf s) as Hws by (apply step_bits_wf; [done|lia]).
  exists (step_refs (len (refs_slice rs)) s). split; [done|]. split; [done|].
  assert (0 <= len (refs_slice rs) <= Slice.remaining_refs s) as Hrs.
  { unfold Slice.remaining_refs. simpl. rewrite Hr, len_app. lia. }
  split; [by apply step_refs_wf|]. split.
  - rewrite step_refs_bits. subst s. rewrite step_bits_bits, new_bits, Hb by (done || lia).
    apply drop_app_length'. unfold len. lia.
  - unfold slice_refs, Slice.remaining_refs. simpl. rewrite Hr, Z.add_0_l, len_app.
    rewrite drop_app_length' by (unfold len; lia). rewrite take_ge; [done|]. unfold len. lia.
Qed.

(** What a snake write that has a reference to spend leaves behind. *)
Lemma store_snake_shape bytes bs rs :
  len bs <= MAX_BITS → Forall is_byte bytes → len (refs_slice rs) < MAX_REFS →
  ∃ head rest l, bytes = head ++ rest ∧ len (bs ++ bytes_bits head) <= MAX_BITS ∧
    refs_slice (refs_app rs l) = refs_slice rs ++ l ∧ Forall cell_wf l ∧
    match l with [] => rest = [] | c :: _ => carries c rest end ∧
    Builder.store_snake bytes (holding bs rs) =
      (Ok tt, holding (bs ++ bytes_bits head) (refs_app rs l)).
Proof.
  intros Hl Hb Hfree. destruct (store_snake_spec bytes bs rs Hl Hb) as [Hx Hs].
  set (k := Z.min ((MAX_BITS - len bs) / 8) (len bytes)) in *.
  exists (take (Z.to_nat k) bytes), (drop (Z.to_nat k) bytes).
  destruct (Z.leb_spec (len bytes) k).
  - exists []. rewrite refs_app_nil, app_nil_r, take_drop.
    rewrite drop_ge by (unfold len in *; lia). repeat split; [done|constructor|done].
  - destruct Hs as (c & Hc & Hcar & Hs). rewrite (proj2 (Z.leb_gt _ _)) in Hs by done.
    exists [c]. rewrite Hs, refs_app_slice, take_drop by (change (len [c]) with 1; lia).
    repeat split; [done|by constructor|done].
Qed.

(** A cursor at the head of a snake reads the whole of it. *)
Lemma load_snake_spec s head rest :
  slice_wf s → Forall is_byte head → slice_bits s = bytes_bits head → len head <= MAX_BITS →
  match slice_refs s with [] => rest = [] | c :: _ => carries c rest end →
  fst (Snake.load_snake s) = Ok (head ++ rest).
Proof.
  intros Hws Hb Hsb Hm Hlc. unfold Snake.load_snake, Snake.load_snake_into. erewrite st_bind_ok by done.
  pose proof (len_slice_bits s Hws) as Hn. rewrite Hsb, len_bytes_bits in Hn.
  rewrite <- Hn, (Z.mul_comm 8), Z.div_mul by lia.
  erewrite st_bind_ok.
  2:{ apply load_bytes_into_ok; [|done|unfold USIZE_MAX, U64_MAX, MAX_BITS in *; lia].
      split; [done|]. exists []. by rewrite Hsb, app_nil_r. }
  rewrite app_nil_l. erewrite st_bind_ok by done. set (s1 := step_bits _ s).
  assert (slice_wf s1) as Hws1.
  { apply step_bits_wf; [done|]. pose proof (len_nonneg head). lia. }
  pose proof (len_slice_refs s1 Hws1) as Hnr. change (slice_refs s1) with (slice_refs s) in Hnr.
  destruct (Z.ltb_spec 0 (Slice.remaining_refs s1)) as [Hpos|Hz].
  - destruct (slice_refs_cons s1 Hws1 Hpos) as (c & Hload & Hc).
    change (slice_refs s1) with (slice_refs s) in Hc. rewrite Hc in Hlc.
    erewrite st_bind_ok by exact Hload. unfold st_lift. simpl. by rewrite Hlc.
  - destruct (slice_refs s); [by rewrite Hlc, app_nil_r|]. unfold len in Hnr. simpl in Hnr. lia.
Qed.

(** A byte string written as a snake reads back whole, from whatever builder
    it was written into, provided that builder has a reference free for the
    chain; the write itself always succeeds then. *)
Theorem snake_roundtrip b bytes :
  reachable b → Forall is_byte bytes → Builder.refs_used b < MAX_REFS →
  ∃ b' c s, Builder.store_snake bytes b = (Ok tt, b') ∧ Builder.build b' = Ok c ∧
    past b c = (Ok tt, s) ∧ fst (Snake.load_snake s) = Ok bytes.
Proof.
  intros (bs & rs & -> & Hl & Hr)%reachable_inv Hb Hfree.
  destruct (store_snake_shape bytes bs rs Hl Hb Hfree)
    as (head & rest & l & -> & Hx & Hrs & Hlwf & Hlc & ->).
  apply Forall_app in Hb as [Hbh _].
  assert (Forall cell_wf (refs_slice (refs_app rs l))) as Hwl by (rewrite Hrs; by apply Forall_app).
  destruct (build_spec (bs ++ bytes_bits head) (refs_app rs l) Hx (wf_masks _ Hwl))
    as (c & Hc & Hcb & _ & _ & Hcr & _ & Hwf).
  destruct (past_ok bs rs c (bytes_bits head) l) as (s & Hp & _ & Hws & Hsb & Hsr);
    [by apply Hwf|done|by unfold Cell.refs; rewrite Hcr|].
  eexists _, c, s. split; [done|]. split; [done|]. split; [done|].
  apply load_snake_spec; [done..| |by rewrite Hsr].
  rewrite len_app, len_bytes_bits in Hx. pose proof (len_nonneg bs). pose proof (len_nonneg head). lia.
Qed.

(** A payload written as an [Either X ^X] is found again where the
    discriminator bit says it is: whole in the next reference, or, inline, as
    the bits and references that follow. *)
Theorem either_roundtrip b payload b' :
  reachable b → cell_wf payload → Builder.store_either_ref payload b = (Ok tt, b') →
  ∃ c s e s', Builder.build b' = Ok c ∧ past b c = (Ok tt, s) ∧
    Slice.load_either_ref s = (Ok e, s') ∧
    match e with
    | ERef found => found = payload
    | EInline => slice_bits s' = Cell.bits payload ∧ slice_refs s' = Cell.refs payload
    end.
Proof.
  intros (bs & rs & -> & Hl & Hr)%reachable_inv Hpl. rewrite store_either_ref_spec by done.
  assert (∀ xs l, len (bs ++ xs) <= MAX_BITS → Forall cell_wf l → len (refs_slice rs) + len l <= MAX_REFS →
    ∃ c s, Builder.build (holding (bs ++ xs) (refs_app rs l)) = Ok c ∧ past (holding bs rs) c = (Ok tt, s) ∧
      slice_wf s ∧ slice_bits s = xs ∧ slice_refs s = l) as Hgen.
  { intros xs l Hx Hlwf Hn. pose proof (refs_app_slice rs l Hn) as Hrs.
    assert (Forall cell_wf (refs_slice (refs_app rs l))) as Hwl by (rewrite Hrs; by apply Forall_app).
    destruct (build_spec _ _ Hx (wf_masks _ Hwl)) as (c & Hc & Hcb & _ & _ & Hcr & _ & Hwf).
    destruct (past_ok bs rs c xs l) as (s & Hp & _ & Hws & Hsb & Hsr);
      [by apply Hwf|done|by unfold Cell.refs; rewrite Hcr|].
    by exists c, s. }
  unfold Slice.load_either_ref. destruct (fits_inline 0 payload bs rs) eqn:Ef.
  - intros [= <-]. pose proof (fits_inline_len _ _ _ _ Hpl Ef) as Hlen.
    apply andb_true_iff in Ef as [_ Ef%Z.leb_le].
    destruct (Hgen (false :: Cell.bits payload) (Cell.refs payload)) as (c & s & Hc & Hp & Hws & Hsb & Hsr);
      [rewrite len_app; unfold len in *; simpl; lia|by apply cell_wf_refs|lia|].
    exists c, s, EInline, (step_bits 1 s). split; [done|]. split; [done|].
    assert (ahead s [false]) as Ha by (split; [done|by exists (Cell.bits payload)]).
    erewrite st_bind_ok by (apply (load_bit_ok s false); done). split; [done|].
    pose proof (ahead_remaining _ _ Ha). change (len [false]) with 1 in *.
    rewrite step_bits_bits, Hsb by (done || lia). done.
  - destruct (Z.leb_spec MAX_REFS (len (refs_slice rs))); [done|].
    destruct (Z.ltb_spec (MAX_BITS - len bs) 1); [done|]. intros [= <-].
    destruct (Hgen [true] [payload]) as (c & s & Hc & Hp & Hws & Hsb & Hsr);
      [rewrite len_app; change (len [true]) with 1; lia|by constructor|change (len [payload]) with 1; lia|].
    assert (ahead s [true]) as Ha by (split; [done|by exists []]).
    pose proof (ahead_remaining _ _ Ha). change (len [true]) with 1 in *.
    assert (slice_wf (step_bits 1 s)) as Hws1 by (apply step_bits_wf; [done|lia]).
    destruct (slice_refs_cons (step_bits 1 s) Hws1) as (c2 & Hload & Hc2).
    { rewrite <- len_slice_refs, step_bits_refs, Hsr by done. done. }
    rewrite step_bits_refs, Hsr in Hc2. injection Hc2 as <- _.
    exists c, s, (ERef payload), (step_refs 1 (step_bits 1 s)). split; [done|]. split; [done|].
    erewrite st_bind_ok by (apply (load_bit_ok s true); done).
    cbv iota. by erewrite st_bind_ok by exact Hload.
Qed.

(** Copying out what is left of a cursor always succeeds, and gives a
    well-formed ordinary cell with exactly those bits and references. *)
Theorem to_cell_copies s :
  slice_wf s → cell_wf (s_cell s) →
  ∃ c, Builder.to_cell s = Ok c ∧ cell_wf c ∧ Cell.cell_type c = Ordinary ∧
    Cell.bits c = slice_bits s ∧ Cell.refs c = slice_refs s.
Proof.
  intros Hs Hc. pose proof (slice_room s Hs Hc) as Hroom.
  pose proof (len_slice_bits s Hs) as Hlb. pose proof (len_slice_refs s Hs) as Hlr.
  assert (Slice.remaining_refs s <= MAX_REFS) as Hmr.
  { destruct Hs as [_ _ ? ?]. unfold Slice.remaining_refs.
    pose proof (len_refs_slice (inner_refs (s_cell s))). unfold Cell.refs in *. lia. }
  unfold Builder.to_cell, Builder.to_builder.
  rewrite new_holding, store_slice_spec by (done || lia). change (len []) with 0.
  change (len (refs_slice RNone)) with 0. rewrite !(proj2 (Z.ltb_ge _ _)) by lia. cbn [res_bind].
  rewrite app_nil_l.
  assert (refs_slice (refs_app RNone (slice_refs s)) = slice_refs s) as Hrs.
  { rewrite refs_app_slice; [done|]. change (len (refs_slice RNone)) with 0. lia. }
  pose proof (slice_refs_wf s Hc) as Hwr.
  destruct (build_spec (slice_bits s) (refs_app RNone (slice_refs s))) as (c & Hb & Hcb & _ & _ & Hcr & Ht & Hwf).
  { lia. } { rewrite Hrs. by apply wf_masks. }
  exists c. split; [done|]. split; [apply Hwf; by rewrite Hrs|]. split; [done|]. split; [done|].
  unfold Cell.refs. by rewrite Hcr.
Qed.
End theorems.
