(* ===== verification/Merkle.v ===== *)
(** Merkle cells (core/src/cell/merkle.rs, merkle/proof.rs,
    merkle/virtualize.rs) and the check of a Merkle proof against a trusted
    hash (core/src/proof.rs): building the cell that stands for a tree,
    reading it back, and what a proof that passes the check says of the tree
    whose hash was trusted. *)

From S2P Require Import Prelude Errors Bits CellData CellHash CellModel Binding CellSlice CellBuilder Fields BuilderOps.
From stdpp Require Import base list list_numbers numbers strings.
From Stdlib Require Import ZArith Lia.

Local Open Scope Z_scope.

#[local] Arguments uint_bits : simpl never.

(** merkle/virtualize.rs and proof.rs name the same two offsets. *)
Definition COVERED_HASH : Z := 1.
Definition COVERED_DEPTH : Z := COVERED_HASH + 32.
Definition MERKLE_HASH : Z := 1.
Definition MERKLE_DEPTH : Z := 33.

Section merkle.
Context `{Hasher}.

Definition covering_cell (kind : CellType) (covered : list Cell) : result CellError Cell :=
  let? tag := ok_or (tag kind) (Malformed "an ordinary cell cannot cover a tree") in
  let? mask := res_fold (λ mask cell,
    if Cell.is_exotic cell then Err (Malformed "a merkle cell stands for an ordinary tree")
    else Ok (Z.lor mask (Cell.level_mask cell))) covered 0 in
  match (run! Builder.store_uint tag 8;
         run! st_for covered (λ cell, Builder.store_bytes (Cell.hash cell));
         run! st_for covered (λ cell, Builder.store_uint (Cell.depth cell) 16);
         st_for covered Builder.store_ref) Builder.new with
  | (Err e, _) => Err e
  | (Ok _, builder) => Builder.finish builder kind (Z.shiftr mask 1)
  end.

Definition create_proof (content : Cell) : result CellError Cell :=
  covering_cell MerkleProof [content].

Definition create_update (old new : Cell) : result CellError Cell :=
  covering_cell MerkleUpdate [old; new].

Definition virtualize (proof : Cell) : result CellError Cell :=
  if negb (bool_decide (Cell.cell_type proof = MerkleProof))
  then Err (Malformed "only a merkle proof can be virtualized")
  else
    let? content := ok_or (Cell.reference proof 0) (Malformed "merkle proof holds no content") in
    let data := Cell.data proof in
    let? claimed_hash := ok_or (get_range data COVERED_HASH (COVERED_HASH + 32))
                           (Malformed "merkle proof has no root hash") in
    if negb (bool_decide (claimed_hash = Cell.hash content))
    then Err (Malformed "merkle proof does not stand for its content")
    else
      let? claimed_depth := ok_or (get_range data COVERED_DEPTH (COVERED_DEPTH + 2))
                              (Malformed "merkle proof has no depth") in
      if negb (from_be_bytes claimed_depth =? Cell.depth content)
      then Err (Malformed "merkle proof depth does not match its content")
      else Ok content.

Definition is_virtualized (cell : Cell) : bool := 0 <? Cell.level cell.

(** [for _ in 0..cell.bit_len() { builder.store_bit(bits.load_bit()?)?; }], the
    loop every rebuilding function of the module opens with. *)
Definition copy_bit : stm (Builder * Slice) CellError unit := λ '(builder, bits),
  match Slice.load_bit bits with
  | (Err e, bits) => (Err e, (builder, bits))
  | (Ok bit, bits) => let '(r, builder) := Builder.store_bit bit builder in (r, (builder, bits))
  end.

Definition copy_data (cell : Cell) : result CellError Builder :=
  match st_for (seqZ 0 (Cell.bit_len cell)) (λ _, copy_bit) (Builder.new, Slice.new cell) with
  | (Err e, _) => Err e
  | (Ok _, (builder, _)) => Ok builder
  end.

Definition rebuild_with_refs (cell : Cell) (refs : list Cell) : result CellError Cell :=
  if Cell.is_exotic cell then Err (Malformed "only an ordinary cell rebuilds with new references")
  else
    let? builder := copy_data cell in
    match st_for refs Builder.store_ref builder with
    | (Err e, _) => Err e
    | (Ok _, builder) => Builder.build builder
    end.

Definition verify_merkle_proof (cell : Cell) (expected_root : list Z) : result BlockError Cell :=
  if negb (bool_decide (Cell.cell_type cell = MerkleProof)) then Err NotAMerkleProof
  else
    let data := Cell.data cell in
    let? stored := ok_or (get_range data MERKLE_HASH (MERKLE_HASH + 32))
                     (BMalformed "merkle proof without a root hash") in
    if negb (bool_decide (stored = expected_root)) then Err ProofNotAnchored
    else
      let? content := ok_or (Cell.reference cell 0) (BMalformed "merkle proof without content") in
      if negb (bool_decide (Cell.hash content = expected_root)) then Err ProofInconsistent
      else
        let? depth := ok_or (get_range data MERKLE_DEPTH (MERKLE_DEPTH + 2))
                        (BMalformed "merkle proof without a depth") in
        if negb (from_be_bytes depth =? Cell.depth content) then Err ProofInconsistent
        else Ok content.

Fixpoint rooted_at (roots : list Cell) (expected_root : list Z) : result BlockError Cell :=
  match roots with
  | [] => Err ProofNotAnchored
  | root :: roots' =>
      if negb (bool_decide (Cell.cell_type root = MerkleProof)) then rooted_at roots' expected_root
      else if bool_decide (get_range (Cell.data root) MERKLE_HASH (MERKLE_HASH + 32) = Some expected_root)
      then verify_merkle_proof root expected_root
      else rooted_at roots' expected_root
  end.
End merkle.

(** ** Bytes a covering cell carries *)

Lemma uint_bits_16 d : uint_bits 16 d = bytes_bits (to_be_bytes 2 d).
Proof.
  unfold bytes_bits. cbn [to_be_bytes app fmap list_fmap concat]. rewrite app_nil_r.
  rewrite (uint_bits_app 8 8 d : uint_bits 16 d = _). f_equal.
  - by rewrite (uint_bits_mod 8 _ 8) by lia.
  - by rewrite (uint_bits_mod 8 _ 8) by lia.
Qed.

Lemma be_bytes_2 d : 0 <= d <= U16_MAX → from_be_bytes (to_be_bytes 2 d) = d.
Proof. unfold U16_MAX, from_be_bytes. cbn [to_be_bytes app fold_left]. intros. zdiv. Qed.

Lemma packed_bytes_bits l : Forall is_byte l → packed (bytes_bits l) = l.
Proof.
  intros Hl. symmetry. pose proof (len_bytes_bits l) as Hn. pose proof (len_nonneg l).
  apply packed_unique; [rewrite Hn; unfold div_ceil; zdiv|done|]. clear Hn H.
  induction Hl as [|b l Hb Hl IH]; intros i Hi.
  { unfold data_bit, nth_bit. rewrite (proj2 (get_None [] _)), (proj2 (get_None (bytes_bits []) _)); [done|..];
      change (len []) with 0; change (len (bytes_bits [])) with 0; destruct (decide (i < 0)); zdiv. }
  rewrite bytes_bits_cons. change (b :: l) with ([b] ++ l).
  destruct (decide (i < 8)).
  - rewrite data_bit_app_l by (change (len [b]) with 1; lia).
    rewrite nth_bit_app_l by (rewrite len_uint_bits; lia).
    unfold data_bit. rewrite Z.div_small, Z.mod_small by lia. simpl.
    rewrite byte_bit_testbit by lia. unfold nth_bit, get. destruct (Z.ltb_spec i 0); [lia|].
    assert (i = 0 ∨ i = 1 ∨ i = 2 ∨ i = 3 ∨ i = 4 ∨ i = 5 ∨ i = 6 ∨ i = 7) as Hc by lia.
    by destruct Hc as [->|[->|[->|[->|[->|[->|[->| ->]]]]]]].
  - rewrite data_bit_app_r by (change (len [b]) with 1; lia).
    rewrite nth_bit_app_r by (rewrite len_uint_bits; lia). rewrite len_uint_bits.
    change (len [b]) with 1. apply IH. lia.
Qed.

Lemma stored_form_bytes l : Forall is_byte l → stored_form (bytes_bits l) = l.
Proof.
  intros Hl. unfold stored_form. rewrite len_bytes_bits, Z.mul_comm, Z.mod_mul by lia. simpl.
  by apply packed_bytes_bits.
Qed.

Lemma get_range_middle {A} (a b c : list A) n m :
  len a = n → n + len b = m → get_range (a ++ b ++ c) n m = Some b.
Proof.
  intros Ha Hb. unfold get_range. pose proof (len_nonneg a). pose proof (len_nonneg b).
  pose proof (len_nonneg c). rewrite !len_app, !(proj2 (Z.leb_le _ _)) by lia. simpl.
  rewrite drop_app_length' by (unfold len in *; lia). f_equal.
  apply take_app_length'. unfold len in *. lia.
Qed.

(** ** What covering a tree makes *)

Section covering.
Context `{HH : Hasher} `{!HasherOk HH}.

Lemma own_hashes_range c h d :
  cell_wf c → (h, d) ∈ own_hashes c → Forall is_byte h ∧ 0 <= d <= U16_MAX.
Proof.
  intros [c' _ [_ [Hby _]] Hm Hk _ _] Hin. unfold own_hashes in Hin.
  apply elem_of_app in Hin as [Hin|Hin].
  - unfold kind_ok in Hk. destruct (Cell.cell_type c'); try by apply not_elem_of_nil in Hin.
    apply list_elem_of_fmap in Hin as (i & [= -> ->] & Hi%elem_of_seqZ).
    split; [by apply Forall_take, Forall_drop|]. unfold stored_depth.
    assert (Forall is_byte (take 2 (drop (Z.to_nat (2 + 32 * count_ones 8 (Cell.level_mask c') + 2 * i)) (Cell.data c')))) as Hf
      by by apply Forall_take, Forall_drop.
    revert Hf. generalize (drop (Z.to_nat (2 + 32 * count_ones 8 (Cell.level_mask c') + 2 * i)) (Cell.data c')).
    intros [|x [|y l]]; unfold from_be_bytes, U16_MAX; intros Hf; [done|..].
    + change (take 2 [x]) with [x] in *. simpl. apply Forall_cons in Hf as [Hx _]. unfold is_byte in *. lia.
    + change (take 2 (x :: y :: l)) with [x; y] in *. simpl. apply Forall_cons in Hf as [Hx Hf]. apply Forall_cons in Hf as [Hy _]. unfold is_byte in *. lia.
  - apply list_elem_of_fmap in Hin as ([r d'] & [= -> ->] & Hr).
    split; [apply sha256_bytes|]. simpl. unfold own_reprs in Hr.
    assert (∀ refs l, 0 <= level_depth refs l <= U16_MAX) as Hld.
    { intros refs l. unfold level_depth.
      assert (∀ acc, 0 <= acc <= U16_MAX → 0 <= fold_left (λ depth child, Z.max depth
        (saturating_add U16_MAX (Identity.depth_at child l) 1)) refs acc <= U16_MAX) as Hacc.
      { induction refs as [|x refs IH]; intros acc Ha; simpl; [done|]. apply IH.
        unfold saturating_add. lia. }
      apply Hacc. unfold U16_MAX. lia. }
    assert (∀ data bits refs t mask ls below, (r, d') ∈ level_reprs data bits refs t mask ls below →
      0 <= d' <= U16_MAX) as Hlr.
    { intros data bits refs t mask ls. induction ls as [|l ls IH]; intros below Hl; simpl in Hl.
      - by apply not_elem_of_nil in Hl.
      - apply elem_of_cons in Hl as [[= -> ->]|Hl]; [apply Hld|by eapply IH]. }
    destruct (Cell.cell_type c'); try by eapply Hlr.
    apply list_elem_of_singleton in Hr as [= _ ->]. unfold U16_MAX. lia.
Qed.

Lemma hash_at_bytes c l : cell_wf c → 0 <= l → Forall is_byte (Cell.hash_at c l).
Proof.
  intros Hwf Hl. eapply (proj1 (own_hashes_range c _ (Cell.depth_at c l) Hwf _)).
  Unshelve. eapply list_elem_of_lookup_2. by apply cell_wf_at.
Qed.

Lemma depth_at_range c l : cell_wf c → 0 <= l → 0 <= Cell.depth_at c l <= U16_MAX.
Proof.
  intros Hwf Hl. eapply (proj2 (own_hashes_range c (Cell.hash_at c l) _ Hwf _)).
  Unshelve. eapply list_elem_of_lookup_2. by apply cell_wf_at.
Qed.

(** The bytes of a Merkle cell: its tag, then the hash of each covered tree at
    level zero, then their depths. *)
Definition covering_bytes (tag : Z) (covered : list Cell) : list Z :=
  tag :: concat (Cell.hash <$> covered) ++ concat ((λ c, to_be_bytes 2 (Cell.depth c)) <$> covered).

Lemma covering_bytes_ok t covered :
  is_byte t → Forall cell_wf covered →
  Forall is_byte (covering_bytes t covered) ∧ len (covering_bytes t covered) = 1 + 34 * len covered.
Proof.
  intros Ht Hc. unfold covering_bytes.
  assert (Forall is_byte (concat (Cell.hash <$> covered)) ∧ len (concat (Cell.hash <$> covered)) = 32 * len covered)
    as [H1 L1].
  { induction Hc as [|c l Hc Hl IH]; [done|]. cbn [fmap list_fmap concat]. destruct IH as [IH1 IH2].
    pose proof (hash_at_len c 0 Hc ltac:(lia)) as Hlen.
    split; [apply Forall_app; split; [by apply hash_at_bytes|done]|].
    rewrite len_app, IH2. unfold len, Cell.hash in *. simpl length. lia. }
  assert (Forall is_byte (concat ((λ c, to_be_bytes 2 (Cell.depth c)) <$> covered)) ∧
    len (concat ((λ c, to_be_bytes 2 (Cell.depth c)) <$> covered)) = 2 * len covered) as [H2 L2].
  { clear Hc H1 L1. induction covered as [|c l IH]; [done|]. cbn [fmap list_fmap concat]. destruct IH as [IH1 IH2].
    split; [apply Forall_app; split; [apply to_be_bytes_bytes|done]|].
    rewrite len_app, IH2. unfold len. simpl length. lia. }
  split; [constructor; [done|by apply Forall_app]|].
  rewrite len_cons, len_app, L1, L2. lia.
Qed.

Lemma store_hashes covered bs rs :
  Forall cell_wf covered → len bs + 256 * len covered <= MAX_BITS →
  st_for covered (λ c, Builder.store_bytes (Cell.hash c)) (holding bs rs) =
    (Ok tt, holding (bs ++ bytes_bits (concat (Cell.hash <$> covered))) rs).
Proof.
  intros Hc. revert bs. induction Hc as [|c l Hc Hl IH]; intros bs Hr; simpl.
  { unfold bytes_bits. simpl. by rewrite app_nil_r. }
  pose proof (hash_at_len c 0 Hc ltac:(lia)) as Hlen. fold (Cell.hash c) in Hlen.
  assert (len (c :: l) = 1 + len l) as Hcl by (unfold len; simpl; lia). pose proof (len_nonneg l).
  assert (len (Cell.hash c) = 32) as Hh by (unfold len; lia).
  erewrite st_bind_ok.
  2:{ rewrite store_bytes_spec; [|by apply hash_at_bytes|rewrite Hh; done].
      apply put_ok. rewrite len_bytes_bits. lia. }
  rewrite IH by (rewrite len_app, len_bytes_bits; lia).
  by rewrite bytes_bits_app, app_assoc.
Qed.

Lemma store_depths covered bs rs :
  Forall cell_wf covered → len bs + 16 * len covered <= MAX_BITS →
  st_for covered (λ c, Builder.store_uint (Cell.depth c) 16) (holding bs rs) =
    (Ok tt, holding (bs ++ bytes_bits (concat ((λ c, to_be_bytes 2 (Cell.depth c)) <$> covered))) rs).
Proof.
  intros Hc. revert bs. induction Hc as [|c l Hc Hl IH]; intros bs Hr.
  { simpl. unfold bytes_bits. simpl. by rewrite app_nil_r. }
  assert (len (c :: l) = 1 + len l) as Hcl by (unfold len; simpl; lia). pose proof (len_nonneg l).
  pose proof (depth_at_range c 0 Hc ltac:(lia)) as Hd. fold (Cell.depth c) in Hd. unfold U16_MAX in Hd.
  cbn [st_for fmap list_fmap concat]. erewrite st_bind_ok.
  2:{ rewrite (store_uint_fits 16) by lia. apply put_ok. rewrite len_uint_bits. lia. }
  rewrite IH by (rewrite len_app, len_uint_bits; lia).
  rewrite bytes_bits_app. change (uint_bits (Z.to_nat 16) (Cell.depth c)) with (uint_bits 16 (Cell.depth c)).
  rewrite uint_bits_16. by rewrite app_assoc.
Qed.

(** The kinds that cover trees, with their tag and how many they cover. *)
Definition covers (kind : CellType) (t n : Z) : Prop :=
  (kind = MerkleProof ∧ t = 3 ∧ n = 1) ∨ (kind = MerkleUpdate ∧ t = 4 ∧ n = 2).

Lemma covering_cell_spec kind t covered :
  covers kind t (len covered) → Forall cell_wf covered →
  Forall (λ c, Cell.cell_type c = Ordinary) covered →
  ∃ c, covering_cell kind covered = Ok c ∧ cell_wf c ∧ Cell.cell_type c = kind ∧
    Cell.data c = covering_bytes t covered ∧ Cell.refs c = covered.
Proof.
  intros Hk Hwf Hord.
  assert (tag kind = Some t ∧ is_byte t ∧ len covered <= 2 ∧ kind ≠ PrunedBranch)
    as (Htag & Hbt & Hlc & Hnp).
  { destruct Hk as [(-> & -> & ->)|(-> & -> & ->)]; repeat split; done || lia. }
  destruct (covering_bytes_ok t covered Hbt Hwf) as [Hby Hlen].
  pose proof (len_nonneg covered).
  unfold covering_cell. rewrite Htag. cbn [ok_or res_bind].
  set (mask := fold_left (λ acc child, Z.lor acc (id_mask child)) (Cell.identity <$> covered) 0).
  assert (res_fold (λ mask cell,
    if Cell.is_exotic cell then Err (Malformed "a merkle cell stands for an ordinary tree")
    else Ok (Z.lor mask (Cell.level_mask cell))) covered 0 = Ok mask) as ->.
  { subst mask. generalize 0. clear -Hord. induction Hord as [|c l Hc Hl IH]; intros acc; simpl; [done|].
    unfold Cell.is_exotic, Cell.cell_type in *. rewrite bool_decide_eq_true_2 by done. simpl. apply IH. }
  cbn [res_bind]. rewrite new_holding.
  erewrite st_bind_ok.
  2:{ rewrite (store_uint_fits 8) by (unfold is_byte in Hbt; lia). apply put_ok. rewrite len_uint_bits.
      unfold MAX_BITS. change (len []) with 0. lia. }
  erewrite st_bind_ok.
  2:{ apply store_hashes; [done|]. rewrite len_app, len_uint_bits. unfold MAX_BITS. change (len []) with 0. lia. }
  erewrite st_bind_ok.
  2:{ apply store_depths; [done|]. rewrite !len_app, len_uint_bits, len_bytes_bits.
      pose proof Hlen as Hl. unfold covering_bytes in Hl.
      rewrite len_cons, len_app in Hl.
      pose proof (len_nonneg (concat ((λ c, to_be_bytes 2 (Cell.depth c)) <$> covered))).
      unfold MAX_BITS. change (len []) with 0. lia. }
  rewrite store_ref_for by (change (len (refs_slice RNone)) with 0; unfold MAX_REFS; lia).
  match goal with |- context [holding ?b (refs_app _ _)] =>
    replace b with (bytes_bits (covering_bytes t covered)) by
      (unfold covering_bytes; rewrite bytes_bits_cons, bytes_bits_app, app_nil_l, app_assoc; done) end.
  assert (refs_slice (refs_app RNone covered) = covered) as Hrs.
  { rewrite refs_app_slice; [done|]. change (len (refs_slice RNone)) with 0. unfold MAX_REFS. lia. }
  assert (mask_ok mask) as Hmk by (apply fold_mask_ok, Forall_fmap; by apply wf_masks).
  destruct (finish_other (bytes_bits (covering_bytes t covered)) (refs_app RNone covered) kind (Z.shiftr mask 1))
    as (c & Hc & _ & _ & Hd & Hr & Ht & _ & Hwfc).
  { rewrite len_bytes_bits, Hlen. unfold MAX_BITS. lia. }
  { done. }
  { clear -Hmk. clearbody mask. case_mask mask; by vm_compute. }
  { rewrite Hrs. by destruct Hk as [(-> & _)|(-> & _)]. }
  rewrite stored_form_bytes in Hd by done.
  assert (Cell.refs c = covered) as Hrefs by (unfold Cell.refs; by rewrite Hr).
  exists c. split; [done|]. split; [|done]. apply Hwfc; [by rewrite Hrs|].
  unfold kind_ok. rewrite Ht, Hrefs, Hd.
  destruct Hk as [(-> & -> & Hn)|(-> & -> & Hn)]; unfold len in Hn; split; done || lia.
Qed.
End covering.

(** ** Reading through a proof *)

Section proofs.
Context `{HH : Hasher} `{!HasherOk HH}.

(** A proof that passes the check carries the hash asked for, and so does the
    tree attached to it. *)
Lemma verify_merkle_proof_inv p root content :
  verify_merkle_proof p root = Ok content →
  Cell.cell_type p = MerkleProof ∧ content ∈ Cell.refs p ∧ Cell.hash content = root.
Proof.
  unfold verify_merkle_proof, Cell.reference. intros E.
  destruct (bool_decide (Cell.cell_type p = MerkleProof)) eqn:Et; [|done].
  apply bool_decide_eq_true in Et. simpl in E. inv_res.
  destruct (bool_decide (a = root)); simpl in E; [|done].
  destruct (get (Cell.refs p) 0) as [x|] eqn:Ex; simpl in E; [|done].
  destruct (bool_decide (Cell.hash x = root)) eqn:Eh; simpl in E; [|done]. inv_res.
  destruct (_ =? _); simpl in E; [|done]. injection E as ->.
  split; [done|]. split; [by apply (list_elem_of_lookup_2 _ 0%nat)|by apply bool_decide_eq_true in Eh].
Qed.

Lemma rooted_at_inv roots root content :
  rooted_at roots root = Ok content →
  ∃ p, p ∈ roots ∧ verify_merkle_proof p root = Ok content.
Proof.
  induction roots as [|r roots IH]; simpl; [done|].
  destruct (negb _); [intros (p & Hp & Hv)%IH; exists p; split; [by right|done]|].
  destruct (bool_decide _); [intros Hv; exists r; split; [by left|done]|].
  intros (p & Hp & Hv)%IH. exists p. split; [by right|done].
Qed.

(** The proof a cell model stands for an ordinary tree with, read back. *)
Lemma create_proof_reads content :
  cell_wf content → Cell.cell_type content = Ordinary →
  ∃ p, create_proof content = Ok p ∧ cell_wf p ∧ virtualize p = Ok content ∧
    verify_merkle_proof p (Cell.hash content) = Ok content.
Proof.
  intros Hwf Ht.
  destruct (covering_cell_spec MerkleProof 3 [content]) as (p & Hp & Hwp & Hk & Hd & Hr).
  { by left. } { by constructor. } { by constructor. }
  exists p. split; [done|]. split; [done|].
  pose proof (hash_at_len content 0 Hwf ltac:(lia)) as Hlen. fold (Cell.hash content) in Hlen.
  assert (Cell.data p = [3] ++ Cell.hash content ++ to_be_bytes 2 (Cell.depth content)) as Hdata.
  { rewrite Hd. unfold covering_bytes. simpl. by rewrite !app_nil_r. }
  assert (get_range (Cell.data p) 1 33 = Some (Cell.hash content)) as G1.
  { rewrite Hdata. apply get_range_middle; unfold len; simpl; lia. }
  assert (get_range (Cell.data p) 33 35 = Some (to_be_bytes 2 (Cell.depth content))) as G2.
  { rewrite Hdata. rewrite app_assoc, <- (app_nil_r (to_be_bytes 2 _)).
    apply get_range_middle; unfold len; rewrite ?length_app; simpl; lia. }
  pose proof (depth_at_range content 0 Hwf ltac:(lia)) as Hdep. fold (Cell.depth content) in Hdep.
  assert (get (Cell.refs p) 0 = Some content) as G0 by by rewrite Hr.
  unfold virtualize, verify_merkle_proof, Cell.reference, COVERED_DEPTH, COVERED_HASH, MERKLE_HASH, MERKLE_DEPTH.
  change (1 + 32 + 2) with 35. change (33 + 2) with 35. change (1 + 32) with 33.
  rewrite Hk, G0, G1. cbn [ok_or res_bind]. rewrite !bool_decide_eq_true_2 by done.
  cbn [negb]. rewrite G2. cbn [ok_or res_bind]. by rewrite be_bytes_2, Z.eqb_refl by done.
Qed.

(** The bytes of a cell are the stored form of its bits. *)
Lemma wf_stored_form c : cell_wf c → Cell.data c = stored_form (Cell.bits c).
Proof.
  intros [c' Hb [Hlen [Hby Hcomp]] _ _ _ _]. unfold Cell.bits.
  assert (len (bits_of (Cell.data c') (Cell.bit_len c')) = Cell.bit_len c') as Hn
    by (apply len_bits_of; lia).
  pose proof (stored_form_completed (bits_of (Cell.data c') (Cell.bit_len c'))) as (Hl2 & Hby2 & Hc2).
  pose proof (stored_form_bits (bits_of (Cell.data c') (Cell.bit_len c'))) as Hbits.
  rewrite Hn in *. apply data_ext; [by rewrite Hl2|done|done|]. intros i Hi.
  destruct (decide (i < Cell.bit_len c')) as [Hlt|Hge].
  - pose proof (f_equal (λ l, get l i) Hbits) as E. cbv beta in E.
    rewrite !get_bits_of in E by lia. by injection E.
  - pose proof (div_ceil_8 (Cell.bit_len c') ltac:(lia)).
    destruct (decide (Cell.bit_len c' mod 8 = 0)) as [Em|Em].
    { rewrite Hlen in Hi. unfold div_ceil in *. zdiv. }
    destruct (Hcomp Em) as [C1 C2], (Hc2 Em) as [D1 D2].
    destruct (decide (i = Cell.bit_len c')) as [->|]; [by rewrite C1, D1|].
    by rewrite C2, D2 by lia.
Qed.

(** At level zero an ordinary cell hashes its data and what its children answer
    there; its own mask plays no part. *)
Lemma ordinary_level0 c :
  cell_wf c → Cell.cell_type c = Ordinary →
  Cell.hash c = sha256 (level_repr (Cell.data c) (Cell.bit_len c) (Cell.identity <$> Cell.refs c)
                          false 0 0 0 None) ∧
  Cell.depth c = level_depth (Cell.identity <$> Cell.refs c) 0.
Proof.
  intros Hwf Ht. pose proof (cell_wf_at c 0 Hwf ltac:(lia)) as Hat.
  assert (mask_ok (Cell.level_mask c)) as Hm by by destruct Hwf.
  unfold own_hashes, own_reprs in Hat. rewrite Ht in Hat.
  assert (Z.to_nat (hash_index (Cell.level_mask c) 0) = O ∧
    ∃ ls, significant (Cell.level_mask c) = 0 :: ls ∧
      ∀ refs, refs_descriptor refs false (Cell.level_mask c) 0 = refs_descriptor refs false 0 0)
    as (Hi & ls & Hs & Hrd).
  { clear -Hm. generalize dependent (Cell.level_mask c). intros m Hm.
    case_mask m; (split; [reflexivity|]); eexists; split; reflexivity. }
  rewrite Hi, Hs in Hat. simpl in Hat. injection Hat as E1 E2. fold (Cell.hash c) (Cell.depth c) in *.
  split; [|by rewrite <- E2]. rewrite <- E1. f_equal.
  unfold level_repr. by rewrite Hrd.
Qed.

(** What a cell's identity answers its parent with, at level zero. *)
Definition level0 (c : Cell) : list Z * Z := (Cell.hash c, Cell.depth c).

Lemma level_repr_level0 data bits l1 l2 :
  level0 <$> l1 = level0 <$> l2 →
  level_repr data bits (Cell.identity <$> l1) false 0 0 0 None =
  level_repr data bits (Cell.identity <$> l2) false 0 0 0 None ∧
  level_depth (Cell.identity <$> l1) 0 = level_depth (Cell.identity <$> l2) 0.
Proof.
  intros E.
  assert (∀ l : list Cell, (λ child, Identity.hash_at child 0) <$> (Cell.identity <$> l) = fst <$> (level0 <$> l)) as Eh.
  { intros l. rewrite <- !list_fmap_compose. done. }
  assert (∀ l : list Cell, (λ child, to_be_bytes 2 (Identity.depth_at child 0)) <$> (Cell.identity <$> l)
    = (λ d, to_be_bytes 2 d.2) <$> (level0 <$> l)) as Ed.
  { intros l. rewrite <- !list_fmap_compose. done. }
  assert (∀ l : list Cell, len (Cell.identity <$> l) = len (level0 <$> l)) as El by (intros; by rewrite !len_fmap).
  split.
  - unfold level_repr. by rewrite !Eh, !Ed, !El, E.
  - unfold level_depth. generalize 0 at 2 4. revert l2 E.
    induction l1 as [|a l1 IH]; intros [|b l2] E acc; try done.
    apply (f_equal (take 1)) in E as E1. apply (f_equal (drop 1)) in E. simpl in E, E1.
    injection E1 as _ E1. simpl. unfold Cell.depth, Cell.depth_at, Cell.identity in *.
    rewrite E1. by apply IH.
Qed.

Lemma ordinary_level0_eq c1 c2 :
  cell_wf c1 → cell_wf c2 → Cell.cell_type c1 = Ordinary → Cell.cell_type c2 = Ordinary →
  Cell.bits c1 = Cell.bits c2 → level0 <$> Cell.refs c1 = level0 <$> Cell.refs c2 →
  level0 c1 = level0 c2.
Proof.
  intros W1 W2 T1 T2 Hb Hr. unfold level0.
  destruct (ordinary_level0 c1 W1 T1) as [-> ->], (ordinary_level0 c2 W2 T2) as [-> ->].
  rewrite (wf_stored_form c1 W1), (wf_stored_form c2 W2), Hb.
  assert (Cell.bit_len c1 = Cell.bit_len c2) as ->.
  { rewrite <- (len_bits_of (Cell.data c1) (Cell.bit_len c1)) by (destruct W1; lia).
    rewrite <- (len_bits_of (Cell.data c2) (Cell.bit_len c2)) by (destruct W2; lia).
    unfold Cell.bits in Hb. by rewrite Hb. }
  destruct (level_repr_level0 (stored_form (Cell.bits c2)) (Cell.bit_len c2) _ _ Hr) as [-> ->]. done.
Qed.
End proofs.

(** ** Rebuilding a cell around other references *)

Section rebuild.
Context `{HH : Hasher} `{!HasherOk HH}.

Lemma copy_bit_for l s bs rs :
  slice_wf s → Slice.remaining_bits s = len l → len bs + len l <= MAX_BITS →
  st_for l (λ _ : Z, copy_bit) (holding bs rs, s) =
    (Ok tt, (holding (bs ++ slice_bits s) rs, step_bits (len l) s)).
Proof.
  revert s bs. induction l as [|x l IH]; intros s bs Hs Hr Hl.
  - pose proof (len_slice_bits s Hs) as Hn. rewrite Hr in Hn. change (len []) with 0 in *.
    rewrite step_bits_0. destruct (slice_bits s); [by rewrite app_nil_r|].
    rewrite len_cons in Hn. pose proof (len_nonneg l). lia.
  - rewrite len_cons in *. pose proof (len_nonneg l). cbn [st_for].
    destruct (slice_bits_cons s Hs ltac:(lia)) as (b & Hload & Hb).
    erewrite st_bind_ok.
    2:{ unfold copy_bit. rewrite Hload, store_bit_spec, put_ok by (change (len [b]) with 1; lia). done. }
    rewrite IH.
    + rewrite step_bits_step, Hb, <- app_assoc. do 4 f_equal.
    + apply step_bits_wf; [done|lia].
    + unfold Slice.remaining_bits in *. simpl. lia.
    + rewrite len_app. change (len [b]) with 1. lia.
Qed.

Lemma copy_data_spec c : cell_wf c → copy_data c = Ok (holding (Cell.bits c) RNone).
Proof.
  intros Hwf. destruct (slice_new_spec c Hwf) as (Hs & Hb & _ & Hl).
  unfold copy_data. rewrite new_holding.
  rewrite copy_bit_for by (rewrite ?len_seqZ; change (len []) with 0; done || lia).
  by rewrite new_bits.
Qed.

Lemma copy_data_bits c : cell_wf c → len (Cell.bits c) = Cell.bit_len c.
Proof. intros Hwf%cell_wf_bit_len. unfold Cell.bits. apply len_bits_of. lia. Qed.

(** A cell built from the bits of [c] and other references. *)
Lemma rebuild_ok c l :
  cell_wf c → Forall cell_wf l → len l <= MAX_REFS →
  ∃ c', st_for l Builder.store_ref (holding (Cell.bits c) RNone) =
      (Ok tt, holding (Cell.bits c) (refs_app RNone l)) ∧
    Builder.build (holding (Cell.bits c) (refs_app RNone l)) = Ok c' ∧
    cell_wf c' ∧ Cell.cell_type c' = Ordinary ∧ Cell.bits c' = Cell.bits c ∧ Cell.refs c' = l.
Proof.
  intros Hwf Hl Hn. assert (refs_slice (refs_app RNone l) = l) as Hrs.
  { rewrite refs_app_slice; [done|]. change (len (refs_slice RNone)) with 0. lia. }
  pose proof (cell_wf_bit_len c Hwf).
  destruct (build_spec (Cell.bits c) (refs_app RNone l)) as (c' & Hc & Hb & _ & _ & Hr & Ht & Hwf').
  { rewrite copy_data_bits by done. lia. } { rewrite Hrs. by apply wf_masks. }
  exists c'. split; [apply store_ref_for; change (len (refs_slice RNone)) with 0; lia|].
  split; [done|]. split; [apply Hwf'; by rewrite Hrs|]. do 2 (split; [done|]).
  unfold Cell.refs. by rewrite Hr.
Qed.

Lemma store_ref_for_err l bs rs :
  MAX_REFS < len (refs_slice rs) + len l →
  ∃ b, st_for l Builder.store_ref (holding bs rs) = (Err (NoRoomForRefs MAX_REFS), b).
Proof.
  revert rs. induction l as [|c l IH]; intros rs Hl.
  { pose proof (len_refs_slice rs). change (len []) with 0 in Hl. lia. }
  rewrite len_cons in Hl. cbn [st_for]. unfold st_bind. rewrite store_ref_spec.
  destruct (Z.leb_spec MAX_REFS (len (refs_slice rs))) as [|Hlt]; [by eexists|].
  apply IH. rewrite refs_app_slice, len_app; change (len [c]) with 1; lia.
Qed.
End rebuild.

(** ** Theorems *)

Section theorems.
Context `{HH : Hasher} `{!HasherOk HH}.

(** C7: a Merkle proof that verifies against a trusted hash shows the tree that
    hash names: the content it returns agrees, node for node, with any
    well-formed tree of that hash, except below the branches one of the two
    prunes, and those answer with the same hash. SHA-256 is assumed not to
    collide on the byte strings hashed in building the two trees. *)
Theorem verify_merkle_proof_sound proof root content tree :
  cell_wf proof → verify_merkle_proof proof root = Ok content →
  cell_wf tree → Cell.hash tree = root →
  collision_free (λ x, hashed content x ∨ hashed tree x) →
  cell_wf content ∧ agrees 0 content tree.
Proof.
  intros Hp Hv Ht Hh Hcf. apply verify_merkle_proof_inv in Hv as (_ & Hin & Hroot).
  apply cell_wf_refs in Hp. rewrite Forall_forall in Hp. specialize (Hp _ Hin).
  split; [done|]. apply hash_at_agrees; [done..|]. by unfold Cell.hash in *; rewrite Hroot.
Qed.

(** Of the roots a server sends, the search returns the content of one that
    is a verified Merkle proof of the hash asked for, and nothing else. *)
Theorem rooted_at_verified roots root content :
  rooted_at roots root = Ok content →
  ∃ proof, proof ∈ roots ∧ Cell.cell_type proof = MerkleProof ∧ content ∈ Cell.refs proof ∧
    Cell.hash content = root ∧ verify_merkle_proof proof root = Ok content.
Proof.
  intros (p & Hp & Hv)%rooted_at_inv. exists p. split; [done|].
  by destruct (verify_merkle_proof_inv p root content Hv) as (? & ? & ?).
Qed.

(** The Merkle proof made for an ordinary tree virtualizes back to that tree
    and verifies against its hash; one for an exotic tree is refused. *)
Theorem create_proof_roundtrip content :
  cell_wf content →
  if Cell.is_exotic content then is_ok (create_proof content) = false
  else ∃ p, create_proof content = Ok p ∧ cell_wf p ∧ virtualize p = Ok content ∧
         verify_merkle_proof p (Cell.hash content) = Ok content.
Proof.
  intros Hwf. destruct (Cell.is_exotic content) eqn:Ex.
  - unfold create_proof, covering_cell. simpl. by rewrite Ex.
  - apply create_proof_reads; [done|]. unfold Cell.is_exotic in Ex.
    by apply negb_false_iff, bool_decide_eq_true in Ex.
Qed.

(** Rebuilding an ordinary cell around references that answer the same hash
    and depth at level zero as the ones it had, pruned or not, keeps its own
    hash and depth at level zero: the substitution Merkle proofs rest on. *)
Theorem rebuild_keeps_hash cell refs :
  cell_wf cell → Forall cell_wf refs → Cell.cell_type cell = Ordinary →
  level0 <$> refs = level0 <$> Cell.refs cell →
  ∃ c, rebuild_with_refs cell refs = Ok c ∧ cell_wf c ∧ Cell.refs c = refs ∧
    Cell.bits c = Cell.bits cell ∧ Cell.hash c = Cell.hash cell ∧ Cell.depth c = Cell.depth cell.
Proof.
  intros Hwf Hrefs Ht Hl0. assert (len refs <= MAX_REFS) as Hn.
  { apply (f_equal len) in Hl0. rewrite !len_fmap in Hl0. rewrite Hl0. apply len_refs_slice. }
  destruct (rebuild_ok cell refs Hwf Hrefs Hn) as (c & Hs & Hb & Hwc & Htc & Hbits & Hr).
  exists c. unfold rebuild_with_refs, Cell.is_exotic. unfold Cell.cell_type in Ht.
  rewrite bool_decide_eq_true_2 by done. cbn [negb].
  rewrite copy_data_spec by done. cbn [res_bind]. rewrite Hs.
  do 4 (split; [done|]).
  assert (level0 c = level0 cell) as [= -> ->]; [|done].
  apply ordinary_level0_eq; try done. by rewrite Hr.
Qed.
End theorems.
