(* ===== verification/MerkleUpdate.v ===== *)
(** Merkle updates (core/src/cell/merkle/update.rs): checking one, applying one
    to the tree it transforms, combining two that chain, and the round trips: an
    update made from two pruned trees, applied to the full old tree, rebuilds the
    new one, and the combination of two does what they do in turn. *)

From S2P Require Import Prelude Errors Bits CellData CellHash CellModel Binding CellSlice CellBuilder Fields BuilderOps Merkle.
From stdpp Require Import base list list_numbers numbers strings gmap.
From Stdlib Require Import ZArith Lia.

Local Open Scope Z_scope.

Definition OLD_HASH : Z := 1.
Definition NEW_HASH : Z := OLD_HASH + 32.
Definition OLD_DEPTH : Z := NEW_HASH + 32.
Definition NEW_DEPTH : Z := OLD_DEPTH + 2.

(** Every subtree under its level-zero hash; a hash already held is not walked again.
    The map is the [HashMap<[u8; 32], Cell>]. *)
Fixpoint index_by_hash (tree : Cell) (into : gmap (list Z) Cell) : gmap (list Z) Cell :=
  match tree with
  | MkCell d b r t i =>
      match into !! Cell.hash (MkCell d b r t i) with
      | Some _ => into
      | None =>
          let into := <[Cell.hash (MkCell d b r t i) := MkCell d b r t i]> into in
          match r with
          | RNone => into
          | ROne x => index_by_hash x into
          | RTwo x y => index_by_hash y (index_by_hash x into)
          | RThree x y z => index_by_hash z (index_by_hash y (index_by_hash x into))
          | RFour x y z w =>
              index_by_hash w (index_by_hash z (index_by_hash y (index_by_hash x into)))
          end
      end
  end.

(** [builder.store_ref(child?)?] *)
Definition store_built (child : result CellError Cell) (builder : Builder) : result CellError Builder :=
  let? cell := child in
  match Builder.store_ref cell builder with
  | (Ok _, builder) => Ok builder
  | (Err e, _) => Err e
  end.

Section update.
Context `{Hasher}.

Fixpoint graft (node : Cell) (base : gmap (list Z) Cell) : result CellError Cell :=
  match node with
  | MkCell d b r t i =>
      match t with
      | PrunedBranch =>
          ok_or (base !! Cell.hash (MkCell d b r t i))
            (Malformed "merkle update prunes a subtree the base does not hold")
      | LibraryReference => Ok (MkCell d b r t i)
      | MerkleProof | MerkleUpdate =>
          Err (Malformed "a merkle update rebuilds no merkle cell nested inside it")
      | Ordinary =>
          let? builder := copy_data (MkCell d b r t i) in
          let? builder :=
            match r with
            | RNone => Ok builder
            | ROne x => store_built (graft x base) builder
            | RTwo x y =>
                let? builder := store_built (graft x base) builder in
                store_built (graft y base) builder
            | RThree x y z =>
                let? builder := store_built (graft x base) builder in
                let? builder := store_built (graft y base) builder in
                store_built (graft z base) builder
            | RFour x y z w =>
                let? builder := store_built (graft x base) builder in
                let? builder := store_built (graft y base) builder in
                let? builder := store_built (graft z base) builder in
                store_built (graft w base) builder
            end in
          Builder.build builder
      end
  end.

(** One side of the check: the hash and depth stored against the tree attached. *)
Definition validate_side (update : Cell) (side : Z * Z * Z) : result CellError unit :=
  let '(side, hash_at, depth_at) := side in
  let data := Cell.data update in
  let? content := ok_or (Cell.reference update side) (Malformed "merkle update is missing a side") in
  let? stored_hash := ok_or (get_range data hash_at (hash_at + 32)) (Malformed "merkle update has no hash") in
  if negb (bool_decide (stored_hash = Cell.hash content))
  then Err (Malformed "merkle update does not stand for its content")
  else
    let? stored_depth := ok_or (get_range data depth_at (depth_at + 2))
                           (Malformed "merkle update has no depth") in
    if negb (from_be_bytes stored_depth =? Cell.depth content)
    then Err (Malformed "merkle update depth does not match its content")
    else Ok tt.

Definition validate_update (update : Cell) : result CellError unit :=
  if negb (bool_decide (Cell.cell_type update = MerkleUpdate)) then Err (Malformed "not a merkle update")
  else res_fold (λ _, validate_side update) [(0, OLD_HASH, OLD_DEPTH); (1, NEW_HASH, NEW_DEPTH)] tt.

Definition may_apply (base update : Cell) : result CellError (option Cell) :=
  if negb (bool_decide (Cell.cell_type update = MerkleUpdate))
  then Err (Malformed "only a merkle update can be applied")
  else
    let data := Cell.data update in
    let? stored_old := ok_or (get_range data OLD_HASH (OLD_HASH + 32))
                         (Malformed "merkle update has no old hash") in
    if negb (bool_decide (stored_old = Cell.hash base)) then Ok None
    else
      let? new := ok_or (Cell.reference update 1) (Malformed "merkle update has no new side") in
      let? rebuilt := graft new (index_by_hash base ∅) in
      let? stored_new := ok_or (get_range data NEW_HASH (NEW_HASH + 32))
                           (Malformed "merkle update has no new hash") in
      if negb (bool_decide (stored_new = Cell.hash rebuilt))
      then Err (Malformed "merkle update did not rebuild its new hash")
      else Ok (Some rebuilt).

Definition apply_update (base update : Cell) : result CellError Cell :=
  let? applied := may_apply base update in
  ok_or applied (Malformed "merkle update does not apply to this base").

(** The ordinary cells of a tree under their level-zero hashes; one whose hash is held
    already takes its place and is not walked again. *)
Fixpoint revealed_cells (tree : Cell) (into : gmap (list Z) Cell) : gmap (list Z) Cell :=
  match tree with
  | MkCell d b r t i =>
      match t with
      | Ordinary =>
          let prior := into !! Cell.hash (MkCell d b r t i) in
          let into := <[Cell.hash (MkCell d b r t i) := MkCell d b r t i]> into in
          match prior with
          | Some _ => into
          | None =>
              match r with
              | RNone => into
              | ROne x => revealed_cells x into
              | RTwo x y => revealed_cells y (revealed_cells x into)
              | RThree x y z => revealed_cells z (revealed_cells y (revealed_cells x into))
              | RFour x y z w =>
                  revealed_cells w (revealed_cells z (revealed_cells y (revealed_cells x into)))
              end
          end
      | _ => into
      end
  end.

Fixpoint splice_revealed (node : Cell) (revealed : gmap (list Z) Cell) : result CellError Cell :=
  match node with
  | MkCell d b r t i =>
      match t with
      | PrunedBranch => Ok (default (MkCell d b r t i) (revealed !! Cell.hash (MkCell d b r t i)))
      | Ordinary =>
          let? builder := copy_data (MkCell d b r t i) in
          let? builder :=
            match r with
            | RNone => Ok builder
            | ROne x => store_built (splice_revealed x revealed) builder
            | RTwo x y =>
                let? builder := store_built (splice_revealed x revealed) builder in
                store_built (splice_revealed y revealed) builder
            | RThree x y z =>
                let? builder := store_built (splice_revealed x revealed) builder in
                let? builder := store_built (splice_revealed y revealed) builder in
                store_built (splice_revealed z revealed) builder
            | RFour x y z w =>
                let? builder := store_built (splice_revealed x revealed) builder in
                let? builder := store_built (splice_revealed y revealed) builder in
                let? builder := store_built (splice_revealed z revealed) builder in
                store_built (splice_revealed w revealed) builder
            end in
          Builder.build builder
      | _ => Err (Malformed "combining a merkle update over an unexpected exotic cell")
      end
  end.

Definition combine_updates (first second : Cell) : result CellError Cell :=
  let? _ := validate_update first in
  let? _ := validate_update second in
  let missing := Malformed "merkle update is missing a side" in
  let? first_old := ok_or (Cell.reference first 0) missing in
  let? first_new := ok_or (Cell.reference first 1) missing in
  let? second_old := ok_or (Cell.reference second 0) missing in
  let? second_new := ok_or (Cell.reference second 1) missing in
  if negb (bool_decide (Cell.hash first_new = Cell.hash second_old))
  then Err (Malformed "merkle updates do not chain: the first's new tree is not the second's old")
  else
    let first_new_revealed := revealed_cells first_new ∅ in
    let second_old_revealed := revealed_cells second_old ∅ in
    let? old_side := splice_revealed first_old second_old_revealed in
    let? new_side := splice_revealed second_new first_new_revealed in
    create_update old_side new_side.

(** ** The walks as folds over the references *)

Lemma revealed_cells_eq c M :
  Cell.cell_type c = Ordinary →
  revealed_cells c M =
    match M !! Cell.hash c with
    | Some _ => <[Cell.hash c := c]> M
    | None => fold_left (λ M x, revealed_cells x M) (Cell.refs c) (<[Cell.hash c := c]> M)
    end.
Proof. destruct c as [d b [] t i]; unfold Cell.cell_type; cbn [inner_cell_type]; intros ->; reflexivity. Qed.

Lemma revealed_cells_other c M : Cell.cell_type c ≠ Ordinary → revealed_cells c M = M.
Proof. destruct c as [d b r t i]. unfold Cell.cell_type. cbn [inner_cell_type]. by destruct t. Qed.

Lemma index_by_hash_eq c M :
  index_by_hash c M =
    match M !! Cell.hash c with
    | Some _ => M
    | None => fold_left (λ M x, index_by_hash x M) (Cell.refs c) (<[Cell.hash c := c]> M)
    end.
Proof. destruct c as [d b [] t i]; reflexivity. Qed.

Lemma graft_pruned c base :
  Cell.cell_type c = PrunedBranch →
  graft c base = ok_or (base !! Cell.hash c) (Malformed "merkle update prunes a subtree the base does not hold").
Proof. destruct c as [d b r t i]. unfold Cell.cell_type. simpl. by intros ->. Qed.

Lemma graft_library c base : Cell.cell_type c = LibraryReference → graft c base = Ok c.
Proof. destruct c as [d b r t i]. unfold Cell.cell_type. simpl. by intros ->. Qed.

Lemma graft_ordinary c base :
  Cell.cell_type c = Ordinary →
  graft c base =
    let? builder := copy_data c in
    let? builder := res_fold (λ b x, store_built (graft x base) b) (Cell.refs c) builder in
    Builder.build builder.
Proof.
  destruct c as [d b r t i]. unfold Cell.cell_type. simpl. intros ->.
  destruct (copy_data _) as [b0|]; [|done]. simpl.
  destruct r; simpl; try done;
    repeat match goal with
    | |- context [store_built (graft ?x base) ?b] => destruct (store_built (graft x base) b); simpl; [|done]
    end; done.
Qed.
End update.

Section splice.
Context `{Hasher}.

Lemma splice_pruned c R : Cell.cell_type c = PrunedBranch → splice_revealed c R = Ok (default c (R !! Cell.hash c)).
Proof. destruct c as [d b r t i]. unfold Cell.cell_type. cbn [inner_cell_type]. by intros ->. Qed.

Lemma splice_ordinary c R :
  Cell.cell_type c = Ordinary →
  splice_revealed c R =
    let? builder := copy_data c in
    let? builder := res_fold (λ b x, store_built (splice_revealed x R) b) (Cell.refs c) builder in
    Builder.build builder.
Proof.
  destruct c as [d b r t i]. unfold Cell.cell_type. simpl. intros ->.
  destruct (copy_data _) as [b0|]; [|done]. simpl.
  destruct r; simpl; try done;
    repeat match goal with
    | |- context [store_built (splice_revealed ?x R) ?b] => destruct (store_built (splice_revealed x R) b); simpl; [|done]
    end; done.
Qed.
End splice.

(** ** What the index holds *)

(** The subtrees of a tree, itself included. *)
Inductive below (c : Cell) : Cell → Prop :=
| below_self : below c c
| below_ref x y : below c x → y ∈ Cell.refs x → below c y.

Lemma below_trans a b c : below a b → below b c → below a c.
Proof. intros Hab. induction 1 as [|x y _ IH Hy]; [done|]. by eapply below_ref. Qed.

Lemma below_inv c x : below c x → x = c ∨ ∃ y, y ∈ Cell.refs c ∧ below y x.
Proof.
  induction 1 as [|x y Hx IH Hy]; [by left|]. right. destruct IH as [->|(z & Hz & Hzx)].
  - exists y. split; [done|constructor].
  - exists z. split; [done|by eapply below_ref].
Qed.

Section index.
Context `{HH : Hasher}.
Variable base : Cell.

(** Subtrees of one hash hold references of the same hashes. *)
Definition consistent : Prop :=
  ∀ x y, below base x → below base y → Cell.hash x = Cell.hash y →
    Cell.hash <$> Cell.refs x = Cell.hash <$> Cell.refs y.

(** Every hash held, but those still being walked, is held with the hashes of
    its references. *)
Definition closed (M : gmap (list Z) Cell) (walking : list Z → Prop) : Prop :=
  ∀ x, below base x → is_Some (M !! Cell.hash x) → walking (Cell.hash x) ∨
    Forall (λ y, is_Some (M !! Cell.hash y)) (Cell.refs x).

Definition grows (M M' : gmap (list Z) Cell) : Prop := ∀ h, is_Some (M !! h) → is_Some (M' !! h).

Lemma index_closed c :
  consistent → ∀ M walking, below base c → closed M walking →
  closed (index_by_hash c M) walking ∧ grows M (index_by_hash c M) ∧
  is_Some (index_by_hash c M !! Cell.hash c).
Proof.
  intros Hcons. induction c as [d b r t i IH] using cell_tree_ind. intros M walking Hb Hcl.
  set (c := MkCell d b r t i) in *. change (refs_slice r) with (Cell.refs c) in IH. clearbody c.
  rewrite index_by_hash_eq. destruct (M !! Cell.hash c) as [x|] eqn:Ec.
  { split; [done|]. split; [by intros h|]. by rewrite Ec. }
  set (M1 := <[Cell.hash c := c]> M).
  set (walking1 := λ h, walking h ∨ h = Cell.hash c).
  assert (grows M M1 ∧ is_Some (M1 !! Cell.hash c)) as [Hg1 Hc1].
  { split; [|unfold M1; rewrite lookup_insert_eq; by eexists].
    intros h Hh. unfold M1. destruct (decide (h = Cell.hash c)) as [->|].
    - rewrite lookup_insert_eq. by eexists.
    - by rewrite lookup_insert_ne. }
  assert (closed M1 walking1) as Hcl1.
  { intros x Hx Hin. destruct (decide (Cell.hash x = Cell.hash c)) as [E|E]; [by left; right|].
    unfold M1 in Hin. rewrite lookup_insert_ne in Hin by done.
    destruct (Hcl x Hx Hin) as [Hw|Hf]; [by left; left|right].
    eapply Forall_impl; [exact Hf|]. auto. }
  assert (∀ l M2, (∀ y, y ∈ l → y ∈ Cell.refs c) → closed M2 walking1 →
    let M' := fold_left (λ M x, index_by_hash x M) l M2 in
    closed M' walking1 ∧ grows M2 M' ∧ Forall (λ y, is_Some (M' !! Cell.hash y)) l) as Hfold.
  { induction l as [|y l IHl]; intros M2 Hl Hcl2; simpl.
    { split; [done|]. split; [by intros h|constructor]. }
    rewrite Forall_forall in IH.
    destruct (IH y (Hl y ltac:(left)) M2 walking1) as (C1 & G1 & S1); [|done|].
    { eapply below_ref; [exact Hb|]. apply Hl. left. }
    destruct (IHl (index_by_hash y M2)) as (C2 & G2 & S2); [|done|].
    { intros z Hz. apply Hl. by right. }
    split; [done|]. split; [intros h Hh; auto|]. constructor; auto. }
  destruct (Hfold (Cell.refs c) M1 (λ y H, H) Hcl1) as (C & G & S).
  split; [|split; [intros h Hh; auto|auto]].
  intros x Hx Hin. destruct (C x Hx Hin) as [[Hw|Hw]|Hf]; [by left| |by right]. right.
  pose proof (Hcons x c Hx Hb Hw) as Er.
  apply Forall_forall. intros y Hy. rewrite Forall_forall in S.
  assert (Cell.hash y ∈ Cell.hash <$> Cell.refs c) as Hyc.
  { rewrite <- Er. by apply list_elem_of_fmap_2. }
  apply list_elem_of_fmap in Hyc as (z & -> & Hz). auto.
Qed.

Lemma index_complete c :
  consistent → below base c → is_Some (index_by_hash base ∅ !! Cell.hash c).
Proof.
  intros Hcons. destruct (index_closed base Hcons ∅ (λ _, False)) as (C & _ & S).
  { constructor. } { intros x _ Hn. rewrite lookup_empty in Hn. by destruct Hn. }
  induction 1 as [|x y Hx IH Hy]; [done|].
  destruct (C x Hx IH) as [[]|Hf]. rewrite Forall_forall in Hf. auto.
Qed.

Lemma index_values c M h y :
  index_by_hash c M !! h = Some y → M !! h = Some y ∨ (below c y ∧ Cell.hash y = h).
Proof.
  revert M. induction c as [d b r t i IH] using cell_tree_ind. intros M.
  set (c := MkCell d b r t i) in *. change (refs_slice r) with (Cell.refs c) in IH. clearbody c.
  rewrite index_by_hash_eq. destruct (M !! Cell.hash c); [by left|].
  assert (∀ l M2, (∀ z, z ∈ l → z ∈ Cell.refs c) →
    fold_left (λ M x, index_by_hash x M) l M2 !! h = Some y →
    M2 !! h = Some y ∨ (below c y ∧ Cell.hash y = h)) as Hfold.
  { induction l as [|z l IHl]; intros M2 Hl E; simpl in E; [by left|].
    apply IHl in E as [E|E]; [|by right|intros w Hw; apply Hl; by right].
    rewrite Forall_forall in IH. apply IH in E as [E|[E1 E2]]; [by left| |apply Hl; left].
    right. split; [|done]. eapply below_trans; [|exact E1].
    eapply below_ref; [constructor|]. apply Hl. left. }
  intros E. apply Hfold in E as [E|E]; [|by right|done].
  destruct (decide (h = Cell.hash c)) as [->|Hne].
  - rewrite lookup_insert_eq in E. injection E as <-. right. split; [constructor|done].
  - rewrite lookup_insert_ne in E by done. by left.
Qed.
End index.

(** ** Grafting what the new side pruned *)

Section graft.
Context `{HH : Hasher} `{!HasherOk HH}.

(** Nothing in the tree is, or stands above, a pruned branch. *)
Definition plain (base : Cell) : Prop := ∀ x, below base x → Cell.level_mask x = 0.

Lemma below_wf c x : cell_wf c → below c x → cell_wf x.
Proof.
  intros Hwf. induction 1 as [|x y _ IH Hy]; [done|].
  apply cell_wf_refs in IH. rewrite Forall_forall in IH. auto.
Qed.

Lemma below_hashed c x z : below c x → hashed x z → hashed c z.
Proof.
  intros Hb. revert z. induction Hb as [|x y _ IH Hy]; intros z Hz; [done|].
  apply IH. by eapply hashed_below.
Qed.

Lemma plain_hash c l : Cell.level_mask c = 0 → Cell.hash_at c l = Cell.hash c ∧ Cell.depth_at c l = Cell.depth c.
Proof.
  unfold Cell.hash, Cell.depth, Cell.hash_at, Cell.depth_at, Cell.level_mask.
  unfold Identity.hash_at, Identity.depth_at. intros ->.
  assert (∀ l, hash_index 0 l = 0) as E; [|by rewrite !E].
  intros k. unfold hash_index, applied_mask. rewrite Z.land_0_l. by destruct (3 <=? k).
Qed.

(** Cells that nothing is pruned from are told apart by their hash. *)
Lemma plain_same_within P x y :
  collision_free P → cell_wf x → cell_wf y → Cell.level_mask x = 0 → Cell.level_mask y = 0 →
  (∀ z, hashed x z → P z) → (∀ z, hashed y z → P z) → Cell.hash x = Cell.hash y → same x y.
Proof.
  intros Hcf Wx Wy Mx My Px Py E. apply (agrees_same x y 3); [done..|].
  apply hash_at_agrees; [done..| |].
  - intros a b Ha Hb. apply Hcf; [destruct Ha|destruct Hb]; auto.
  - by destruct (plain_hash x 3 Mx) as [-> _], (plain_hash y 3 My) as [-> _].
Qed.

Lemma plain_same base x y :
  cell_wf base → plain base → collision_free (hashed base) →
  below base x → below base y → Cell.hash x = Cell.hash y → same x y.
Proof.
  intros Hwf Hp Hcf Hx Hy. apply (plain_same_within (hashed base)); auto;
    eauto using below_wf, below_hashed.
Qed.

Lemma same_level0 x y : same x y → level0 x = level0 y.
Proof.
  intros E%same_identity. unfold level0, Cell.hash, Cell.depth, Cell.hash_at, Cell.depth_at.
  unfold Cell.identity in E. by rewrite E.
Qed.

Lemma same_refs_identity l1 l2 : Forall2 same l1 l2 → Cell.identity <$> l1 = Cell.identity <$> l2.
Proof. induction 1 as [|x y l1 l2 H%same_identity _ IH]; [done|]. by apply (f_equal2 cons). Qed.

(** Cells of one kind, the same bits and the same references are the same. *)
Lemma same_parts c1 c2 :
  cell_wf c1 → cell_wf c2 → Cell.cell_type c1 = Cell.cell_type c2 → Cell.bits c1 = Cell.bits c2 →
  Forall2 same (Cell.refs c1) (Cell.refs c2) → same c1 c2.
Proof.
  intros W1 W2 Et Hb Hr. pose proof (same_refs_identity _ _ Hr) as Hid.
  assert (Cell.data c1 = Cell.data c2) as Hd by by rewrite (wf_stored_form c1 W1), (wf_stored_form c2 W2), Hb.
  assert (Cell.bit_len c1 = Cell.bit_len c2) as Hl by by rewrite <- (copy_data_bits c1 W1), <- (copy_data_bits c2 W2), Hb.
  apply same_intro; [done|done|done| |done].
  destruct W1 as [c1 _ _ _ K1 S1 _], W2 as [c2 _ _ _ K2 S2 _].
  assert (Cell.level_mask c1 = Cell.level_mask c2) as Emask.
  { revert S1 S2. unfold summarize. rewrite Hid, Et.
    repeat match goal with |- context [negb (?a =? ?b)] => destruct (Z.eqb_spec a b); simpl; [|done] end.
    intros _ _. revert K1 K2. unfold kind_ok. rewrite Et, Hd.
    destruct (Cell.cell_type c2); simpl in *; try congruence.
    intros (_ & _ & [_ E1] & _) (_ & _ & [_ E2] & _). congruence. }
  rewrite Hd, Hl, Et, Hid, Emask, S2 in S1. by injection S1.
Qed.

Lemma same_ordinary c1 c2 :
  cell_wf c1 → cell_wf c2 → Cell.cell_type c1 = Ordinary → Cell.cell_type c2 = Ordinary →
  Cell.bits c1 = Cell.bits c2 → Forall2 same (Cell.refs c1) (Cell.refs c2) → same c1 c2.
Proof. intros W1 W2 T1 T2. apply same_parts; congruence. Qed.

Lemma plain_consistent base :
  cell_wf base → plain base → collision_free (hashed base) → consistent base.
Proof.
  intros Hwf Hp Hcf x y Hx Hy E. destruct (plain_same base x y) as [x' y' _ _ _ _ Hr]; try done.
  clear -Hr. induction Hr as [|x y l1 l2 Hxy%same_level0 _ IH]; [done|].
  apply (f_equal2 cons); [|done]. by injection Hxy.
Qed.

(** A pruned picture of a tree [B], against a base the pruned parts come from:
    node for node the tree, or a branch that answers for a subtree of the base. *)
Local Unset Elimination Schemes.
Inductive shows (base : Cell) : Cell → Cell → Prop :=
| shows_pruned n B :
    Cell.cell_type n = PrunedBranch → level0 n = level0 B → below base B → shows base n B
| shows_library n : Cell.cell_type n = LibraryReference → shows base n n
| shows_node n B :
    Cell.cell_type n = Ordinary → Cell.cell_type B = Ordinary → Cell.bits n = Cell.bits B →
    Forall2 (shows base) (Cell.refs n) (Cell.refs B) → shows base n B.
Local Set Elimination Schemes.

Lemma shows_level0 base n : ∀ B, cell_wf n → cell_wf B → shows base n B → level0 n = level0 B.
Proof.
  induction n as [d b r t i IH] using cell_tree_ind. intros B Wn WB Hs.
  set (n := MkCell d b r t i) in *. change (refs_slice r) with (Cell.refs n) in IH. clearbody n.
  inversion Hs as [n' B' _ E _|n' _|n' B' Tn TB Hb Hr]; subst; [done..|].
  apply ordinary_level0_eq; [done..|]. apply cell_wf_refs in Wn, WB. clear Hs.
  induction Hr as [|x y l1 l2 Hxy Hr IHr]; [done|].
  apply Forall_cons in IH as [IHx IH], Wn as [Wx Wn], WB as [Wy WB].
  cbn [fmap list_fmap]. apply (f_equal2 cons); auto.
Qed.

(** The loop of the functions that build a cell over cells they build. *)
Lemma store_built_all {A} (f : A → result CellError Cell) l cs bs rs :
  Forall2 (λ x c, f x = Ok c) l cs → len (refs_slice rs) + len cs <= MAX_REFS →
  res_fold (λ b x, store_built (f x) b) l (holding bs rs) = Ok (holding bs (refs_app rs cs)).
Proof.
  intros Hl. revert rs. induction Hl as [|x c l cs Hx Hl IH]; intros rs Hn; cbn [res_fold].
  { by rewrite refs_app_nil. }
  rewrite len_cons in Hn. pose proof (len_nonneg cs).
  assert (store_built (f x) (holding bs rs) = Ok (holding bs (refs_app rs [c]))) as ->.
  { unfold store_built. rewrite Hx. cbn [res_bind]. by rewrite store_ref_spec, (proj2 (Z.leb_gt _ _)) by lia. }
  cbn [res_bind].
  rewrite IH; [by rewrite refs_app_app by (change (len [c]) with 1; lia)|].
  rewrite refs_app_slice, len_app; change (len [c]) with 1; lia.
Qed.

Lemma store_built_fails (f : Cell → result CellError Cell) l x b :
  x ∈ l → is_ok (f x) = false → is_ok (res_fold (λ b x, store_built (f x) b) l b) = false.
Proof.
  revert b. induction l as [|y l IH]; intros b Hin Hx; [by apply elem_of_nil in Hin|]. cbn [res_fold].
  apply elem_of_cons in Hin as [<-|Hin].
  - unfold store_built. by destruct (f x).
  - destruct (store_built (f y) b); [|done]. cbn [res_bind]. by apply IH.
Qed.

(** Both walks, over references they answer for. *)
Lemma rebuild_each (f : Cell → result CellError Cell) n cs :
  cell_wf n → Forall2 (λ x c, f x = Ok c) (Cell.refs n) cs → Forall cell_wf cs →
  ∃ c, (let? builder := copy_data n in
        let? builder := res_fold (λ b x, store_built (f x) b) (Cell.refs n) builder in
        Builder.build builder) = Ok c ∧
    cell_wf c ∧ Cell.cell_type c = Ordinary ∧ Cell.bits c = Cell.bits n ∧ Cell.refs c = cs.
Proof.
  intros Wn Hf Fc. rewrite copy_data_spec by done. cbn [res_bind].
  assert (len cs <= MAX_REFS) as Hn.
  { apply Forall2_length in Hf. pose proof (len_refs_slice (inner_refs n)) as Hl.
    unfold Cell.refs, len in *. lia. }
  rewrite (store_built_all f _ cs) by (done || (change (len (refs_slice RNone)) with 0; lia)).
  cbn [res_bind]. destruct (rebuild_ok n cs Wn Fc Hn) as (c & _ & Hc). by exists c.
Qed.

Lemma Forall2_through {X Y Z} (R : X → Y → Prop) (S : Y → Z → Prop) l l' :
  Forall2 (λ x z, ∃ y, R x y ∧ S y z) l l' → ∃ m, Forall2 R l m ∧ Forall2 S m l'.
Proof.
  induction 1 as [|x z l l' (y & Hxy & Hyz) _ (m & Hm & Hm')].
  - exists []. split; constructor.
  - exists (y :: m). split; by constructor.
Qed.

(** A node that grafts to a tree. *)
Definition grafts (index : gmap (list Z) Cell) (n tree : Cell) : Prop :=
  ∃ c, graft n index = Ok c ∧ cell_wf c ∧ same c tree.

Lemma graft_node index n B :
  cell_wf n → cell_wf B → Cell.cell_type n = Ordinary → Cell.cell_type B = Ordinary →
  Cell.bits n = Cell.bits B → Forall2 (grafts index) (Cell.refs n) (Cell.refs B) → grafts index n B.
Proof.
  intros Wn WB Tn TB Hb Hr. apply Forall2_through in Hr as (cs & Hg & Hcs).
  destruct (rebuild_each (λ x, graft x index) n cs) as (c & Hc & Hwc & Htc & Hbits & Hrefs); [done..| |].
  { clear -Hcs. by induction Hcs as [|x y l1 l2 [Hx _]]; constructor. }
  exists c. rewrite graft_ordinary by done. split; [exact Hc|]. split; [done|].
  apply same_ordinary; [done..|by rewrite Hbits|]. rewrite Hrefs.
  clear -Hcs. by induction Hcs as [|x y l1 l2 [_ Hx]]; constructor.
Qed.

(** Grafting the unchanged subtrees back gives the tree itself. *)
Lemma graft_shows base n : ∀ B,
  cell_wf base → plain base → collision_free (hashed base) →
  cell_wf n → cell_wf B → shows base n B → grafts (index_by_hash base ∅) n B.
Proof.
  induction n as [d b r t i IH] using cell_tree_ind. intros B Hwf Hp Hcf Wn WB Hs.
  set (n := MkCell d b r t i) in *. change (refs_slice r) with (Cell.refs n) in IH.
  clearbody n. inversion Hs as [n' B' Tn E Hb|n' Tn|n' B' Tn TB Hb Hr]; subst.
  - unfold grafts. rewrite graft_pruned by done. injection E as Eh _. rewrite Eh.
    destruct (index_complete base B (plain_consistent base Hwf Hp Hcf) Hb) as [y Hy].
    rewrite Hy. exists y. split; [done|].
    apply index_values in Hy as [Hy|[Hy1 Hy2]]; [by rewrite lookup_empty in Hy|].
    split; [by apply (below_wf base)|]. by apply (plain_same base).
  - exists B. split; [by apply graft_library|]. split; [done|apply same_refl].
  - apply graft_node; [done..|].
    pose proof (cell_wf_refs _ Wn) as Fn. pose proof (cell_wf_refs _ WB) as FB.
    clear -Hr IH Fn FB Hwf Hp Hcf. induction Hr as [|x y l1 l2 Hxy Hr IHr]; [constructor|].
    apply Forall_cons in IH as [IHx IH], Fn as [Wx Fn], FB as [Wy FB]. constructor; auto.
Qed.
End graft.

Section theorems.
Context `{HH : Hasher} `{!HasherOk HH}.

(** What an update made from two trees stores, and where. *)
Lemma create_update_reads old new :
  cell_wf old → cell_wf new → Cell.cell_type old = Ordinary → Cell.cell_type new = Ordinary →
  ∃ u, create_update old new = Ok u ∧ cell_wf u ∧ Cell.cell_type u = MerkleUpdate ∧
    Cell.refs u = [old; new] ∧
    get_range (Cell.data u) OLD_HASH (OLD_HASH + 32) = Some (Cell.hash old) ∧
    get_range (Cell.data u) NEW_HASH (NEW_HASH + 32) = Some (Cell.hash new) ∧
    get_range (Cell.data u) OLD_DEPTH (OLD_DEPTH + 2) = Some (to_be_bytes 2 (Cell.depth old)) ∧
    get_range (Cell.data u) NEW_DEPTH (NEW_DEPTH + 2) = Some (to_be_bytes 2 (Cell.depth new)).
Proof.
  intros Wo Wn To Tn. destruct (covering_cell_spec MerkleUpdate 4 [old; new]) as (u & Hu & Hw & Hk & Hd & Hr).
  { by right. } { by do 2 (constructor; [done|]); constructor. } { by do 2 (constructor; [done|]); constructor. }
  exists u. do 4 (split; [done|]).
  pose proof (hash_at_len old 0 Wo ltac:(lia)) as Lo. fold (Cell.hash old) in Lo.
  pose proof (hash_at_len new 0 Wn ltac:(lia)) as Ln. fold (Cell.hash new) in Ln.
  set (ho := Cell.hash old) in *. set (hn := Cell.hash new) in *.
  assert (len ho = 32 ∧ len hn = 32) as [Lho Lhn] by (unfold len; lia).
  set (d_o := to_be_bytes 2 (Cell.depth old)). set (d_n := to_be_bytes 2 (Cell.depth new)).
  assert (Cell.data u = 4 :: ho ++ hn ++ d_o ++ d_n) as Hdata.
  { rewrite Hd. unfold covering_bytes. simpl. by rewrite !app_nil_r, <- app_assoc. }
  rewrite Hdata. unfold NEW_DEPTH, OLD_DEPTH, NEW_HASH, OLD_HASH.
  change (1 + 32 + 32 + 2 + 2) with 69. change (1 + 32 + 32 + 2) with 67.
  change (1 + 32 + 32) with 65. change (1 + 32) with 33.
  assert (len [4] = 1 ∧ len d_o = 2 ∧ len d_n = 2) as (L4 & Ldo & Ldn) by done.
  repeat split.
  - apply (get_range_middle [4] ho); lia.
  - apply (get_range_middle ([4] ++ ho) hn); rewrite ?len_app; lia.
  - rewrite (app_assoc ho). apply (get_range_middle ([4] ++ ho ++ hn) d_o); rewrite ?len_app; lia.
  - replace (4 :: ho ++ hn ++ d_o ++ d_n) with (([4] ++ ho ++ hn ++ d_o) ++ d_n ++ [])
      by (rewrite app_nil_r; simpl; by rewrite <- !app_assoc).
    apply get_range_middle; rewrite ?len_app; lia.
Qed.

Lemma shows_ordinary_level0 base n B :
  cell_wf n → cell_wf B → shows base n B → Cell.hash n = Cell.hash B.
Proof. intros Wn WB Hs. by injection (shows_level0 base n B Wn WB Hs). Qed.

(** An update made from two trees passes its own check. *)
Lemma created_reads old new u :
  cell_wf old → cell_wf new → Cell.cell_type old = Ordinary → Cell.cell_type new = Ordinary →
  create_update old new = Ok u → validate_update u = Ok tt ∧ Cell.refs u = [old; new].
Proof.
  intros Wo Wn To Tn Hcreate.
  destruct (create_update_reads old new Wo Wn To Tn) as (u' & Hu & _ & Hk & Hr & Goh & Gnh & God & Gnd).
  rewrite Hcreate in Hu. injection Hu as <-. split; [|done].
  unfold validate_update. rewrite bool_decide_eq_true_2 by done. cbn [negb res_fold].
  unfold validate_side, Cell.reference. rewrite Hr.
  change (get [old; new] 0) with (Some old). change (get [old; new] 1) with (Some new).
  rewrite Goh, Gnh. cbn [ok_or res_bind]. rewrite !bool_decide_eq_true_2 by done.
  cbn [negb]. rewrite God, Gnd. cbn [ok_or res_bind].
  rewrite !be_bytes_2 by (by apply (depth_at_range _ 0); [|lia]).
  by rewrite !Z.eqb_refl.
Qed.

(** What an update made from two trees does to a tree of its old hash. *)
Lemma created_applies base old new c :
  cell_wf old → cell_wf new → Cell.cell_type old = Ordinary → Cell.cell_type new = Ordinary →
  Cell.hash old = Cell.hash base → graft new (index_by_hash base ∅) = Ok c → Cell.hash new = Cell.hash c →
  ∃ u, create_update old new = Ok u ∧ Cell.refs u = [old; new] ∧ validate_update u = Ok tt ∧
    apply_update base u = Ok c.
Proof.
  intros Wo Wn To Tn Ho Hg Hn.
  destruct (create_update_reads old new Wo Wn To Tn) as (u & Hu & _ & Hk & Hr & Goh & Gnh & _).
  destruct (created_reads old new u) as [Hv _]; [done..|].
  exists u. do 3 (split; [done|]). unfold apply_update, may_apply.
  rewrite bool_decide_eq_true_2 by done. cbn [negb]. rewrite Goh. cbn [ok_or res_bind].
  rewrite bool_decide_eq_true_2 by done. cbn [negb]. unfold Cell.reference. rewrite Hr.
  change (get [old; new] 1) with (Some new). cbn [ok_or res_bind].
  rewrite Hg. cbn [res_bind]. rewrite Gnh. cbn [ok_or res_bind].
  by rewrite bool_decide_eq_true_2.
Qed.

(** C22: a Merkle update made from pruned pictures of an old and a new tree is
    accepted by its own check and, applied to the full old tree, gives back the
    new tree, node for node, with every pruned branch of the new side filled in
    from the old tree. SHA-256 is assumed not to collide within the old tree. *)
Theorem create_apply_update base tree old_side new_side :
  cell_wf base → plain base → collision_free (hashed base) → cell_wf tree →
  cell_wf old_side → Cell.cell_type old_side = Ordinary → Cell.hash old_side = Cell.hash base →
  cell_wf new_side → Cell.cell_type new_side = Ordinary → shows base new_side tree →
  ∃ update result, create_update old_side new_side = Ok update ∧
    validate_update update = Ok tt ∧
    apply_update base update = Ok result ∧ same result tree.
Proof.
  intros Hwf Hp Hcf Wt Wo To Ho Wn Tn Hs.
  destruct (graft_shows base new_side tree) as (c & Hg & Wc & Hc); [done..|].
  destruct (created_applies base old_side new_side c) as (u & Hu & _ & Hv & Ha); [done..| |by exists u, c].
  rewrite (shows_ordinary_level0 base new_side tree) by done.
  by injection (same_level0 _ _ Hc) as -> _.
Qed.

Lemma store_built_wf {A} (f : A → result CellError Cell) l bs rs b :
  Forall (λ x, ∀ c, f x = Ok c → cell_wf c) l → Forall cell_wf (refs_slice rs) →
  res_fold (λ b x, store_built (f x) b) l (holding bs rs) = Ok b →
  ∃ rs', b = holding bs rs' ∧ Forall cell_wf (refs_slice rs').
Proof.
  intros Hl. revert rs. induction Hl as [|x l Hx Hl IH]; intros rs Hrs; cbn [res_fold].
  { intros [= <-]. by exists rs. }
  unfold store_built at 1. destruct (f x) as [c|]; cbn [res_bind]; [|done].
  rewrite store_ref_spec. destruct (_ <=? _); cbn [res_bind]; [done|]. apply IH.
  apply refs_app_wf; [done|]. constructor; [by apply Hx|constructor].
Qed.

Lemma graft_wf base n c :
  cell_wf n → map_Forall (λ _, cell_wf) base → graft n base = Ok c → cell_wf c.
Proof.
  intros Wn Hb. revert c. induction n as [d b r t i IH] using cell_tree_ind. intros c.
  set (n := MkCell d b r t i) in *. change (refs_slice r) with (Cell.refs n) in IH. clearbody n.
  destruct (Cell.cell_type n) eqn:Tn.
  - rewrite graft_ordinary by done. rewrite copy_data_spec by done. cbn [res_bind].
    pose proof (cell_wf_refs _ Wn) as Fn. intros Hg.
    destruct (res_fold _ _ _) as [b'|] eqn:Ef; cbn [res_bind] in Hg; [|done].
    apply store_built_wf in Ef as (rs' & -> & Hrs).
    + destruct (build_spec (Cell.bits n) rs') as (c' & Hc' & _ & _ & _ & _ & _ & Hwf').
      { rewrite copy_data_bits by done. by apply cell_wf_bit_len in Wn as [_ ?]. } { by apply wf_masks. }
      rewrite Hc' in Hg. injection Hg as <-. by apply Hwf'.
    + rewrite Forall_forall in IH, Fn |- *. intros x Hx. by apply (IH x Hx), Fn.
    + constructor.
  - rewrite graft_pruned by done. destruct (base !! Cell.hash n) as [y|] eqn:Ey; [|done].
    intros [= <-]. by eapply (Hb (Cell.hash n)).
  - rewrite graft_library by done. by intros [= <-].
  - destruct n as [d' b' r' t' i']. unfold Cell.cell_type in Tn. simpl in Tn |- *. by rewrite Tn.
  - destruct n as [d' b' r' t' i']. unfold Cell.cell_type in Tn. simpl in Tn |- *. by rewrite Tn.
Qed.

(** C21: applying any Merkle update, however it was made, either fails or gives a
    well-formed tree of the new hash the update names, and only on a base of
    the old hash it names; so, short of a SHA-256 collision, what it gives
    agrees with every tree of that new hash. *)
Theorem apply_update_sound base update result tree :
  cell_wf base → cell_wf update → apply_update base update = Ok result →
  cell_wf tree →
  get_range (Cell.data update) NEW_HASH (NEW_HASH + 32) = Some (Cell.hash tree) →
  collision_free (λ x, hashed result x ∨ hashed tree x) →
  get_range (Cell.data update) OLD_HASH (OLD_HASH + 32) = Some (Cell.hash base) ∧
  cell_wf result ∧ Cell.hash result = Cell.hash tree ∧ agrees 0 result tree.
Proof.
  intros Wb Wu Ha Wt Hnew Hcf. unfold apply_update, may_apply in Ha.
  destruct (negb _); [done|].
  destruct (get_range (Cell.data update) OLD_HASH _) as [so|]; cbn [ok_or res_bind] in Ha; [|done].
  destruct (bool_decide (so = Cell.hash base)) eqn:Eo; cbn [negb res_bind ok_or] in Ha; [|done].
  apply bool_decide_eq_true in Eo as ->.
  destruct (Cell.reference update 1) as [new|] eqn:En; cbn [ok_or res_bind] in Ha; [|done].
  destruct (graft new _) as [c|] eqn:Eg; cbn [res_bind] in Ha; [|done].
  rewrite Hnew in Ha. cbn [ok_or res_bind] in Ha.
  destruct (bool_decide (Cell.hash tree = Cell.hash c)) eqn:Eh; cbn [negb res_bind ok_or] in Ha; [|done].
  injection Ha as ->. apply bool_decide_eq_true in Eh.
  assert (cell_wf result) as Wr.
  { eapply graft_wf; [| |exact Eg].
    - apply cell_wf_refs in Wu. rewrite Forall_forall in Wu. apply Wu.
      by apply (list_elem_of_lookup_2 _ 1%nat).
    - intros h y Hy. apply index_values in Hy as [Hy|[Hy _]]; [by rewrite lookup_empty in Hy|].
      by apply (below_wf base). }
  split; [done|]. split; [done|]. split; [done|]. by apply hash_at_agrees.
Qed.
End theorems.

(** ** Two updates in turn *)

(** Every node of the tree is an ordinary cell. *)
Definition all_ordinary (c : Cell) : Prop := ∀ x, below c x → Cell.cell_type x = Ordinary.

Lemma all_ordinary_below c x : all_ordinary c → below c x → all_ordinary x.
Proof. intros Ho Hx y Hy. apply Ho. by eapply below_trans. Qed.

Lemma all_ordinary_refs c : all_ordinary c → Forall all_ordinary (Cell.refs c).
Proof.
  intros Ho. apply Forall_forall. intros y Hy. apply (all_ordinary_below c); [done|].
  by eapply below_ref; [constructor|].
Qed.

Section combine.
Context `{HH : Hasher} `{!HasherOk HH}.

Lemma ordinary_plain c : cell_wf c → all_ordinary c → plain c.
Proof.
  induction c as [d b r t i IH] using cell_tree_ind. intros Hwf Ho.
  set (c := MkCell d b r t i) in *. change (refs_slice r) with (Cell.refs c) in IH. clearbody c.
  assert (∀ y, y ∈ Cell.refs c → plain y) as Hrefs.
  { intros y Hy. rewrite Forall_forall in IH. apply (IH y Hy).
    - apply cell_wf_refs in Hwf. rewrite Forall_forall in Hwf. auto.
    - apply all_ordinary_refs in Ho. rewrite Forall_forall in Ho. auto. }
  intros x Hx. apply below_inv in Hx as [->|(y & Hy & Hx)]; [|by apply (Hrefs y)].
  destruct Hwf as [c _ _ _ _ S _]. revert S. unfold summarize. rewrite (Ho c (below_self c)).
  cbn [implied_mask]. destruct (Z.eqb_spec (Cell.level_mask c)
    (fold_left (λ acc child, Z.lor acc (id_mask child)) (Cell.identity <$> Cell.refs c) 0)) as [->|]; [intros _|done].
  clear -Hrefs. induction (Cell.refs c) as [|y l IHl]; [done|]. cbn [fmap list_fmap fold_left].
  change (id_mask (Cell.identity y)) with (Cell.level_mask y).
  rewrite (Hrefs y) by ((by left) || constructor). apply IHl. intros z Hz. apply Hrefs. by right.
Qed.

(** The splice over what its revealed cells are good for. *)
Lemma splice_good (good : Cell → Cell → Prop) R base top n : ∀ T,
  (∀ q T, good q T → cell_wf q) →
  (∀ n T, Cell.cell_type n = PrunedBranch → cell_wf n → level0 n = level0 T →
    below base T → below top T → good (default n (R !! Cell.hash n)) T) →
  (∀ q T, cell_wf q → cell_wf T → Cell.cell_type q = Ordinary → Cell.cell_type T = Ordinary →
    Cell.bits q = Cell.bits T → Forall2 good (Cell.refs q) (Cell.refs T) → good q T) →
  cell_wf n → cell_wf T → all_ordinary T → below top T → shows base n T →
  ∃ q, splice_revealed n R = Ok q ∧ good q T ∧ (Cell.cell_type n = Ordinary → Cell.cell_type q = Ordinary).
Proof.
  induction n as [d b r t i IH] using cell_tree_ind. intros T Gwf Gpruned Gnode Wn WT Ho Ht Hs.
  set (n := MkCell d b r t i) in *. change (refs_slice r) with (Cell.refs n) in IH. clearbody n.
  inversion Hs as [n' B' Tn E Hb|n' Tn|n' B' Tn TB Hb Hr]; subst.
  - rewrite splice_pruned by done. eexists. split; [done|]. split; [by apply Gpruned|by rewrite Tn].
  - by rewrite (Ho T (below_self T)) in Tn.
  - assert (Forall2 (λ x T, ∃ q, splice_revealed x R = Ok q ∧ good q T) (Cell.refs n) (Cell.refs T)) as Hrefs.
    { pose proof (cell_wf_refs _ Wn) as Fn. pose proof (cell_wf_refs _ WT) as FT.
      pose proof (all_ordinary_refs _ Ho) as Fo.
      assert (Forall (below top) (Cell.refs T)) as Ft by (apply Forall_forall; intros y; by apply below_ref).
      clear -Hr IH Fn FT Fo Ft Gwf Gpruned Gnode. induction Hr as [|x y l1 l2 Hxy Hr IHr]; [constructor|].
      apply Forall_cons in IH as [IHx IH], Fn as [Wx Fn], FT as [Wy FT], Fo as [Oy Fo], Ft as [By Ft].
      constructor; [|by apply IHr].
      destruct (IHx y) as (q & Hq & Hg & _); [done..|]. by exists q. }
    apply Forall2_through in Hrefs as (qs & Hq & Hqs).
    destruct (rebuild_each (λ x, splice_revealed x R) n qs) as (c & Hc & Hwc & Htc & Hbits & Hrefs); [done..| |].
    { clear -Hqs Gwf. induction Hqs; constructor; eauto. }
    exists c. rewrite splice_ordinary by done. split; [exact Hc|]. split; [|done].
    apply Gnode; [done..|by rewrite Hbits|by rewrite Hrefs].
Qed.

(** Each cell revealed stands for a subtree of the tree shown. *)
Lemma revealed_values base n : ∀ T M h x,
  cell_wf n → all_ordinary T → shows base n T → revealed_cells n M !! h = Some x →
  M !! h = Some x ∨ (Cell.hash x = h ∧ cell_wf x ∧ ∃ T', below T T' ∧ shows base x T').
Proof.
  induction n as [d b r t i IH] using cell_tree_ind. intros T M h x Wn Ho Hs.
  set (n := MkCell d b r t i) in *. change (refs_slice r) with (Cell.refs n) in IH. clearbody n.
  destruct (decide (Cell.cell_type n = Ordinary)) as [Tn|Tn];
    [|rewrite revealed_cells_other by done; by left].
  rewrite revealed_cells_eq by done.
  assert (Forall2 (shows base) (Cell.refs n) (Cell.refs T)) as Hr by (inversion Hs; congruence).
  pose proof (cell_wf_refs _ Wn) as Fn. pose proof (all_ordinary_refs _ Ho) as Fo.
  assert (∀ M2, fold_left (λ M x, revealed_cells x M) (Cell.refs n) M2 !! h = Some x → M2 !! h = Some x ∨
    (Cell.hash x = h ∧ cell_wf x ∧ ∃ T', below T T' ∧ shows base x T')) as Hfold.
  { assert (Forall (below T) (Cell.refs T)) as Ft
      by (apply Forall_forall; intros y; apply below_ref; constructor).
    clear -Hr IH Fn Fo Ft. induction Hr as [|y z l1 l2 Hyz Hr IHr]; intros M2 E; simpl in E; [by left|].
    apply Forall_cons in IH as [IHy IH], Fn as [Wy Fn], Fo as [Oz Fo], Ft as [Bz Ft].
    apply IHr in E as [E|E]; [|by right|done..].
    destruct (IHy z M2 h x) as [E'|(Hh & Hw & T' & HT' & Hx)]; [done..|by left|].
    right. split; [done|]. split; [done|]. exists T'. split; [by eapply below_trans|done]. }
  assert (<[Cell.hash n := n]> M !! h = Some x → M !! h = Some x ∨
    (Cell.hash x = h ∧ cell_wf x ∧ ∃ T', below T T' ∧ shows base x T')) as Hins.
  { destruct (decide (h = Cell.hash n)) as [->|Hne].
    - rewrite lookup_insert_eq. intros [= <-]. right. split; [done|]. split; [done|].
      exists T. split; [constructor|done].
    - rewrite lookup_insert_ne by done. by left. }
  destruct (M !! Cell.hash n); [by apply Hins|]. intros E. apply Hfold in E as [E|E]; [by apply Hins|by right].
Qed.
End combine.

Section chain.
Context `{HH : Hasher} `{!HasherOk HH}.
Variables A B : Cell.
Hypotheses (WA : cell_wf A) (WB : cell_wf B) (OA : all_ordinary A) (OB : all_ordinary B).
Hypothesis Hcf : collision_free (λ z, hashed A z ∨ hashed B z).

Lemma found_same x y :
  below A x ∨ below B x → below A y ∨ below B y → Cell.hash x = Cell.hash y → same x y.
Proof.
  intros Hx Hy. pose proof (ordinary_plain A WA OA) as PA. pose proof (ordinary_plain B WB OB) as PB.
  apply (plain_same_within _ x y Hcf);
    [destruct Hx; [apply (below_wf A)|apply (below_wf B)]; done
    |destruct Hy; [apply (below_wf A)|apply (below_wf B)]; done
    |destruct Hx; auto|destruct Hy; auto
    |intros z Hz; destruct Hx; eauto using below_hashed
    |intros z Hz; destruct Hy; eauto using below_hashed].
Qed.

Lemma collision_free_first : collision_free (hashed A).
Proof. intros x y Hx Hy. apply Hcf; by left. Qed.

Lemma collision_free_second : collision_free (hashed B).
Proof. intros x y Hx Hy. apply Hcf; by right. Qed.

(** A subtree of [B] the revealed cells or the tree [A] answer for. *)
Definition covered (M : gmap (list Z) Cell) (x : Cell) : Prop :=
  is_Some (M !! Cell.hash x) ∨ ∃ z, below A z ∧ Cell.hash z = Cell.hash x.

Definition covering (M : gmap (list Z) Cell) (walking : list Z → Prop) : Prop :=
  ∀ x, below B x → is_Some (M !! Cell.hash x) → walking (Cell.hash x) ∨ Forall (covered M) (Cell.refs x).

Lemma covered_grows M M' x : grows M M' → covered M x → covered M' x.
Proof. intros Hg [Hx|Hx]; [left; auto|by right]. Qed.

Lemma hash_refs x y (P : list Z → Prop) :
  Forall2 same (Cell.refs y) (Cell.refs x) →
  Forall (λ z, P (Cell.hash z)) (Cell.refs y) → Forall (λ z, P (Cell.hash z)) (Cell.refs x).
Proof.
  induction 1 as [|a b l1 l2 Hab%same_level0 _ IH]; [done|]. rewrite !Forall_cons. injection Hab as <- _.
  intros [? ?]. auto.
Qed.

Lemma revealed_covering n : ∀ T M walking,
  cell_wf n → shows A n T → below B T → covering M walking →
  covering (revealed_cells n M) walking ∧ grows M (revealed_cells n M) ∧ covered (revealed_cells n M) T.
Proof.
  induction n as [d b r t i IH] using cell_tree_ind. intros T M walking Wn Hs HT Hcl.
  set (n := MkCell d b r t i) in *. change (refs_slice r) with (Cell.refs n) in IH. clearbody n.
  assert (cell_wf T) as WT by by apply (below_wf B).
  inversion Hs as [n' B' Tn E Hb|n' Tn|n' B' Tn TB Hbits Hr]; subst.
  { rewrite revealed_cells_other by congruence. split; [done|]. split; [by intros h|]. right. by exists T. }
  { by rewrite (OB T HT) in Tn. }
  assert (Cell.hash n = Cell.hash T) as En by by eapply shows_ordinary_level0.
  rewrite revealed_cells_eq by done. rewrite En.
  set (M1 := <[Cell.hash T := n]> M).
  assert (grows M M1 ∧ is_Some (M1 !! Cell.hash T)) as [Hg1 Hc1].
  { split; [|unfold M1; rewrite lookup_insert_eq; by eexists].
    intros h Hh. unfold M1. destruct (decide (h = Cell.hash T)) as [->|].
    - rewrite lookup_insert_eq. by eexists.
    - by rewrite lookup_insert_ne. }
  destruct (M !! Cell.hash T) as [prior|] eqn:Ec.
  { split; [|split; [done|by left]]. intros x Hx Hin.
    assert (is_Some (M !! Cell.hash x)) as Hin'.
    { destruct (decide (Cell.hash x = Cell.hash T)) as [->|]; [by eexists|].
      unfold M1 in Hin. by rewrite lookup_insert_ne in Hin. }
    destruct (Hcl x Hx Hin') as [?|Hf]; [by left|right].
    eapply Forall_impl; [exact Hf|]. intros z. by apply covered_grows. }
  set (walking1 := λ h, walking h ∨ h = Cell.hash T).
  assert (covering M1 walking1) as Hcl1.
  { intros x Hx Hin. destruct (decide (Cell.hash x = Cell.hash T)) as [E|E]; [by left; right|].
    unfold M1 in Hin. rewrite lookup_insert_ne in Hin by done.
    destruct (Hcl x Hx Hin) as [Hw|Hf]; [by left; left|right].
    eapply Forall_impl; [exact Hf|]. intros z. by apply covered_grows. }
  assert (∀ M2, covering M2 walking1 →
    let M' := fold_left (λ M x, revealed_cells x M) (Cell.refs n) M2 in
    covering M' walking1 ∧ grows M2 M' ∧ Forall (covered M') (Cell.refs T)) as Hfold.
  { pose proof (cell_wf_refs _ Wn) as Fn.
    assert (Forall (below B) (Cell.refs T)) as Ft by (apply Forall_forall; intros y; by apply below_ref).
    clear -Hr IH Fn Ft. induction Hr as [|y z l1 l2 Hyz Hr IHr]; intros M2 Hcl2; simpl.
    { split; [done|]. split; [by intros h|constructor]. }
    apply Forall_cons in IH as [IHy IH], Fn as [Wy Fn], Ft as [Bz Ft].
    destruct (IHy z M2 walking1) as (C1 & G1 & S1); [done..|].
    destruct (IHr IH Fn Ft (revealed_cells y M2)) as (C2 & G2 & S2); [done|].
    split; [done|]. split; [intros h Hh; auto|]. constructor; [by eapply covered_grows|done]. }
  destruct (Hfold M1 Hcl1) as (C & G & S).
  split; [|split; [intros h Hh; auto|left; auto]].
  intros x Hx Hin. destruct (C x Hx Hin) as [[Hw|Hw]|Hf]; [by left| |by right]. right.
  destruct (found_same T x) as [c1 c2 _ _ _ _ Hrefs]; [by right..|done|].
  by apply (hash_refs c2 c1 (λ h, is_Some (_ !! h) ∨ ∃ z, below A z ∧ Cell.hash z = h)).
Qed.

(** Every subtree of [B] is one the first update revealed, or one of [A]. *)
Lemma revealed_complete n x :
  cell_wf n → shows A n B → below B x → covered (revealed_cells n ∅) x.
Proof.
  intros Wn Hs. destruct (revealed_covering n B ∅ (λ _, False)) as (C & _ & S); [done..|constructor| |].
  { intros y _ Hy. rewrite lookup_empty in Hy. by destruct Hy. }
  induction 1 as [|x y Hx IH Hy]; [done|]. destruct IH as [IH|(z & Hz & Ez)].
  - destruct (C x Hx IH) as [[]|Hf]. rewrite Forall_forall in Hf. auto.
  - right. destruct (found_same z x) as [c1 c2 _ _ _ _ Hrefs]; [by left|by right|done|].
    apply list_elem_of_lookup_1 in Hy as [i Hi].
    destruct (Forall2_lookup_r _ _ _ _ _ Hrefs Hi) as (w & Hw & Hsame).
    exists w. split; [eapply below_ref; [exact Hz|by eapply list_elem_of_lookup_2]|].
    by injection (same_level0 _ _ Hsame).
Qed.

(** The old side of the combination still stands for [A]. *)
Lemma old_side_spliced a0 b1 :
  cell_wf a0 → Cell.cell_type a0 = Ordinary → shows A a0 A → cell_wf b1 → shows B b1 B →
  ∃ q, splice_revealed a0 (revealed_cells b1 ∅) = Ok q ∧ cell_wf q ∧ Cell.cell_type q = Ordinary ∧
    level0 q = level0 A.
Proof.
  intros Wa Ta Ha Wb Hb.
  destruct (splice_good (λ q T, cell_wf q ∧ level0 q = level0 T) (revealed_cells b1 ∅) A A a0 A)
    as (q & Hq & [Wq Lq] & Tq); [tauto| | |done..|constructor|done|by exists q; auto].
  - intros n T Tn Wn Ln HT _. destruct (_ !! Cell.hash n) as [x|] eqn:Ex; [|done]. cbn [default id].
    apply (revealed_values B b1 B) in Ex as [Ex|(Eh & Wx & T' & HT' & Hx)]; [by rewrite lookup_empty in Ex| |done..].
    split; [done|]. assert (cell_wf T') as WT' by by apply (below_wf B).
    pose proof (shows_level0 B x T' Wx WT' Hx) as Lx. rewrite Lx. apply same_level0.
    apply found_same; [by right|by left|]. injection Lx as Lx _. injection Ln as Ln _. congruence.
  - intros q T Wq WT Tq TT Hbits Hr. split; [done|]. apply ordinary_level0_eq; [done..|].
    clear -Hr. induction Hr as [|y z l1 l2 [_ Hy] _ IH]; [done|]. by apply (f_equal2 cons).
Qed.

(** The new side of the combination grafts to [C] over [A] alone. *)
Lemma new_side_spliced C b0 c1 :
  cell_wf C → all_ordinary C → cell_wf b0 → shows A b0 B →
  cell_wf c1 → Cell.cell_type c1 = Ordinary → shows B c1 C →
  ∃ q, splice_revealed c1 (revealed_cells b0 ∅) = Ok q ∧ cell_wf q ∧ Cell.cell_type q = Ordinary ∧
    level0 q = level0 C ∧ grafts (index_by_hash A ∅) q C.
Proof.
  intros WC OC Wb Hb Wc Tc Hc. pose proof (ordinary_plain A WA OA) as PA.
  destruct (splice_good (λ q T, cell_wf q ∧ level0 q = level0 T ∧ grafts (index_by_hash A ∅) q T)
    (revealed_cells b0 ∅) B C c1 C) as (q & Hq & (Wq & Lq & Gq) & Tq);
    [tauto| | |done..|constructor|done|by exists q; auto].
  - intros n T Tn Wn Ln HT _. pose proof Ln as Lh. injection Lh as Lh _.
    destruct (_ !! Cell.hash n) as [x|] eqn:Ex; cbn [default id].
    + apply (revealed_values A b0 B) in Ex as [Ex|(Eh & Wx & T' & HT' & Hx)]; [by rewrite lookup_empty in Ex| |done..].
      assert (cell_wf T') as WT' by by apply (below_wf B).
      pose proof (shows_level0 A x T' Wx WT' Hx) as Lx.
      assert (same T' T) as Hsame.
      { apply found_same; [by right..|]. injection Lx as Lx _. congruence. }
      split; [done|]. split; [rewrite Lx; by apply same_level0|].
      destruct (graft_shows A x T' WA PA collision_free_first Wx WT' Hx) as (c & Hg & Wc' & Hs).
      exists c. split; [done|]. split; [done|]. by eapply same_trans.
    + split; [done|]. split; [done|].
      destruct (revealed_complete b0 T Wb Hb HT) as [Hin|(z & Hz & Ez)].
      { rewrite <- Lh, Ex in Hin. by destruct Hin. }
      unfold grafts. rewrite graft_pruned, Lh, <- Ez by done.
      destruct (index_complete A z (plain_consistent A WA PA collision_free_first) Hz) as [y Hy].
      rewrite Hy. exists y. split; [done|].
      apply index_values in Hy as [Hy|[Hy1 Hy2]]; [by rewrite lookup_empty in Hy|].
      split; [by apply (below_wf A)|]. apply found_same; [by left|by right|congruence].
  - intros q T Wq WT Tq TT Hbits Hr. split; [done|]. split.
    + apply ordinary_level0_eq; [done..|].
      clear -Hr. induction Hr as [|y z l1 l2 (_ & Hy & _) _ IH]; [done|]. by apply (f_equal2 cons).
    + apply graft_node; [done..|]. eapply Forall2_impl; [exact Hr|]. by intros y z (_ & _ & ?).
Qed.
End chain.

Section combined.
Context `{HH : Hasher} `{!HasherOk HH}.

(** C23: two Merkle updates that chain combine into one that does what they do
    in turn. Take trees [A], [B] and [C] of ordinary cells, an update from
    pruned pictures of [A] and [B], and one from pruned pictures of [B] and [C],
    whichever of their subtrees each picture prunes. Combining the two succeeds;
    the update it makes passes its own check and, applied to [A] alone, gives
    [C], although each update leaves out what the other one carries. SHA-256 is
    assumed not to collide within [A] and [B]. *)
Theorem combine_applies A B C a0 b0 b1 c1 first second :
  cell_wf A → cell_wf B → cell_wf C → all_ordinary A → all_ordinary B → all_ordinary C →
  collision_free (λ z, hashed A z ∨ hashed B z) →
  Forall (λ n, cell_wf n ∧ Cell.cell_type n = Ordinary) [a0; b0; b1; c1] →
  shows A a0 A → shows A b0 B → shows B b1 B → shows B c1 C →
  create_update a0 b0 = Ok first → create_update b1 c1 = Ok second →
  ∃ both result, combine_updates first second = Ok both ∧ validate_update both = Ok tt ∧
    apply_update A both = Ok result ∧ same result C.
Proof.
  intros WA WB WC OA OB OC Hcf Hn Ha Hb Hb' Hc Hfirst Hsecond.
  rewrite !Forall_cons in Hn. destruct Hn as ([Wa Ta] & [Wb Tb] & [Wb' Tb'] & [Wc Tc] & _).
  destruct (created_reads a0 b0 first) as [Vf Rf]; [done..|].
  destruct (created_reads b1 c1 second) as [Vs Rs]; [done..|].
  destruct (old_side_spliced A B WA WB OA OB Hcf a0 b1) as (qo & Ho & Wo & To & Lo); [done..|].
  destruct (new_side_spliced A B WA WB OA OB Hcf C b0 c1) as (qn & Hq & Wq & Tq & Lq & c & Hg & _ & Hs); [done..|].
  destruct (created_applies A qo qn c) as (u & Hu & _ & Hv & Happly); [done..| |done| |].
  { by injection Lo. }
  { apply same_level0 in Hs. rewrite <- Hs in Lq. by injection Lq. }
  exists u, c. split; [|done]. unfold combine_updates. rewrite Vf, Vs. cbn [res_bind].
  unfold Cell.reference. rewrite Rf, Rs.
  change (get [a0; b0] 0) with (Some a0). change (get [a0; b0] 1) with (Some b0).
  change (get [b1; c1] 0) with (Some b1). change (get [b1; c1] 1) with (Some c1). cbn [ok_or res_bind].
  rewrite bool_decide_eq_true_2
    by (rewrite (shows_ordinary_level0 A b0 B), (shows_ordinary_level0 B b1 B); done).
  cbn [negb]. rewrite Ho. cbn [res_bind]. by rewrite Hq.
Qed.
End combined.
