(* ===== verification/CellText.v ===== *)
(** Cells as text (core/src/cell/cell/json.rs, core/src/cell/cell/dump.rs): the
    JSON form and back, and the dumps in hex and in binary. A text is the list of
    its bytes. [serde_json] is the interface [Json]: its values are parameters. *)

From S2P Require Import Prelude Errors Bits CellData CellHash CellModel CellSlice CellBuilder Binding Codec BuilderOps Merkle MerkleUpdate.
From stdpp Require Import base list list_numbers numbers strings gmap.
From Stdlib Require Import ZArith Lia Ascii.

Local Open Scope Z_scope.

(** A literal of the source. *)
Definition literal (text : string) : list Z := (λ a, Z.of_N (N_of_ascii a)) <$> String.list_ascii_of_string text.

(** ** json.rs *)

(** [serde_json::Value]: what the crate makes of one and asks of one. *)
Class Json : Type := {
  Value : Type;
  json_number : Z → Value;
  json_string : list Z → Value;
  json_array : list Value → Value;
  json_object : list (string * Value) → Value;
  json_get : string → Value → option Value;
  as_u64 : Value → option Z;
  as_str : Value → option (list Z);
  as_array : Value → option (list Value);
}.

(** What its documentation says of them. *)
Class JsonOk (J : Json) : Prop := {
  get_object fields key : NoDup fields.*1 →
    json_get key (json_object fields) = snd <$> find (λ field, bool_decide (field.1 = key)) fields;
  u64_number n : 0 <= n < 2 ^ 64 → as_u64 (json_number n) = Some n;
  str_string text : as_str (json_string text) = Some text;
  array_array values : as_array (json_array values) = Some values;
}.

(** [u16::try_from(bits).ok().filter(..)] *)
Definition in_range (bits : Z) : option Z := if (bits <? 2 ^ 16) && (bits <=? MAX_BITS) then Some bits else None.

Definition unhex (text : list Z) : result CellError (list Z) :=
  if negb (len text mod 2 =? 0) then Err (Malformed "cell json data is not whole bytes")
  else match hex_decode text with
       | Ok bytes => Ok bytes
       | Err _ => Err (Malformed "cell json data is not hex")
       end.

Definition json_bit_at (data : list Z) (index : Z) : bool :=
  match get data (index / 8) with
  | Some byte => Z.land (Z.shiftr byte (7 - index mod 8)) 1 =? 1
  | None => false
  end.

(** The loop over the bits of a cell read back. *)
Definition store_bits (data : list Z) (bits : Z) : result CellError Builder :=
  match st_for (seqZ 0 bits) (λ index, Builder.store_bit (json_bit_at data index)) Builder.new with
  | (Ok _, builder) => Ok builder
  | (Err e, _) => Err e
  end.

Section json.
Context `{Hasher} `{Json}.

Fixpoint to_json (cell : Cell) : result CellError Value :=
  match cell with
  | MkCell d b r t i =>
      let cell := MkCell d b r t i in
      if Cell.is_exotic cell then Err (Malformed "only an ordinary cell renders as JSON")
      else
        let? refs :=
          match r with
          | RNone => Ok []
          | ROne x => let? x := to_json x in Ok [x]
          | RTwo x y => let? x := to_json x in let? y := to_json y in Ok [x; y]
          | RThree x y z => let? x := to_json x in let? y := to_json y in let? z := to_json z in Ok [x; y; z]
          | RFour x y z w =>
              let? x := to_json x in let? y := to_json y in let? z := to_json z in let? w := to_json w in
              Ok [x; y; z; w]
          end in
        Ok (json_object [("bits"%string, json_number (Cell.bit_len cell));
                         ("data"%string, json_string (hex_encode (Cell.data cell)));
                         ("refs"%string, json_array refs)])
  end.

(** Values nest to some depth: [fuel] is more than it. *)
Fixpoint from_json (fuel : nat) (value : Value) : result CellError Cell :=
  match fuel with
  | O => Err (Malformed "out of fuel")
  | S fuel =>
      let? bits := ok_or (json_get "bits" value ≫= as_u64) (Malformed "cell json has no bit length") in
      let? bits := ok_or (in_range bits) (Malformed "cell json bit length is out of range") in
      let? data := ok_or (json_get "data" value ≫= as_str) (Malformed "cell json has no data") in
      let? data := unhex data in
      if len data <? div_ceil bits 8 then Err (Malformed "cell json data is shorter than its bit length")
      else
        let? refs := ok_or (json_get "refs" value ≫= as_array) (Malformed "cell json has no references") in
        let? builder := store_bits data bits in
        let? builder := res_fold (λ b child, store_built (from_json fuel child) b) refs builder in
        Builder.build builder
  end.
End json.

(** ** dump.rs *)

Definition INDENT : list Z := literal "  ".

Inductive Radix : Type := Hex | Binary.

Definition dump_bit_at (data : list Z) (index : Z) : Z :=
  match get data (index / 8) with
  | Some byte => Z.land (Z.shiftr byte (7 - index mod 8)) 1
  | None => 0
  end.

(** What [{value:X}] writes of a nibble. *)
Definition upper_hex (value : Z) : Z := if value <=? 9 then 48 + value else 65 + value - 10.

(** [value = (value << 1) | bit_at(data, at + offset)] over the offsets. *)
Definition gather (data : list Z) (at' count : Z) : Z :=
  fold_left (λ value offset, Z.lor (shl 8 value 1) (dump_bit_at data (at' + offset))) (seqZ 0 count) 0.

Definition hex_form (data : list Z) (bits : Z) : list Z :=
  let out := literal "x{" in
  let whole := bits / 4 in
  let out := fold_left (λ out nibble, out ++ [upper_hex (gather data (nibble * 4) 4)]) (seqZ 0 whole) out in
  let remainder := bits mod 4 in
  let out :=
    if negb (remainder =? 0) then
      let value := gather data (whole * 4) remainder in
      let value := Z.lor (shl 8 value 1) 1 in
      let value := shl 8 value (3 - remainder) in
      out ++ [upper_hex value] ++ literal "_"
    else out in
  out ++ literal "}".

Definition binary_form (data : list Z) (bits : Z) : list Z :=
  fold_left (λ out index, out ++ [if dump_bit_at data index =? 1 then 49 else 48]) (seqZ 0 bits) (literal "b{") ++ literal "}".

Definition kind_prefix (kind : CellType) : list Z :=
  match kind with
  | Ordinary => literal ""
  | PrunedBranch => literal "pruned "
  | LibraryReference => literal "library "
  | MerkleProof => literal "merkle_proof "
  | MerkleUpdate => literal "merkle_update "
  end.

Fixpoint render (cell : Cell) (depth : nat) (radix : Radix) (out : list Z) : list Z :=
  match cell with
  | MkCell d b r t i =>
      let cell := MkCell d b r t i in
      let out := fold_left (λ out _, out ++ INDENT) (seq 0 depth) out in
      let out := out ++ kind_prefix (Cell.cell_type cell) in
      let form :=
        match radix with
        | Hex => hex_form (Cell.data cell) (Cell.bit_len cell)
        | Binary => binary_form (Cell.data cell) (Cell.bit_len cell)
        end in
      let out := out ++ form in
      let out := out ++ [10] in
      match r with
      | RNone => out
      | ROne x => render x (S depth) radix out
      | RTwo x y => render y (S depth) radix (render x (S depth) radix out)
      | RThree x y z => render z (S depth) radix (render y (S depth) radix (render x (S depth) radix out))
      | RFour x y z w =>
          render w (S depth) radix (render z (S depth) radix (render y (S depth) radix (render x (S depth) radix out)))
      end
  end.

Definition dump_cell (cell : Cell) (radix : Radix) : list Z :=
  let out := render cell 0 radix [] in
  if bool_decide (last out = Some 10) then take (pred (length out)) out else out.

Definition dump (cell : Cell) : list Z := dump_cell cell Hex.
Definition dump_bits (cell : Cell) : list Z := dump_cell cell Binary.

Example hex_partial : hex_form [176] 3 = literal "x{B_}".
Proof. reflexivity. Qed.
Example hex_whole : hex_form [160] 4 = literal "x{A}".
Proof. reflexivity. Qed.
Example binary_whole : binary_form [171] 8 = literal "b{10101011}".
Proof. reflexivity. Qed.

(** ** The JSON form, there and back *)

Section json_theorems.
Context `{HH : Hasher} `{!HasherOk HH} `{J : Json} `{!JsonOk J}.

Lemma to_json_eq c :
  to_json c =
    if Cell.is_exotic c then Err (Malformed "only an ordinary cell renders as JSON")
    else
      let? refs := res_fold (λ out x, let? x := to_json x in Ok (out ++ [x])) (Cell.refs c) [] in
      Ok (json_object [("bits"%string, json_number (Cell.bit_len c));
                       ("data"%string, json_string (hex_encode (Cell.data c)));
                       ("refs"%string, json_array refs)]).
Proof.
  destruct c as [d b r t i]. cbn [to_json]. destruct (Cell.is_exotic _); [done|]. unfold Cell.refs. cbn [inner_refs].
  destruct r; cbn [refs_slice res_fold]; try done;
    repeat match goal with
    | |- context [to_json ?x] => destruct (to_json x); cbn [res_bind]; [|done]
    end; done.
Qed.

Lemma store_bits_holds data bits b :
  store_bits data bits = Ok b → ∃ bs, b = holding bs RNone ∧ len bs <= MAX_BITS.
Proof.
  unfold store_bits. rewrite new_holding.
  enough (∀ l bs, len bs <= MAX_BITS →
    match st_for l (λ index, Builder.store_bit (json_bit_at data index)) (holding bs RNone) with
    | (Ok _, b) => ∃ bs, b = holding bs RNone ∧ len bs <= MAX_BITS
    | (Err _, _) => True
    end) as Hall.
  { specialize (Hall (seqZ 0 bits) [] ltac:(done)). destruct (st_for _ _ _) as [[u|e] b']; [by intros [= <-]|done]. }
  induction l as [|x l IH]; intros bs Hbs; cbn [st_for]; [by exists bs|].
  unfold st_bind. rewrite store_bit_spec. unfold put.
  destruct (Z.ltb_spec (MAX_BITS - len bs) (len [json_bit_at data x])) as [|Hr]; [done|].
  apply IH. rewrite len_app. lia.
Qed.

(** The three fields, read back. *)
Lemma fields_read bits data refs :
  let v := json_object [("bits"%string, json_number bits); ("data"%string, json_string data); ("refs"%string, json_array refs)] in
  0 <= bits < 2 ^ 64 →
  json_get "bits" v ≫= as_u64 = Some bits ∧ json_get "data" v ≫= as_str = Some data ∧
  json_get "refs" v ≫= as_array = Some refs.
Proof.
  intros v Hb. assert (∀ key, json_get key v = snd <$> find (λ field, bool_decide (field.1 = key))
    [("bits"%string, json_number bits); ("data"%string, json_string data); ("refs"%string, json_array refs)]) as Hget.
  { intros key. apply get_object. apply (bool_decide_unpack (NoDup ["bits"; "data"; "refs"]%string)). reflexivity. }
  assert (json_get "bits" v = Some (json_number bits) ∧ json_get "data" v = Some (json_string data) ∧
    json_get "refs" v = Some (json_array refs)) as (-> & -> & ->) by (by rewrite !Hget).
  cbn [mbind option_bind]. by rewrite u64_number, str_string, array_array.
Qed.

Lemma store_bits_copies c : cell_wf c → store_bits (Cell.data c) (Cell.bit_len c) = copy_data c.
Proof.
  intros Hwf. pose proof (cell_wf_bit_len c Hwf) as Hl. rewrite copy_data_spec by done.
  unfold store_bits, Cell.bits, bits_of. rewrite new_holding.
  enough (∀ n s bs, len bs + Z.of_nat n <= MAX_BITS →
    st_for (seqZ s (Z.of_nat n)) (λ index, Builder.store_bit (json_bit_at (Cell.data c) index)) (holding bs RNone) =
    (Ok tt, holding (bs ++ (data_bit (Cell.data c) <$> seqZ s (Z.of_nat n))) RNone)) as Hall.
  { rewrite <- (Z2Nat.id (Cell.bit_len c)) by lia. rewrite Hall; [done|]. change (len []) with 0. lia. }
  induction n as [|n IH]; intros s bs Hn.
  - change (seqZ s (Z.of_nat 0)) with (@nil Z). by rewrite app_nil_r.
  - rewrite Nat2Z.inj_succ, seqZ_cons by lia. replace (Z.pred (Z.succ (Z.of_nat n))) with (Z.of_nat n) by lia.
    cbn [st_for fmap list_fmap]. erewrite st_bind_ok.
    2:{ rewrite store_bit_spec, put_ok by (change (len [_]) with 1; lia). done. }
    rewrite IH by (rewrite len_app; change (len [_]) with 1; lia). by rewrite <- app_assoc.
Qed.

Lemma unhex_encode bytes : Forall is_byte bytes → unhex (hex_encode bytes) = Ok bytes.
Proof.
  intros Hb. unfold unhex. rewrite hex_decode_encode by done.
  destruct (Z.eqb_spec (len (hex_encode bytes) mod 2) 0) as [_|Hne]; [done|].
  destruct Hne. pose proof (hex_decode_encode bytes Hb) as E. unfold hex_decode in E.
  destruct (Z.eqb_spec (len (hex_encode bytes) mod 2) 0); [done|discriminate].
Qed.

Lemma wf_bytes c : cell_wf c → Forall is_byte (Cell.data c).
Proof. by intros [? _ (_ & ? & _) _ _ _ _]. Qed.

(** A cell is rendered exactly when it and all below it are ordinary. *)
Lemma to_json_refuses c : is_ok (to_json c) = true ↔ all_ordinary c.
Proof.
  induction c as [d b r t i IH] using cell_tree_ind.
  set (c := MkCell d b r t i) in *. change (refs_slice r) with (Cell.refs c) in IH. clearbody c.
  assert (∀ out, is_ok (res_fold (λ out x, let? x := to_json x in Ok (out ++ [x])) (Cell.refs c) out) = true ↔
    Forall all_ordinary (Cell.refs c)) as Hfold.
  { clear -IH. induction IH as [|x l Hx _ IHl]; intros out; cbn [res_fold].
    - split; [constructor|done].
    - rewrite Forall_cons, <- Hx. destruct (to_json x) as [v|]; cbn [res_bind]; [rewrite IHl|]; simpl; intuition congruence. }
  rewrite to_json_eq. unfold Cell.is_exotic. change (inner_cell_type c) with (Cell.cell_type c).
  destruct (decide (Cell.cell_type c = Ordinary)) as [Tc|Tc].
  - rewrite bool_decide_eq_true_2 by done. cbn [negb].
    transitivity (Forall all_ordinary (Cell.refs c)).
    { rewrite <- (Hfold []). by destruct (res_fold _ _ _). }
    split; [|by apply all_ordinary_refs]. rewrite Forall_forall. intros Hr x [->|(y & Hy & Hx)]%below_inv; [done|].
    by apply (Hr y).
  - rewrite bool_decide_eq_false_2 by done. split; [done|]. intros Ho. by destruct Tc; apply Ho; constructor.
Qed.

(** C36: the JSON form of a cell tree keeps it: every well-formed tree of ordinary
    cells is rendered, and reading what was rendered back gives a well-formed tree
    that is the same, node for node, whatever fuel past the depth of the value the
    reader is given. *)
Theorem json_round_trip c :
  cell_wf c → all_ordinary c →
  ∃ v c' n, to_json c = Ok v ∧ cell_wf c' ∧ same c' c ∧ ∀ fuel, (n <= fuel)%nat → from_json fuel v = Ok c'.
Proof.
  induction c as [d b r t i IH] using cell_tree_ind. intros Hwf Ho.
  set (c := MkCell d b r t i) in *. change (refs_slice r) with (Cell.refs c) in IH. clearbody c.
  assert (∃ vs cs n, (∀ out, res_fold (λ out x, let? x := to_json x in Ok (out ++ [x])) (Cell.refs c) out = Ok (out ++ vs)) ∧
    Forall cell_wf cs ∧ Forall2 same cs (Cell.refs c) ∧ length vs = length (Cell.refs c) ∧
    ∀ fuel, (n <= fuel)%nat → Forall2 (λ v c', from_json fuel v = Ok c') vs cs) as (vs & cs & n & Hvs & Hcs & Hsame & Hlen & Hread).
  { apply cell_wf_refs in Hwf. apply all_ordinary_refs in Ho. clear -IH Hwf Ho.
    induction IH as [|x l Hx _ IHl].
    - exists [], [], 0%nat. repeat split; try constructor. intros out. by rewrite app_nil_r.
    - apply Forall_cons in Hwf as [Wx Hwf], Ho as [Ox Ho].
      destruct (Hx Wx Ox) as (v & x' & n & Hv & Wx' & Sx & Rx), (IHl Hwf Ho) as (vs & cs & m & Hvs & Hcs & Hsame & Hlen & Hread).
      exists (v :: vs), (x' :: cs), (Nat.max n m). split; [|repeat split].
      + intros out. cbn [res_fold]. rewrite Hv. cbn [res_bind]. by rewrite Hvs, <- app_assoc.
      + by constructor.
      + by constructor.
      + simpl. by f_equal.
      + intros fuel Hf. constructor; [apply Rx; lia|apply Hread; lia]. }
  pose proof (cell_wf_bit_len c Hwf) as Hl.
  assert (len cs <= MAX_REFS) as Hn.
  { apply Forall2_length in Hsame. pose proof (len_refs_slice (inner_refs c)). unfold Cell.refs, len in *. lia. }
  destruct (rebuild_ok c cs Hwf Hcs Hn) as (c' & _ & Hbuild & Wc' & Tc' & Bc' & Rc').
  eexists _, c', (S n). split; [|split; [done|split]].
  - rewrite to_json_eq. unfold Cell.is_exotic. change (inner_cell_type c) with (Cell.cell_type c).
    rewrite bool_decide_eq_true_2 by (apply Ho; constructor). cbn [negb]. by rewrite Hvs.
  - apply same_ordinary; [done..|apply Ho; constructor|done|by rewrite Rc'].
  - intros [|fuel] Hf; [lia|]. cbn [from_json app].
    destruct (fields_read (Cell.bit_len c) (hex_encode (Cell.data c)) vs) as (-> & -> & ->); [unfold MAX_BITS in *; lia|].
    cbn [ok_or res_bind]. unfold in_range.
    rewrite (proj2 (Z.ltb_lt _ _)), (proj2 (Z.leb_le _ _)) by (unfold MAX_BITS in *; lia). cbn [andb ok_or res_bind].
    rewrite unhex_encode by by apply wf_bytes. cbn [res_bind].
    rewrite (proj2 (Z.ltb_ge _ _)) by (destruct Hwf as [c _ [-> _] _ _ _ _]; lia).
    rewrite store_bits_copies, copy_data_spec by done. cbn [res_bind].
    rewrite (store_built_all (from_json fuel) vs cs) by (apply Hread || (change (len (refs_slice RNone)) with 0); lia).
    exact Hbuild.
Qed.

(** Whatever is read is a well-formed cell. *)
Theorem from_json_sound fuel : ∀ v c, from_json fuel v = Ok c → cell_wf c ∧ Cell.cell_type c = Ordinary.
Proof.
  induction fuel as [|fuel IH]; intros v c; [done|]. cbn [from_json].
  destruct (_ ≫= as_u64) as [bits|]; cbn [ok_or res_bind]; [|done].
  destruct (in_range bits) as [n|] eqn:En; cbn [ok_or res_bind]; [|done].
  destruct (_ ≫= as_str) as [text|]; cbn [ok_or res_bind]; [|done].
  destruct (unhex text) as [data|]; cbn [res_bind]; [|done]. destruct (_ <? _); [done|].
  destruct (_ ≫= as_array) as [refs|]; cbn [ok_or res_bind]; [|done].
  destruct (store_bits data n) as [builder|] eqn:Es; cbn [res_bind]; [|done].
  apply store_bits_holds in Es as (bs & -> & Hbs).
  destruct (res_fold _ _ _) as [b'|] eqn:Ef; cbn [res_bind]; [|done].
  apply store_built_wf in Ef as (rs & -> & Hrs); [|apply Forall_forall; intros x _ c' Hc'; by apply (IH x)|constructor].
  destruct (build_spec bs rs) as (c' & Hc' & _ & _ & _ & _ & Tc & Hwf); [done|by apply wf_masks|].
  rewrite Hc'. intros [= <-]. auto.
Qed.
End json_theorems.

(** ** What a dump tells *)

Section dump_theorems.

Lemma dump_bit data i : dump_bit_at data i = b2z (data_bit data i).
Proof.
  unfold dump_bit_at, data_bit, byte_bit. destruct (get data (i / 8)) as [byte|]; [|done].
  set (x := Z.shiftr byte (7 - i mod 8)). change 1 with (Z.ones 1). rewrite !Z.land_ones by lia.
  pose proof (Z.mod_pos_bound x (2 ^ 1) ltac:(lia)). change (Z.ones 1) with 1.
  destruct (Z.eqb_spec (x mod 2 ^ 1) 1) as [->|]; [done|]. cbn [b2z]. change (2 ^ 1) with 2 in *. lia.
Qed.

(** The nibbles of a run of bits, the last one completed and marked. *)
Definition digit_of (bs : list bool) : Z :=
  upper_hex (fold_left (λ value b, Z.lor (shl 8 value 1) (b2z b)) bs 0).
Definition completed_digit (bs : list bool) : Z :=
  upper_hex (shl 8 (Z.lor (shl 8 (fold_left (λ value b, Z.lor (shl 8 value 1) (b2z b)) bs 0) 1) 1) (3 - len bs)).

Fixpoint nibbles (bs : list bool) : list Z :=
  match bs with
  | [] => []
  | b1 :: b2 :: b3 :: b4 :: bs => digit_of [b1; b2; b3; b4] :: nibbles bs
  | bs => [completed_digit bs; 95]
  end.

(** No digit is an underscore or a brace. *)
Lemma digit_of_plain b1 b2 b3 b4 : digit_of [b1; b2; b3; b4] ≠ 95 ∧ digit_of [b1; b2; b3; b4] ≠ 125.
Proof. by destruct b1, b2, b3, b4. Qed.

Lemma completed_digit_plain bs : (0 < length bs < 4)%nat → completed_digit bs ≠ 95 ∧ completed_digit bs ≠ 125.
Proof. intros H. destruct bs as [|[] [|[] [|[] [|? ?]]]]; cbn [length] in H; try lia; done. Qed.

Lemma nibbles_head bs r l : nibbles bs ++ 125 :: r = 95 :: l → False.
Proof.
  destruct bs as [|b1 [|b2 [|b3 [|b4 bs]]]]; cbn [nibbles app]; [done| | | |];
    intros [= E _]; revert E; [apply completed_digit_plain; cbn [length]; lia..|apply digit_of_plain].
Qed.

Lemma digit_of_inj b1 b2 b3 b4 c1 c2 c3 c4 :
  digit_of [b1; b2; b3; b4] = digit_of [c1; c2; c3; c4] → [b1; b2; b3; b4] = [c1; c2; c3; c4].
Proof. destruct b1, b2, b3, b4, c1, c2, c3, c4; intros E; (reflexivity || (vm_compute in E; discriminate)). Qed.

Lemma completed_digit_inj bs bs' :
  (0 < length bs < 4)%nat → (0 < length bs' < 4)%nat → completed_digit bs = completed_digit bs' → bs = bs'.
Proof.
  intros H H' E. destruct bs as [|[] [|[] [|[] [|? ?]]]]; cbn [length] in H; try lia;
    destruct bs' as [|[] [|[] [|[] [|? ?]]]]; cbn [length] in H'; try lia; (reflexivity || (vm_compute in E; discriminate)).
Qed.

(** The nibbles of a run are its whole ones, or the one that ends it. *)
Variant run_view : list bool → list Z → Prop :=
| run_end : run_view [] []
| run_last bs : (0 < length bs < 4)%nat → run_view bs [completed_digit bs; 95]
| run_whole b1 b2 b3 b4 bs : run_view (b1 :: b2 :: b3 :: b4 :: bs) (digit_of [b1; b2; b3; b4] :: nibbles bs).

Lemma run_viewed bs : run_view bs (nibbles bs).
Proof. destruct bs as [|b1 [|b2 [|b3 [|b4 bs]]]]; constructor; cbn [length]; lia. Qed.

Lemma nibbles_inj n : ∀ bs bs' r r', (length bs <= n)%nat →
  nibbles bs ++ 125 :: r = nibbles bs' ++ 125 :: r' → bs = bs' ∧ r = r'.
Proof.
  induction n as [n IH] using lt_wf_ind. intros bs bs' r r' Hn.
  destruct (run_viewed bs) as [|bs Hb|b1 b2 b3 b4 bs], (run_viewed bs') as [|bs' Hb'|c1 c2 c3 c4 bs'];
    cbn [app length] in *; intros E; injection E.
  - auto.
  - intros _ Ed. by apply completed_digit_plain in Hb' as [_ []].
  - intros _ Ed. by destruct (digit_of_plain c1 c2 c3 c4) as [_ []].
  - intros _ Ed. by apply completed_digit_plain in Hb as [_ []].
  - intros Er Ed%completed_digit_inj; auto.
  - intros Er _. symmetry in Er. by apply nibbles_head in Er.
  - intros _ Ed. by destruct (digit_of_plain b1 b2 b3 b4) as [_ []].
  - intros Er _. by apply nibbles_head in Er.
  - intros Er Ed%digit_of_inj. destruct (IH (length bs)) with bs bs' r r' as [-> ->]; [lia|done..|].
    injection Ed as -> -> -> ->. done.
Qed.

(** What the code writes of a run of bits is its nibbles. *)
Definition shifted (bs : list bool) (v : Z) : Z := fold_left (λ value b, Z.lor (shl 8 value 1) (b2z b)) bs v.

Lemma gather_shifted data at' count :
  0 <= count → gather data at' count = shifted (data_bit data <$> seqZ at' count) 0.
Proof.
  intros Hc. unfold gather, shifted. rewrite <- (Z2Nat.id count) by done. generalize (Z.to_nat count) as n. intros n.
  enough (∀ o v, fold_left (λ value offset, Z.lor (shl 8 value 1) (dump_bit_at data (at' + offset))) (seqZ o (Z.of_nat n)) v =
    fold_left (λ value b, Z.lor (shl 8 value 1) (b2z b)) (data_bit data <$> seqZ (at' + o) (Z.of_nat n)) v) as ->.
  { by rewrite Z.add_0_r. }
  induction n as [|n IH]; intros o v; [done|].
  rewrite Nat2Z.inj_succ, (seqZ_cons o), (seqZ_cons (at' + o)) by lia. replace (Z.pred (Z.succ (Z.of_nat n))) with (Z.of_nat n) by lia.
  cbn [fold_left fmap list_fmap]. rewrite dump_bit. replace (Z.succ (at' + o)) with (at' + Z.succ o) by lia. apply IH.
Qed.

Lemma nibbles_loop data w : ∀ s r,
  0 <= r →
  nibbles (data_bit data <$> seqZ (s * 4) (4 * Z.of_nat w + r)) =
    ((λ nibble, upper_hex (gather data (nibble * 4) 4)) <$> seqZ s (Z.of_nat w)) ++
    nibbles (data_bit data <$> seqZ ((s + Z.of_nat w) * 4) r).
Proof.
  induction w as [|w IH]; intros s r Hr.
  - change (seqZ s (Z.of_nat 0)) with (@nil Z). by rewrite Z.add_0_r.
  - rewrite Nat2Z.inj_succ. rewrite (seqZ_cons s) by lia. cbn [fmap list_fmap app].
    replace (4 * Z.succ (Z.of_nat w) + r) with (4 + (4 * Z.of_nat w + r)) by lia.
    rewrite seqZ_app, fmap_app, gather_shifted by lia. change (seqZ (s * 4) 4) with
      [Z.of_nat 0 + s * 4; Z.of_nat 1 + s * 4; Z.of_nat 2 + s * 4; Z.of_nat 3 + s * 4].
    cbn [fmap list_fmap app nibbles]. f_equal. replace (s * 4 + 4) with (Z.succ s * 4) by lia.
    replace (Z.pred (Z.succ (Z.of_nat w))) with (Z.of_nat w) by lia.
    replace (s + Z.succ (Z.of_nat w)) with (Z.succ s + Z.of_nat w) by lia. by apply IH.
Qed.

Lemma append_loop {A} (f : A → Z) l out : fold_left (λ out x, out ++ [f x]) l out = out ++ (f <$> l).
Proof.
  revert out. induction l as [|x l IH]; intros out; [by rewrite app_nil_r|]. cbn [fold_left fmap list_fmap].
  by rewrite IH, <- app_assoc.
Qed.

Lemma hex_form_nibbles data bits :
  0 <= bits → hex_form data bits = [120; 123] ++ nibbles (bits_of data bits) ++ [125].
Proof.
  intros Hb. unfold hex_form. rewrite append_loop. pose proof (Z.mod_pos_bound bits 4 ltac:(lia)) as Hr.
  pose proof (Z.div_pos bits 4 Hb ltac:(lia)) as Hw. unfold bits_of.
  pose proof (nibbles_loop data (Z.to_nat (bits / 4)) 0 (bits mod 4) ltac:(lia)) as Hn.
  rewrite Z2Nat.id, <- Z.div_mod, Z.mul_0_l, Z.add_0_l in Hn by lia. rewrite Hn. change (literal "x{") with [120; 123].
  change (literal "}") with [125]. rewrite <- !app_assoc.
  destruct (Z.eqb_spec (bits mod 4) 0) as [->|Hne]; cbn [negb].
  { change (nibbles (data_bit data <$> seqZ (bits / 4 * 4) 0)) with (@nil Z). by rewrite <- app_assoc. }
  rewrite gather_shifted by lia. change (literal "_") with [95]. rewrite <- !app_assoc. do 2 f_equal.
  assert (bits mod 4 = 1 ∨ bits mod 4 = 2 ∨ bits mod 4 = 3) as [->|[->| ->]] by lia; reflexivity.
Qed.

Lemma binary_form_bits data bits :
  binary_form data bits = [98; 123] ++ ((λ b, if b : bool then 49 else 48) <$> bits_of data bits) ++ [125].
Proof.
  unfold binary_form. rewrite append_loop. change (literal "b{") with [98; 123]. change (literal "}") with [125].
  rewrite <- app_assoc. do 2 f_equal. unfold bits_of. rewrite <- list_fmap_compose. apply list_fmap_ext.
  intros _ i _. unfold compose. rewrite dump_bit. by destruct (data_bit data i).
Qed.

(** One line's form, whichever it is. *)
Definition form (radix : Radix) (bs : list bool) : list Z :=
  match radix with
  | Hex => [120; 123] ++ nibbles bs ++ [125]
  | Binary => [98; 123] ++ ((λ b, if b : bool then 49 else 48) <$> bs) ++ [125]
  end.

Lemma form_inj radix bs : ∀ bs' r r', form radix bs ++ r = form radix bs' ++ r' → bs = bs' ∧ r = r'.
Proof.
  destruct radix; intros bs' r r'; cbn [form app]; rewrite <- !app_assoc; cbn [app]; intros E; injection E.
  { by apply (nibbles_inj (length bs)). }
  clear E. revert bs'. induction bs as [|b bs IH]; intros [|b' bs']; cbn [fmap list_fmap app]; intros E; injection E.
  - auto.
  - by destruct b'.
  - by destruct b.
  - intros E' Hb. destruct (IH bs' E') as [-> ->]. by destruct b, b'.
Qed.

(** The lines of a dump: how deep each cell stands, its kind and its bits. *)
Definition Line : Type := nat * CellType * list bool.

Fixpoint lines (c : Cell) (depth : nat) : list Line :=
  match c with
  | MkCell d b r t i =>
      (depth, Cell.cell_type (MkCell d b r t i), Cell.bits (MkCell d b r t i)) ::
      match r with
      | RNone => []
      | ROne x => lines x (S depth)
      | RTwo x y => lines x (S depth) ++ lines y (S depth)
      | RThree x y z => lines x (S depth) ++ lines y (S depth) ++ lines z (S depth)
      | RFour x y z w => lines x (S depth) ++ lines y (S depth) ++ lines z (S depth) ++ lines w (S depth)
      end
  end.

Lemma lines_eq c depth :
  lines c depth = (depth, Cell.cell_type c, Cell.bits c) :: concat ((λ x, lines x (S depth)) <$> Cell.refs c).
Proof.
  destruct c as [d b r t i]. cbn [lines]. f_equal. unfold Cell.refs. cbn [inner_refs].
  destruct r; cbn [refs_slice fmap list_fmap concat]; by rewrite ?app_nil_r.
Qed.

Definition line_text (radix : Radix) (line : Line) : list Z :=
  let '(depth, kind, bs) := line in concat (replicate depth INDENT) ++ kind_prefix kind ++ form radix bs ++ [10].

Lemma line_inj radix l l' r r' : line_text radix l ++ r = line_text radix l' ++ r' → l = l' ∧ r = r'.
Proof.
  destruct l as [[d k] bs], l' as [[d' k'] bs']. unfold line_text. rewrite <- !app_assoc.
  assert (∀ k bs r l, kind_prefix k ++ form radix bs ++ [10] ++ r = 32 :: l → False) as Hhead.
  { intros k0 bs0 r0 l. destruct radix, k0; discriminate. }
  revert d'. induction d as [|d IH]; intros [|d']; cbn [replicate concat app].
  - intros E. assert (k = k' ∧ form radix bs ++ 10 :: r = form radix bs' ++ 10 :: r') as [-> E'].
    { destruct radix, k, k'; try discriminate E; (split; [reflexivity|]); simpl in E; simplify_eq; cbn [form app]; congruence. }
    apply form_inj in E' as [-> E']. by injection E' as ->.
  - intros E. by apply Hhead in E.
  - intros E. symmetry in E. by apply Hhead in E.
  - intros E. injection E as E. by destruct (IH d' E) as [[= -> -> ->] ->].
Qed.

Lemma line_ends radix l : ∃ t, line_text radix l = t ++ [10].
Proof. destruct l as [[d k] bs]. eexists. unfold line_text. by rewrite !app_assoc. Qed.

Lemma texts_inj radix ls : ∀ ls', concat (line_text radix <$> ls) = concat (line_text radix <$> ls') → ls = ls'.
Proof.
  assert (∀ l r, line_text radix l ++ r ≠ []) as Hne.
  { intros l r. destruct (line_ends radix l) as [t ->]. by destruct t. }
  induction ls as [|l ls IH]; intros [|l' ls'] E; cbn [fmap list_fmap concat] in E; [done| | |].
  - symmetry in E. by apply Hne in E.
  - by apply Hne in E.
  - apply line_inj in E as [-> E]. f_equal. by apply IH.
Qed.

Lemma texts_app radix l1 l2 :
  concat (line_text radix <$> l1 ++ l2) = concat (line_text radix <$> l1) ++ concat (line_text radix <$> l2).
Proof. by rewrite fmap_app, concat_app. Qed.

Section trees.
Context `{HH : Hasher} `{!HasherOk HH}.

Lemma render_refs c depth radix out :
  cell_wf c →
  render c depth radix out =
    fold_left (λ out x, render x (S depth) radix out) (Cell.refs c)
      (out ++ line_text radix (depth, Cell.cell_type c, Cell.bits c)).
Proof.
  intros Hwf. pose proof (cell_wf_bit_len c Hwf) as Hl.
  assert (∀ out, fold_left (λ out _, out ++ INDENT) (seq 0 depth) out = out ++ concat (replicate depth INDENT)) as Hind.
  { generalize 0%nat as s. clear. induction depth as [|d IH]; intros s out; [by rewrite app_nil_r|].
    cbn [seq fold_left replicate concat]. by rewrite IH, <- app_assoc. }
  assert (match radix with Hex => hex_form (Cell.data c) (Cell.bit_len c)
                         | Binary => binary_form (Cell.data c) (Cell.bit_len c) end = form radix (Cell.bits c)) as Hform.
  { destruct radix; [by apply hex_form_nibbles; lia|apply binary_form_bits]. }
  destruct c as [d b r t i]. cbn [render]. rewrite Hind, Hform. unfold line_text. rewrite <- !app_assoc.
  unfold Cell.refs. cbn [inner_refs]. by destruct r.
Qed.

Lemma render_lines c radix : ∀ depth out,
  cell_wf c → render c depth radix out = out ++ concat (line_text radix <$> lines c depth).
Proof.
  induction c as [d b r t i IH] using cell_tree_ind. intros depth out Hwf.
  set (c := MkCell d b r t i) in *. change (refs_slice r) with (Cell.refs c) in IH. clearbody c.
  rewrite render_refs, lines_eq by done. cbn [fmap list_fmap concat]. rewrite app_assoc.
  generalize (out ++ line_text radix (depth, Cell.cell_type c, Cell.bits c)) as o.
  apply cell_wf_refs in Hwf. induction IH as [|x l Hx _ IHl]; intros o; cbn [fold_left fmap list_fmap concat].
  - by rewrite app_nil_r.
  - apply Forall_cons in Hwf as [Wx Hwf]. by rewrite Hx, IHl, texts_app, app_assoc.
Qed.

(** The depths of the lines say where each subtree ends. *)
Definition shallow (depth : nat) (rest : list Line) : Prop :=
  match rest with [] => True | (d, _, _) :: _ => (d <= depth)%nat end.

Lemma lines_inj c : ∀ c' depth rest rest',
  cell_wf c → cell_wf c' → shallow depth rest → shallow depth rest' →
  lines c depth ++ rest = lines c' depth ++ rest' → same c c' ∧ rest = rest'.
Proof.
  induction c as [d b r t i IH] using cell_tree_ind. intros c' depth rest rest' W W' Hs Hs'.
  set (c := MkCell d b r t i) in *. change (refs_slice r) with (Cell.refs c) in IH. clearbody c.
  rewrite !lines_eq. cbn [app]. intros [= Et Eb E].
  enough (Forall2 same (Cell.refs c) (Cell.refs c') ∧ rest = rest') as [Hr ->] by (split; [by apply same_parts|done]).
  clear Et Eb. apply cell_wf_refs in W, W'. revert E W'. generalize (Cell.refs c') as l'.
  induction IH as [|x l Hx _ IHl]; intros [|x' l'] E W'; cbn [fmap list_fmap concat app] in E.
  - by split; [constructor|].
  - rewrite lines_eq in E. cbn [app] in E. rewrite E in Hs. simpl in Hs. lia.
  - rewrite lines_eq in E. cbn [app] in E. rewrite <- E in Hs'. simpl in Hs'. lia.
  - apply Forall_cons in W as [Wx W], W' as [Wx' W']. rewrite <- !app_assoc in E.
    assert (∀ l rest, shallow depth rest → shallow (S depth) (concat ((λ x, lines x (S depth)) <$> l) ++ rest)) as Hsh.
    { intros [|y ys] rest0 H0; cbn [fmap list_fmap concat app].
      - destruct rest0 as [|[[? ?] ?] ?]; simpl in *; lia || done.
      - rewrite lines_eq. simpl. lia. }
    apply Hx in E as [Hsame E]; [|by auto..].
    destruct (IHl W l' E W') as [Hl ->]. by split; [constructor|].
Qed.

Lemma same_lines c : ∀ c' depth, same c c' → lines c depth = lines c' depth.
Proof.
  induction c as [d b r t i IH] using cell_tree_ind. intros c' depth Hs.
  set (c := MkCell d b r t i) in *. change (refs_slice r) with (Cell.refs c) in IH. clearbody c.
  destruct Hs as [c c' Ed El Et _ Hr]. rewrite !lines_eq. unfold Cell.bits. rewrite Et, Ed, El. f_equal. f_equal.
  induction Hr as [|x y l l' Hxy _ IHr]; [done|]. apply Forall_cons in IH as [Hx IH].
  cbn [fmap list_fmap]. f_equal; auto.
Qed.

(** A dump tells a tree from every other: two well-formed cells are dumped alike
    exactly when they are the same tree, in hex and in binary. *)
Theorem dump_tells c c' radix :
  cell_wf c → cell_wf c' → dump_cell c radix = dump_cell c' radix ↔ same c c'.
Proof.
  intros W W'.
  assert (∀ c, cell_wf c → concat (line_text radix <$> lines c 0) = dump_cell c radix ++ [10]) as Hd.
  { clear. intros c W. unfold dump_cell. rewrite render_lines by done. cbn [app].
    assert (∃ t, concat (line_text radix <$> lines c 0) = t ++ [10]) as [t ->].
    { assert (lines c 0 ≠ []) as Hne by by rewrite lines_eq. destruct (exists_last Hne) as (ls & l & ->).
      rewrite texts_app. cbn [fmap list_fmap concat]. destruct (line_ends radix l) as [t ->].
      rewrite app_nil_r. eexists. by rewrite app_assoc. }
    rewrite last_snoc, bool_decide_eq_true_2 by done.
    rewrite length_app. cbn [length]. rewrite Nat.add_1_r. cbn [pred]. by rewrite take_app_length. }
  split.
  - intros E. assert (lines c 0 = lines c' 0) as El by (apply (texts_inj radix); rewrite !Hd by done; by f_equal).
    apply (lines_inj c c' 0 [] []); [done..|]. by rewrite !app_nil_r.
  - intros E. apply (app_inv_tail [10]). rewrite <- !Hd by done. by rewrite (same_lines c c').
Qed.
End trees.
End dump_theorems.
