(* ===== verification/Usage.v ===== *)
(** Recording which cells a computation touches, and proving only those
    (core/src/cell/usage.rs and core/src/cell/usage/trace.rs). *)

From stdpp Require Import base gmap sets list list_numbers numbers strings.
From Stdlib Require Import ZArith Lia.
From S2P Require Import Prelude Errors Bits CellData CellHash CellModel CellSlice CellBuilder Merkle MerkleUpdate.

Local Open Scope Z_scope.

Definition PRUNED_AT_LEVEL_ONE : Z := 1.

(** The set is the [HashSet<[u8; 32]>] of representation hashes. *)
Record UsageTree : Type := MkUsageTree {
  u_root : Cell;
  u_used : gset (list Z);
  u_tracing : bool;
}.

Section usage.
Context `{Hasher}.

Definition pruned_branch (cell : Cell) : result CellError Cell :=
  match (run! Builder.store_uint 0x01 8;
         run! Builder.store_uint PRUNED_AT_LEVEL_ONE 8;
         run! Builder.store_bytes (Cell.hash cell);
         Builder.store_uint (Cell.depth cell) 16) Builder.new with
  | (Ok _, builder) => Builder.finish builder PrunedBranch PRUNED_AT_LEVEL_ONE
  | (Err e, _) => Err e
  end.

Fixpoint prune_cell (keep : gset (list Z)) (cell : Cell) : result CellError Cell :=
  match cell with
  | MkCell d b r t i =>
      if negb (bool_decide (Cell.repr_hash (MkCell d b r t i) ∈ keep)) then pruned_branch (MkCell d b r t i)
      else if Cell.is_exotic (MkCell d b r t i) then Err (Malformed "a proof skeleton keeps only ordinary cells")
      else
        let? builder := copy_data (MkCell d b r t i) in
        let? builder :=
          match r with
          | RNone => Ok builder
          | ROne x => store_built (prune_cell keep x) builder
          | RTwo x y =>
              let? builder := store_built (prune_cell keep x) builder in
              store_built (prune_cell keep y) builder
          | RThree x y z =>
              let? builder := store_built (prune_cell keep x) builder in
              let? builder := store_built (prune_cell keep y) builder in
              store_built (prune_cell keep z) builder
          | RFour x y z w =>
              let? builder := store_built (prune_cell keep x) builder in
              let? builder := store_built (prune_cell keep y) builder in
              let? builder := store_built (prune_cell keep z) builder in
              store_built (prune_cell keep w) builder
          end in
        Builder.build builder
  end.

(** The walk over the references stops at the first child the target is under. *)
Fixpoint mark_path_to (node : Cell) (target : list Z) (used : gset (list Z)) : bool * gset (list Z) :=
  match node with
  | MkCell d b r t i =>
      let node := MkCell d b r t i in
      if bool_decide (Cell.repr_hash node = target) then (true, {[target]} ∪ used)
      else
        let try child rest :=
          let '(found, used) := child in
          if found : bool then (true, {[Cell.repr_hash node]} ∪ used) else rest used in
        match r with
        | RNone => (false, used)
        | ROne x => try (mark_path_to x target used) (λ used, (false, used))
        | RTwo x y =>
            try (mark_path_to x target used) (λ used,
            try (mark_path_to y target used) (λ used, (false, used)))
        | RThree x y z =>
            try (mark_path_to x target used) (λ used,
            try (mark_path_to y target used) (λ used,
            try (mark_path_to z target used) (λ used, (false, used))))
        | RFour x y z w =>
            try (mark_path_to x target used) (λ used,
            try (mark_path_to y target used) (λ used,
            try (mark_path_to z target used) (λ used,
            try (mark_path_to w target used) (λ used, (false, used)))))
        end
  end.
End usage.

Module UsageTree.
Section usage.
Context `{Hasher}.

Definition new (root : Cell) : UsageTree := MkUsageTree root {[Cell.repr_hash root]} true.
Definition root (self : UsageTree) : Cell := u_root self.

Definition mark (cell : Cell) (self : UsageTree) : UsageTree :=
  MkUsageTree (u_root self) ({[Cell.repr_hash cell]} ∪ u_used self) (u_tracing self).

Definition touched (self : UsageTree) (cell : Cell) : bool := bool_decide (Cell.repr_hash cell ∈ u_used self).

Definition mark_path (cell : Cell) (self : UsageTree) : bool * UsageTree :=
  let '(found, used) := mark_path_to (u_root self) (Cell.repr_hash cell) (u_used self) in
  (found, MkUsageTree (u_root self) used (u_tracing self)).

Definition prune (self : UsageTree) : result CellError Cell := prune_cell (u_used self) (u_root self).
Definition prove (self : UsageTree) : result CellError Cell := let? pruned := prune self in create_proof pruned.

Definition is_tracing (self : UsageTree) : bool := u_tracing self.
Definition set_tracing (on : bool) (self : UsageTree) : UsageTree := MkUsageTree (u_root self) (u_used self) on.

(** The closure sees and may change the tree; what it set tracing to is put back. *)
Definition without_tracing {R} (read : UsageTree → R * UsageTree) (self : UsageTree) : R * UsageTree :=
  let was := u_tracing self in
  let '(out, self) := read (set_tracing false self) in
  (out, set_tracing was self).

Definition note (cell : Cell) (self : UsageTree) : Slice * UsageTree :=
  let self := if u_tracing self then mark cell self else self in
  (Slice.new cell, self).

Definition combine (other self : UsageTree) : result CellError unit * UsageTree :=
  if negb (bool_decide (Cell.repr_hash (u_root self) = Cell.repr_hash (u_root other)))
  then (Err (Malformed "combining usage recorded over different trees"), self)
  else (Ok tt, MkUsageTree (u_root self) (u_used self ∪ u_used other) (u_tracing self)).
End usage.
End UsageTree.

(** ** The walks as folds over the references *)

Section folds.
Context `{Hasher}.

Lemma prune_cell_eq keep c :
  prune_cell keep c =
    if negb (bool_decide (Cell.repr_hash c ∈ keep)) then pruned_branch c
    else if Cell.is_exotic c then Err (Malformed "a proof skeleton keeps only ordinary cells")
    else
      let? builder := copy_data c in
      let? builder := res_fold (λ b x, store_built (prune_cell keep x) b) (Cell.refs c) builder in
      Builder.build builder.
Proof.
  destruct c as [d b r t i]. unfold Cell.refs at 1. cbn [prune_cell inner_refs].
  destruct (negb _); [done|]. destruct (Cell.is_exotic _); [done|].
  destruct (copy_data _) as [builder|]; [|done]. simpl.
  destruct r; simpl; try done;
    repeat match goal with
    | |- context [store_built (prune_cell keep ?x) ?b] => destruct (store_built (prune_cell keep x) b); simpl; [|done]
    end; done.
Qed.

Fixpoint first_marked (target : list Z) (node : Cell) (children : list Cell) (used : gset (list Z)) : bool * gset (list Z) :=
  match children with
  | [] => (false, used)
  | child :: children =>
      let '(found, used) := mark_path_to child target used in
      if found then (true, {[Cell.repr_hash node]} ∪ used) else first_marked target node children used
  end.

Lemma mark_path_to_eq c target used :
  mark_path_to c target used =
    if bool_decide (Cell.repr_hash c = target) then (true, {[target]} ∪ used)
    else first_marked target c (Cell.refs c) used.
Proof. destruct c as [d b [] t i]; reflexivity. Qed.
End folds.
