(* ===== verification/UsageTheorems.v ===== *)
(** What a proof made of recorded usage shows: everything marked, under the hash of the
    whole tree, and nothing of the rest. *)

From stdpp Require Import base gmap sets list list_numbers numbers strings.
From Stdlib Require Import ZArith Lia.
From S2P Require Import Prelude Errors Bits CellData CellHash CellModel Binding CellSlice CellBuilder BuilderOps Merkle MerkleUpdate Usage.

Local Open Scope Z_scope.

(** ** What a pruned tree shows *)

(** The cells a walk from the root reaches through marked cells, marked themselves. *)
Inductive exposed `{Hasher} (keep : gset (list Z)) (root : Cell) : Cell → Prop :=
| exposed_root : Cell.repr_hash root ∈ keep → exposed keep root root
| exposed_ref x y : exposed keep root x → y ∈ Cell.refs x → Cell.repr_hash y ∈ keep → exposed keep root y.

(** A picture of a tree: marked cells in full, pruned branches in place of the rest. *)
Local Unset Elimination Schemes.
Inductive pictured `{Hasher} (keep : gset (list Z)) : Cell → Cell → Prop :=
| pictured_pruned n B :
    (Cell.repr_hash B ∉ keep) → Cell.cell_type n = PrunedBranch → level0 n = level0 B → pictured keep n B
| pictured_kept n B :
    Cell.repr_hash B ∈ keep → Cell.cell_type n = Ordinary → Cell.cell_type B = Ordinary →
    Cell.bits n = Cell.bits B → Forall2 (pictured keep) (Cell.refs n) (Cell.refs B) → pictured keep n B.
Local Set Elimination Schemes.

Section usage.
Context `{HH : Hasher} `{!HasherOk HH}.

(** ** The branches cut off *)

Definition pruned_data (c : Cell) : list Z := [1; 1] ++ Cell.hash c ++ to_be_bytes 2 (Cell.depth c).

Lemma pruned_data_ok c : cell_wf c → Forall is_byte (pruned_data c) ∧ len (pruned_data c) = 36.
Proof.
  intros Hwf. pose proof (hash_at_bytes c 0 Hwf ltac:(lia)) as Hb. pose proof (hash_at_len c 0 Hwf ltac:(lia)) as Hl.
  unfold pruned_data. split.
  - apply Forall_app. split; [by repeat constructor|]. apply Forall_app. split; [done|apply to_be_bytes_bytes].
  - unfold len. rewrite !length_app, length_to_be_bytes. unfold Cell.hash. by rewrite Hl.
Qed.

Lemma pruned_stores c : cell_wf c →
  (run! Builder.store_uint 0x01 8;
   run! Builder.store_uint PRUNED_AT_LEVEL_ONE 8;
   run! Builder.store_bytes (Cell.hash c);
   Builder.store_uint (Cell.depth c) 16) Builder.new = (Ok tt, holding (bytes_bits (pruned_data c)) RNone).
Proof.
  intros Hwf. pose proof (hash_at_bytes c 0 Hwf ltac:(lia)) as Hb. pose proof (hash_at_len c 0 Hwf ltac:(lia)) as Hl.
  fold (Cell.hash c) in Hb, Hl. assert (len (Cell.hash c) = 32) as Hh by (unfold len; lia).
  pose proof (depth_at_range c 0 Hwf ltac:(lia)) as Hd. fold (Cell.depth c) in Hd. unfold U16_MAX in Hd.
  rewrite new_holding. unfold PRUNED_AT_LEVEL_ONE.
  erewrite st_bind_ok by (rewrite (store_uint_fits 8) by lia; apply put_ok; rewrite len_uint_bits; vm_compute; discriminate).
  erewrite st_bind_ok by (rewrite (store_uint_fits 8) by lia; apply put_ok; rewrite len_app, !len_uint_bits; vm_compute; discriminate).
  erewrite st_bind_ok.
  2:{ rewrite store_bytes_spec; [|done|rewrite Hh; done]. apply put_ok.
      rewrite !len_app, !len_uint_bits, len_bytes_bits, Hh. vm_compute. discriminate. }
  rewrite (store_uint_fits 16) by lia. etrans.
  { apply put_ok. rewrite !len_app, !len_uint_bits, len_bytes_bits, Hh. vm_compute. discriminate. }
  do 2 f_equal. change (uint_bits (Z.to_nat 16) (Cell.depth c)) with (uint_bits 16 (Cell.depth c)).
  rewrite uint_bits_16. unfold pruned_data. rewrite !bytes_bits_app. by rewrite <- !app_assoc.
Qed.

(** A pruned branch answers for the cell it stands for, at level zero. *)
Lemma pruned_branch_spec c : cell_wf c →
  ∃ p, pruned_branch c = Ok p ∧ cell_wf p ∧ Cell.cell_type p = PrunedBranch ∧ level0 p = level0 c.
Proof.
  intros Hwf. unfold pruned_branch. rewrite pruned_stores by done. destruct (pruned_data_ok c Hwf) as [Hb Hl].
  assert (length (Cell.hash c) = 32%nat) as Hh by (apply (hash_at_len c 0 Hwf); lia).
  destruct (finish_spec (bytes_bits (pruned_data c)) RNone PrunedBranch PRUNED_AT_LEVEL_ONE) as (p & Hp & ->).
  { rewrite len_bytes_bits, Hl. vm_compute. discriminate. }
  rewrite stored_form_bytes in * by done. rewrite len_bytes_bits, Hl. cbn [refs_slice fmap list_fmap].
  assert (mask_ok PRUNED_AT_LEVEL_ONE) as Hm by by vm_compute.
  assert (compute (pruned_data c) (8 * 36) [] PrunedBranch PRUNED_AT_LEVEL_ONE = Ok (mk_identity 1
      [(Cell.hash c, Cell.depth c); digest (pruned_repr (pruned_data c) (8 * 36) 1, 0)])) as Hid.
  { rewrite compute_pruned by (done || by rewrite Hl). do 2 f_equal. unfold PRUNED_AT_LEVEL_ONE.
    change (seqZ 0 (count_ones 8 1)) with [0]. cbn [fmap list_fmap app]. do 2 f_equal.
    - unfold stored_hash. change (Z.to_nat (2 + 32 * 0)) with 2%nat. unfold pruned_data. cbn [app drop].
      by apply take_app_length'.
    - unfold stored_depth. change (Z.to_nat (2 + 32 * count_ones 8 1 + 2 * 0)) with 34%nat. unfold pruned_data.
      rewrite app_assoc, drop_app_length' by (rewrite length_app, Hh; done).
      rewrite take_ge by (by rewrite length_to_be_bytes). apply be_bytes_2. by apply depth_at_range. }
  assert (summarize (pruned_data c) (8 * 36) [] PrunedBranch PRUNED_AT_LEVEL_ONE = Ok (mk_identity 1
      [(Cell.hash c, Cell.depth c); digest (pruned_repr (pruned_data c) (8 * 36) 1, 0)])) as Hsum.
  { rewrite <- Hid. unfold summarize. by rewrite (Z.eqb_refl). }
  rewrite Hsum. cbn [res_bind]. eexists. split; [done|]. set (p' := MkCell _ _ _ _ _).
  assert (cell_wf p') as Hwp.
  { constructor; unfold p', Cell.data, Cell.bit_len, Cell.level_mask, Cell.refs, Cell.cell_type, Cell.identity; simpl; rewrite ?Hp.
    - vm_compute. split; discriminate.
    - split; [by rewrite Hl|]. split; [done|]. intros Hz. by exfalso.
    - by vm_compute.
    - unfold kind_ok, Cell.data, Cell.refs, Cell.level_mask, Cell.cell_type. simpl. rewrite Hp. repeat split; done || by rewrite Hl.
    - exact Hsum.
    - constructor. }
  split; [done|]. by repeat (split; [done|]).
Qed.

(** ** Pruning *)

Lemma exposed_child keep c x y :
  Cell.repr_hash c ∈ keep → x ∈ Cell.refs c → exposed keep x y → exposed keep c y.
Proof.
  intros Hc Hx. induction 1 as [Hk|y z _ IH Hz Hk]; [eapply exposed_ref; [by apply exposed_root|done..]|].
  by eapply exposed_ref.
Qed.

Lemma exposed_kept keep c x : exposed keep c x → Cell.repr_hash c ∈ keep ∧ Cell.repr_hash x ∈ keep.
Proof. induction 1 as [Hk|x y _ [IH _] _ Hk]; done. Qed.

Lemma exotic_ordinary c : Cell.is_exotic c = false ↔ Cell.cell_type c = Ordinary.
Proof. unfold Cell.is_exotic, Cell.cell_type. by destruct (inner_cell_type c). Qed.

Lemma prune_cell_spec keep c : cell_wf c →
  match prune_cell keep c with
  | Ok n => cell_wf n ∧ pictured keep n c ∧ level0 n = level0 c
  | Err _ => ∃ x, exposed keep c x ∧ Cell.is_exotic x = true
  end.
Proof.
  induction c as [d b r t i IH] using cell_tree_ind. set (c := MkCell d b r t i) in *.
  change (refs_slice r) with (Cell.refs c) in IH. clearbody c. intros Hwf. rewrite prune_cell_eq. case_bool_decide as Hk; cbn [negb].
  2:{ destruct (pruned_branch_spec c Hwf) as (p & -> & Wp & Tp & Lp). split; [done|]. split; [by apply pictured_pruned|done]. }
  destruct (Cell.is_exotic c) eqn:Hx; [exists c; split; [by apply exposed_root|done]|].
  apply exotic_ordinary in Hx. rewrite copy_data_spec by done. cbn [res_bind]. pose proof (cell_wf_refs c Hwf) as Fc.
  assert ((∃ cs, Forall2 (λ x c, prune_cell keep x = Ok c) (Cell.refs c) cs ∧ Forall cell_wf cs ∧
      Forall2 (pictured keep) cs (Cell.refs c) ∧ level0 <$> cs = level0 <$> Cell.refs c) ∨
    ∃ x y, x ∈ Cell.refs c ∧ is_ok (prune_cell keep x) = false ∧ exposed keep x y ∧ Cell.is_exotic y = true)
    as [(cs & Hf & Wcs & Hp & Hl)|(x & y & Hin & Hf & Hy & Ey)].
  { clear Hwf. induction (Cell.refs c) as [|x l IHl]; [left; exists []; repeat split; constructor|].
    apply Forall_cons in IH as [IHx IH], Fc as [Wx Fc]. specialize (IHx Wx).
    destruct (prune_cell keep x) as [n|e] eqn:Ex.
    - destruct IHl as [(cs & Hf & Wcs & Hp & Hl)|(y & z & Hin & Hy)]; [done..| |].
      + destruct IHx as (Wn & Pn & Ln). left. exists (n :: cs). repeat split; [by constructor..|]. cbn [fmap list_fmap]. by rewrite Ln, Hl.
      + right. exists y, z. split; [by right|done].
    - destruct IHx as (y & Hy & Ey). right. exists x, y. rewrite Ex. split; [by left|done]. }
  - pose proof (len_refs_slice (inner_refs c)) as Hlen. fold (Cell.refs c) in Hlen.
    assert (len cs <= MAX_REFS) as Hn by (apply Forall2_length in Hf; unfold len in *; lia).
    rewrite (store_built_all (prune_cell keep) _ cs) by (done || (change (len (refs_slice RNone)) with 0; lia)).
    cbn [res_bind]. destruct (rebuild_ok c cs Hwf Wcs Hn) as (n & _ & -> & Wn & Tn & Bn & Rn).
    split; [done|]. split; [apply pictured_kept; try done; by rewrite Rn|]. apply ordinary_level0_eq; try done. by rewrite Rn.
  - pose proof (store_built_fails (prune_cell keep) (Cell.refs c) x (holding (Cell.bits c) RNone) Hin Hf) as He.
    destruct (res_fold _ _ _) as [|e]; [done|]. cbn [res_bind]. exists y. split; [by eapply exposed_child|done].
Qed.

(** Every exposed cell is there in the picture, bit for bit, under its own hash. *)
Lemma pictured_exposes keep n c x :
  pictured keep n c → exposed keep c x → ∃ y, below n y ∧ pictured keep y x.
Proof.
  intros Hp. induction 1 as [Hk|x z Hx IH Hz Hk]; [exists n; split; [constructor|done]|].
  destruct IH as (y & Hy & Py). apply exposed_kept in Hx as [_ Hx]. inversion Py as [y' x' Hn _ _|y' x' _ _ _ _ Hr]; subst; [done|].
  apply list_elem_of_lookup in Hz as [j Hj]. destruct (Forall2_lookup_r _ _ _ _ _ Hr Hj) as (w & Hw & Pw).
  exists w. split; [|done]. eapply below_ref; [done|by eapply list_elem_of_lookup_2].
Qed.

Lemma pictured_level0 keep n : ∀ B, cell_wf n → cell_wf B → pictured keep n B → level0 n = level0 B.
Proof.
  induction n as [d b r t i IH] using cell_tree_ind. intros B Wn WB Hs.
  set (n := MkCell d b r t i) in *. change (refs_slice r) with (Cell.refs n) in IH. clearbody n.
  inversion Hs as [n' B' _ _ E|n' B' _ Tn TB Hb Hr]; subst; [done|].
  apply ordinary_level0_eq; [done..|]. apply cell_wf_refs in Wn, WB. clear Hs.
  induction Hr as [|x y l1 l2 Hxy Hr IHr]; [done|].
  apply Forall_cons in IH as [IHx IH], Wn as [Wx Wn], WB as [Wy WB].
  cbn [fmap list_fmap]. apply (f_equal2 cons); auto.
Qed.
End usage.

(** ** Histories of a usage tree *)

Local Unset Elimination Schemes.
Inductive touch : Type :=
| Mark (cell : Cell)
| MarkPath (cell : Cell)
| Note (cell : Cell)
| SetTracing (on : bool)
| Combine (other : UsageTree)
| WithoutTracing (touches : list touch).
Local Set Elimination Schemes.

Section histories.
Context `{HH : Hasher} `{!HasherOk HH}.

Fixpoint run_touch (t : touch) (u : UsageTree) : UsageTree :=
  match t with
  | Mark c => UsageTree.mark c u
  | MarkPath c => snd (UsageTree.mark_path c u)
  | Note c => snd (UsageTree.note c u)
  | SetTracing on => UsageTree.set_tracing on u
  | Combine other => snd (UsageTree.combine other u)
  | WithoutTracing ts => snd (UsageTree.without_tracing (λ u, (tt, fold_left (λ u t, run_touch t u) ts u)) u)
  end.

Definition recorded (root : Cell) (ts : list touch) : UsageTree :=
  fold_left (λ u t, run_touch t u) ts (UsageTree.new root).

(** Whatever is done, the root stays and what was marked stays marked. *)
Definition extends (u u' : UsageTree) : Prop := u_root u' = u_root u ∧ u_used u ⊆ u_used u'.

Lemma first_marked_spec target c l used :
  Forall (λ x, ∀ used, let '(found, used') := mark_path_to x target used in
    used ⊆ used' ∧
    if found : bool then ∃ y, exposed used' x y ∧ Cell.repr_hash y = target
    else used' = used ∧ ∀ y, below x y → Cell.repr_hash y ≠ target) l →
  let '(found, used') := first_marked target c l used in
  used ⊆ used' ∧
  if found : bool then ∃ x y, x ∈ l ∧ Cell.repr_hash c ∈ used' ∧ exposed used' x y ∧ Cell.repr_hash y = target
  else used' = used ∧ ∀ x y, x ∈ l → below x y → Cell.repr_hash y ≠ target.
Proof.
  induction l as [|x l IH]; intros Hl; cbn [first_marked]; [split; [done|split; [done|intros ?? H; by apply elem_of_nil in H]]|].
  apply Forall_cons in Hl as [Hx Hl]. specialize (Hx used). destruct (mark_path_to x target used) as [[] used1].
  - destruct Hx as [Hsub (y & Hy & Ey)]. split; [apply union_subseteq_r', Hsub|]. exists x, y. split; [by left|].
    split; [by apply elem_of_union_l, elem_of_singleton|]. split; [|done].
    clear -Hy. induction Hy; [apply exposed_root|eapply exposed_ref; [done|done|]]; by apply elem_of_union_r.
  - destruct Hx as [_ [-> Hx]]. specialize (IH Hl). destruct (first_marked target c l used) as [[] used2].
    + destruct IH as [Hsub (y & z & Hin & Hyz)]. split; [done|]. exists y, z. split; [by right|done].
    + destruct IH as [Hsub [E Hno]]. split; [done|]. split; [done|]. intros y z [->|Hin]%elem_of_cons; [apply Hx|by apply Hno].
Qed.

Lemma mark_path_to_spec target c : ∀ used,
  let '(found, used') := mark_path_to c target used in
  used ⊆ used' ∧
  if found : bool then ∃ x, exposed used' c x ∧ Cell.repr_hash x = target
  else used' = used ∧ ∀ x, below c x → Cell.repr_hash x ≠ target.
Proof.
  induction c as [d b r t i IH] using cell_tree_ind. set (c := MkCell d b r t i) in *.
  change (refs_slice r) with (Cell.refs c) in IH. clearbody c. intros used. rewrite mark_path_to_eq. case_bool_decide as He.
  - split; [by apply union_subseteq_r|]. exists c. split; [|done]. apply exposed_root. rewrite He.
    by apply elem_of_union_l, elem_of_singleton.
  - pose proof (first_marked_spec target c (Cell.refs c) used IH) as Hf.
    destruct (first_marked target c (Cell.refs c) used) as [[] used'].
    + destruct Hf as [Hsub (x & y & Hx & Hc & Hy & Ey)]. split; [done|]. exists y. split; [by eapply exposed_child|done].
    + destruct Hf as [Hsub [E Hno]]. split; [done|]. split; [done|]. intros x Hx.
      apply below_inv in Hx as [->|(y & Hy & Hyx)]; [done|by eapply Hno].
Qed.

Lemma touch_extends : ∀ t u, extends u (run_touch t u).
Proof.
  fix IH 1. intros [c|c|c|on|other|ts] u; cbn [run_touch].
  - split; [done|]. cbn. by apply union_subseteq_r.
  - unfold UsageTree.mark_path. pose proof (mark_path_to_spec (Cell.repr_hash c) (u_root u) (u_used u)) as Hm.
    destruct (mark_path_to _ _ _) as [found used]. split; [done|]. by destruct Hm.
  - unfold UsageTree.note. destruct (u_tracing u); [|done]. split; [done|]. cbn. by apply union_subseteq_r.
  - done.
  - unfold UsageTree.combine. destruct (negb _); [done|]. split; [done|]. cbn. by apply union_subseteq_l.
  - cbn. assert (∀ u, extends u (fold_left (λ u t, run_touch t u) ts u)) as Hts.
    { induction ts as [|t ts IHts]; intros v; [done|]. cbn [fold_left]. destruct (IHts (run_touch t v)) as [R S].
      destruct (IH t v) as [R' S']. split; [congruence|by trans (u_used (run_touch t v))]. }
    destruct (Hts (UsageTree.set_tracing false u)) as [R S]. by split.
Qed.

Lemma recorded_inv root ts : u_root (recorded root ts) = root ∧ Cell.repr_hash root ∈ u_used (recorded root ts).
Proof.
  unfold recorded. assert (∀ u, extends u (fold_left (λ u t, run_touch t u) ts u)) as Hts.
  { induction ts as [|t ts IHts]; intros v; [done|]. cbn [fold_left]. destruct (IHts (run_touch t v)) as [R S].
    destruct (touch_extends t v) as [R' S']. split; [congruence|by trans (u_used (run_touch t v))]. }
  destruct (Hts (UsageTree.new root)) as [R S]. split; [done|]. apply S. cbn. by apply elem_of_singleton.
Qed.
End histories.

(** ** Theorems *)

Section theorems.
Context `{HH : Hasher} `{!HasherOk HH}.

(** C26: a proof made of recorded usage. Whatever cells of a tree were marked, and however,
    the proof made verifies against the hash of the whole tree, and shows every cell that
    is reached from the root through marked cells, bit for bit, under its own hash, and
    pruned branches in place of everything else. Making it fails only where one of the
    cells so reached is exotic, and then always. *)
Theorem usage_proof root ts : cell_wf root →
  let used := u_used (recorded root ts) in
  match UsageTree.prove (recorded root ts) with
  | Ok proof =>
      (∃ content, cell_wf proof ∧ verify_merkle_proof proof (Cell.hash root) = Ok content ∧ pictured used content root ∧
        ∀ x, exposed used root x → ∃ y, below content y ∧ Cell.bits y = Cell.bits x ∧ Cell.hash y = Cell.hash x) ∧
      ∀ x, exposed used root x → Cell.is_exotic x = false
  | Err _ => ∃ x, exposed used root x ∧ Cell.is_exotic x = true
  end.
Proof.
  intros Hwf used. destruct (recorded_inv root ts) as [Hroot Hin]. fold used in Hin.
  unfold UsageTree.prove, UsageTree.prune. rewrite Hroot. fold used.
  pose proof (prune_cell_spec used root Hwf) as Hp. destruct (prune_cell used root) as [n|e]; [|done]. cbn [res_bind].
  destruct Hp as (Wn & Pn & Ln). assert (Cell.cell_type n = Ordinary) as Tn by by inversion Pn.
  destruct (create_proof_reads n Wn Tn) as (proof & -> & Wp & _ & Hv).
  assert (Cell.hash n = Cell.hash root) as Hh by by injection Ln. rewrite Hh in Hv.
  assert (∀ x, exposed used root x → ∃ y, below n y ∧ Cell.bits y = Cell.bits x ∧ Cell.hash y = Cell.hash x ∧ Cell.cell_type x = Ordinary) as Hall.
  { intros x Hx. destruct (pictured_exposes used n root x Pn Hx) as (y & Hy & Py). exists y. split; [done|].
    assert (cell_wf x) as Wx by (clear -Hwf Hx; induction Hx as [|x z _ IH Hz _]; [done|]; apply cell_wf_refs in IH; rewrite Forall_forall in IH; auto).
    pose proof (pictured_level0 used y x ltac:(by apply (below_wf n)) Wx Py) as Hl. injection Hl as Hl _.
    apply exposed_kept in Hx as [_ Hx]. by inversion Py. }
  split.
  - exists n. do 3 (split; [done|]). intros x Hx. destruct (Hall x Hx) as (y & ? & ? & ? & _). by exists y.
  - intros x Hx. destruct (Hall x Hx) as (_ & _ & _ & _ & Tx). by apply exotic_ordinary.
Qed.

(** C: [mark_path] finds a cell exactly where it is in the tree, and then marks a whole
    path down to it, so that a proof shows it; where it is not there nothing is marked.
    What was marked stays marked. *)
Theorem mark_path_exposes cell u :
  let '(found, u') := UsageTree.mark_path cell u in
  (found = true ↔ ∃ x, below (u_root u) x ∧ Cell.repr_hash x = Cell.repr_hash cell) ∧
  u_root u' = u_root u ∧ u_used u ⊆ u_used u' ∧
  if found then ∃ x, exposed (u_used u') (u_root u') x ∧ Cell.repr_hash x = Cell.repr_hash cell else u' = u.
Proof.
  unfold UsageTree.mark_path. pose proof (mark_path_to_spec (Cell.repr_hash cell) (u_root u) (u_used u)) as Hm.
  destruct (mark_path_to _ _ _) as [[] used]; cbn [u_root u_used]; destruct Hm as [Hsub Hm].
  - split; [|done]. split; [intros _|done]. destruct Hm as (x & Hx & Ex). exists x. split; [|done].
    clear -Hx. induction Hx as [|x y _ IH Hy _]; [constructor|by eapply below_ref].
  - destruct Hm as [-> Hno]. split; [|by destruct u]. split; [done|]. intros (x & Hx & Ex). by destruct (Hno x Hx).
Qed.
End theorems.
