(* ===== verification/DictLabel.v ===== *)
(** Dictionary edge labels (core/src/cell/dict/label.rs): the inline label, the
    bit runs and sinks its functions are generic over, reading a label in any
    of its three forms and writing the shortest. *)

From S2P Require Import Prelude Errors Bits CellData CellHash CellModel CellSlice CellBuilder Fields.
From stdpp Require Import base list list_numbers numbers strings.
From Stdlib Require Import ZArith Lia.

Local Open Scope Z_scope.

#[local] Arguments uint_bits : simpl never.

Definition LABEL_BYTES : Z := div_ceil MAX_BITS 8.

Definition bounded_width (max : Z) : Z := 16 - leading_zeros 16 max.

(** [trait BitRun] *)
Class BitRun (R : Type) : Type := {
  run_len : R → Z;
  run_bit : R → Z → bool;
}.

#[export] Instance bools_run : BitRun (list bool) := {|
  run_len := len;
  run_bit l index := default false (get l index);
|}.

Record Label : Type := MkLabel { l_bits : list Z; l_len : Z }.

Module Label.
Definition new : Label := MkLabel (replicate (Z.to_nat LABEL_BYTES) 0) 0.

Definition width (self : Label) : Z := l_len self.

Definition clear (self : Label) : Label := MkLabel (replicate (Z.to_nat LABEL_BYTES) 0) 0.

Definition set (self : Label) (index : Z) (bit : bool) : Label :=
  let mask := Z.shiftl 1 (7 - index mod 8) in
  MkLabel (alter (λ byte, if bit then Z.lor byte mask else Z.ldiff byte mask)
             (Z.to_nat (index / 8)) (l_bits self)) (l_len self).

Definition push (bit : bool) : stm Label CellError unit := λ self,
  if MAX_BITS <=? l_len self then (Err LabelTooLong, self)
  else
    let self := set self (l_len self) bit in
    (Ok tt, MkLabel (l_bits self) (l_len self + 1)).

Definition extend {R} `{BitRun R} (run : R) : stm Label CellError unit :=
  st_for (seqZ 0 (run_len run)) (λ index, push (run_bit run index)).

Definition bit (self : Label) (index : Z) : bool :=
  if l_len self <=? index then false
  else
    match get (l_bits self) (index / 8) with
    | Some byte => Z.land (Z.shiftr byte (7 - index mod 8)) 1 =? 1
    | None => false
    end.

Definition copy_range (self : Label) (from len : Z) : Label :=
  let out := fold_left (λ out index, set out index (bit self (from + index))) (seqZ 0 len) new in
  MkLabel (l_bits out) len.

Definition inside (self : Label) (at' : Z) : Z :=
  Z.min (default U16_MAX (checked U16_MAX at')) (l_len self).

Definition tail (self : Label) (at' : Z) : Label :=
  let from := inside self at' in copy_range self from (l_len self - from).

Definition head (self : Label) (at' : Z) : Label := copy_range self 0 (inside self at').
End Label.

#[export] Instance label_run : BitRun Label := {|
  run_len := l_len;
  run_bit := Label.bit;
|}.

(** [trait LabelSink] *)
Class LabelSink (S : Type) : Type := {
  sink_reset : S → S;
  make_room : S → Z → S;
  write_bit : bool → stm S CellError unit;
}.

#[export] Instance label_sink : LabelSink Label := {|
  sink_reset := Label.clear;
  make_room self _ := self;
  write_bit := Label.push;
|}.

#[export] Instance bools_sink : LabelSink (list bool) := {|
  sink_reset _ := [];
  make_room self _ := self;
  write_bit bit := λ self, (Ok tt, self ++ [bit]);
|}.

Inductive Run : Type :=
| Spelled (count : Z)
| Repeated (value : bool) (count : Z).

(** The unary count of the short form: it stops past [max], so [max] rounds and
    two more suffice. *)
Fixpoint unary_loop (fuel : nat) (max count : Z) : stm Slice CellError Z :=
  match fuel with
  | O => st_err LabelTooLong
  | S fuel' =>
      do! more <- Slice.load_bit;
      if more then
        let count := count + 1 in
        if max <? count then st_err LabelTooLong else unary_loop fuel' max count
      else st_ret count
  end.

Definition read_run (max : Z) : stm Slice CellError Run :=
  do! first <- Slice.load_bit;
  if negb first then
    do! count <- unary_loop (Z.to_nat max + 2) max 0;
    st_ret (Spelled count)
  else
    do! second <- Slice.load_bit;
    if negb second then
      do! count <- Slice.load_uint (bounded_width max);
      let count := wrap 16 count in
      if max <? count then st_err LabelTooLong else st_ret (Spelled count)
    else
      do! value <- Slice.load_bit;
      do! count <- Slice.load_uint (bounded_width max);
      let count := wrap 16 count in
      if max <? count then st_err LabelTooLong else st_ret (Repeated value count).

(** The two states the reader moves, the cursor and the sink, as one. *)
Definition on_slice {S A} (m : stm Slice CellError A) : stm (Slice * S) CellError A :=
  λ '(slice, into), let '(r, slice) := m slice in (r, (slice, into)).
Definition on_sink {S A} (m : stm S CellError A) : stm (Slice * S) CellError A :=
  λ '(slice, into), let '(r, into) := m into in (r, (slice, into)).

Definition read_label_into {S} `{LabelSink S} (max : Z) : stm (Slice * S) CellError unit :=
  run! on_sink (st_modify sink_reset);
  do! run <- on_slice (read_run max);
  match run with
  | Spelled count =>
      run! on_sink (st_modify (λ into, make_room into count));
      st_for (seqZ 0 count) (λ _, do! bit <- on_slice Slice.load_bit; on_sink (write_bit bit))
  | Repeated value count =>
      run! on_sink (st_modify (λ into, make_room into count));
      st_for (seqZ 0 count) (λ _, on_sink (write_bit value))
  end.

Definition skip_label (max : Z) : stm Slice CellError unit :=
  do! run <- read_run max;
  match run with
  | Spelled count => Slice.skip_bits count
  | Repeated _ _ => st_ret tt
  end.

Definition store_run {R} `{BitRun R} (run : R) : stm Builder CellError unit :=
  let count := default U16_MAX (checked U16_MAX (run_len run)) in
  do! into <- st_get;
  if negb (Builder.can_extend_by into count 0)
  then st_err (NoRoomForBits count (Builder.bits_left into))
  else st_for (seqZ 0 (run_len run)) (λ index, Builder.store_bit (run_bit run index)).

Definition store_label {R} `{BitRun R} (label : R) (max : Z) : stm Builder CellError unit :=
  let count := default U16_MAX (checked U16_MAX (run_len label)) in
  if max <? count then st_err LabelTooLong
  else
    let width := bounded_width max in
    let bits := count in
    let short := 2 * bits + 2 in
    let long := 2 + width + bits in
    let first := run_bit label 0 in
    let repeated :=
      if forallb (λ index, Bool.eqb (run_bit label index) first) (seqZ 1 (run_len label - 1))
      then 3 + width else U32_MAX in
    if (short <=? long) && (short <=? repeated) then
      run! Builder.store_bit false;
      run! Builder.store_same_bit true count;
      run! Builder.store_bit false;
      store_run label
    else if long <=? repeated then
      run! Builder.store_uint 2 2;
      run! Builder.store_uint count width;
      store_run label
    else
      run! Builder.store_uint 3 2;
      run! Builder.store_bit (run_bit label 0);
      Builder.store_uint count width.

(** ** What a run spells *)

Definition run_bits {R} `{BitRun R} (run : R) : list bool := run_bit run <$> seqZ 0 (run_len run).

(** A run answers [false] past its end, and its length is a cell's at most. *)
Class LawfulRun {R} `{BitRun R} (run : R) : Prop := {
  run_len_ok : 0 <= run_len run <= U16_MAX;
  run_bit_ok i : 0 <= i → run_bit run i = nth_bit (run_bits run) i;
}.

Lemma len_run_bits {R} `{BitRun R} (run : R) : LawfulRun run → len (run_bits run) = run_len run.
Proof. intros [? _]. unfold run_bits. rewrite len_fmap, len_seqZ; lia. Qed.

Lemma bools_run_bits (l : list bool) : run_bits l = l.
Proof. apply nth_bits. Qed.

#[export] Instance bools_lawful (l : list bool) : len l <= U16_MAX → LawfulRun l.
Proof.
  intros Hl. split; [pose proof (len_nonneg l); simpl; lia|].
  intros i _. by rewrite bools_run_bits.
Qed.

(** ** Labels as lists of bits *)

Definition label_ok (l : Label) : Prop :=
  length (l_bits l) = 128%nat ∧ Forall is_byte (l_bits l) ∧ 0 <= l_len l <= MAX_BITS.

Definition lbits (l : Label) : list bool := bits_of (l_bits l) (l_len l).

Lemma data_bit_update f d i j :
  0 <= i < 8 * len d → 0 <= j →
  data_bit (alter f (Z.to_nat (i / 8)) d) j =
    if j / 8 =? i / 8
    then match get d (i / 8) with Some b => byte_bit (f b) (j mod 8) | None => false end
    else data_bit d j.
Proof.
  intros Hi Hj. unfold data_bit, get.
  assert (0 <= i / 8 ∧ 0 <= j / 8) as [? ?] by zdiv.
  destruct (Z.ltb_spec (j / 8) 0), (Z.ltb_spec (i / 8) 0); try lia.
  destruct (Z.eqb_spec (j / 8) (i / 8)) as [E|E].
  - rewrite E, list_lookup_alter_eq. by destruct (d !! _).
  - by rewrite list_lookup_alter_ne by lia.
Qed.

Lemma byte_bit_ldiff b i j :
  is_byte b → 0 <= i < 8 → 0 <= j < 8 →
  byte_bit (Z.ldiff b (Z.shiftl 1 (7 - i))) j = byte_bit b j && negb (j =? i).
Proof.
  intros Hb Hi Hj. rewrite !byte_bit_testbit by done. rewrite Z.ldiff_spec.
  rewrite Z.shiftl_1_l, Z.pow2_bits_eqb by lia. do 2 f_equal.
  destruct (Z.eqb_spec (7 - i) (7 - j)), (Z.eqb_spec j i); lia.
Qed.

Lemma ldiff_is_byte a b : is_byte a → 0 <= b → is_byte (Z.ldiff a b).
Proof.
  intros Ha Hb. rewrite Z.ldiff_land.
  unfold is_byte in *. split; [apply Z.land_nonneg; by left; lia|].
  assert (Z.land a (Z.lnot b) <= a); [|lia].
  destruct (Z.eq_dec a 0) as [->|]; [by rewrite Z.land_0_l|].
  apply Z.ldiff_le; [lia|]. apply Z.bits_inj'. intros i Hi.
  rewrite Z.ldiff_spec, Z.land_spec, Z.bits_0. by destruct (Z.testbit a i), (Z.testbit _ i).
Qed.

Lemma data_bit_set (bit : bool) d i j :
  Forall is_byte d → 0 <= i < 8 * len d → 0 <= j →
  data_bit (alter (λ byte, if bit then Z.lor byte (Z.shiftl 1 (7 - i mod 8))
                           else Z.ldiff byte (Z.shiftl 1 (7 - i mod 8))) (Z.to_nat (i / 8)) d) j
    = if j =? i then bit else data_bit d j.
Proof.
  intros Hd Hi Hj. destruct bit.
  - change (alter _ _ d) with (data_or i d). rewrite data_bit_or by done.
    destruct (Z.eqb_spec j i) as [->|]; [by rewrite orb_true_r|by rewrite orb_false_r].
  - rewrite data_bit_update by done. unfold data_bit.
    destruct (Z.eqb_spec (j / 8) (i / 8)) as [E|E].
    + rewrite E. destruct (get d (i / 8)) as [b|] eqn:Eb; [|by destruct (j =? i)].
      rewrite byte_bit_ldiff; [| |apply Z.mod_pos_bound; lia..].
      * destruct (Z.eqb_spec (j mod 8) (i mod 8)), (Z.eqb_spec j i); simpl;
          rewrite ?andb_false_r, ?andb_true_r; try done; exfalso; zdiv.
      * unfold get in Eb. destruct (_ <? 0); [done|]. by eapply (Forall_lookup_1 is_byte).
    + destruct (Z.eqb_spec j i) as [->|]; [done|done].
Qed.

Lemma set_ok l i b :
  label_ok l → 0 <= i < MAX_BITS →
  label_ok (Label.set l i b) ∧
  ∀ j, 0 <= j → data_bit (l_bits (Label.set l i b)) j = if j =? i then b else data_bit (l_bits l) j.
Proof.
  intros (Hn & Hb & Hl) Hi.
  assert (0 <= i < 8 * len (l_bits l)) as Hi' by (unfold len; rewrite Hn; unfold MAX_BITS in *; lia).
  split; [split|].
  - unfold Label.set. simpl. by rewrite length_alter.
  - split; [|done]. unfold Label.set. simpl. apply Forall_alter; [done|]. intros x _ Hx.
    assert (0 <= 7 - i mod 8 < 8) as Hk by zdiv.
    destruct b.
    + by apply lor_bit_byte.
    + apply ldiff_is_byte; [done|]. rewrite Z.shiftl_1_l. apply Z.pow_nonneg. lia.
  - intros j Hj. unfold Label.set. simpl. by apply data_bit_set.
Qed.

Lemma len_lbits l : label_ok l → len (lbits l) = l_len l.
Proof. intros (_ & _ & Hl). unfold lbits. apply len_bits_of. lia. Qed.

Lemma label_bit l i : label_ok l → 0 <= i → Label.bit l i = nth_bit (lbits l) i.
Proof.
  intros Hok Hi. unfold Label.bit. destruct (Z.leb_spec (l_len l) i).
  - by rewrite nth_bit_past by by rewrite len_lbits.
  - unfold nth_bit, lbits. by rewrite get_bits_of by lia.
Qed.

Lemma label_run_bits l : label_ok l → run_bits l = lbits l.
Proof.
  intros Hok. unfold run_bits. simpl. rewrite <- (nth_bits (lbits l)), len_lbits by done.
  apply list_fmap_ext. intros k i Hk%lookup_seqZ. apply label_bit; [done|lia].
Qed.

Lemma label_lawful l : label_ok l → LawfulRun l.
Proof.
  intros Hok. split.
  - destruct Hok as (_ & _ & Hl). unfold MAX_BITS, U16_MAX in *. simpl. lia.
  - intros i Hi. rewrite label_run_bits by done. by apply label_bit.
Qed.

Lemma new_ok : label_ok Label.new ∧ lbits Label.new = [].
Proof.
  split; [|done]. split; [done|]. split; [|done]. apply Forall_replicate. unfold is_byte. lia.
Qed.

Lemma bits_of_snoc d n b :
  0 <= n → data_bit d n = b → bits_of d (n + 1) = bits_of d n ++ [b].
Proof. intros Hn <-. unfold bits_of. by rewrite seqZ_snoc, fmap_app by done. Qed.

Lemma bits_of_ext d1 d2 n :
  (∀ i, 0 <= i < n → data_bit d1 i = data_bit d2 i) → bits_of d1 n = bits_of d2 n.
Proof. intros H. apply list_fmap_ext. intros k i Hi%lookup_seqZ. apply H. lia. Qed.

Lemma push_ok l b :
  label_ok l →
  if MAX_BITS <=? l_len l then Label.push b l = (Err LabelTooLong, l)
  else ∃ l', Label.push b l = (Ok tt, l') ∧ label_ok l' ∧ lbits l' = lbits l ++ [b].
Proof.
  intros Hok. unfold Label.push. destruct (Z.leb_spec MAX_BITS (l_len l)); [done|].
  destruct (set_ok l (l_len l) b Hok) as [(H1 & H2 & H3) Hset].
  { destruct Hok as (_ & _ & ?). lia. }
  destruct Hok as (_ & _ & Hl).
  eexists. split; [done|]. split; [split; [done|]; split; [done|simpl; lia]|].
  unfold lbits. simpl. rewrite (bits_of_snoc _ _ b); [|lia|].
  - f_equal. apply bits_of_ext. intros i Hi. rewrite Hset by lia.
    by destruct (Z.eqb_spec i (l_len l)); [lia|].
  - rewrite Hset by lia. by rewrite Z.eqb_refl.
Qed.

(** Pushing a run of bits, with room for all of them. *)
Lemma push_for {A} (f : A → bool) xs l :
  label_ok l → l_len l + len xs <= MAX_BITS →
  ∃ l', st_for xs (λ x, Label.push (f x)) l = (Ok tt, l') ∧ label_ok l' ∧
    lbits l' = lbits l ++ (f <$> xs).
Proof.
  revert l. induction xs as [|x xs IH]; intros l Hok Hl; simpl.
  { exists l. by rewrite app_nil_r. }
  rewrite len_cons in Hl. pose proof (len_nonneg xs). pose proof (push_ok l (f x) Hok) as Hp.
  destruct (Z.leb_spec MAX_BITS (l_len l)); [lia|]. destruct Hp as (l1 & Hp & Hok1 & Hb1).
  erewrite st_bind_ok by exact Hp.
  destruct (IH l1 Hok1) as (l' & Hs & Hok' & Hb').
  { rewrite <- (len_lbits l1), Hb1, len_app, len_lbits by done. change (len [f x]) with 1. lia. }
  exists l'. split; [done|]. split; [done|]. by rewrite Hb', Hb1, <- app_assoc.
Qed.

Lemma extend_ok {R} `{BitRun R} (run : R) l :
  LawfulRun run → label_ok l → l_len l + run_len run <= MAX_BITS →
  ∃ l', Label.extend run l = (Ok tt, l') ∧ label_ok l' ∧ lbits l' = lbits l ++ run_bits run.
Proof.
  intros Hr Hok Hl. apply push_for; [done|]. rewrite len_seqZ; [done|]. by destruct Hr as [[] _].
Qed.

Lemma copy_range_ok l from n :
  label_ok l → 0 <= from → 0 <= n → from + n <= l_len l →
  label_ok (Label.copy_range l from n) ∧
  lbits (Label.copy_range l from n) = take (Z.to_nat n) (drop (Z.to_nat from) (lbits l)).
Proof.
  intros Hok Hf Hn Hl. destruct new_ok as [Hnew _]. pose proof Hok as (_ & _ & Hm).
  unfold Label.copy_range.
  set (step := λ out index, Label.set out index (Label.bit l (from + index))).
  assert (∀ k, (Z.of_nat k <= n) → label_ok (fold_left step (seqZ 0 (Z.of_nat k)) Label.new) ∧
    ∀ i, 0 <= i < Z.of_nat k →
      data_bit (l_bits (fold_left step (seqZ 0 (Z.of_nat k)) Label.new)) i = Label.bit l (from + i)) as Hfold.
  { induction k as [|k IH]; intros Hk; [split; [done|lia]|].
    rewrite Nat2Z.inj_succ, <- Z.add_1_r, seqZ_snoc, fold_left_app by lia. simpl.
    destruct IH as [Ho Hb]; [lia|].
    destruct (set_ok _ (Z.of_nat k) (Label.bit l (from + Z.of_nat k)) Ho) as [Ho' Hb']; [lia|].
    split; [done|]. intros i Hi. unfold step at 1. rewrite Hb' by lia.
    destruct (Z.eqb_spec i (Z.of_nat k)) as [->|]; [done|]. apply Hb. lia. }
  destruct (Hfold (Z.to_nat n)) as [(H1 & H2 & _) Hb]; [lia|]. rewrite Z2Nat.id in * by done.
  split; [split; [done|]; split; [done|simpl; lia]|]. unfold lbits at 1. simpl.
  pose proof (len_lbits l Hok) as Hll.
  apply list_get_ext; rewrite len_bits_of by done.
  { unfold len in *. rewrite length_take, length_drop. lia. }
  intros i Hi. rewrite get_bits_of, Hb, label_bit by (done || lia).
  unfold nth_bit. destruct (get_lt_Some (lbits l) (from + i)) as [x Hx]; [lia|]. rewrite Hx. simpl.
  unfold get in *. destruct (Z.ltb_spec i 0), (Z.ltb_spec (from + i) 0); try lia.
  rewrite lookup_take_lt, lookup_drop by lia. by rewrite <- Z2Nat.inj_add by lia.
Qed.

Lemma tail_ok l at' :
  label_ok l → 0 <= at' → label_ok (Label.tail l at') ∧ lbits (Label.tail l at') = drop (Z.to_nat at') (lbits l).
Proof.
  intros Hok Ha. pose proof Hok as (_ & _ & Hl). pose proof (len_lbits l Hok) as Hn.
  unfold Label.tail, Label.inside, checked.
  assert (∃ k, Z.min (default U16_MAX (if at' <=? U16_MAX then Some at' else None)) (l_len l) = k ∧
    0 <= k <= l_len l ∧ drop (Z.to_nat k) (lbits l) = drop (Z.to_nat at') (lbits l)) as (k & -> & Hk & E).
  { eexists. split; [done|]. destruct (Z.leb_spec at' U16_MAX); simpl; [|unfold U16_MAX, MAX_BITS in *].
    - destruct (decide (at' <= l_len l)); [by rewrite Z.min_l by lia|]. split; [lia|].
      rewrite !drop_ge; [done|unfold len in Hn; lia..].
    - split; [lia|]. rewrite !drop_ge; [done|unfold len in Hn; lia..]. }
  destruct (copy_range_ok l k (l_len l - k)) as [Ho Hb]; [done|lia..|]. split; [done|].
  rewrite Hb, <- E. apply take_ge. rewrite length_drop. unfold len in Hn. lia.
Qed.

Lemma head_ok l at' :
  label_ok l → 0 <= at' <= l_len l →
  label_ok (Label.head l at') ∧ lbits (Label.head l at') = take (Z.to_nat at') (lbits l).
Proof.
  intros Hok Ha. pose proof Hok as (_ & _ & Hl). unfold Label.head, Label.inside, checked.
  rewrite (proj2 (Z.leb_le _ _)) by (unfold U16_MAX, MAX_BITS in *; lia). simpl. rewrite Z.min_l by lia.
  destruct (copy_range_ok l 0 at') as [Ho Hb]; [done|lia..|]. split; [done|]. by rewrite Hb, drop_0.
Qed.

(** ** The three forms of a label *)

Inductive form : Type := FShort | FLong | FSame.

#[export] Instance form_eq_dec : EqDecision form.
Proof. solve_decision. Defined.

(** All the bits of the run are one bit. *)
Definition all_same (l : list bool) : Prop := ∀ i, 0 <= i < len l → nth_bit l i = nth_bit l 0.

Definition form_bits (max : Z) (f : form) (l : list bool) : list bool :=
  let width := Z.to_nat (bounded_width max) in
  match f with
  | FShort => [false] ++ replicate (length l) true ++ [false] ++ l
  | FLong => [true; false] ++ uint_bits width (len l) ++ l
  | FSame => [true; true; nth_bit l 0] ++ uint_bits width (len l)
  end.

Definition form_ok (f : form) (l : list bool) : Prop :=
  match f with FSame => all_same l | _ => True end.

Lemma bounded_width_spec max :
  0 <= max <= MAX_BITS → 0 <= bounded_width max <= 10 ∧ max < 2 ^ bounded_width max.
Proof.
  intros Hm. unfold bounded_width. destruct (Z.eq_dec max 0) as [->|]; [done|].
  rewrite leading_zeros_pos by lia. pose proof (Z.log2_nonneg max).
  pose proof (Z.log2_spec max ltac:(lia)) as [_ Hlt]. rewrite Z.add_1_r. split; [|done].
  assert (Z.log2 max < 10); [|lia]. apply Z.log2_lt_pow2; unfold MAX_BITS in *; lia.
Qed.

Lemma bounded_width_mono a b : 0 <= a <= b → bounded_width a <= bounded_width b.
Proof.
  intros Hab. unfold bounded_width, leading_zeros.
  destruct (Z.leb_spec a 0), (Z.leb_spec b 0); try lia.
  - pose proof (Z.log2_nonneg b). lia.
  - pose proof (Z.log2_le_mono a b). lia.
Qed.

Lemma len_form_bits max f l :
  0 <= max <= MAX_BITS →
  len (form_bits max f l) =
    match f with
    | FShort => 2 * len l + 2
    | FLong => 2 + bounded_width max + len l
    | FSame => 3 + bounded_width max
    end.
Proof.
  intros Hm. destruct (bounded_width_spec max Hm) as [Hw _].
  destruct f; unfold form_bits; rewrite ?len_app, ?len_uint_bits.
  - change (len [false]) with 1. unfold len. rewrite length_replicate. lia.
  - change (len [true; false]) with 2. lia.
  - change (len [true; true; nth_bit l 0]) with 3. lia.
Qed.

(** The form the writer chooses. *)
Definition best_form (max : Z) (l : list bool) : form :=
  let short := 2 * len l + 2 in
  let long := 2 + bounded_width max + len l in
  let repeated := if forallb (λ i, Bool.eqb (nth_bit l i) (nth_bit l 0)) (seqZ 1 (len l - 1))
                  then 3 + bounded_width max else U32_MAX in
  if (short <=? long) && (short <=? repeated) then FShort
  else if long <=? repeated then FLong else FSame.

Definition label_enc (max : Z) (l : list bool) : list bool := form_bits max (best_form max l) l.

Lemma all_same_forallb l :
  forallb (λ i, Bool.eqb (nth_bit l i) (nth_bit l 0)) (seqZ 1 (len l - 1)) = true ↔ all_same l.
Proof.
  rewrite forallb_forall. split.
  - intros H i Hi. destruct (decide (i = 0)) as [->|]; [done|].
    apply eqb_prop, H, list_elem_of_In, elem_of_seqZ. lia.
  - intros H i Hi%list_elem_of_In%elem_of_seqZ. rewrite H by lia. apply eqb_reflx.
Qed.

Lemma best_form_ok max l : 0 <= max <= MAX_BITS → len l <= MAX_BITS → form_ok (best_form max l) l.
Proof.
  intros Hm Hl. unfold best_form. cbv zeta. destruct (bounded_width_spec max Hm) as [Hw _].
  destruct (forallb _ _) eqn:Ef.
  - apply all_same_forallb in Ef. by repeat case_match.
  - case_match; [done|]. rewrite (proj2 (Z.leb_le _ _)); [done|]. unfold U32_MAX, MAX_BITS in *. lia.
Qed.

(** The writer's form is the shortest of those that can spell the label. *)
Lemma best_form_least max l f :
  0 <= max <= MAX_BITS → len l <= MAX_BITS → form_ok f l →
  len (label_enc max l) <= len (form_bits max f l).
Proof.
  intros Hm Hl Hf. unfold label_enc. rewrite !len_form_bits by done.
  destruct (bounded_width_spec max Hm) as [Hw _]. pose proof (len_nonneg l).
  unfold best_form. cbv zeta. destruct (forallb _ _) eqn:Ef.
  - destruct (Z.leb_spec (2 * len l + 2) (2 + bounded_width max + len l)),
      (Z.leb_spec (2 * len l + 2) (3 + bounded_width max)),
      (Z.leb_spec (2 + bounded_width max + len l) (3 + bounded_width max)); simpl; destruct f; lia.
  - assert (f ≠ FSame) as Hns.
    { intros ->. apply all_same_forallb in Hf. congruence. }
    unfold U32_MAX, MAX_BITS in *.
    destruct (Z.leb_spec (2 * len l + 2) (2 + bounded_width max + len l)),
      (Z.leb_spec (2 * len l + 2) 4294967295),
      (Z.leb_spec (2 + bounded_width max + len l) 4294967295); simpl; destruct f; try done; lia.
Qed.

(** ** Reading *)

(** What a sink promises the reader. *)
Class LawfulSink (S : Type) `{LabelSink S} : Type := {
  sink_bits : S → list bool;
  sink_ok : S → Prop;
  sink_reset_ok s : sink_ok (sink_reset s) ∧ sink_bits (sink_reset s) = [];
  make_room_ok s n : sink_ok s → sink_ok (make_room s n) ∧ sink_bits (make_room s n) = sink_bits s;
  write_bit_ok s b : sink_ok s → len (sink_bits s) < MAX_BITS →
    ∃ s', write_bit b s = (Ok tt, s') ∧ sink_ok s' ∧ sink_bits s' = sink_bits s ++ [b];
}.

#[export] Instance label_lawful_sink : LawfulSink Label.
Proof.
  refine {| sink_bits := lbits; sink_ok := label_ok |}.
  - intros s. exact new_ok.
  - done.
  - intros s b Hok Hl. rewrite len_lbits in Hl by done. pose proof (push_ok s b Hok) as Hp.
    destruct (Z.leb_spec MAX_BITS (l_len s)); [lia|done].
Defined.

#[export] Instance bools_lawful_sink : LawfulSink (list bool).
Proof.
  refine {| sink_bits := id; sink_ok := λ _, True |}; simpl; eauto.
Defined.

Lemma unary_loop_ok fuel max count k s :
  ahead s (replicate k true ++ [false]) → count + Z.of_nat k <= max → (k < fuel)%nat →
  unary_loop fuel max count s = (Ok (count + Z.of_nat k), step_bits (Z.of_nat k + 1) s).
Proof.
  revert fuel count s. induction k as [|k IH]; intros [|fuel] count s Ha Hc Hf; try lia; cbn [unary_loop].
  - erewrite st_bind_ok by by apply (load_bit_ok s false). unfold st_ret. do 2 f_equal. lia.
  - change (replicate (S k) true ++ [false]) with ([true] ++ (replicate k true ++ [false])) in Ha.
    apply ahead_app in Ha as [Ha1 Ha2]. change (len [true]) with 1 in Ha2.
    erewrite st_bind_ok by by apply (load_bit_ok s true). cbv iota zeta.
    destruct (Z.ltb_spec max (count + 1)); [lia|].
    rewrite IH by (done || lia). rewrite step_bits_step. do 2 f_equal; lia.
Qed.

Lemma unary_loop_inv fuel max count s v s' :
  slice_wf s → 0 <= count <= max → unary_loop fuel max count s = (Ok v, s') →
  ∃ k, ahead s (replicate k true ++ [false]) ∧ v = count + Z.of_nat k ∧ v <= max ∧
       s' = step_bits (Z.of_nat k + 1) s.
Proof.
  revert count s. induction fuel as [|fuel IH]; intros count s Hwf Hc E; cbn [unary_loop] in E; [done|].
  apply st_bind_inv in E as (b & s1 & [Ha ->]%load_bit_inv & E); [|done].
  pose proof (ahead_remaining _ _ Ha) as Hr. change (len [b]) with 1 in Hr.
  destruct b; cbv iota zeta in E.
  - destruct (Z.ltb_spec max (count + 1)); [done|].
    apply IH in E as (k & Ha' & -> & Hm & ->); [|apply step_bits_wf; [done|lia]|lia].
    exists (S k). split; [by apply (ahead_join s [true])|]. rewrite step_bits_step.
    split; [lia|]. split; [lia|]. f_equal. lia.
  - injection E as <- <-. exists O. split; [done|]. split; [lia|]. split; [lia|]. done.
Qed.

(** The part of a form that comes before the label's own bits. *)
Definition run_head (max : Z) (f : form) (n : Z) (b : bool) : list bool :=
  let width := Z.to_nat (bounded_width max) in
  match f with
  | FShort => [false] ++ replicate (Z.to_nat n) true ++ [false]
  | FLong => [true; false] ++ uint_bits width n
  | FSame => [true; true; b] ++ uint_bits width n
  end.

Definition run_of (f : form) (n : Z) (b : bool) : Run :=
  match f with FSame => Repeated b n | _ => Spelled n end.

Lemma form_bits_head max f l :
  form_bits max f l =
    run_head max f (len l) (nth_bit l 0) ++ match f with FSame => [] | _ => l end.
Proof.
  unfold form_bits, run_head, len. rewrite Nat2Z.id. destruct f; by rewrite <- ?app_assoc, ?app_nil_r.
Qed.

Lemma read_run_ok max f n b s :
  0 <= max <= MAX_BITS → 0 <= n <= max → ahead s (run_head max f n b) →
  read_run max s = (Ok (run_of f n b), step_bits (len (run_head max f n b)) s).
Proof.
  intros Hm Hn Ha. destruct (bounded_width_spec max Hm) as [Hw Hmw]. unfold read_run.
  assert (∀ s', ahead s' (uint_bits (Z.to_nat (bounded_width max)) n) →
    Slice.load_uint (bounded_width max) s' = (Ok n, step_bits (bounded_width max) s')) as Hload.
  { intros s' Ha'. apply load_uint_value; [lia|lia|done]. }
  assert (wrap 16 n = n) as Hwr by (apply Z.mod_small; unfold MAX_BITS in *; simpl; lia).
  destruct f; unfold run_head in *.
  - apply ahead_app in Ha as [H1 H2]. change (len [false]) with 1 in H2.
    erewrite st_bind_ok by by apply (load_bit_ok s false). cbv iota zeta. cbn [negb].
    erewrite st_bind_ok by (apply unary_loop_ok; [exact H2|lia|lia]).
    rewrite step_bits_step, Z.add_0_l, Z2Nat.id by lia. unfold st_ret. rewrite !len_app.
    change (len [false]) with 1. unfold len. rewrite length_replicate. do 2 f_equal. lia.
  - change ([true; false] ++ ?l) with ([true] ++ [false] ++ l) in Ha.
    apply ahead_app in Ha as [H1 Ha]. apply ahead_app in Ha as [H2 Ha]. rewrite step_bits_step in Ha.
    change (len [true]) with 1 in *. change (len [false]) with 1 in *.
    erewrite st_bind_ok by by apply (load_bit_ok s true). cbv iota zeta. cbn [negb].
    erewrite st_bind_ok by by apply (load_bit_ok _ false). rewrite step_bits_step. cbn [negb].
    erewrite st_bind_ok by by apply Hload. rewrite step_bits_step. cbv zeta. rewrite Hwr.
    rewrite (proj2 (Z.ltb_ge _ _)) by lia. unfold st_ret. simpl run_of.
    rewrite len_app, len_uint_bits. do 2 f_equal. change (len [true; false]) with 2. lia.
  - change ([true; true; b] ++ ?l) with ([true] ++ [true] ++ [b] ++ l) in Ha.
    apply ahead_app in Ha as [H1 Ha]. apply ahead_app in Ha as [H2 Ha]. apply ahead_app in Ha as [H3 Ha].
    rewrite !step_bits_step in *. change (len [true]) with 1 in *. change (len [b]) with 1 in *.
    erewrite st_bind_ok by by apply (load_bit_ok s true). cbn [negb].
    erewrite st_bind_ok by by apply (load_bit_ok _ true). rewrite step_bits_step. cbn [negb].
    erewrite st_bind_ok by by apply (load_bit_ok _ b). rewrite step_bits_step.
    erewrite st_bind_ok by by apply Hload. rewrite step_bits_step. cbv zeta. rewrite Hwr.
    rewrite (proj2 (Z.ltb_ge _ _)) by lia. unfold st_ret. simpl run_of.
    rewrite len_app, len_uint_bits. do 2 f_equal. change (len [true; true; b]) with 3. lia.
Qed.

Lemma uint_bits_len bs n : len bs = n → uint_bits (Z.to_nat n) (bits_uint bs) = bs.
Proof. intros <-. unfold len. rewrite Nat2Z.id. apply uint_bits_bits_uint. Qed.

Lemma read_run_inv max s run s' :
  0 <= max <= MAX_BITS → slice_wf s → read_run max s = (Ok run, s') →
  ∃ f n b, run = run_of f n b ∧ 0 <= n <= max ∧ ahead s (run_head max f n b) ∧
    s' = step_bits (len (run_head max f n b)) s.
Proof.
  intros Hm Hwf E. destruct (bounded_width_spec max Hm) as [Hw _].
  assert (∀ s1 v s2, slice_wf s1 → Slice.load_uint (bounded_width max) s1 = (Ok v, s2) →
    wrap 16 v = v ∧ 0 <= v ∧ ahead s1 (uint_bits (Z.to_nat (bounded_width max)) v) ∧
    s2 = step_bits (bounded_width max) s1) as Hload.
  { intros s1 v s2 Hwf1 (bs & Ha & Hl & -> & ->)%load_uint_inv; [|done|lia].
    pose proof (bits_uint_range bs) as Hr. rewrite Hl in Hr.
    assert (2 ^ bounded_width max <= 2 ^ 10) by (apply Z.pow_le_mono_r; lia).
    rewrite uint_bits_len by done. split; [apply Z.mod_small; lia|]. split; [lia|done]. }
  unfold read_run in E.
  apply st_bind_inv in E as (b1 & s1 & [A1 ->]%load_bit_inv & E); [|done].
  assert (slice_wf (step_bits 1 s)) as W1.
  { apply ahead_remaining in A1. change (len [b1]) with 1 in A1. by apply step_bits_wf. }
  destruct b1; cbn [negb] in E.
  2:{ apply st_bind_inv in E as (v & s2 & (k & Ha & -> & Hk & ->)%unary_loop_inv & E); [|done|lia].
      injection E as <- <-. exists FShort, (0 + Z.of_nat k), false. simpl run_of.
      split; [done|]. split; [lia|]. unfold run_head. rewrite Z.add_0_l, Nat2Z.id.
      split; [by apply (ahead_join s [false])|]. rewrite step_bits_step, !len_app.
      unfold len. rewrite length_replicate. simpl. f_equal; lia. }
  apply st_bind_inv in E as (b2 & s2 & [A2 ->]%load_bit_inv & E); [|done].
  assert (slice_wf (step_bits 1 (step_bits 1 s))) as W2.
  { apply ahead_remaining in A2. change (len [b2]) with 1 in A2. by apply step_bits_wf. }
  destruct b2; cbn [negb] in E.
  - apply st_bind_inv in E as (b & s3 & [A3 ->]%load_bit_inv & E); [|done].
    assert (slice_wf (step_bits 1 (step_bits 1 (step_bits 1 s)))) as W3.
    { apply ahead_remaining in A3. change (len [b]) with 1 in A3. by apply step_bits_wf. }
    apply st_bind_inv in E as (v & s4 & (Hv & Hv0 & Ha & ->)%Hload & E); [|done].
    cbv zeta in E. rewrite Hv in E. destruct (Z.ltb_spec max v); [done|]. injection E as <- <-.
    exists FSame, v, b. split; [done|]. split; [done|]. unfold run_head. split.
    + change ([true; true; b] ++ ?l) with ([true] ++ [true] ++ [b] ++ l).
      by do 3 (apply ahead_join; [done|]).
    + rewrite !step_bits_step, len_app, len_uint_bits. change (len [true; true; b]) with 3. f_equal; lia.
  - apply st_bind_inv in E as (v & s4 & (Hv & Hv0 & Ha & ->)%Hload & E); [|done].
    cbv zeta in E. rewrite Hv in E. destruct (Z.ltb_spec max v); [done|]. injection E as <- <-.
    exists FLong, v, false. split; [done|]. split; [done|]. unfold run_head. split.
    + change ([true; false] ++ ?l) with ([true] ++ [false] ++ l).
      by do 2 (apply ahead_join; [done|]).
    + rewrite !step_bits_step, len_app, len_uint_bits. change (len [true; false]) with 2. f_equal; lia.
Qed.

(** *** The whole label *)

Section read_label.
Context {S : Type} `{LawfulSink S}.

Lemma spelled_ok l s into :
  ahead s l → sink_ok into → len (sink_bits into) + len l <= MAX_BITS →
  ∃ into', st_for (seqZ 0 (len l))
      (λ _, do! bit <- on_slice Slice.load_bit; on_sink (write_bit bit)) (s, into)
    = (Ok tt, (step_bits (len l) s, into')) ∧ sink_ok into' ∧ sink_bits into' = sink_bits into ++ l.
Proof.
  assert (∀ (xs : list Z) l s into, length xs = length l → ahead s l → sink_ok into →
    len (sink_bits into) + len l <= MAX_BITS →
    ∃ into', st_for xs (λ _, do! bit <- on_slice Slice.load_bit; on_sink (write_bit bit)) (s, into)
      = (Ok tt, (step_bits (len l) s, into')) ∧ sink_ok into' ∧ sink_bits into' = sink_bits into ++ l) as Hgen.
  { clear l s into. intros xs l. revert xs.
    induction l as [|b l IH]; intros [|x xs] s into Hlen Ha Hok Hm; try done; cbn [st_for].
    - exists into. rewrite app_nil_r. change (len []) with 0. by rewrite step_bits_0.
    - rewrite len_cons in *. pose proof (len_nonneg l). change (b :: l) with ([b] ++ l) in Ha.
      apply ahead_app in Ha as [A1 A2]. change (len [b]) with 1 in A2.
      destruct (write_bit_ok into b Hok) as (i1 & Hw & Hok1 & Hb1); [lia|].
      erewrite st_bind_ok.
      2:{ erewrite st_bind_ok.
          2:{ unfold on_slice. by rewrite (load_bit_ok s b). }
          unfold on_sink. by rewrite Hw. }
      destruct (IH xs (step_bits 1 s) i1) as (i2 & E & Hok2 & Hb2); [by injection Hlen|done|done| |].
      { rewrite Hb1, len_app. change (len [b]) with 1. lia. }
      exists i2. rewrite E, step_bits_step, Hb2, Hb1, <- app_assoc. done. }
  apply Hgen. unfold len. rewrite length_seqZ. lia.
Qed.

Lemma repeated_ok b n s into :
  0 <= n → sink_ok into → len (sink_bits into) + n <= MAX_BITS →
  ∃ into', st_for (seqZ 0 n) (λ _, on_sink (write_bit b)) (s, into) = (Ok tt, (s, into')) ∧
    sink_ok into' ∧ sink_bits into' = sink_bits into ++ replicate (Z.to_nat n) b.
Proof.
  assert (∀ (xs : list Z) into, sink_ok into → len (sink_bits into) + len xs <= MAX_BITS →
    ∃ into', st_for xs (λ _, on_sink (write_bit b)) (s, into) = (Ok tt, (s, into')) ∧
      sink_ok into' ∧ sink_bits into' = sink_bits into ++ replicate (length xs) b) as Hgen.
  { clear n into. induction xs as [|x xs IH]; intros into Hok Hm; cbn [st_for].
    - exists into. by rewrite app_nil_r.
    - rewrite len_cons in Hm. pose proof (len_nonneg xs).
      destruct (write_bit_ok into b Hok) as (i1 & Hw & Hok1 & Hb1); [lia|].
      erewrite st_bind_ok by (unfold on_sink; by rewrite Hw).
      destruct (IH i1 Hok1) as (i2 & E & Hok2 & Hb2).
      { rewrite Hb1, len_app. change (len [b]) with 1. lia. }
      exists i2. rewrite E, Hb2, Hb1, <- app_assoc. done. }
  intros Hn Hok Hm. rewrite <- (length_seqZ 0 n). apply Hgen; [done|]. by rewrite len_seqZ.
Qed.

(** The bits a run and what follows it spell. *)
Definition spells (max : Z) (f : form) (n : Z) (b : bool) (l : list bool) : Prop :=
  match f with FSame => l = replicate (Z.to_nat n) b | _ => len l = n end.

Lemma read_label_at max f n b l s into :
  0 <= max <= MAX_BITS → 0 <= n <= max → spells max f n b l →
  ahead s (run_head max f n b ++ match f with FSame => [] | _ => l end) →
  ∃ into', read_label_into max (s, into) =
      (Ok tt, (step_bits (len (run_head max f n b ++ match f with FSame => [] | _ => l end)) s, into')) ∧
    sink_ok into' ∧ sink_bits into' = l.
Proof.
  intros Hm Hn Hsp Ha. apply ahead_app in Ha as [Ha1 Ha2].
  pose proof (read_run_ok max f n b s Hm Hn Ha1) as Hrun.
  destruct (sink_reset_ok into) as [Hok0 Hb0]. unfold read_label_into.
  erewrite st_bind_ok by done. erewrite st_bind_ok by (unfold on_slice; by rewrite Hrun).
  destruct (make_room_ok (sink_reset into) n Hok0) as [Hok1 Hb1]. rewrite Hb0 in Hb1.
  rewrite len_app, <- step_bits_step.
  set (s1 := step_bits (len (run_head max f n b)) s) in *.
  destruct f; cbn [run_of]; cbv iota.
  1,2: erewrite st_bind_ok by done; simpl in Hsp; subst n;
    destruct (spelled_ok l s1 (make_room (sink_reset into) (len l))) as (i & Hi & Hoki & Hbi);
      [done|done|rewrite Hb1; change (len []) with 0; lia|];
    exists i; rewrite Hi, Hbi, Hb1; (split; [|done]); do 2 f_equal; done.
  erewrite st_bind_ok by done.
  destruct (repeated_ok b n s1 (make_room (sink_reset into) n)) as (i & Hi & Hoki & Hbi);
    [lia|done|rewrite Hb1; change (len []) with 0; lia|].
  exists i. rewrite Hi, Hbi, Hb1. simpl in Hsp. rewrite Hsp. change (len []) with 0.
  by rewrite step_bits_0.
Qed.

Lemma all_same_replicate l : all_same l → l = replicate (Z.to_nat (len l)) (nth_bit l 0).
Proof.
  intros Hs. apply list_get_ext.
  { unfold len. rewrite length_replicate. lia. }
  intros i Hi. specialize (Hs i Hi). unfold nth_bit in Hs at 1.
  destruct (get_lt_Some l i Hi) as [x Hx]. rewrite Hx in *. simpl in Hs. subst x.
  unfold get. destruct (Z.ltb_spec i 0); [lia|]. symmetry. apply lookup_replicate_2. lia.
Qed.

Lemma read_label_form max f l s into :
  0 <= max <= MAX_BITS → len l <= max → form_ok f l → ahead s (form_bits max f l) →
  ∃ into', read_label_into max (s, into) = (Ok tt, (step_bits (len (form_bits max f l)) s, into')) ∧
    sink_ok into' ∧ sink_bits into' = l.
Proof.
  intros Hm Hl Hf Ha. pose proof (len_nonneg l). rewrite form_bits_head in *.
  apply read_label_at; [done|lia| |done]. destruct f; [done|done|]. by apply all_same_replicate.
Qed.

Lemma spells_form max f n b l :
  0 <= n → spells max f n b l →
  form_ok f l ∧ (0 < n ∨ f ≠ FSame → run_head max f n b ++ match f with FSame => [] | _ => l end = form_bits max f l)
  ∧ len (run_head max f n b ++ match f with FSame => [] | _ => l end) = len (form_bits max f l) ∧ len l = n.
Proof.
  intros Hn Hsp. rewrite form_bits_head. destruct f; simpl in Hsp.
  - subst n. done.
  - subst n. done.
  - assert (len l = n) as Hl by (rewrite Hsp; unfold len; rewrite length_replicate; lia).
    rewrite Hl. assert (∀ i, 0 <= i < n → nth_bit l i = b) as Hb.
    { intros i Hi. rewrite Hsp. unfold nth_bit, get. destruct (Z.ltb_spec i 0); [lia|].
      rewrite lookup_replicate_2 by lia. done. }
    split; [intros i Hi; rewrite !Hb by lia; done|]. split; [|done].
    intros [Hpos|]; [|done]. by rewrite Hb by lia.
Qed.

(** A spelled run that was read had its bits ahead of the cursor. *)
Lemma spelled_room (xs : list Z) s i s' i' :
  slice_wf s →
  st_for xs (λ _, do! bit <- on_slice Slice.load_bit; on_sink (write_bit bit)) (s, i) = (Ok tt, (s', i')) →
  len xs <= Slice.remaining_bits s.
Proof.
  revert s i. induction xs as [|x xs IH]; intros s i Hwf Ex; cbn [st_for] in Ex.
  - change (len []) with 0. rewrite <- len_slice_bits by done. apply len_nonneg.
  - rewrite len_cons. apply st_bind_inv in Ex as ([] & [s1 i1] & E1 & Ex).
    apply st_bind_inv in E1 as (bit & [s2 i2] & E1 & E2).
    unfold on_slice in E1. destruct (Slice.load_bit s) as [r s3] eqn:Eb. injection E1 as -> -> <-.
    unfold on_sink in E2. destruct (write_bit bit i) as [r' i4]. injection E2 as _ <- _.
    apply load_bit_inv in Eb as [Ha ->]; [|done]. apply ahead_remaining in Ha.
    change (len [bit]) with 1 in Ha. apply IH in Ex; [|by apply step_bits_wf].
    unfold Slice.remaining_bits in *. simpl in *. lia.
Qed.

(** Whatever label is read, what spells it was ahead. *)
Lemma read_label_head max s into s' into' :
  0 <= max <= MAX_BITS → slice_wf s → read_label_into max (s, into) = (Ok tt, (s', into')) →
  ∃ f n b, 0 <= n <= max ∧ spells max f n b (sink_bits into') ∧
    ahead s (run_head max f n b ++ match f with FSame => [] | _ => sink_bits into' end) ∧
    s' = step_bits (len (run_head max f n b ++ match f with FSame => [] | _ => sink_bits into' end)) s ∧ sink_ok into' ∧
    read_run max s = (Ok (run_of f n b), step_bits (len (run_head max f n b)) s).
Proof.
  intros Hm Hwf E. pose proof E as E'. unfold read_label_into in E'.
  destruct (sink_reset_ok into) as [Hok0 Hb0].
  erewrite st_bind_ok in E' by done.
  apply st_bind_inv in E' as (run & [s1 i1] & Erun & E').
  unfold on_slice in Erun. destruct (read_run max s) as [r s1'] eqn:Er. injection Erun as -> -> <-. pose proof Er as Er'.
  apply read_run_inv in Er as (f & n & b & -> & Hn & Ha & ->); [|done|done].
  assert (∃ l, spells max f n b l ∧ ahead s (run_head max f n b ++ match f with FSame => [] | _ => l end))
    as (l & Hsp & Hal).
  { destruct (decide (f = FSame)) as [->|Hns].
    { exists (replicate (Z.to_nat n) b). by rewrite app_nil_r. }
    set (s2 := step_bits (len (run_head max f n b)) s) in *.
    assert (slice_wf s2) as W2 by (apply step_bits_wf; [done|by apply ahead_remaining]).
    enough (n <= Slice.remaining_bits s2) as Hrem.
    { destruct (ahead_of_remaining s2 n W2 ltac:(lia)) as (l & Hal & Hl).
      exists l. destruct f; try done; (split; [done|by apply ahead_join]). }
    assert (∃ i3, st_for (seqZ 0 n) (λ _, do! bit <- on_slice Slice.load_bit; on_sink (write_bit bit)) (s2, i3)
      = (Ok tt, (s', into'))) as [i3 Hfor].
    { destruct f; [..|done]; cbn [run_of] in E'; cbv iota in E'; erewrite st_bind_ok in E' by done; by eexists. }
    apply spelled_room in Hfor; [|done]. rewrite len_seqZ in Hfor; lia. }
  destruct (read_label_at max f n b l s into Hm Hn Hsp Hal) as (i & Ei & Hoki & Hbi).
  rewrite Ei in E. injection E as <- <-. rewrite Hbi. by exists f, n, b.
Qed.

(** It is a form of the bits it fills the sink with. *)
Lemma read_label_inv max s into s' into' :
  0 <= max <= MAX_BITS → slice_wf s →
  read_label_into max (s, into) = (Ok tt, (s', into')) →
  ∃ f l, form_ok f l ∧ len l <= max ∧ sink_ok into' ∧ sink_bits into' = l ∧
    s' = step_bits (len (form_bits max f l)) s ∧ slice_wf s' ∧
    len (form_bits max f l) <= Slice.remaining_bits s ∧
    skip_label max s = (Ok tt, s').
Proof.
  intros Hm Hwf E. destruct (read_label_head max s into s' into' Hm Hwf E) as (f & n & b & Hn & Hsp & Hal & -> & Hok & Er).
  destruct (spells_form max f n b (sink_bits into') ltac:(lia) Hsp) as (Hf & _ & Hlen & Hl).
  exists f, (sink_bits into'). rewrite <- Hlen. pose proof (ahead_remaining _ _ Hal) as Hr.
  split; [done|]. split; [lia|]. do 3 (split; [done|]). split; [by apply step_bits_wf|]. split; [lia|].
  unfold skip_label. erewrite st_bind_ok by exact Er. rewrite len_app.
  destruct f; cbn [run_of]; cbv iota; simpl in Hsp.
  1,2: unfold Slice.skip_bits; rewrite len_app in Hr; pose proof (len_nonneg (run_head max FShort n b));
    pose proof (len_nonneg (run_head max FLong n b));
    erewrite st_bind_ok by (apply advance_ok; unfold Slice.remaining_bits in *; simpl in *; lia);
    unfold st_ret; rewrite step_bits_step, Hl; done.
  change (len []) with 0. by rewrite Z.add_0_r.
Qed.
End read_label.

(** ** Writing *)

Section store_label.
Context {R : Type} `{BitRun R}.

Lemma writes_run (run : R) : LawfulRun run → writes (store_run run) (run_bits run).
Proof.
  intros Hr bs rs Hl. rewrite len_run_bits by done. destruct Hr as [Hlen _]. unfold store_run, checked.
  rewrite (proj2 (Z.leb_le _ _)) by lia. cbn [default from_option].
  unfold st_bind at 1 2. unfold st_get, Builder.can_extend_by, Builder.bits_left, Builder.refs_left.
  cbn [b_bits b_refs holding id]. pose proof (len_refs_slice rs).
  rewrite (proj2 (Z.leb_le 0 _)), andb_true_r by lia.
  destruct (Z.ltb_spec (MAX_BITS - len bs) (run_len run)).
  - by rewrite (proj2 (Z.leb_gt _ _)) by lia.
  - rewrite (proj2 (Z.leb_le _ _)) by lia. cbn [negb].
    by rewrite store_bit_for by (rewrite len_seqZ; lia).
Qed.

Lemma best_form_run (run : R) max :
  LawfulRun run →
  (if (2 * run_len run + 2 <=? 2 + bounded_width max + run_len run) &&
      (2 * run_len run + 2 <=?
        (if forallb (λ index, Bool.eqb (run_bit run index) (run_bit run 0)) (seqZ 1 (run_len run - 1))
         then 3 + bounded_width max else U32_MAX)) then FShort
   else if 2 + bounded_width max + run_len run <=?
        (if forallb (λ index, Bool.eqb (run_bit run index) (run_bit run 0)) (seqZ 1 (run_len run - 1))
         then 3 + bounded_width max else U32_MAX) then FLong else FSame)
  = best_form max (run_bits run).
Proof.
  intros Hr. unfold best_form. cbv zeta. rewrite len_run_bits by done.
  assert (forallb (λ index, Bool.eqb (run_bit run index) (run_bit run 0)) (seqZ 1 (run_len run - 1)) =
    forallb (λ i, Bool.eqb (nth_bit (run_bits run) i) (nth_bit (run_bits run) 0)) (seqZ 1 (run_len run - 1))) as ->;
    [|done].
  apply eq_true_iff_eq. rewrite !forallb_forall. rewrite <- (run_bit_ok 0) by lia.
  split; intros Hx i Hi; specialize (Hx i Hi); apply list_elem_of_In, elem_of_seqZ in Hi.
  - by rewrite <- run_bit_ok by lia.
  - by rewrite run_bit_ok by lia.
Qed.

Lemma store_label_long (run : R) max b :
  LawfulRun run → max < run_len run → store_label run max b = (Err LabelTooLong, b).
Proof.
  intros [[_ Hr] _] Hm. unfold store_label, checked. rewrite (proj2 (Z.leb_le _ U16_MAX)) by lia.
  cbn [default from_option id]. by rewrite (proj2 (Z.ltb_lt _ _)).
Qed.

Lemma writes_label (run : R) max :
  LawfulRun run → 0 <= max <= MAX_BITS → run_len run <= max →
  writes (store_label run max) (label_enc max (run_bits run)).
Proof.
  intros Hr Hm Hmax. destruct (bounded_width_spec max Hm) as [Hw Hmw].
  pose proof (len_run_bits run Hr) as Hl. destruct (run_len_ok (run := run)) as [Hl0 Hl1].
  pose proof (best_form_run run max Hr) as Hbest.
  unfold label_enc. rewrite <- Hbest. clear Hbest.
  unfold store_label, checked. rewrite (proj2 (Z.leb_le _ U16_MAX)) by lia. cbn [default from_option id].
  rewrite (proj2 (Z.ltb_ge _ _)) by lia. cbv zeta.
  set (n := run_len run) in *. set (l := run_bits run) in *. set (rep := if forallb _ _ then _ else _).
  assert (writes (Builder.store_uint n (bounded_width max))
    (uint_bits (Z.to_nat (bounded_width max)) (len l))) as Hlen.
  { rewrite Hl. apply writes_uint; lia. }
  destruct ((2 * n + 2 <=? 2 + bounded_width max + n) && (2 * n + 2 <=? rep)).
  - apply writes_seq; [apply writes_bit|]. apply writes_seq.
    + replace (length l) with (Z.to_nat n) by (unfold len in Hl; lia). by apply writes_same_bit.
    + apply writes_seq; [apply writes_bit|by apply writes_run].
  - destruct (2 + bounded_width max + n <=? rep); unfold form_bits.
    + apply writes_seq; [by apply (writes_uint 2 2)|]. apply writes_seq; [done|by apply writes_run].
    + change ([true; true; nth_bit l 0] ++ ?x) with ([true; true] ++ [nth_bit l 0] ++ x).
      apply writes_seq; [by apply (writes_uint 2 3)|]. apply writes_seq; [|done].
      rewrite (run_bit_ok 0) by lia. apply writes_bit.
Qed.
End store_label.

(** ** Theorems *)

Section theorems.
Context {S : Type} `{LawfulSink S}.

(** A label written into any builder with room for it reads back, from the
    cell, as the same bits, into whichever sink; a label longer than the key
    that is left is refused. *)
Theorem label_roundtrip (label : Label) max bs rs s into :
  label_ok label → 0 <= max <= MAX_BITS → len bs <= MAX_BITS →
  if max <? l_len label then store_label label max (holding bs rs) = (Err LabelTooLong, holding bs rs)
  else
    writes (store_label label max) (label_enc max (lbits label)) ∧
    (ahead s (label_enc max (lbits label)) →
     ∃ into', read_label_into max (s, into) =
         (Ok tt, (step_bits (len (label_enc max (lbits label))) s, into')) ∧
       sink_bits into' = lbits label).
Proof.
  intros Hok Hm Hb. pose proof (label_lawful label Hok) as Hr.
  destruct (Z.ltb_spec max (l_len label)); [by apply store_label_long|]. split.
  - rewrite <- label_run_bits by done. by apply writes_label.
  - intros Ha. pose proof (len_lbits label Hok) as Hl.
    destruct (read_label_form max (best_form max (lbits label)) (lbits label) s into) as (i & Hi & _ & Hbi);
      [done|lia|apply best_form_ok; [done|lia]|done|]. by exists i.
Qed.

(** Of all the spellings the reader takes for a label, the writer's is the
    shortest: whatever cell a label was read from, writing it again takes no
    more bits than reading it took. *)
Theorem label_encoding_minimal max s (into : S) s' into' :
  0 <= max <= MAX_BITS → slice_wf s → read_label_into max (s, into) = (Ok tt, (s', into')) →
  len (sink_bits into') <= max ∧
  len (label_enc max (sink_bits into')) <= s_bit s' - s_bit s.
Proof.
  intros Hm Hwf E. apply read_label_inv in E as (f & l & Hf & Hl & _ & Hb & -> & _ & _ & _); [|done..].
  rewrite Hb. split; [done|]. simpl.
  pose proof (best_form_least max l f Hm ltac:(lia) Hf). lia.
Qed.

(** Skipping a label leaves the cursor exactly where reading it would. *)
Theorem skip_label_agrees max s (into : S) s' into' :
  0 <= max <= MAX_BITS → slice_wf s → read_label_into max (s, into) = (Ok tt, (s', into')) →
  skip_label max s = (Ok tt, s').
Proof.
  intros Hm Hwf E. by apply read_label_inv in E as (f & l & _ & _ & _ & _ & _ & _ & _ & Hs).
Qed.
End theorems.
