(* ===== verification/Dict.v ===== *)
(** Dictionaries (core/src/cell/dict.rs) and the plain dictionary
    (core/src/cell/dict/plain.rs): the tree walks shared by the dictionary
    kinds, over the [Shape] that tells them apart, and [Dict] itself. *)

From S2P Require Import Prelude Errors Bits CellData CellHash CellModel CellSlice CellBuilder Fields DictLabel.
From stdpp Require Import base list list_numbers numbers strings.
From Stdlib Require Import ZArith Lia.

Local Open Scope Z_scope.

Inductive Lookup (A : Type) : Type :=
| Found (a : A)
| Absent
| PrunedAway.
Arguments Found {A} a.
Arguments Absent {A}.
Arguments PrunedAway {A}.

Definition found {A} (self : Lookup A) : option A :=
  match self with Found a => Some a | _ => None end.

Definition lookup_map {A B} (f : A → B) (self : Lookup A) : Lookup B :=
  match self with Found a => Found (f a) | Absent => Absent | PrunedAway => PrunedAway end.

Record DictEntry : Type := MkEntry { e_cell : Cell; e_bit_offset : Z }.

Definition entry_slice (self : DictEntry) : result CellError Slice :=
  match Slice.skip_bits (e_bit_offset self) (Slice.new (e_cell self)) with
  | (Ok _, slice) => Ok slice
  | (Err e, _) => Err e
  end.

Definition NO_BRANCH : CellError := Malformed "dictionary fork without both branches".

Definition key_bit (key : list Z) (index : Z) : bool :=
  match get key (index / 8) with
  | Some byte => Z.land (Z.shiftr byte (7 - index mod 8)) 1 =? 1
  | None => false
  end.

Definition rest (key : list bool) (at' : Z) : list bool :=
  default [] (get_range key at' (len key)).

Definition pack {R} `{BitRun R} (bits : R) : list Z :=
  fold_left (λ out index, if run_bit bits index then data_or index out else out)
    (seqZ 0 (run_len bits)) (replicate (Z.to_nat (div_ceil (run_len bits) 8)) 0).

(** [trait Shape]: what a kind of dictionary keeps beside the tree. *)
Record Shape : Type := MkShape {
  Extra : Type;
  read_extra : stm Slice CellError Extra;
  write_extra : Extra → stm Builder CellError unit;
  check_fork : stm Slice CellError unit;
  fork_extra : Cell → Cell → Z → result CellError Extra;
}.

Record Entry (shape : Shape) : Type := MkDictEntry {
  en_extra : Extra shape;
  en_value : Builder;
}.
Arguments MkDictEntry {shape} _ _.
Arguments en_extra {shape} _.
Arguments en_value {shape} _.

Definition check_key_bits (key_bits : Z) : result CellError unit :=
  if MAX_BITS <? key_bits then Err (Malformed "dictionary key wider than a cell") else Ok tt.

Definition key_of (key : list Z) (key_bits : Z) : result CellError (list bool) :=
  let needed := div_ceil key_bits 8 in
  if len key <? needed then Err (KeyLength (len key * 8) key_bits)
  else Ok (key_bit key <$> seqZ 0 key_bits).

(** The first position where [label] and the key part company, if they do. *)
Definition diverges {R} `{BitRun R} (label : R) (key : list bool) : option Z :=
  find (λ index,
    match get key index with
    | Some bit => negb (Bool.eqb bit (run_bit label index))
    | None => false
    end) (seqZ 0 (run_len label)).

(** A step down the tree, as [set] and [remove] retrace it. *)
Record Step : Type := MkStep {
  st_node : Cell;
  st_label : Label;
  st_remaining : Z;
  st_branch : Z;
}.

Definition step_below (self : Step) : Z := st_remaining self - Label.width (st_label self) - 1.

Record Walk : Type := MkWalk {
  w_path : list Step;
  w_node : Cell;
  w_label : Label;
  w_remaining : Z;
  w_consumed : Z;
  w_diverged : option Z;
}.

Section dict.
Context `{Hasher}.

(** A cell built by one run of stores. *)
Definition built (m : stm Builder CellError unit) : result CellError Cell :=
  match m Builder.new with
  | (Ok _, builder) => Builder.build builder
  | (Err e, _) => Err e
  end.

Definition leaf (shape : Shape) (key : list bool) (entry : Entry shape) (max : Z) :
    result CellError Cell :=
  built (run! store_label key max;
         run! write_extra shape (en_extra entry);
         Builder.store_builder (en_value entry)).

(** The fork the rebuilding functions write: a label, the summary, both branches. *)
Definition fork {R} `{BitRun R} (shape : Shape) (label : R) (remaining below : Z)
    (lhs rhs : Cell) : result CellError Cell :=
  built (run! store_label label remaining;
         do! extra <- st_lift (fork_extra shape lhs rhs below);
         run! write_extra shape extra;
         run! Builder.store_ref lhs;
         Builder.store_ref rhs).

Definition step_rebuild (shape : Shape) (self : Step) (child : Cell) : result CellError Cell :=
  let? sibling := ok_or (Cell.reference (st_node self) (1 - st_branch self)) NO_BRANCH in
  let '(lhs, rhs) := if st_branch self =? 0 then (child, sibling) else (sibling, child) in
  fork shape (st_label self) (st_remaining self) (step_below self) lhs rhs.

(** The walk down to a key. Every round past the first spends a key bit, so
    [key_bits + 1] rounds suffice. *)
Fixpoint lookup_loop (fuel : nat) (shape : Shape) (bits : list bool) (node : Cell)
    (remaining consumed : Z) (label : Label) :
    result CellError (Lookup (Extra shape * DictEntry)) :=
  match fuel with
  | O => Err (Malformed "out of fuel")
  | S fuel' =>
      if Cell.is_exotic node then Ok PrunedAway
      else
        match read_label_into remaining (Slice.new node, label) with
        | (Err e, _) => Err e
        | (Ok _, (slice, label)) =>
            match diverges label (rest bits consumed) with
            | Some _ => Ok Absent
            | None =>
                let consumed := consumed + l_len label in
                let remaining := remaining - Label.width label in
                if remaining =? 0 then
                  match read_extra shape slice with
                  | (Err e, _) => Err e
                  | (Ok extra, slice) =>
                      let bit_offset := Cell.bit_len node - Slice.remaining_bits slice in
                      Ok (Found (extra, MkEntry node bit_offset))
                  end
                else
                  let branch := b2z (default false (get bits consumed)) in
                  let consumed := consumed + 1 in
                  let remaining := remaining - 1 in
                  let? node := ok_or (Cell.reference node branch) NO_BRANCH in
                  lookup_loop fuel' shape bits node remaining consumed label
            end
        end
  end.

Definition lookup (shape : Shape) (root : option Cell) (key_bits : Z) (bits : list bool) :
    result CellError (Lookup (Extra shape * DictEntry)) :=
  match root with
  | None => Ok Absent
  | Some root => lookup_loop (S (Z.to_nat key_bits)) shape bits root key_bits 0 Label.new
  end.

Fixpoint descend_loop (fuel : nat) (shape : Shape) (bits : list bool) (path : list Step)
    (node : Cell) (remaining consumed : Z) (label : Label) : result CellError Walk :=
  match fuel with
  | O => Err (Malformed "out of fuel")
  | S fuel' =>
      if Cell.is_exotic node then Err Pruned
      else
        match read_label_into remaining (Slice.new node, label) with
        | (Err e, _) => Err e
        | (Ok _, (slice, label)) =>
            let width := l_len label in
            let diverged := diverges label (rest bits consumed) in
            if bool_decide (is_Some diverged) || (width =? remaining)
            then Ok (MkWalk path node label remaining consumed diverged)
            else
              let? _ := fst (check_fork shape slice) in
              let branch := b2z (default false (get bits (consumed + width))) in
              let? child := ok_or (Cell.reference node branch) NO_BRANCH in
              let spent := Label.width label in
              descend_loop fuel' shape bits (path ++ [MkStep node label remaining branch])
                child (remaining - (spent + 1)) (consumed + (width + 1)) label
        end
  end.

Definition descend (shape : Shape) (root : Cell) (key_bits : Z) (bits : list bool) :
    result CellError Walk :=
  descend_loop (S (Z.to_nat key_bits)) shape bits [] root key_bits 0 Label.new.

Definition split (shape : Shape) (node : Cell) (label : Label) (at' remaining : Z)
    (key : list bool) (entry : Entry shape) : result CellError Cell :=
  let below := remaining - wrap 16 at' - 1 in
  let? kept := built (
    run! store_label (Label.tail label (at' + 1)) below;
    λ kept,
      match skip_label remaining (Slice.new node) with
      | (Err e, _) => (Err e, kept)
      | (Ok _, slice) => Builder.store_slice slice kept
      end) in
  let? fresh := leaf shape (rest key (at' + 1)) entry below in
  let '(lhs, rhs) := if Label.bit label at' then (fresh, kept) else (kept, fresh) in
  fork shape (Label.head label at') remaining below lhs rhs.

Definition collapse (parent : Step) : result CellError Cell :=
  let? sibling := ok_or (Cell.reference (st_node parent) (1 - st_branch parent)) NO_BRANCH in
  if Cell.is_exotic sibling then Err Pruned
  else
    match Label.push (st_branch parent =? 0) (st_label parent) with
    | (Err e, _) => Err e
    | (Ok _, label) =>
        match read_label_into (step_below parent) (Slice.new sibling, Label.new) with
        | (Err e, _) => Err e
        | (Ok _, (slice, below)) =>
            match Label.extend below label with
            | (Err e, _) => Err e
            | (Ok _, label) =>
                built (run! store_label label (st_remaining parent); Builder.store_slice slice)
            end
        end
    end.

(** The summary a node carries, past its label. *)
Definition extra_of {E} (read_extra : stm Slice CellError E) (node : Cell) (max : Z) : result CellError E :=
  if Cell.is_exotic node then Err Pruned
  else
    match skip_label max (Slice.new node) with
    | (Err e, _) => Err e
    | (Ok _, slice) => fst (read_extra slice)
    end.

(** [path.pop()] takes the deepest step first. *)
Definition rebuild (shape : Shape) (path : list Step) (child : Cell) : result CellError Cell :=
  res_fold (λ child step, step_rebuild shape step child) (reverse path) child.

(** *** Iteration: a stack of nodes still to visit, its top first *)

Definition Pending : Type := Cell * Label * Z.

(** A round pops a node and either stops there or pushes its two branches, the
    left one on top, with fewer key bits left; so a round per key bit left of
    the top node, and one more, reach a leaf or an error. *)
Fixpoint walk_loop (fuel : nat) (shape : Shape) :
    stm (list Pending) CellError (option (list Z * Extra shape * DictEntry)) :=
  match fuel with
  | O => st_err (Malformed "out of fuel")
  | S fuel' => λ stack,
      match stack with
      | [] => (Ok None, [])
      | (node, prefix, remaining) :: stack =>
          if Cell.is_exotic node then (Err Pruned, stack)
          else
            match read_label_into remaining (Slice.new node, Label.new) with
            | (Err e, _) => (Err e, stack)
            | (Ok _, (slice, label)) =>
                match Label.extend label prefix with
                | (Err e, _) => (Err e, stack)
                | (Ok _, key) =>
                    if l_len label =? remaining then
                      match read_extra shape slice with
                      | (Err e, _) => (Err e, stack)
                      | (Ok extra, slice) =>
                          let bit_offset := Cell.bit_len node - Slice.remaining_bits slice in
                          (Ok (Some (pack key, extra, MkEntry node bit_offset)), stack)
                      end
                    else
                      let below := remaining - Label.width label - 1 in
                      (run! st_for [1; 0] (λ branch, λ stack,
                         match ok_or (Cell.reference node branch) NO_BRANCH with
                         | Err e => (Err e, stack)
                         | Ok child =>
                             match Label.push (branch =? 1) key with
                             | (Err e, _) => (Err e, stack)
                             | (Ok _, key) => (Ok tt, (child, key, below) :: stack)
                             end
                         end);
                       walk_loop fuel' shape) stack
                end
            end
      end
  end.

Definition walk_step (shape : Shape) :
    stm (list Pending) CellError (option (list Z * Extra shape * DictEntry)) := λ stack,
  match stack with
  | [] => (Ok None, [])
  | (_, _, remaining) :: _ => walk_loop (S (Z.to_nat remaining)) shape stack
  end.
End dict.

(** ** The plain dictionary *)

Definition Plain : Shape := {|
  Extra := unit;
  read_extra := st_ret tt;
  write_extra _ := st_ret tt;
  check_fork := λ slice,
    if Slice.remaining_bits slice =? 0 then (Ok tt, slice)
    else (Err (Malformed "a dictionary fork carrying data past its label"), slice);
  fork_extra _ _ _ := Ok tt;
|}.

Record Dict : Type := MkDict { d_root : option Cell; d_key_bits : Z }.

(** A [DictIter] is its stack and whether it has ended. *)
Record DictIter : Type := MkIter { i_stack : list Pending; i_done : bool }.

Module Dict.
Definition from_root (root : option Cell) (key_bits : Z) : result CellError Dict :=
  let? _ := check_key_bits key_bits in
  Ok (MkDict root key_bits).

Definition new (key_bits : Z) : result CellError Dict := from_root None key_bits.

Definition is_empty (self : Dict) : bool :=
  match d_root self with None => true | Some _ => false end.

Section plain.
Context `{Hasher}.

Definition get (self : Dict) (key : list Z) : result CellError (Lookup DictEntry) :=
  let? bits := key_of key (d_key_bits self) in
  let? found := lookup Plain (d_root self) (d_key_bits self) bits in
  Ok (lookup_map snd found).

Definition set (key : list Z) (value : Builder) : stm Dict CellError unit := λ self,
  let outcome :=
    let? bits := key_of key (d_key_bits self) in
    let entry := MkDictEntry (shape := Plain) tt value in
    match d_root self with
    | None => leaf Plain bits entry (d_key_bits self)
    | Some root =>
        let? walk := descend Plain root (d_key_bits self) bits in
        let tail := rest bits (w_consumed walk) in
        let? bottom :=
          match w_diverged walk with
          | Some at' => split Plain (w_node walk) (w_label walk) at' (w_remaining walk) tail entry
          | None => leaf Plain tail entry (w_remaining walk)
          end in
        rebuild Plain (w_path walk) bottom
    end in
  match outcome with
  | Ok root => (Ok tt, MkDict (Some root) (d_key_bits self))
  | Err e => (Err e, self)
  end.

Definition remove (key : list Z) : stm Dict CellError bool := λ self,
  match key_of key (d_key_bits self) with
  | Err e => (Err e, self)
  | Ok bits =>
      match d_root self with
      | None => (Ok false, self)
      | Some root =>
          match descend Plain root (d_key_bits self) bits with
          | Err e => (Err e, self)
          | Ok walk =>
              if bool_decide (is_Some (w_diverged walk)) then (Ok false, self)
              else
                match reverse (w_path walk) with
                | [] => (Ok true, MkDict None (d_key_bits self))
                | parent :: path =>
                    match (let? child := collapse parent in rebuild Plain (reverse path) child) with
                    | Ok root => (Ok true, MkDict (Some root) (d_key_bits self))
                    | Err e => (Err e, self)
                    end
                end
          end
      end
  end.

Definition iter (self : Dict) : DictIter :=
  MkIter (match d_root self with
          | Some root => [(root, Label.new, d_key_bits self)]
          | None => []
          end) false.

Definition next (self : DictIter) :
    option (result CellError (list Z * DictEntry)) * DictIter :=
  if i_done self then (None, self)
  else
    match walk_step Plain (i_stack self) with
    | (Ok (Some (key, _, entry)), stack) => (Some (Ok (key, entry)), MkIter stack false)
    | (Ok None, stack) => (None, MkIter stack true)
    | (Err e, stack) => (Some (Err e), MkIter stack true)
    end.

(** Everything an iterator yields. A key it yields is a key of the tree, so the
    number of nodes bounds the rounds; callers pass the fuel. *)
Fixpoint collect (fuel : nat) (iter : DictIter) : list (result CellError (list Z * DictEntry)) :=
  match fuel with
  | O => []
  | S fuel' =>
      match next iter with
      | (None, _) => []
      | (Some item, iter) => item :: collect fuel' iter
      end
  end.

Definition min (self : Dict) : result CellError (option (list Z * DictEntry)) :=
  match fst (next (iter self)) with
  | None => Ok None
  | Some (Ok item) => Ok (Some item)
  | Some (Err e) => Err e
  end.

Definition take_min : stm Dict CellError (option (list Z * DictEntry)) := λ self,
  match min self with
  | Err e => (Err e, self)
  | Ok None => (Ok None, self)
  | Ok (Some (key, entry)) =>
      match remove key self with
      | (Err e, self) => (Err e, self)
      | (Ok _, self) => (Ok (Some (key, entry)), self)
      end
  end.
End plain.
End Dict.
