(* ===== verification/DictTree.v ===== *)
(** What a dictionary means: the tree of labels a dictionary's cells spell, the
    map from keys to values it stands for, its entries in order, and the
    surgery on it that storing and removing a key perform. Nothing here knows
    of cells beyond their being the values and the pruned branches. *)

From stdpp Require Import base list list_numbers numbers sorting.
From Stdlib Require Import ZArith Lia.
From S2P Require Import Prelude Errors Bits CellModel Dict.

Local Open Scope Z_scope.

(** What a leaf holds past its label. *)
Definition value : Type := list bool * list Cell.

Inductive tree : Type :=
| TLeaf (l : list bool) (v : value)
| TFork (l : list bool) (lhs rhs : tree)
| THole (c : Cell).

(** The tree's labels spend [n] key bits on the way to every leaf. *)
Fixpoint tree_wf (n : Z) (t : tree) : Prop :=
  match t with
  | TLeaf l _ => len l = n
  | TFork l lhs rhs => len l < n ∧ tree_wf (n - len l - 1) lhs ∧ tree_wf (n - len l - 1) rhs
  | THole _ => 0 <= n
  end.

Fixpoint whole (t : tree) : Prop :=
  match t with TLeaf _ _ => True | TFork _ lhs rhs => whole lhs ∧ whole rhs | THole _ => False end.

(** [strip l key] is what is left of [key] past the label [l], if it starts with it. *)
Fixpoint strip (l key : list bool) : option (list bool) :=
  match l, key with
  | [], _ => Some key
  | x :: l, y :: key => if Bool.eqb x y then strip l key else None
  | _ :: _, [] => None
  end.

Fixpoint tget (t : tree) (key : list bool) : Lookup value :=
  match t with
  | TLeaf l v => match strip l key with Some [] => Found v | _ => Absent end
  | TFork l lhs rhs =>
      match strip l key with
      | Some (b :: key) => tget (if b then rhs else lhs) key
      | _ => Absent
      end
  | THole _ => PrunedAway
  end.

(** The entries a walk from left to right meets, pruned branches included. *)
Fixpoint entries (prefix : list bool) (t : tree) : list (result CellError (list bool * value)) :=
  match t with
  | TLeaf l v => [Ok (prefix ++ l, v)]
  | TFork l lhs rhs => entries (prefix ++ l ++ [false]) lhs ++ entries (prefix ++ l ++ [true]) rhs
  | THole _ => [Err Pruned]
  end.

(** A walk stops at the first error. *)
Fixpoint until_err {A} (l : list (result CellError A)) : list (result CellError A) :=
  match l with
  | [] => []
  | Ok a :: l => Ok a :: until_err l
  | Err e :: _ => [Err e]
  end.

#[export] Instance ok_inj {E A} : Inj (=) (=) (Ok (E:=E) (A:=A)).
Proof. by intros x y [=]. Qed.

Definition label_of (t : tree) : list bool :=
  match t with TLeaf l _ => l | TFork l _ _ => l | THole _ => [] end.

Definition with_label (l : list bool) (t : tree) : tree :=
  match t with TLeaf _ v => TLeaf l v | TFork _ lhs rhs => TFork l lhs rhs | THole c => THole c end.

Definition two (b : bool) (here there : tree) (l : list bool) : tree :=
  if b then TFork l there here else TFork l here there.

(** A way down a tree: the label passed, the branch taken and the branch left. *)
Record frame : Type := MkFrame { f_label : list bool; f_branch : bool; f_other : tree }.

Fixpoint plug (fs : list frame) (t : tree) : tree :=
  match fs with
  | [] => t
  | f :: fs => two (f_branch f) (plug fs t) (f_other f) (f_label f)
  end.

Definition frames_key (fs : list frame) : list bool :=
  fs ≫= λ f, f_label f ++ [f_branch f].

(** Lexicographic order on bits. *)
Fixpoint bits_lt (a b : list bool) : Prop :=
  match a, b with
  | x :: a, y :: b => (x = false ∧ y = true) ∨ (x = y ∧ bits_lt a b)
  | [], _ :: _ => True
  | _, [] => False
  end.

Lemma hole_cases t : (∃ h, t = THole h) ∨ (∀ h, t ≠ THole h).
Proof. destruct t; [by right..|left]. by eexists. Qed.

(** ** Stripping a label *)

Lemma strip_app l k : strip l (l ++ k) = Some k.
Proof. induction l as [|x l IH]; simpl; [done|]. by rewrite Bool.eqb_reflx. Qed.

Lemma strip_Some l key k : strip l key = Some k ↔ key = l ++ k.
Proof.
  split; [|intros ->; apply strip_app]. revert key. induction l as [|x l IH]; intros [|y key]; simpl.
  1,2: by intros [= <-].
  - done.
  - destruct (Bool.eqb x y) eqn:E; [|done]. apply Bool.eqb_prop in E as ->. by intros ->%IH.
Qed.

Lemma strip_self l : strip l l = Some [].
Proof. rewrite <- (app_nil_r l) at 2. apply strip_app. Qed.

Lemma strip_prefix_app l1 l2 key :
  strip (l1 ++ l2) key = strip l1 key ≫= strip l2.
Proof.
  revert key. induction l1 as [|x l1 IH]; intros key; [done|].
  destruct key as [|y key]; simpl; [done|]. by destruct (Bool.eqb x y).
Qed.

(** ** The map a tree stands for *)

Lemma tget_fork l lhs rhs b key :
  tget (TFork l lhs rhs) (l ++ b :: key) = tget (if b then rhs else lhs) key.
Proof. simpl. by rewrite strip_app. Qed.

Lemma tget_two b l here there key :
  tget (two b here there l) (l ++ b :: key) = tget here key ∧
  tget (two b here there l) (l ++ negb b :: key) = tget there key.
Proof. by destruct b; unfold two; rewrite !tget_fork. Qed.

(** Every lookup in a fork goes through its label. *)
Lemma tget_two_cases b l here there key :
  (∃ k, key = l ++ b :: k ∧ tget (two b here there l) key = tget here k) ∨
  (∃ k, key = l ++ negb b :: k ∧ tget (two b here there l) key = tget there k) ∨
  tget (two b here there l) key = Absent ∧ (∀ x k, key ≠ l ++ x :: k).
Proof.
  destruct (strip l key) as [[|x k]|] eqn:E.
  - right. right. apply strip_Some in E as ->. split.
    + by destruct b; simpl; rewrite strip_app.
    + intros x k Hx. apply (f_equal length) in Hx. rewrite !length_app in Hx. simpl in Hx. lia.
  - apply strip_Some in E as ->. destruct (tget_two b l here there k) as [H1 H2].
    destruct (decide (x = b)) as [->|Hne]; [left; by eexists|]. right. left.
    assert (x = negb b) as -> by (by destruct x, b). by eexists.
  - right. right. split.
    + by destruct b; simpl; rewrite E.
    + intros x k ->. by rewrite strip_app in E.
Qed.

Lemma plug_app fs gs t : plug (fs ++ gs) t = plug fs (plug gs t).
Proof. induction fs as [|f fs IH]; simpl; [done|]. by rewrite IH. Qed.

Lemma tget_plug fs t key : tget (plug fs t) (frames_key fs ++ key) = tget t key.
Proof.
  induction fs as [|f fs IH]; [done|]. unfold frames_key in *. simpl.
  rewrite <- !app_assoc. simpl. by rewrite (proj1 (tget_two _ _ _ _ _)).
Qed.

Lemma tget_plug_other fs t t' key :
  (∀ k, key ≠ frames_key fs ++ k) → tget (plug fs t) key = tget (plug fs t') key.
Proof.
  revert key. induction fs as [|f fs IH]; intros key Hk; [by destruct (Hk key)|]. simpl.
  destruct (tget_two_cases (f_branch f) (f_label f) (plug fs t) (f_other f) key)
    as [(k & -> & ->)|[(k & -> & ->)|[-> Hn]]].
  - rewrite (proj1 (tget_two _ _ _ _ _)). apply IH. intros k' ->. apply (Hk k').
    unfold frames_key. simpl. by rewrite <- !app_assoc.
  - by rewrite (proj2 (tget_two _ _ _ _ _)).
  - destruct (tget_two_cases (f_branch f) (f_label f) (plug fs t') (f_other f) key)
      as [(k & -> & _)|[(k & -> & _)|[-> _]]]; [by destruct (Hn (f_branch f) k)
      |by destruct (Hn (negb (f_branch f)) k)|done].
Qed.

(** Replacing what is plugged in, with a change at one key, changes that key only. *)
Lemma tget_plug_change fs t t' key r :
  (∀ k, tget t' k = if decide (k = key) then r else tget t k) →
  ∀ k, tget (plug fs t') k = if decide (k = frames_key fs ++ key) then r else tget (plug fs t) k.
Proof.
  intros Hin k. destruct (strip (frames_key fs) k) as [k'|] eqn:E.
  - apply strip_Some in E as ->. rewrite !tget_plug, Hin.
    destruct (decide (k' = key)) as [->|]; [by rewrite decide_True|].
    rewrite decide_False; [done|]. by intros ?%app_inv_head.
  - assert (∀ k', k ≠ frames_key fs ++ k') as Hn by (intros k' ->; by rewrite strip_app in E).
    rewrite decide_False by apply Hn. by apply tget_plug_other.
Qed.

Lemma whole_two b here there l : whole (two b here there l) ↔ whole here ∧ whole there.
Proof. destruct b; simpl; tauto. Qed.

Lemma whole_plug fs t : whole (plug fs t) ↔ Forall (λ f, whole (f_other f)) fs ∧ whole t.
Proof.
  induction fs as [|f fs IH]; simpl; [by rewrite Forall_nil; tauto|].
  rewrite whole_two, IH, Forall_cons. tauto.
Qed.

Lemma tree_wf_nonneg n t : tree_wf n t → 0 <= n.
Proof.
  destruct t as [l v|l a b|c]; simpl; [|intros (? & _ & _)|done];
    pose proof (len_nonneg l); lia.
Qed.

Lemma tget_length n t key v : tree_wf n t → whole t → tget t key = Found v → len key = n.
Proof.
  revert n key. induction t as [l v'|l a IHa b IHb|c]; intros n key; simpl; [| |done].
  - intros <- _ H. destruct (strip l key) as [[|x k]|] eqn:E; try done.
    apply strip_Some in E as ->. by rewrite app_nil_r.
  - intros (Hl & Ha & Hb) [Wa Wb] H. destruct (strip l key) as [[|x k]|] eqn:E; try done.
    apply strip_Some in E as ->. rewrite len_app, len_cons.
    destruct x; [apply (IHb _ _ Hb Wb) in H|apply (IHa _ _ Ha Wa) in H]; lia.
Qed.

Lemma whole_not_pruned t key : whole t → tget t key ≠ PrunedAway.
Proof.
  revert key. induction t as [l v|l a IHa b IHb|c]; intros key; simpl; [| |done].
  - by destruct (strip l key) as [[|]|].
  - intros [Wa Wb]. destruct (strip l key) as [[|[] ?]|]; auto.
Qed.

Lemma tget_other_length n t key : tree_wf n t → whole t → len key ≠ n → tget t key = Absent.
Proof.
  intros Ht Hw Hk. destruct (tget t key) as [v| |] eqn:E; [|done|].
  - by apply (tget_length n) in E.
  - by apply whole_not_pruned in E.
Qed.

(** A tree without holes holds a key under every label. *)
Lemma whole_found t : whole t → ∃ key v, tget t key = Found v.
Proof.
  induction t as [l v|l a IHa b _|c]; simpl; [| |done].
  - intros _. exists l, v. by rewrite strip_self.
  - intros [(k & v & Hk)%IHa _]. exists (l ++ false :: k), v. by rewrite strip_app.
Qed.

Lemma tget_under_label t key v :
  whole t → tget t key = Found v → ∃ k, key = label_of t ++ k.
Proof.
  destruct t as [l v'|l a b|c]; simpl; [| |done]; intros _ H;
    destruct (strip l key) as [k|] eqn:E; try done; apply strip_Some in E as ->; by eexists.
Qed.

Lemma diverging_prefix (l l' p : list bool) x k k' :
  l ++ k = p ++ x :: k' → (∃ k2 k2', l ++ k2 = p ++ negb x :: k2') → ∃ r, p = l ++ r.
Proof.
  revert l k. induction p as [|y p IH]; intros [|z l] k H (k2 & k2' & H2); simpl in *.
  - by exists [].
  - exfalso. injection H as -> _. injection H2 as H2 _. by destruct x.
  - by exists (y :: p).
  - injection H as -> H. injection H2 as H2. destruct (IH l k H) as [r ->]; [by eexists _, _|].
    by exists r.
Qed.

(** The labels of two forks that stand for the same map are the same. *)
Lemma same_labels l a b l' a' b' :
  whole (TFork l a b) → whole (TFork l' a' b') →
  (∀ key, tget (TFork l a b) key = tget (TFork l' a' b') key) → l = l'.
Proof.
  assert (∀ l a b l' a' b', whole (TFork l a b) → whole (TFork l' a' b') →
    (∀ key, tget (TFork l a b) key = tget (TFork l' a' b') key) → ∃ r, l' = l ++ r) as Hgen.
  { clear. intros l a b l' a' b' Hw [Wa Wb] Heq.
    destruct (whole_found a' Wa) as (ka & va & Ha), (whole_found b' Wb) as (kb & vb & Hb).
    pose proof (tget_fork l' a' b' false ka) as Fa. pose proof (tget_fork l' a' b' true kb) as Fb.
    rewrite <- Heq in Fa, Fb. cbv iota in Fa, Fb. rewrite Ha in Fa. rewrite Hb in Fb.
    apply tget_under_label in Fa as [k Ea]; [|done]. apply tget_under_label in Fb as [k2 Eb]; [|done].
    simpl in Ea, Eb. eapply (diverging_prefix l l' l' false k ka); [done|]. by exists k2, kb. }
  intros W W' Heq. destruct (Hgen l a b l' a' b') as [r E]; [done..|].
  destruct (Hgen l' a' b' l a b) as [r' E']; [done|done|by intros; rewrite Heq|].
  rewrite E in E'. apply (f_equal length) in E' as E2. rewrite !length_app in E2.
  destruct r; [by rewrite app_nil_r in E|simpl in E2; lia].
Qed.

(** A map has one tree: there is no freedom left in the shape or the labels. *)
Lemma tree_unique t t' :
  whole t → whole t' → (∀ key, tget t key = tget t' key) → t = t'.
Proof.
  revert t'. induction t as [l v|l a IHa b IHb|c]; intros t' W W' Heq; [| |done].
  - destruct t' as [l' v'|l' a' b'|c']; [| |done].
    + pose proof (Heq l) as H. simpl in H. rewrite strip_self in H.
      destruct (strip l' l) as [[|]|] eqn:E; try done. injection H as <-.
      apply strip_Some in E. by rewrite app_nil_r in E; subst.
    + exfalso. destruct W' as [Wa Wb].
      destruct (whole_found a' Wa) as (ka & va & Ha), (whole_found b' Wb) as (kb & vb & Hb).
      pose proof (tget_fork l' a' b' false ka) as Fa. pose proof (tget_fork l' a' b' true kb) as Fb.
      rewrite <- Heq in Fa, Fb. cbv iota in Fa, Fb. rewrite Ha in Fa. rewrite Hb in Fb. simpl in Fa, Fb.
      destruct (strip l (l' ++ false :: ka)) as [[|]|] eqn:E1; try done.
      destruct (strip l (l' ++ true :: kb)) as [[|]|] eqn:E2; try done.
      apply strip_Some in E1. apply strip_Some in E2. rewrite <- E1 in E2. by simplify_list_eq.
  - destruct t' as [l' v'|l' a' b'|c']; [| |done].
    + exfalso. destruct W as [Wa Wb].
      destruct (whole_found a Wa) as (ka & va & Ha), (whole_found b Wb) as (kb & vb & Hb).
      pose proof (tget_fork l a b false ka) as Fa. pose proof (tget_fork l a b true kb) as Fb.
      rewrite Heq in Fa, Fb. cbv iota in Fa, Fb. rewrite Ha in Fa. rewrite Hb in Fb. simpl in Fa, Fb.
      destruct (strip l' (l ++ false :: ka)) as [[|]|] eqn:E1; try done.
      destruct (strip l' (l ++ true :: kb)) as [[|]|] eqn:E2; try done.
      apply strip_Some in E1. apply strip_Some in E2. rewrite <- E1 in E2. by simplify_list_eq.
    + pose proof (same_labels _ _ _ _ _ _ W W' Heq) as <-. destruct W as [Wa Wb], W' as [Wa' Wb'].
      f_equal; [apply IHa|apply IHb]; try done; intros k.
      * pose proof (Heq (l ++ false :: k)) as Hk. by rewrite !tget_fork in Hk.
      * pose proof (Heq (l ++ true :: k)) as Hk. by rewrite !tget_fork in Hk.
Qed.

(** ** Relabelling: a node moved up or down its path *)

Lemma tget_relabel l t key :
  (∀ c, t ≠ THole c) → tget (with_label (l ++ label_of t) t) (l ++ key) = tget t key.
Proof.
  destruct t as [l' v|l' a b|c]; simpl; intros Hh; [..|by destruct (Hh c)];
    by rewrite strip_prefix_app, strip_app.
Qed.

Lemma tget_relabel_off l t key :
  (∀ c, t ≠ THole c) → (∀ k, key ≠ l ++ k) → tget (with_label (l ++ label_of t) t) key = Absent.
Proof.
  destruct t as [l' v|l' a b|c]; simpl; intros Hh Hk; [..|by destruct (Hh c)];
    rewrite strip_prefix_app; (destruct (strip l key) as [k|] eqn:E; [|done]);
    by apply strip_Some, Hk in E.
Qed.

Lemma whole_with_label l t : whole (with_label l t) ↔ whole t.
Proof. by destruct t. Qed.

Lemma label_of_with_label l t : (∀ c, t ≠ THole c) → label_of (with_label l t) = l.
Proof. destruct t as [| |c]; [done|done|]. intros Hh. by destruct (Hh c). Qed.

Lemma with_label_with_label l l' t : with_label l (with_label l' t) = with_label l t.
Proof. by destruct t. Qed.

Lemma tget_leaf l v k : tget (TLeaf l v) k = if decide (k = l) then Found v else Absent.
Proof.
  simpl. destruct (decide (k = l)) as [->|Hne]; [by rewrite strip_self|].
  destruct (strip l k) as [[|x k']|] eqn:E; [|done..].
  apply strip_Some in E. by rewrite app_nil_r in E.
Qed.

(** Storing a key that leaves a node's label part way. *)
Lemma tget_split u p x l' k' v :
  (∀ c, u ≠ THole c) → label_of u = p ++ x :: l' →
  ∀ k, tget (two (negb x) (TLeaf k' v) (with_label l' u) p) k =
    if decide (k = p ++ negb x :: k') then Found v else tget u k.
Proof.
  intros Hh Hl k.
  assert (u = with_label ((p ++ [x]) ++ label_of (with_label l' u)) (with_label l' u)) as Hu.
  { rewrite label_of_with_label, with_label_with_label, <- app_assoc by done. simpl.
    rewrite <- Hl. by destruct u. }
  assert (∀ c, with_label l' u ≠ THole c) as Hh' by (intros c; destruct u; [done..|by destruct (Hh c0)]).
  destruct (tget_two_cases (negb x) p (TLeaf k' v) (with_label l' u) k)
    as [(k0 & -> & ->)|[(k0 & -> & ->)|[-> Hn]]].
  - rewrite tget_leaf. destruct (decide (k0 = k')) as [->|Hne]; [by rewrite decide_True|].
    rewrite decide_False by (intros ?; by simplify_list_eq). rewrite Hu. symmetry.
    apply tget_relabel_off; [done|]. intros k. rewrite <- app_assoc. intros ?. simplify_list_eq. by destruct x.
  - rewrite negb_involutive. rewrite decide_False by (intros ?; simplify_list_eq; by destruct x).
    rewrite Hu at 2. change (x :: k0) with ([x] ++ k0). rewrite app_assoc. by rewrite tget_relabel.
  - rewrite decide_False by apply Hn. rewrite Hu. symmetry. apply tget_relabel_off; [done|].
    intros k0 ->. eapply Hn. by rewrite <- app_assoc.
Qed.

(** Removing a leaf and joining its sibling to the fork's label. *)
Lemma tget_join l b k' v u :
  (∀ c, u ≠ THole c) →
  ∀ k, tget (with_label (l ++ negb b :: label_of u) u) k =
    if decide (k = l ++ b :: k') then Absent else tget (two b (TLeaf k' v) u l) k.
Proof.
  intros Hh k. change (negb b :: label_of u) with ([negb b] ++ label_of u). rewrite app_assoc.
  destruct (tget_two_cases b l (TLeaf k' v) u k) as [(k0 & -> & ->)|[(k0 & -> & ->)|[-> Hn]]].
  - rewrite tget_relabel_off; [|done|].
    + rewrite tget_leaf. by repeat case_decide; simplify_list_eq.
    + intros k. rewrite <- app_assoc. intros ?. simplify_list_eq. by destruct b.
  - rewrite decide_False by (intros ?; simplify_list_eq; by destruct b).
    change (negb b :: k0) with ([negb b] ++ k0). by rewrite app_assoc, tget_relabel.
  - rewrite decide_False by apply Hn. apply tget_relabel_off; [done|].
    intros k0 ->. eapply Hn. by rewrite <- app_assoc.
Qed.

Lemma with_label_self t : with_label (label_of t) t = t.
Proof. by destruct t. Qed.

Lemma relabel_wf l n t :
  (∀ c, t ≠ THole c) → tree_wf n t → tree_wf (len l + n) (with_label (l ++ label_of t) t).
Proof.
  intros Hh. destruct t as [l' v|l' a b|c]; simpl; rewrite ?len_app; [lia| |by destruct (Hh c)].
  intros (Hl & Ha & Hb). split; [lia|].
  by replace (len l + n - (len l + len l') - 1) with (n - len l' - 1) by lia.
Qed.

(** ** Entries *)

Lemma entries_prefix p t key v :
  Ok (key, v) ∈ entries p t → ∃ k, key = p ++ k.
Proof.
  revert p. induction t as [l v'|l a IHa b IHb|c]; intros p; simpl.
  - rewrite list_elem_of_singleton. intros [= -> ->]. by eexists.
  - rewrite elem_of_app. intros [[k ->]%IHa|[k ->]%IHb]; rewrite <- app_assoc; by eexists.
  - by rewrite list_elem_of_singleton.
Qed.

(** The entries are exactly the map. *)
Lemma entries_tget p t key v : Ok (p ++ key, v) ∈ entries p t ↔ tget t key = Found v.
Proof.
  revert p key. induction t as [l v'|l a IHa b IHb|c]; intros p key; simpl.
  - rewrite list_elem_of_singleton. destruct (strip l key) as [[|x k]|] eqn:E.
    + apply strip_Some in E as ->. rewrite app_nil_r. split; [by intros [= ->]|by intros [= ->]].
    + apply strip_Some in E as ->. split; [|done]. intros [= H _].
      rewrite app_assoc in H. apply (f_equal length) in H. rewrite !length_app in H. simpl in H. lia.
    + split; [|done]. intros [= H _]. apply app_inv_head in H as ->. by rewrite strip_self in E.
  - rewrite elem_of_app. destruct (strip l key) as [[|x k]|] eqn:E.
    + apply strip_Some in E as ->. split; [|done]. intros [[k Hk]%entries_prefix|[k Hk]%entries_prefix];
        apply (f_equal length) in Hk; rewrite !length_app in Hk; simpl in Hk; lia.
    + apply strip_Some in E as ->. destruct x.
      * rewrite <- (IHb (p ++ l ++ [true])). rewrite <- !app_assoc. simpl. split; [|by right].
        intros [[k' Hk]%entries_prefix|]; [|done]. by simplify_list_eq.
      * rewrite <- (IHa (p ++ l ++ [false])). rewrite <- !app_assoc. simpl. split; [|by left].
        intros [|[k' Hk]%entries_prefix]; [done|]. by simplify_list_eq.
    + split; [|done]. intros [[k Hk]%entries_prefix|[k Hk]%entries_prefix];
        simplify_list_eq; by rewrite strip_app in E.
  - rewrite list_elem_of_singleton. by split.
Qed.

Lemma bits_lt_app p a b : bits_lt a b → bits_lt (p ++ a) (p ++ b).
Proof. intros Hab. induction p; simpl; [done|]. by right. Qed.

(** The keys of a whole tree come in ascending order, each once. *)
Lemma entries_sorted p t :
  whole t → ∃ kvs, entries p t = Ok <$> kvs ∧ StronglySorted bits_lt kvs.*1 ∧
    Forall (λ k, ∃ k', k = p ++ k') kvs.*1.
Proof.
  revert p. induction t as [l v'|l a IHa b IHb|c]; intros p; simpl; [| |done].
  - intros _. exists [(p ++ l, v')]. split; [done|]. split.
    + by repeat constructor.
    + apply Forall_singleton. by eexists.
  - intros [Wa Wb]. destruct (IHa (p ++ l ++ [false]) Wa) as (ka & -> & Sa & Fa).
    destruct (IHb (p ++ l ++ [true]) Wb) as (kb & -> & Sb & Fb).
    exists (ka ++ kb). rewrite !fmap_app. split; [done|]. split.
    + apply StronglySorted_app_2; [|done..]. intros x y Hx Hy.
      rewrite Forall_forall in Fa, Fb. apply Fa in Hx as [k1 ->]. apply Fb in Hy as [k2 ->].
      rewrite <- !app_assoc. do 2 apply bits_lt_app. by left.
    + apply Forall_app. split; (eapply Forall_impl; [done|]); intros k [k' ->];
        rewrite <- !app_assoc; by eexists.
Qed.

Lemma until_err_ok {A} (l : list A) : until_err (Ok <$> l) = Ok <$> l.
Proof. induction l as [|x l IH]; [done|]. simpl. by f_equal. Qed.
