(* ===== verification/DictCells.v ===== *)
(** The cells of a plain dictionary against the trees they spell: the relation
    [shows] between a cell and a tree, what each function that writes a
    dictionary cell makes, and the walks down and back up. *)

From stdpp Require Import base list list_numbers numbers strings.
From Stdlib Require Import ZArith Lia.
From S2P Require Import Prelude Errors Bits CellData CellHash CellModel CellSlice CellBuilder BuilderOps DictLabel Dict DictTree.

Local Open Scope Z_scope.

#[local] Arguments uint_bits : simpl never.

(** ** Keys and labels *)

Lemma rest_app pre key : rest (pre ++ key) (len pre) = key.
Proof.
  unfold rest, get_range. pose proof (len_nonneg pre). pose proof (len_nonneg key). rewrite len_app.
  rewrite !(proj2 (Z.leb_le _ _)) by lia. simpl. rewrite drop_app_length'; [|unfold len; lia].
  apply take_ge. unfold len. lia.
Qed.

Lemma get_at pre b (key : list bool) : get (pre ++ b :: key) (len pre) = Some b.
Proof. by rewrite get_app_r, Z.sub_diag by lia. Qed.

Lemma key_cases (key l : list bool) :
  len l <= len key →
  (∃ k, key = l ++ k) ∨
  (∃ p x l' k', l = p ++ x :: l' ∧ key = p ++ negb x :: k').
Proof.
  revert key. induction l as [|x l IH]; intros key Hl; [left; by exists key|].
  destruct key as [|y key]; rewrite ?len_cons in *.
  { exfalso. pose proof (len_nonneg l). change (len []) with 0 in Hl. lia. }
  destruct (decide (y = x)) as [->|Hne].
  - destruct (IH key) as [[k ->]|(p & z & l' & k' & -> & ->)]; [lia|left; by exists k|].
    right. by exists (x :: p), z, l', k'.
  - right. exists [], x, l, key. split; [done|]. by destruct x, y.
Qed.

Section diverges.
Context {R : Type} `{BitRun R} (label : R).
Hypothesis Hlabel : LawfulRun label.

Lemma run_bit_get i b : get (run_bits label) i = Some b → run_bit label i = b.
Proof.
  intros Hg. pose proof (get_Some_lt _ _ _ Hg). rewrite run_bit_ok by lia.
  unfold nth_bit. by rewrite Hg.
Qed.

Lemma diverges_none key k : key = run_bits label ++ k → diverges label key = None.
Proof.
  intros ->. unfold diverges. destruct (find _ _) as [i|] eqn:E; [|done].
  apply find_some in E as [Hi%list_elem_of_In%elem_of_seqZ Hf].
  rewrite <- (len_run_bits label) in Hi by done.
  destruct (get_lt_Some (run_bits label) i) as [b Hb]; [lia|].
  rewrite get_app_l, Hb, (run_bit_get i b Hb), Bool.eqb_reflx in Hf by lia. done.
Qed.

Lemma find_seqZ_first (f : Z → bool) n m :
  0 <= m < n → f m = true → (∀ i, 0 <= i < m → f i = false) → find f (seqZ 0 n) = Some m.
Proof.
  intros Hm Hf Hlt. replace n with (m + (n - m)) by lia. rewrite seqZ_app by lia.
  assert (find f (seqZ 0 m) = None) as Hn.
  { destruct (find f (seqZ 0 m)) as [i|] eqn:E; [|done].
    apply find_some in E as [Hi%list_elem_of_In%elem_of_seqZ Hi']. rewrite Hlt in Hi' by lia. done. }
  revert Hn. generalize (seqZ 0 m). intros l. induction l as [|x l IH]; simpl.
  - intros _. rewrite Z.add_0_l, seqZ_cons by lia. simpl. by rewrite Hf.
  - destruct (f x); [done|]. intros Hn. by apply IH.
Qed.

Lemma diverges_some key p x l' k' :
  run_bits label = p ++ x :: l' → key = p ++ negb x :: k' → diverges label key = Some (len p).
Proof.
  intros Hl ->. unfold diverges. pose proof (len_nonneg p). pose proof (len_nonneg l').
  pose proof (len_run_bits label Hlabel) as Hlen. rewrite Hl, len_app, len_cons in Hlen.
  apply find_seqZ_first; [lia|..].
  - rewrite get_at. rewrite (run_bit_get (len p) x) by (rewrite Hl; apply get_at). by destruct x.
  - intros i Hi. rewrite get_app_l by lia. destruct (get_lt_Some p i) as [b Hb]; [lia|].
    rewrite Hb, (run_bit_get i b), Bool.eqb_reflx; [done|]. by rewrite Hl, get_app_l by lia.
Qed.
End diverges.

(** *** Forms of shorter labels *)

Lemma all_same_prefix p l : all_same (p ++ l) → all_same p.
Proof.
  intros Hs i Hi. assert (∀ j, 0 <= j < len p → nth_bit p j = nth_bit (p ++ l) j) as Hj.
  { intros j Hj. unfold nth_bit. by rewrite get_app_l by lia. }
  pose proof (len_nonneg l). rewrite !Hj by lia. apply Hs. rewrite len_app. lia.
Qed.

Lemma all_same_suffix p l : all_same (p ++ l) → all_same l.
Proof.
  intros Hs i Hi. pose proof (len_nonneg p).
  assert (∀ j, 0 <= j < len l → nth_bit l j = nth_bit (p ++ l) (len p + j)) as Hj.
  { intros j Hj. unfold nth_bit. rewrite get_app_r by lia. do 2 f_equal. lia. }
  rewrite !Hj by lia. rewrite (Hs (len p + i)), (Hs (len p + 0)) by (rewrite len_app; lia). done.
Qed.

(** Part of a label, under no more key bits, takes no more room than the label did
    in whatever form it was read. *)
Lemma shorter_label m n f l l' :
  0 <= m <= n → n <= MAX_BITS → len l <= MAX_BITS → form_ok f l →
  (∃ p, l = p ++ l' ∨ l = l' ++ p) → len (label_enc m l') <= len (form_bits n f l).
Proof.
  intros Hm Hn Hl Hf (p & Hp).
  assert (form_ok f l' ∧ len l' <= len l) as [Hf' Hl'].
  { pose proof (len_nonneg p). destruct Hp as [->| ->]; rewrite len_app; (split; [|lia]); destruct f; try done.
    - by eapply all_same_suffix.
    - by eapply all_same_prefix. }
  etrans; [apply (best_form_least m l' f); [lia|lia|done]|].
  rewrite !len_form_bits by lia. pose proof (bounded_width_mono m n Hm). destruct f; lia.
Qed.

Section nodes.
Context `{Hasher}.

(** ** The nodes the dictionary writes *)

Definition fits (n : Z) (l pb : list bool) (pr : list Cell) : Prop :=
  len (label_enc n l) + len pb <= MAX_BITS ∧ len pr <= MAX_REFS.

#[export] Instance fits_dec n l pb pr : Decision (fits n l pb pr).
Proof. unfold fits. apply _. Defined.

(** The node with a label and what follows it. *)
Definition made (n : Z) (l pb : list bool) (pr : list Cell) : result CellError Cell :=
  Builder.build (holding (label_enc n l ++ pb) (refs_app RNone pr)).

Lemma refs_app_none pr : len pr <= MAX_REFS → refs_slice (refs_app RNone pr) = pr.
Proof. intros Hl. by rewrite refs_app_slice. Qed.

Lemma made_spec n l pb pr :
  0 <= n <= MAX_BITS → len l <= n → fits n l pb pr → Forall cell_wf pr →
  ∃ c f, made n l pb pr = Ok c ∧ Cell.is_exotic c = false ∧ form_ok f l ∧
    Cell.bits c = form_bits n f l ++ pb ∧ Cell.refs c = pr ∧ cell_wf c.
Proof.
  intros Hn Hl [Hb Hr] Hwf. unfold made. pose proof (refs_app_none pr Hr) as Hrs.
  destruct (build_spec (label_enc n l ++ pb) (refs_app RNone pr)) as (c & Hc & Hbits & _ & _ & Hrefs & Ht & Hw).
  { by rewrite len_app. }
  { rewrite Hrs. by apply wf_masks. }
  exists c, (best_form n l). split; [done|]. split; [unfold Cell.is_exotic; by rewrite bool_decide_true|].
  split; [apply best_form_ok; lia|]. split; [done|].
  unfold Cell.refs. rewrite Hrefs, Hrs in *. auto.
Qed.

(** What follows a label: bits and references, when there is room for both. *)
Definition appends (k : stm Builder CellError unit) (pb : list bool) (pr : list Cell) : Prop :=
  ∀ bs, len bs <= MAX_BITS →
    if bool_decide (len bs + len pb <= MAX_BITS ∧ len pr <= MAX_REFS)
    then k (holding bs RNone) = (Ok tt, holding (bs ++ pb) (refs_app RNone pr))
    else is_ok (fst (k (holding bs RNone))) = false.

Lemma built_node {R} `{BitRun R} (label : R) n k pb pr :
  LawfulRun label → 0 <= n <= MAX_BITS → run_len label <= n → appends k pb pr →
  if bool_decide (fits n (run_bits label) pb pr)
  then built (run! store_label label n; k) = made n (run_bits label) pb pr
  else is_ok (built (run! store_label label n; k)) = false.
Proof.
  intros Hr Hn Hl Hk. pose proof (writes_label label n Hr Hn Hl) as Hw.
  unfold built. rewrite new_holding. pose proof (len_nonneg pb).
  set (e := label_enc n (run_bits label)) in *.
  destruct (decide (len e <= MAX_BITS)) as [He|He].
  - assert (store_label label n (holding [] RNone) = (Ok tt, holding ([] ++ e) RNone)) as Hok
      by (apply writes_ok; [done|change (len (A:=bool) []) with 0; lia]).
    rewrite !(st_bind_ok _ _ _ _ _ Hok).
    rewrite app_nil_l. specialize (Hk e He). fold e. unfold fits. fold e.
    destruct (bool_decide _); [by rewrite Hk|]. by destruct (k (holding e RNone)) as [[]].
  - rewrite bool_decide_false by (unfold fits; fold e; intros [? _]; lia).
    pose proof (writes_full _ e [] RNone Hw ltac:(change (len []) with 0; lia) ltac:(done)) as Hf.
    unfold st_bind. by destruct (store_label label n (holding [] RNone)) as [[]].
Qed.

Lemma len_one {A} (x : A) : len [x] = 1.
Proof. done. Qed.

Lemma appends_builder vb vr :
  len vr <= MAX_REFS → appends (Builder.store_builder (holding vb (refs_app RNone vr))) vb vr.
Proof.
  intros Hv bs Hbs.
  rewrite store_builder_spec, refs_app_none by done. change (len (refs_slice RNone)) with 0.
  case_bool_decide as Hd.
  - destruct (Z.ltb_spec (MAX_BITS - len bs) (len vb)); [lia|].
    by destruct (Z.ltb_spec (MAX_REFS - 0) (len vr)); [lia|].
  - destruct (Z.ltb_spec (MAX_BITS - len bs) (len vb)); [done|].
    destruct (Z.ltb_spec (MAX_REFS - 0) (len vr)); [done|]. lia.
Qed.

Lemma appends_slice s :
  slice_wf s → Slice.remaining_bits s <= MAX_BITS →
  appends (Builder.store_slice s) (slice_bits s) (slice_refs s).
Proof.
  intros Hwf Hm bs Hbs. rewrite store_slice_spec by done. change (len (refs_slice RNone)) with 0.
  rewrite len_slice_bits, len_slice_refs by done. case_bool_decide as Hd.
  - destruct (Z.ltb_spec (MAX_BITS - len bs) (Slice.remaining_bits s)); [lia|].
    by destruct (Z.ltb_spec (MAX_REFS - 0) (Slice.remaining_refs s)); [lia|].
  - destruct (Z.ltb_spec (MAX_BITS - len bs) (Slice.remaining_bits s)); [done|].
    destruct (Z.ltb_spec (MAX_REFS - 0) (Slice.remaining_refs s)); [done|]. lia.
Qed.

Lemma appends_writes m xs k pb pr : writes m xs → appends k pb pr → appends (run! m; k) (xs ++ pb) pr.
Proof.
  intros Hw Hk bs Hbs. specialize (Hw bs RNone Hbs). rewrite len_app. pose proof (len_nonneg xs). pose proof (len_nonneg pb).
  destruct (Z.ltb_spec (MAX_BITS - len bs) (len xs)).
  - rewrite bool_decide_false by lia. unfold st_bind. by destruct (m (holding bs RNone)) as [[]].
  - rewrite (st_bind_ok _ _ _ _ _ Hw). specialize (Hk (bs ++ xs)). rewrite len_app in Hk. specialize (Hk ltac:(lia)).
    replace (len bs + (len xs + len pb)) with (len bs + len xs + len pb) by lia. revert Hk.
    case_bool_decide; [intros ->; by rewrite <- app_assoc|done].
Qed.

Lemma appends_branches a b :
  appends (run! Builder.store_ref a; Builder.store_ref b) [] [a; b].
Proof.
  intros bs Hbs. rewrite bool_decide_true by (split; [change (len (A:=bool) []) with 0; lia|done]).
  erewrite st_bind_ok by by rewrite store_ref_spec.
  rewrite store_ref_spec, refs_app_none, refs_app_app by done. by rewrite app_nil_r.
Qed.

(** *** Reading the label of a node *)

Lemma node_ahead c pb bs : cell_wf c → Cell.bits c = bs ++ pb → ahead (Slice.new c) bs.
Proof.
  intros Hwf Hb. destruct (slice_new_spec c Hwf) as (Hs & _). split; [done|].
  exists pb. by rewrite new_bits.
Qed.

(** What is left past the label is what the node carries. *)
Lemma node_rest c bs pb :
  cell_wf c → Cell.bits c = bs ++ pb →
  slice_wf (step_bits (len bs) (Slice.new c)) ∧
  slice_bits (step_bits (len bs) (Slice.new c)) = pb ∧
  slice_refs (step_bits (len bs) (Slice.new c)) = Cell.refs c ∧
  Slice.remaining_bits (step_bits (len bs) (Slice.new c)) = len pb ∧
  len bs + len pb = Cell.bit_len c.
Proof.
  intros Hwf Hb. pose proof (node_ahead c pb bs Hwf Hb) as Ha.
  apply ahead_remaining in Ha as Hr. destruct (slice_new_spec c Hwf) as (Hs & Hrem & _).
  assert (slice_wf (step_bits (len bs) (Slice.new c))) as Hs' by by apply step_bits_wf.
  split; [done|]. rewrite step_bits_bits, new_bits, Hb by done.
  rewrite drop_app_length' by (unfold len; lia). split; [done|]. split; [by rewrite step_bits_refs, new_refs|].
  rewrite <- (len_slice_bits _ Hs'), step_bits_bits, new_bits, Hb by done.
  rewrite drop_app_length' by (unfold len; lia). split; [done|].
  rewrite <- Hrem, <- (len_slice_bits _ Hs), new_bits, Hb. by rewrite len_app.
Qed.

Lemma read_node {S} `{LawfulSink S} n c f l pb (into : S) :
  cell_wf c → 0 <= n <= MAX_BITS → len l <= n → form_ok f l → Cell.bits c = form_bits n f l ++ pb →
  ∃ into', read_label_into n (Slice.new c, into)
      = (Ok tt, (step_bits (len (form_bits n f l)) (Slice.new c), into')) ∧
    sink_ok into' ∧ sink_bits into' = l ∧
    skip_label n (Slice.new c) = (Ok tt, step_bits (len (form_bits n f l)) (Slice.new c)).
Proof.
  intros Hwf Hn Hl Hf Hb. pose proof (node_ahead c pb _ Hwf Hb) as Ha.
  destruct (read_label_form n f l (Slice.new c) into Hn Hl Hf Ha) as (i & Hi & Hok & Hbits).
  exists i. do 3 (split; [done|]).
  eapply read_label_inv in Hi as (? & ? & ? & ? & ? & ? & ? & ? & ? & Hskip); [exact Hskip|done|].
  by apply slice_new_spec.
Qed.
End nodes.
(** ** Shapes that keep what they write *)

(** What the walks need of a kind of dictionary: the summaries it accepts, written in one
    way with no reference, read back as they were written, and joined at a fork. Where
    the kind is [free] its forks carry nothing and join whatever they stand over. *)
Class LawfulShape (shape : Shape) := {
  extra_ok : Extra shape → Prop;
  extra_bits : Extra shape → list bool;
  joins : Extra shape → Extra shape → result CellError (Extra shape);
  free : bool;
  read_extra_ok s e : extra_ok e → ahead s (extra_bits e) → read_extra shape s = (Ok e, step_bits (len (extra_bits e)) s);
  writes_extra e : extra_ok e → writes (write_extra shape e) (extra_bits e);
  check_fork_ok s e : slice_wf s → extra_ok e → slice_bits s = extra_bits e → fst (check_fork shape s) = Ok tt;
  joins_ok el er e : extra_ok el → extra_ok er → joins el er = Ok e → extra_ok e;
  fork_extra_ok lhs rhs below el er :
    extra_of (read_extra shape) lhs below = Ok el → extra_of (read_extra shape) rhs below = Ok er → fork_extra shape lhs rhs below = joins el er;
  fork_extra_pruned lhs rhs below :
    free = false → Cell.is_exotic lhs = true ∨ Cell.is_exotic rhs = true → is_ok (fork_extra shape lhs rhs below) = false;
  free_ok : free = true → (∀ e, extra_bits e = []) ∧ ∀ lhs rhs below, ∃ e, fork_extra shape lhs rhs below = Ok e ∧ extra_ok e;
}.

#[export] Instance plain_lawful : LawfulShape Plain.
Proof.
  refine {| extra_ok := λ _ : Extra Plain, True; extra_bits := λ _, []; joins := λ _ _, Ok tt; free := true |}; try done.
  - intros s [] _ _. cbn [read_extra Plain]. change (len (A:=bool) []) with 0. by rewrite step_bits_0.
  - intros [] _ bs rs Hl. change (len (A:=bool) []) with 0. rewrite (proj2 (Z.ltb_ge _ _)) by lia. by rewrite app_nil_r.
  - intros s [] Hwf _ Hb. cbn [check_fork Plain]. rewrite <- (len_slice_bits s Hwf), Hb. done.
  - intros _. split; [done|]. intros. by exists tt.
Defined.

Section dict_cells.
Context `{Hasher} (shape : Shape) `{!LawfulShape shape}.

(** A value behind the summary its leaf carries. *)
Definition behind (e : Extra shape) (v : value) : value := (extra_bits e ++ v.1, v.2).

(** ** What the writing functions make *)

(** Each way of writing a node makes the node, or fails where it does not fit. *)
Lemma leaf_spec key e vb vr n :
  0 <= n <= MAX_BITS → len key <= n → extra_ok e → len vr <= MAX_REFS →
  if bool_decide (fits n key (extra_bits e ++ vb) vr)
  then leaf shape key (MkDictEntry e (holding vb (refs_app RNone vr))) n = made n key (extra_bits e ++ vb) vr
  else is_ok (leaf shape key (MkDictEntry e (holding vb (refs_app RNone vr))) n) = false.
Proof.
  intros Hn Hk He Hr. assert (LawfulRun key) as Hl.
  { apply bools_lawful. unfold U16_MAX, MAX_BITS in *. lia. }
  pose proof (appends_writes _ _ _ _ _ (writes_extra e He) (appends_builder vb vr Hr)) as Ha.
  pose proof (built_node key n _ _ vr Hl Hn Hk Ha) as Hb. rewrite bools_run_bits in Hb. exact Hb.
Qed.

Lemma fork_spec {R} `{BitRun R} (label : R) n below a b :
  LawfulRun label → 0 <= n <= MAX_BITS → run_len label <= n →
  (∀ e, fork_extra shape a b below = Ok e → extra_ok e) →
  match fork_extra shape a b below with
  | Ok e =>
      if bool_decide (fits n (run_bits label) (extra_bits e) [a; b])
      then fork shape label n below a b = made n (run_bits label) (extra_bits e) [a; b]
      else is_ok (fork shape label n below a b) = false
  | Err _ => is_ok (fork shape label n below a b) = false
  end.
Proof.
  intros Hr Hn Hl Hok. unfold fork. destruct (fork_extra shape a b below) as [e|err] eqn:Ee.
  - pose proof (appends_writes _ _ _ _ _ (writes_extra e (Hok e eq_refl)) (appends_branches a b)) as Ha.
    pose proof (built_node label n _ _ [a; b] Hr Hn Hl Ha) as Hb. by rewrite app_nil_r in Hb.
  - unfold built, st_bind. by destruct (store_label _ _ _) as [[]].
Qed.

(** ** Cells that spell a tree *)

(** A leaf's value in a tree has its summary at its head. [strict] asks that every node be
    the one the dictionary itself would write: shortest label, the summary of its
    branches, nothing besides. *)
Inductive shows (strict : bool) : Z → Cell → tree → Prop :=
| shows_hole n c : 0 <= n → Cell.is_exotic c = true → shows strict n c (THole c)
| shows_leaf n c f e l p v :
    Cell.is_exotic c = false → form_ok f l → len l = n → extra_ok e → v.1 = extra_bits e ++ p →
    Cell.bits c = form_bits n f l ++ v.1 → Cell.refs c = v.2 →
    (strict = true → made n l v.1 v.2 = Ok c) →
    shows strict n c (TLeaf l v)
| shows_fork n c f e l ca cb a b :
    Cell.is_exotic c = false → form_ok f l → len l < n → extra_ok e →
    Cell.bits c = form_bits n f l ++ extra_bits e → Cell.refs c = [ca; cb] →
    (strict = true → made n l (extra_bits e) [ca; cb] = Ok c ∧
       (Cell.is_exotic ca = false → Cell.is_exotic cb = false → fork_extra shape ca cb (n - len l - 1) = Ok e)) →
    shows strict (n - len l - 1) ca a → shows strict (n - len l - 1) cb b →
    shows strict n c (TFork l a b).

Lemma shows_strict n c t : shows true n c t → shows false n c t.
Proof. induction 1; by econstructor. Qed.

Lemma shows_nonneg st n c t : shows st n c t → 0 <= n.
Proof.
  destruct 1 as [| n c f e l p v _ _ <-|n c f e l ca cb a b _ _ Hl]; [done|apply len_nonneg|].
  pose proof (len_nonneg l). lia.
Qed.

Lemma shows_wf st n c t : shows st n c t → tree_wf n t.
Proof. induction 1; simpl; auto. Qed.

Lemma shows_exotic st n c t : shows st n c t → Cell.is_exotic c = match t with THole _ => true | _ => false end.
Proof. by destruct 1. Qed.

(** Written by the dictionary, a whole tree has one cell. *)
Lemma shows_unique n c c' t : whole t → shows true n c t → shows true n c' t → c = c'.
Proof.
  intros Hw Hs. revert Hw c'.
  induction Hs as [n c _ _|n c f e l p v _ _ _ _ _ _ _ Hm|n c f e l ca cb a b _ _ _ _ _ _ Hm Sa IHa Sb IHb];
    intros Hw c' Hs'; [done|..]; inversion Hs' as [|? ? ? ? ? ? ? ? ? ? ? ? ? ? Hm'|? ? ? e' ? ca' cb' ? ? ? ? ? ? ? ? Hm' Sa' Sb']; subst.
  - specialize (Hm eq_refl). specialize (Hm' eq_refl). congruence.
  - destruct (Hm eq_refl) as [Hc Hf], (Hm' eq_refl) as [Hc' Hf'], Hw as [Wa Wb].
    assert (ca = ca' ∧ cb = cb') as [<- <-] by auto. apply shows_exotic in Sa, Sb.
    assert (Cell.is_exotic ca = false ∧ Cell.is_exotic cb = false) as [Xa Xb] by (rewrite Sa, Sb; by destruct a, b).
    specialize (Hf Xa Xb). specialize (Hf' Xa Xb). congruence.
Qed.

(** What a node carries past its label. *)
Definition carries (t : tree) (pb : list bool) : Prop :=
  match t with TLeaf _ v => pb = v.1 | TFork _ _ _ => ∃ e, extra_ok e ∧ pb = extra_bits e | THole _ => False end.

(** A node seen as a label and what follows it: written again under another
    label, where it fits, it shows the relabelled tree. *)
Lemma shows_node st n c t :
  shows st n c t → (∀ h, t ≠ THole h) → cell_wf c →
  ∃ f e p pr, Cell.is_exotic c = false ∧ form_ok f (label_of t) ∧ len (label_of t) <= n ∧
    Cell.bits c = form_bits n f (label_of t) ++ extra_bits e ++ p ∧ Cell.refs c = pr ∧ extra_ok e ∧ carries t (extra_bits e ++ p) ∧
    ∀ n' l', 0 <= n' <= MAX_BITS → n' - len l' = n - len (label_of t) → fits n' l' (extra_bits e ++ p) pr →
      ∃ c', made n' l' (extra_bits e ++ p) pr = Ok c' ∧ cell_wf c' ∧ shows st n' c' (with_label l' t).
Proof.
  intros Hs Hh Hwf%cell_wf_refs.
  destruct Hs as [n c _ _|n c f e l p v Hx Hf Hl He Hv Hb Hr _|n c f e l ca cb a b Hx Hf Hl He Hb Hr Hst Ha Hbb].
  - by destruct (Hh c).
  - exists f, e, p, v.2. do 2 (split; [done|]). split; [simpl; lia|]. rewrite <- Hv. do 4 (split; [done|]). simpl.
    intros n' l' Hn' Hlen Hfit. rewrite Hr in Hwf.
    destruct (made_spec n' l' v.1 v.2) as (c' & f' & Hm & Hx' & Hf' & Hb' & Hr' & Hwf'); [done|lia|done|done|].
    exists c'. do 2 (split; [done|]). eapply (shows_leaf _ _ _ f' e _ p); [done|done|lia|done..].
  - exists f, e, [], [ca; cb]. do 2 (split; [done|]). split; [simpl; lia|]. rewrite app_nil_r.
    do 3 (split; [done|]). split; [by exists e|]. simpl. intros n' l' Hn' Hlen Hfit. rewrite Hr in Hwf.
    destruct (made_spec n' l' (extra_bits e) [ca; cb]) as (c' & f' & Hm & Hx' & Hf' & Hb' & Hr' & Hwf'); [done|lia|done|done|].
    exists c'. do 2 (split; [done|]).
    replace (n - len l - 1) with (n' - len l' - 1) in Ha, Hbb, Hst by lia.
    eapply (shows_fork _ _ _ f' e); [done|done|lia|done|done|done| |done..]. intros E. split; [done|]. by apply Hst.
Qed.

(** The summary a node was written with is read back. *)
Lemma shows_extra st n c t :
  shows st n c t → (∀ h, t ≠ THole h) → cell_wf c → n <= MAX_BITS → ∃ e, extra_of (read_extra shape) c n = Ok e ∧ extra_ok e.
Proof.
  intros Hs Hh Hwf Hn. pose proof (shows_nonneg st n c t Hs).
  destruct (shows_node st n c t Hs Hh Hwf) as (f & e & p & pr & Hx & Hf & Hl & Hb & _ & He & _).
  exists e. split; [|done]. unfold extra_of. rewrite Hx.
  destruct (read_node n c f (label_of t) _ (S := Label) Label.new Hwf ltac:(lia) Hl Hf Hb) as (_ & _ & _ & _ & ->).
  destruct (node_rest c _ _ Hwf Hb) as (Ws & Hsb & _). rewrite (read_extra_ok _ e He); [done|]. split; [done|by exists p].
Qed.

(** ** Forks that can be written *)

(** Wherever a fork is asked for it can be made: it carries nothing, or nothing below is
    pruned away, any two summaries join, and none outgrows the widest label. *)
Definition forkable (n : Z) (t : tree) : Prop :=
  free (shape := shape) = true ∨
  whole t ∧ (∀ e : Extra shape, extra_ok e → 2 + bounded_width n + n + len (extra_bits e) <= MAX_BITS) ∧
  (∀ el er : Extra shape, extra_ok el → extra_ok er → is_ok (joins el er) = true).

Lemma forkable_mono n m t t' : 0 <= m <= n → (whole t → whole t') → forkable n t → forkable m t'.
Proof.
  intros Hm Hw [?|(Ht & Hb & Hj)]; [by left|right]. split; [auto|]. split; [|done]. intros e He.
  specialize (Hb e He). pose proof (bounded_width_mono m n Hm). lia.
Qed.

(** The fork over two trees, if it can be made. *)
Lemma fork_shows {R} `{BitRun R} (label : R) st n l ca cb a b :
  LawfulRun label → run_bits label = l → len l < n → n <= MAX_BITS → len (label_enc n l) <= MAX_BITS →
  cell_wf ca → cell_wf cb → shows st (n - len l - 1) ca a → shows st (n - len l - 1) cb b →
  (∃ c, fork shape label n (n - len l - 1) ca cb = Ok c ∧ cell_wf c ∧ shows st n c (TFork l a b)) ∨
  is_ok (fork shape label n (n - len l - 1) ca cb) = false ∧ ¬ forkable n (TFork l a b).
Proof.
  intros Hlaw Hbits Hl Hm Henc Wa Wb Sa Sb. pose proof (len_nonneg l).
  pose proof (len_run_bits label Hlaw) as Hrl. rewrite Hbits in Hrl.
  assert (∀ e, fork_extra shape ca cb (n - len l - 1) = Ok e → extra_ok e ∧
    (forkable n (TFork l a b) → fits n l (extra_bits e) [ca; cb])) as Hok.
  { intros e He. destruct (free (shape := shape)) eqn:Ef.
    - destruct (free_ok Ef) as [Hnil Hex]. destruct (Hex ca cb (n - len l - 1)) as (e' & He' & Hok). rewrite He in He'.
      injection He' as <-. split; [done|]. intros _. rewrite Hnil. split; [change (len (A:=bool) []) with 0; lia|done].
    - destruct (hole_cases a) as [[h ->]|Ha]; [|destruct (hole_cases b) as [[h ->]|Hb]].
      1,2: apply shows_exotic in Sa, Sb; pose proof (fork_extra_pruned ca cb (n - len l - 1) Ef ltac:(tauto)) as Hp; by rewrite He in Hp.
      destruct (shows_extra st _ ca a Sa Ha Wa ltac:(lia)) as (ea & Ea & Oa). destruct (shows_extra st _ cb b Sb Hb Wb ltac:(lia)) as (eb & Eb & Ob).
      rewrite (fork_extra_ok ca cb _ ea eb Ea Eb) in He. pose proof (joins_ok ea eb e Oa Ob He) as Oe. split; [done|].
      intros [?|(_ & Hsm & _)]; [congruence|]. split; [|done]. specialize (Hsm e Oe).
      pose proof (best_form_least n l FLong ltac:(lia) ltac:(lia) I) as Hle. rewrite len_form_bits in Hle by lia. lia. }
  pose proof (fork_spec label n (n - len l - 1) ca cb Hlaw ltac:(lia) ltac:(lia) ltac:(intros e He; by apply Hok)) as Hf.
  destruct (fork_extra shape ca cb (n - len l - 1)) as [e|err] eqn:Ee.
  - destruct (Hok e eq_refl) as [Oe Hfits]. rewrite Hbits in Hf. case_bool_decide as Hfit; [left|right; split; [done|auto]].
    rewrite Hf. destruct (made_spec n l (extra_bits e) [ca; cb]) as (c & f & Hc & Hx & Hfo & Hb & Hr & Wc);
      [lia|lia|done|by rewrite !Forall_cons, Forall_nil|].
    exists c. do 2 (split; [done|]). eapply (shows_fork _ _ _ f e); [done|done|lia|done..| |done|done]. intros _. by split.
  - right. split; [done|]. intros [Hfree|(Hw & _ & Hj)]; [|destruct Hw as [Wa' Wb']].
    + destruct (free_ok Hfree) as [_ Hex]. destruct (Hex ca cb (n - len l - 1)) as (e & He & _). congruence.
    + destruct (shows_extra st _ ca a Sa ltac:(by intros h ->) Wa ltac:(lia)) as (ea & Ea & Oa).
      destruct (shows_extra st _ cb b Sb ltac:(by intros h ->) Wb ltac:(lia)) as (eb & Eb & Ob).
      specialize (Hj ea eb Oa Ob). rewrite (fork_extra_ok ca cb _ ea eb Ea Eb) in Ee. by rewrite Ee in Hj.
Qed.
End dict_cells.
