(* ===== verification/DictWalk.v ===== *)
(** The walks of a dictionary of any lawful shape over cells that spell a tree: down to
    a key and back up, for [get], [set] and [remove]. *)

From stdpp Require Import base list list_numbers numbers strings.
From Stdlib Require Import ZArith Lia.
From S2P Require Import Prelude Errors Bits CellData CellHash CellModel CellSlice CellBuilder BuilderOps DictLabel Dict DictTree DictCells.

Local Open Scope Z_scope.

#[local] Arguments uint_bits : simpl never.

Section visits.
Context `{Hasher}.

(** What an entry's cell holds from its offset on. *)
Definition entry_value (e : DictEntry) : value :=
  match entry_slice e with
  | Ok s => (slice_bits s, slice_refs s)
  | Err _ => ([], [])
  end.

Lemma entry_value_node c bs pb :
  cell_wf c → Cell.bits c = bs ++ pb →
  entry_value (MkEntry c (Cell.bit_len c - Slice.remaining_bits (step_bits (len bs) (Slice.new c))))
    = (pb, Cell.refs c).
Proof.
  intros Hwf Hb. destruct (node_rest c bs pb Hwf Hb) as (Hs & Hbits & Hrefs & Hrem & Hlen).
  unfold entry_value, entry_slice. cbn [e_bit_offset e_cell]. rewrite Hrem.
  replace (Cell.bit_len c - len pb) with (len bs) by lia. unfold Slice.skip_bits.
  destruct (slice_new_spec c Hwf) as (_ & Hr & _). pose proof (len_nonneg pb).
  erewrite st_bind_ok by (apply advance_ok; lia). simpl. by rewrite Hbits, Hrefs.
Qed.

(** What a walk meets at a node: its label, and the key along it or off it. *)
Lemma visit n c f l pb lab pre key :
  cell_wf c → n <= MAX_BITS → len l <= n → form_ok f l → Cell.bits c = form_bits n f l ++ pb →
  len key = n →
  ∃ lab', read_label_into n (Slice.new c, lab) =
      (Ok tt, (step_bits (len (form_bits n f l)) (Slice.new c), lab')) ∧
    label_ok lab' ∧ lbits lab' = l ∧ l_len lab' = len l ∧ rest (pre ++ key) (len pre) = key ∧
    ((∃ k, key = l ++ k ∧ diverges lab' key = None) ∨
     (∃ p x l' k', l = p ++ x :: l' ∧ key = p ++ negb x :: k' ∧ diverges lab' key = Some (len p))).
Proof.
  intros Hwf Hm Hl Hf Hb Hk. pose proof (len_nonneg l).
  destruct (read_node n c f l pb lab Hwf ltac:(lia) ltac:(lia) Hf Hb) as (lab' & Hread & Hok & Hbits & _).
  cbn [sink_bits sink_ok label_lawful_sink] in Hbits, Hok.
  pose proof (label_lawful lab' Hok) as Hlaw. pose proof (label_run_bits lab' Hok) as Hrun.
  pose proof (len_lbits lab' Hok) as Hlen. rewrite Hbits in Hrun, Hlen.
  exists lab'. do 3 (split; [done|]). split; [done|]. split; [apply rest_app|].
  destruct (key_cases key l) as [[k ->]|(p & x & l' & k' & -> & ->)]; [lia|..].
  - left. exists k. split; [done|]. apply (diverges_none lab' Hlaw _ k). by rewrite Hrun.
  - right. exists p, x, l', k'. do 2 (split; [done|]). by apply (diverges_some lab' Hlaw _ p x l' k').
Qed.

Lemma fork_key (l k : list bool) n :
  len (l ++ k) = n → len l < n → ∃ x k', k = x :: k' ∧ len k' = n - len l - 1.
Proof.
  intros Hk Hl. rewrite len_app in Hk. destruct k as [|x k].
  - change (len (A:=bool) []) with 0 in Hk. lia.
  - exists x, k. rewrite len_cons in Hk. split; [done|lia].
Qed.

Lemma no_key_left (l k : list bool) n : len (l ++ k) = n → len l = n → k = [].
Proof.
  intros Hk Hl. rewrite len_app in Hk. destruct k; [done|]. rewrite len_cons in Hk.
  pose proof (len_nonneg k). lia.
Qed.

Lemma key_past pre l x (k : list bool) :
  pre ++ l ++ x :: k = (pre ++ l ++ [x]) ++ k ∧ len (pre ++ l ++ [x]) = len pre + len l + 1 ∧
  get (pre ++ l ++ x :: k) (len pre + len l) = Some x.
Proof.
  rewrite <- !app_assoc. split; [done|]. split; [rewrite !len_app; change (len [x]) with 1; lia|].
  rewrite app_assoc, <- len_app. apply get_at.
Qed.

Lemma two_refs c ca cb (x : bool) :
  Cell.refs c = [ca; cb] → cell_wf c →
  Cell.reference c (b2z x) = Some (if x then cb else ca) ∧
  Cell.reference c (1 - b2z x) = Some (if x then ca else cb) ∧ cell_wf ca ∧ cell_wf cb.
Proof.
  intros Hr Hwf%cell_wf_refs. unfold Cell.reference. rewrite Hr in *. rewrite !Forall_cons in Hwf.
  destruct Hwf as (? & ? & _). by destruct x.
Qed.

End visits.

Section dict_walk.
Context `{Hasher} (shape : Shape) `{!LawfulShape shape}.
Local Abbreviation shows := (shows shape).

(** An entry as its leaf holds it: its summary, then its value. *)
Definition held (x : Extra shape * DictEntry) : value := behind shape (fst x) (entry_value (snd x)).

(** An entry whose cell can be read from its offset on. *)
Definition entry_wf (e : DictEntry) : Prop := cell_wf (e_cell e) ∧ 0 <= e_bit_offset e <= Cell.bit_len (e_cell e).

(** The summary at a leaf, and what is past it. *)
Lemma read_leaf c h e p v :
  cell_wf c → Cell.bits c = h ++ v.1 → Cell.refs c = v.2 → extra_ok e → v.1 = extra_bits e ++ p →
  ∃ s, read_extra shape (step_bits (len h) (Slice.new c)) = (Ok e, s) ∧
    held (e, MkEntry c (Cell.bit_len c - Slice.remaining_bits s)) = v ∧
    entry_wf (MkEntry c (Cell.bit_len c - Slice.remaining_bits s)).
Proof.
  intros Hwf Hb Hr He Hv. destruct (node_rest c h v.1 Hwf Hb) as (Ws & Hsb & _).
  eexists. split; [apply read_extra_ok; [done|]; split; [done|]; exists p; by rewrite Hsb|].
  split.
  2:{ split; [done|]. cbn [e_bit_offset e_cell]. rewrite step_bits_step, <- len_app.
      destruct (node_rest c (h ++ extra_bits e) p Hwf) as (_ & _ & _ & -> & Hl); [by rewrite Hb, Hv, app_assoc|].
      pose proof (len_nonneg (h ++ extra_bits e)). pose proof (len_nonneg p). lia. }
  rewrite step_bits_step, <- len_app. unfold held, behind. cbn [fst snd].
  rewrite (entry_value_node c (h ++ extra_bits e) p), Hr by (done || by rewrite Hb, Hv, app_assoc).
  cbn [fst snd]. rewrite <- Hv. by destruct v.
Qed.

(** ** [get] *)

Lemma lookup_spec st n c t :
  shows st n c t → cell_wf c → n <= MAX_BITS →
  ∀ fuel pre key lab, len key = n → (Z.to_nat n < fuel)%nat → label_ok lab →
  ∃ r, lookup_loop fuel shape (pre ++ key) c n (len pre) lab = Ok r ∧
    lookup_map held r = tget t key ∧ ∀ x, r = Found x → extra_ok (fst x).
Proof.
  induction 1 as [n c Hn Hx|n c f e l p v Hx Hf Hl He Hv Hb Hr _|n c f e l ca cb a b Hx Hf Hl He Hb Hr _ Ha IHa Hbb IHb];
    intros Hwf Hm [|fuel] pre key lab Hk Hfuel Hlab; try lia; cbn [lookup_loop]; rewrite Hx.
  - by eexists.
  - destruct (visit n c f l v.1 lab pre key) as (lab' & -> & Hok & Hbits & Hlen & -> & Hd); [done|lia..|done|done|done|].
    destruct Hd as [(k & -> & ->)|(q & x & l' & k' & -> & -> & ->)].
    + unfold Label.width. cbv zeta. rewrite Hlen, Hl, Z.sub_diag. cbn [Z.eqb].
      destruct (read_leaf c _ e p v Hwf Hb Hr He Hv) as (s & -> & Hh & _). eexists. split; [done|]. cbn [lookup_map].
      rewrite Hh. cbn [tget]. rewrite strip_app, (no_key_left l k n) by done. split; [done|]. by intros x [= <-].
    + eexists. split; [done|]. split; [|done]. simpl. rewrite strip_prefix_app, strip_app. by destruct x.
  - destruct (visit n c f l (extra_bits e) lab pre key) as (lab' & -> & Hok & Hbits & Hlen & -> & Hd);
      [done|lia..|done|done|done|].
    destruct Hd as [(k & -> & ->)|(q & x & l' & k' & -> & -> & ->)].
    + destruct (fork_key l k n) as (x & k' & -> & Hk'); [done..|].
      destruct (key_past pre l x k') as (E & El & Eg). destruct (two_refs c ca cb x) as (R1 & _ & Wa & Wb); [done..|].
      unfold Label.width. cbv zeta. rewrite Hlen, (proj2 (Z.eqb_neq _ _)), Eg by lia.
      cbn [default from_option id]. rewrite R1. cbn [ok_or res_bind]. rewrite E, <- El.
      rewrite tget_fork. pose proof (len_nonneg l). destruct x; [apply IHb|apply IHa]; try done; lia.
    + eexists. split; [done|]. split; [|done]. simpl. rewrite strip_prefix_app, strip_app. by destruct x.
Qed.

(** ** The way down, for [set] and [remove] *)

(** The steps a walk retraces, against the frames of the tree. *)
Inductive way (st : bool) : Z → Cell → list Step → list frame → Z → Cell → Prop :=
| way_here n c : way st n c [] [] n c
| way_down n c f pb lab ca cb (x : bool) t steps frames m d :
    Cell.is_exotic c = false → label_ok lab → form_ok f (lbits lab) → len (lbits lab) < n →
    n <= MAX_BITS → Cell.bits c = form_bits n f (lbits lab) ++ pb → Cell.refs c = [ca; cb] → cell_wf c →
    shows st (n - len (lbits lab) - 1) (if x then ca else cb) t →
    way st (n - len (lbits lab) - 1) (if x then cb else ca) steps frames m d →
    way st n c (MkStep c lab n (b2z x) :: steps) (MkFrame (lbits lab) x t :: frames) m d.

Lemma way_width st n c steps frames m d : way st n c steps frames m d → 0 <= m → m <= n.
Proof.
  induction 1; [done|]. intros. pose proof (len_nonneg (lbits lab)). lia.
Qed.

Lemma form_bits_room c n f l pb :
  cell_wf c → Cell.bits c = form_bits n f l ++ pb → len (form_bits n f l) + len pb <= MAX_BITS.
Proof.
  intros Hwf Hb. apply cell_wf_bit_len in Hwf as Hl.
  destruct (node_rest c _ pb Hwf Hb) as (_ & _ & _ & _ & E). lia.
Qed.

(** Retracing the way rebuilds the tree around whatever is put at its end. *)
Lemma rebuild_spec st N n c steps frames m d :
  way st n c steps frames m d → n <= N →
  ∀ d' t', cell_wf d' → shows st m d' t' →
  (∃ c', rebuild shape steps d' = Ok c' ∧ cell_wf c' ∧ shows st n c' (plug frames t')) ∨
  is_ok (rebuild shape steps d') = false ∧ ¬ forkable shape N (plug frames t').
Proof.
  induction 1 as [n c|n c f pb lab ca cb x t steps frames m d Hx Hok Hf Hl Hm Hb Hr Hwf Ht Hway IH];
    intros HN d' t' Wd Hd; [left; by exists d'|]. pose proof (len_nonneg (lbits lab)).
  assert (rebuild shape (MkStep c lab n (b2z x) :: steps) d' =
    res_bind (rebuild shape steps d') (step_rebuild shape (MkStep c lab n (b2z x)))) as ->.
  { unfold rebuild in *. rewrite reverse_cons, res_fold_app. destruct (res_fold _ _ _); [|done]. simpl. by destruct (step_rebuild _ _ _). }
  destruct (IH ltac:(lia) d' t' Wd Hd) as [(e & -> & We & Hse)|[Hfail Hnf]].
  2:{ right. destruct (rebuild shape steps d'); [done|]. split; [done|]. intros Hfk. apply Hnf.
      apply (forkable_mono shape N N _ _ ltac:(lia)) with (2 := Hfk). cbn [plug f_branch f_label f_other]. by intros [? _]%whole_two. }
  destruct (two_refs c ca cb x Hr Hwf) as (_ & R2 & Wa & Wb). cbn [res_bind].
  pose proof (form_bits_room c n f (lbits lab) pb Hwf Hb) as Hroom. pose proof (len_nonneg pb).
  unfold step_rebuild, step_below. cbn [st_node st_branch st_label st_remaining]. rewrite R2. cbn [ok_or res_bind].
  pose proof (label_lawful lab Hok) as Hlaw. pose proof (len_lbits lab Hok) as Hlen. unfold Label.width. rewrite <- Hlen.
  pose proof (shorter_label n n f (lbits lab) (lbits lab) ltac:(lia) Hm ltac:(lia) Hf ltac:(exists []; by left)) as Hle.
  destruct x; cbn [b2z Z.eqb Pos.eqb]; cbv iota.
  - destruct (fork_shows shape lab st n (lbits lab) ca e t (plug frames t') Hlaw (label_run_bits lab Hok)) as [(c' & Hc)|[Hfail Hnf]]; [done|done|lia|done..| |].
    + left. by exists c'.
    + right. split; [done|]. intros Hfk. apply Hnf. by apply (forkable_mono shape N n) with (3 := Hfk); [lia|].
  - destruct (fork_shows shape lab st n (lbits lab) e cb (plug frames t') t Hlaw (label_run_bits lab Hok)) as [(c' & Hc)|[Hfail Hnf]]; [done|done|lia|done..| |].
    + left. by exists c'.
    + right. split; [done|]. intros Hfk. apply Hnf. by apply (forkable_mono shape N n) with (3 := Hfk); [lia|].
Qed.

(** Where a walk down stops: on the key's leaf, or where the key leaves a label. *)
Inductive ends : tree → list bool → option Z → Prop :=
| ends_leaf key v : ends (TLeaf key v) key None
| ends_off u p x l' k' :
    (∀ h, u ≠ THole h) → label_of u = p ++ x :: l' → ends u (p ++ negb x :: k') (Some (len p)).

Record reached (st : bool) (n : Z) (c : Cell) (t : tree) (pre key : list bool) (steps : list Step)
    (w : Walk) (frames : list frame) (u : tree) (key' : list bool) : Prop := {
  re_way : way st n c steps frames (w_remaining w) (w_node w);
  re_shows : shows st (w_remaining w) (w_node w) u;
  re_wf : cell_wf (w_node w);
  re_width : w_remaining w <= MAX_BITS;
  re_tree : t = plug frames u;
  re_key : key = frames_key frames ++ key';
  re_len : len key' = w_remaining w;
  re_label : label_ok (w_label w);
  re_bits : lbits (w_label w) = label_of u;
  re_consumed : w_consumed w = len (pre ++ frames_key frames);
  re_end : ends u key' (w_diverged w);
}.

(** A walk that stops at its first node. *)
Lemma reached_here st n c t pre key path lab r :
  shows st n c t → cell_wf c → n <= MAX_BITS → len key = n → label_ok lab →
  lbits lab = label_of t → ends t key r →
  reached st n c t pre key [] (MkWalk path c lab n (len pre) r) [] t key.
Proof. intros. split; try done; [apply way_here|]. by rewrite app_nil_r. Qed.

(** A walk that takes a branch first. *)
Lemma reached_down st n c f pb lab ca cb (x : bool) a b pre k steps w frames u key' :
  Cell.is_exotic c = false → label_ok lab → form_ok f (lbits lab) → len (lbits lab) < n →
  n <= MAX_BITS → Cell.bits c = form_bits n f (lbits lab) ++ pb → Cell.refs c = [ca; cb] → cell_wf c →
  shows st (n - len (lbits lab) - 1) ca a → shows st (n - len (lbits lab) - 1) cb b →
  reached st (n - len (lbits lab) - 1) (if x then cb else ca) (if x then b else a)
    (pre ++ lbits lab ++ [x]) k steps w frames u key' →
  reached st n c (TFork (lbits lab) a b) pre (lbits lab ++ x :: k) (MkStep c lab n (b2z x) :: steps) w
    (MkFrame (lbits lab) x (if x then a else b) :: frames) u key'.
Proof.
  intros ????????? Hbb [Hway Hs Hwf Hm Ht Hk Hlen Hlab Hbits Hc He].
  split; [|done|done|done| | |done|done|done| |done].
  - eapply way_down; [done..| |exact Hway]. by destruct x.
  - simpl. rewrite <- Ht. unfold two. by destruct x.
  - rewrite Hk. unfold frames_key. simpl. by rewrite <- !app_assoc.
  - rewrite Hc. unfold frames_key. simpl. by rewrite <- !app_assoc.
Qed.

Lemma descend_spec st n c t :
  shows st n c t → cell_wf c → n <= MAX_BITS →
  ∀ fuel path pre key lab, len key = n → (Z.to_nat n < fuel)%nat → label_ok lab →
  (tget t key = PrunedAway ∧
   descend_loop fuel shape (pre ++ key) path c n (len pre) lab = Err Pruned) ∨
  ∃ steps w frames u key', reached st n c t pre key steps w frames u key' ∧
    w_path w = path ++ steps ∧
    descend_loop fuel shape (pre ++ key) path c n (len pre) lab = Ok w.
Proof.
  induction 1 as [n c Hn Hx|n c f e l q v Hx Hf Hl He Hv Hb Hr Hst|n c f e l ca cb a b Hx Hf Hl He Hb Hr Hst Ha IHa Hbb IHb];
    intros Hwf Hm [|fuel] path pre key lab Hk Hfuel Hlab; try lia; cbn [descend_loop]; rewrite Hx.
  { by left. }
  all: assert (∃ pb, Cell.bits c = form_bits n f l ++ pb) as [pb Hpb]
    by first [by exists v.1|by exists (extra_bits e)].
  all: destruct (visit n c f l pb lab pre key) as (lab' & -> & Hok & Hbits & Hlen & -> & Hd); [done|lia..|done|done|done|].
  all: destruct Hd as [(k & -> & ->)|(p & x & l' & k' & -> & -> & ->)]; cbn [orb].
  2,4: right; eexists [], _, [], _, _; (split; [|split; [|done]]);
    [eapply reached_here; [by econstructor|done..|by eapply ends_off]|by rewrite app_nil_r].
  - right. rewrite bool_decide_false, Hlen, Hl, Z.eqb_refl by by intros []. cbn [orb].
    rewrite (no_key_left l k n), app_nil_r in * by done.
    eexists [], _, [], _, _. split; [|split; [|done]].
    + eapply reached_here; [by econstructor|done..|]. constructor.
    + by rewrite app_nil_r.
  - rewrite bool_decide_false, Hlen, (proj2 (Z.eqb_neq _ _)) by (lia || by intros []). cbn [orb].
    destruct (fork_key l k n) as (x & k' & -> & Hk'); [done..|].
    destruct (key_past pre l x k') as (E & El & Eg). destruct (two_refs c ca cb x) as (R1 & _ & Wa & Wb); [done..|].
    destruct (node_rest c (form_bits n f l) (extra_bits e) Hwf Hb) as (Ws & Hsb & _). rewrite (check_fork_ok _ e Ws He Hsb). cbn [res_bind].
    rewrite Eg. cbn [default from_option id]. rewrite R1. cbn [ok_or res_bind].
    unfold Label.width. rewrite Hlen, E. pose proof (len_nonneg l).
    replace (len pre + (len l + 1)) with (len (pre ++ l ++ [x])) by lia.
    replace (n - (len l + 1)) with (n - len l - 1) by lia. rewrite tget_fork.
    assert (tget (if x then b else a) k' = PrunedAway ∧
       descend_loop fuel shape ((pre ++ l ++ [x]) ++ k') (path ++ [MkStep c lab' n (b2z x)])
         (if x then cb else ca) (n - len l - 1) (len (pre ++ l ++ [x])) lab' = Err Pruned ∨
      ∃ steps w frames u key', reached st (n - len l - 1) (if x then cb else ca) (if x then b else a)
        (pre ++ l ++ [x]) k' steps w frames u key' ∧ w_path w = (path ++ [MkStep c lab' n (b2z x)]) ++ steps ∧
       descend_loop fuel shape ((pre ++ l ++ [x]) ++ k') (path ++ [MkStep c lab' n (b2z x)])
         (if x then cb else ca) (n - len l - 1) (len (pre ++ l ++ [x])) lab' = Ok w) as IH
      by (destruct x; [apply IHb|apply IHa]; try done; lia).
    destruct IH as [?|(steps & w & frames & u & key' & Hre & Hp & Hd)]; [by left|]. right.
    rewrite <- Hbits in *.
    eexists _, w, _, u, key'. split; [by eapply reached_down|]. split; [|done].
    by rewrite Hp, <- app_assoc.
Qed.

(** ** What is put at the end of the way *)

(** A value a leaf can hold. *)
Definition storable (v : value) : Prop :=
  len v.1 <= MAX_BITS ∧ len v.2 <= MAX_REFS ∧ Forall cell_wf v.2.

Definition builder_of (v : value) : Builder := holding v.1 (refs_app RNone v.2).

Lemma leaf_shows st n key e v :
  len key = n → n <= MAX_BITS → extra_ok e → storable v →
  if bool_decide (fits n key (extra_bits e ++ v.1) v.2)
  then ∃ c, leaf shape key (MkDictEntry e (builder_of v)) n = Ok c ∧ cell_wf c ∧ shows st n c (TLeaf key (behind shape e v))
  else is_ok (leaf shape key (MkDictEntry e (builder_of v)) n) = false.
Proof.
  intros Hk Hn He (Hvb & Hvr & Hvw). pose proof (len_nonneg key).
  pose proof (leaf_spec shape key e v.1 v.2 n ltac:(lia) ltac:(lia) He Hvr) as Hl. unfold builder_of.
  case_bool_decide as Hfit; [|done]. rewrite Hl.
  destruct (made_spec n key (extra_bits e ++ v.1) v.2) as (c & f & Hc & Hx & Hf & Hb & Hr & Hwf); [lia|lia|done|done|].
  exists c. do 2 (split; [done|]). by eapply (shows_leaf _ _ _ _ f e _ v.1).
Qed.

(** A node written again under the end of its label. *)
Lemma tail_shows st m d u lab p l' :
  shows st m d u → cell_wf d → m <= MAX_BITS → label_ok lab → lbits lab = label_of u →
  (∀ h, u ≠ THole h) → label_of u = p ++ l' →
  ∃ c, built (run! store_label (Label.tail lab (len p)) (m - len p);
      λ kept, match skip_label m (Slice.new d) with
              | (Err e, _) => (Err e, kept)
              | (Ok _, slice) => Builder.store_slice slice kept
              end) = Ok c ∧
    cell_wf c ∧ shows st (m - len p) c (with_label l' u).
Proof.
  intros Hs Hwf Hm Hok Hlb Hh Hl. pose proof (len_nonneg p). pose proof (len_nonneg l').
  destruct (shows_node shape st m d u Hs Hh Hwf) as (f & e & pb & pr & Hx & Hf & Hlen & Hb & Hr & _ & _ & Hmade).
  set (pb' := extra_bits e ++ pb) in *. clearbody pb'. clear pb. rename pb' into pb.
  pose proof Hlen as Hlen'. rewrite Hl, len_app in Hlen', Hmade.
  destruct (tail_ok lab (len p) Hok ltac:(lia)) as [Hok' Hbt].
  rewrite Hlb, Hl, drop_app_length' in Hbt by (unfold len; lia).
  destruct (read_node m d f (label_of u) pb (S := Label) Label.new Hwf) as (_ & _ & _ & _ & Hskip);
    [lia|done|done|done|]. rewrite Hskip.
  destruct (node_rest d _ pb Hwf Hb) as (Ws & Hsb & Hsr & Hsrem & Hroom).
  set (s := step_bits (len (form_bits m f (label_of u))) (Slice.new d)) in *.
  apply cell_wf_bit_len in Hwf as Hbl. pose proof (len_nonneg (form_bits m f (label_of u))).
  pose proof (appends_slice s Ws ltac:(lia)) as Happ. rewrite Hsb, Hsr, Hr in Happ.
  pose proof (label_run_bits _ Hok') as Hrun. rewrite Hbt in Hrun.
  pose proof (len_lbits _ Hok') as Hll. rewrite Hbt in Hll.
  pose proof (built_node (Label.tail lab (len p)) (m - len p) _ pb pr (label_lawful _ Hok') ltac:(lia)
    ltac:(cbn [run_len label_run]; lia) Happ) as Hbuilt. rewrite Hrun in Hbuilt.
  pose proof (shorter_label (m - len p) m f (label_of u) l' ltac:(lia) Hm ltac:(lia) Hf ltac:(exists p; by left)) as Hle.
  assert (fits (m - len p) l' pb pr) as Hfit by (split; [lia|]; rewrite <- Hr; unfold Cell.refs; apply len_refs_slice).
  rewrite bool_decide_true in Hbuilt by done.
  destruct (Hmade (m - len p) l') as (c & Hc & Wc & Hsc); [lia|lia|done|].
  exists c. split; [|done]. by rewrite <- Hc, <- Hbuilt.
Qed.

(** The node a key leaves, under the rest of its label. *)
Lemma kept_shows st m d u lab p x l' :
  shows st m d u → cell_wf d → m <= MAX_BITS → label_ok lab → lbits lab = label_of u →
  (∀ h, u ≠ THole h) → label_of u = p ++ x :: l' →
  ∃ c, built (run! store_label (Label.tail lab (len p + 1)) (m - len p - 1);
      λ kept, match skip_label m (Slice.new d) with
              | (Err e, _) => (Err e, kept)
              | (Ok _, slice) => Builder.store_slice slice kept
              end) = Ok c ∧
    cell_wf c ∧ shows st (m - len p - 1) c (with_label l' u).
Proof.
  intros Hs Hwf Hm Hok Hlb Hh Hl. assert (len (p ++ [x]) = len p + 1) as E by by rewrite len_app.
  replace (m - len p - 1) with (m - len (p ++ [x])) by lia. rewrite <- E.
  apply tail_shows; [done..|]. by rewrite <- app_assoc.
Qed.

Lemma split_spec st N m d u lab p x l' k' e v :
  shows st m d u → cell_wf d → m <= N → N <= MAX_BITS → label_ok lab → lbits lab = label_of u →
  (∀ h, u ≠ THole h) → label_of u = p ++ x :: l' → len (p ++ negb x :: k') = m → extra_ok e → storable v →
  let outcome := split shape d lab (len p) m (p ++ negb x :: k') (MkDictEntry e (builder_of v)) in
  (∃ c, outcome = Ok c ∧ cell_wf c ∧ shows st m c (two (negb x) (TLeaf k' (behind shape e v)) (with_label l' u) p)) ∨
  is_ok outcome = false ∧ (¬ fits (m - len p - 1) k' (extra_bits e ++ v.1) v.2 ∨ ¬ forkable shape N u).
Proof.
  intros Hs Hwf Hmn Hm Hok Hlb Hh Hl Hk He Hv outcome. subst outcome. unfold split. cbv zeta.
  pose proof (len_nonneg p). rewrite len_app, len_cons in Hk. pose proof (len_nonneg k').
  assert (wrap 16 (len p) = len p) as -> by (apply Z.mod_small; unfold MAX_BITS in *; simpl; lia).
  destruct (kept_shows st m d u lab p x l' Hs Hwf ltac:(lia) Hok Hlb Hh Hl) as (ck & -> & Wk & Sk).
  cbn [res_bind]. destruct (key_past [] p (negb x) k') as (E & El & _). rewrite !app_nil_l in E, El.
  change (len (A:=bool) []) with 0 in El. rewrite Z.add_0_l in El. rewrite E, <- El, rest_app.
  pose proof (leaf_shows st (m - len p - 1) k' e v ltac:(lia) ltac:(lia) He Hv) as Hleaf.
  case_bool_decide as Hfit; [|right; destruct (leaf _ _ _ _); [done|]; split; [done|by left]].
  destruct Hleaf as (cf & -> & Wf & Sf). cbn [res_bind].
  assert (Label.bit lab (len p) = x) as ->.
  { rewrite label_bit, Hlb, Hl by done. unfold nth_bit. by rewrite get_at. }
  destruct (shows_node shape st m d u Hs Hh Hwf) as (f & e0 & pb & pr & _ & Hf & Hlen & Hb & _).
  pose proof (form_bits_room d m f _ _ Hwf Hb) as Hroom. pose proof (len_nonneg (extra_bits e0 ++ pb)).
  pose proof (len_lbits lab Hok) as Hll. rewrite Hlb in Hll.
  assert (0 <= len p <= l_len lab) as Hp.
  { rewrite <- Hll, Hl, len_app, len_cons. pose proof (len_nonneg l'). lia. }
  destruct (head_ok lab (len p) Hok Hp) as [Hokh Hbh]. rewrite Hlb, Hl in Hbh.
  rewrite take_app_length' in Hbh by (unfold len; lia).
  pose proof (label_run_bits _ Hokh) as Hrun. rewrite Hbh in Hrun.
  assert (len (label_enc m p) <= MAX_BITS) as Henc.
  { pose proof (shorter_label m m f (label_of u) p ltac:(lia) ltac:(lia) ltac:(lia) Hf) as Hle.
    specialize (Hle ltac:(exists (x :: l'); right; done)). lia. }
  assert (∀ t, (whole u → whole t) → ¬ forkable shape m t → ¬ forkable shape N u) as Hnot.
  { intros t Ht Hnf Hfk. apply Hnf. by apply (forkable_mono shape N m) with (3 := Hfk); [lia|]. }
  destruct x; cbn [negb]; unfold two.
  - destruct (fork_shows shape (Label.head lab (len p)) st m p cf ck (TLeaf k' (behind shape e v)) (with_label l' u)
      (label_lawful _ Hokh) Hrun) as [Hc|[Hfail Hnf]]; [lia|lia|done..|by left|right].
    split; [done|]. right. eapply Hnot; [|exact Hnf]. cbn [whole]. rewrite whole_with_label. tauto.
  - destruct (fork_shows shape (Label.head lab (len p)) st m p ck cf (with_label l' u) (TLeaf k' (behind shape e v))
      (label_lawful _ Hokh) Hrun) as [Hc|[Hfail Hnf]]; [lia|lia|done..|by left|right].
    split; [done|]. right. eapply Hnot; [|exact Hnf]. cbn [whole]. rewrite whole_with_label. tauto.
Qed.

(** ** [set] *)

Lemma bottom_spec st N m d u lab key' r e v :
  shows st m d u → cell_wf d → m <= N → N <= MAX_BITS → label_ok lab → lbits lab = label_of u →
  len key' = m → ends u key' r → extra_ok e → storable v →
  let entry := MkDictEntry e (builder_of v) in
  let outcome := match r with
                 | Some at' => split shape d lab at' m key' entry
                 | None => leaf shape key' entry m
                 end in
  (∃ c u', outcome = Ok c ∧ cell_wf c ∧ shows st m c u' ∧ (whole u ↔ whole u') ∧
    ∀ k, tget u' k = if decide (k = key') then Found (behind shape e v) else tget u k) ∨
  is_ok outcome = false ∧ ((∃ m' k, m' <= m ∧ len k = m' ∧ ¬ fits m' k (extra_bits e ++ v.1) v.2) ∨ ¬ forkable shape N u).
Proof.
  intros Hs Hwf Hmn Hm Hok Hlb Hk He Ho Hv entry outcome. subst outcome.
  destruct He as [key v0|u p x l' k' Hh Hl].
  - pose proof (leaf_shows st m key e v Hk ltac:(lia) Ho Hv) as Hleaf. case_bool_decide.
    + left. destruct Hleaf as (c & Hc & Wc & Sc). exists c, (TLeaf key (behind shape e v)). do 3 (split; [done|]).
      split; [done|]. intros k. rewrite !tget_leaf. by repeat case_decide.
    + right. split; [done|]. left. by exists m, key.
  - pose proof (split_spec st N m d u lab p x l' k' e v Hs Hwf Hmn Hm Hok Hlb Hh Hl Hk Ho Hv) as Hsplit.
    cbv zeta in Hsplit. destruct Hsplit as [(c & Hc & Wc & Sc)|[Hfail [Hnf|Hnf]]].
    + left. eexists c, _. do 3 (split; [done|]). split.
      * rewrite whole_two, whole_with_label. cbn [whole]. tauto.
      * intros k. by apply tget_split.
    + right. split; [done|]. left. exists (m - len p - 1), k'. rewrite len_app, len_cons in Hk.
      pose proof (len_nonneg p). split; [lia|]. split; [lia|done].
    + right. split; [done|by right].
Qed.

(** ** [remove] *)

Lemma way_snoc st n c steps s frames m d :
  way st n c (steps ++ [s]) frames m d →
  ∃ frames' f m' d', frames = frames' ++ [f] ∧ way st n c steps frames' m' d' ∧
    way st m' d' [s] [f] m d.
Proof.
  revert n c frames. induction steps as [|s0 steps IH]; intros n c frames Hway.
  - inversion Hway; subst. match goal with Hrest : way _ _ _ [] _ _ _ |- _ => inversion Hrest; subst end.
    eexists [], _, n, c. split; [done|]. split; [apply way_here|done].
  - inversion Hway; subst. match goal with Hrest : way _ _ _ (steps ++ _) _ _ _ |- _ =>
      apply IH in Hrest as (frames' & g & m' & d' & -> & Hw1 & Hw2) end.
    eexists (_ :: frames'), g, m', d'. split; [done|]. split; [by eapply way_down|done].
Qed.

Lemma way_last st m' d' s f m d :
  way st m' d' [s] [f] m d → 0 <= m →
  m = m' - len (f_label f) - 1 ∧
  ∃ fm pb ca cb, s = MkStep d' (st_label s) m' (b2z (f_branch f)) ∧ label_ok (st_label s) ∧
    lbits (st_label s) = f_label f ∧ form_ok fm (f_label f) ∧ len (f_label f) < m' <= MAX_BITS ∧
    Cell.bits d' = form_bits m' fm (f_label f) ++ pb ∧ Cell.refs d' = [ca; cb] ∧ cell_wf d' ∧
    shows st m (if f_branch f then ca else cb) (f_other f).
Proof.
  intros Hway Hm. inversion Hway; subst.
  match goal with Hrest : way _ _ _ [] _ _ _ |- _ => inversion Hrest; subst end.
  simpl in *. split; [done|]. by eexists _, _, _, _.
Qed.

(** Joining the sibling that is left to the label of its parent. *)
Lemma collapse_spec st m' d' s f m d :
  way st m' d' [s] [f] m d → 0 <= m →
  let l := f_label f ++ negb (f_branch f) :: label_of (f_other f) in
  (∃ h, f_other f = THole h) ∧ collapse s = Err Pruned ∨
  (∀ h, f_other f ≠ THole h) ∧
  ((∃ c, collapse s = Ok c ∧ cell_wf c ∧ shows st m' c (with_label l (f_other f))) ∨
   is_ok (collapse s) = false ∧ len l <= m' ∧
   ∃ pb pr, carries shape (f_other f) pb ∧ len pr <= MAX_REFS ∧ ¬ fits m' l pb pr).
Proof.
  intros Hway Hm l. destruct (way_last _ _ _ _ _ _ _ Hway Hm)
    as (Em & fm & pb0 & ca & cb & -> & Hok & Hlb & Hf & Hl & Hb & Hr & Hwf & Hs).
  set (lab := st_label s) in *. cbn [st_label] in Hok, Hlb.
  destruct (two_refs d' ca cb (f_branch f) Hr Hwf) as (_ & R2 & Wa & Wb).
  unfold collapse. cbn [st_node st_branch st_label st_remaining]. rewrite R2. cbn [ok_or res_bind].
  set (cs := if f_branch f then ca else cb) in *. assert (cell_wf cs) as Ws by by subst cs; destruct (f_branch f).
  destruct (hole_cases (f_other f)) as [[h Eh]|Hh']; [left|right].
  { split; [by eexists|]. rewrite Eh in Hs. inversion Hs as [? ? ? Hx| |]; subst. by rewrite Hx. }
  split; [done|]. pose proof (len_nonneg (f_label f)).
  destruct (shows_node shape st m cs _ Hs Hh' Ws) as (fs & e & pb & pr & Hx & Hfs & Hls & Hbs & Hrs & _ & Hpay & Hmade).
  set (pb' := extra_bits e ++ pb) in *. clearbody pb'. clear pb. rename pb' into pb.
  rewrite Hx. replace (b2z (f_branch f) =? 0) with (negb (f_branch f)) by by destruct (f_branch f).
  pose proof (push_ok lab (negb (f_branch f)) Hok) as Hpush.
  pose proof (len_lbits lab Hok) as Hll. rewrite Hlb in Hll.
  destruct (Z.leb_spec MAX_BITS (l_len lab)); [lia|]. destruct Hpush as (lab1 & -> & Hok1 & Hlb1).
  unfold step_below. cbn [st_remaining st_label]. unfold Label.width. rewrite <- Hll, <- Em.
  destruct (read_node m cs fs (label_of (f_other f)) pb (S := Label) Label.new Ws) as (below & -> & Hokb & Hbb & _);
    [lia|done|done|done|]. cbn [sink_bits sink_ok label_lawful_sink] in Hbb, Hokb.
  pose proof (len_lbits below Hokb) as Hlbel. rewrite Hbb in Hlbel.
  pose proof (label_run_bits _ Hokb) as Hrb. rewrite Hbb in Hrb.
  pose proof (len_lbits lab1 Hok1) as Hl1. rewrite Hlb1, Hlb, len_app, len_one in Hl1.
  destruct (extend_ok below lab1) as (lab2 & -> & Hok2 & Hlb2);
    [by apply label_lawful|done|cbn [run_len label_run]; lia|].
  rewrite Hlb1, Hrb, Hlb, <- app_assoc in Hlb2. simpl in Hlb2. fold l in Hlb2.
  pose proof (label_run_bits _ Hok2) as Hr2. rewrite Hlb2 in Hr2.
  pose proof (len_lbits lab2 Hok2) as Hl2. rewrite Hlb2 in Hl2.
  assert (len l = len (f_label f) + 1 + len (label_of (f_other f))) as Hlenl
    by (unfold l; rewrite len_app, len_cons; lia).
  destruct (node_rest cs _ pb Ws Hbs) as (Wsl & Hsb & Hsr & Hsrem & Hroom).
  apply cell_wf_bit_len in Ws as Hbl. pose proof (len_nonneg (form_bits m fs (label_of (f_other f)))).
  pose proof (appends_slice _ Wsl ltac:(lia)) as Happ. rewrite Hsb, Hsr, Hrs in Happ.
  pose proof (built_node lab2 m' _ pb pr (label_lawful _ Hok2) ltac:(lia)
    ltac:(cbn [run_len label_run]; lia) Happ) as Hbuilt. rewrite Hr2 in Hbuilt.
  case_bool_decide as Hfit.
  - left. rewrite Hbuilt. apply Hmade; [lia|lia|done].
  - right. split; [done|]. split; [lia|]. exists pb, pr. split; [done|]. split; [|done].
    rewrite <- Hrs. apply len_refs_slice.
Qed.
End dict_walk.
