(* ===== verification/DictSpec.v ===== *)
(** What a dictionary promises: looking up, storing, removing and iterating against the
    map its cells stand for, first for any lawful shape over a root and a width, then
    for the operations of the plain dictionary. *)

From stdpp Require Import base list list_numbers numbers strings sorting.
From Stdlib Require Import ZArith Lia.
From S2P Require Import Prelude Errors Bits CellData CellHash CellModel CellSlice CellBuilder BuilderOps DictLabel Dict DictTree DictCells DictWalk.

Local Open Scope Z_scope.

#[local] Arguments uint_bits : simpl never.

(** ** Keys *)

Lemma key_of_spec key n :
  0 <= n →
  key_of key n = if 8 * len key <? n then Err (KeyLength (len key * 8) n) else Ok (bits_of key n).
Proof.
  intros Hn. unfold key_of. cbv zeta. unfold div_ceil.
  destruct (Z.ltb_spec (len key) ((n + 8 - 1) / 8)), (Z.ltb_spec (8 * len key) n); try done; exfalso; zdiv.
Qed.

Lemma key_of_packed k : key_of (packed k) (len k) = Ok k.
Proof.
  pose proof (len_nonneg k). rewrite key_of_spec, len_packed by lia. unfold div_ceil.
  destruct (Z.ltb_spec (8 * ((len k + 8 - 1) / 8)) (len k)); [exfalso; zdiv|]. by rewrite bits_of_packed.
Qed.

(** ** Dictionaries that stand for a map *)

Definition dget (ot : option tree) (key : list bool) : Lookup value :=
  match ot with None => Absent | Some t => tget t key end.

Definition owhole (ot : option tree) : Prop := match ot with None => True | Some t => whole t end.

(** A value short enough to stand under a label of the whole key. *)
Definition spacious (n : Z) (v : value) : Prop := 2 + bounded_width n + n + len v.1 <= MAX_BITS.

(** What the end of a walk says of the key. *)
Lemma ends_get u key r :
  ends u key r → match r with None => ∃ v, tget u key = Found v | Some _ => tget u key = Absent end.
Proof.
  intros [key' v|u' p x l' k' Hh Hl].
  - exists v. by rewrite tget_leaf, decide_True.
  - destruct u' as [l v|l a b|c]; [| |by destruct (Hh c)]; simpl in *; subst;
      rewrite strip_prefix_app, strip_app; by destruct x.
Qed.

(** What storing and removing come to, over a root that may not be there: the text the
    dictionaries share. [None] out of a removal is a key that was not stored. *)
Section edits.
Context `{Hasher} (shape : Shape).

Definition store_at (root : option Cell) (key_bits : Z) (bits : list bool) (entry : Entry shape) : result CellError Cell :=
  match root with
  | None => leaf shape bits entry key_bits
  | Some root =>
      let? walk := descend shape root key_bits bits in
      let tail := rest bits (w_consumed walk) in
      let? bottom :=
        match w_diverged walk with
        | Some at' => split shape (w_node walk) (w_label walk) at' (w_remaining walk) tail entry
        | None => leaf shape tail entry (w_remaining walk)
        end in
      rebuild shape (w_path walk) bottom
  end.

Definition remove_at (root : option Cell) (key_bits : Z) (bits : list bool) : result CellError (option (option Cell)) :=
  match root with
  | None => Ok None
  | Some root =>
      let? walk := descend shape root key_bits bits in
      if bool_decide (is_Some (w_diverged walk)) then Ok None
      else
        match reverse (w_path walk) with
        | [] => Ok (Some None)
        | parent :: path =>
            let? child := collapse parent in
            res_map (λ root, Some (Some root)) (rebuild shape (reverse path) child)
        end
  end.
End edits.

Section dict_spec.
Context `{Hasher} (shape : Shape) `{!LawfulShape shape}.
Local Abbreviation shows := (shows shape).
Local Abbreviation forkable := (forkable shape).

(** A root, under keys of [n] bits, that spells a tree, or none. *)
Definition roots (st : bool) (root : option Cell) (n : Z) (ot : option tree) : Prop :=
  0 <= n <= MAX_BITS ∧
  match root, ot with
  | None, None => True
  | Some c, Some t => cell_wf c ∧ shows st n c t
  | _, _ => False
  end.

Definition oforkable (n : Z) (ot : option tree) : Prop :=
  match ot with None => True | Some t => forkable n t end.

Lemma spacious_fits n v m k :
  spacious n v → m <= n <= MAX_BITS → len k = m → len v.2 <= MAX_REFS → fits m k v.1 v.2.
Proof.
  intros Hs Hm Hk Hr. pose proof (len_nonneg k). split; [|done].
  pose proof (best_form_least m k FLong ltac:(lia) ltac:(lia) I) as Hle.
  rewrite (len_form_bits m FLong k ltac:(lia)) in Hle.
  pose proof (bounded_width_mono m n ltac:(lia)). unfold spacious in Hs. lia.
Qed.

Lemma lookup_root st root n ot bits :
  roots st root n ot → len bits = n →
  ∃ r, lookup shape root n bits = Ok r ∧ lookup_map (held shape) r = dget ot bits ∧
    ∀ x, r = Found x → extra_ok (fst x).
Proof.
  intros [Hn Hr] Hb. unfold lookup. destruct root as [c|], ot as [t|]; try done; [|by eexists]. destruct Hr as [Hwf Hs].
  destruct (lookup_spec shape st _ c t Hs Hwf ltac:(lia) (S (Z.to_nat n)) [] bits Label.new)
    as (r & Hl & Hmap); [done|lia|apply new_ok|]. by exists r.
Qed.

(** ** Storing *)

Lemma store_spec st root n ot bits e v :
  roots st root n ot → len bits = n → extra_ok e → storable v →
  let outcome := store_at shape root n bits (MkDictEntry e (builder_of v)) in
  (∃ c ot', outcome = Ok c ∧ roots st (Some c) n ot' ∧ (owhole ot → owhole ot') ∧ dget ot bits ≠ PrunedAway ∧
     ∀ k, dget ot' k = if decide (k = bits) then Found (behind shape e v) else dget ot k) ∨
  (outcome = Err Pruned ∧ dget ot bits = PrunedAway) ∨
  is_ok outcome = false ∧ dget ot bits ≠ PrunedAway ∧ (¬ spacious n (behind shape e v) ∨ ¬ oforkable n ot).
Proof.
  intros [Hn Hr] Hb He Hv outcome. subst outcome. pose proof Hv as (_ & Hvr & _).
  unfold store_at. destruct root as [c|], ot as [t|]; try done; cbn [dget].
  - destruct Hr as [Hwf Hs].
    destruct (descend_spec shape st _ c t Hs Hwf ltac:(lia) (S (Z.to_nat n)) [] [] bits Label.new)
      as [[-> Hd]|(steps & w & frames & u & key' & Hre & Hp & Hd)]; [done|lia|apply new_ok|..];
      change (len (A:=bool) []) with 0 in Hd; rewrite app_nil_l in Hd; unfold descend; rewrite Hd; [by right; left|].
    cbn [res_bind]. destruct Hre as [Hway Hsu Wu Hm Ht Hk Hlen Hlab Hlb Hc Hends]. rewrite app_nil_l in Hc, Hp.
    assert (rest bits (w_consumed w) = key') as -> by (rewrite Hc, Hk; apply rest_app).
    pose proof (len_nonneg key'). apply way_width in Hway as Hmn; [|lia].
    assert (tget t bits ≠ PrunedAway) as Hnp.
    { rewrite Ht, Hk, tget_plug. pose proof (ends_get _ _ _ Hends) as Hg. destruct (w_diverged w); [by rewrite Hg|by destruct Hg as [? ->]]. }
    assert (∀ u', (whole u ↔ whole u') → forkable n t → forkable n (plug frames u')) as Hplug.
    { intros u' Hu. apply forkable_mono; [lia|]. rewrite Ht, !whole_plug. tauto. }
    pose proof (bottom_spec shape st n _ _ u _ key' (w_diverged w) e v Hsu Wu Hmn ltac:(lia) Hlab Hlb Hlen Hends He Hv) as Hbot.
    cbv zeta in Hbot. destruct Hbot as [(cb & u' & -> & Wb & Sb & Hw & Hget)|[Hfail Hfit]].
    + cbn [res_bind]. rewrite Hp.
      destruct (rebuild_spec shape st n _ c steps frames _ _ Hway ltac:(lia) cb u' Wb Sb) as [(c' & -> & Wc & Sc)|[Hfail Hnf]].
      * left. exists c', (Some (plug frames u')). split; [done|]. split; [by split|]. split; [|split; [done|]].
        -- simpl. rewrite Ht, !whole_plug. tauto.
        -- intros k. cbn [dget]. rewrite Hk, Ht. by apply tget_plug_change.
      * right. right. split; [done|]. split; [done|]. right. intros Hfk. by apply Hnf, (Hplug u' Hw).
    + right. right. split; [by destruct (match w_diverged w with Some _ => _ | None => _ end)|]. split; [done|].
      destruct Hfit as [(m' & k & Hm' & Hlk & Hnf)|Hnf]; [left|right].
      * intros Hsp. apply Hnf. apply (spacious_fits n (behind shape e v)); [done|lia|done|done].
      * intros Hfk. apply Hnf. apply (forkable_mono shape n n t u); [lia| |done]. rewrite Ht, whole_plug. tauto.
  - pose proof (leaf_shows shape st n bits e v Hb ltac:(lia) He Hv) as Hleaf. case_bool_decide as Hf.
    + left. destruct Hleaf as (c & -> & Wc & Sc). eexists _, (Some (TLeaf bits (behind shape e v))). split; [done|].
      split; [by split|]. split; [done|]. split; [done|]. intros k. apply tget_leaf.
    + right. right. split; [done|]. split; [done|]. left. intros Hsp. apply Hf. apply (spacious_fits n (behind shape e v)); [done|lia|done|done].
Qed.

(** ** Removing *)

(** Nothing is pruned away and every value could stand under any label. *)
Definition roomy (n : Z) (ot : option tree) : Prop :=
  ∀ k, match dget ot k with Found v => spacious n v | Absent => True | PrunedAway => False end.

(** A join fails only where a pruned branch is in the way or the label has grown
    past what the sibling leaves room for. *)
Lemma join_room n m l (b : bool) frames v key u pb pr :
  0 <= m <= n → n <= MAX_BITS → (∀ h, u ≠ THole h) → len (l ++ negb b :: label_of u) <= m → carries shape u pb →
  len pr <= MAX_REFS → ¬ fits m (l ++ negb b :: label_of u) pb pr →
  forkable n (plug frames (two b (TLeaf key v) u l)) →
  ¬ roomy n (Some (plug frames (two b (TLeaf key v) u l))).
Proof.
  intros Hm Hn Hh Hl Hpb Hr Hnf Hfk Hroom. apply Hnf. split; [|done].
  pose proof (len_nonneg (l ++ negb b :: label_of u)).
  pose proof (best_form_least m (l ++ negb b :: label_of u) FLong ltac:(lia) ltac:(lia) I) as Hle.
  rewrite len_form_bits in Hle by lia. pose proof (bounded_width_mono m n ltac:(lia)).
  assert (∀ x k v', tget (two b (TLeaf key v) u l) (l ++ x :: k) = Found v' → spacious n v') as Hsp.
  { intros x k v' Hf. specialize (Hroom (frames_key frames ++ l ++ x :: k)). simpl in Hroom.
    by rewrite tget_plug, Hf in Hroom. }
  destruct u as [l' v'|l' a c|h]; [| |by destruct (Hh h)]; cbn [carries label_of] in *.
  - specialize (Hsp (negb b) l' v'). rewrite (proj2 (tget_two _ _ _ _ _)), tget_leaf, decide_True in Hsp by done.
    specialize (Hsp eq_refl). unfold spacious in Hsp. subst pb. lia.
  - destruct Hpb as (e & He & ->). destruct Hfk as [Hfree|(_ & Hsm & _)]; [|specialize (Hsm e He); lia].
    rewrite (proj1 (free_ok Hfree)). specialize (Hsp b key v). rewrite (proj1 (tget_two _ _ _ _ _)), tget_leaf, decide_True in Hsp by done.
    specialize (Hsp eq_refl). unfold spacious in Hsp. pose proof (len_nonneg v.1).
    change (len (A:=bool) []) with 0. lia.
Qed.

Lemma hole_not_roomy n frames l b t h : ¬ roomy n (Some (plug frames (two b t (THole h) l))).
Proof.
  intros Hroom. specialize (Hroom (frames_key frames ++ l ++ [negb b])). simpl in Hroom.
  by rewrite tget_plug, (proj2 (tget_two _ _ _ _ _)) in Hroom.
Qed.

Lemma drop_spec st root n ot bits :
  roots st root n ot → len bits = n →
  match dget ot bits with
  | PrunedAway => remove_at shape root n bits = Err Pruned
  | Absent => remove_at shape root n bits = Ok None
  | Found _ =>
      (∃ root' ot', remove_at shape root n bits = Ok (Some root') ∧ roots st root' n ot' ∧ (owhole ot → owhole ot') ∧
        ∀ k, dget ot' k = if decide (k = bits) then Absent else dget ot k) ∨
      is_ok (remove_at shape root n bits) = false ∧ ¬ (roomy n ot ∧ oforkable n ot)
  end.
Proof.
  intros [Hn Hr] Hb. unfold remove_at. destruct root as [c|], ot as [t|]; try done; cbn [dget oforkable].
  destruct Hr as [Hwf Hs].
  destruct (descend_spec shape st _ c t Hs Hwf ltac:(lia) (S (Z.to_nat n)) [] [] bits Label.new)
    as [[-> Hd]|(steps & w & frames & u & key' & Hre & Hp & Hd)]; [done|lia|apply new_ok|..];
    change (len (A:=bool) []) with 0 in Hd; rewrite app_nil_l in Hd; unfold descend; rewrite Hd; [done|]. cbn [res_bind].
  destruct Hre as [Hway Hsu Wu Hm Ht Hk Hlen Hlab Hlb Hc He]. rewrite app_nil_l in Hp. rewrite Hp.
  pose proof (ends_get _ _ _ He) as Hg. rewrite <- (tget_plug frames), <- Ht, <- Hk in Hg.
  destruct He as [key' v|u p x l' k' Hh Hl].
  2:{ by rewrite Hg, bool_decide_true by by eexists. }
  destruct Hg as [v' ->]. rewrite bool_decide_false by by intros [].
  pose proof (len_nonneg key').
  destruct steps as [|s steps _] using rev_ind.
  - left. inversion Hway; subst. eexists _, None. split; [done|]. split; [split; [lia|done]|].
    split; [done|]. intros k. cbn [dget plug]. rewrite tget_leaf. change (frames_key [] ++ key') with key'. by repeat case_decide.
  - rewrite reverse_snoc. apply way_snoc in Hway as (frames' & f & m' & d' & -> & Hway & Hlast).
    rewrite reverse_involutive. unfold frames_key in Hk. rewrite bind_app in Hk. simpl in Hk.
    rewrite app_nil_r, <- !app_assoc in Hk. fold (frames_key frames') in Hk. simpl in Hk.
    rewrite plug_app in Ht. simpl in Ht. apply way_width in Hlast as Hm2; [|lia]. apply way_width in Hway as Hm'; [|lia].
    destruct (collapse_spec shape _ _ _ _ _ _ _ Hlast ltac:(lia)) as [[[h Eh] ->]|[Hh Hcol]].
    { right. split; [done|]. intros [Hroom _]. rewrite Ht, Eh in Hroom. by apply hole_not_roomy in Hroom. }
    destruct Hcol as [(cj & -> & Wj & Sj)|(Hfail & Hll & pb & pr & Hpb & Hpr & Hnf)].
    + cbn [res_bind].
      destruct (rebuild_spec shape st n _ c steps frames' _ _ Hway ltac:(lia) cj _ Wj Sj) as [(c' & -> & Wc & Sc)|[Hfail Hnf]].
      * left. eexists _, (Some (plug frames' _)). split; [done|]. split; [by split|]. split.
        -- simpl. rewrite Ht, !whole_plug, whole_with_label, whole_two. tauto.
        -- intros k. cbn [dget]. rewrite Hk, Ht. apply tget_plug_change. intros k'. by apply tget_join.
      * right. split; [by destruct (rebuild _ _ _)|]. intros [_ Hfk]. apply Hnf. apply (forkable_mono shape n n t); [lia| |done].
        rewrite Ht, !whole_plug, whole_with_label, whole_two. tauto.
    + right. split; [by destruct (collapse s)|]. intros [Hroom Hfk]. rewrite Ht in Hroom, Hfk.
      by apply (join_room n m' _ _ _ _ _ _ pb pr) in Hroom; [|lia|lia|..].
Qed.

(** Whole trees that answer alike for every key of the width are one tree, and written by
    the dictionary it is one cell. *)
Lemma roots_unique root1 root2 n ot1 ot2 :
  roots true root1 n ot1 → roots true root2 n ot2 → owhole ot1 → owhole ot2 →
  (∀ k, len k = n → dget ot1 k = dget ot2 k) → root1 = root2.
Proof.
  assert (∀ root t, roots true root n (Some t) → whole t → ∃ k v, len k = n ∧ tget t k = Found v) as Hsome.
  { intros [c|] t [_ Hr] Hw; [|done]. destruct Hr as [_ Hs], (whole_found t Hw) as (k & v & Hk). exists k, v. split; [|done].
    by eapply tget_length; [eapply shows_wf| |]. }
  intros R1 R2 W1 W2 Hget. destruct root1 as [c1|], ot1 as [t1|], root2 as [c2|], ot2 as [t2|];
    try (by destruct R1); try (by destruct R2).
  - destruct R1 as [_ [_ S1]], R2 as [_ [_ S2]]. f_equal.
    assert (t1 = t2) as <-; [|by eapply shows_unique].
    apply tree_unique; [done..|]. intros k. destruct (decide (len k = n)); [by apply Hget|].
    rewrite !(tget_other_length n) by eauto using shows_wf. done.
  - destruct (Hsome _ t1 R1 W1) as (k & v & Hl & Hk). specialize (Hget k Hl). cbn [dget] in Hget. congruence.
  - destruct (Hsome _ t2 R2 W2) as (k & v & Hl & Hk). specialize (Hget k Hl). cbn [dget] in Hget. congruence.
Qed.

(** ** Iteration *)

Lemma data_bit_zeros size i : data_bit (replicate size 0) i = false.
Proof.
  unfold data_bit, get. destruct (_ <? 0); [done|].
  destruct (replicate size 0 !! Z.to_nat (i / 8)) eqn:E; [|done].
  apply lookup_replicate in E as [-> _]. unfold byte_bit. by rewrite Z.shiftr_0_l.
Qed.

(** Setting bits one by one in a run of zeros. *)
Lemma set_bits (f : Z → bool) size n :
  0 <= n <= 8 * Z.of_nat size →
  let out := fold_left (λ out index, if f index then data_or index out else out)
               (seqZ 0 n) (replicate size 0) in
  length out = size ∧ Forall is_byte out ∧
  ∀ i, 0 <= i → data_bit out i = if i <? n then f i else false.
Proof.
  intros Hn. rewrite <- (Z2Nat.id n) in * by lia. revert Hn. generalize (Z.to_nat n). clear n.
  induction n as [|n IH]; intros Hn; cbv zeta.
  - split; [apply length_replicate|]. split; [apply Forall_replicate; unfold is_byte; lia|].
    intros i Hi. rewrite (proj2 (Z.ltb_ge i _)) by lia. apply data_bit_zeros.
  - rewrite Nat2Z.inj_succ, <- Z.add_1_r, seqZ_snoc, fold_left_app by lia. cbn [fold_left].
    destruct IH as (Hl & Hb & Hd); [lia|]. set (out := fold_left _ _ _) in *.
    destruct (f (Z.of_nat n)) eqn:Ek.
    + split; [unfold data_or; by rewrite length_alter|]. split; [by apply data_or_bytes|].
      intros i Hi. rewrite data_bit_or, Hd; [|done| |done]; [|unfold len; lia].
      destruct (Z.eqb_spec i (Z.of_nat n)) as [->|].
      * rewrite orb_true_r. by rewrite (proj2 (Z.ltb_lt _ _)) by lia.
      * rewrite orb_false_r.
        destruct (Z.ltb_spec i (Z.of_nat n)), (Z.ltb_spec i (Z.of_nat n + 1)); try done; lia.
    + do 2 (split; [done|]). intros i Hi. rewrite Hd by done.
      destruct (Z.ltb_spec i (Z.of_nat n)), (Z.ltb_spec i (Z.of_nat n + 1)); try done; [lia|].
      by replace i with (Z.of_nat n) by lia.
Qed.

Lemma pack_label lab : label_ok lab → pack lab = packed (lbits lab).
Proof.
  intros Hok. pose proof (len_lbits lab Hok) as Hlen. pose proof (len_nonneg (lbits lab)).
  unfold pack. cbn [run_len run_bit label_run]. rewrite <- Hlen.
  pose proof (div_ceil_8 (len (lbits lab)) (len_nonneg _)).
  destruct (set_bits (Label.bit lab) (Z.to_nat (div_ceil (len (lbits lab)) 8)) (len (lbits lab)))
    as (Hl & Hb & Hd); [unfold div_ceil in *; zdiv|].
  apply packed_unique; [|done|].
  - unfold len at 1. rewrite Hl. rewrite Z2Nat.id; [done|]. unfold div_ceil. zdiv.
  - intros i Hi. rewrite Hd by done. destruct (Z.ltb_spec i (len (lbits lab))); [by apply label_bit|].
    symmetry. by apply nth_bit_past.
Qed.

(** What each pending node has still to yield. *)
Inductive pending (st : bool) : list Pending → list (result CellError (list bool * value)) → Prop :=
| pending_nil : pending st [] []
| pending_cons n c prefix t stack es :
    shows st n c t → cell_wf c → label_ok prefix → len (lbits prefix) + n <= MAX_BITS →
    pending st stack es →
    pending st ((c, prefix, n) :: stack) (entries (lbits prefix) t ++ es).

(** What a round of the iterator gives for the next entry, and where it leaves
    the stack. *)
Definition yields (st : bool) (outcome : result CellError (option (list Z * Extra shape * DictEntry)) * list Pending)
    (es : list (result CellError (list bool * value))) : Prop :=
  match es with
  | [] => outcome = (Ok None, [])
  | Ok (k, v) :: es' =>
      ∃ e entry stack, outcome = (Ok (Some (packed k, e, entry)), stack) ∧ held shape (e, entry) = v ∧ extra_ok e ∧
        entry_wf entry ∧ pending st stack es'
  | Err e :: _ => fst outcome = Err e
  end.

Lemma push_children (c : Cell) ca cb (below : Z) stack lab :
  Cell.refs c = [ca; cb] → label_ok lab → len (lbits lab) < MAX_BITS →
  ∃ l0 l1, label_ok l0 ∧ label_ok l1 ∧ lbits l0 = lbits lab ++ [false] ∧ lbits l1 = lbits lab ++ [true] ∧
    st_for [1; 0] (λ branch, λ stack,
      match ok_or (Cell.reference c branch) NO_BRANCH with
      | Err e => (Err e, stack)
      | Ok child =>
          match Label.push (branch =? 1) lab with
          | (Err e, _) => (Err e, stack)
          | (Ok _, key) => (Ok tt, (child, key, below) :: stack)
          end
      end) stack = (Ok tt, (ca, l0, below) :: (cb, l1, below) :: stack).
Proof.
  intros Hr Hok Hl. rewrite len_lbits in Hl by done.
  pose proof (push_ok lab false Hok) as H0. pose proof (push_ok lab true Hok) as H1.
  destruct (Z.leb_spec MAX_BITS (l_len lab)); [lia|].
  destruct H0 as (l0 & E0 & Ok0 & B0), H1 as (l1 & E1 & Ok1 & B1).
  exists l0, l1. do 4 (split; [done|]). cbn [st_for]. unfold Cell.reference. rewrite Hr.
  change (get [ca; cb] 1) with (Some cb). change (get [ca; cb] 0) with (Some ca). cbn [ok_or].
  change (1 =? 1) with true. change (0 =? 1) with false.
  erewrite st_bind_ok by by rewrite E1. erewrite st_bind_ok by by rewrite E0. done.
Qed.

Lemma walk_loop_spec st n c t :
  shows st n c t → cell_wf c →
  ∀ fuel prefix stack es, (Z.to_nat n < fuel)%nat → label_ok prefix → len (lbits prefix) + n <= MAX_BITS →
  pending st stack es →
  yields st (walk_loop fuel shape ((c, prefix, n) :: stack)) (entries (lbits prefix) t ++ es).
Proof.
  induction 1 as [n c Hn Hx|n c f e l q v Hx Hf Hl He Hv Hb Hr Hst|n c f e l ca cb a b Hx Hf Hl He Hb Hr Hst Ha IHa Hbb IHb];
    intros Hwf [|fuel] prefix stack es Hfuel Hok Hm Hes; try lia; cbn [walk_loop]; rewrite Hx.
  { done. }
  all: assert (∃ pb, Cell.bits c = form_bits n f l ++ pb) as [pb Hpb]
    by first [by exists v.1|by exists (extra_bits e)].
  all: pose proof (len_nonneg l); pose proof (len_nonneg (lbits prefix)).
  all: destruct (read_node n c f l pb (S := Label) Label.new Hwf) as (lab & -> & Hokl & Hbl & _);
    [lia|lia|done|done|]; cbn [sink_bits sink_ok label_lawful_sink] in Hbl, Hokl.
  all: pose proof (len_lbits lab Hokl) as Hll; rewrite Hbl in Hll.
  all: pose proof (len_lbits prefix Hok) as Hlp.
  all: destruct (extend_ok lab prefix (label_lawful _ Hokl) Hok) as (key & -> & Hokk & Hbk);
    [cbn [run_len label_run]; lia|]; rewrite label_run_bits, Hbl in Hbk by done.
  - rewrite (proj2 (Z.eqb_eq _ _)) by lia. destruct (read_leaf shape c _ e q v Hwf Hb Hr He Hv) as (s & -> & Hh & He').
    cbn [entries app yields]. eexists e, _, stack. split; [by rewrite pack_label, Hbk|]. done.
  - rewrite (proj2 (Z.eqb_neq _ _)) by lia. unfold Label.width. cbv zeta. rewrite <- Hll.
    destruct (push_children c ca cb (n - len l - 1) stack key Hr Hokk) as (l0 & l1 & O0 & O1 & B0 & B1 & E);
      [rewrite Hbk, len_app; lia|].
    erewrite st_bind_ok by exact E.
    destruct (two_refs c ca cb false Hr Hwf) as (_ & _ & Wa & Wb).
    cbn [entries]. rewrite <- (app_assoc (entries _ a)).
    assert (lbits l0 = lbits prefix ++ l ++ [false]) as B0' by by rewrite B0, Hbk, <- app_assoc.
    assert (lbits l1 = lbits prefix ++ l ++ [true]) as B1' by by rewrite B1, Hbk, <- app_assoc.
    rewrite <- B0', <- B1'. apply IHa; [done|lia|done|rewrite B0', !len_app; change (len [false]) with 1; lia|].
    apply pending_cons; [done..|rewrite B1', !len_app; change (len [true]) with 1; lia|done].
Qed.

Lemma walk_step_spec st stack es : pending st stack es → yields st (walk_step shape stack) es.
Proof.
  intros [|n c prefix t stack' es' Hs Hwf Hok Hm Hes]; [done|]. cbn [walk_step].
  apply walk_loop_spec; [done|done|lia|done|done|done].
Qed.

(** The entries of a dictionary, in the order the iterator meets them. *)
Definition dentries (ot : option tree) : list (result CellError (list bool * value)) :=
  match ot with None => [] | Some t => entries [] t end.

Lemma pending_root st root n ot :
  roots st root n ot →
  pending st (match root with Some root => [(root, Label.new, n)] | None => [] end) (dentries ot).
Proof.
  intros [Hn Hr]. unfold dentries. destruct root as [c|], ot as [t|]; try done.
  - destruct Hr as [Hwf Hs]. rewrite <- (app_nil_r (entries [] t)). destruct new_ok as [Hok Hb].
    rewrite <- Hb. apply pending_cons; [done..| |constructor]. rewrite Hb. change (len (A:=bool) []) with 0. lia.
  - constructor.
Qed.
End dict_spec.

(** ** The plain dictionary *)

Section plain.
Context `{Hasher}.

Definition represents (st : bool) (d : Dict) (ot : option tree) : Prop :=
  roots Plain st (d_root d) (d_key_bits d) ot.

Lemma held_plain x : held Plain x = entry_value (snd x).
Proof. unfold held, behind. by destruct (entry_value x.2). Qed.

Lemma behind_plain (e : Extra Plain) v : behind Plain e v = v.
Proof. by destruct v. Qed.

Lemma forkable_plain n ot : oforkable Plain n ot.
Proof. destruct ot; [by left|done]. Qed.

Lemma get_spec st d ot key :
  represents st d ot →
  if 8 * len key <? d_key_bits d
  then Dict.get d key = Err (KeyLength (len key * 8) (d_key_bits d))
  else ∃ r, Dict.get d key = Ok r ∧
    lookup_map entry_value r = dget ot (bits_of key (d_key_bits d)).
Proof.
  intros Hr. pose proof Hr as [Hn _]. unfold Dict.get. rewrite key_of_spec by lia.
  destruct (Z.ltb_spec (8 * len key) (d_key_bits d)); [done|]. cbn [res_bind].
  destruct (lookup_root Plain st _ _ ot (bits_of key (d_key_bits d)) Hr) as (r & -> & <- & _); [apply len_bits_of; lia|].
  cbn [res_bind]. eexists. split; [done|]. destruct r as [x| |]; [|done..]. cbn [lookup_map]. by rewrite held_plain.
Qed.

Lemma set_spec st d ot key v :
  represents st d ot → storable v → d_key_bits d <= 8 * len key →
  let bits := bits_of key (d_key_bits d) in
  match dget ot bits with
  | PrunedAway => Dict.set key (builder_of v) d = (Err Pruned, d)
  | _ =>
      (∃ d' ot', Dict.set key (builder_of v) d = (Ok tt, d') ∧ d_key_bits d' = d_key_bits d ∧
        represents st d' ot' ∧ (owhole ot → owhole ot') ∧
        ∀ k, dget ot' k = if decide (k = bits) then Found v else dget ot k) ∨
      (∃ e, Dict.set key (builder_of v) d = (Err e, d)) ∧ ¬ spacious (d_key_bits d) v
  end.
Proof.
  intros Hr Hv Hkey bits. pose proof Hr as [Hn _].
  assert (Dict.set key (builder_of v) d =
    match store_at Plain (d_root d) (d_key_bits d) bits (MkDictEntry (shape := Plain) tt (builder_of v)) with
    | Ok root => (Ok tt, MkDict (Some root) (d_key_bits d)) | Err e => (Err e, d) end) as ->.
  { unfold Dict.set. rewrite key_of_spec by lia. by rewrite (proj2 (Z.ltb_ge _ _)) by lia. }
  assert (len bits = d_key_bits d) as Hb by (apply len_bits_of; lia).
  destruct (store_spec Plain st _ _ ot bits tt v Hr Hb I Hv) as [(c & ot' & -> & Hr' & Hw & Hnp & Hg)|[[-> ->]|(Hfail & Hnp & Hwhy)]]; [|done|].
  - rewrite behind_plain in Hg. destruct (dget ot bits); [left|left|done]; by eexists _, ot'.
  - rewrite behind_plain in Hwhy. destruct Hwhy as [Hns|Hnf]; [|by destruct Hnf; apply forkable_plain].
    destruct (store_at _ _ _ _ _); [done|]. destruct (dget ot bits); [right; eauto|right; eauto|done].
Qed.

Lemma remove_spec st d ot key :
  represents st d ot → d_key_bits d <= 8 * len key →
  let bits := bits_of key (d_key_bits d) in
  match dget ot bits with
  | PrunedAway => Dict.remove key d = (Err Pruned, d)
  | Absent => Dict.remove key d = (Ok false, d)
  | Found _ =>
      (∃ d' ot', Dict.remove key d = (Ok true, d') ∧ d_key_bits d' = d_key_bits d ∧
        represents st d' ot' ∧ (owhole ot → owhole ot') ∧
        ∀ k, dget ot' k = if decide (k = bits) then Absent else dget ot k) ∨
      (∃ e, Dict.remove key d = (Err e, d)) ∧ ¬ roomy (d_key_bits d) ot
  end.
Proof.
  intros Hr Hkey bits. pose proof Hr as [Hn _].
  assert (Dict.remove key d =
    match remove_at Plain (d_root d) (d_key_bits d) bits with
    | Ok None => (Ok false, d) | Ok (Some root) => (Ok true, MkDict root (d_key_bits d)) | Err e => (Err e, d) end) as ->.
  { unfold Dict.remove. rewrite key_of_spec by lia. rewrite (proj2 (Z.ltb_ge _ _)) by lia.
    unfold remove_at. destruct (d_root d) as [c|]; [|done]. fold bits. destruct (descend _ _ _ _) as [w|]; [|done]. cbn [res_bind].
    destruct (bool_decide _); [done|]. destruct (reverse (w_path w)); [done|]. destruct (collapse _); [|done]. cbn [res_bind].
    by destruct (rebuild _ _ _). }
  pose proof (drop_spec Plain st _ _ ot bits Hr ltac:(apply len_bits_of; lia)) as Hd.
  destruct (dget ot bits) as [v| |]; [|by rewrite Hd..].
  destruct Hd as [(root' & ot' & -> & Hr' & Hw & Hg)|[Hfail Hwhy]]; [left; by eexists _, ot'|right].
  destruct (remove_at _ _ _ _); [done|]. split; [by eexists|]. intros Hroom. apply Hwhy. split; [done|]. apply forkable_plain.
Qed.

(** An entry an iterator yields, its key and value as bits. *)
Definition seen (item : result CellError (list Z * DictEntry)) : result CellError (list Z * value) :=
  res_map (λ '(key, entry), (key, entry_value entry)) item.

Definition expected (e : result CellError (list bool * value)) : result CellError (list Z * value) :=
  res_map (λ '(key, v), (packed key, v)) e.

Lemma collect_spec st stack es fuel :
  pending Plain st stack es → (length es < fuel)%nat →
  seen <$> Dict.collect fuel (MkIter stack false) = expected <$> until_err es.
Proof.
  revert stack es. induction fuel as [|fuel IH]; intros stack es Hp Hf; [lia|]. cbn [Dict.collect].
  apply walk_step_spec in Hp. unfold Dict.next. cbn [i_done i_stack].
  destruct es as [|[[k v]|e] es]; cbn [yields until_err] in *.
  - by rewrite Hp.
  - destruct Hp as (e & entry & stack' & -> & Hv & _ & _ & Hp'). rewrite held_plain in Hv. cbn [snd] in Hv. cbn [fmap list_fmap seen expected res_map].
    rewrite Hv. f_equal. apply IH; [done|simpl in Hf; lia].
  - destruct (walk_step Plain stack) as [r stack']. simpl in Hp. subst r.
    cbn [fmap list_fmap seen expected res_map]. f_equal. by destruct fuel.
Qed.

Lemma iter_pending st d ot : represents st d ot → pending Plain st (i_stack (Dict.iter d)) (dentries ot).
Proof. apply pending_root. Qed.
End plain.
