(* ===== verification/DictTheorems.v ===== *)
(** The plain dictionary's guarantees: lookups see exactly what was stored and
    removed, the cells depend on the contents alone, iteration is complete and
    in order, and no walk runs on past the key. *)

From stdpp Require Import base list list_numbers numbers strings sorting.
From Stdlib Require Import ZArith Lia.
From S2P Require Import Prelude Errors Bits CellData CellHash CellModel CellCheck CellSlice CellBuilder BuilderOps DictLabel Dict DictTree DictCells DictWalk DictSpec.

Local Open Scope Z_scope.

#[local] Arguments uint_bits : simpl never.

Section theorems.
Context `{Hasher}.

(** What a caller of [get] sees: the value's bits and references. *)
Definition contents (d : Dict) (key : list Z) : result CellError (Lookup value) :=
  res_map (lookup_map entry_value) (Dict.get d key).

Lemma contents_spec st d ot key :
  represents st d ot →
  contents d key =
    if 8 * len key <? d_key_bits d then Err (KeyLength (len key * 8) (d_key_bits d))
    else Ok (dget ot (bits_of key (d_key_bits d))).
Proof.
  intros Hr. pose proof (get_spec st d ot key Hr) as Hg. unfold contents.
  destruct (_ <? _); [by rewrite Hg|]. destruct Hg as (r & -> & <-). done.
Qed.

Lemma contents_packed st d ot k :
  represents st d ot → len k = d_key_bits d → contents d (packed k) = Ok (dget ot k).
Proof.
  intros Hr Hk. rewrite (contents_spec st d ot), <- Hk, bits_of_packed, len_packed by done.
  pose proof (div_ceil_8 (len k) (len_nonneg k)). by rewrite (proj2 (Z.ltb_ge _ _)) by (unfold div_ceil in *; zdiv).
Qed.

Lemma contents_short st d ot key :
  represents st d ot → 8 * len key < d_key_bits d → contents d key = Err (KeyLength (len key * 8) (d_key_bits d)).
Proof. intros Hr Hk. rewrite (contents_spec st d ot) by done. by rewrite (proj2 (Z.ltb_lt _ _)). Qed.

(** An edit of a dictionary; one that fails leaves what it left behind. *)
Inductive edit : Type :=
| Put (key : list Z) (v : value)
| Drop (key : list Z).

Definition apply_edit (d : Dict) (e : edit) : Dict :=
  match e with
  | Put key v => snd (Dict.set key (builder_of v) d)
  | Drop key => snd (Dict.remove key d)
  end.

Definition edit_ok (e : edit) : Prop := match e with Put _ v => storable v | Drop _ => True end.

Lemma short_key_set st d ot key b :
  represents st d ot → 8 * len key < d_key_bits d →
  Dict.set key b d = (Err (KeyLength (len key * 8) (d_key_bits d)), d) ∧
  Dict.remove key d = (Err (KeyLength (len key * 8) (d_key_bits d)), d).
Proof.
  intros [Hn _] Hk. unfold Dict.set, Dict.remove. rewrite key_of_spec by lia.
  by rewrite (proj2 (Z.ltb_lt _ _)) by lia.
Qed.

Lemma apply_edit_represents st d ot e :
  represents st d ot → edit_ok e →
  ∃ ot', represents st (apply_edit d e) ot' ∧ (owhole ot → owhole ot') ∧
    d_key_bits (apply_edit d e) = d_key_bits d.
Proof.
  intros Hr Hok. destruct e as [key v|key]; cbn [apply_edit edit_ok] in *;
    (destruct (Z.ltb_spec (8 * len key) (d_key_bits d));
     [destruct (short_key_set st d ot key (builder_of (default ([], []) None)) Hr ltac:(done)) as [_ Hrem]|]).
  - destruct (short_key_set st d ot key (builder_of v) Hr ltac:(done)) as [-> _]. by exists ot.
  - pose proof (set_spec st d ot key v Hr Hok ltac:(lia)) as Hs. cbv zeta in Hs.
    destruct (dget ot _); [..|rewrite Hs; by exists ot];
      destruct Hs as [(d' & ot' & -> & Hb & Hr' & Hw & _)|[[e ->] _]]; [by exists ot'|by exists ot|by exists ot'|by exists ot].
  - rewrite Hrem. by exists ot.
  - pose proof (remove_spec st d ot key Hr ltac:(lia)) as Hs. cbv zeta in Hs.
    destruct (dget ot _); [|rewrite Hs; by exists ot..].
    destruct Hs as [(d' & ot' & -> & Hb & Hr' & Hw & _)|[[e ->] _]]; [by exists ot'|by exists ot].
Qed.

Lemma edits_represent st d ot es :
  represents st d ot → Forall edit_ok es →
  ∃ ot', represents st (fold_left apply_edit es d) ot' ∧ (owhole ot → owhole ot') ∧
    d_key_bits (fold_left apply_edit es d) = d_key_bits d.
Proof.
  revert d ot. induction es as [|e es IH]; intros d ot Hr Hes; [by exists ot|].
  apply Forall_cons in Hes as [He Hes]. cbn [fold_left].
  destruct (apply_edit_represents st d ot e Hr He) as (ot1 & Hr1 & Hw1 & Hb1).
  destruct (IH _ ot1 Hr1 Hes) as (ot2 & Hr2 & Hw2 & Hb2). exists ot2. rewrite Hb2. auto.
Qed.

(** Dictionaries the library wrote that answer alike for every key are the same. *)
Lemma represents_unique d1 d2 ot1 ot2 :
  represents true d1 ot1 → represents true d2 ot2 → owhole ot1 → owhole ot2 →
  d_key_bits d1 = d_key_bits d2 → (∀ key, contents d1 key = contents d2 key) → d1 = d2.
Proof.
  intros R1 R2 W1 W2 Hn Heq. assert (d_root d1 = d_root d2) as Hroot.
  { unfold represents in R2. rewrite <- Hn in R2. apply (roots_unique Plain _ _ _ _ _ R1 R2 W1 W2).
    intros k Hk. specialize (Heq (packed k)).
    rewrite (contents_packed true d1 ot1), (contents_packed true d2 ot2) in Heq by (done || congruence || by split; rewrite <- ?Hn; apply R2). congruence. }
  destruct d1, d2. simpl in *. congruence.
Qed.

(** The contents after a removal that found its key. *)
Lemma remove_found st d ot key v :
  represents st d ot → d_key_bits d <= 8 * len key →
  dget ot (bits_of key (d_key_bits d)) = Found v →
  (∃ d', Dict.remove key d = (Ok true, d') ∧ (∃ ot', represents st d' ot') ∧ d_key_bits d' = d_key_bits d ∧
    ∀ key', contents d' key' =
      if (d_key_bits d <=? 8 * len key') && bool_decide (bits_of key' (d_key_bits d) = bits_of key (d_key_bits d))
      then Ok Absent else contents d key') ∨
  (∃ e, Dict.remove key d = (Err e, d)) ∧ ¬ roomy (d_key_bits d) ot.
Proof.
  intros Hr Hk Hf. pose proof (remove_spec st d ot key Hr Hk) as Hs. cbv zeta in Hs. rewrite Hf in Hs.
  destruct Hs as [(d' & ot' & Hd & Hb & Hr' & _ & Hget)|Herr]; [left|by right].
  exists d'. split; [done|]. split; [by eexists|]. split; [done|]. intros key'.
  rewrite (contents_spec st d' ot'), (contents_spec st d ot), Hb by done.
  destruct (Z.ltb_spec (8 * len key') (d_key_bits d)), (Z.leb_spec (d_key_bits d) (8 * len key'));
    try lia; [done|]. cbn [andb]. rewrite Hget. by case_decide; case_bool_decide.
Qed.

(** The first entry of a whole dictionary. *)
Lemma min_spec st d ot :
  represents st d ot → owhole ot →
  match ot with
  | None => Dict.min d = Ok None
  | Some t =>
      ∃ k v entry, Dict.min d = Ok (Some (packed k, entry)) ∧ entry_value entry = v ∧
        tget t k = Found v ∧ ∀ k' v', tget t k' = Found v' → k' = k ∨ bits_lt k k'
  end.
Proof.
  intros Hr Hw. pose proof (walk_step_spec Plain st _ _ (iter_pending st d ot Hr)) as Hy.
  unfold Dict.min, Dict.next. change (i_done (Dict.iter d)) with false. cbv iota.
  destruct ot as [t|]; cbn [dentries] in Hy; [|by rewrite Hy].
  destruct (entries_sorted [] t Hw) as (kvs & Hk & Hs & _).
  destruct (whole_found t Hw) as (k0 & v0 & H0). apply (entries_tget [] t k0 v0) in H0. rewrite Hk in Hy, H0.
  destruct kvs as [|[k v] kvs]; [by apply elem_of_nil in H0|].
  destruct Hy as (e & entry & stack & -> & Hv & _). rewrite held_plain in Hv. cbn [snd] in Hv. exists k, v, entry. do 2 (split; [done|]).
  rewrite <- (entries_tget [] t k v), Hk. split; [by left|]. intros k' v' Hf.
  apply (entries_tget [] t k' v') in Hf. rewrite Hk in Hf.
  apply list_elem_of_fmap in Hf as ([k1 v1] & [= -> ->] & Hin). apply elem_of_cons in Hin as [[= -> _]|Hin]; [by left|].
  right. inversion Hs as [|? ? _ Hall]; subst. rewrite Forall_forall in Hall. apply Hall.
  apply list_elem_of_fmap. by exists (k1, v1).
Qed.

(** *** Every walk ends within the key *)

(** A label that reads is no wider than the key bits left. *)
Lemma label_within n c lab s lab' :
  cell_wf c → 0 <= n <= MAX_BITS → read_label_into n (Slice.new c, lab) = (Ok tt, (s, lab')) →
  0 <= l_len lab' <= n.
Proof.
  intros Hwf Hn Hr. apply read_label_inv in Hr as (f & l & _ & Hl & Hok & Hb & _); [|done|by apply slice_new_spec].
  cbn [sink_bits sink_ok label_lawful_sink] in *. rewrite <- (len_lbits lab' Hok), Hb.
  pose proof (len_nonneg l). lia.
Qed.

Lemma reference_wf c i r : cell_wf c → Cell.reference c i = Some r → cell_wf r.
Proof.
  intros Hwf%cell_wf_refs Hr. unfold Cell.reference, get in Hr. destruct (_ <? _); [done|].
  by eapply Forall_lookup_1.
Qed.

Lemma lookup_fuel shape bits f1 f2 c n consumed lab :
  cell_wf c → 0 <= n <= MAX_BITS → (Z.to_nat n < f1)%nat → (Z.to_nat n < f2)%nat →
  lookup_loop f1 shape bits c n consumed lab = lookup_loop f2 shape bits c n consumed lab.
Proof.
  revert f2 c n consumed lab. induction f1 as [|f1 IH]; intros [|f2] c n consumed lab Hwf Hn H1 H2; try lia.
  cbn [lookup_loop]. destruct (Cell.is_exotic c); [done|].
  destruct (read_label_into n (Slice.new c, lab)) as [[[]|e] [s lab']] eqn:Er; [|done].
  apply label_within in Er; [|done..]. destruct (diverges _ _); [done|]. cbv zeta. unfold Label.width.
  destruct (Z.eqb_spec (n - l_len lab') 0); [done|].
  destruct (Cell.reference c _) as [r|] eqn:Eref; [|done]. cbn [ok_or res_bind].
  apply IH; [by eapply reference_wf|lia..].
Qed.

Lemma descend_fuel shape bits f1 f2 path c n consumed lab :
  cell_wf c → 0 <= n <= MAX_BITS → (Z.to_nat n < f1)%nat → (Z.to_nat n < f2)%nat →
  descend_loop f1 shape bits path c n consumed lab = descend_loop f2 shape bits path c n consumed lab.
Proof.
  revert f2 path c n consumed lab.
  induction f1 as [|f1 IH]; intros [|f2] path c n consumed lab Hwf Hn H1 H2; try lia.
  cbn [descend_loop]. destruct (Cell.is_exotic c); [done|].
  destruct (read_label_into n (Slice.new c, lab)) as [[[]|e] [s lab']] eqn:Er; [|done].
  apply label_within in Er; [|done..]. cbv zeta. unfold Label.width.
  destruct (bool_decide _ || _) eqn:Eo; [done|].
  apply orb_false_iff in Eo as [_ Hne%Z.eqb_neq].
  destruct (fst (check_fork shape s)); [|done]. cbn [res_bind].
  destruct (Cell.reference c _) as [r|] eqn:Eref; [|done]. cbn [ok_or res_bind].
  apply IH; [by eapply reference_wf|lia..].
Qed.

(** *** Theorems *)

(** Over any cells that spell a dictionary, in whatever label forms and with
    branches pruned away or not, [get] answers what the tree says: the value
    under the key, that the key is absent, or that the answer was pruned away.
    A key too short is refused. *)
Theorem dict_get_refines st d ot key :
  represents st d ot →
  if 8 * len key <? d_key_bits d
  then Dict.get d key = Err (KeyLength (len key * 8) (d_key_bits d))
  else ∃ r, Dict.get d key = Ok r ∧
    match dget ot (bits_of key (d_key_bits d)), r with
    | Found v, Found e => entry_value e = v
    | Absent, Absent | PrunedAway, PrunedAway => True
    | _, _ => False
    end.
Proof.
  intros Hr. pose proof (get_spec st d ot key Hr) as Hg. destruct (_ <? _); [done|].
  destruct Hg as (r & Hr' & <-). exists r. split; [done|]. by destruct r.
Qed.

(** C11: after [set] succeeds, every key answers as before but the one stored,
    which answers with the value; [set] fails only where the key runs into a
    pruned branch or the value is too long to stand under a label of the whole
    key, and a failed [set] leaves the dictionary as it was. *)
Theorem dict_set_then_get st d ot key v :
  represents st d ot → storable v → d_key_bits d <= 8 * len key →
  match Dict.set key (builder_of v) d with
  | (Ok tt, d') =>
      (∃ ot', represents st d' ot') ∧ d_key_bits d' = d_key_bits d ∧
      ∀ key', contents d' key' =
        if (d_key_bits d <=? 8 * len key') && bool_decide (bits_of key' (d_key_bits d) = bits_of key (d_key_bits d))
        then Ok (Found v) else contents d key'
  | (Err _, d') =>
      d' = d ∧ (contents d key = Ok PrunedAway ∨ ¬ spacious (d_key_bits d) v)
  end.
Proof.
  intros Hr Hv Hk. pose proof (set_spec st d ot key v Hr Hv Hk) as Hs. cbv zeta in Hs.
  assert ((∃ d' ot', Dict.set key (builder_of v) d = (Ok tt, d') ∧ d_key_bits d' = d_key_bits d ∧
        represents st d' ot' ∧ (owhole ot → owhole ot') ∧
        ∀ k, dget ot' k = if decide (k = bits_of key (d_key_bits d)) then Found v else dget ot k) ∨
      (∃ e, Dict.set key (builder_of v) d = (Err e, d)) ∧
        (contents d key = Ok PrunedAway ∨ ¬ spacious (d_key_bits d) v)) as Hcases.
  { pose proof (contents_spec st d ot key Hr) as Hc. rewrite (proj2 (Z.ltb_ge _ _)) in Hc by lia.
    destruct (dget ot (bits_of key (d_key_bits d))); [tauto..|]. right. split; [by eexists|by left]. }
  destruct Hcases as [(d' & ot' & -> & Hb & Hr' & _ & Hget)|[[e ->] Hwhy]]; [|done].
  split; [by eexists|]. split; [done|]. intros key'.
  rewrite (contents_spec st d' ot'), (contents_spec st d ot), Hb by done.
  destruct (Z.ltb_spec (8 * len key') (d_key_bits d)), (Z.leb_spec (d_key_bits d) (8 * len key'));
    try lia; [done|]. cbn [andb]. rewrite Hget. by case_decide; case_bool_decide.
Qed.

(** C12: [remove] answers whether the key was there; after it every key answers as
    before but the one removed, which is absent. It fails only where a branch it
    must see is pruned away, or where joining the sibling's label to its
    parent's leaves no room for the sibling's value, and leaves the dictionary
    as it was. *)
Theorem dict_remove_then_get st d ot key :
  represents st d ot → d_key_bits d <= 8 * len key →
  match Dict.remove key d with
  | (Ok was, d') =>
      (∃ ot', represents st d' ot') ∧ d_key_bits d' = d_key_bits d ∧
      contents d key ≠ Ok PrunedAway ∧
      (was = true ↔ contents d key ≠ Ok Absent) ∧
      ∀ key', contents d' key' =
        if (d_key_bits d <=? 8 * len key') && bool_decide (bits_of key' (d_key_bits d) = bits_of key (d_key_bits d))
        then Ok Absent else contents d key'
  | (Err _, d') => d' = d ∧ ¬ roomy (d_key_bits d) ot
  end.
Proof.
  intros Hr Hk. pose proof (remove_spec st d ot key Hr Hk) as Hs. cbv zeta in Hs.
  pose proof (contents_spec st d ot key Hr) as Hc. rewrite (proj2 (Z.ltb_ge _ _)) in Hc by lia.
  destruct (dget ot (bits_of key (d_key_bits d))) as [v| |] eqn:Eg.
  - destruct (remove_found st d ot key v Hr Hk Eg) as [(d' & -> & Hr' & Hb & Hget)|[[e ->] Hwhy]]; [|done].
    by rewrite Hc.
  - rewrite Hs, Hc. split; [by eexists|]. do 2 (split; [done|]). split; [done|]. intros key'.
    destruct (Z.leb_spec (d_key_bits d) (8 * len key')); [|done]. cbn [andb].
    case_bool_decide as E; [|done]. rewrite (contents_spec st d ot), E, Eg by done.
    by rewrite (proj2 (Z.ltb_ge _ _)).
  - rewrite Hs. split; [done|]. intros Hroom. specialize (Hroom (bits_of key (d_key_bits d))). by rewrite Eg in Hroom.
Qed.

(** C10: a dictionary's cells depend on its contents alone. However two
    dictionaries were built from empty ones, by whatever stores and removals in
    whatever order, failed ones included, if they answer alike for every key they
    are the same cells, bit for bit. *)
Theorem dict_history_independent n d es1 es2 :
  0 <= n → Dict.new n = Ok d → Forall edit_ok es1 → Forall edit_ok es2 →
  (∀ key, contents (fold_left apply_edit es1 d) key = contents (fold_left apply_edit es2 d) key) →
  fold_left apply_edit es1 d = fold_left apply_edit es2 d.
Proof.
  intros Hn Hd H1 H2 Heq. assert (represents true d None) as Hr.
  { unfold Dict.new, Dict.from_root, check_key_bits in Hd.
    destruct (Z.ltb_spec MAX_BITS n); [done|]. injection Hd as <-. split; [simpl; lia|done]. }
  destruct (edits_represent true d None es1 Hr H1) as (ot1 & R1 & W1 & B1).
  destruct (edits_represent true d None es2 Hr H2) as (ot2 & R2 & W2 & B2).
  eapply represents_unique; [done|done|by apply W1|by apply W2|congruence|done].
Qed.

(** The iterator yields the entries in ascending order of key, each once,
    all of them and no others, as long as nothing is pruned away. *)
Theorem dict_iter_complete st d t fuel :
  represents st d (Some t) → whole t → (length (entries [] t) < fuel)%nat →
  ∃ kvs, seen <$> Dict.collect fuel (Dict.iter d) = (λ kv, Ok (packed kv.1, kv.2)) <$> kvs ∧
    StronglySorted bits_lt kvs.*1 ∧
    ∀ k v, len k = d_key_bits d → ((k, v) ∈ kvs ↔ contents d (packed k) = Ok (Found v)).
Proof.
  intros Hr Hw Hf. pose proof (iter_pending st d _ Hr) as Hp.
  destruct (entries_sorted [] t Hw) as (kvs & Hk & Hs & _). exists kvs.
  assert (Dict.iter d = MkIter (i_stack (Dict.iter d)) false) as -> by done.
  rewrite (collect_spec st _ _ fuel Hp Hf). cbn [dentries]. rewrite Hk, until_err_ok. split; [|split; [done|]].
  - rewrite <- list_fmap_compose. apply list_fmap_ext. by intros _ [k v] _.
  - intros k v Hlen. rewrite (contents_spec st d (Some t)) by done.
    pose proof (div_ceil_8 (len k) (len_nonneg k)).
    rewrite (proj2 (Z.ltb_ge _ _)) by (rewrite len_packed, <- Hlen; unfold div_ceil in *; zdiv).
    rewrite <- Hlen, bits_of_packed. cbn [dget]. split.
    + intros Hin. f_equal. apply (entries_tget [] t k v). rewrite Hk. apply list_elem_of_fmap. by eexists.
    + intros [=Hg]. apply (entries_tget [] t k v) in Hg. rewrite Hk in Hg.
      apply list_elem_of_fmap in Hg as (kv & [= <-] & Hin). done.
Qed.

(** Whatever cells a dictionary is read from, well-formed as a dictionary or
    not, and whichever kind of dictionary reads them, the walks to a key end: a
    round per key bit and one more is all they take, so the bound the model
    gives them changes nothing. *)
Theorem dict_walks_terminate shape root key_bits bits fuel :
  cell_wf root → 0 <= key_bits <= MAX_BITS → (Z.to_nat key_bits < fuel)%nat →
  lookup shape (Some root) key_bits bits = lookup_loop fuel shape bits root key_bits 0 Label.new ∧
  descend shape root key_bits bits = descend_loop fuel shape bits [] root key_bits 0 Label.new.
Proof. intros. split; [apply lookup_fuel|apply descend_fuel]; done || lia. Qed.

(** [take_min] takes out the entry whose key comes first, and every other key
    answers as before; on an empty dictionary there is nothing to take. *)
Theorem dict_take_min st d ot :
  represents st d ot → owhole ot →
  match Dict.take_min d with
  | (Ok None, d') => d' = d ∧ ∀ key, d_key_bits d <= 8 * len key → contents d key = Ok Absent
  | (Ok (Some (key, entry)), d') =>
      contents d key = Ok (Found (entry_value entry)) ∧
      (∀ k v, len k = d_key_bits d → contents d (packed k) = Ok (Found v) →
         packed k = key ∨ bits_lt (bits_of key (d_key_bits d)) k) ∧
      ∀ key', contents d' key' =
        if (d_key_bits d <=? 8 * len key') && bool_decide (bits_of key' (d_key_bits d) = bits_of key (d_key_bits d))
        then Ok Absent else contents d key'
  | (Err _, d') => d' = d ∧ ¬ roomy (d_key_bits d) ot
  end.
Proof.
  intros Hr Hw. pose proof (min_spec st d ot Hr Hw) as Hm. unfold Dict.take_min.
  destruct ot as [t|].
  2:{ rewrite Hm. split; [done|]. intros key Hk. rewrite (contents_spec st d None) by done.
      by rewrite (proj2 (Z.ltb_ge _ _)). }
  destruct Hm as (k & v & entry & -> & Hv & Hf & Hleast). pose proof Hr as [Hn Hroot].
  assert (len k = d_key_bits d) as Hlen.
  { destruct (d_root d); [|done]. destruct Hroot as [_ Hs]. by eapply tget_length; [eapply shows_wf| |]. }
  assert (bits_of (packed k) (d_key_bits d) = k) as Hbits by (rewrite <- Hlen; apply bits_of_packed).
  assert (d_key_bits d <= 8 * len (packed k)) as Hk.
  { rewrite len_packed. pose proof (div_ceil_8 (len k) (len_nonneg k)). unfold div_ceil in *. zdiv. }
  assert (∀ k', len k' = d_key_bits d → contents d (packed k') = Ok (tget t k')) as Hc.
  { intros k' Hk'. rewrite (contents_spec st d (Some t)), <- Hk', bits_of_packed by done.
    rewrite (proj2 (Z.ltb_ge _ _)); [done|]. rewrite len_packed.
    pose proof (div_ceil_8 (len k') (len_nonneg k')). unfold div_ceil in *. zdiv. }
  destruct (remove_found st d (Some t) (packed k) v Hr Hk) as [(d' & -> & _ & _ & Hget)|[[e ->] Hwhy]];
    [by rewrite Hbits| |done].
  split; [by rewrite Hc, Hf, Hv|]. split; [|done]. intros k' v' Hl Hc'. rewrite Hc in Hc' by done.
  injection Hc' as Hc'. rewrite Hbits. destruct (Hleast k' v' Hc') as [->|]; [by left|by right].
Qed.
End theorems.
