(* ===== verification/DictOps.v ===== *)
(** The rest of the plain dictionary: the bulk builder and rerooting of
    core/src/cell/dict.rs, the queries by position of dict/floor.rs, the integer
    keys of dict/typed.rs, and what dict/plain.rs makes of its iterator. *)

From stdpp Require Import base list list_numbers numbers strings sorting.
From Stdlib Require Import ZArith Lia.
From S2P Require Import Prelude Errors Bits CellData CellHash CellModel CellSlice CellBuilder DictLabel Dict Search.

Local Open Scope Z_scope.

(** ** dict.rs: building in bulk *)

(** [Ord] for [Vec<bool>] *)
Definition bits_cmp : list bool → list bool → comparison := list_compare Bool.compare.
Definition bits_le (a b : list bool) : Prop := bits_cmp a b ≠ Gt.

#[export] Instance bits_le_dec a b : Decision (bits_le a b).
Proof. unfold bits_le. apply _. Defined.

Definition BulkItem (E : Type) : Type := list bool * E * Builder.

Section build.
Context `{Hasher}.

(** [while shared < remaining]; a round per bit left is all it takes. *)
Fixpoint shared_loop (fuel : nat) (first last : list bool) (depth remaining shared : Z) : Z :=
  match fuel with
  | O => shared
  | S fuel' =>
      if shared <? remaining then
        let at' := depth + shared in
        if negb (bool_decide (get first at' = get last at')) then shared
        else shared_loop fuel' first last depth remaining (shared + 1)
      else shared
  end.

(** Each call spends a key bit at least, so one more round than bits left is enough. *)
Fixpoint build_run (fuel : nat) (shape : Shape) (items : list (BulkItem (Extra shape)))
    (depth remaining : Z) : result CellError Cell :=
  match fuel with
  | O => Err (Malformed "out of fuel")
  | S fuel' =>
      match head items, last items with
      | Some first, Some last =>
          let shared := shared_loop (Z.to_nat remaining) first.1.1 last.1.1 depth remaining 0 in
          if shared =? remaining
          then leaf shape (rest last.1.1 depth) (MkDictEntry last.1.2 last.2) remaining
          else
            let at' := depth + shared in
            let middle := partition_point (λ item, bool_decide (get item.1.1 at' = Some false)) items in
            let low := take (Z.to_nat middle) items in
            let high := drop (Z.to_nat middle) items in
            let below := remaining - shared - 1 in
            let? lhs := build_run fuel' shape low (at' + 1) below in
            let? rhs := build_run fuel' shape high (at' + 1) below in
            let label := default [] (get_range (rest first.1.1 depth) 0 shared) in
            fork shape label remaining below lhs rhs
      | _, _ => Err (Malformed "a dictionary node over no entries")
      end
  end.

Definition build_all (shape : Shape) (key_bits : Z) (items : list (list Z * Extra shape * Builder)) :
    result CellError (option Cell) :=
  let? _ := check_key_bits key_bits in
  let? sorted := res_fold (λ sorted '(key, extra, value),
    let? bits := key_of key key_bits in Ok (sorted ++ [(bits, extra, value)])) items [] in
  match sorted with
  | [] => Ok None
  | _ =>
      let sorted := sort_by (λ item : BulkItem (Extra shape), item.1.1) bits_le sorted in
      res_map Some (build_run (S (Z.to_nat key_bits)) shape sorted 0 key_bits)
  end.

(** ** dict.rs: rerooting *)

(** A round spends a bit of the prefix at least, but for the last. *)
Fixpoint reroot_loop (fuel : nat) (want : list bool) (node : Cell) (remaining matched : Z) (label : Label) :
    result CellError (option Cell) :=
  match fuel with
  | O => Err (Malformed "out of fuel")
  | S fuel' =>
      if Cell.is_exotic node then Err Pruned
      else
        let ahead := rest want matched in
        if bool_decide (ahead = []) then Ok (Some node)
        else
          match read_label_into remaining (Slice.new node, label) with
          | (Err e, _) => Err e
          | (Ok _, (slice, label)) =>
              let width := l_len label in
              if bool_decide (is_Some (diverges label ahead)) then Ok None
              else if len ahead <=? width then
                let new_max := remaining - wrap 16 (len ahead) in
                let? fresh := built (run! store_label (Label.tail label (len ahead)) new_max;
                                     Builder.store_slice slice) in
                Ok (Some fresh)
              else if width =? remaining then Ok None
              else
                let matched := matched + width in
                let branch := b2z (default false (head (rest want matched))) in
                let matched := matched + 1 in
                let? node := ok_or (Cell.reference node branch) NO_BRANCH in
                reroot_loop fuel' want node (remaining - (Label.width label + 1)) matched label
          end
  end.

Definition reroot (root : Cell) (key_bits : Z) (want : list bool) : result CellError (option Cell) :=
  reroot_loop (S (length want)) want root key_bits 0 Label.new.

(** ** plain.rs and floor.rs: what an iterator yields *)

(** How many nodes a walk over a cell can meet. *)
Fixpoint places (c : Cell) : nat :=
  match inner_refs c with
  | RNone => 1
  | ROne a => S (places a)
  | RTwo a b => S (places a + places b)
  | RThree a b c => S (places a + (places b + places c))
  | RFour a b c d => S (places a + (places b + (places c + places d)))
  end.

(** [for item in self]: everything the iterator yields, an item a node at most. *)
Definition items (self : Dict) : list (result CellError (list Z * DictEntry)) :=
  Dict.collect (S (match d_root self with Some root => places root | None => 0 end)) (Dict.iter self).

Definition count (self : Dict) : result CellError Z :=
  res_fold (λ n item, res_map (λ _, n + 1) item) (items self) 0.

(** [Option<Result>::transpose] *)
Definition transpose {A} (o : option (result CellError A)) : result CellError (option A) :=
  match o with None => Ok None | Some (Ok a) => Ok (Some a) | Some (Err e) => Err e end.

Definition max (self : Dict) : result CellError (option (list Z * DictEntry)) := transpose (last (items self)).

Definition take_max : stm Dict CellError (option (list Z * DictEntry)) := λ self,
  match max self with
  | Err e => (Err e, self)
  | Ok None => (Ok None, self)
  | Ok (Some (key, entry)) =>
      match Dict.remove key self with
      | (Err e, self) => (Err e, self)
      | (Ok _, self) => (Ok (Some (key, entry)), self)
      end
  end.

(** [retain]: the closure, which may change what it closes over, sees every entry
    first, and only then is anything removed. *)
Definition retain {S} (keep : list Z → DictEntry → S → bool * S) (s : S) : stm Dict CellError S := λ self,
  match res_fold (λ '(to_remove, s) item,
          let? '(key, entry) := item in
          let '(kept, s) := keep key entry s in
          Ok (if kept : bool then to_remove else to_remove ++ [key], s)) (items self) ([], s) with
  | Err e => (Err e, self)
  | Ok (to_remove, s) => (run! st_for to_remove (λ key, run! Dict.remove key; st_ret tt); st_ret s) self
  end.

End build.

Module floor.
Section floor.
Context `{Hasher}.

Definition from_items (key_bits : Z) (entries : list (list Z * Builder)) : result CellError Dict :=
  let entries := (λ '(key, value), (key, tt, value)) <$> entries in
  let? root := build_all Plain key_bits entries in
  Dict.from_root root key_bits.

Fixpoint at_or_after (key : list Z) (walk : list (result CellError (list Z * DictEntry))) :
    result CellError (option (list Z * DictEntry)) :=
  match walk with
  | [] => Ok None
  | item :: walk =>
      let? '(found, entry) := item in
      if bool_decide (bytes_le key found) then Ok (Some (found, entry)) else at_or_after key walk
  end.

Definition entry_at_or_after (self : Dict) (key : list Z) : result CellError (option (list Z * DictEntry)) :=
  at_or_after key (items self).

Fixpoint at_or_before (key : list Z) (floor : option (list Z * DictEntry))
    (walk : list (result CellError (list Z * DictEntry))) : result CellError (option (list Z * DictEntry)) :=
  match walk with
  | [] => Ok floor
  | item :: walk =>
      let? '(found, entry) := item in
      if bool_decide (bytes_le found key) then at_or_before key (Some (found, entry)) walk else Ok floor
  end.

Definition entry_at_or_before (self : Dict) (key : list Z) : result CellError (option (list Z * DictEntry)) :=
  at_or_before key None (items self).

Definition subdict (self : Dict) (prefix : list Z) (prefix_bits : Z) : result CellError Dict :=
  if d_key_bits self <? prefix_bits then Err (Malformed "dictionary prefix wider than the key")
  else
    let? want := key_of prefix prefix_bits in
    let narrower := d_key_bits self - prefix_bits in
    match d_root self with
    | Some root =>
        let? cell := reroot root (d_key_bits self) want in
        match cell with
        | Some cell => Dict.from_root (Some cell) narrower
        | None => Dict.new narrower
        end
    | None => Dict.new narrower
    end.
End floor.
End floor.

(** ** typed.rs *)

Module typed.
Definition key_width (key_bits : Z) : result CellError Z :=
  if negb (key_bits mod 8 =? 0)
  then Err (Malformed "an integer key needs a byte-aligned dictionary width")
  else Ok (key_bits / 8).

Definition uint_key (key key_bits : Z) : result CellError (list Z) :=
  let? width := key_width key_bits in
  let be := to_be_bytes 8 key in
  if len be <=? width then Ok (replicate (Z.to_nat (width - len be)) 0 ++ be)
  else
    let high := take (Z.to_nat (len be - width)) be in
    let low := drop (Z.to_nat (len be - width)) be in
    if existsb (λ byte, negb (byte =? 0)) high then Err (Malformed "key does not fit the dictionary width")
    else Ok low.

Definition int_key (key key_bits : Z) : result CellError (list Z) :=
  let? width := key_width key_bits in
  let be := to_be_bytes 8 (wrap 64 key) in
  let fill := if key <? 0 then 0xFF else 0x00 in
  if len be <=? width then Ok (replicate (Z.to_nat (width - len be)) fill ++ be)
  else
    let high := take (Z.to_nat (len be - width)) be in
    let low := drop (Z.to_nat (len be - width)) be in
    let fits_sign :=
      match head low with
      | Some top => Bool.eqb (negb (Z.land top 0x80 =? 0)) (key <? 0)
      | None => false
      end in
    if existsb (λ byte, negb (byte =? fill)) high || negb fits_sign
    then Err (Malformed "key does not fit the dictionary width")
    else Ok low.

Section typed.
Context `{Hasher}.

Definition get_uint (self : Dict) (key : Z) : result CellError (Lookup DictEntry) :=
  let? bytes := uint_key key (d_key_bits self) in Dict.get self bytes.
Definition set_uint (key : Z) (value : Builder) : stm Dict CellError unit := λ self,
  match uint_key key (d_key_bits self) with
  | Err e => (Err e, self)
  | Ok bytes => Dict.set bytes value self
  end.
Definition remove_uint (key : Z) : stm Dict CellError bool := λ self,
  match uint_key key (d_key_bits self) with
  | Err e => (Err e, self)
  | Ok bytes => Dict.remove bytes self
  end.
Definition get_int (self : Dict) (key : Z) : result CellError (Lookup DictEntry) :=
  let? bytes := int_key key (d_key_bits self) in Dict.get self bytes.
Definition set_int (key : Z) (value : Builder) : stm Dict CellError unit := λ self,
  match int_key key (d_key_bits self) with
  | Err e => (Err e, self)
  | Ok bytes => Dict.set bytes value self
  end.
Definition remove_int (key : Z) : stm Dict CellError bool := λ self,
  match int_key key (d_key_bits self) with
  | Err e => (Err e, self)
  | Ok bytes => Dict.remove bytes self
  end.
End typed.
End typed.
