(* ===== verification/DictBulk.v ===== *)
(** The bulk builder lays out the one tree of the map it was handed. *)

From stdpp Require Import base list list_numbers numbers strings sorting.
From Stdlib Require Import ZArith Lia.
From S2P Require Import Prelude Errors Bits CellData CellHash CellModel CellSlice CellBuilder BuilderOps DictLabel Dict DictTree DictCells DictWalk DictSpec DictTheorems Search DictOps.

Local Open Scope Z_scope.

(** ** Bits in order *)

Lemma bits_le_cons x y a b : bits_le (x :: a) (y :: b) ↔ (x = false ∧ y = true) ∨ (x = y ∧ bits_le a b).
Proof. unfold bits_le, bits_cmp. cbn [list_compare]. destruct x, y; cbn [Bool.compare]; intuition congruence. Qed.

Lemma bits_le_nil b : bits_le [] b.
Proof. unfold bits_le, bits_cmp. by destruct b. Qed.

Lemma bits_le_cons_nil x a : ¬ bits_le (x :: a) [].
Proof. unfold bits_le, bits_cmp. cbn. intros H. by apply H. Qed.

#[export] Instance bits_le_refl : Reflexive bits_le.
Proof. intros a. induction a; [apply bits_le_nil|]. apply bits_le_cons. auto. Qed.

#[export] Instance bits_le_total : Total bits_le.
Proof.
  intros a. induction a as [|x a IH]; intros b; [left; apply bits_le_nil|].
  destruct b as [|y b]; [right; apply bits_le_nil|]. rewrite !bits_le_cons.
  destruct (IH b), x, y; intuition congruence.
Qed.

#[export] Instance bits_le_trans : Transitive bits_le.
Proof.
  intros a. induction a as [|x a IH]; intros [|y b] [|z c] H1 H2; try apply bits_le_nil;
    try by apply bits_le_cons_nil in H1 || apply bits_le_cons_nil in H2.
  apply bits_le_cons in H1, H2. apply bits_le_cons.
  destruct H1 as [[-> ->]|[-> H1]], H2 as [[E1 E2]|[-> H2]]; auto; try congruence.
  right. split; [done|]. by apply (IH b).
Qed.

Lemma bits_le_app p a b : bits_le (p ++ a) (p ++ b) ↔ bits_le a b.
Proof. induction p as [|x p IH]; [done|]. cbn [app]. rewrite bits_le_cons, <- IH. intuition congruence. Qed.

(** What lies between two strings of a prefix has it. *)
Lemma bits_between q a x b : bits_le (q ++ a) x → bits_le x (q ++ b) → ∃ c, x = q ++ c.
Proof.
  revert x. induction q as [|y q IH]; intros x H1 H2; [by exists x|].
  destruct x as [|z x]; [by apply bits_le_cons_nil in H1|]. cbn [app] in *. apply bits_le_cons in H1, H2.
  destruct H1 as [[-> ->]|[-> H1]], H2 as [[? ?]|[? H2]]; try congruence.
  destruct (IH x H1 H2) as [c ->]. by exists c.
Qed.

(** ** Splitting a sorted run *)

Lemma partition_point_split {A} (pred : A → bool) lo hi :
  Forall (λ x, pred x = true) lo → Forall (λ x, pred x = false) hi → partition_point pred (lo ++ hi) = len lo.
Proof.
  intros Hlo Hhi. set (f := λ x, if pred x then Lt else Gt). rewrite Forall_forall in Hlo, Hhi.
  assert (∀ i x, get (lo ++ hi) i = Some x → f x = if i <? len lo then Lt else Gt) as Hf.
  { intros i x Hx. unfold f. destruct (Z.ltb_spec i (len lo)).
    - pose proof (get_Some_lt _ _ _ Hx). rewrite get_app_l in Hx by lia. rewrite Hlo; [done|].
      unfold get in Hx. destruct (_ <? _); [done|]. by eapply list_elem_of_lookup_2.
    - rewrite get_app_r in Hx by lia. rewrite Hhi; [done|].
      unfold get in Hx. destruct (_ <? _); [done|]. by eapply list_elem_of_lookup_2. }
  assert (rising f (lo ++ hi)) as Hr.
  { intros i j x y Hij Hx%Hf Hy%Hf. rewrite Hx, Hy.
    destruct (Z.ltb_spec i (len lo)), (Z.ltb_spec j (len lo)); try done; lia. }
  pose proof (binary_search_rising f _ Hr) as Hs. unfold partition_point. fold f.
  destruct (binary_search_by f (lo ++ hi)) as [i|i].
  - destruct Hs as (x & _ & Ex). unfold f in Ex. by destruct (pred x).
  - destruct Hs as (Hi & Hbelow & Habove). pose proof (len_nonneg lo). pose proof (len_nonneg hi). rewrite len_app in Hi.
    destruct (Z.lt_trichotomy i (len lo)) as [Hlt|[E|Hgt]]; [exfalso|done|exfalso].
    + destruct (get_lt_Some (lo ++ hi) i) as [x Hx]; [rewrite len_app; lia|].
      pose proof (Habove i x ltac:(lia) Hx) as E1. apply Hf in Hx. rewrite E1 in Hx.
      by rewrite (proj2 (Z.ltb_lt _ _)) in Hx.
    + destruct (get_lt_Some (lo ++ hi) (len lo)) as [x Hx]; [rewrite len_app; lia|].
      pose proof (Hbelow _ x Hgt Hx) as E1. apply Hf in Hx. rewrite E1, Z.ltb_irrefl in Hx. done.
Qed.

Lemma sorted_split {A} (R : relation A) (P : A → Prop) `{∀ x, Decision (P x)} l :
  StronglySorted R l → (∀ x y, x ∈ l → y ∈ l → R x y → P y → P x) →
  ∃ lo hi, l = lo ++ hi ∧ Forall P lo ∧ Forall (λ x, ¬ P x) hi.
Proof.
  induction 1 as [|x l Hs IH Hx]; intros Hdown; [by exists [], []|].
  destruct (decide (P x)) as [Hp|Hn].
  - destruct IH as (lo & hi & -> & Hlo & Hhi); [intros a b Ha Hb; apply Hdown; by right|].
    exists (x :: lo), hi. split; [done|]. split; [by constructor|done].
  - exists [], (x :: l). do 2 (split; [done|]). constructor; [done|]. rewrite Forall_forall in Hx.
    apply Forall_forall. intros y Hy Hp. apply Hn, (Hdown x y); [by left|by right|by apply Hx|done].
Qed.

(** ** What the keys of a run share *)

Lemma shared_loop_spec pre : ∀ a b q fuel,
  length a = length b → (length a <= fuel)%nat →
  ∃ q' a' b', a = q' ++ a' ∧ b = q' ++ b' ∧
    shared_loop fuel (pre ++ q ++ a) (pre ++ q ++ b) (len pre) (len q + len a) (len q) = len q + len q' ∧
    ((a' = [] ∧ b' = []) ∨ ∃ x k k', a' = x :: k ∧ b' = negb x :: k').
Proof.
  induction a as [|x a IH]; intros [|y b] q fuel Hl Hf; try done.
  - exists [], [], []. do 2 (split; [done|]). split; [|by left]. change (len (A:=bool) []) with 0. rewrite Z.add_0_r.
    destruct fuel; cbn [shared_loop]; [done|]. by rewrite Z.ltb_irrefl.
  - destruct fuel as [|fuel]; [simpl in Hf; lia|]. cbn [shared_loop]. pose proof (len_nonneg a).
    rewrite (proj2 (Z.ltb_lt _ _)) by (rewrite len_cons; lia). cbv zeta. rewrite <- len_app.
    assert (∀ z (l : list bool), get (pre ++ q ++ z :: l) (len (pre ++ q)) = Some z) as Hg
      by (intros z l; rewrite (app_assoc pre q); apply get_at).
    rewrite !Hg. destruct (decide (y = x)) as [->|Hne].
    + rewrite bool_decide_true by done. cbn [negb].
      destruct (IH b (q ++ [x]) fuel) as (q' & a' & b' & -> & -> & E & Hend); [simpl in Hl; lia|simpl in Hf; lia|].
      exists (x :: q'), a', b'. do 2 (split; [done|]). split; [|done]. rewrite <- !app_assoc in E. simpl in E.
      replace (len q + 1) with (len (q ++ [x])) by by rewrite len_app.
      replace (len q + len (x :: q' ++ a')) with (len (q ++ [x]) + len (q' ++ a')); [rewrite E|];
        rewrite !len_app, !len_cons, ?len_app; change (len (A:=bool) []) with 0; lia.
    + rewrite bool_decide_false by congruence. cbn [negb]. exists [], (x :: a), (y :: b).
      do 2 (split; [done|]). split; [change (len (A:=bool) []) with 0; lia|]. right. exists x, a, b.
      split; [done|]. f_equal. by destruct x, y.
Qed.

(** ** Runs and their trees *)

Section last.
Context {V : Type}.

(** The value given last for a key. *)
Definition last_of (items : list (list bool * V)) (key : list bool) : Lookup V :=
  match last (filter (λ kv, kv.1 = key) items) with Some kv => Found kv.2 | None => Absent end.

Lemma last_of_app items1 items2 key :
  last_of (items1 ++ items2) key = match last_of items2 key with Absent => last_of items1 key | r => r end.
Proof.
  unfold last_of. rewrite filter_app, last_app. destruct (last (filter _ items2)) as [[k v]|]; [done|].
  by destruct (last (filter _ items1)).
Qed.

Lemma last_of_absent items key : (∀ kv, kv ∈ items → kv.1 ≠ key) → last_of items key = Absent.
Proof.
  intros Hn. unfold last_of. destruct (last _) as [kv|] eqn:E; [|done]. apply last_Some in E as [l E].
  assert (kv ∈ filter (λ kv, kv.1 = key) items) as [Hk Hin]%list_elem_of_filter by (rewrite E, elem_of_app; right; by left).
  by destruct (Hn kv Hin).
Qed.

Lemma last_of_all items key :
  Forall (λ kv, kv.1 = key) items →
  last_of items key = match last items with Some kv => Found kv.2 | None => Absent end.
Proof.
  intros Hall. unfold last_of. replace (filter (λ kv, kv.1 = key) items) with items; [done|].
  induction Hall as [|kv items Hk _ IH]; [done|]. by rewrite filter_cons_True, <- IH.
Qed.

End last.

Lemma last_of_fmap {V W} (f : V → W) items key :
  last_of ((λ kv, (kv.1, f kv.2)) <$> items) key = lookup_map f (last_of items key).
Proof.
  unfold last_of. assert (filter (λ kv, kv.1 = key) ((λ kv, (kv.1, f kv.2)) <$> items) =
    (λ kv, (kv.1, f kv.2)) <$> filter (λ kv, kv.1 = key) items) as ->.
  { induction items as [|[k v] items IH]; [done|]. cbn [fmap list_fmap fst snd]. rewrite !filter_cons. cbn [fst].
    case_decide; [|done]. cbn [fmap list_fmap fst snd]. by f_equal. }
  rewrite fmap_last. by destruct (last _).
Qed.

Section bulk.
Context `{Hasher} (shape : Shape) `{!LawfulShape shape}.

(** An item with its summary, as the builder sees it and as a tree holds it. *)
Definition bulk_item (kv : list bool * (Extra shape * value)) : BulkItem (Extra shape) := (kv.1, kv.2.1, builder_of kv.2.2).
Definition stored (x : Extra shape * value) : value := behind shape x.1 x.2.
Definition item_ok (x : Extra shape * value) : Prop := extra_ok x.1 ∧ storable x.2.

(** A sorted run of entries whose keys share [pre] and have [n] bits more. *)
Record run_ok (pre : list bool) (n : Z) (items : list (list bool * (Extra shape * value))) : Prop := {
  rn_some : items ≠ [];
  rn_sorted : StronglySorted (λ x y, bits_le x.1 y.1) items;
  rn_keys : Forall (λ kv, ∃ k, kv.1 = pre ++ k ∧ len k = n) items;
  rn_values : Forall (λ kv, item_ok kv.2) items;
}.

(** The tree [t] is that of a run: it answers as the run does past [pre], and its
    cell is what the builder makes, when it makes one. *)
Record laid (pre : list bool) (n : Z) (items : list (list bool * (Extra shape * value))) (t : tree)
    (made : result CellError Cell) : Prop := {
  la_whole : whole t;
  la_wf : tree_wf n t;
  la_get : ∀ k, tget t k = lookup_map stored (last_of items (pre ++ k));
  la_made c : made = Ok c → cell_wf c ∧ shows shape true n c t;
  la_all c : cell_wf c → shows shape true n c t → made = Ok c;
}.

(** Where the keys of a run part, it falls in two runs. *)
Lemma run_parts pre n items q x k k' first last' :
  run_ok pre n items → head items = Some first → last items = Some last' →
  first.1 = pre ++ q ++ x :: k → last'.1 = pre ++ q ++ negb x :: k' →
  ∃ lo hi, items = lo ++ hi ∧ run_ok (pre ++ q ++ [false]) (n - len q - 1) lo ∧
    run_ok (pre ++ q ++ [true]) (n - len q - 1) hi.
Proof.
  intros [_ Hs Hk Hv] Hfirst Hlast E1 E2. destruct items as [|f items]; [done|]. injection Hfirst as ->.
  assert (∀ kv, kv ∈ first :: items → bits_le first.1 kv.1 ∧ bits_le kv.1 last'.1) as Hends.
  { apply last_Some in Hlast as [l El]. intros kv Hin. split.
    - apply StronglySorted_cons in Hs as [Hall _]. rewrite Forall_forall in Hall.
      apply elem_of_cons in Hin as [->|Hin]; [done|by apply Hall].
    - rewrite El in Hs, Hin. apply StronglySorted_app in Hs as (Hc & _ & _).
      apply elem_of_app in Hin as [Hin|Hin%list_elem_of_singleton]; [apply Hc; [done|by left]|by subst]. }
  rewrite Forall_forall in Hk.
  assert (∀ kv, kv ∈ first :: items → ∃ b c, kv.1 = pre ++ q ++ b :: c ∧ len c = n - len q - 1) as Hparts.
  { intros kv Hin. destruct (Hends kv Hin) as [H1 H2]. destruct (Hk kv Hin) as (c & Ec & Hlen).
    rewrite Ec in *. rewrite E1 in H1. rewrite E2 in H2. apply bits_le_app in H1, H2.
    destruct (bits_between _ _ _ _ H1 H2) as [d ->]. apply bits_le_app in H1. rewrite len_app in Hlen.
    destruct d as [|b d]; [by apply bits_le_cons_nil in H1|]. exists b, d. rewrite len_cons in Hlen. split; [done|lia]. }
  set (P := λ kv : list bool * (Extra shape * value), get kv.1 (len (pre ++ q)) = Some false).
  assert (∀ (kv : list bool * (Extra shape * value)) b c, kv.1 = pre ++ q ++ b :: c → get kv.1 (len (pre ++ q)) = Some b) as Hat.
  { intros kv b c ->. rewrite (app_assoc pre q). apply get_at. }
  destruct (sorted_split _ P (first :: items) Hs) as (lo & hi & Eq & Hlo & Hhi).
  { unfold P. intros a b Ha Hb Hab Hp. destruct (Hparts a Ha) as (ba & ca & Ea & _), (Hparts b Hb) as (bb & cb & Eb & _).
    rewrite (Hat _ _ _ Ea). rewrite (Hat _ _ _ Eb) in Hp. injection Hp as ->.
    rewrite Ea, Eb in Hab. apply bits_le_app, bits_le_app, bits_le_cons in Hab. by destruct Hab as [[-> _]|[-> _]]. }
  assert (first ∈ first :: items) as Hfi by by left.
  assert (last' ∈ first :: items) as Hli by (apply last_Some in Hlast as [l ->]; rewrite elem_of_app; right; by left).
  assert (x = false) as ->.
  { destruct (Hends _ Hfi) as [_ Hle]. rewrite E1, E2 in Hle.
    apply bits_le_app, bits_le_app, bits_le_cons in Hle. by destruct x, Hle as [[]|[]]. }
  exists lo, hi. split; [done|]. rewrite Eq in Hs, Hv, Hparts, Hfi, Hli.
  apply StronglySorted_app in Hs as (_ & Hs1 & Hs2). apply Forall_app in Hv as [Hv1 Hv2].
  rewrite Forall_forall in Hlo, Hhi. split; split; try done.
  - intros ->. rewrite app_nil_l in Hfi. apply (Hhi _ Hfi). by apply (Hat _ _ _ E1).
  - apply Forall_forall. intros kv Hin. destruct (Hparts kv) as (b & c & E & Hc); [apply elem_of_app; by left|].
    specialize (Hlo kv Hin). unfold P in Hlo. rewrite (Hat _ _ _ E) in Hlo. injection Hlo as ->.
    exists c. by rewrite <- !app_assoc.
  - intros ->. rewrite app_nil_r in Hli. specialize (Hlo _ Hli). unfold P in Hlo. by rewrite (Hat _ _ _ E2) in Hlo.
  - apply Forall_forall. intros kv Hin. destruct (Hparts kv) as (b & c & E & Hc); [apply elem_of_app; by right|].
    specialize (Hhi kv Hin). unfold P in Hhi. rewrite (Hat _ _ _ E) in Hhi. destruct b; [|done].
    exists c. by rewrite <- !app_assoc.
Qed.

(** A run all of one key. *)
Lemma run_one_key pre n items k first last' :
  run_ok pre n items → head items = Some first → last items = Some last' →
  first.1 = pre ++ k → last'.1 = pre ++ k → Forall (λ kv, kv.1 = pre ++ k) items.
Proof.
  intros [_ Hs Hk _] Hfirst Hlast E1 E2. destruct items as [|f items]; [done|]. injection Hfirst as ->.
  apply last_Some in Hlast as [l El]. apply Forall_forall. intros kv Hin. rewrite Forall_forall in Hk.
  destruct (Hk kv Hin) as (c & Ec & Hc), (Hk first) as (c1 & Ec1 & Hc1); [by left|].
  rewrite E1 in Ec1. apply app_inv_head in Ec1 as <-.
  assert (bits_le first.1 kv.1) as H1.
  { apply StronglySorted_cons in Hs as [Hall _]. rewrite Forall_forall in Hall.
    apply elem_of_cons in Hin as [->|Hin]; [done|by apply Hall]. }
  assert (bits_le kv.1 last'.1) as H2.
  { rewrite El in Hs, Hin. apply StronglySorted_app in Hs as (Hx & _ & _).
    apply elem_of_app in Hin as [Hin|Hin%list_elem_of_singleton]; [apply Hx; [done|by left]|by subst]. }
  rewrite Ec in *. rewrite E1 in H1. rewrite E2 in H2. apply bits_le_app in H1, H2.
  rewrite <- (app_nil_r k) in H1, H2. destruct (bits_between _ _ _ _ H1 H2) as [d ->].
  rewrite len_app in Hc. destruct d as [|? d]; [by rewrite app_nil_r|]. rewrite len_cons in Hc. pose proof (len_nonneg d). lia.
Qed.

(** The leaf of a run of one key. *)
Lemma leaf_laid pre n items k last' :
  run_ok pre n items → len k = n → n <= MAX_BITS → last items = Some last' →
  Forall (λ kv, kv.1 = pre ++ k) items →
  laid pre n items (TLeaf k (stored last'.2))
    (leaf shape k (MkDictEntry last'.2.1 (builder_of last'.2.2)) n).
Proof.
  intros [_ _ _ Hv] Hk Hn Hlast Hall.
  assert (item_ok last'.2) as [He Hst].
  { apply last_Some in Hlast as [l ->]. apply Forall_app in Hv as [_ Hv]. by apply Forall_cons in Hv as [? _]. }
  pose proof (leaf_shows shape true n k last'.2.1 last'.2.2 Hk Hn He Hst) as Hl. destruct Hst as (_ & Hvr & Hvw).
  pose proof (leaf_spec shape k last'.2.1 last'.2.2.1 last'.2.2.2 n ltac:(pose proof (len_nonneg k); lia) ltac:(lia) He Hvr) as Hm.
  fold (builder_of last'.2.2) in Hm. split.
  - done.
  - done.
  - intros k'. rewrite tget_leaf. destruct (decide (k' = k)) as [->|Hne].
    + by rewrite last_of_all, Hlast.
    + rewrite last_of_absent; [done|]. rewrite Forall_forall in Hall. intros kv Hin.
      rewrite Hall by done. intros E%app_inv_head. congruence.
  - intros c Hc. case_bool_decide; [|by rewrite Hc in Hl]. destruct Hl as (c' & Hc' & Hw & Hs).
    rewrite Hc in Hc'. by injection Hc' as <-.
  - intros c Hw Hs. inversion Hs as [|? ? f ? ? ? ? Hx Hf Hln ? ? Hb Hr Hmade|]; subst.
    specialize (Hmade eq_refl). rewrite <- Hmade. rewrite bool_decide_true in Hm; [done|].
    split; [|done]. pose proof (form_bits_room c (len k) f k _ Hw Hb) as Hroom. cbn [stored behind fst] in Hroom.
    pose proof (shorter_label (len k) (len k) f k k ltac:(pose proof (len_nonneg k); lia) Hn Hn Hf ltac:(exists []; by left)). lia.
Qed.

(** The fork over two runs laid out. *)
Lemma fork_laid pre n items q lo hi a b ca cb :
  len q < n → n <= MAX_BITS → items = lo ++ hi →
  run_ok (pre ++ q ++ [false]) (n - len q - 1) lo → run_ok (pre ++ q ++ [true]) (n - len q - 1) hi →
  laid (pre ++ q ++ [false]) (n - len q - 1) lo a ca → laid (pre ++ q ++ [true]) (n - len q - 1) hi b cb →
  (∀ k, (∀ x c, k ≠ q ++ x :: c) → last_of items (pre ++ k) = Absent) →
  laid pre n items (TFork q a b)
    (let? lhs := ca in let? rhs := cb in fork shape q n (n - len q - 1) lhs rhs).
Proof.
  intros Hq Hn -> Rlo Rhi [Wa Ta Ga Ma Aa] [Wb Tb Gb Mb Ab] Hoff. pose proof (len_nonneg q).
  assert (LawfulRun q) as Hlq by (apply bools_lawful; unfold U16_MAX, MAX_BITS in *; lia).
  assert (run_len q = len q) as Hrl by by rewrite <- (len_run_bits q Hlq), bools_run_bits.
  assert (∀ (x : bool) c, last_of (if x then lo else hi) (pre ++ q ++ x :: c) = Absent) as Hside.
  { intros x c. apply last_of_absent. intros kv Hin E.
    assert (∃ k, kv.1 = (pre ++ q ++ [negb x]) ++ k) as [k Ek].
    { destruct x; [destruct Rlo as [_ _ Hk _]|destruct Rhi as [_ _ Hk _]]; rewrite Forall_forall in Hk;
        destruct (Hk kv Hin) as (k & Ek & _); by exists k. }
    rewrite Ek, <- !app_assoc in E. apply app_inv_head, app_inv_head in E. by destruct x. }
  split.
  - done.
  - split; [done|]. by split.
  - intros k. destruct (strip q k) as [[|x c]|] eqn:E.
    + apply strip_Some in E as ->. cbn [tget]. rewrite strip_app, Hoff; [done|]. intros x c Ex.
      apply app_inv_head in Ex. done.
    + apply strip_Some in E as ->. rewrite tget_fork, last_of_app. specialize (Hside x c). destruct x.
      * rewrite Gb. rewrite <- !app_assoc. cbn [app]. by destruct (last_of hi _); rewrite ?Hside.
      * rewrite Ga, Hside. by rewrite <- !app_assoc.
    + cbn [tget]. rewrite E, Hoff; [done|]. intros x c ->. by rewrite strip_app in E.
  - intros c Hc. destruct ca as [ca|]; [|done]. destruct cb as [cb|]; [|done]. cbn [res_bind] in Hc.
    destruct (Ma ca eq_refl) as [Wca Sa], (Mb cb eq_refl) as [Wcb Sb].
    destruct (decide (len (label_enc n q) <= MAX_BITS)) as [Henc|Henc].
    + destruct (fork_shows shape q true n q ca cb a b Hlq (bools_run_bits q)) as [(c' & Hc' & Hw & Hs)|[Hfail _]]; [done..| |].
      * rewrite Hc in Hc'. by injection Hc' as <-.
      * by rewrite Hc in Hfail.
    + exfalso. unfold fork, built in Hc. pose proof (writes_label q n Hlq ltac:(lia) ltac:(lia)) as Hwl. rewrite bools_run_bits in Hwl.
      pose proof (writes_full _ _ [] RNone Hwl ltac:(change (len (A:=bool) []) with 0; lia) ltac:(done)) as Hfull.
      rewrite new_holding in Hc. unfold st_bind at 1 in Hc. by destruct (store_label q n (holding [] RNone)) as [[]].
  - intros c Hw Hs. inversion Hs as [| |? ? f e ? da db ? ? Hx Hf Hln He Hb Hr Hmade Sa Sb]; subst.
    assert (cell_wf da ∧ cell_wf db) as [Wda Wdb].
    { apply cell_wf_refs in Hw. rewrite Hr in Hw. by rewrite !Forall_cons in Hw; destruct_and!. }
    rewrite (Aa da), (Ab db) by done. cbn [res_bind]. destruct (Hmade eq_refl) as [Hm Hfx].
    assert (fork_extra shape da db (n - len q - 1) = Ok e) as Ee.
    { apply shows_exotic in Sa, Sb. apply Hfx; [destruct a|destruct b]; done. }
    assert (fits n q (extra_bits e) [da; db]) as Hfit.
    { split; [|done]. pose proof (form_bits_room c n f q _ Hw Hb).
      pose proof (shorter_label n n f q q ltac:(lia) Hn ltac:(lia) Hf ltac:(exists []; by left)). lia. }
    pose proof (fork_spec shape q n (n - len q - 1) da db Hlq ltac:(lia) ltac:(lia) ltac:(intros e' Ee'; rewrite Ee in Ee'; by injection Ee' as <-)) as Hfs.
    rewrite Ee, bools_run_bits, bool_decide_true in Hfs by done. by rewrite Hfs.
Qed.

Lemma prefix_range (q k : list bool) : default [] (get_range (q ++ k) 0 (len q)) = q.
Proof.
  unfold get_range. pose proof (len_nonneg q). pose proof (len_nonneg k). rewrite len_app.
  rewrite !(proj2 (Z.leb_le _ _)) by lia. cbn [andb default]. rewrite Z.sub_0_r, drop_0. unfold len.
  by rewrite Nat2Z.id, take_app_length.
Qed.

(** The items of a run, split where the builder splits them. *)
Lemma parts_point pre n q lo hi :
  run_ok (pre ++ q ++ [false]) n lo → run_ok (pre ++ q ++ [true]) n hi →
  partition_point (λ item, bool_decide (get item.1.1 (len pre + len q) = Some false)) (bulk_item <$> lo ++ hi) = len lo.
Proof.
  intros [_ _ Hlo _] [_ _ Hhi _]. rewrite fmap_app, partition_point_split; [unfold len; by rewrite length_fmap|..];
    apply Forall_fmap; (eapply Forall_impl; [eassumption|]); intros kv (k & Ek & _);
    cbn [compose bulk_item fst]; rewrite Ek, <- len_app, <- !app_assoc, (app_assoc pre q); cbn [app]; by rewrite get_at.
Qed.

Lemma build_run_laid fuel : ∀ pre n items,
  run_ok pre n items → n <= MAX_BITS → (Z.to_nat n < fuel)%nat →
  ∃ t, laid pre n items t (build_run fuel shape (bulk_item <$> items) (len pre) n).
Proof.
  induction fuel as [|fuel IH]; intros pre n items Hrun Hn Hfuel; [lia|]. cbn [build_run].
  pose proof Hrun as [Hne _ Hk _]. rewrite Forall_forall in Hk.
  destruct (head items) as [first|] eqn:Efirst; [|by destruct items].
  destruct (last items) as [last'|] eqn:Elast; [|by apply last_None in Elast].
  assert (head (bulk_item <$> items) = bulk_item <$> head items) as -> by by destruct items.
  rewrite fmap_last, Efirst, Elast. cbn [fmap option_fmap option_map bulk_item fst snd].
  destruct (Hk first) as (a & Ea & Ha); [destruct items; simplify_eq/=; by left|].
  destruct (Hk last') as (b & Eb & Hb); [apply last_Some in Elast as [l ->]; rewrite elem_of_app; right; by left|].
  rewrite Ea, Eb. destruct (shared_loop_spec pre a b [] (Z.to_nat n)) as (q & a' & b' & -> & -> & E & Hends);
    [unfold len in *; lia|unfold len in *; lia|].
  change (len (A:=bool) []) with 0 in E. rewrite !Z.add_0_l, Ha, !app_nil_l in E. rewrite E. cbv zeta. rewrite !rest_app.
  pose proof (len_nonneg q). destruct Hends as [[-> ->]|(x & k & k' & -> & ->)].
  - rewrite app_nil_r in *. rewrite (proj2 (Z.eqb_eq _ _)) by done. exists (TLeaf q (stored last'.2)).
    apply leaf_laid; [done..|]. by eapply run_one_key.
  - rewrite len_app, len_cons in Ha. pose proof (len_nonneg k). rewrite (proj2 (Z.eqb_neq _ _)) by lia.
    destruct (run_parts _ _ _ _ _ _ _ _ _ Hrun Efirst Elast Ea Eb) as (lo & hi & -> & Rlo & Rhi).
    rewrite (parts_point pre (n - len q - 1)) by done. replace (Z.to_nat (len lo)) with (length lo) by (unfold len; lia). rewrite fmap_app.
    rewrite take_app_length', drop_app_length' by by rewrite length_fmap. rewrite prefix_range.
    destruct (IH _ _ _ Rlo) as [ta La]; [lia|lia|]. destruct (IH _ _ _ Rhi) as [tb Lb]; [lia|lia|].
    assert (∀ b, len (pre ++ q ++ [b]) = len pre + len q + 1) as Hd by (intros; rewrite !len_app; change (len [b]) with 1; lia).
    rewrite Hd in La, Lb. exists (TFork q ta tb). eapply fork_laid; [lia|done..|]. intros c Hoff. apply last_of_absent.
    intros kv [Hin|Hin]%elem_of_app E'.
    + destruct Rlo as [_ _ Hlo _]. rewrite Forall_forall in Hlo. destruct (Hlo kv Hin) as (c' & Ec & _).
      rewrite Ec, <- !app_assoc in E'. apply app_inv_head in E'. by eapply Hoff.
    + destruct Rhi as [_ _ Hhi _]. rewrite Forall_forall in Hhi. destruct (Hhi kv Hin) as (c' & Ec & _).
      rewrite Ec, <- !app_assoc in E'. apply app_inv_head in E'. by eapply Hoff.
Qed.

(** ** A dictionary from its items *)

(** Entries under the bits of their keys. *)
Definition keyed {V} (n : Z) (entries : list (list Z * V)) : list (list bool * V) :=
  (λ kv, (bits_of kv.1 n, kv.2)) <$> entries.

(** Entries as the builder of any shape is handed them. *)
Definition summed_items (entries : list (list Z * (Extra shape * value))) : list (list Z * Extra shape * Builder) :=
  (λ kv, (kv.1, kv.2.1, builder_of kv.2.2)) <$> entries.

Lemma keys_fold n entries : ∀ acc,
  0 <= n → Forall (λ kv, n <= 8 * len kv.1 ∧ item_ok kv.2) entries →
  res_fold (λ sorted '(key, extra, value), let? bits := key_of key n in Ok (sorted ++ [(bits, extra, value)]))
    (summed_items entries) acc = Ok (acc ++ (bulk_item <$> keyed n entries)).
Proof.
  induction entries as [|[key v] entries IH]; intros acc Hn Hok; [by rewrite app_nil_r|].
  apply Forall_cons in Hok as [[Hk _] Hok]. unfold summed_items, keyed in *. cbn [fmap list_fmap res_fold fst snd].
  cbn [fst] in Hk. rewrite key_of_spec, (proj2 (Z.ltb_ge _ _)) by lia. cbn [res_bind]. rewrite IH by done.
  by rewrite <- app_assoc.
Qed.

Lemma sorted_run n entries :
  entries ≠ [] → 0 <= n → Forall (λ kv, n <= 8 * len kv.1 ∧ item_ok kv.2) entries →
  run_ok [] n (sort_by fst bits_le (keyed n entries)).
Proof.
  intros Hne Hn Hok. pose proof (sort_by_permutes fst bits_le (keyed n entries)) as Hp. split.
  - intros E. rewrite E in Hp. apply Permutation_nil in Hp. by destruct entries.
  - apply (sort_by_sorted fst bits_le).
  - rewrite Hp. apply Forall_fmap. eapply Forall_impl; [exact Hok|]. intros [key v] [Hk _]. cbn.
    exists (bits_of key n). split; [done|]. by apply len_bits_of.
  - rewrite Hp. apply Forall_fmap. eapply Forall_impl; [exact Hok|]. by intros [key v] [_ ?].
Qed.

Lemma last_of_sorted {V} (items : list (list bool * V)) key : last_of (sort_by fst bits_le items) key = last_of items key.
Proof.
  unfold last_of. rewrite (sort_by_stable fst bits_le (λ kv, kv.1 = key) key); [done|]. by intros kv <-.
Qed.

(** The tree of some items, and when its cell is built. *)
Lemma build_all_laid n entries :
  0 <= n <= MAX_BITS → entries ≠ [] → Forall (λ kv, n <= 8 * len kv.1 ∧ item_ok kv.2) entries →
  ∃ t made, build_all shape n (summed_items entries) = res_map Some made ∧ whole t ∧
    (∀ k, tget t k = lookup_map stored (last_of (keyed n entries) k)) ∧
    (∀ c, made = Ok c → cell_wf c ∧ shows shape true n c t) ∧ (∀ c, cell_wf c → shows shape true n c t → made = Ok c).
Proof.
  intros Hn Hne Hok.
  destruct (build_run_laid (S (Z.to_nat n)) [] n _ (sorted_run n entries Hne ltac:(lia) Hok)) as [t [Wt _ Gt Mt At]]; [lia|lia|].
  eexists t, _. split; [|split; [done|split; [|by split]]].
  2:{ intros k. by rewrite Gt, app_nil_l, last_of_sorted. }
  change (len (A:=bool) []) with 0. unfold build_all, check_key_bits. rewrite (proj2 (Z.ltb_ge _ _)) by lia. cbn [res_bind].
  rewrite keys_fold by (done || lia). cbn [res_bind]. rewrite app_nil_l.
  assert (∃ x l, bulk_item <$> keyed n entries = x :: l) as (x & l & E) by (destruct entries; [done|by eexists _, _]).
  rewrite E, <- E, sort_by_fmap. by change ((λ item : BulkItem (Extra shape), item.1.1) ∘ bulk_item) with (fst (A:=list bool) (B:=Extra shape * value)).
Qed.
End bulk.

(** ** The plain dictionary from its items *)

Section plain.
Context `{Hasher}.

Definition handed (entries : list (list Z * value)) : list (list Z * Builder) :=
  (λ kv, (kv.1, builder_of kv.2)) <$> entries.

Definition entry_ok (n : Z) (kv : list Z * value) : Prop := n <= 8 * len kv.1 ∧ storable kv.2.

Definition with_unit (entries : list (list Z * value)) : list (list Z * (Extra Plain * value)) :=
  (λ kv, (kv.1, (tt, kv.2))) <$> entries.

Lemma last_of_unit n entries key :
  lookup_map (stored Plain) (last_of (keyed n (with_unit entries)) key) = last_of (keyed n entries) key.
Proof.
  unfold keyed, with_unit. rewrite <- list_fmap_compose.
  change ((λ kv, (bits_of kv.1 n, kv.2)) ∘ (λ kv : list Z * value, (kv.1, (tt, kv.2))))
    with ((λ kv : list bool * value, (kv.1, (tt, kv.2))) ∘ (λ kv : list Z * value, (bits_of kv.1 n, kv.2))).
  rewrite list_fmap_compose, (last_of_fmap (λ v, (tt, v))). destruct (last_of _ key); [|done..]. cbn [lookup_map].
  unfold stored. by rewrite behind_plain.
Qed.

Lemma from_items_laid n entries :
  0 <= n <= MAX_BITS → entries ≠ [] → Forall (entry_ok n) entries →
  ∃ t made, floor.from_items n (handed entries) = res_map (λ c, MkDict (Some c) n) made ∧ whole t ∧
    (∀ k, tget t k = last_of (keyed n entries) k) ∧
    (∀ c, made = Ok c → cell_wf c ∧ shows Plain true n c t) ∧ (∀ c, cell_wf c → shows Plain true n c t → made = Ok c).
Proof.
  intros Hn Hne Hok.
  destruct (build_all_laid Plain n (with_unit entries) Hn) as (t & made & Hb & Hw & Hg & Hm);
    [by destruct entries|apply Forall_fmap; eapply Forall_impl; [exact Hok|]; by intros kv []|].
  exists t, made. split; [|split; [done|split; [|done]]].
  - unfold floor.from_items. replace ((λ '(key, value), (key, tt, value)) <$> handed entries) with (summed_items Plain (with_unit entries)).
    + rewrite Hb. destruct made; [|done]. cbn [res_map res_bind]. unfold Dict.from_root, check_key_bits.
      by rewrite (proj2 (Z.ltb_ge _ _)) by lia.
    + unfold summed_items, with_unit, handed. rewrite <- !list_fmap_compose. by apply list_fmap_ext.
  - intros k. by rewrite Hg, last_of_unit.
Qed.

(** Stores in a row, as a map. *)
Lemma sets_contents entries : ∀ d ot d',
  represents true d ot → owhole ot → Forall (entry_ok (d_key_bits d)) entries →
  st_for (handed entries) (λ '(key, value), Dict.set key value) d = (Ok tt, d') →
  ∃ ot', represents true d' ot' ∧ owhole ot' ∧ d_key_bits d' = d_key_bits d ∧
    ∀ k, dget ot' k = match last_of (keyed (d_key_bits d) entries) k with Absent => dget ot k | r => r end.
Proof.
  induction entries as [|[key v] entries IH]; intros d ot d' Hr Hw Hok Hf.
  { injection Hf as <-. by exists ot. }
  apply Forall_cons in Hok as [[Hk Hv] Hok]. cbn [fst snd] in Hk, Hv. unfold handed in Hf.
  cbn [fmap list_fmap st_for fst snd] in Hf. fold (handed entries) in Hf.
  destruct (Dict.set key (builder_of v) d) as [[[]|e] d1] eqn:Es; [|unfold st_bind in Hf; by rewrite Es in Hf].
  rewrite (st_bind_ok _ _ _ _ _ Es) in Hf. pose proof (set_spec true d ot key v Hr Hv Hk) as Hs. cbv zeta in Hs.
  assert (∃ ot1, d_key_bits d1 = d_key_bits d ∧ represents true d1 ot1 ∧ owhole ot1 ∧
    ∀ k, dget ot1 k = if decide (k = bits_of key (d_key_bits d)) then Found v else dget ot k) as (ot1 & Hb1 & Hr1 & Hw1 & Hg1).
  { rewrite Es in Hs. destruct (dget ot _); [..|done];
      (destruct Hs as [(d2 & ot1 & [= <-] & Hb & Hr1 & Hw1 & Hg)|[[e [=]] _]]; exists ot1; auto). }
  rewrite <- Hb1 in Hok. destruct (IH d1 ot1 d' Hr1 Hw1 Hok Hf) as (ot' & Hr' & Hw' & Hb' & Hg').
  exists ot'. split; [done|]. split; [done|]. split; [congruence|]. intros k. rewrite Hg', Hb1.
  change (keyed (d_key_bits d) ((key, v) :: entries)) with ([(bits_of key (d_key_bits d), v)] ++ keyed (d_key_bits d) entries).
  rewrite last_of_app. destruct (last_of (keyed _ entries) k); [done| |done].
  rewrite Hg1. unfold last_of. rewrite filter_cons. cbn [fst]. by repeat case_decide.
Qed.
End plain.

(** ** Theorems *)

Section theorems.
Context `{Hasher}.

(** Building a dictionary from its items in bulk is storing them one by one. What it
    builds answers for every key with the value given last for it and for no other
    key; and wherever storing the items in the order given succeeds, building in
    bulk gives the same dictionary, cell for cell. *)
Theorem dict_bulk_is_sets n d entries :
  0 <= n → Dict.new n = Ok d → Forall (entry_ok n) entries →
  (∀ d', floor.from_items n (handed entries) = Ok d' →
     d_key_bits d' = n ∧
     ∀ key, contents d' key = if 8 * len key <? n then Err (KeyLength (len key * 8) n)
                              else Ok (last_of (keyed n entries) (bits_of key n))) ∧
  (∀ d', st_for (handed entries) (λ '(key, value), Dict.set key value) d = (Ok tt, d') →
     floor.from_items n (handed entries) = Ok d').
Proof.
  intros Hn Hd Hok. unfold Dict.new, Dict.from_root, check_key_bits in Hd.
  destruct (Z.ltb_spec MAX_BITS n); [done|]. injection Hd as <-.
  assert (represents true (MkDict None n) None) as Hr0 by (split; [cbn; lia|done]).
  destruct (decide (entries = [])) as [->|Hne].
  { assert (floor.from_items n (handed []) = Ok (MkDict None n)) as ->.
    { unfold floor.from_items, build_all, Dict.from_root, check_key_bits. by rewrite (proj2 (Z.ltb_ge _ _)) by lia. }
    split; intros d' [= <-]; [|done]. split; [done|]. intros key. by rewrite (contents_spec true _ None). }
  destruct (from_items_laid n entries) as (t & made & -> & Wt & Gt & Mt & At); [lia|done|done|]. split.
  - intros d' E. destruct made as [c|]; [|done]. injection E as <-. split; [done|]. intros key.
    destruct (Mt c eq_refl) as [Wc Sc]. rewrite (contents_spec true _ (Some t)) by by split.
    cbn [d_key_bits dget]. destruct (_ <? _); [done|]. by rewrite Gt.
  - intros d' Hf. destruct (sets_contents entries (MkDict None n) None d' Hr0 I Hok Hf) as (ot & Hr & Hw & Hb & Hg).
    cbn [d_key_bits dget] in *. destruct d' as [root n']. cbn in Hb. subst n'. destruct Hr as [_ Hr]. cbn [d_root d_key_bits] in Hr.
    assert (∀ k, dget ot k = tget t k) as Heq.
    { intros k. rewrite Hg, Gt. by destruct (last_of _ k). }
    destruct root as [c|], ot as [t'|]; try done.
    + destruct Hr as [Wc Sc]. assert (t' = t) as -> by by apply tree_unique. by rewrite (At c).
    + exfalso. destruct (whole_found t Wt) as (k & v & Hk). rewrite <- Heq in Hk. done.
Qed.
End theorems.
