(* ===== verification/DictQueries.v ===== *)
(** What the plain dictionary answers beyond single keys: its entries in
    order, the nearest ones to a key ([entry_at_or_after], [entry_at_or_before]), how many
    there are ([count]), the last ([max], [take_max]), those told to be kept
    ([retain]), and the dictionary of the keys under a prefix ([subdict]). *)

From stdpp Require Import base list list_numbers numbers strings sorting.
From Stdlib Require Import ZArith Lia.
From S2P Require Import Prelude Errors Bits CellData CellHash CellModel CellSlice CellBuilder BuilderOps DictLabel Dict DictTree DictCells DictWalk DictSpec DictTheorems Search DictOps.

Local Open Scope Z_scope.

(** ** Keys in order, as bits and as bytes *)

Lemma bits_lt_parts a b :
  bits_lt a b → len a = len b → ∃ p a' b', a = p ++ false :: a' ∧ b = p ++ true :: b'.
Proof.
  revert b. induction a as [|x a IH]; intros [|y b] Hlt Hl; try done.
  rewrite !len_cons in Hl. cbn [bits_lt] in Hlt. destruct Hlt as [[-> ->]|[-> Hlt]]; [by exists [], a, b|].
  destruct (IH b Hlt) as (p & a' & b' & -> & ->); [lia|]. by exists (y :: p), a', b'.
Qed.

Lemma bits_lt_total a b : len a = len b → a = b ∨ bits_lt a b ∨ bits_lt b a.
Proof.
  revert b. induction a as [|x a IH]; intros [|y b] Hl; try done; [by left|].
  rewrite !len_cons in Hl. destruct (IH b) as [->|[H|H]]; [lia|..]; destruct x, y; cbn; auto.
Qed.

Lemma byte_of_bits b : is_byte b → b = byte_of (byte_bit b).
Proof. intros Hb. apply byte_ext; [done|apply byte_of_is_byte|]. intros k Hk. by rewrite byte_bit_byte_of. Qed.

(** Bytes are ordered by the first bit they differ in. *)
Lemma byte_lt a b i :
  is_byte a → is_byte b → 0 <= i < 8 → (∀ j, 0 <= j < i → byte_bit a j = byte_bit b j) →
  byte_bit a i = false → byte_bit b i = true → a < b.
Proof.
  intros Ha Hb Hi Hj H0 H1. rewrite (byte_of_bits a Ha), (byte_of_bits b Hb). unfold byte_of.
  assert (∀ x, 0 <= b2z x <= 1) as Hz by (intros []; cbn; lia).
  pose proof (Hz (byte_bit a 0)); pose proof (Hz (byte_bit a 1)); pose proof (Hz (byte_bit a 2));
  pose proof (Hz (byte_bit a 3)); pose proof (Hz (byte_bit a 4)); pose proof (Hz (byte_bit a 5));
  pose proof (Hz (byte_bit a 6)); pose proof (Hz (byte_bit a 7)); pose proof (Hz (byte_bit b 0));
  pose proof (Hz (byte_bit b 1)); pose proof (Hz (byte_bit b 2)); pose proof (Hz (byte_bit b 3));
  pose proof (Hz (byte_bit b 4)); pose proof (Hz (byte_bit b 5)); pose proof (Hz (byte_bit b 6));
  pose proof (Hz (byte_bit b 7)).
  assert (i = 0 ∨ i = 1 ∨ i = 2 ∨ i = 3 ∨ i = 4 ∨ i = 5 ∨ i = 6 ∨ i = 7) as Hcases by lia.
  destruct_or! Hcases; subst i; rewrite H0, H1; repeat rewrite Hj by lia;
    change (b2z false) with 0; change (b2z true) with 1; lia.
Qed.

Lemma byte_bit_data b d j : 0 <= j < 8 → data_bit (b :: d) j = byte_bit b j.
Proof. intros Hj. unfold data_bit. rewrite Z.div_small, Z.mod_small by lia. done. Qed.

Lemma data_bit_tail b d i : 0 <= i → data_bit (b :: d) (8 + i) = data_bit d i.
Proof.
  intros Hi. change (b :: d) with ([b] ++ d). rewrite data_bit_app_r by (change (len [b]) with 1; lia).
  change (len [b]) with 1. f_equal. lia.
Qed.

Lemma bytes_lt_first_bit d1 : ∀ d2 i,
  len d1 = len d2 → Forall is_byte d1 → Forall is_byte d2 → 0 <= i < 8 * len d1 →
  (∀ j, 0 <= j < i → data_bit d1 j = data_bit d2 j) → data_bit d1 i = false → data_bit d2 i = true →
  bytes_lt d1 d2.
Proof.
  induction d1 as [|a d1 IH]; intros [|b d2] i Hl H1 H2 Hi Hj E1 E2.
  1,2: change (len (A:=Z) []) with 0 in *; lia.
  { rewrite len_cons in Hl. pose proof (len_nonneg d1). change (len (A:=Z) []) with 0 in Hl. lia. }
  apply Forall_cons in H1 as [Ha H1], H2 as [Hb H2]. rewrite !len_cons in *.
  unfold bytes_lt, bytes_cmp. cbn [list_compare]. destruct (Z.lt_ge_cases i 8) as [Hi8|Hi8].
  - rewrite byte_bit_data in E1, E2 by lia. assert (a < b) as Hab.
    { apply (byte_lt a b i); [done|done|lia| |done|done]. intros j Hji. specialize (Hj j Hji). by rewrite !byte_bit_data in Hj by lia. }
    by rewrite (proj2 (Z.compare_lt_iff _ _) Hab).
  - assert (a = b) as <-.
    { apply byte_ext; [done..|]. intros k Hk. specialize (Hj k ltac:(lia)). by rewrite !byte_bit_data in Hj. }
    rewrite Z.compare_refl. apply (IH d2 (i - 8)); [lia|done|done|lia|..].
    + intros j Hji. specialize (Hj (8 + j) ltac:(lia)). by rewrite !data_bit_tail in Hj by lia.
    + replace i with (8 + (i - 8)) in E1 by lia. by rewrite data_bit_tail in E1 by lia.
    + replace i with (8 + (i - 8)) in E2 by lia. by rewrite data_bit_tail in E2 by lia.
Qed.

(** Keys of one width are in the same order as their bytes. *)
Lemma packed_lt a b : bits_lt a b → len a = len b → bytes_lt (packed a) (packed b).
Proof.
  intros Hlt Hl. destruct (bits_lt_parts a b Hlt Hl) as (p & a' & b' & -> & ->).
  pose proof (len_nonneg p). pose proof (len_nonneg a').
  pose proof (div_ceil_8 (len (p ++ false :: a')) (len_nonneg _)).
  apply (bytes_lt_first_bit _ _ (len p)); [by rewrite !len_packed, Hl|apply packed_bytes..| | | |].
  - rewrite len_packed. rewrite len_app, len_cons in *. lia.
  - intros j Hj. rewrite !data_bit_packed by lia. unfold nth_bit. by rewrite !get_app_l by lia.
  - rewrite data_bit_packed by lia. unfold nth_bit. by rewrite get_at.
  - rewrite data_bit_packed by lia. unfold nth_bit. by rewrite get_at.
Qed.

Lemma packed_le a b : len a = len b → bytes_le (packed a) (packed b) → a = b ∨ bits_lt a b.
Proof.
  intros Hl Hle. destruct (bits_lt_total a b Hl) as [|[|Hlt]]; [by left|by right|].
  apply packed_lt in Hlt; [|done]. apply bytes_le_cases in Hle as [E|Hle].
  - rewrite E in Hlt. by apply bytes_lt_irrefl in Hlt.
  - exfalso. apply (bytes_lt_irrefl (packed a)). by transitivity (packed b).
Qed.

Lemma packed_lt_bits a b : len a = len b → bytes_lt (packed a) (packed b) → bits_lt a b.
Proof.
  intros Hl Hlt. destruct (packed_le a b Hl) as [->|]; [apply bytes_le_cases; by right| |done].
  by apply bytes_lt_irrefl in Hlt.
Qed.

(** ** What a walk has seen *)

Lemma bits_lt_irrefl a : ¬ bits_lt a a.
Proof. induction a as [|x a IH]; cbn [bits_lt]; [intros []|]. intros [[-> [=]]|[_ H]]. auto. Qed.

Lemma bits_lt_trans a b c : bits_lt a b → bits_lt b c → bits_lt a c.
Proof.
  revert b c. induction a as [|x a IH]; intros [|y b] [|z c]; cbn [bits_lt]; try done.
  intros [[-> ->]|[-> H1]] [[E1 E2]|[E H2]]; subst; try done; [by left|by left|]. right. split; [done|by eapply IH].
Qed.

Lemma bits_lt_forks q k k2 : ¬ bits_lt (q ++ true :: k) (q ++ false :: k2).
Proof. induction q as [|y q IH]; cbn [bits_lt app]; [by intros [[[=] ?]|[[=] ?]]|]. intros [[-> [=]]|[_ H]]. auto. Qed.

(** Everything before a point of a walk is either listed by then or not in the tree:
    a pruned branch would have stopped the walk. *)
Lemma walk_sees t : ∀ n p kvs rest k',
  tree_wf n t → entries p t = (Ok <$> kvs) ++ rest → len k' = n →
  match rest with [] => True | Ok (k, _) :: _ => bits_lt (p ++ k') k | Err _ :: _ => False end →
  tget t k' = Absent ∨ ∃ v, tget t k' = Found v ∧ (p ++ k', v) ∈ kvs.
Proof.
  induction t as [l v|l a IHa b IHb|c]; intros n p kvs rest k' Hwf He Hk Hrest; cbn [entries] in He.
  - rewrite tget_leaf. case_decide as Ek; [|by left]. subst k'. right. exists v. split; [done|].
    destruct kvs as [|kv kvs]; cbn [fmap list_fmap app] in He.
    + subst rest. by apply bits_lt_irrefl in Hrest.
    + injection He as <- _. by left.
  - destruct Hwf as (Hl & Wa & Wb). destruct (strip l k') as [[|x k]|] eqn:E.
    { apply strip_Some in E as ->. left. cbn [tget]. by rewrite strip_app. }
    2:{ left. cbn [tget]. by rewrite E. }
    apply strip_Some in E as ->. rewrite len_app, len_cons in Hk. rewrite tget_fork.
    assert (p ++ l ++ x :: k = (p ++ l ++ [x]) ++ k) as Ep by by rewrite <- !app_assoc.
    apply app_eq_app in He as [m [[Ea Er]|[Ek Eb]]].
    + destruct x.
      * destruct m as [|e m].
        { rewrite app_nil_r in Ea. cbn in Er. destruct (IHb _ (p ++ l ++ [true]) [] rest k Wb) as [Hab|(v & Hv & Hin)];
            [by rewrite Er|lia|by rewrite <- Ep|by left|by apply elem_of_nil in Hin]. }
        exfalso. subst rest. destruct e as [[ke ve]|e]; [|done].
        assert (Ok (ke, ve) ∈ entries (p ++ l ++ [false]) a) as [k2 ->]%entries_prefix by (rewrite Ea, elem_of_app; right; by left).
        rewrite <- !app_assoc in Hrest. cbn [app] in Hrest. rewrite !(app_assoc p l) in Hrest. by apply bits_lt_forks in Hrest.
      * destruct (IHa _ (p ++ l ++ [false]) kvs m k Wa) as [?|(v & Hv & Hin)]; [done|lia| |by left|right; exists v; by rewrite Ep].
        subst rest. destruct m as [|[[ke ve]|] m]; [done| |done]. by rewrite <- Ep.
    + apply fmap_app_inv in Ek as (kva & kvb & Eka & Ekb & ->).
      destruct x.
      * destruct (IHb _ (p ++ l ++ [true]) kvb rest k Wb) as [?|(v & Hv & Hin)]; [by rewrite Eb, Ekb|lia| |by left|].
        { destruct rest as [|[[ke ve]|] rest]; [done| |done]. by rewrite <- Ep. }
        right. exists v. split; [done|]. rewrite Ep, elem_of_app. by right.
      * destruct (IHa _ (p ++ l ++ [false]) kva [] k Wa) as [?|(v & Hv & Hin)]; [by rewrite app_nil_r|lia|done|by left|].
        right. exists v. split; [done|]. rewrite Ep, elem_of_app. by left.
  - exfalso. destruct kvs as [|kv kvs]; cbn in He; [by subst rest|done].
Qed.

(** ** The entries of a dictionary *)

Lemma until_err_bound {A} (es : list (result CellError A)) : (length (until_err es) <= length es)%nat.
Proof. induction es as [|[] es IH]; cbn; lia. Qed.

(** A list of results up to its first error. *)
Lemma until_err_cases {A} (es : list (result CellError A)) :
  ∃ good bad, es = (Ok <$> good) ++ bad ∧
    (bad = [] ∧ until_err es = Ok <$> good ∨ ∃ e r, bad = Err e :: r ∧ until_err es = (Ok <$> good) ++ [Err e]).
Proof.
  induction es as [|[a|e] es IH].
  - exists [], []. split; [done|]. by left.
  - destruct IH as (good & bad & -> & Hbad). exists (a :: good), bad. split; [done|]. cbn [until_err fmap list_fmap app].
    destruct Hbad as [[-> E]|(e & r & -> & E)]; rewrite E; [left; done|right]. by exists e, r.
  - exists [], (Err e :: es). split; [done|]. right. by exists e, es.
Qed.

Section queries.
Context `{Hasher}.

Lemma entries_places shape `{!LawfulShape shape} st n c t p : shows shape st n c t → (length (entries p t) <= places c)%nat.
Proof.
  intros Hs. revert p. induction Hs as [n c _ _|n c f e l q v _ _ _ _ _ _ _ _|n c f e l ca cb a b _ _ _ _ _ Hr _ _ IHa _ IHb]; intros p.
  1,2: by destruct c as [d bl [] ty i]; cbn; lia.
  specialize (IHa (p ++ l ++ [false])). specialize (IHb (p ++ l ++ [true])). cbn [entries]. rewrite length_app.
  destruct c as [d bl [] ty i]; unfold Cell.refs in Hr; cbn in Hr; try done. injection Hr as -> ->. cbn [places inner_refs]. lia.
Qed.

Lemma items_spec st d ot :
  represents st d ot → seen <$> items d = expected <$> until_err (dentries ot).
Proof.
  intros Hr. unfold items. assert (Dict.iter d = MkIter (i_stack (Dict.iter d)) false) as -> by done.
  apply (collect_spec st); [by apply iter_pending|]. destruct Hr as [_ Hr].
  destruct (d_root d) as [c|], ot as [t|]; try done; cbn [dentries]; [|cbn; lia].
  destruct Hr as [_ Hs]. pose proof (entries_places Plain _ _ _ _ [] Hs). lia.
Qed.

Lemma entries_pruned t p e : Err e ∈ entries p t → e = Pruned ∧ ¬ whole t.
Proof.
  revert p. induction t as [l v|l a IHa b IHb|c]; intros p; cbn.
  - by rewrite list_elem_of_singleton.
  - rewrite elem_of_app. intros [Hin|Hin]; [apply IHa in Hin|apply IHb in Hin]; destruct Hin as [-> ?]; tauto.
  - rewrite list_elem_of_singleton. intros [= ->]. auto.
Qed.

Lemma dentries_sees st d ot kvs rest k :
  represents st d ot → dentries ot = (Ok <$> kvs) ++ rest → len k = d_key_bits d →
  match rest with [] => True | Ok (k', _) :: _ => bits_lt k k' | Err _ :: _ => False end →
  dget ot k = Absent ∨ ∃ v, dget ot k = Found v ∧ (k, v) ∈ kvs.
Proof.
  intros [Hn Hr] He Hk Hrest. destruct (d_root d) as [c|], ot as [t|]; try done; [|by left].
  destruct Hr as [_ Hs%shows_wf]. by apply (walk_sees t (d_key_bits d) [] kvs rest k).
Qed.

(** The entries listed are of the dictionary, of its width, and in order. *)
Lemma entries_ordered t : ∀ n p kvs rest, tree_wf n t → entries p t = (Ok <$> kvs) ++ rest →
  StronglySorted bits_lt kvs.*1 ∧ Forall (λ kv, ∃ k, kv.1 = p ++ k ∧ len k = n ∧ tget t k = Found kv.2) kvs.
Proof.
  induction t as [l v|l a IHa b IHb|c]; intros n p kvs rest Hwf He; cbn [entries] in He.
  - destruct kvs as [|kv [|]]; cbn in He; [by split; [constructor|]| |done]. injection He as <- <-. cbn in Hwf. split; [by repeat constructor|].
    apply Forall_singleton. exists l. by rewrite tget_leaf, decide_True.
  - destruct Hwf as (Hl & Wa & Wb).
    assert (∀ (x : bool) kvs', Forall (λ kv, ∃ k, kv.1 = (p ++ l ++ [x]) ++ k ∧ len k = n - len l - 1 ∧
        tget (if x then b else a) k = Found kv.2) kvs' →
      Forall (λ kv, ∃ k, kv.1 = p ++ k ∧ len k = n ∧ tget (TFork l a b) k = Found kv.2) kvs') as Hup.
    { intros x kvs' Hf. eapply Forall_impl; [exact Hf|]. intros kv (k & E & Hk & Hg). exists (l ++ x :: k).
      rewrite tget_fork. rewrite E, len_app, len_cons, <- !app_assoc. split; [done|]. split; [lia|done]. }
    apply app_eq_app in He as [m [[Ea _]|[Ek Eb]]].
    + destruct (IHa _ (p ++ l ++ [false]) kvs m Wa Ea) as [Sa Fa]. split; [done|]. by apply (Hup false).
    + apply fmap_app_inv in Ek as (kva & kvb & Eka & Ekb & ->). subst m.
      destruct (IHa _ (p ++ l ++ [false]) kva [] Wa) as [Sa Fa]; [by rewrite app_nil_r|].
      destruct (IHb _ (p ++ l ++ [true]) kvb rest Wb Eb) as [Sb Fb].
      split; [|apply Forall_app; split; [by apply (Hup false)|by apply (Hup true)]].
      rewrite fmap_app. apply StronglySorted_app_2; [|done..]. intros x y Hx Hy.
      apply list_elem_of_fmap in Hx as (kx & -> & Hx), Hy as (ky & -> & Hy). rewrite Forall_forall in Fa, Fb.
      destruct (Fa kx Hx) as (k1 & -> & _), (Fb ky Hy) as (k2 & -> & _). rewrite <- !app_assoc. do 2 apply bits_lt_app. by left.
  - destruct kvs as [|kv kvs]; cbn in He; [by split; [constructor|]|done].
Qed.

Lemma dentries_ordered st d ot kvs rest :
  represents st d ot → dentries ot = (Ok <$> kvs) ++ rest →
  StronglySorted bits_lt kvs.*1 ∧
  Forall (λ kv, len kv.1 = d_key_bits d ∧ dget ot kv.1 = Found kv.2) kvs.
Proof.
  intros [Hn Hr] He. destruct (d_root d) as [c|], ot as [t|]; try done.
  - destruct Hr as [_ Hs%shows_wf]. destruct (entries_ordered t _ [] kvs rest Hs He) as [Hord Hall]. split; [done|].
    eapply Forall_impl; [exact Hall|]. intros kv (k & E & Hk & Hg). cbn in E. by subst k.
  - destruct kvs; [|done]. by split; [constructor|].
Qed.

(** ** The nearest entries *)

(** An item of a walk that has been seen for what it is. *)
Lemma seen_cons item walk e es :
  seen <$> (item :: walk) = expected <$> (e :: es) →
  seen <$> walk = expected <$> es ∧
  match e with
  | Ok (k, v) => ∃ entry, item = Ok (packed k, entry) ∧ entry_value entry = v
  | Err e => item = Err e
  end.
Proof.
  intros [= E1 E2]. split; [done|]. destruct item as [[f entry]|e1], e as [[k v]|e2]; try done.
  - injection E1 as -> <-. by exists entry.
  - by injection E1 as ->.
Qed.

Lemma at_or_after_spec key good : ∀ walk bad,
  seen <$> walk = expected <$> ((Ok <$> good) ++ bad) →
  (bad = [] ∨ ∃ e, bad = [Err e]) →
  match floor.at_or_after key walk with
  | Ok (Some (f, entry)) =>
      ∃ kvs k rest, good = kvs ++ (k, entry_value entry) :: rest ∧ f = packed k ∧ bytes_le key f ∧
        Forall (λ kv, ¬ bytes_le key (packed kv.1)) kvs
  | Ok None => bad = [] ∧ Forall (λ kv, ¬ bytes_le key (packed kv.1)) good
  | Err e => bad = [Err e]
  end.
Proof.
  induction good as [|[k v] good IH]; intros [|item walk] bad Hs Hbad; try done; cbn [fmap list_fmap app] in Hs.
  - destruct Hbad as [->|[e ->]]; done.
  - destruct bad as [|e bad]; [done|]. apply seen_cons in Hs as [_ He]. destruct Hbad as [|[e' [= -> ->]]]; [done|].
    by subst item.
  - apply seen_cons in Hs as [Hs (entry & -> & <-)]. cbn [floor.at_or_after res_bind]. case_bool_decide as Hle.
    + by exists [], k, good.
    + specialize (IH walk bad Hs Hbad). destruct (floor.at_or_after key walk) as [[[f e]|]|]; [| |done].
      * destruct IH as (kvs & k' & rest & -> & Ef & Hkf & Hall). exists ((k, entry_value entry) :: kvs), k', rest.
        do 3 (split; [done|]). by constructor.
      * destruct IH as [-> Hall]. split; [done|]. by constructor.
Qed.

Lemma at_or_before_spec key good : ∀ walk bad fl,
  seen <$> walk = expected <$> ((Ok <$> good) ++ bad) →
  (bad = [] ∨ ∃ e, bad = [Err e]) →
  match floor.at_or_before key fl walk with
  | Ok r =>
      ∃ kvs rest, good = kvs ++ rest ∧ Forall (λ kv, bytes_le (packed kv.1) key) kvs ∧
        match rest with [] => bad = [] | kv :: _ => ¬ bytes_le (packed kv.1) key end ∧
        match last kvs with
        | None => r = fl
        | Some kv => ∃ entry, r = Some (packed kv.1, entry) ∧ entry_value entry = kv.2
        end
  | Err e => bad = [Err e]
  end.
Proof.
  induction good as [|[k v] good IH]; intros [|item walk] bad fl Hs Hbad; try done; cbn [fmap list_fmap app] in Hs.
  - destruct Hbad as [->|[e ->]]; [|done]. by exists [], [].
  - destruct bad as [|e bad]; [done|]. apply seen_cons in Hs as [_ He]. destruct Hbad as [|[e' [= -> ->]]]; [done|].
    by subst item.
  - apply seen_cons in Hs as [Hs (entry & -> & <-)]. cbn [floor.at_or_before res_bind]. case_bool_decide as Hle.
    + specialize (IH walk bad (Some (packed k, entry)) Hs Hbad).
      destruct (floor.at_or_before key _ walk) as [r|]; [|done].
      destruct IH as (kvs & rest & -> & Hall & Hrest & Hlast). exists ((k, entry_value entry) :: kvs), rest.
      split; [done|]. split; [by constructor|]. split; [done|]. rewrite last_cons.
      destruct (last kvs); [done|]. subst r. by exists entry.
    + exists [], ((k, entry_value entry) :: good). by repeat split.
Qed.

Lemma items_good st d ot :
  represents st d ot →
  ∃ good bad rest, dentries ot = (Ok <$> good) ++ rest ∧ seen <$> items d = expected <$> ((Ok <$> good) ++ bad) ∧
    (bad = [] ∧ rest = [] ∨ bad = [Err Pruned] ∧ ¬ owhole ot).
Proof.
  intros Hr. pose proof (items_spec st d ot Hr) as Hi.
  destruct (until_err_cases (dentries ot)) as (good & rest & E & [[-> E']|(e & r & -> & E')]); rewrite E' in Hi.
  - exists good, [], []. rewrite app_nil_r. split; [by rewrite app_nil_r in E|]. split; [done|by left].
  - assert (e = Pruned ∧ ¬ owhole ot) as [-> Hw].
    { destruct ot as [t|]; cbn [dentries owhole] in *; [|by destruct good].
      apply (entries_pruned t [] e). rewrite E, elem_of_app. right. by left. }
    exists good, [Err Pruned], (Err Pruned :: r). split; [done|]. split; [done|by right].
Qed.

(** A key before a point of the walk is listed by then, or not there. *)
Lemma walk_before st d ot kvs rest k :
  represents st d ot → dentries ot = (Ok <$> kvs) ++ rest → len k = d_key_bits d → (k ∉ kvs.*1) →
  match rest with [] => True | Ok (k', _) :: _ => bits_lt k k' | Err _ :: _ => False end → contents d (packed k) = Ok Absent.
Proof.
  intros Hr He Hk Hout Hrest. rewrite (contents_packed st d ot) by done.
  destruct (dentries_sees st d ot kvs rest k) as [->|(v & _ & Hin)]; try done.
  destruct Hout. apply list_elem_of_fmap. by exists (k, v).
Qed.
End queries.

(** ** Theorems *)

Section theorems.
Context `{Hasher}.

(** The nearest entries to a key, above and below. [entry_at_or_after] answers with an
    entry of the dictionary at the key or past it and shows that no key between is
    there; [entry_at_or_before] the same from the other side. Where they answer with
    nothing, no key on that side is there. A proof cannot hide a nearer entry: keys in
    branches it prunes are not among those shown absent, and the walk that would have
    to pass one fails instead. *)
Theorem dict_nearest st d ot key :
  represents st d ot →
  match floor.entry_at_or_after d key with
  | Ok found =>
      match found with
      | Some (f, entry) => contents d f = Ok (Found (entry_value entry)) ∧ bytes_le key f
      | None => True
      end ∧
      ∀ k, len k = d_key_bits d → bytes_le key (packed k) →
        match found with Some (f, _) => bytes_lt (packed k) f | None => True end → contents d (packed k) = Ok Absent
  | Err e => e = Pruned ∧ ¬ owhole ot
  end ∧
  match floor.entry_at_or_before d key with
  | Ok found =>
      match found with
      | Some (f, entry) => contents d f = Ok (Found (entry_value entry)) ∧ bytes_le f key
      | None => True
      end ∧
      ∀ k, len k = d_key_bits d → bytes_le (packed k) key →
        match found with Some (f, _) => bytes_lt f (packed k) | None => True end → contents d (packed k) = Ok Absent
  | Err e => e = Pruned ∧ ¬ owhole ot
  end.
Proof.
  intros Hr. destruct (items_good st d ot Hr) as (good & bad & rest & He & Hs & Hbad).
  assert (bad = [] ∨ ∃ e, bad = [Err e]) as Hb by (destruct Hbad as [[-> _]|[-> _]]; eauto).
  assert (bad = [] → rest = []) as Hend by (destruct Hbad as [[_ ->]|[-> _]]; done).
  assert (∀ e, bad = [Err e] → e = Pruned ∧ ¬ owhole ot) as Hp.
  { intros e ->. destruct Hbad as [[? _]|[E Hw]]; [done|]. by injection E as ->. }
  destruct (dentries_ordered st d ot good rest Hr He) as [Hord Hall]. unfold floor.entry_at_or_after, floor.entry_at_or_before.
  split.
  - pose proof (at_or_after_spec key good (items d) bad Hs Hb) as Ha.
    destruct (floor.at_or_after key (items d)) as [[[f entry]|]|e]; [| |by apply Hp].
    + destruct Ha as (kvs & k' & more & -> & -> & Hle & Hbelow). rewrite fmap_app, <- app_assoc in He.
      apply Forall_app in Hall as [_ [Hk' _]%Forall_cons]. destruct Hk' as [Hk' Hg]. cbn [fst snd] in Hk', Hg.
      split; [split; [|done]; by rewrite (contents_packed st d ot), Hg|]. intros k Hk Hle' Hlt.
      apply (walk_before st d ot kvs _ k Hr He Hk); [|cbn; apply packed_lt_bits; [congruence|done]].
      intros (kv & -> & Hin)%list_elem_of_fmap. rewrite Forall_forall in Hbelow. by destruct (Hbelow kv Hin).
    + destruct Ha as [Eb Hbelow]. split; [done|]. intros k Hk Hle' _. rewrite (Hend Eb) in He.
      apply (walk_before st d ot good _ k Hr He Hk); [|done].
      intros (kv & -> & Hin)%list_elem_of_fmap. rewrite Forall_forall in Hbelow. by destruct (Hbelow kv Hin).
  - pose proof (at_or_before_spec key good (items d) bad None Hs Hb) as Ha.
    destruct (floor.at_or_before key None (items d)) as [r|e]; [|by apply Hp].
    destruct Ha as (kvs & more & -> & Hle & Hmore & Hlast). apply Forall_app in Hall as [Hall Hall'].
    split.
    + destruct (last kvs) as [kv|] eqn:El; [|by subst r]. destruct Hlast as (entry & -> & Ev).
      apply last_Some in El as [init ->]. apply Forall_app in Hall as [_ [Hkv _]%Forall_cons].
      apply Forall_app in Hle as [_ [Hle _]%Forall_cons]. destruct Hkv as [Hkv Hg].
      split; [|done]. by rewrite (contents_packed st d ot), Hg, Ev.
    + intros k Hk Hkle Hlt. rewrite fmap_app, <- app_assoc in He. apply (walk_before st d ot kvs _ k Hr He Hk).
      * intros Hin. destruct (last kvs) as [kv|] eqn:El.
        2:{ apply last_None in El as ->. by apply elem_of_nil in Hin. }
        destruct Hlast as (entry & -> & _). apply last_Some in El as [init ->].
        rewrite fmap_app in Hin, Hord. apply StronglySorted_app_1_l in Hord as Hord'.
        rewrite fmap_app in Hord'. apply StronglySorted_app in Hord' as (Hx & _ & _).
        apply Forall_app in Hall as [Ha [Hkv _]%Forall_cons]. apply elem_of_app in Hin as [Hin|Hin%list_elem_of_singleton].
        -- apply packed_lt_bits in Hlt; [|destruct Hkv; congruence].
           apply (bits_lt_irrefl k). specialize (Hx k kv.1 Hin ltac:(by left)). by eapply bits_lt_trans.
        -- subst k. by apply bytes_lt_irrefl in Hlt.
      * destruct more as [|kv more]; [by rewrite (Hend Hmore)|]. cbn [fmap list_fmap app].
        destruct kv as [k' v']. cbn [fst] in Hmore. apply Forall_cons in Hall' as [[Hk' _] _]. cbn [fst] in Hk'.
        destruct (bits_lt_total k k') as [->|[Hb1|Hb1]]; [congruence|done..|]. exfalso. apply Hmore.
        apply packed_lt in Hb1; [|congruence]. apply bytes_le_cases. right. apply bytes_le_cases in Hkle as [<-|Hkle]; [done|].
        by trans (packed k).
Qed.
End theorems.

(** ** What is made of a whole walk *)

Section keep.
Context `{Hasher}.

(** A walk that came to its end has shown every entry, in order. *)
Lemma walk_whole st d ot entries :
  represents st d ot → items d = Ok <$> entries →
  ∃ kvs, (λ kv, (kv.1, entry_value kv.2)) <$> entries = (λ kv, (packed kv.1, kv.2)) <$> kvs ∧
    StronglySorted bits_lt kvs.*1 ∧ Forall (λ kv, len kv.1 = d_key_bits d) kvs ∧
    ∀ k v, len k = d_key_bits d → ((k, v) ∈ kvs ↔ contents d (packed k) = Ok (Found v)).
Proof.
  intros Hr Hi. destruct (items_good st d ot Hr) as (good & bad & rest & He & Hs & Hbad). rewrite Hi in Hs.
  assert (bad = []) as ->.
  { destruct bad as [|[]]; [done| |]; destruct Hbad as [[? _]|[[=] _]]; try done. subst.
    assert (Err Pruned ∈ seen <$> (Ok <$> entries)) as Hin.
    { rewrite Hs, fmap_app, elem_of_app. right. by left. }
    rewrite <- list_fmap_compose in Hin. apply list_elem_of_fmap in Hin as ([k e] & [=] & _). }
  destruct Hbad as [[_ ->]|[[=] _]]. rewrite app_nil_r in Hs. exists good. split.
  { apply (inj (fmap (M:=list) (Ok (E:=CellError)))). rewrite <- !list_fmap_compose in *. etrans; [|etrans; [exact Hs|]];
      apply list_fmap_ext; by intros _ [] _. }
  destruct (dentries_ordered st d ot good [] Hr He) as [Hord Hall]. split; [done|].
  split; [eapply Forall_impl; [exact Hall|]; by intros ? [? _]|]. intros k v Hk.
  rewrite (contents_packed st d ot) by done. split.
  - intros Hin. rewrite Forall_forall in Hall. destruct (Hall _ Hin) as [_ Hg]. cbn [fst snd] in Hg. by rewrite Hg.
  - intros [= Hg]. destruct (dentries_sees st d ot good [] k Hr He Hk I) as [?|(v' & E & Hin)]; congruence.
Qed.

(** ** [count] and [max] *)

Lemma count_ok d entries : items d = Ok <$> entries → count d = Ok (len entries).
Proof.
  intros Hi. unfold count. rewrite Hi. change (len entries) with (Z.of_nat (length entries)). rewrite <- (Z.add_0_l (Z.of_nat _)).
  generalize 0. clear Hi. induction entries as [|e entries IH]; intros n; cbn [fmap list_fmap res_fold res_map res_bind length].
  - f_equal. lia.
  - rewrite IH. f_equal. lia.
Qed.

Lemma max_ok d entries : items d = Ok <$> entries → max d = Ok (last entries).
Proof. intros Hi. unfold max. rewrite Hi, fmap_last. by destruct (last entries). Qed.

(** ** Removals, one after another *)

Lemma packed_key_wide k n : len k = n → n <= 8 * len (packed k).
Proof. intros <-. pose proof (div_ceil_8 (len k) (len_nonneg k)). rewrite len_packed. unfold div_ceil in *. zdiv. Qed.

Lemma roomy_less n ot ot' :
  roomy n ot → (∀ k, dget ot' k = Absent ∨ dget ot' k = dget ot k) → roomy n ot'.
Proof. intros Hr Hg k. specialize (Hr k). by destruct (Hg k) as [->| ->]. Qed.

(** One removal by a whole key. *)
Lemma remove_packed st d ot k :
  represents st d ot → len k = d_key_bits d →
  match Dict.remove (packed k) d with
  | (Ok _, d') => ∃ ot', represents st d' ot' ∧ d_key_bits d' = d_key_bits d ∧
      ∀ k', dget ot' k' = if decide (k' = k) then Absent else dget ot k'
  | (Err _, d') => d' = d ∧ ¬ roomy (d_key_bits d) ot
  end.
Proof.
  intros Hr Hk. pose proof (remove_spec st d ot (packed k) Hr (packed_key_wide _ _ Hk)) as Hs. cbv zeta in Hs.
  rewrite <- Hk, bits_of_packed, Hk in Hs. destruct (dget ot k) as [v| |] eqn:Eg.
  - destruct Hs as [(d' & ot' & -> & ? & ? & _ & ?)|[[e ->] ?]]; [by exists ot'|done].
  - rewrite Hs. exists ot. do 2 (split; [done|]). intros k'. case_decide; [by subst|done].
  - rewrite Hs. split; [done|]. intros Hroom. specialize (Hroom k). by rewrite Eg in Hroom.
Qed.

Lemma remove_all st keys : ∀ d ot,
  represents st d ot → Forall (λ k, len k = d_key_bits d) keys →
  match st_for (packed <$> keys) (λ key, run! Dict.remove key; st_ret tt) d with
  | (Ok _, d') => ∃ ot', represents st d' ot' ∧ d_key_bits d' = d_key_bits d ∧
      ∀ k, dget ot' k = if decide (k ∈ keys) then Absent else dget ot k
  | (Err _, d') => (∃ ot', represents st d' ot') ∧ ¬ roomy (d_key_bits d) ot
  end.
Proof.
  induction keys as [|key keys IH]; intros d ot Hr Hall; cbn [fmap list_fmap st_for].
  { exists ot. do 2 (split; [done|]). intros k. by rewrite decide_False by (by intros ?%elem_of_nil). }
  apply Forall_cons in Hall as [Hk Hall]. pose proof (remove_packed st d ot key Hr Hk) as H1.
  unfold st_bind at 1 2. destruct (Dict.remove (packed key) d) as [[b|e] d1]; [|by destruct H1 as [-> ?]; eauto].
  destruct H1 as (ot1 & Hr1 & Hb1 & Hg1). cbn [st_ret]. specialize (IH d1 ot1 Hr1). rewrite Hb1 in IH. specialize (IH Hall).
  destruct (st_for _ _ d1) as [[u|e] d2].
  - destruct IH as (ot2 & Hr2 & Hb2 & Hg2). exists ot2. do 2 (split; [done|]). intros k. rewrite Hg2, Hg1.
    destruct (decide (k ∈ keys)); [by rewrite decide_True by by right|]. case_decide as E; [subst; by rewrite decide_True by left|].
    rewrite decide_False; [done|]. by intros [?|?]%elem_of_cons.
  - destruct IH as [Hr2 Hroom]. split; [done|]. intros Hroomy. apply Hroom. apply (roomy_less _ ot); [done|].
    intros k. rewrite Hg1. case_decide; auto.
Qed.
End keep.

(** ** [retain] *)

Section retain.
Context `{Hasher} {S : Type} (keep : list Z → DictEntry → S → bool * S).

(** The keys a closure turns down, shown the entries one after another, and what the
    closure is left with. *)
Fixpoint dropped (entries : list (list Z * DictEntry)) (s : S) : list (list Z) * S :=
  match entries with
  | [] => ([], s)
  | (key, entry) :: entries =>
      let '(kept, s) := keep key entry s in
      let '(keys, s) := dropped entries s in
      (if kept then keys else key :: keys, s)
  end.

Definition show_one : list (list Z) * S → result CellError (list Z * DictEntry) → result CellError (list (list Z) * S) :=
  λ '(to_remove, s) item,
    let? '(key, entry) := item in
    let '(kept, s) := keep key entry s in
    Ok (if kept : bool then to_remove else to_remove ++ [key], s).

Lemma show_all entries : ∀ keys s,
  res_fold show_one (Ok <$> entries) (keys, s) = Ok (keys ++ (dropped entries s).1, (dropped entries s).2).
Proof.
  induction entries as [|[key entry] entries IH]; intros keys s; cbn [fmap list_fmap res_fold dropped]; [by rewrite app_nil_r|].
  cbn [show_one res_bind]. destruct (keep key entry s) as [[] s1]; cbn [res_bind]; rewrite IH;
    destruct (dropped entries s1); [done|]. cbn [fst snd]. by rewrite <- app_assoc.
Qed.

Lemma dropped_shown entries s : (dropped entries s).1 ⊆ entries.*1.
Proof.
  revert s. induction entries as [|[key entry] entries IH]; intros s; [done|]. cbn [dropped].
  destruct (keep key entry s) as [kept s1]. specialize (IH s1). destruct (dropped entries s1) as [keys s2]. cbn [fst] in *.
  intros k. destruct kept; [intros ?%IH; by right|]. intros [->|?%IH]%elem_of_cons; [by left|by right].
Qed.
End retain.

Lemma roomy_whole n ot : roomy n ot → owhole ot.
Proof.
  destruct ot as [t|]; [|done]. cbn [owhole]. intros Hr.
  assert (∀ k, tget t k ≠ PrunedAway) as Hk by (intros k E; specialize (Hr k); cbn [dget] in Hr; by rewrite E in Hr).
  clear Hr. induction t as [l v|l a IHa b IHb|c]; cbn [whole]; [done| |by destruct (Hk [])].
  split; [apply IHa|apply IHb]; intros k E; [apply (Hk (l ++ false :: k))|apply (Hk (l ++ true :: k))];
    by rewrite tget_fork.
Qed.

(** A list of keys that are all spelled by bits is. *)
Lemma keys_packed n keys ks :
  keys ⊆ packed <$> ks → Forall (λ k, len k = n) ks → ∃ ks', keys = packed <$> ks' ∧ Forall (λ k, len k = n) ks'.
Proof.
  intros Hin Hall. induction keys as [|key keys IH]; [by exists []|].
  destruct IH as (ks' & -> & Hall'); [intros k ?; apply Hin; by right|].
  destruct (proj1 (list_elem_of_fmap packed ks key)) as (k & -> & Hk); [apply Hin; by left|].
  exists (k :: ks'). split; [done|]. constructor; [|done]. rewrite Forall_forall in Hall. by apply Hall.
Qed.

(** ** Theorems *)

Section theorems.
Context `{Hasher}.

(** C11: [retain] shows the closure every entry once, in key order, whatever the closure
    keeps to itself between calls, and leaves the dictionary with exactly the entries it
    kept. It fails only where a pruned branch hides entries or a removal has no room for
    the longer label; what it leaves behind is still a dictionary. *)
Theorem dict_retain {S} (keep : list Z → DictEntry → S → bool * S) (s : S) st d ot :
  represents st d ot →
  match retain keep s d with
  | (Ok s', d') =>
      ∃ entries ks, items d = Ok <$> entries ∧ entries.*1 = packed <$> ks ∧ StronglySorted bits_lt ks ∧
        (∀ k, len k = d_key_bits d → (k ∈ ks ↔ ∃ v, contents d (packed k) = Ok (Found v))) ∧
        s' = (dropped keep entries s).2 ∧ (∃ ot', represents st d' ot') ∧ d_key_bits d' = d_key_bits d ∧
        ∀ k, len k = d_key_bits d → contents d' (packed k) =
          if decide (packed k ∈ (dropped keep entries s).1) then Ok Absent else contents d (packed k)
  | (Err _, d') => (∃ ot', represents st d' ot') ∧ ¬ roomy (d_key_bits d) ot
  end.
Proof.
  intros Hr. unfold retain. fold (show_one keep). destruct (items_good st d ot Hr) as (good & bad & rest & _ & Hs & Hbad).
  destruct (until_err_cases (items d)) as (entries & more & Ei & Hmore). destruct more as [|[x|e] more].
  - rewrite app_nil_r in Ei. rewrite Ei, show_all. cbn [app].
    destruct (walk_whole st d ot entries Hr Ei) as (kvs & Hkv & Hsorted & Hwide & Hin).
    assert (entries.*1 = packed <$> kvs.*1) as Hkeys.
    { apply (f_equal (fmap fst)) in Hkv. rewrite <- !list_fmap_compose in Hkv. by rewrite <- list_fmap_compose. }
    assert (Forall (λ k, len k = d_key_bits d) kvs.*1) as Hwide' by by apply Forall_fmap.
    destruct (keys_packed (d_key_bits d) (dropped keep entries s).1 kvs.*1) as (ks & Eks & Hks);
      [rewrite <- Hkeys; apply dropped_shown|done|].
    rewrite Eks. pose proof (remove_all st ks d ot Hr Hks) as Hrem. unfold st_bind.
    destruct (st_for _ _ d) as [[u|e] d']; [|done]. destruct Hrem as (ot' & Hr' & Hb & Hg). cbn [st_ret].
    exists entries, kvs.*1. do 3 (split; [done|]). split.
    { intros k Hk. rewrite list_elem_of_fmap. split; [intros ([k' v] & -> & Hkv'); exists v; by apply Hin|].
      intros [v Hv]. exists (k, v). split; [done|]. by apply Hin. }
    split; [done|]. split; [by exists ot'|]. split; [done|]. intros k Hk. rewrite Eks.
    rewrite (contents_packed st d' ot'), Hg, (contents_packed st d ot) by congruence.
    rewrite (decide_ext (packed k ∈ packed <$> ks) (k ∈ ks)); [by case_decide|]. rewrite list_elem_of_fmap. split; [|by exists k].
    intros (k' & E & Hin'). rewrite Forall_forall in Hks. specialize (Hks k' Hin').
    apply (f_equal (λ bs, bits_of bs (len k))) in E. rewrite bits_of_packed, Hk, <- Hks, bits_of_packed in E. by subst.
  - by destruct Hmore as [[? _]|(? & ? & ? & _)].
  - rewrite Ei, res_fold_app, show_all. cbn [res_bind res_fold show_one]. split; [by exists ot|].
    intros Hw%roomy_whole. destruct Hbad as [[-> _]|[_ ?]]; [|done]. rewrite app_nil_r, Ei, fmap_app in Hs.
    assert (Err e ∈ expected <$> (Ok <$> good)) as Hin by (rewrite <- Hs, elem_of_app; right; by left).
    rewrite <- list_fmap_compose in Hin. apply list_elem_of_fmap in Hin as ([k v] & [=] & _).
Qed.
End theorems.

(** ** Rerooting: the dictionary of the keys under a prefix *)

#[local] Arguments uint_bits : simpl never.

(** A key that ends within a label does not part from it. *)
Lemma diverges_within {R} `{BitRun R} (label : R) key k :
  LawfulRun label → run_bits label = key ++ k → diverges label key = None.
Proof.
  intros Hr Hl. unfold diverges. destruct (find _ _) as [i|] eqn:E; [|done].
  apply find_some in E as [Hi%list_elem_of_In%elem_of_seqZ Hf].
  destruct (get key i) as [b|] eqn:Eg; [|done]. pose proof (get_Some_lt _ _ _ Eg).
  rewrite (run_bit_get label Hr i b), Bool.eqb_reflx in Hf; [done|]. by rewrite Hl, get_app_l by lia.
Qed.

(** A label and a prefix of a key part, or one begins the other. *)
Lemma prefix_cases (ahead l : list bool) :
  (∃ p x l' k', l = p ++ x :: l' ∧ ahead = p ++ negb x :: k') ∨
  (∃ l', l = ahead ++ l') ∨ (∃ x k, ahead = l ++ x :: k).
Proof.
  destruct (Z.le_ge_cases (len l) (len ahead)) as [Hl|Hl].
  - destruct (key_cases ahead l Hl) as [[[|x k] ->]|?]; [right; left|right; right|by left].
    + exists []. by rewrite !app_nil_r.
    + by exists x, k.
  - destruct (key_cases l ahead Hl) as [[k ->]|(p & x & l' & k' & -> & ->)]; [right; left; by exists k|left].
    exists p, (negb x), k', l'. by rewrite negb_involutive.
Qed.

Section sub.
Context `{Hasher} (shape : Shape) `{!LawfulShape shape}.
Local Abbreviation shows := (shows shape).

(** What rerooting at a prefix gives: the part of the tree under it. *)
Definition rerooted (st : bool) (n : Z) (t : tree) (ahead : list bool) (r : result CellError (option Cell)) : Prop :=
  match r with
  | Ok (Some c') => ∃ t', cell_wf c' ∧ shows st (n - len ahead) c' t' ∧ (whole t → whole t') ∧
      ∀ k, tget t' k = tget t (ahead ++ k)
  | Ok None => ∀ k, tget t (ahead ++ k) = Absent
  | Err e => e = Pruned ∧ ∀ k, tget t (ahead ++ k) = PrunedAway
  end.

(** A node the prefix ends at or within. *)
Lemma reroot_here st n c t lab ahead l' :
  shows st n c t → cell_wf c → n <= MAX_BITS → label_ok lab → lbits lab = label_of t →
  (∀ h, t ≠ THole h) → label_of t = ahead ++ l' → len ahead <= MAX_BITS →
  ∀ slice, skip_label n (Slice.new c) = (Ok tt, slice) →
  rerooted st n t ahead
    (let? fresh := built (run! store_label (Label.tail lab (len ahead)) (n - wrap 16 (len ahead));
                          Builder.store_slice slice) in Ok (Some fresh)).
Proof.
  intros Hs Hwf Hn Hok Hlb Hh Hl Ha slice Hskip. pose proof (len_nonneg ahead).
  assert (wrap 16 (len ahead) = len ahead) as -> by (apply Z.mod_small; unfold MAX_BITS in *; simpl; lia).
  destruct (tail_shows shape st n c t lab ahead l' Hs Hwf Hn Hok Hlb Hh Hl) as (c' & Hc & Wc & Sc).
  rewrite Hskip in Hc. change (λ kept : Builder, Builder.store_slice slice kept) with (Builder.store_slice slice) in Hc.
  rewrite Hc. cbn [res_bind rerooted]. exists (with_label l' t). do 2 (split; [done|]).
  split; [by rewrite whole_with_label|]. intros k.
  assert (∀ h, with_label l' t ≠ THole h) as Hh' by (intros h; destruct t; [done..|by destruct (Hh c0)]).
  pose proof (tget_relabel ahead (with_label l' t) k Hh') as E.
  rewrite label_of_with_label, with_label_with_label, <- Hl, with_label_self in E by done. done.
Qed.

Lemma reroot_spec st n c t :
  shows st n c t → cell_wf c → n <= MAX_BITS →
  ∀ fuel pre ahead lab, len ahead <= n → (length ahead < fuel)%nat → label_ok lab →
  rerooted st n t ahead (reroot_loop fuel (pre ++ ahead) c n (len pre) lab).
Proof.
  induction 1 as [n c Hn Hx|n c f ex l q v Hx Hf Hl He Hv Hb Hr Hst|n c f ex l ca cb a b Hx Hf Hl He Hb Hr Hst Ha IHa Hbb IHb];
    intros Hwf Hm [|fuel] pre ahead lab Hal Hfuel Hlab; try lia; cbn [reroot_loop]; rewrite Hx; [done|..];
    rewrite rest_app; cbv zeta.
  all: assert (∃ pb, Cell.bits c = form_bits n f l ++ pb) as [pb Hpb]
    by first [by exists v.1|by exists (extra_bits ex)].
  all: pose proof (len_nonneg l); case_bool_decide as Enil.
  1,3: subst ahead; cbn [rerooted]; eexists; split; [done|]; split; [|split; [done|by intros]];
    rewrite Z.sub_0_r; by econstructor.
  all: destruct (read_node n c f l pb (S := Label) lab Hwf) as (lab' & -> & Hok & Hbl & Hskip);
    [lia|lia|done|done|]; cbn [sink_bits sink_ok label_lawful_sink] in Hbl, Hok.
  all: pose proof (label_run_bits _ Hok) as Hrun; rewrite Hbl in Hrun; pose proof (len_lbits _ Hok) as Hll; rewrite Hbl in Hll.
  all: destruct (prefix_cases ahead l) as [(p & x & l' & k' & El & Ea)|[[l' El]|(x & k & Ea)]].
  (* parted *)
  1,4: rewrite (diverges_some lab' (label_lawful _ Hok) ahead p x l' k') by (by rewrite Hrun || done);
    rewrite bool_decide_true by (by eexists); cbn [rerooted]; intros k; cbn [tget]; rewrite El, Ea, <- app_assoc;
    rewrite strip_prefix_app, strip_app; by destruct x.
  (* within the label *)
  1,3: rewrite (diverges_within lab' ahead l' (label_lawful _ Hok)) by (by rewrite Hrun);
    rewrite bool_decide_false by (by intros []); rewrite (proj2 (Z.leb_le _ _)) by (rewrite <- Hll, El, len_app; pose proof (len_nonneg l'); lia);
    eapply reroot_here; [by econstructor|done|lia|done|by rewrite Hbl|done|exact El|lia|done].
  (* past it *)
  - exfalso. apply (f_equal len) in Ea. rewrite len_app, len_cons in Ea. pose proof (len_nonneg k). lia.
  - rewrite (diverges_none lab' (label_lawful _ Hok) ahead (x :: k)) by by rewrite Hrun.
    rewrite bool_decide_false by by intros []. subst ahead. rewrite len_app, len_cons in Hal. pose proof (len_nonneg k).
    rewrite (proj2 (Z.leb_gt _ _)) by (rewrite <- Hll, len_app, len_cons; lia).
    rewrite (proj2 (Z.eqb_neq _ _)) by lia. unfold Label.width.
    assert (rest (pre ++ l ++ x :: k) (len pre + l_len lab') = x :: k) as ->.
    { rewrite <- Hll, <- len_app, app_assoc. apply rest_app. }
    change (default false (head (x :: k))) with x. destruct (two_refs c ca cb x Hr Hwf) as (Eref & _ & Wa & Wb). rewrite Eref. cbn [ok_or res_bind].
    assert (len pre + l_len lab' + 1 = len (pre ++ l ++ [x])) as -> by (rewrite !len_app; change (len [x]) with 1; lia).
    replace (pre ++ l ++ x :: k) with ((pre ++ l ++ [x]) ++ k) by by rewrite <- !app_assoc.
    replace (n - (l_len lab' + 1)) with (n - len l - 1) by lia.
    rewrite length_app in Hfuel. cbn [length] in Hfuel.
    assert (rerooted st (n - len l - 1) (if x then b else a) k
      (reroot_loop fuel ((pre ++ l ++ [x]) ++ k) (if x then cb else ca) (n - len l - 1) (len (pre ++ l ++ [x])) lab')) as Hre.
    { destruct x; [apply IHb|apply IHa]; done || lia. }
    revert Hre. generalize (reroot_loop fuel ((pre ++ l ++ [x]) ++ k) (if x then cb else ca) (n - len l - 1) (len (pre ++ l ++ [x])) lab').
    assert (∀ k', tget (TFork l a b) ((l ++ x :: k) ++ k') = tget (if x then b else a) (k ++ k')) as Eg.
    { intros k'. rewrite <- app_assoc. apply tget_fork. }
    intros [[c'|]|e]; cbn [rerooted].
    + intros (t' & Wc & Sc & Ww & Hg). exists t'. split; [done|]. rewrite len_app, len_cons.
      replace (n - (len l + (1 + len k))) with (n - len l - 1 - len k) by lia. split; [done|].
      split; [intros [? ?]; apply Ww; by destruct x|]. intros k'. by rewrite Eg.
    + intros Hg k'. by rewrite Eg.
    + intros [-> Hg]. split; [done|]. intros k'. by rewrite Eg.
Qed.
End sub.

(** ** Theorems *)

Section theorems.
Context `{Hasher}.

(** The dictionary carved out under a prefix holds exactly the entries whose keys start
    with it, the prefix taken off, in cells as the dictionary itself would write them
    where it wrote the whole. It is refused only for a prefix wider than the key or
    than the bytes it is given in, or where everything under the prefix is pruned away. *)
Theorem dict_subdict st d ot prefix bits :
  represents st d ot → 0 <= bits →
  match floor.subdict d prefix bits with
  | Ok d' =>
      (∃ ot', represents st d' ot' ∧ (owhole ot → owhole ot')) ∧ d_key_bits d' = d_key_bits d - bits ∧
      ∀ k, len k = d_key_bits d - bits → contents d' (packed k) = contents d (packed (bits_of prefix bits ++ k))
  | Err e =>
      d_key_bits d < bits ∨ 8 * len prefix < bits ∨
      e = Pruned ∧ ∀ k, len k = d_key_bits d - bits → contents d (packed (bits_of prefix bits ++ k)) = Ok PrunedAway
  end.
Proof.
  intros Hr Hbits. pose proof Hr as [Hn Hroot]. unfold floor.subdict.
  destruct (Z.ltb_spec (d_key_bits d) bits); [by left|]. rewrite key_of_spec by done.
  destruct (Z.ltb_spec (8 * len prefix) bits); [by right; left|]. cbn [res_bind]. cbv zeta.
  set (want := bits_of prefix bits). assert (len want = bits) as Hw by by apply len_bits_of.
  assert (∀ k, len k = d_key_bits d - bits → contents d (packed (want ++ k)) = Ok (dget ot (want ++ k))) as Hc.
  { intros k Hk. apply (contents_packed st); [done|]. rewrite len_app. lia. }
  assert (∀ root, Dict.from_root root (d_key_bits d - bits) = Ok (MkDict root (d_key_bits d - bits))) as Hfr.
  { intros root. unfold Dict.from_root, check_key_bits. by rewrite (proj2 (Z.ltb_ge _ _)) by lia. }
  assert (represents st (MkDict None (d_key_bits d - bits)) None) as Hempty by (split; [cbn; lia|done]).
  unfold Dict.new. destruct (d_root d) as [c|], ot as [t|]; try done.
  - destruct Hroot as [Wc Sc].
    pose proof (reroot_spec Plain st _ c t Sc Wc ltac:(lia) (S (length want)) [] want Label.new ltac:(lia) ltac:(lia) (proj1 new_ok)) as Hre.
    rewrite app_nil_l in Hre. change (len (A:=bool) []) with 0 in Hre. fold (reroot c (d_key_bits d) want) in Hre.
    destruct (reroot c (d_key_bits d) want) as [[c'|]|e]; cbn [rerooted res_bind] in *.
    + destruct Hre as (t' & Wc' & Sc' & Ww & Hg). rewrite Hfr. rewrite Hw in Sc'.
      assert (represents st (MkDict (Some c') (d_key_bits d - bits)) (Some t')) as Hr' by (split; [cbn; lia|done]).
      split; [by exists (Some t')|]. split; [done|]. intros k Hk. rewrite (contents_packed st _ (Some t')), Hc by done.
      cbn [dget]. by rewrite Hg.
    + rewrite Hfr. split; [by exists None|]. split; [done|]. intros k Hk.
      rewrite (contents_packed st _ None), Hc by done. cbn [dget]. by rewrite Hre.
    + right. right. destruct Hre as [-> Hg]. split; [done|]. intros k Hk. rewrite Hc by done. cbn [dget]. by rewrite Hg.
  - rewrite Hfr. split; [by exists None|]. split; [done|]. intros k Hk. by rewrite (contents_packed st _ None), Hc.
Qed.
End theorems.
