(* ===== verification/DictTyped.v ===== *)
(** Integer keys (core/src/cell/dict/typed.rs): which integers a width takes, and the
    dictionary they make. *)

From stdpp Require Import base list list_numbers numbers strings sorting.
From Stdlib Require Import ZArith Lia.
From S2P Require Import Prelude Errors Bits CellData CellHash CellModel CellSlice CellBuilder BuilderOps DictLabel Dict DictTree DictCells DictWalk DictSpec DictTheorems DictOps.

Local Open Scope Z_scope.

(** ** Big-endian bytes in two parts *)

Lemma from_be_app l1 l2 : from_be_bytes (l1 ++ l2) = from_be_bytes l1 * 256 ^ len l2 + from_be_bytes l2.
Proof.
  induction l2 as [|b l2 IH] using rev_ind.
  - rewrite app_nil_r. change (len (A:=Z) []) with 0. change (from_be_bytes []) with 0. lia.
  - rewrite app_assoc, !from_be_snoc, IH, len_app. change (len [b]) with 1. pose proof (len_nonneg l2).
    rewrite Z.pow_add_r by lia. rewrite Z.pow_1_r. ring.
Qed.

Lemma from_be_inj l1 l2 :
  Forall is_byte l1 → Forall is_byte l2 → len l1 = len l2 → from_be_bytes l1 = from_be_bytes l2 → l1 = l2.
Proof.
  revert l2. induction l1 as [|a l1 IH] using rev_ind; intros l2 H1 H2 Hl E.
  - destruct l2 as [|b l2]; [done|]. rewrite len_cons in Hl. change (len (A:=Z) []) with 0 in Hl. pose proof (len_nonneg l2). lia.
  - destruct l2 as [|b l2 _] using rev_ind.
    { rewrite len_app in Hl. change (len [a]) with 1 in Hl. change (len (A:=Z) []) with 0 in Hl. pose proof (len_nonneg l1). lia. }
    apply Forall_app in H1 as [H1 Ha], H2 as [H2 Hb]. rewrite Forall_singleton in Ha, Hb. unfold is_byte in Ha, Hb.
    rewrite !len_app in Hl. change (len [a]) with 1 in Hl. change (len [b]) with 1 in Hl. rewrite !from_be_snoc in E.
    f_equal; [apply IH; [done|done|lia|lia]|f_equal; lia].
Qed.

Lemma from_be_zeros m : from_be_bytes (replicate m 0) = 0.
Proof.
  induction m as [|m IH]; [done|]. change (replicate (S m) 0) with ([0] ++ replicate m 0).
  by rewrite from_be_app, IH.
Qed.

Lemma from_be_ones m : from_be_bytes (replicate m 255) = 256 ^ Z.of_nat m - 1.
Proof.
  induction m as [|m IH]; [done|]. replace (S m) with (m + 1)%nat by lia. rewrite replicate_add. cbn [replicate].
  rewrite from_be_snoc, IH, Nat2Z.inj_add, Z.pow_add_r by lia. change (256 ^ Z.of_nat 1) with 256. ring.
Qed.

Lemma replicate_byte m (b : Z) : is_byte b → Forall is_byte (replicate m b).
Proof. intros. by apply Forall_replicate. Qed.

Lemma existsb_all_eq (fill : Z) l : existsb (λ b, negb (b =? fill)) l = false ↔ l = replicate (length l) fill.
Proof.
  induction l as [|b l IH]; [done|]. cbn [existsb replicate length]. rewrite orb_false_iff, IH, negb_false_iff, Z.eqb_eq.
  split; [by intros [-> <-]|by intros [= -> E]].
Qed.

(** An integer's bytes, cut at [w] from the end. *)
Lemma be_parts v w : 0 <= v < 2 ^ 64 → 0 <= w < 8 →
  let be := to_be_bytes 8 v in
  let high := take (Z.to_nat (len be - w)) be in
  let low := drop (Z.to_nat (len be - w)) be in
  len high = 8 - w ∧ len low = w ∧ Forall is_byte high ∧ Forall is_byte low ∧
  v = from_be_bytes high * 256 ^ w + from_be_bytes low ∧
  0 <= from_be_bytes high < 256 ^ (8 - w) ∧ 0 <= from_be_bytes low < 256 ^ w.
Proof.
  intros Hv Hw be high low. assert (len be = 8) as Hl by (unfold len, be; by rewrite length_to_be_bytes).
  pose proof (to_be_bytes_bytes 8 v) as Hb. fold be in Hb.
  assert (be = high ++ low) as E by (symmetry; apply take_drop).
  assert (len high = 8 - w) as Hh by (unfold high, len in *; rewrite length_take; lia).
  assert (len low = w) as Hlo by (unfold low, len in *; rewrite length_drop; lia).
  rewrite E in Hb. apply Forall_app in Hb as [Bh Bl]. do 4 (split; [done|]).
  assert (from_be_bytes be = v) as Ev by (apply from_to_be_bytes; change (256 ^ Z.of_nat 8) with (2 ^ 64); lia).
  split; [by rewrite <- Ev, E, from_be_app, Hlo|]. rewrite <- Hh, <- Hlo. split; by apply from_be_bounds.
Qed.

(** ** Which keys a width takes *)

(** A key under a width, and the integer its bytes are. *)
Definition spells_key (n : Z) (bytes : list Z) (v : Z) : Prop :=
  n mod 8 = 0 ∧ len bytes = n / 8 ∧ Forall is_byte bytes ∧ from_be_bytes bytes = v.

Lemma pow_width n : 0 <= n → n mod 8 = 0 → 2 ^ n = 256 ^ (n / 8).
Proof. intros Hn Hm. change 256 with (2 ^ 8). rewrite <- Z.pow_mul_r by zdiv. f_equal. zdiv. Qed.

Lemma uint_key_spec key n :
  0 <= n → 0 <= key < 2 ^ 64 →
  match typed.uint_key key n with
  | Ok bytes => spells_key n bytes key ∧ key < 2 ^ n
  | Err _ => n mod 8 ≠ 0 ∨ 2 ^ n <= key
  end.
Proof.
  intros Hn Hk. unfold typed.uint_key, typed.key_width. destruct (Z.eqb_spec (n mod 8) 0) as [Hm|]; [|by left]. cbn [negb res_bind].
  pose proof (pow_width n Hn Hm) as Hp.
  assert (len (to_be_bytes 8 key) = 8) as Hl by (unfold len; by rewrite length_to_be_bytes).
  cbv zeta. rewrite Hl. destruct (Z.leb_spec 8 (n / 8)) as [Hw|Hw].
  - split.
    + split; [done|]. split; [unfold len in *; rewrite length_app, length_replicate; lia|].
      split; [apply Forall_app; split; [by apply replicate_byte|apply to_be_bytes_bytes]|].
      rewrite from_be_app, from_be_zeros, from_to_be_bytes by (change (256 ^ Z.of_nat 8) with (2 ^ 64); lia). lia.
    + rewrite Hp. assert (256 ^ 8 <= 256 ^ (n / 8)) by (apply Z.pow_le_mono_r; lia). change (256 ^ 8) with (2 ^ 64) in *. lia.
  - destruct (be_parts key (n / 8) Hk) as (Lh & Ll & Bh & Bl & Ek & Rh & Rl); [zdiv|]. cbv zeta in *.
    rewrite Hl in *. set (high := take _ _) in *. set (low := drop _ _) in *. rewrite Hp.
    destruct (existsb _ high) eqn:Ex.
    + right. assert (from_be_bytes high ≠ 0).
      { intros E0. assert (existsb (λ b, negb (b =? 0)) high = false); [|congruence]. apply existsb_all_eq.
        apply from_be_inj; [done|by apply replicate_byte|unfold len; by rewrite length_replicate|by rewrite from_be_zeros]. }
      set (m := 256 ^ (n / 8)) in *. clearbody m. nia.
    + apply existsb_all_eq in Ex. rewrite Ex, from_be_zeros in Ek. split; [|lia]. split; [done|]. split; [done|]. split; [done|lia].
Qed.

(** The leading bit of bytes is the leading bit of the integer they are. *)
Lemma top_bit l b w : is_byte b → len (b :: l) = w → Forall is_byte l →
  negb (Z.land b 0x80 =? 0) = (128 * 256 ^ (w - 1) <=? from_be_bytes (b :: l)).
Proof.
  intros Hb Hw Hl. rewrite len_cons in Hw. replace (w - 1) with (len l) by lia.
  change (b :: l) with ([b] ++ l). rewrite from_be_app. change (from_be_bytes [b]) with (0 * 256 + b).
  pose proof (from_be_bounds l Hl) as Hr. set (m := 256 ^ len l) in *. clearbody m.
  assert (negb (Z.land b 128 =? 0) = (128 <=? b)) as ->.
  { revert b Hb. change 128 with 0x80. unfold is_byte. clear.
    assert (∀ x, 0 <= x < 256 → negb (Z.land x 128 =? 0) = (128 <=? x)) as Hd by enum1. intros b Hb. by apply Hd. }
  unfold is_byte in Hb. destruct (Z.leb_spec 128 b), (Z.leb_spec (128 * m) ((0 * 256 + b) * m + from_be_bytes l)); nia || done.
Qed.

Lemma wrap_64_sign key : - 2 ^ 63 <= key < 2 ^ 63 → wrap 64 key = if key <? 0 then key + 2 ^ 64 else key.
Proof.
  intros Hk. unfold wrap. change (2 ^ 64) with 18446744073709551616. change (2 ^ 63) with 9223372036854775808 in Hk.
  destruct (Z.ltb_spec key 0); zdiv.
Qed.

(** The bytes of a key wider than the integer: the sign, and the integer. *)
Lemma int_key_wide key w :
  8 <= w → - 2 ^ 63 <= key < 2 ^ 63 →
  let bytes := replicate (Z.to_nat (w - 8)) (if key <? 0 then 255 else 0) ++ to_be_bytes 8 (wrap 64 key) in
  len bytes = w ∧ Forall is_byte bytes ∧ from_be_bytes bytes = key mod 256 ^ w ∧ 2 * 2 ^ 63 <= 256 ^ w.
Proof.
  intros Hw Hk bytes. pose proof (wrap_64_sign key Hk) as Hu.
  assert (256 ^ w = 256 ^ (w - 8) * 2 ^ 64) as Hp by (change (2 ^ 64) with (256 ^ 8); rewrite <- Z.pow_add_r by lia; f_equal; lia).
  assert (0 < 256 ^ (w - 8)) by (apply Z.pow_pos_nonneg; lia).
  assert (len (to_be_bytes 8 (wrap 64 key)) = 8) as Hl by (unfold len; by rewrite length_to_be_bytes).
  split; [unfold bytes, len in *; rewrite length_app, length_replicate; lia|].
  split; [apply Forall_app; split; [apply replicate_byte; unfold is_byte; case_match; lia|apply to_be_bytes_bytes]|].
  unfold bytes. rewrite from_be_app, Hl.
  rewrite (from_to_be_bytes 8) by (rewrite Hu; change (256 ^ Z.of_nat 8) with (2 ^ 64); destruct (Z.ltb_spec key 0); lia).
  rewrite Hu. change (256 ^ 8) with (2 ^ 64). rewrite Hp. set (m := 256 ^ (w - 8)) in *. split; [|lia].
  destruct (Z.ltb_spec key 0).
  - rewrite from_be_ones. replace (256 ^ Z.of_nat (Z.to_nat (w - 8))) with m by (unfold m; f_equal; lia). clearbody m.
    rewrite <- (Z.mod_add key 1 (m * 2 ^ 64)) by lia. rewrite Z.mod_small by nia. ring.
  - rewrite from_be_zeros. clearbody m. rewrite Z.mod_small by nia. ring.
Qed.

Lemma int_key_spec key n :
  0 <= n → - 2 ^ 63 <= key < 2 ^ 63 →
  match typed.int_key key n with
  | Ok bytes => spells_key n bytes (key mod 2 ^ n) ∧ 0 < n ∧ - 2 ^ n <= 2 * key < 2 ^ n
  | Err _ => n mod 8 ≠ 0 ∨ n = 0 ∨ 2 * key < - 2 ^ n ∨ 2 ^ n <= 2 * key
  end.
Proof.
  intros Hn Hk. unfold typed.int_key, typed.key_width. destruct (Z.eqb_spec (n mod 8) 0) as [Hm|]; [|by left]. cbn [negb res_bind].
  cbv zeta. pose proof (pow_width n Hn Hm) as Hp. rewrite Hp. set (fill := if key <? 0 then 255 else 0).
  assert (len (to_be_bytes 8 (wrap 64 key)) = 8) as Hl by (unfold len; by rewrite length_to_be_bytes).
  pose proof (wrap_64_sign key Hk) as Hu. rewrite Hl. destruct (Z.leb_spec 8 (n / 8)) as [Hw|Hw].
  { destruct (int_key_wide key (n / 8) Hw Hk) as (L & B & E & Hge). fold fill in L, B, E.
    split; [done|]. split; [zdiv|]. lia. }
  assert (0 <= wrap 64 key < 2 ^ 64) as Hr by (rewrite Hu; destruct (Z.ltb_spec key 0); lia).
  destruct (be_parts (wrap 64 key) (n / 8) Hr) as (Lh & Ll & Bh & Bl & Ek & Rh & Rl); [zdiv|]. cbv zeta in *.
  rewrite Hl in *. set (high := take _ _) in *. set (low := drop _ _) in *.
  assert (2 ^ 64 = 256 ^ (8 - n / 8) * 256 ^ (n / 8)) as H64.
  { change (2 ^ 64) with (256 ^ 8). rewrite <- Z.pow_add_r by zdiv. f_equal. zdiv. }
  assert (existsb (λ b, negb (b =? fill)) high = false ↔
    from_be_bytes high = if key <? 0 then 256 ^ (8 - n / 8) - 1 else 0) as Hfill.
  { assert (from_be_bytes (replicate (length high) fill) = if key <? 0 then 256 ^ (8 - n / 8) - 1 else 0) as E.
    { unfold fill. destruct (key <? 0); [|apply from_be_zeros]. rewrite from_be_ones. unfold len in Lh. by rewrite Lh. }
    rewrite existsb_all_eq, <- E. split; [by intros <-|]. intros Ef.
    apply from_be_inj; [done|apply replicate_byte; unfold fill, is_byte; case_match; lia|unfold len; by rewrite length_replicate|done]. }
  destruct low as [|b l].
  { rewrite orb_true_r. right. left. change (len (A:=Z) []) with 0 in Ll. zdiv. }
  cbn [head]. apply Forall_cons in Bl as Hbl. destruct Hbl as [Hb Hbl]. rewrite (top_bit l b (n / 8)) by done.
  assert (0 < n / 8) by (rewrite <- Ll, len_cons; pose proof (len_nonneg l); lia).
  assert (256 ^ (n / 8) = 2 * (128 * 256 ^ (n / 8 - 1))) as Hhalf.
  { replace (256 ^ (n / 8)) with (256 ^ (1 + (n / 8 - 1))) by (f_equal; lia). rewrite Z.pow_add_r by lia. lia. }
  rewrite Hhalf in *. set (half := 128 * 256 ^ (n / 8 - 1)) in *. set (H1 := from_be_bytes high) in *.
  set (L1 := from_be_bytes (b :: l)) in *. set (M := 256 ^ (8 - n / 8)) in *. rewrite Hu in Ek.
  assert (from_be_bytes (b :: l) = L1) as EL by done. clearbody half H1 L1 M.
  destruct (existsb _ high) eqn:Ex.
  - cbn [orb]. right. right. assert (H1 ≠ if key <? 0 then M - 1 else 0) by (intros E; by apply Hfill in E).
    destruct (Z.ltb_spec key 0); [left|right]; nia.
  - pose proof (proj1 Hfill eq_refl) as E1. cbn [orb].
    assert (key = if key <? 0 then L1 - 2 * half else L1) as Ekey.
    { rewrite E1 in Ek. rewrite H64 in Ek. destruct (key <? 0); nia. }
    destruct (Z.ltb_spec key 0), (Z.leb_spec half L1); cbn [Bool.eqb negb].
    + split; [|split; [zdiv|lia]]. split; [done|]. split; [done|]. split; [done|].
      rewrite EL, <- (Z.mod_add key 1) by lia. rewrite Z.mod_small; lia.
    + right. right. left. lia.
    + right. right. right. lia.
    + split; [|split; [zdiv|lia]]. split; [done|]. split; [done|]. split; [done|]. rewrite EL, Z.mod_small; lia.
Qed.

(** ** Dictionaries under integer keys *)

Section typed.
Context `{Hasher}.

(** Bytes that are different integers are different keys. *)
Lemma spells_key_bits n bytes1 bytes2 v1 v2 :
  0 <= n → spells_key n bytes1 v1 → spells_key n bytes2 v2 → bits_of bytes1 n = bits_of bytes2 n → v1 = v2.
Proof.
  intros Hn (Hm & L1 & B1 & <-) (_ & L2 & B2 & <-) E. f_equal. apply data_ext; [congruence|done|done|].
  intros i Hi. rewrite L1 in Hi. assert (0 <= i < n) as Hin by (clear -Hi Hm Hn; zdiv).
  apply (f_equal (λ l, get l i)) in E. unfold bits_of in E. rewrite !get_fmap, get_seqZ in E by done. by injection E.
Qed.

Lemma spells_key_wide n bytes v : 0 <= n → spells_key n bytes v → n <= 8 * len bytes.
Proof. intros Hn (Hm & -> & _). zdiv. Qed.

(** What a store under one integer key leaves under another. *)
Lemma set_spelled st d ot v bytes key bytes' key' :
  represents st d ot → storable v → spells_key (d_key_bits d) bytes key → spells_key (d_key_bits d) bytes' key' →
  match Dict.set bytes (builder_of v) d with
  | (Ok tt, d') => (∃ ot', represents st d' ot') ∧ d_key_bits d' = d_key_bits d ∧
      contents d' bytes' = if key' =? key then Ok (Found v) else contents d bytes'
  | (Err _, d') => d' = d
  end.
Proof.
  intros Hr Hv Hk Hk'. pose proof Hr as [Hn _]. destruct Hn as [Hn _]. pose proof (spells_key_wide _ _ _ Hn Hk) as Hw.
  pose proof (spells_key_wide _ _ _ Hn Hk') as Hw'. pose proof (set_spec st d ot bytes v Hr Hv Hw) as Hs. cbv zeta in Hs.
  assert (bits_of bytes' (d_key_bits d) = bits_of bytes (d_key_bits d) ↔ key' = key) as Hiff.
  { split; [by apply spells_key_bits; [lia|..]|]. intros ->. destruct Hk as (_ & L1 & B1 & E1), Hk' as (_ & L2 & B2 & E2).
    f_equal. apply from_be_inj; [done|done|congruence|congruence]. }
  assert ((∃ d' ot', Dict.set bytes (builder_of v) d = (Ok tt, d') ∧ d_key_bits d' = d_key_bits d ∧ represents st d' ot' ∧
      ∀ k, dget ot' k = if decide (k = bits_of bytes (d_key_bits d)) then Found v else dget ot k) ∨
    ∃ e, Dict.set bytes (builder_of v) d = (Err e, d)) as [(d' & ot' & -> & Hb & Hr' & Hg)|[e ->]]; [|split|done].
  { destruct (dget ot (bits_of bytes _)); [..|right; by eexists]; (destruct Hs as [(d' & ot' & ? & ? & ? & _ & ?)|[[e ?] _]];
      [left; by exists d', ot'|right; by exists e]). }
  - by exists ot'.
  - split; [done|]. rewrite (contents_spec st d' ot'), (contents_spec st d ot), Hb by done.
    rewrite !(proj2 (Z.ltb_ge _ _)) by done. rewrite Hg. destruct (Z.eqb_spec key' key) as [E|E].
    + by rewrite decide_True by by apply Hiff.
    + rewrite decide_False; [done|]. by intros ?%Hiff.
Qed.
End typed.

(** ** Theorems *)

Section theorems.
Context `{Hasher}.

(** What a lookup by integer sees. *)
Definition uint_contents (d : Dict) (key : Z) : result CellError (Lookup value) :=
  res_map (lookup_map entry_value) (typed.get_uint d key).
Definition int_contents (d : Dict) (key : Z) : result CellError (Lookup value) :=
  res_map (lookup_map entry_value) (typed.get_int d key).

(** Integer keys. A width that is a number of bytes takes every integer that fits it,
    unsigned below [2 ^ n] and signed in two's complement, and no other integer and no
    other width. Different integers are different keys: after a store under one, a
    lookup by it finds the value, and a lookup by any other answers as before. A store
    that fails changes nothing. *)
Theorem dict_integer_keys st d ot v key :
  represents st d ot → storable v →
  (0 <= key < 2 ^ 64 →
   match typed.set_uint key (builder_of v) d with
   | (Ok tt, d') =>
       d_key_bits d mod 8 = 0 ∧ key < 2 ^ d_key_bits d ∧ (∃ ot', represents st d' ot') ∧ d_key_bits d' = d_key_bits d ∧
       ∀ key', 0 <= key' < 2 ^ 64 → key' < 2 ^ d_key_bits d →
         uint_contents d' key' = if key' =? key then Ok (Found v) else uint_contents d key'
   | (Err _, d') => d' = d
   end ∧
   (is_ok (typed.uint_key key (d_key_bits d)) = true ↔ d_key_bits d mod 8 = 0 ∧ key < 2 ^ d_key_bits d)) ∧
  (- 2 ^ 63 <= key < 2 ^ 63 →
   match typed.set_int key (builder_of v) d with
   | (Ok tt, d') =>
       d_key_bits d mod 8 = 0 ∧ - 2 ^ d_key_bits d <= 2 * key < 2 ^ d_key_bits d ∧ (∃ ot', represents st d' ot') ∧
       d_key_bits d' = d_key_bits d ∧
       ∀ key', - 2 ^ 63 <= key' < 2 ^ 63 → - 2 ^ d_key_bits d <= 2 * key' < 2 ^ d_key_bits d →
         int_contents d' key' = if key' =? key then Ok (Found v) else int_contents d key'
   | (Err _, d') => d' = d
   end ∧
   (is_ok (typed.int_key key (d_key_bits d)) = true ↔
    d_key_bits d mod 8 = 0 ∧ 0 < d_key_bits d ∧ - 2 ^ d_key_bits d <= 2 * key < 2 ^ d_key_bits d)).
Proof.
  intros Hr Hv. pose proof Hr as [Hn _]. set (n := d_key_bits d) in *. split; intros Hk.
  - pose proof (uint_key_spec key n ltac:(lia) Hk) as Hu. split.
    2:{ destruct (typed.uint_key key n) as [bytes|e]; cbn [is_ok]; split; [by intros _; destruct Hu as [[? _] ?]|done|done|].
        intros [? ?]. destruct Hu; lia. }
    unfold typed.set_uint. fold n. destruct (typed.uint_key key n) as [bytes|e] eqn:Eb; [|done]. destruct Hu as [Hs Hlt].
    pose proof (λ bytes' key', set_spelled st d ot v bytes key bytes' key' Hr Hv Hs) as Hset.
    pose proof (Hset bytes key Hs) as H0. destruct (Dict.set bytes (builder_of v) d) as [[[]|] d'] eqn:Ed; [|done].
    destruct H0 as (Hr' & Hb & _). split; [by destruct Hs|]. do 3 (split; [done|]). intros key' Hk' Hlt'.
    pose proof (uint_key_spec key' n ltac:(lia) Hk') as Hu'.
    assert (∃ bytes', typed.uint_key key' n = Ok bytes' ∧ spells_key n bytes' key') as (bytes' & Eb' & Hs').
    { destruct (typed.uint_key key' n) as [bytes'|]; [by exists bytes'; destruct Hu'|]. destruct Hs as [? _], Hu'; lia. }
    unfold uint_contents, typed.get_uint. rewrite Hb. fold n. rewrite Eb'. cbn [res_bind].
    by destruct (Hset bytes' key' Hs') as (_ & _ & ?).
  - pose proof (int_key_spec key n ltac:(lia) Hk) as Hu. split.
    2:{ destruct (typed.int_key key n) as [bytes|e]; cbn [is_ok]; split; [by intros _; destruct Hu as [[? _] ?]|done|done|].
        intros (? & ? & ?). destruct Hu as [?|[?|[?|?]]]; lia. }
    unfold typed.set_int. fold n. destruct (typed.int_key key n) as [bytes|e] eqn:Eb; [|done]. destruct Hu as (Hs & Hpos & Hlt).
    pose proof (λ bytes' key', set_spelled st d ot v bytes (key mod 2 ^ n) bytes' key' Hr Hv Hs) as Hset.
    pose proof (Hset bytes _ Hs) as H0. destruct (Dict.set bytes (builder_of v) d) as [[[]|] d'] eqn:Ed; [|done].
    destruct H0 as (Hr' & Hb & _). split; [by destruct Hs|]. do 3 (split; [done|]). intros key' Hk' Hlt'.
    pose proof (int_key_spec key' n ltac:(lia) Hk') as Hu'.
    assert (∃ bytes', typed.int_key key' n = Ok bytes' ∧ spells_key n bytes' (key' mod 2 ^ n)) as (bytes' & Eb' & Hs').
    { destruct (typed.int_key key' n) as [bytes'|]; [by exists bytes'; destruct Hu'|].
      destruct Hs as [? _], Hu' as [?|[?|[?|?]]]; lia. }
    unfold int_contents, typed.get_int. rewrite Hb. fold n. rewrite Eb'. cbn [res_bind].
    destruct (Hset bytes' _ Hs') as (_ & _ & E). fold (contents d' bytes') (contents d bytes'). rewrite E.
    assert ((key' mod 2 ^ n =? key mod 2 ^ n) = (key' =? key)) as ->; [|done].
    destruct (Z.eqb_spec key' key) as [->|Hne]; [apply Z.eqb_refl|]. apply Z.eqb_neq. intros Em. apply Hne.
    assert (0 < 2 ^ n) as Hm by (apply Z.pow_pos_nonneg; lia). revert Em Hlt Hlt' Hm. generalize (2 ^ n). intros m Em Hlt Hlt' Hm.
    pose proof (Z.div_mod key m ltac:(lia)) as E1. pose proof (Z.div_mod key' m ltac:(lia)) as E2. rewrite Em in E2.
    assert (key' / m = key / m); [|congruence]. clear -E1 E2 Hlt Hlt' Hm. nia.
Qed.
End theorems.
