(* ===== verification/AugDict.v ===== *)
(** Augmented dictionaries: core/src/cell/dict/aug.rs, and what core/src/cell/dict.rs keeps
    for them: collecting, checking and walking the summaries of the forks. Every node
    carries a summary of what is below it, and a fork's is the combination of its
    branches'. *)

From stdpp Require Import base list list_numbers numbers strings sorting.
From Stdlib Require Import ZArith Lia.
From S2P Require Import Prelude Errors Bits CellData CellHash CellModel CellSlice CellBuilder DictLabel Dict Search DictOps.

Local Open Scope Z_scope.

(** [ForkExtra] *)
Definition ForkExtra (E : Type) : Type := list bool * E.

(** What a visitor says of the node it was shown. *)
Inductive Traverse : Type :=
| Continue
| Skip
| Stop.

(** A node as a visitor is shown it. *)
Inductive AugNode (E : Type) : Type :=
| ForkNode (prefix : list bool) (extra : E)
| LeafNode (key : list Z) (extra : E) (entry : DictEntry).
Arguments ForkNode {E} prefix extra.
Arguments LeafNode {E} key extra entry.

Definition extend_bits {R} `{BitRun R} (into : list bool) (run : R) : list bool :=
  fold_left (λ into index, into ++ [run_bit run index]) (seqZ 0 (run_len run)) into.

Section summaries.
Context `{Hasher} (shape : Shape).

(** A call spends a key bit before the next, so one more than the key bits is enough
    for each of the three walks. *)
Fixpoint collect_forks (fuel : nat) (node : Cell) (remaining : Z) (prefix : list bool) :
    stm (Label * list (ForkExtra (Extra shape))) CellError unit :=
  match fuel with
  | O => st_err (Malformed "out of fuel")
  | S fuel' => λ '(label, out),
      if Cell.is_exotic node then (Ok tt, (label, out))
      else
        match read_label_into remaining (Slice.new node, label) with
        | (Err e, (_, label)) => (Err e, (label, out))
        | (Ok _, (slice, label)) =>
            let width := l_len label in
            let here := extend_bits prefix label in
            if width <? remaining then
              match read_extra shape slice with
              | (Err e, _) => (Err e, (label, out))
              | (Ok extra, _) =>
                  let out := out ++ [(here, extra)] in
                  let below := remaining - Label.width label - 1 in
                  (do! left <- st_lift (ok_or (Cell.reference node 0) NO_BRANCH);
                   do! right <- st_lift (ok_or (Cell.reference node 1) NO_BRANCH);
                   run! collect_forks fuel' left below (here ++ [false]);
                   collect_forks fuel' right below (here ++ [true])) (label, out)
              end
            else (Ok tt, (label, out))
        end
  end.

Definition collect_fork_extras (root : option Cell) (key_bits : Z) :
    result CellError (list (ForkExtra (Extra shape))) :=
  match root with
  | None => Ok []
  | Some root =>
      match collect_forks (S (Z.to_nat key_bits)) root key_bits [] (Label.new, []) with
      | (Ok _, (_, out)) => Ok out
      | (Err e, _) => Err e
      end
  end.

Fixpoint validate_node (fuel : nat) (node : Cell) (remaining : Z) : stm Label CellError unit :=
  match fuel with
  | O => st_err (Malformed "out of fuel")
  | S fuel' => λ label,
      if Cell.is_exotic node then (Ok tt, label)
      else
        match read_label_into remaining (Slice.new node, label) with
        | (Err e, (_, label)) => (Err e, label)
        | (Ok _, (_, label)) =>
            let width := l_len label in
            if width =? remaining then (Ok tt, label)
            else
              let below := remaining - Label.width label - 1 in
              (do! left <- st_lift (ok_or (Cell.reference node 0) NO_BRANCH);
               do! right <- st_lift (ok_or (Cell.reference node 1) NO_BRANCH);
               run! (if negb (Cell.is_exotic left) && negb (Cell.is_exotic right) then
                       do! fork <- st_lift (fork shape label remaining below left right);
                       if negb (bool_decide (Cell.repr_hash fork = Cell.repr_hash node))
                       then st_err (Malformed "augmented fork summary disagrees with its children")
                       else st_ret tt
                     else st_ret tt);
               run! validate_node fuel' left below;
               validate_node fuel' right below) label
        end
  end.

Definition validate_tree (root : option Cell) (key_bits : Z) : result CellError unit :=
  match root with
  | None => Ok tt
  | Some root => fst (validate_node (S (Z.to_nat key_bits)) root key_bits Label.new)
  end.

(** A visitor may change what it closes over, the state [V] here. The answer is whether
    it stopped the walk. *)
Section traverse.
Context {V : Type} (visit : AugNode (Extra shape) → V → Traverse * V).

Fixpoint traverse_node (fuel : nat) (node : Cell) (remaining : Z) (prefix : list bool) :
    stm (Label * V) CellError bool :=
  match fuel with
  | O => st_err (Malformed "out of fuel")
  | S fuel' => λ '(label, v),
      if Cell.is_exotic node then (Err Pruned, (label, v))
      else
        match read_label_into remaining (Slice.new node, label) with
        | (Err e, (_, label)) => (Err e, (label, v))
        | (Ok _, (slice, label)) =>
            let len := l_len label in
            let width := Label.width label in
            let here := extend_bits prefix label in
            if len =? remaining then
              match read_extra shape slice with
              | (Err e, _) => (Err e, (label, v))
              | (Ok extra, slice) =>
                  let bit_offset := Cell.bit_len node - Slice.remaining_bits slice in
                  let entry := MkEntry node bit_offset in
                  let key := pack here in
                  let '(said, v) := visit (LeafNode key extra entry) v in
                  (Ok (match said with Stop => true | _ => false end), (label, v))
              end
            else
              match read_extra shape slice with
              | (Err e, _) => (Err e, (label, v))
              | (Ok extra, _) =>
                  let '(said, v) := visit (ForkNode here extra) v in
                  match said with
                  | Stop => (Ok true, (label, v))
                  | Skip => (Ok false, (label, v))
                  | Continue =>
                      let below := remaining - width - 1 in
                      (do! left <- st_lift (ok_or (Cell.reference node 0) NO_BRANCH);
                       do! right <- st_lift (ok_or (Cell.reference node 1) NO_BRANCH);
                       do! stopped <- traverse_node fuel' left below (here ++ [false]);
                       if stopped : bool then st_ret true
                       else traverse_node fuel' right below (here ++ [true])) (label, v)
                  end
              end
        end
  end.

Definition traverse (root : option Cell) (key_bits : Z) : stm V CellError unit := λ v,
  match root with
  | None => (Ok tt, v)
  | Some root =>
      match traverse_node (S (Z.to_nat key_bits)) root key_bits [] (Label.new, v) with
      | (Ok _, (_, v)) => (Ok tt, v)
      | (Err e, (_, v)) => (Err e, v)
      end
  end.
End traverse.
End summaries.

(** ** aug.rs *)

(** [trait Augmentation]: the summary and how it is read, joined and written. *)
Class Augmentation (A : Type) := {
  AugExtra : Type;
  aug_read : A → stm Slice CellError AugExtra;
  aug_combine : A → AugExtra → AugExtra → result CellError AugExtra;
  aug_write : A → AugExtra → stm Builder CellError unit;
}.

Definition Aug {A} `{Augmentation A} (aug : A) : Shape := {|
  Extra := AugExtra;
  read_extra := aug_read aug;
  write_extra := aug_write aug;
  check_fork := λ slice,
    match aug_read aug slice with
    | (Err e, slice) => (Err e, slice)
    | (Ok _, slice) =>
        if Slice.remaining_bits slice =? 0 then (Ok tt, slice)
        else (Err (Malformed "a dictionary fork carrying data past its summary"), slice)
    end;
  fork_extra := λ lhs rhs below,
    let? lhs := extra_of (aug_read aug) lhs below in
    let? rhs := extra_of (aug_read aug) rhs below in
    aug_combine aug lhs rhs;
|}.

Record AugEntry (E : Type) : Type := MkAugEntry { ae_extra : E; ae_entry : DictEntry }.
Arguments MkAugEntry {E} ae_extra ae_entry.
Arguments ae_extra {E} _.
Arguments ae_entry {E} _.

Definition AugItem (E : Type) : Type := list Z * AugEntry E.

Record AugDict (A : Type) : Type := MkAugDict {
  ad_root : option Cell;
  ad_key_bits : Z;
  ad_aug : A;
}.
Arguments MkAugDict {A} ad_root ad_key_bits ad_aug.
Arguments ad_root {A} _.
Arguments ad_key_bits {A} _.
Arguments ad_aug {A} _.

(** An iterator borrows the dictionary's [aug]. *)
Record AugDictIter (A : Type) : Type := MkAugIter {
  ai_aug : A;
  ai_stack : list Pending;
  ai_done : bool;
}.
Arguments MkAugIter {A} ai_aug ai_stack ai_done.
Arguments ai_aug {A} _.
Arguments ai_stack {A} _.
Arguments ai_done {A} _.

Module AugDict.
Section aug.
Context {A : Type}.

Definition from_root (aug : A) (root : option Cell) (key_bits : Z) : result CellError (AugDict A) :=
  let? _ := check_key_bits key_bits in
  Ok (MkAugDict root key_bits aug).

Definition new (aug : A) (key_bits : Z) : result CellError (AugDict A) := from_root aug None key_bits.

Definition root (self : AugDict A) : option Cell := ad_root self.

Definition key_bits (self : AugDict A) : Z := ad_key_bits self.

Definition is_empty (self : AugDict A) : bool :=
  match ad_root self with None => true | Some _ => false end.

Context `{Hasher} `{Augmentation A}.
Local Abbreviation shape_of self := (Aug (ad_aug self)).

Definition root_extra (self : AugDict A) : result CellError (option AugExtra) :=
  transpose ((λ root, extra_of (aug_read (ad_aug self)) root (ad_key_bits self)) <$> ad_root self).

Definition fork_extras (self : AugDict A) : result CellError (list (ForkExtra AugExtra)) :=
  collect_fork_extras (shape_of self) (ad_root self) (ad_key_bits self).

Definition validate (self : AugDict A) : result CellError unit :=
  validate_tree (shape_of self) (ad_root self) (ad_key_bits self).

Definition get (self : AugDict A) (key : list Z) : result CellError (Lookup (AugEntry AugExtra)) :=
  let? bits := key_of key (ad_key_bits self) in
  let? found := lookup (shape_of self) (ad_root self) (ad_key_bits self) bits in
  Ok (lookup_map (λ '(extra, entry), MkAugEntry extra entry) found).

Definition set (key : list Z) (extra : AugExtra) (value : Builder) : stm (AugDict A) CellError unit := λ self,
  let outcome :=
    let? bits := key_of key (ad_key_bits self) in
    let shape := shape_of self in
    let entry := MkDictEntry (shape := shape) extra value in
    match ad_root self with
    | None => leaf shape bits entry (ad_key_bits self)
    | Some root =>
        let? walk := descend shape root (ad_key_bits self) bits in
        let tail := rest bits (w_consumed walk) in
        let? bottom :=
          match w_diverged walk with
          | Some at' => split shape (w_node walk) (w_label walk) at' (w_remaining walk) tail entry
          | None => leaf shape tail entry (w_remaining walk)
          end in
        rebuild shape (w_path walk) bottom
    end in
  match outcome with
  | Ok root => (Ok tt, MkAugDict (Some root) (ad_key_bits self) (ad_aug self))
  | Err e => (Err e, self)
  end.

Definition remove (key : list Z) : stm (AugDict A) CellError bool := λ self,
  match key_of key (ad_key_bits self) with
  | Err e => (Err e, self)
  | Ok bits =>
      let shape := shape_of self in
      match ad_root self with
      | None => (Ok false, self)
      | Some root =>
          match descend shape root (ad_key_bits self) bits with
          | Err e => (Err e, self)
          | Ok walk =>
              if bool_decide (is_Some (w_diverged walk)) then (Ok false, self)
              else
                match reverse (w_path walk) with
                | [] => (Ok true, MkAugDict None (ad_key_bits self) (ad_aug self))
                | parent :: path =>
                    match (let? child := collapse parent in rebuild shape (reverse path) child) with
                    | Ok root => (Ok true, MkAugDict (Some root) (ad_key_bits self) (ad_aug self))
                    | Err e => (Err e, self)
                    end
                end
          end
      end
  end.

Definition iter (self : AugDict A) : AugDictIter A :=
  MkAugIter (ad_aug self)
    (match ad_root self with
     | Some root => [(root, Label.new, ad_key_bits self)]
     | None => []
     end) false.

Definition next (self : AugDictIter A) :
    option (result CellError (AugItem AugExtra)) * AugDictIter A :=
  if ai_done self then (None, self)
  else
    match walk_step (Aug (ai_aug self)) (ai_stack self) with
    | (Ok (Some (key, extra, entry)), stack) =>
        (Some (Ok (key, MkAugEntry extra entry)), MkAugIter (ai_aug self) stack false)
    | (Ok None, stack) => (None, MkAugIter (ai_aug self) stack true)
    | (Err e, stack) => (Some (Err e), MkAugIter (ai_aug self) stack true)
    end.

(** Everything an iterator yields, as far as the fuel goes. *)
Fixpoint collect (fuel : nat) (iter : AugDictIter A) : list (result CellError (AugItem AugExtra)) :=
  match fuel with
  | O => []
  | S fuel' =>
      match next iter with
      | (None, _) => []
      | (Some item, iter) => item :: collect fuel' iter
      end
  end.

(** [for item in self]: an item a node at most. *)
Definition items (self : AugDict A) : list (result CellError (AugItem AugExtra)) :=
  collect (S (match ad_root self with Some root => places root | None => 0 end)) (iter self).

Definition from_items (aug : A) (key_bits : Z) (items : list (list Z * AugExtra * Builder)) :
    result CellError (AugDict A) :=
  let? root := build_all (Aug aug) key_bits items in
  from_root aug root key_bits.

Definition count (self : AugDict A) : result CellError Z :=
  res_fold (λ n item, res_map (λ _, n + 1) item) (items self) 0.

Definition min (self : AugDict A) : result CellError (option (AugItem AugExtra)) :=
  transpose (fst (next (iter self))).

Definition max (self : AugDict A) : result CellError (option (AugItem AugExtra)) :=
  transpose (last (items self)).

(** [take_min] and [take_max], over what there is to take. *)
Definition take (end' : AugDict A → result CellError (option (AugItem AugExtra))) :
    stm (AugDict A) CellError (option (AugItem AugExtra)) := λ self,
  match end' self with
  | Err e => (Err e, self)
  | Ok None => (Ok None, self)
  | Ok (Some (key, entry)) =>
      match remove key self with
      | (Err e, self) => (Err e, self)
      | (Ok _, self) => (Ok (Some (key, entry)), self)
      end
  end.

Definition take_min : stm (AugDict A) CellError (option (AugItem AugExtra)) := take min.

Definition take_max : stm (AugDict A) CellError (option (AugItem AugExtra)) := take max.

Fixpoint at_or_after (key : list Z) (walk : list (result CellError (AugItem AugExtra))) :
    result CellError (option (AugItem AugExtra)) :=
  match walk with
  | [] => Ok None
  | item :: walk =>
      let? '(found, entry) := item in
      if bool_decide (bytes_le key found) then Ok (Some (found, entry)) else at_or_after key walk
  end.

Definition entry_at_or_after (self : AugDict A) (key : list Z) : result CellError (option (AugItem AugExtra)) :=
  at_or_after key (items self).

Fixpoint at_or_before (key : list Z) (floor : option (AugItem AugExtra))
    (walk : list (result CellError (AugItem AugExtra))) : result CellError (option (AugItem AugExtra)) :=
  match walk with
  | [] => Ok floor
  | item :: walk =>
      let? '(found, entry) := item in
      if bool_decide (bytes_le found key) then at_or_before key (Some (found, entry)) walk else Ok floor
  end.

Definition entry_at_or_before (self : AugDict A) (key : list Z) : result CellError (option (AugItem AugExtra)) :=
  at_or_before key None (items self).

(** [keep] may change what it closes over; it sees every entry before any is removed. *)
Definition retain {V} (keep : list Z → AugEntry AugExtra → V → bool * V) (v : V) :
    stm (AugDict A) CellError V := λ self,
  match res_fold (λ '(to_remove, v) item,
          let? '(key, entry) := item in
          let '(kept, v) := keep key entry v in
          Ok (if kept : bool then to_remove else to_remove ++ [key], v)) (items self) ([], v) with
  | Err e => (Err e, self)
  | Ok (to_remove, v) => (run! st_for to_remove (λ key, run! remove key; st_ret tt); st_ret v) self
  end.

Definition subdict (self : AugDict A) (prefix : list Z) (prefix_bits : Z) : result CellError (AugDict A) :=
  if ad_key_bits self <? prefix_bits then Err (Malformed "dictionary prefix wider than the key")
  else
    let? want := key_of prefix prefix_bits in
    let narrower := ad_key_bits self - prefix_bits in
    let? root :=
      match ad_root self with
      | Some root => reroot root (ad_key_bits self) want
      | None => Ok None
      end in
    from_root (ad_aug self) root narrower.

Definition combine_with (other : AugDict A) : stm (AugDict A) CellError unit := λ self,
  if negb (ad_key_bits other =? ad_key_bits self)
  then (Err (Malformed "combining dictionaries of different key widths"), self)
  else
    match
      (let? additions := res_fold (λ additions item,
         let? '(key, found) := item in
         let? there := get self key in
         match there with
         | Absent =>
             let? slice := entry_slice (ae_entry found) in
             let? value := Builder.to_builder slice in
             Ok (additions ++ [(key, ae_extra found, value)])
         | _ => Err (Malformed "combining dictionaries that share a key")
         end) (items other) [] in
       match st_for additions (λ '(key, extra, value), set key extra value) self with
       | (Ok _, merged) => Ok merged
       | (Err e, _) => Err e
       end)
    with
    | Ok merged => (Ok tt, merged)
    | Err e => (Err e, self)
    end.

Definition traverse_extra {V} (visit : AugNode AugExtra → V → Traverse * V) (self : AugDict A) :
    stm V CellError unit :=
  traverse (shape_of self) visit (ad_root self) (ad_key_bits self).
End aug.
End AugDict.
