(* ===== verification/AugSpec.v ===== *)
(** Augmented dictionaries over the trees of DictTree.v: an augmentation that keeps what it
    writes makes a lawful shape, what the operations do to the map a dictionary stands
    for, and when the summaries of its forks are those of its entries. *)

From stdpp Require Import base list list_numbers numbers strings sorting.
From Stdlib Require Import ZArith Lia.
From S2P Require Import Prelude Errors Bits CellData CellHash CellModel Binding CellSlice CellBuilder Fields BuilderOps DictLabel Dict DictTree DictCells DictWalk DictSpec DictTheorems Search DictOps DictBulk DictQueries AugDict.

Local Open Scope Z_scope.

#[local] Arguments uint_bits : simpl never.

(** The summaries the theorems speak of, [aug_ok], of an augmentation. As the documentation
    of the trait asks, each is written in one way, and reading one leaves the cursor behind
    it. What the documentation does not ask, and the theorems do: they are written as bits
    alone, with no reference, and combining two gives another such. The cells of a
    dictionary leave no place for a reference in a summary: a fork's would stand where the
    walks look for a branch, and a leaf's would be taken for the first of its value
    ([linked_misread], [linked_value] of ExamplesDict.v). An augmentation whose summaries
    may hold one, as that of the test suite, is covered for those that do not. *)
Class LawfulAug {A} `{Augmentation A} (aug : A) := {
  aug_ok : AugExtra → Prop;
  aug_bits : AugExtra → list bool;
  aug_field_ok : LawfulField (MkField _ (aug_write aug) (aug_read aug) aug_bits aug_ok);
  aug_combine_ok el er e : aug_ok el → aug_ok er → aug_combine aug el er = Ok e → aug_ok e;
}.

Lemma extra_of_pruned {E} (read : stm Slice CellError E) c n : Cell.is_exotic c = true → extra_of read c n = Err Pruned.
Proof. intros Hx. unfold extra_of. by rewrite Hx. Qed.

Section lawful.
Context {A : Type} `{Augmentation A} (aug : A) `{!LawfulAug aug}.

Lemma aug_reads s e : aug_ok e → ahead s (aug_bits e) → aug_read aug s = (Ok e, step_bits (len (aug_bits e)) s).
Proof. exact (@f_load_ok _ _ aug_field_ok e s). Qed.

Lemma aug_writes e : aug_ok e → writes (aug_write aug e) (aug_bits e).
Proof. exact (@f_writes _ _ aug_field_ok e). Qed.
End lawful.

#[export] Instance aug_lawful {A} `{Augmentation A} (aug : A) `{!LawfulAug aug} : LawfulShape (Aug aug).
Proof.
  refine {| extra_ok := (aug_ok : Extra (Aug aug) → Prop); extra_bits := (aug_bits : Extra (Aug aug) → _);
            joins := aug_combine aug; free := false |}.
  - exact (aug_reads aug).
  - exact (aug_writes aug).
  - intros s e Hwf He Hb. cbn [check_fork Aug].
    assert (ahead s (aug_bits e)) as Ha by (split; [done|]; exists []; by rewrite app_nil_r).
    rewrite (aug_reads aug s e He Ha). apply ahead_remaining in Ha as Hl.
    assert (slice_wf (step_bits (len (aug_bits e)) s)) as Hs by by apply step_bits_wf.
    rewrite <- (len_slice_bits _ Hs), step_bits_bits, Hb by done. rewrite drop_ge by (unfold len; lia). done.
  - exact aug_combine_ok.
  - intros lhs rhs below el er Hl Hr. cbn [fork_extra Aug read_extra Extra] in *. by rewrite Hl, Hr.
  - intros lhs rhs below _ Hx. cbn [fork_extra Aug]. destruct Hx as [Hx|Hx].
    + by rewrite (extra_of_pruned _ lhs).
    + rewrite (extra_of_pruned _ rhs) by done. by destruct (extra_of _ lhs below).
  - done.
Defined.

(** A value found in a tree was read from a cell. *)
Lemma shows_value_room `{Hasher} shape `{!LawfulShape shape} st n c t k v :
  shows shape st n c t → cell_wf c → tget t k = Found v → len v.1 <= MAX_BITS.
Proof.
  intros Hs. revert k. induction Hs as [n c _ _|n c f e l p w _ _ _ _ _ Hb _ _|n c f e l ca cb a b _ _ _ _ _ Hr _ _ IHa _ IHb];
    intros k Hwf; [done| |].
  - rewrite tget_leaf. case_decide; [|done]. intros [= <-]. destruct (node_rest c _ _ Hwf Hb) as (_ & _ & _ & _ & Hl).
    pose proof (len_nonneg (form_bits n f l)). pose proof (cell_wf_bit_len c Hwf). lia.
  - destruct (two_refs c ca cb false Hr Hwf) as (_ & _ & Wa & Wb). cbn [tget].
    destruct (strip l k) as [[|[] k']|]; [done|by apply IHb|by apply IHa|done].
Qed.

Section aug_spec.
Context `{Hasher} {A : Type} `{Augmentation A} (aug : A) `{!LawfulAug aug}.
Local Abbreviation stored := (stored (Aug aug)).

(** A summary ends where its encoding does. *)
Lemma aug_split e p e' p' :
  aug_ok e → aug_ok e' → aug_bits e ++ p = aug_bits e' ++ p' → len (aug_bits e ++ p) <= MAX_BITS → e = e' ∧ p = p'.
Proof.
  intros He He' E Hl. destruct (build_spec (aug_bits e ++ p) RNone Hl) as (c & _ & Hb & _ & _ & _ & _ & Hwf); [by constructor|].
  specialize (Hwf ltac:(by constructor)). destruct (slice_new_spec c Hwf) as (Hs & _ & _). rewrite <- new_bits in Hb.
  pose proof (aug_reads aug (Slice.new c) e He ltac:(split; [done|by exists p])) as R1.
  pose proof (aug_reads aug (Slice.new c) e' He' ltac:(split; [done|]; exists p'; by rewrite Hb)) as R2.
  rewrite R1 in R2. injection R2 as <- _. split; [done|]. by apply app_inv_head in E.
Qed.

Lemma stored_inj (x y : AugExtra * value) :
  aug_ok x.1 → aug_ok y.1 → stored x = stored y → len (stored x).1 <= MAX_BITS → x = y.
Proof.
  destruct x as [e [vb vr]], y as [e' [vb' vr']]. unfold DictBulk.stored, behind. cbn. intros He He' [= E <-] Hl.
  by destruct (aug_split e vb e' vb' He He' E Hl) as [<- <-].
Qed.

(** A dictionary whose cells spell a tree, or none. *)
Definition arepresents (st : bool) (d : AugDict A) (ot : option tree) : Prop :=
  ad_aug d = aug ∧ roots (Aug aug) st (ad_root d) (ad_key_bits d) ot.

(** An entry as a caller sees it: its summary, and its value as bits and references. *)
Definition aug_seen (e : AugEntry AugExtra) : AugExtra * value := (ae_extra e, entry_value (ae_entry e)).

Definition acontents (d : AugDict A) (key : list Z) : result CellError (Lookup (AugExtra * value)) :=
  res_map (lookup_map aug_seen) (AugDict.get d key).

Lemma dget_room st root n ot k v : roots (Aug aug) st root n ot → dget ot k = Found v → len v.1 <= MAX_BITS.
Proof.
  intros [_ Hr] Hg. destruct root as [c|], ot as [t|]; try done. destruct Hr as [Hwf Hs]. by apply (shows_value_room (Aug aug) st n c t k).
Qed.

Lemma acontents_spec st d ot key :
  arepresents st d ot →
  if 8 * len key <? ad_key_bits d then acontents d key = Err (KeyLength (len key * 8) (ad_key_bits d))
  else ∃ r, acontents d key = Ok r ∧ lookup_map stored r = dget ot (bits_of key (ad_key_bits d)) ∧
         ∀ x, r = Found x → aug_ok x.1.
Proof.
  intros [<- Hr]. pose proof Hr as [Hn _]. unfold acontents, AugDict.get. rewrite key_of_spec by lia.
  destruct (Z.ltb_spec (8 * len key) (ad_key_bits d)); [done|]. cbn [res_bind].
  destruct (lookup_root (Aug (ad_aug d)) st _ _ ot (bits_of key (ad_key_bits d)) Hr) as (r & -> & <- & Hok); [apply len_bits_of; lia|].
  cbn [res_bind res_map]. eexists. split; [done|]. destruct r as [[e x]| |]; [|by split..]. split; [done|].
  intros y [= <-]. by apply (Hok (e, x)).
Qed.

(** What a tree answers is what a caller sees, no more and no less. *)
Lemma acontents_same st st' d d' ot ot' key key' :
  arepresents st d ot → arepresents st' d' ot' → ad_key_bits d <= 8 * len key → ad_key_bits d' <= 8 * len key' →
  acontents d key = acontents d' key' ↔ dget ot (bits_of key (ad_key_bits d)) = dget ot' (bits_of key' (ad_key_bits d')).
Proof.
  intros R1 R2 H1 H2. pose proof (acontents_spec st d ot key R1) as C1. pose proof (acontents_spec st' d' ot' key' R2) as C2.
  rewrite (proj2 (Z.ltb_ge _ _)) in C1 by lia. rewrite (proj2 (Z.ltb_ge _ _)) in C2 by lia. destruct C1 as (r1 & -> & E1 & O1), C2 as (r2 & -> & E2 & O2).
  split; [intros [= ->]; congruence|]. intros E. f_equal. rewrite E, <- E2 in E1.
  destruct r1 as [x| |], r2 as [y| |]; try done. assert (stored x = stored y) as Es by (cbn [lookup_map] in E1; congruence). f_equal. apply stored_inj; [by apply O1|by apply O2|done|].
  rewrite Es. cbn [lookup_map] in E2. destruct R2 as [_ R2]. by eapply dget_room.
Qed.

Lemma acontents_found st d ot key x :
  arepresents st d ot → ad_key_bits d <= 8 * len key → aug_ok x.1 →
  acontents d key = Ok (Found x) ↔ dget ot (bits_of key (ad_key_bits d)) = Found (stored x).
Proof.
  intros R Hk Hx. pose proof (acontents_spec st d ot key R) as C. rewrite (proj2 (Z.ltb_ge _ _)) in C by lia.
  destruct C as (r & -> & E & O). split; [intros [= ->]; by rewrite <- E|]. intros E'. rewrite E' in E.
  destruct r as [y| |]; try done.
  assert (stored x = stored y) as Es by (cbn [lookup_map] in E; congruence). do 2 f_equal. symmetry. apply stored_inj; [done|by apply O|done|].
  destruct R as [_ R]. by eapply dget_room.
Qed.

Lemma acontents_none st d ot key :
  arepresents st d ot → ad_key_bits d <= 8 * len key →
  (acontents d key = Ok Absent ↔ dget ot (bits_of key (ad_key_bits d)) = Absent) ∧
  (acontents d key = Ok PrunedAway ↔ dget ot (bits_of key (ad_key_bits d)) = PrunedAway).
Proof.
  intros R Hk. pose proof (acontents_spec st d ot key R) as C. rewrite (proj2 (Z.ltb_ge _ _)) in C by lia.
  destruct C as (r & -> & <- & _). destruct r; split; split; intros [=]; done.
Qed.

Lemma acontents_short st d ot key :
  arepresents st d ot → 8 * len key < ad_key_bits d → acontents d key = Err (KeyLength (len key * 8) (ad_key_bits d)).
Proof. intros R Hk. pose proof (acontents_spec st d ot key R) as C. by rewrite (proj2 (Z.ltb_lt _ _)) in C. Qed.

(** ** Edits *)

Lemma aset_spec st d ot key e v :
  arepresents st d ot → aug_ok e → storable v → ad_key_bits d <= 8 * len key →
  let bits := bits_of key (ad_key_bits d) in
  (∃ d' ot', AugDict.set key e (builder_of v) d = (Ok tt, d') ∧ ad_key_bits d' = ad_key_bits d ∧
     arepresents st d' ot' ∧ (owhole ot → owhole ot') ∧ dget ot bits ≠ PrunedAway ∧
     ∀ k, dget ot' k = if decide (k = bits) then Found (stored (e, v)) else dget ot k) ∨
  (∃ err, AugDict.set key e (builder_of v) d = (Err err, d)) ∧
    (dget ot bits = PrunedAway ∨ ¬ spacious (ad_key_bits d) (stored (e, v)) ∨ ¬ oforkable (Aug aug) (ad_key_bits d) ot).
Proof.
  intros [Ha Hr] He Hv Hkey bits. pose proof Hr as [Hn _].
  assert (AugDict.set key e (builder_of v) d =
    match store_at (Aug aug) (ad_root d) (ad_key_bits d) bits (MkDictEntry (shape := Aug aug) e (builder_of v)) with
    | Ok root => (Ok tt, MkAugDict (Some root) (ad_key_bits d) aug) | Err err => (Err err, d) end) as ->.
  { unfold AugDict.set. rewrite key_of_spec, Ha by lia. by rewrite (proj2 (Z.ltb_ge _ _)) by lia. }
  destruct (store_spec (Aug aug) st _ _ ot bits e v Hr ltac:(apply len_bits_of; lia) He Hv)
    as [(c & ot' & -> & Hr' & Hw & Hnp & Hg)|[[-> Hp]|(Hfail & Hnp & Hwhy)]].
  - left. by eexists _, ot'.
  - right. split; [by eexists|by left].
  - right. split; [by destruct (store_at _ _ _ _ _); [|eexists]|by right].
Qed.

Lemma aremove_spec st d ot key :
  arepresents st d ot → ad_key_bits d <= 8 * len key →
  let bits := bits_of key (ad_key_bits d) in
  (∃ b d' ot', AugDict.remove key d = (Ok b, d') ∧ ad_key_bits d' = ad_key_bits d ∧
     arepresents st d' ot' ∧ (owhole ot → owhole ot') ∧ dget ot bits ≠ PrunedAway ∧
     (b = true ↔ dget ot bits ≠ Absent) ∧ ∀ k, dget ot' k = if decide (k = bits) then Absent else dget ot k) ∨
  (∃ err, AugDict.remove key d = (Err err, d)) ∧ ¬ (roomy (ad_key_bits d) ot ∧ oforkable (Aug aug) (ad_key_bits d) ot).
Proof.
  intros [Ha Hr] Hkey bits. pose proof Hr as [Hn _].
  assert (AugDict.remove key d =
    match remove_at (Aug aug) (ad_root d) (ad_key_bits d) bits with
    | Ok None => (Ok false, d) | Ok (Some root) => (Ok true, MkAugDict root (ad_key_bits d) aug) | Err err => (Err err, d) end) as ->.
  { unfold AugDict.remove. rewrite key_of_spec, Ha by lia. rewrite (proj2 (Z.ltb_ge _ _)) by lia.
    unfold remove_at. destruct (ad_root d) as [c|]; [|done]. fold bits. destruct (descend _ _ _ _) as [w|]; [|done]. cbn [res_bind].
    destruct (bool_decide _); [done|]. destruct (reverse (w_path w)); [done|]. destruct (collapse _); [|done]. cbn [res_bind].
    by destruct (rebuild _ _ _). }
  pose proof (drop_spec (Aug aug) st _ _ ot bits Hr ltac:(apply len_bits_of; lia)) as Hd.
  destruct (dget ot bits) as [v| |] eqn:Eg.
  - destruct Hd as [(root' & ot' & -> & Hr' & Hw & Hg)|[Hfail Hwhy]]; [left; by eexists true, _, ot'|right].
    split; [by destruct (remove_at _ _ _ _); [|eexists]|done].
  - rewrite Hd. left. exists false, d, ot. do 3 (split; [done|]). split; [done|]. split; [done|]. split; [done|].
    intros k. case_decide as E; [by rewrite E|done].
  - rewrite Hd. right. split; [by eexists|]. intros [Hroom _]. specialize (Hroom bits). by rewrite Eg in Hroom.
Qed.

Inductive aug_edit : Type :=
| AugPut (key : list Z) (e : AugExtra) (v : value)
| AugDrop (key : list Z).

(** An edit that fails leaves what it left behind. *)
Definition apply_aug_edit (d : AugDict A) (edit : aug_edit) : AugDict A :=
  match edit with
  | AugPut key e v => snd (AugDict.set key e (builder_of v) d)
  | AugDrop key => snd (AugDict.remove key d)
  end.

Definition aug_edit_ok (edit : aug_edit) : Prop :=
  match edit with AugPut _ e v => aug_ok e ∧ storable v | AugDrop _ => True end.

Lemma aug_edits_represent st d ot es :
  arepresents st d ot → Forall aug_edit_ok es →
  ∃ ot', arepresents st (fold_left apply_aug_edit es d) ot' ∧ (owhole ot → owhole ot') ∧
    ad_key_bits (fold_left apply_aug_edit es d) = ad_key_bits d.
Proof.
  revert d ot. induction es as [|edit es IH]; intros d ot Hr Hes; [by exists ot|].
  apply Forall_cons in Hes as [He Hes]. cbn [fold_left].
  assert (∃ ot', arepresents st (apply_aug_edit d edit) ot' ∧ (owhole ot → owhole ot') ∧
    ad_key_bits (apply_aug_edit d edit) = ad_key_bits d) as (ot1 & R1 & W1 & B1).
  { pose proof Hr as [_ [Hn _]]. destruct edit as [key e v|key]; cbn [apply_aug_edit aug_edit_ok] in *;
      (destruct (Z.ltb_spec (8 * len key) (ad_key_bits d));
       [exists ot; unfold AugDict.set, AugDict.remove; rewrite key_of_spec, (proj2 (Z.ltb_lt _ _)) by lia; done|]).
    - destruct He as [He Hv].
      destruct (aset_spec st d ot key e v Hr He Hv ltac:(lia)) as [(d' & ot' & -> & B & R & W & _)|[[err ->] _]]; [by exists ot'|by exists ot].
    - destruct (aremove_spec st d ot key Hr ltac:(lia)) as [(b & d' & ot' & -> & B & R & W & _)|[[err ->] _]]; [by exists ot'|by exists ot]. }
  destruct (IH _ ot1 R1 Hes) as (ot2 & R2 & W2 & B2). exists ot2. rewrite B2. auto.
Qed.

Lemma arepresents_new st n d : 0 <= n → AugDict.new aug n = Ok d → arepresents st d None ∧ ad_key_bits d = n.
Proof.
  unfold AugDict.new, AugDict.from_root, check_key_bits. intros Hn Hd. destruct (Z.ltb_spec MAX_BITS n); [done|].
  injection Hd as <-. split; [|done]. split; [done|]. split; [cbn; lia|done].
Qed.

(** Dictionaries the library wrote that answer alike for every key are the same. *)
Lemma arepresents_unique d1 d2 ot1 ot2 :
  arepresents true d1 ot1 → arepresents true d2 ot2 → owhole ot1 → owhole ot2 → ad_key_bits d1 = ad_key_bits d2 →
  (∀ key, ad_key_bits d1 <= 8 * len key → acontents d1 key = acontents d2 key) → d1 = d2.
Proof.
  intros R1 R2 W1 W2 Hn Heq. pose proof R1 as [A1 [Hb _]]. pose proof R2 as [A2 Hr2]. rewrite <- Hn in Hr2.
  assert (ad_root d1 = ad_root d2) as Hroot.
  { apply (roots_unique (Aug aug) _ _ _ _ _ (proj2 R1) Hr2 W1 W2). intros k Hk.
    assert (ad_key_bits d1 <= 8 * len (packed k)) as Hl.
    { rewrite len_packed. pose proof (div_ceil_8 (len k) (len_nonneg k)). unfold div_ceil in *. zdiv. }
    pose proof (proj1 (acontents_same _ _ _ _ _ _ (packed k) (packed k) R1 R2 Hl ltac:(by rewrite <- Hn)) (Heq _ Hl)) as E.
    by rewrite <- Hn, <- Hk, !bits_of_packed in E. }
  destruct d1, d2. cbn in *. congruence.
Qed.

(** ** Iteration *)

(** What an iterator has yielded, against the entries of the tree. *)
Definition at_key (item : list bool * AugEntry AugExtra) : AugItem AugExtra := (packed item.1, item.2).
Definition as_held (item : list bool * AugEntry AugExtra) : list bool * value := (item.1, stored (aug_seen item.2)).
Definition item_good (item : list bool * AugEntry AugExtra) : Prop :=
  aug_ok (ae_extra item.2) ∧ entry_wf (ae_entry item.2).

Lemma acollect_spec st stack es fuel :
  pending (Aug aug) st stack es → (length es < fuel)%nat →
  ∃ items, AugDict.collect fuel (MkAugIter aug stack false) = res_map at_key <$> items ∧
    until_err es = res_map as_held <$> items ∧ (∀ item, Ok item ∈ items → item_good item).
Proof.
  revert stack es. induction fuel as [|fuel IH]; intros stack es Hp Hf; [lia|]. cbn [AugDict.collect].
  apply walk_step_spec in Hp. unfold AugDict.next. cbn [ai_done ai_stack ai_aug].
  destruct es as [|[[k v]|e] es]; cbn [yields until_err] in *.
  - rewrite Hp. exists []. split; [done|]. split; [done|]. by intros ? ?%elem_of_nil.
  - destruct Hp as (e & entry & stack' & -> & Hv & He & Hw & Hp'). destruct (IH stack' es Hp' ltac:(cbn in Hf; lia)) as (items & -> & -> & Hok).
    exists (Ok (k, MkAugEntry e entry) :: items). split; [done|]. split; [by rewrite <- Hv|].
    intros item [[= ->]|Hin]%elem_of_cons; [done|by apply Hok].
  - destruct (walk_step (Aug aug) stack) as [r stack']. cbn in Hp. subst r. exists [Err e].
    split; [by destruct fuel|]. split; [done|]. by intros item [[=]|?%elem_of_nil]%elem_of_cons.
Qed.

Lemma aitems_spec st d ot :
  arepresents st d ot →
  ∃ items, AugDict.items d = res_map at_key <$> items ∧ until_err (dentries ot) = res_map as_held <$> items ∧
    (∀ item, Ok item ∈ items → item_good item).
Proof.
  intros [Ha Hr]. unfold AugDict.items, AugDict.iter. rewrite Ha. apply (acollect_spec st); [by apply pending_root|].
  destruct Hr as [_ Hr]. destruct (ad_root d) as [c|], ot as [t|]; try done; cbn [dentries]; [|cbn; lia].
  destruct Hr as [_ Hs]. pose proof (entries_places (Aug aug) _ _ _ _ [] Hs). lia.
Qed.

(** A whole dictionary yields its entries, in order. *)
Lemma aitems_whole st d ot :
  arepresents st d ot → owhole ot →
  ∃ items, AugDict.items d = Ok <$> (at_key <$> items) ∧ dentries ot = Ok <$> (as_held <$> items) ∧
    StronglySorted bits_lt items.*1 ∧ Forall item_good items.
Proof.
  intros Hr Hw. destruct (aitems_spec st d ot Hr) as (items & -> & He & Hok).
  assert (∃ kvs, dentries ot = Ok <$> kvs ∧ StronglySorted bits_lt kvs.*1) as (kvs & Ek & Hs).
  { destruct ot as [t|]; [|by exists []; split; [|constructor]]. destruct (entries_sorted [] t Hw) as (kvs & Ek & Hs & _). by exists kvs. }
  rewrite Ek, until_err_ok in He.
  assert (∃ good, items = Ok <$> good) as [good ->].
  { clear - He LawfulAug0. revert kvs He. induction items as [|[item|e] items IH]; intros [|kv kvs]; try done; [by exists []|].
    intros [= _ E]. destruct (IH kvs E) as [good ->]. by exists (item :: good). }
  exists good. rewrite <- !list_fmap_compose in *. split; [done|].
  assert (kvs = as_held <$> good) as ->.
  { clear - He LawfulAug0. revert good He. induction kvs as [|kv kvs IH]; intros [|g good]; try done. intros [= -> E]. cbn. f_equal. by apply IH. }
  split; [by rewrite Ek, list_fmap_compose|]. split; [by rewrite <- list_fmap_compose in Hs|].
  apply Forall_forall. intros item Hin. apply Hok. apply list_elem_of_fmap. by exists item.
Qed.
End aug_spec.
