(* ===== verification/AugSums.v ===== *)
(** The summaries of an augmented dictionary: what the check of them lets through, where
    its forks are, and that a summary is the total of the entries below it. *)

From stdpp Require Import base list list_numbers numbers strings sorting.
From Stdlib Require Import ZArith Lia.
From S2P Require Import Prelude Errors Bits CellData CellHash CellModel Binding CellSlice CellBuilder Fields BuilderOps Merkle MerkleUpdate DictLabel Dict DictTree DictCells DictWalk DictSpec DictTheorems Search DictOps DictBulk DictQueries AugDict AugSpec.

Local Open Scope Z_scope.

#[local] Arguments uint_bits : simpl never.

(** Well-formed ordinary cells of the same bits and references have one identity. *)
Lemma ordinary_identity `{Hasher} c1 c2 :
  cell_wf c1 → cell_wf c2 → Cell.is_exotic c1 = false → Cell.is_exotic c2 = false →
  Cell.bits c1 = Cell.bits c2 → Cell.refs c1 = Cell.refs c2 → Cell.repr_hash c1 = Cell.repr_hash c2.
Proof.
  assert (∀ c, Cell.is_exotic c = false → Cell.cell_type c = Ordinary) as Ht.
  { intros c Hx. unfold Cell.is_exotic in Hx. by case_bool_decide. }
  intros W1 W2 X1%Ht X2%Ht Hb Hr. apply same_repr_hash, same_ordinary; [done..|]. rewrite Hr. clear.
  induction (Cell.refs c2); constructor; [apply same_refl|done].
Qed.

(** What a cell made of a label and a payload holds. *)
Lemma made_exact `{Hasher} n l pb pr c :
  made n l pb pr = Ok c → fits n l pb pr → Forall cell_wf pr →
  Cell.bits c = label_enc n l ++ pb ∧ Cell.refs c = pr ∧ Cell.is_exotic c = false ∧ cell_wf c.
Proof.
  intros Hm [Hb Hr] Hwf. unfold made in Hm. pose proof (refs_app_none pr Hr) as Hrs.
  destruct (build_spec (label_enc n l ++ pb) (refs_app RNone pr)) as (c' & Hc & Hbits & _ & _ & Hrefs & Ht & Hw).
  { by rewrite len_app. } { rewrite Hrs. by apply wf_masks. }
  rewrite Hm in Hc. injection Hc as <-. split; [done|]. unfold Cell.refs, Cell.is_exotic. rewrite Hrefs, Hrs in *.
  split; [done|]. split; [by rewrite bool_decide_true|auto].
Qed.

Section summaries.
Context `{Hasher} {A : Type} `{Augmentation A} (aug : A) `{!LawfulAug aug}.
Local Abbreviation shows := (shows (Aug aug)).
Local Abbreviation extra_of := (extra_of (aug_read aug)).

Lemma fork_extra_parts st m ca cb a b e :
  shows st m ca a → shows st m cb b → cell_wf ca → cell_wf cb → m <= MAX_BITS → fork_extra (Aug aug) ca cb m = Ok e →
  ∃ ea eb, extra_of ca m = Ok ea ∧ extra_of cb m = Ok eb ∧ aug_ok ea ∧ aug_ok eb ∧ aug_combine aug ea eb = Ok e.
Proof.
  intros Sa Sb Wa Wb Hm He. assert (∀ c t, shows st m c t → cell_wf c → is_ok (extra_of c m) = true →
    ∃ e, extra_of c m = Ok e ∧ aug_ok e) as Hx.
  { intros c t Hs Hwf Hok. destruct (hole_cases t) as [[h ->]|Ht].
    2:{ destruct (shows_extra (Aug aug) st m c t Hs Ht Hwf Hm) as (e1 & E1 & O1). by exists e1. }
    apply shows_exotic in Hs. by rewrite extra_of_pruned in Hok. }
  cbn [fork_extra Aug] in He. destruct (extra_of ca m) as [ea|] eqn:Ea; [|done]. cbn [res_bind] in He.
  destruct (extra_of cb m) as [eb|] eqn:Eb; [|done]. cbn [res_bind] in He.
  destruct (Hx ca a Sa Wa) as (ea' & E1 & O1); [by rewrite Ea|]. destruct (Hx cb b Sb Wb) as (eb' & E2 & O2); [by rewrite Eb|].
  exists ea, eb. rewrite Ea in E1. rewrite Eb in E2. injection E1 as ->. injection E2 as ->. done.
Qed.

(** Every fork of the tree whose branches are both there is the one the dictionary would
    write over them: it records what their summaries combine to, behind the shortest label. *)
Fixpoint sums (n : Z) (c : Cell) (t : tree) : Prop :=
  match t with
  | TFork l a b =>
      let below := n - len l - 1 in
      match Cell.refs c with
      | [ca; cb] =>
          (Cell.is_exotic ca = false → Cell.is_exotic cb = false →
             ∃ e, fork_extra (Aug aug) ca cb below = Ok e ∧ Cell.bits c = label_enc n l ++ aug_bits e) ∧
          sums below ca a ∧ sums below cb b
      | _ => False
      end
  | _ => True
  end.

(** What the documentation asks the check for: every fork whose branches are both there
    records what their summaries combine to. *)
Fixpoint recorded (n : Z) (c : Cell) (t : tree) : Prop :=
  match t with
  | TFork l a b =>
      let below := n - len l - 1 in
      match Cell.refs c with
      | [ca; cb] =>
          (Cell.is_exotic ca = false → Cell.is_exotic cb = false →
             ∃ e, fork_extra (Aug aug) ca cb below = Ok e ∧ extra_of c n = Ok e) ∧
          recorded below ca a ∧ recorded below cb b
      | _ => False
      end
  | _ => True
  end.

(** And what it asks besides: that fork's label is in the shortest form. *)
Fixpoint shortest (n : Z) (c : Cell) (t : tree) : Prop :=
  match t with
  | TFork l a b =>
      let below := n - len l - 1 in
      match Cell.refs c with
      | [ca; cb] =>
          (Cell.is_exotic ca = false → Cell.is_exotic cb = false → label_enc n l `prefix_of` Cell.bits c) ∧
          shortest below ca a ∧ shortest below cb b
      | _ => False
      end
  | _ => True
  end.

(** The summary a fork was written with is the one read back. *)
Lemma fork_extra_read n c f l (e : AugExtra) :
  Cell.is_exotic c = false → cell_wf c → n <= MAX_BITS → len l < n → form_ok f l → aug_ok e →
  Cell.bits c = form_bits n f l ++ aug_bits e → extra_of c n = Ok e.
Proof.
  intros Hx Hwf Hn Hl Hf He Hb. pose proof (len_nonneg l). unfold Dict.extra_of. rewrite Hx.
  destruct (read_node n c f l _ (S := Label) Label.new Hwf ltac:(lia) ltac:(lia) Hf Hb) as (_ & _ & _ & _ & ->).
  destruct (node_rest c _ _ Hwf Hb) as (Ws & Hsb & _). rewrite (aug_reads aug _ e He); [done|]. split; [done|].
  exists []. by rewrite app_nil_r, <- Hsb.
Qed.

(** A label is spelt in one form alone at the head of a node. *)
Lemma one_form n c f g l l' p q :
  cell_wf c → 0 <= n <= MAX_BITS → len l <= n → len l' <= n → form_ok f l → form_ok g l' →
  Cell.bits c = form_bits n f l ++ p → Cell.bits c = form_bits n g l' ++ q → form_bits n f l = form_bits n g l' ∧ p = q.
Proof.
  intros Hwf Hn Hl Hl' Hf Hg Hb Hb'.
  destruct (read_node n c f l p (S := Label) Label.new Hwf Hn Hl Hf Hb) as (_ & _ & _ & _ & E).
  destruct (read_node n c g l' q (S := Label) Label.new Hwf Hn Hl' Hg Hb') as (_ & _ & _ & _ & E').
  rewrite E in E'. injection E' as E'. rewrite Hb in Hb'. apply app_inj_1; [|done].
  unfold step_bits, Slice.set_bit in E'. cbn in E'. unfold len in *. lia.
Qed.

Lemma sums_recorded n c t :
  shows false n c t → cell_wf c → n <= MAX_BITS → sums n c t ↔ recorded n c t ∧ shortest n c t.
Proof.
  induction 1 as [| |n c f e l ca cb a b Hx Hf Hl He Hb Hr Hst Sa IHa Sb IHb]; intros Hwf Hn; [done..|].
  cbn [sums recorded shortest]. rewrite Hr. pose proof (len_nonneg l).
  destruct (two_refs c ca cb false Hr Hwf) as (_ & _ & Wa & Wb).
  rewrite (IHa Wa ltac:(lia)), (IHb Wb ltac:(lia)). pose proof (fork_extra_read n c f l e Hx Hwf Hn Hl Hf He Hb) as Hread.
  assert (form_ok (best_form n l) l) as Hbest by (apply best_form_ok; lia).
  enough ((∃ e, fork_extra (Aug aug) ca cb (n - len l - 1) = Ok e ∧ Cell.bits c = label_enc n l ++ aug_bits e) ↔
    (∃ e, fork_extra (Aug aug) ca cb (n - len l - 1) = Ok e ∧ extra_of c n = Ok e) ∧ label_enc n l `prefix_of` Cell.bits c) as Hiff
    by (rewrite Hiff; clear; tauto).
  rewrite Hread. split.
  - intros (e' & Hfe & Hbc).
    destruct (one_form n c f (best_form n l) l l _ _ Hwf ltac:(lia) ltac:(lia) ltac:(lia) Hf Hbest Hb Hbc) as [_ E].
    split; [|by exists (aug_bits e')]. exists e'. split; [done|].
    destruct (fork_extra_parts _ _ _ _ _ _ e' Sa Sb Wa Wb ltac:(lia) Hfe) as (ea & eb & _ & _ & Oa & Ob & Ec).
    assert (aug_ok e') as He' by exact (aug_combine_ok ea eb e' Oa Ob Ec).
    rewrite <- Hread. by apply (fork_extra_read n c (best_form n l) l).
  - intros [(e' & Hfe & [= <-]) [q Hq]]. exists e. split; [done|].
    destruct (one_form n c f (best_form n l) l l _ _ Hwf ltac:(lia) ltac:(lia) ltac:(lia) Hf Hbest Hb Hq) as [_ <-]. done.
Qed.

(** The cells the check makes to compare. *)
Fixpoint remade (n : Z) (c : Cell) (t : tree) : list Cell :=
  match t with
  | TFork l a b =>
      let below := n - len l - 1 in
      match Cell.refs c with
      | [ca; cb] =>
          match fork (Aug aug) l n below ca cb with Ok f => [f] | Err _ => [] end ++ remade below ca a ++ remade below cb b
      | _ => []
      end
  | _ => []
  end.

Lemma aug_fork_fits n c f l (e : AugExtra) ca cb :
  cell_wf c → n <= MAX_BITS → len l < n → form_ok f l → Cell.bits c = form_bits n f l ++ aug_bits e →
  fits n l (aug_bits e) [ca; cb].
Proof.
  intros Hwf Hn Hl Hf Hb. pose proof (len_nonneg l). split; [|done].
  pose proof (best_form_least n l f ltac:(lia) ltac:(lia) Hf). pose proof (cell_wf_bit_len c Hwf).
  destruct (node_rest c _ _ Hwf Hb) as (_ & _ & _ & _ & Hbl). lia.
Qed.

Lemma strict_sums n c t : shows true n c t → cell_wf c → n <= MAX_BITS → sums n c t.
Proof.
  induction 1 as [| |n c f e l ca cb a b Hx Hf Hl He Hb Hr Hst Ha IHa Hbb IHb]; intros Hwf Hn; [done..|]. cbn [sums]. rewrite Hr.
  pose proof (len_nonneg l). destruct (two_refs c ca cb false Hr Hwf) as (_ & _ & Wa & Wb).
  split; [|split; [apply IHa|apply IHb]; done || lia]. intros Xa Xb. destruct (Hst eq_refl) as [Hm Hfe]. exists e. split; [by apply Hfe|].
  apply (made_exact n l (aug_bits e) [ca; cb] c Hm); [by apply (aug_fork_fits n c f)|by rewrite !Forall_cons, Forall_nil].
Qed.

(** The fork the check makes of a node that spells one. *)
Lemma remade_fork {R} `{BitRun R} (lab : R) n l ca cb a b f :
  LawfulRun lab → run_bits lab = l → len l < n → n <= MAX_BITS → shows false (n - len l - 1) ca a → shows false (n - len l - 1) cb b →
  cell_wf ca → cell_wf cb →
  fork (Aug aug) lab n (n - len l - 1) ca cb = Ok f ↔
    ∃ e, fork_extra (Aug aug) ca cb (n - len l - 1) = Ok e ∧ aug_ok e ∧ fits n l (aug_bits e) [ca; cb] ∧
      made n l (aug_bits e) [ca; cb] = Ok f.
Proof.
  intros Hok Hlab Hl Hn Sa Sb Wa Wb. pose proof (len_nonneg l).
  assert (∀ e, fork_extra (Aug aug) ca cb (n - len l - 1) = Ok e → aug_ok e) as Hx.
  { intros e He. destruct (fork_extra_parts _ _ _ _ _ _ e Sa Sb Wa Wb ltac:(lia) He) as (ea & eb & _ & _ & Oa & Ob & E).
    exact (aug_combine_ok ea eb e Oa Ob E). }
  pose proof (fork_spec (Aug aug) lab n (n - len l - 1) ca cb Hok ltac:(lia)
    ltac:(rewrite <- (len_run_bits lab Hok), Hlab; lia) Hx) as Hf.
  rewrite Hlab in Hf. destruct (fork_extra _ _ _ _) as [e|err].
  - case_bool_decide as Hfit.
    + rewrite Hf. split; [intros E; exists e; by auto|]. by intros (e' & [= <-] & _ & _ & ?).
    + split; [intros E; by rewrite E in Hf|]. by intros (e' & [= <-] & _ & ? & _).
  - split; [intros E; by rewrite E in Hf|]. by intros (e' & [=] & _).
Qed.

Lemma two_there (c ca cb : Cell) :
  Cell.refs c = [ca; cb] → ok_or (Cell.reference c 0) NO_BRANCH = Ok ca ∧ ok_or (Cell.reference c 1) NO_BRANCH = Ok cb.
Proof. intros Hr. unfold Cell.reference. by rewrite Hr. Qed.

(** The check of one fork: it fails, or what it makes hashes to the node. *)
Definition fork_checks (lab : Label) (n : Z) (c ca cb : Cell) : result CellError unit :=
  if negb (Cell.is_exotic ca) && negb (Cell.is_exotic cb) then
    let? f := fork (Aug aug) lab n (n - l_len lab - 1) ca cb in
    if bool_decide (Cell.repr_hash f = Cell.repr_hash c) then Ok tt
    else Err (Malformed "augmented fork summary disagrees with its children")
  else Ok tt.

(** The check walks a tree its cells spell, a fork at a time. *)
Lemma validate_fork n c f l e ca cb (lab : Label) fuel :
  Cell.is_exotic c = false → form_ok f l → len l < n → n <= MAX_BITS → Cell.bits c = form_bits n f l ++ aug_bits e →
  Cell.refs c = [ca; cb] → cell_wf c →
  ∃ lab', label_ok lab' ∧ lbits lab' = l ∧ l_len lab' = len l ∧
    validate_node (Aug aug) (S fuel) c n lab =
      match fork_checks lab' n c ca cb with
      | Ok _ => (run! validate_node (Aug aug) fuel ca (n - len l - 1); validate_node (Aug aug) fuel cb (n - len l - 1)) lab'
      | Err err => (Err err, lab')
      end.
Proof.
  intros Hx Hf Hl Hn Hb Hr Hwf. pose proof (len_nonneg l). cbn [validate_node]. rewrite Hx.
  destruct (read_node n c f l (aug_bits e) lab Hwf ltac:(lia) ltac:(lia) Hf Hb) as (lab' & -> & Hok & Hbits & _).
  cbn [sink_ok sink_bits label_lawful_sink] in Hok, Hbits. pose proof (len_lbits lab' Hok) as Hlen. rewrite Hbits in Hlen.
  exists lab'. do 3 (split; [done|]). cbv zeta. unfold Label.width. rewrite <- Hlen, (proj2 (Z.eqb_neq _ _)) by lia.
  destruct (two_there c ca cb Hr) as [-> ->]. unfold fork_checks. rewrite <- Hlen. unfold st_bind at 1, st_lift at 1.
  unfold st_bind at 1, st_lift at 1. destruct (negb _ && negb _); [|done].
  unfold st_bind at 1 2, st_lift at 1. destruct (fork _ _ _ _ _ _) as [fk|]; [|done]. cbn [res_bind]. by case_bool_decide.
Qed.

Lemma validate_sums fuel : ∀ n c t lab,
  shows false n c t → cell_wf c → n <= MAX_BITS → (Z.to_nat n < fuel)%nat → sums n c t →
  ∃ lab', validate_node (Aug aug) fuel c n lab = (Ok tt, lab').
Proof.
  induction fuel as [|fuel IH]; intros n c t lab Hs Hwf Hn Hfuel Hsum; [lia|].
  destruct Hs as [n c Hn0 Hx|n c f e l p v Hx Hf Hl He Hv Hb Hr _|n c f e l ca cb a b Hx Hf Hl He Hb Hr _ Sa Sb].
  - cbn [validate_node]. rewrite Hx. by eexists.
  - cbn [validate_node]. rewrite Hx. pose proof (len_nonneg l).
    destruct (read_node n c f l v.1 lab Hwf ltac:(lia) ltac:(lia) Hf Hb) as (lab' & -> & Hok & Hbits & _).
    cbn [sink_ok sink_bits label_lawful_sink] in Hok, Hbits. cbv zeta. rewrite <- (len_lbits lab' Hok), Hbits, Hl, Z.eqb_refl. by eexists.
  - destruct (validate_fork n c f l e ca cb lab fuel Hx Hf Hl Hn Hb Hr Hwf) as (lab' & Hok & Hbits & Hlen & ->).
    cbn [sums] in Hsum. rewrite Hr in Hsum. destruct Hsum as (Hsum & Ha & Hb'). pose proof (len_nonneg l).
    destruct (two_refs c ca cb false Hr Hwf) as (_ & _ & Wa & Wb).
    assert (fork_checks lab' n c ca cb = Ok tt) as ->.
    { unfold fork_checks. destruct (Cell.is_exotic ca) eqn:Xa, (Cell.is_exotic cb) eqn:Xb; try done. cbn [negb andb]. rewrite Hlen.
      destruct (Hsum eq_refl eq_refl) as (e' & Hfe & Hbc). destruct (fork_extra_parts _ _ _ _ _ _ e' Sa Sb Wa Wb ltac:(lia) Hfe) as (ea & eb & _ & _ & Oa & Ob & E).
      assert (fits n l (aug_bits e') [ca; cb]) as Hfit.
      { destruct (node_rest c _ _ Hwf Hbc) as (_ & _ & _ & _ & Hbl). pose proof (cell_wf_bit_len c Hwf). split; [lia|done]. }
      destruct (made_spec n l (aug_bits e') [ca; cb]) as (fk & _ & Hm & _); [lia|lia|done|by rewrite !Forall_cons, Forall_nil|].
      destruct (made_exact n l (aug_bits e') [ca; cb] fk Hm Hfit) as (Hb2 & Hr2 & Hx2 & Hw2); [by rewrite !Forall_cons, Forall_nil|].
      rewrite (proj2 (remade_fork lab' n l ca cb a b fk (label_lawful _ Hok) ltac:(by rewrite label_run_bits) Hl Hn Sa Sb Wa Wb)).
      2:{ exists e'. split; [done|]. split; [exact (aug_combine_ok ea eb e' Oa Ob E)|done]. }
      cbn [res_bind]. rewrite bool_decide_true; [done|]. apply ordinary_identity; [done..|by rewrite Hb2|by rewrite Hr2]. }
    destruct (IH (n - len l - 1) ca a lab' Sa Wa ltac:(lia) ltac:(lia) Ha) as [lab1 E1].
    destruct (IH (n - len l - 1) cb b lab1 Sb Wb ltac:(lia) ltac:(lia) Hb') as [lab2 E2].
    exists lab2. by erewrite st_bind_ok by exact E1.
Qed.

(** The byte strings hashed in making the nodes of a tree, and those the check makes. *)
Definition checked_strings (n : Z) (c : Cell) (t : tree) (x : list Z) : Prop :=
  hashed c x ∨ ∃ f, f ∈ remade n c t ∧ hashed f x.

Lemma checked_branches n c l ca cb a b x :
  Cell.refs c = [ca; cb] →
  checked_strings (n - len l - 1) ca a x ∨ checked_strings (n - len l - 1) cb b x → checked_strings n c (TFork l a b) x.
Proof.
  intros Hr Hx. unfold checked_strings. cbn [remade]. rewrite Hr. destruct Hx as [[Hx|(f & Hf & Hx)]|[Hx|(f & Hf & Hx)]].
  - left. apply (hashed_below c ca); [|done]. rewrite Hr. by left.
  - right. exists f. rewrite !elem_of_app. auto.
  - left. apply (hashed_below c cb); [|done]. rewrite Hr. right. by left.
  - right. exists f. rewrite !elem_of_app. auto.
Qed.

Lemma sums_validate `{!HasherOk H} fuel : ∀ n c t lab lab',
  shows false n c t → cell_wf c → n <= MAX_BITS → collision_free (checked_strings n c t) →
  validate_node (Aug aug) fuel c n lab = (Ok tt, lab') → sums n c t.
Proof.
  induction fuel as [|fuel IH]; intros n c t lab lab' Hs Hwf Hn Hcf Hv; [done|].
  destruct Hs as [n c Hn0 Hx|n c f e l p v Hx Hf Hl He Hv' Hb Hr _|n c f e l ca cb a b Hx Hf Hl He Hb Hr _ Sa Sb]; [done..|].
  destruct (validate_fork n c f l e ca cb lab fuel Hx Hf Hl Hn Hb Hr Hwf) as (lab1 & Hok & Hbits & Hlen & E). rewrite E in Hv.
  destruct (fork_checks lab1 n c ca cb) as [[]|] eqn:Ec; [|done]. apply st_bind_inv in Hv as ([] & lab2 & E1 & E2).
  destruct (two_refs c ca cb false Hr Hwf) as (_ & _ & Wa & Wb). pose proof (len_nonneg l).
  cbn [sums]. rewrite Hr. split; [|split].
  - intros Xa Xb. unfold fork_checks in Ec. rewrite Xa, Xb, Hlen in Ec. cbn [negb andb] in Ec.
    destruct (fork _ _ _ _ _ _) as [fk|] eqn:Ef; [|done]. cbn [res_bind] in Ec. case_bool_decide as Eh; [|done].
    apply (remade_fork lab1 n l ca cb a b fk (label_lawful _ Hok)) in Ef; [|by rewrite label_run_bits|done..].
    destruct Ef as (e' & Hfe & Oe & Hfit & Hm). exists e'. split; [done|].
    destruct (made_exact n l (aug_bits e') [ca; cb] fk Hm Hfit) as (Hb2 & _ & _ & Hw2); [by rewrite !Forall_cons, Forall_nil|].
    assert (same fk c) as Hsame.
    { apply repr_hash_same; [done..| |done]. intros x y Hx1 Hy1.
      apply Hcf; [destruct Hx1 as [Hz|Hz]|destruct Hy1 as [Hz|Hz]]; try by left.
      all: right; exists fk; split; [|done]; cbn [remade]; rewrite Hr.
      all: rewrite (proj2 (remade_fork l n l ca cb a b fk (bools_lawful l ltac:(unfold U16_MAX, MAX_BITS in *; lia)) (bools_run_bits l) Hl Hn Sa Sb Wa Wb)) by eauto.
      all: by left. }
    rewrite <- Hb2. unfold Cell.bits. by destruct Hsame as [? ? -> -> _ _ _].
  - eapply (IH _ ca a lab1 lab2); [done|done|lia| |done]. intros x y Hx1 Hy1. apply Hcf; eauto using checked_branches.
  - eapply (IH _ cb b lab2 lab'); [done|done|lia| |done]. intros x y Hx1 Hy1. apply Hcf; eauto using checked_branches.
Qed.
End summaries.

(** ** Where the forks are *)

(** The prefixes of the forks of a tree, in the order they are collected. *)
Fixpoint fork_prefixes (p : list bool) (t : tree) : list (list bool) :=
  match t with
  | TFork l a b => (p ++ l) :: fork_prefixes (p ++ l ++ [false]) a ++ fork_prefixes (p ++ l ++ [true]) b
  | _ => []
  end.

Lemma fork_prefixes_under t : ∀ p q, q ∈ fork_prefixes p t → p `prefix_of` q.
Proof.
  induction t as [l v|l a IHa b IHb|c]; intros p q; cbn [fork_prefixes]; [by intros ?%elem_of_nil| |by intros ?%elem_of_nil].
  rewrite elem_of_cons, elem_of_app. intros [->|[Hq%IHa|Hq%IHb]]; [by exists l|..];
    (etrans; [|exact Hq]); by eexists.
Qed.

Lemma entries_under p t kvs : whole t → entries p t = Ok <$> kvs → Forall (λ kv, p `prefix_of` kv.1) kvs.
Proof.
  intros Hw He. destruct (entries_sorted p t Hw) as (kvs' & E & _ & Hall). rewrite E in He.
  assert (kvs' = kvs) as -> by (by apply (inj (fmap (Ok (E:=CellError)))) in He). rewrite Forall_fmap in Hall.
  eapply Forall_impl; [exact Hall|]. intros kv [k' E']. by exists k'.
Qed.

Lemma prefix_parts (p q k : list bool) : p `prefix_of` k → q `prefix_of` k → p `prefix_of` q ∨ ∃ x, (q ++ [x]) `prefix_of` p.
Proof.
  intros Hp Hq. destruct (prefix_weak_total _ _ _ Hp Hq) as [?|[[|x r] ->]]; [by left|left; by rewrite app_nil_r|].
  right. exists x, r. by rewrite <- app_assoc.
Qed.

(** A fork stands wherever the keys part. *)
Lemma fork_prefixes_spec t : ∀ p kvs q, whole t → entries p t = Ok <$> kvs →
  q ∈ fork_prefixes p t ↔ ∀ x, ∃ kv, kv ∈ kvs ∧ (q ++ [x]) `prefix_of` kv.1.
Proof.
  assert (∀ (q k : list bool) x y, (q ++ [x]) `prefix_of` k → (q ++ [y]) `prefix_of` k → x = y) as Hone.
  { intros q k x y [r1 ->] [r2 E]. rewrite <- !app_assoc in E. by apply app_inv_head in E as [= ->]. }
  induction t as [l v|l a IHa b IHb|c]; intros p kvs q Hw He; cbn [fork_prefixes]; [| |done].
  - split; [by intros ?%elem_of_nil|]. intros Hq. destruct (Hq false) as (kv & Hin & H1), (Hq true) as (kv' & Hin' & H2).
    cbn in He. destruct kvs as [|kv0 [|]]; try done. apply list_elem_of_singleton in Hin as ->, Hin' as ->. by specialize (Hone _ _ _ _ H1 H2).
  - destruct Hw as [Wa Wb]. cbn [entries] in He. symmetry in He. apply fmap_app_inv in He as (i1 & i2 & E1 & E2 & ->).
    pose proof (entries_under _ a i1 Wa E1) as U1. pose proof (entries_under _ b i2 Wb E2) as U2.
    rewrite Forall_forall in U1, U2. rewrite elem_of_cons, elem_of_app, (IHa _ i1 q Wa E1), (IHb _ i2 q Wb E2).
    split.
    + intros [->|[Hq|Hq]].
      * assert (∀ t' p' i, whole t' → entries p' t' = Ok <$> i → ∃ kv, kv ∈ i) as Hsome.
        { intros t' p' i Wt Ei. destruct (whole_found t' Wt) as (k & v & Hk). apply (entries_tget p' t' k v) in Hk. rewrite Ei in Hk.
          apply list_elem_of_fmap in Hk as (kv & _ & Hin). by exists kv. }
        intros []; [destruct (Hsome b _ i2 Wb E2) as [kv Hin]; specialize (U2 kv Hin)|destruct (Hsome a _ i1 Wa E1) as [kv Hin]; specialize (U1 kv Hin)];
          exists kv; rewrite elem_of_app, <- app_assoc; auto.
      * intros x. destruct (Hq x) as (kv & Hin & Hx). exists kv. rewrite elem_of_app. auto.
      * intros x. destruct (Hq x) as (kv & Hin & Hx). exists kv. rewrite elem_of_app. auto.
    + intros Hq. destruct (Hq false) as (k0 & Hin0 & H0), (Hq true) as (k1 & Hin1 & H1).
      assert (∀ kv, kv ∈ i1 ++ i2 → (p ++ l) `prefix_of` kv.1) as Hall.
      { intros kv [Hin|Hin]%elem_of_app; [apply U1 in Hin|apply U2 in Hin]; (etrans; [|exact Hin]); rewrite app_assoc; by eexists. }
      assert (∀ x (kv : list bool * value), (q ++ [x]) `prefix_of` kv.1 → q `prefix_of` kv.1) as Hshort by (intros x kv Hx; etrans; [|exact Hx]; by eexists).
      destruct (prefix_parts (p ++ l) q k0.1 (Hall k0 Hin0) (Hshort _ _ H0)) as [[r ->]|(x & Hx)].
      2:{ exfalso. assert (x = false ∧ x = true) as [-> [=]].
          split; [apply (Hone q k0.1)|apply (Hone q k1.1)]; try done; (etrans; [exact Hx|by apply Hall]). }
      destruct r as [|x r]; [left; by rewrite app_nil_r|right].
      assert (∀ y (kv : list bool * value), ((p ++ l) ++ x :: r) ++ [y] `prefix_of` kv.1 → kv ∈ i1 ++ i2 → kv ∈ (if x then i2 else i1)) as Hside.
      { intros y kv Hy Hin. assert ((p ++ l) ++ [x] `prefix_of` kv.1) as Hpx by (etrans; [|exact Hy]; exists (r ++ [y]); by rewrite <- !app_assoc).
        apply elem_of_app in Hin as [Hin|Hin]; [specialize (U1 kv Hin)|specialize (U2 kv Hin)]; rewrite app_assoc in *;
          [assert (x = false) as -> by (by eapply Hone)|assert (x = true) as -> by (by eapply Hone)]; done. }
      destruct x; [right|left]; intros y; destruct (Hq y) as (kv & Hin & Hy); exists kv; split; eauto; by apply (Hside y kv Hy Hin).
Qed.

(** ** Summaries as totals *)

(** A measure of summaries that combining adds up: the number of entries below, or a
    balance, or the whole of a balance. *)
Section totals.
Context `{Hasher} {A : Type} `{Augmentation A} (aug : A) `{!LawfulAug aug}.
Local Abbreviation shows := (shows (Aug aug)).
Local Abbreviation extra_of := (extra_of (aug_read aug)).
Context {M : Type} (op : M → M → M) (u : M) `{!Assoc (=) op, !LeftId (=) u op, !RightId (=) u op}.
Context (weight : AugExtra → M).

Definition total (items : list (list bool * AugEntry AugExtra)) : M :=
  foldr op u ((λ item, weight (ae_extra item.2)) <$> items).

Lemma total_app xs ys : total (xs ++ ys) = op (total xs) (total ys).
Proof.
  unfold total. rewrite fmap_app. induction xs as [|x xs IH]; cbn; [by rewrite (left_id u op)|]. by rewrite IH, (assoc op).
Qed.

Context (weight_combine : ∀ el er e, aug_combine aug el er = Ok e → weight e = op (weight el) (weight er)).

Lemma sums_total st n c t :
  shows st n c t → whole t → cell_wf c → n <= MAX_BITS → sums aug n c t →
  ∃ e, extra_of c n = Ok e ∧ aug_ok e ∧
    ∀ p items, entries p t = Ok <$> (as_held aug <$> items) → Forall (item_good aug) items → weight e = total items.
Proof.
  intros Hs. induction Hs as [n c Hn0 Hx|n c f e l p v Hx Hf Hl He Hv' Hb Hr _|n c f e l ca cb a b Hx Hf Hl He Hb Hr _ Sa IHa Sb IHb];
    intros Hw Hwf Hn Hsum; [done|..].
  - pose proof (shows_leaf (Aug aug) false n c f e l p v Hx Hf Hl He Hv' Hb Hr ltac:(done)) as Hs.
    exists e. split; [|split; [done|]].
    + unfold Dict.extra_of. rewrite Hx. pose proof (len_nonneg l).
      destruct (read_node n c f l _ (S := Label) Label.new Hwf ltac:(lia) ltac:(lia) Hf Hb) as (_ & _ & _ & _ & ->).
      destruct (node_rest c _ _ Hwf Hb) as (Ws & Hsb & _). rewrite (aug_reads aug _ e He); [done|]. split; [done|]. exists p. by rewrite Hsb.
    + intros q items Hi Hg. cbn [entries] in Hi. destruct items as [|[k [e' x]] [|]]; try done. injection Hi as Hk Hv.
      apply Forall_cons in Hg as [[Hg _] _]. unfold item_good in Hg. cbn in Hg.
      change (v.1 = aug_bits e ++ p) in Hv'.
      unfold total. cbn. rewrite (right_id u op). f_equal.
      destruct (node_rest c _ _ Hwf Hb) as (_ & _ & _ & _ & Hbl). pose proof (cell_wf_bit_len c Hwf). pose proof (len_nonneg (form_bits n f l)).
      destruct (aug_split aug e p e' (entry_value x).1 He Hg) as [<- _]; [by rewrite <- Hv', Hv|rewrite <- Hv'; lia|done].
  - destruct (two_refs c ca cb false Hr Hwf) as (_ & _ & Wa & Wb). destruct Hw as [Ha Hb']. cbn [sums] in Hsum. rewrite Hr in Hsum.
    destruct Hsum as (Hsum & Qa & Qb). pose proof (len_nonneg l).
    destruct (IHa Ha Wa ltac:(lia) Qa) as (ea & Ea & Oa & Ta), (IHb Hb' Wb ltac:(lia) Qb) as (eb & Eb & Ob & Tb).
    assert (Cell.is_exotic ca = false ∧ Cell.is_exotic cb = false) as [Xa Xb].
    { rewrite (shows_exotic _ _ _ _ _ Sa), (shows_exotic _ _ _ _ _ Sb). by destruct a, b. }
    destruct (Hsum Xa Xb) as (e' & Hfe & Hbc). cbn [fork_extra Aug] in Hfe. rewrite Ea, Eb in Hfe. cbn [res_bind] in Hfe.
    pose proof (aug_combine_ok ea eb e' Oa Ob Hfe) as Oe. exists e'. split; [|split; [done|]].
    + unfold Dict.extra_of. rewrite Hx.
      destruct (read_node n c (best_form n l) l _ (S := Label) Label.new Hwf ltac:(lia) ltac:(lia) ltac:(apply best_form_ok; lia) Hbc) as (_ & _ & _ & _ & ->).
      destruct (node_rest c _ _ Hwf Hbc) as (Ws & Hsb & _). rewrite (aug_reads aug _ e' Oe); [done|]. split; [done|]. exists []. by rewrite app_nil_r, <- Hsb.
    + intros q items Hi Hg. cbn [entries] in Hi. rewrite <- list_fmap_compose in Hi. symmetry in Hi. apply fmap_app_inv in Hi as (i1 & i2 & E1 & E2 & ->).
      apply Forall_app in Hg as [G1 G2]. rewrite total_app, (weight_combine ea eb e' Hfe).
      by rewrite (Ta (q ++ l ++ [false]) i1), (Tb (q ++ l ++ [true]) i2) by (done || by rewrite <- list_fmap_compose).
Qed.

(** The entries under a prefix. *)
Definition under (q : list bool) (items : list (list bool * AugEntry AugExtra)) : list (list bool * AugEntry AugExtra) :=
  filter (λ item, q `prefix_of` item.1) items.

Lemma under_app q xs ys : under q (xs ++ ys) = under q xs ++ under q ys.
Proof. apply filter_app. Qed.

Lemma under_all q items : Forall (λ item, q `prefix_of` item.1) items → under q items = items.
Proof. intros Hall. unfold under. induction Hall as [|item items Hi _ IH]; [done|]. by rewrite filter_cons_True, IH. Qed.

Lemma under_none p q x items :
  (p ++ [x]) `prefix_of` q → Forall (λ item, (p ++ [negb x]) `prefix_of` item.1) items → under q items = [].
Proof.
  intros Hq Hall. unfold under. induction Hall as [|item items Hi _ IH]; [done|]. rewrite filter_cons_False; [done|]. intros Hqi.
  destruct Hi as [r1 E1], Hq as [r2 ->], Hqi as [r3 E]. rewrite E1, <- !app_assoc in E. apply app_inv_head in E. injection E as E _. by destruct x.
Qed.

Lemma extend_bits_spec p lab : label_ok lab → extend_bits p lab = p ++ lbits lab.
Proof.
  intros Hok. rewrite <- (label_run_bits lab Hok). unfold extend_bits, run_bits. generalize (seqZ 0 (run_len lab)) as js. intros js.
  revert p. induction js as [|j js IH]; intros p; cbn; [by rewrite app_nil_r|]. by rewrite IH, <- app_assoc.
Qed.

Lemma as_held_under p t items :
  whole t → entries p t = Ok <$> (as_held aug <$> items) → Forall (λ item, p `prefix_of` item.1) items.
Proof. intros Hw He. pose proof (entries_under p t _ Hw He) as Hall. rewrite Forall_fmap in Hall. exact Hall. Qed.

Lemma collect_forks_total st n c t :
  shows st n c t → whole t → cell_wf c → n <= MAX_BITS → sums aug n c t →
  ∀ fuel p lab out, (Z.to_nat n < fuel)%nat →
  ∃ lab' forks, collect_forks (Aug aug) fuel c n p (lab, out) = (Ok tt, (lab', out ++ forks)) ∧
    forks.*1 = fork_prefixes p t ∧
    ∀ items, entries p t = Ok <$> (as_held aug <$> items) → Forall (item_good aug) items →
      Forall (λ qe, weight qe.2 = total (under qe.1 items)) forks.
Proof.
  intros Hs. induction Hs as [n c Hn0 Hx|n c f e l q v Hx Hf Hl He Hv' Hb Hr _|n c f e l ca cb a b Hx Hf Hl He Hb Hr Hst Sa IHa Sb IHb];
    intros Hw Hwf Hn Hsum [|fuel] p lab out Hfuel; try lia; [done|..]; cbn [collect_forks]; rewrite Hx; pose proof (len_nonneg l).
  - destruct (read_node n c f l _ lab Hwf ltac:(lia) ltac:(lia) Hf Hb) as (lab' & -> & Hok & Hbits & _).
    cbn [sink_ok sink_bits label_lawful_sink] in Hok, Hbits. cbv zeta. rewrite <- (len_lbits lab' Hok), Hbits, (proj2 (Z.ltb_ge _ _)) by lia.
    exists lab', []. rewrite app_nil_r. split; [done|]. split; [done|]. intros; constructor.
  - destruct (sums_total st n c (TFork l a b)) as (e0 & Ee & Oe & Te); [by eapply (shows_fork (Aug aug))|done..|].
    destruct (read_node n c f l _ lab Hwf ltac:(lia) ltac:(lia) Hf Hb) as (lab' & -> & Hok & Hbits & Hskip).
    cbn [sink_ok sink_bits label_lawful_sink] in Hok, Hbits. cbv zeta. unfold Label.width.
    rewrite <- (len_lbits lab' Hok), Hbits, (proj2 (Z.ltb_lt _ _)) by lia.
    rewrite (extend_bits_spec p lab' Hok), Hbits. unfold Dict.extra_of in Ee. rewrite Hx, Hskip in Ee.
    cbn [read_extra Aug]. destruct (aug_read aug _) as [[e1|err] s1]; [|done]. injection Ee as ->.
    destruct (two_there c ca cb Hr) as [-> ->]. destruct (two_refs c ca cb false Hr Hwf) as (_ & _ & Wa & Wb).
    cbn [sums] in Hsum. rewrite Hr in Hsum. destruct Hsum as (_ & Qa & Qb), Hw as [Ha Hb'].
    destruct (IHa Ha Wa ltac:(lia) Qa fuel (p ++ l ++ [false]) lab' (out ++ [(p ++ l, e0)]) ltac:(lia)) as (lab1 & f1 & E1 & P1 & T1).
    destruct (IHb Hb' Wb ltac:(lia) Qb fuel (p ++ l ++ [true]) lab1 ((out ++ [(p ++ l, e0)]) ++ f1) ltac:(lia)) as (lab2 & f2 & E2 & P2 & T2).
    exists lab2, ((p ++ l, e0) :: f1 ++ f2). rewrite <- !app_assoc. split; [|split].
    + unfold st_bind at 1, st_lift at 1. unfold st_bind at 1, st_lift at 1. erewrite st_bind_ok by exact E1. rewrite E2. by rewrite <- !app_assoc.
    + cbn [fork_prefixes fmap list_fmap fst]. by rewrite fmap_app, P1, P2.
    + intros items Hi Hg. pose proof (Te p items Hi Hg) as T0. cbn [entries] in Hi. rewrite <- list_fmap_compose in Hi. symmetry in Hi.
      apply fmap_app_inv in Hi as (i1 & i2 & Ei1 & Ei2 & ->). rewrite list_fmap_compose in Ei1, Ei2.
      pose proof (as_held_under _ a i1 Ha Ei1) as U1. pose proof (as_held_under _ b i2 Hb' Ei2) as U2.
      apply Forall_app in Hg as [G1 G2]. constructor; [|apply Forall_app; split].
      * cbn [fst snd]. rewrite under_all; [done|]. apply Forall_app.
        split; [eapply Forall_impl; [exact U1|]|eapply Forall_impl; [exact U2|]]; intros item Hp; (etrans; [|exact Hp]); rewrite app_assoc; by eexists.
      * specialize (T1 i1 Ei1 G1). rewrite Forall_forall in T1 |- *. intros [q e1] Hin. rewrite (T1 _ Hin). cbn [fst]. rewrite under_app.
        assert (q ∈ f1.*1) as Hq by (apply list_elem_of_fmap; by exists (q, e1)). rewrite P1 in Hq. apply fork_prefixes_under in Hq.
        rewrite (under_none (p ++ l) q false i2), app_nil_r; [done|by rewrite <- app_assoc|by rewrite <- app_assoc].
      * specialize (T2 i2 Ei2 G2). rewrite Forall_forall in T2 |- *. intros [q e1] Hin. rewrite (T2 _ Hin). cbn [fst]. rewrite under_app.
        assert (q ∈ f2.*1) as Hq by (apply list_elem_of_fmap; by exists (q, e1)). rewrite P2 in Hq. apply fork_prefixes_under in Hq.
        rewrite (under_none (p ++ l) q true i1), app_nil_l; [done|by rewrite <- app_assoc|by rewrite <- app_assoc].
Qed.
End totals.

