(* ===== verification/AugTheorems.v ===== *)
(** The augmented dictionary's guarantees, for summaries written as bits alone
    ([LawfulAug]): its summaries are those of its entries, what the check of them lets
    through, and what stores, removals, bulk building and merging do. *)

From stdpp Require Import base list list_numbers numbers strings sorting.
From Stdlib Require Import ZArith Lia.
From S2P Require Import Prelude Errors Bits CellData CellHash CellModel Binding CellSlice CellBuilder Fields BuilderOps Merkle DictLabel Dict DictTree DictCells DictWalk DictSpec DictTheorems Search DictOps DictBulk DictQueries AugDict AugSpec AugSums.

Local Open Scope Z_scope.

#[local] Arguments uint_bits : simpl never.

(** ** Storing many *)

Section stores.
Context `{Hasher} {A : Type} `{Augmentation A} (aug : A) `{!LawfulAug aug}.
Local Abbreviation stored := (stored (Aug aug)).

(** Entries as the bulk builder and a merge are handed them. *)
Definition aug_items (entries : list (list Z * (AugExtra * value))) : list (list Z * AugExtra * Builder) :=
  (λ kv, (kv.1, kv.2.1, builder_of kv.2.2)) <$> entries.

Definition aug_item_ok (n : Z) (kv : list Z * (AugExtra * value)) : Prop :=
  n <= 8 * len kv.1 ∧ aug_ok kv.2.1 ∧ storable kv.2.2.

Lemma asets_contents st entries : ∀ d ot d',
  arepresents aug st d ot → Forall (aug_item_ok (ad_key_bits d)) entries →
  st_for (aug_items entries) (λ '(key, extra, value), AugDict.set key extra value) d = (Ok tt, d') →
  ∃ ot', arepresents aug st d' ot' ∧ (owhole ot → owhole ot') ∧ ad_key_bits d' = ad_key_bits d ∧
    ∀ k, dget ot' k = match last_of (keyed (ad_key_bits d) entries) k with Absent => dget ot k | r => lookup_map stored r end.
Proof.
  induction entries as [|[key [e v]] entries IH]; intros d ot d' Hr Hok Hf.
  { injection Hf as <-. by exists ot. }
  apply Forall_cons in Hok as [(Hk & He & Hv) Hok]. cbn [fst snd] in Hk, He, Hv. unfold aug_items in Hf.
  cbn [fmap list_fmap st_for fst snd] in Hf. fold (aug_items entries) in Hf.
  apply st_bind_inv in Hf as ([] & d1 & Es & Hf).
  destruct (aset_spec aug st d ot key e v Hr He Hv Hk) as [(d2 & ot1 & E & Hb1 & Hr1 & Hw1 & _ & Hg1)|[[err E] _]]; [|by rewrite E in Es].
  rewrite Es in E. injection E as <-. rewrite <- Hb1 in Hok.
  destruct (IH d1 ot1 d' Hr1 Hok Hf) as (ot' & Hr' & Hw' & Hb' & Hg').
  exists ot'. split; [done|]. split; [auto|]. split; [congruence|]. intros k. rewrite Hg', Hb1.
  change (keyed (ad_key_bits d) ((key, (e, v)) :: entries)) with ([(bits_of key (ad_key_bits d), (e, v))] ++ keyed (ad_key_bits d) entries).
  rewrite last_of_app. destruct (last_of (keyed _ entries) k); [done| |done].
  rewrite Hg1. unfold last_of. rewrite filter_cons. cbn [fst]. by repeat case_decide.
Qed.

Lemma last_of_distinct {V} (items : list (list bool * V)) k v :
  NoDup items.*1 → last_of items k = Found v ↔ (k, v) ∈ items.
Proof.
  revert v. induction items as [|[k' v'] items IH]; intros v; [by intros _; split; [|intros ?%elem_of_nil]|]. cbn [fmap list_fmap fst].
  intros [Hk Hd]%NoDup_cons. pose proof (λ v, IH v Hd) as IH'. clear IH. change ((k', v') :: items) with ([(k', v')] ++ items).
  rewrite last_of_app, elem_of_app, list_elem_of_singleton, <- IH'. destruct (last_of items k) as [w| |] eqn:E.
  - split; [by right|]. intros [[= -> ->]|?]; [|done]. destruct Hk. apply list_elem_of_fmap. exists (k', w). split; [done|]. by apply IH'.
  - unfold last_of. rewrite filter_cons. cbn [fst]. case_decide as Ek; cbn; [subst|]; (split; [intros [=]; subst; by left|intros [[= ]|?]; by subst]).
  - unfold last_of in E. by destruct (last _).
Qed.

(** The value of an entry, copied into a builder. *)
Lemma entry_copied e :
  entry_wf e →
  ∃ s, entry_slice e = Ok s ∧ Builder.to_builder s = Ok (builder_of (entry_value e)) ∧ storable (entry_value e).
Proof.
  intros [Hwf Ho]. destruct (slice_new_spec (e_cell e) Hwf) as (Hn & Hrem & _). set (s := step_bits (e_bit_offset e) (Slice.new (e_cell e))).
  assert (entry_slice e = Ok s) as Hs.
  { unfold entry_slice, Slice.skip_bits. erewrite st_bind_ok by (apply advance_ok; lia). done. }
  exists s. split; [done|]. unfold entry_value. rewrite Hs.
  assert (slice_wf s) as Ws by (apply step_bits_wf; [done|lia]). pose proof (Hwf : cell_wf (s_cell s)) as Wc.
  pose proof (slice_room s Ws Wc) as Hroom. pose proof (len_slice_bits s Ws) as Hlb. pose proof (len_slice_refs s Ws) as Hlr.
  assert (Slice.remaining_refs s <= MAX_REFS) as Hmr.
  { destruct Ws as [_ _ ? ?]. unfold Slice.remaining_refs. pose proof (len_refs_slice (inner_refs (s_cell s))). unfold Cell.refs in *. lia. }
  split; [|split; [cbn; lia|split; [cbn; lia|by apply slice_refs_wf]]].
  unfold Builder.to_builder. rewrite new_holding, store_slice_spec by (done || lia). change (len []) with 0.
  change (len (refs_slice RNone)) with 0. by rewrite !(proj2 (Z.ltb_ge _ _)) by lia.
Qed.

(** *** Merging *)

Lemma entries_length t : ∀ n p k v, tree_wf n t → Ok (k, v) ∈ entries p t → ∃ k', k = p ++ k' ∧ len k' = n.
Proof.
  induction t as [l w|l a IHa b IHb|c]; intros n p k v Hwf; cbn [entries].
  - intros [= -> _]%list_elem_of_singleton. by exists l.
  - destruct Hwf as (Hl & Wa & Wb). intros [Hin|Hin]%elem_of_app; [apply (IHa _ _ _ _ Wa) in Hin|apply (IHb _ _ _ _ Wb) in Hin];
      destruct Hin as (k' & -> & Hk'); [exists (l ++ false :: k')|exists (l ++ true :: k')]; rewrite <- !app_assoc;
      (split; [done|]); rewrite len_app, len_cons; lia.
  - by intros [=]%list_elem_of_singleton.
Qed.

Lemma until_err_all {B} (es : list (result CellError B)) vs : until_err es = Ok <$> vs → es = Ok <$> vs.
Proof.
  revert vs. induction es as [|[x|e] es IH]; intros [|v vs]; cbn; try done. intros [= -> E]. f_equal. by apply IH.
Qed.

Lemma until_err_sub {B} (es : list (result CellError B)) x : x ∈ until_err es → x ∈ es.
Proof.
  induction es as [|[y|e] es IH]; cbn; [done|..]; rewrite ?elem_of_cons; [intros [->|?]; auto|].
  intros [->|?%elem_of_nil]; [by left|done].
Qed.

Lemma entries_ok_whole t : ∀ p kvs, entries p t = Ok <$> kvs → whole t.
Proof.
  induction t as [l v|l a IHa b IHb|c]; intros p kvs He; [done| |by destruct kvs as [|? [|]]].
  cbn [entries] in He. symmetry in He. apply fmap_app_inv in He as (i1 & i2 & E1 & E2 & _). split; [by eapply IHa|by eapply IHb].
Qed.

(** An entry a walk yields, with the bits of its key and as it is handed on. *)
Definition seen_at (item : list bool * AugEntry AugExtra) : list bool * (AugExtra * value) := (item.1, aug_seen item.2).
Definition handed_on (item : list bool * AugEntry AugExtra) : list Z * (AugExtra * value) := (packed item.1, aug_seen item.2).

Lemma keyed_handed_on n items : Forall (λ item, len item.1 = n) items → keyed n (handed_on <$> items) = seen_at <$> items.
Proof.
  intros Hall. unfold keyed. rewrite <- list_fmap_compose. apply list_fmap_ext. intros i item Hi.
  unfold seen_at, handed_on. cbn [compose fst snd]. f_equal. rewrite Forall_forall in Hall. apply list_elem_of_lookup_2 in Hi.
  rewrite <- (Hall item Hi). apply bits_of_packed.
Qed.

(** What a whole dictionary answers, by what its walk yields. *)
Lemma walk_answers st d ot items :
  arepresents aug st d ot → dentries ot = Ok <$> (as_held aug <$> items) →
  Forall (λ item, len item.1 = ad_key_bits d) items ∧ NoDup (seen_at <$> items).*1 ∧
  ∀ k, dget ot k = lookup_map stored (last_of (seen_at <$> items) k).
Proof.
  intros Hr He. assert (owhole ot) as Hw by (destruct ot as [t|]; [by apply (entries_ok_whole t [] _ He)|done]).
  assert (NoDup (seen_at <$> items).*1) as Hd.
  { rewrite <- list_fmap_compose. change (fst ∘ seen_at) with (fst : list bool * AugEntry AugExtra → _).
    assert (StronglySorted bits_lt items.*1) as Hs.
    { destruct ot as [t|]; [|destruct items; [constructor|done]]. destruct (entries_sorted [] t Hw) as (kvs & Ek & Hs & _). cbn [dentries] in He.
      rewrite He in Ek. apply (inj (fmap Ok)) in Ek as <-. by rewrite <- list_fmap_compose in Hs. }
    clear -Hs. induction Hs as [|k ks _ IH Hall]; [constructor|]. constructor; [|done]. intros Hin.
    rewrite Forall_forall in Hall. by apply (bits_lt_irrefl k), Hall. }
  assert (∀ k v, dget ot k = Found v ↔ ∃ item, item ∈ items ∧ as_held aug item = (k, v)) as Hget.
  { intros k v. assert (dget ot k = Found v ↔ Ok (k, v) ∈ dentries ot) as ->.
    { destruct ot as [t|]; cbn [dget dentries]; [|split; [done|by intros ?%elem_of_nil]]. symmetry. apply (entries_tget [] t). }
    rewrite He, list_elem_of_fmap. split.
    - intros (kv & [= <-] & Hin). apply list_elem_of_fmap in Hin as (item & E & Hin). by exists item.
    - intros (item & Hin & E). exists (as_held aug item). split; [by rewrite E|]. apply list_elem_of_fmap. by exists item. }
  split; [|split; [done|]].
  - apply Forall_forall. intros item Hin. destruct Hr as [_ [Hn Hr]].
    assert (dget ot item.1 = Found (as_held aug item).2) as Hf by (apply Hget; by exists item).
    destruct (ad_root d) as [c|], ot as [t|]; try done. destruct Hr as [_ Hsh%(shows_wf (Aug aug))].
    by apply (tget_length _ t item.1 _ Hsh Hw Hf).
  - intros k. enough (∀ r, last_of (seen_at <$> items) k = r → dget ot k = lookup_map stored r) as Hr' by by apply Hr'.
    intros r E. destruct r as [x| |].
    + apply last_of_distinct in E; [|done]. apply list_elem_of_fmap in E as (item & [= -> ->] & Hin). apply Hget. by exists item.
    + cbn [lookup_map]. destruct (dget ot k) as [v| |] eqn:Eg; [|done|].
      * apply Hget in Eg as (item & Hin & [= <- _]).
        assert (last_of (seen_at <$> items) item.1 = Found (aug_seen item.2)) as E'.
        { apply last_of_distinct; [done|]. apply list_elem_of_fmap. by exists item. }
        discriminate (eq_trans (eq_sym E) E').
      * destruct ot as [t|]; [|done]. cbn in Eg. by destruct (whole_not_pruned t k Hw).
    + unfold last_of in E. by destruct (last _).
Qed.

(** Reading the other side: what is to be added, or why nothing is. *)
Lemma additions_spec st d ot items :
  arepresents aug st d ot → (∀ item, Ok item ∈ items → item_good aug item ∧ len item.1 = ad_key_bits d) →
  ∀ acc, let additions := res_fold (λ additions item,
      let? '(key, found) := item in
      let? there := AugDict.get d key in
      match there with
      | Absent =>
          let? slice := entry_slice (ae_entry found) in
          let? value := Builder.to_builder slice in
          Ok (additions ++ [(key, ae_extra found, value)])
      | _ => Err (Malformed "combining dictionaries that share a key")
      end) (res_map at_key <$> items) acc in
  (∃ good, items = Ok <$> good ∧ Forall (λ item, dget ot item.1 = Absent) good ∧
     additions = Ok (acc ++ aug_items (handed_on <$> good))) ∨
  (∃ err, additions = Err err) ∧ ∃ item, item ∈ items ∧
     match item with Ok item => dget ot item.1 ≠ Absent | Err _ => True end.
Proof.
  intros Hr. induction items as [|[item|err] items IH]; intros Hok acc; cbn zeta in *.
  - left. exists []. split; [done|]. split; [constructor|]. cbn. by rewrite app_nil_r.
  - cbn [fmap list_fmap res_fold res_map at_key res_bind]. destruct (Hok item) as [[He Hw] Hl]; [by left|].
    assert (ad_key_bits d <= 8 * len (packed item.1)) as Hk.
    { rewrite <- Hl, len_packed. pose proof (div_ceil_8 (len item.1) (len_nonneg _)). unfold div_ceil in *. zdiv. }
    pose proof (acontents_spec aug st d ot (packed item.1) Hr) as Hc. rewrite (proj2 (Z.ltb_ge _ _)) in Hc by lia.
    rewrite <- Hl, bits_of_packed in Hc. destruct Hc as (r & Hc & Hg & _). unfold acontents in Hc.
    destruct (AugDict.get d (packed item.1)) as [there|err]; [|done]. cbn [res_map res_bind] in *. injection Hc as <-.
    assert (dget ot item.1 = Absent ↔ there = Absent) as Habs by (rewrite <- Hg; by destruct there).
    destruct there as [x| |].
    1,3: right; split; [by eexists|]; exists (Ok item); split; [by left|]; rewrite Habs; done.
    destruct (entry_copied (ae_entry item.2) Hw) as (s & -> & E & _). cbn [res_bind]. rewrite E. cbn [res_bind].
    destruct (IH ltac:(intros i Hi; apply Hok; by right) (acc ++ [(packed item.1, ae_extra item.2, builder_of (entry_value (ae_entry item.2)))]))
      as [(good & -> & Hall & ->)|(Herr & i & Hi & Hwhy)].
    + left. exists (item :: good). split; [done|]. split; [constructor; [by apply Habs|done]|]. by rewrite <- app_assoc.
    + right. split; [done|]. exists i. split; [by right|done].
  - right. split; [by eexists|]. exists (Err err). split; [by left|done].
Qed.

(** Where every summary fits and any two combine, storing never fails in a whole dictionary. *)
Definition obliging (n : Z) : Prop :=
  (∀ e, aug_ok e → 2 + bounded_width n + n + len (aug_bits e) <= MAX_BITS) ∧
  (∀ el er, aug_ok el → aug_ok er → is_ok (aug_combine aug el er) = true).

Lemma asets_succeed st entries : ∀ d ot,
  arepresents aug st d ot → owhole ot → obliging (ad_key_bits d) → Forall (aug_item_ok (ad_key_bits d)) entries →
  Forall (λ kv, spacious (ad_key_bits d) (stored kv.2)) entries →
  ∃ d', st_for (aug_items entries) (λ '(key, extra, value), AugDict.set key extra value) d = (Ok tt, d').
Proof.
  induction entries as [|[key [e v]] entries IH]; intros d ot Hr Hw Hob Hok Hsp; [by eexists|].
  apply Forall_cons in Hok as [(Hk & He & Hv) Hok], Hsp as [Hs Hsp]. cbn [fst snd] in Hk, He, Hv, Hs.
  destruct (aset_spec aug st d ot key e v Hr He Hv Hk) as [(d1 & ot1 & E & Hb1 & Hr1 & Hw1 & _)|[_ Hwhy]].
  - rewrite <- Hb1 in Hob, Hok, Hsp. destruct (IH d1 ot1 Hr1 (Hw1 Hw) Hob Hok Hsp) as [d' Hd']. exists d'.
    unfold aug_items. cbn [fmap list_fmap st_for fst snd]. by erewrite st_bind_ok by exact E.
  - exfalso. destruct Hwhy as [Hp|[Hns|Hnf]]; [|done|].
    + destruct ot as [t|]; [|done]. by destruct (whole_not_pruned t _ Hw Hp).
    + apply Hnf. destruct ot as [t|]; [|done]. right. by destruct Hob.
Qed.
End stores.

(** ** Theorems *)

Section theorems.
Context `{Hasher} {A : Type} `{Augmentation A} (aug : A) `{!LawfulAug aug}.
Local Abbreviation stored := (stored (Aug aug)).

(** The summaries of a dictionary are the totals of its entries: the root's of all of them,
    and each fork's of the entries under its prefix; and the forks are where the keys of
    the entries part. *)
Definition totalled {M} (op : M → M → M) (u : M) (weight : AugExtra → M) (d : AugDict A) : Prop :=
  ∃ items forks, AugDict.items d = Ok <$> (at_key <$> items) ∧ AugDict.fork_extras d = Ok forks ∧
    match AugDict.root_extra d with
    | Ok (Some e) => weight e = total op u weight items
    | Ok None => items = []
    | Err _ => False
    end ∧
    Forall (λ qe, weight qe.2 = total op u weight (under qe.1 items)) forks ∧
    ∀ q, q ∈ forks.*1 ↔ ∀ x, ∃ item, item ∈ items ∧ (q ++ [x]) `prefix_of` item.1.

Lemma sums_totalled {M} (op : M → M → M) u weight `{!Assoc (=) op, !LeftId (=) u op, !RightId (=) u op} d ot :
  (∀ el er e, aug_combine aug el er = Ok e → weight e = op (weight el) (weight er)) →
  arepresents aug false d ot → owhole ot →
  (∀ c t, ad_root d = Some c → ot = Some t → sums aug (ad_key_bits d) c t) → totalled op u weight d.
Proof.
  intros Hcomb Hr Hw Hsum. destruct (aitems_whole aug false d ot Hr Hw) as (items & Hi & He & _ & Hg). destruct Hr as [Ha [Hn Hr]].
  exists items. unfold AugDict.fork_extras, AugDict.root_extra, collect_fork_extras. rewrite Ha.
  destruct (ad_root d) as [c|], ot as [t|]; try done; cbn [fmap option_fmap option_map transpose dentries owhole] in *.
  - destruct Hr as [Wc Sc]. specialize (Hsum c t eq_refl eq_refl).
    destruct (sums_total aug op u weight Hcomb false _ c t Sc Hw Wc ltac:(lia) Hsum) as (e & Ee & _ & Te).
    destruct (collect_forks_total aug op u weight Hcomb false _ c t Sc Hw Wc ltac:(lia) Hsum (S (Z.to_nat (ad_key_bits d))) [] Label.new [] ltac:(lia))
      as (lab & forks & -> & Hp & Tf).
    exists forks. rewrite Ee. split; [done|]. split; [done|]. split; [by apply (Te [])|]. split; [by apply Tf|].
    intros q. change (forks.*1 = fork_prefixes [] t) with ((forks : list (list bool * AugExtra)).*1 = fork_prefixes [] t) in Hp.
    rewrite Hp, (fork_prefixes_spec t [] _ q Hw He). split; intros Hq x; specialize (Hq x).
    + destruct Hq as (kv & Hin & Hx). apply list_elem_of_fmap in Hin as (item & -> & Hin). by exists item.
    + destruct Hq as (item & Hin & Hx). exists (as_held aug item). split; [|done]. apply list_elem_of_fmap. by exists item.
  - exists []. destruct items; [|done]. split; [done|]. split; [done|]. split; [done|]. split; [constructor|].
    intros q. split; [by intros ?%elem_of_nil|]. intros Hq. by destruct (Hq true) as (item & ?%elem_of_nil & _).
Qed.

(** C16: where summaries are written as bits alone, those of a dictionary made by any stores
    and removals, failed ones included, are the totals of its entries, whatever measure of
    summaries it is that combining adds up: at the root of all the entries, at each fork of
    those under it. And the check of the summaries passes. *)
Theorem aug_totals {M} (op : M → M → M) u weight `{!Assoc (=) op, !LeftId (=) u op, !RightId (=) u op} n d es :
  (∀ el er e, aug_combine aug el er = Ok e → weight e = op (weight el) (weight er)) →
  0 <= n → AugDict.new aug n = Ok d → Forall (aug_edit_ok aug) es →
  totalled op u weight (fold_left apply_aug_edit es d) ∧ AugDict.validate (fold_left apply_aug_edit es d) = Ok tt.
Proof.
  intros Hcomb Hn Hd Hes. destruct (arepresents_new aug true n d Hn Hd) as [Hr0 _].
  destruct (aug_edits_represent aug true d None es Hr0 Hes) as (ot & Hr & Hw & _). specialize (Hw I).
  set (d' := fold_left apply_aug_edit es d) in *. destruct Hr as [Ha [Hm Hr]].
  assert (∀ c t, ad_root d' = Some c → ot = Some t → sums aug (ad_key_bits d') c t) as Hsum.
  { intros c t Ec Et. rewrite Ec, Et in Hr. destruct Hr. apply strict_sums; [done|done|lia]. }
  split.
  - apply (sums_totalled op u weight d' ot Hcomb); [|done|done]. split; [done|]. split; [done|].
    destruct (ad_root d'), ot; try done. destruct Hr. split; [done|by apply shows_strict].
  - unfold AugDict.validate, validate_tree. rewrite Ha. destruct (ad_root d') as [c|], ot as [t|]; try done. destruct Hr as [Wc Sc].
    destruct (validate_sums aug (S (Z.to_nat (ad_key_bits d'))) (ad_key_bits d') c t Label.new) as [lab ->];
      [by apply shows_strict|done|lia|lia|by apply Hsum|done].
Qed.

(** C17: over any cells that spell a dictionary with summaries written as bits alone,
    whatever the summaries and label forms, with branches pruned away or not, the check
    passes exactly when every fork whose branches are both there records what their
    summaries combine to, and has its label in the shortest form, provided SHA-256 does not
    collide on what is hashed in making its nodes and the nodes they are compared to. The
    documentation speaks of the summaries alone. So a whole dictionary that passes has the
    totals of its entries for summaries. *)
Theorem aug_validate_exact `{!HasherOk H} d c t :
  arepresents aug false d (Some t) → ad_root d = Some c → collision_free (checked_strings aug (ad_key_bits d) c t) →
  (AugDict.validate d = Ok tt ↔ recorded aug (ad_key_bits d) c t ∧ shortest (ad_key_bits d) c t) ∧
  (whole t → AugDict.validate d = Ok tt →
   ∀ (weight : AugExtra → Z), (∀ el er e, aug_combine aug el er = Ok e → weight e = weight el + weight er) →
   totalled Z.add 0 weight d).
Proof.
  intros Hr Hc Hcf. assert (AugDict.validate d = Ok tt ↔ sums aug (ad_key_bits d) c t) as Hiff.
  { destruct Hr as [Ha [Hm Hr]]. rewrite Hc in Hr. destruct Hr as [Wc Sc]. unfold AugDict.validate, validate_tree. rewrite Ha, Hc.
    destruct (validate_node _ _ c _ _) as [[[]|err] lab] eqn:E; cbn [fst]; (split; [intros Hv|intros Hs]); try done.
    - by apply (sums_validate aug _ _ c t _ _ Sc Wc ltac:(lia) Hcf) in E.
    - destruct (validate_sums aug _ _ c t Label.new Sc Wc ltac:(lia) (Nat.lt_succ_diag_r _) Hs) as [lab' E']. rewrite E in E'. done. }
  split; [rewrite Hiff; pose proof Hr as [_ [[_ Hm] Hroot]]; rewrite Hc in Hroot; destruct Hroot as [Wc Sc]; by apply sums_recorded|].
  intros Hw Hv weight Hcomb. apply (sums_totalled Z.add 0 weight d (Some t) Hcomb Hr Hw).
  intros c' t' Ec [= <-]. rewrite Hc in Ec. injection Ec as <-. by apply Hiff.
Qed.

(** After an edit of one key, the others answer as before. *)
Lemma acontents_edit st d d' ot ot' bits r :
  arepresents aug st d ot → arepresents aug st d' ot' → ad_key_bits d' = ad_key_bits d →
  (∀ k, dget ot' k = if decide (k = bits) then lookup_map stored r else dget ot k) → r ≠ PrunedAway →
  (∀ x, r = Found x → aug_ok x.1) →
  ∀ key', acontents d' key' =
    if (ad_key_bits d <=? 8 * len key') && bool_decide (bits_of key' (ad_key_bits d) = bits) then Ok r else acontents d key'.
Proof.
  intros R R' Hb Hg Hr Hok key'. destruct (Z.leb_spec (ad_key_bits d) (8 * len key')) as [Hk|Hk]; cbn [andb].
  - specialize (Hg (bits_of key' (ad_key_bits d))). case_bool_decide as E.
    + rewrite decide_True in Hg by done. destruct r as [x| |]; [| |done].
      * apply (acontents_found aug st d' ot' key' x R'); [lia|by apply Hok|by rewrite Hb].
      * apply (acontents_none aug st d' ot' key' R'); [lia|by rewrite Hb].
    + rewrite decide_False in Hg by done. apply (acontents_same aug st st d' d ot' ot key' key' R' R); [lia|done|by rewrite Hb].
  - rewrite (acontents_short aug st d' ot'), (acontents_short aug st d ot), Hb by (done || lia). done.
Qed.

(** C19: where summaries are written as bits alone, after [set] succeeds every key answers as
    before but the one stored, which answers with the summary and the value given for it; it
    fails only where the key runs into a pruned branch, the value does not fit behind its
    summary under a label of the whole key, or some fork above cannot be summarised, and
    then changes nothing. *)
Theorem aug_set_then_get st d ot key e v :
  arepresents aug st d ot → aug_ok e → storable v → ad_key_bits d <= 8 * len key →
  match AugDict.set key e (builder_of v) d with
  | (Ok tt, d') =>
      (∃ ot', arepresents aug st d' ot') ∧ ad_key_bits d' = ad_key_bits d ∧
      ∀ key', acontents d' key' =
        if (ad_key_bits d <=? 8 * len key') && bool_decide (bits_of key' (ad_key_bits d) = bits_of key (ad_key_bits d))
        then Ok (Found (e, v)) else acontents d key'
  | (Err _, d') =>
      d' = d ∧ (acontents d key = Ok PrunedAway ∨ ¬ spacious (ad_key_bits d) (aug_bits e ++ v.1, v.2) ∨
                ¬ oforkable (Aug aug) (ad_key_bits d) ot)
  end.
Proof.
  intros Hr He Hv Hk. destruct (aset_spec aug st d ot key e v Hr He Hv Hk) as [(d' & ot' & -> & Hb & Hr' & _ & _ & Hg)|[[err ->] Hwhy]].
  - split; [by eexists|]. split; [done|]. apply (acontents_edit st d d' ot ot' _ (Found (e, v)) Hr Hr' Hb Hg); [done|by intros x [= <-]].
  - split; [done|]. destruct Hwhy as [Hp|Hwhy]; [left|by right]. by apply (acontents_none aug st d ot key Hr).
Qed.

(** [remove] answers whether the key was there; after it every key answers as before but
    the one removed, which is absent. It fails only where a branch it must see is pruned
    away or a fork it must write again has no room or no summary, and then changes
    nothing. *)
Theorem aug_remove_then_get st d ot key :
  arepresents aug st d ot → ad_key_bits d <= 8 * len key →
  match AugDict.remove key d with
  | (Ok was, d') =>
      (∃ ot', arepresents aug st d' ot') ∧ ad_key_bits d' = ad_key_bits d ∧
      acontents d key ≠ Ok PrunedAway ∧ (was = true ↔ acontents d key ≠ Ok Absent) ∧
      ∀ key', acontents d' key' =
        if (ad_key_bits d <=? 8 * len key') && bool_decide (bits_of key' (ad_key_bits d) = bits_of key (ad_key_bits d))
        then Ok Absent else acontents d key'
  | (Err _, d') => d' = d ∧ ¬ (roomy (ad_key_bits d) ot ∧ oforkable (Aug aug) (ad_key_bits d) ot)
  end.
Proof.
  intros Hr Hk. destruct (acontents_none aug st d ot key Hr Hk) as [Ha Hp].
  destruct (aremove_spec aug st d ot key Hr Hk) as [(was & d' & ot' & -> & Hb & Hr' & _ & Hnp & Hwas & Hg)|[[err ->] Hwhy]]; [|done].
  split; [by eexists|]. split; [done|]. rewrite Ha, Hp. split; [done|]. split; [done|].
  by apply (acontents_edit st d d' ot ot' _ Absent Hr Hr' Hb Hg).
Qed.

(** C18: where summaries are written as bits alone, an augmented dictionary's cells depend on
    its contents alone: however two were built from empty ones, by whatever stores and
    removals, failed ones included, if they answer alike for every key, summaries and
    values, they are the same cells. *)
Theorem aug_history_independent n d es1 es2 :
  0 <= n → AugDict.new aug n = Ok d → Forall (aug_edit_ok aug) es1 → Forall (aug_edit_ok aug) es2 →
  (∀ key, acontents (fold_left apply_aug_edit es1 d) key = acontents (fold_left apply_aug_edit es2 d) key) →
  fold_left apply_aug_edit es1 d = fold_left apply_aug_edit es2 d.
Proof.
  intros Hn Hd H1 H2 Heq. destruct (arepresents_new aug true n d Hn Hd) as [Hr _].
  destruct (aug_edits_represent aug true d None es1 Hr H1) as (ot1 & R1 & W1 & B1).
  destruct (aug_edits_represent aug true d None es2 Hr H2) as (ot2 & R2 & W2 & B2).
  apply (arepresents_unique aug _ _ ot1 ot2 R1 R2); [by apply W1|by apply W2|congruence|auto].
Qed.

(** A tree of entries answers with the last given for each key. *)
Lemma acontents_last st n entries d t :
  arepresents aug st d (Some t) → ad_key_bits d = n → Forall (aug_item_ok aug n) entries →
  (∀ k, tget t k = lookup_map stored (last_of (keyed n entries) k)) →
  ∀ key, acontents d key = if 8 * len key <? n then Err (KeyLength (len key * 8) n)
                           else Ok (last_of (keyed n entries) (bits_of key n)).
Proof.
  intros Hr Hb Hok Hg key. destruct (Z.ltb_spec (8 * len key) n) as [Hk|Hk].
  { rewrite <- Hb in *. by apply (acontents_short aug st d (Some t)). }
  specialize (Hg (bits_of key n)). destruct (last_of _ _) as [x| |] eqn:E.
  - apply (acontents_found aug st d (Some t)); [done|lia| |by rewrite Hb].
    unfold last_of in E. destruct (last _) as [kv|] eqn:El; [|done]. injection E as <-. apply last_Some in El as [l El].
    assert (kv ∈ filter (λ kv, kv.1 = bits_of key n) (keyed n entries)) as [_ Hin]%list_elem_of_filter by (rewrite El, elem_of_app; right; by left).
    apply list_elem_of_fmap in Hin as (kv' & -> & Hin). rewrite Forall_forall in Hok. by apply (Hok kv').
  - apply (acontents_none aug st d (Some t)); [done|lia|by rewrite Hb].
  - unfold last_of in E. by destruct (last _).
Qed.

(** Building in bulk is storing one by one: what is built answers for every key with the
    summary and value given last for it, and wherever storing the items in the order given
    succeeds, building in bulk gives the same dictionary, cell for cell. *)
Theorem aug_bulk_is_sets n d entries :
  0 <= n → AugDict.new aug n = Ok d → Forall (aug_item_ok aug n) entries →
  (∀ d', AugDict.from_items aug n (aug_items entries) = Ok d' →
     ad_key_bits d' = n ∧
     ∀ key, acontents d' key = if 8 * len key <? n then Err (KeyLength (len key * 8) n)
                               else Ok (last_of (keyed n entries) (bits_of key n))) ∧
  (∀ d', st_for (aug_items entries) (λ '(key, extra, value), AugDict.set key extra value) d = (Ok tt, d') →
     AugDict.from_items aug n (aug_items entries) = Ok d').
Proof.
  intros Hn Hd Hok. destruct (arepresents_new aug true n d Hn Hd) as [Hr0 Hb0].
  assert (d = MkAugDict None n aug ∧ n <= MAX_BITS) as [-> Hm].
  { unfold AugDict.new, AugDict.from_root, check_key_bits in Hd. destruct (Z.ltb_spec MAX_BITS n); [done|]. injection Hd as <-. auto. }
  destruct (decide (entries = [])) as [->|Hne].
  { assert (AugDict.from_items aug n (aug_items []) = Ok (MkAugDict None n aug)) as ->.
    { unfold AugDict.from_items, build_all, AugDict.from_root, check_key_bits. by rewrite (proj2 (Z.ltb_ge _ _)) by lia. }
    split; intros d' [= <-]; [|done]. split; [done|]. intros key. destruct (Z.ltb_spec (8 * len key) n) as [Hk|Hk].
    - exact (acontents_short aug true _ None key Hr0 Hk).
    - exact (proj2 (proj1 (acontents_none aug true _ None key Hr0 Hk)) eq_refl). }
  destruct (build_all_laid (Aug aug) n entries) as (t & made & Hbuild & Wt & Gt & Mt & At); [lia|done|done|].
  assert (AugDict.from_items aug n (aug_items entries) = res_map (λ c, MkAugDict (Some c) n aug) made) as ->.
  { unfold AugDict.from_items. change (aug_items entries) with (summed_items (Aug aug) entries). rewrite Hbuild.
    destruct made; [|done]. cbn [res_map res_bind]. unfold AugDict.from_root, check_key_bits. by rewrite (proj2 (Z.ltb_ge _ _)) by lia. }
  split.
  - intros d' E. destruct made as [c|]; [|done]. injection E as <-. split; [done|]. destruct (Mt c eq_refl) as [Wc Sc].
    apply (acontents_last true n entries _ t); [|done..]. split; [done|]. split; [cbn; lia|done].
  - intros d' Hf. destruct (asets_contents aug true entries (MkAugDict None n aug) None d' Hr0 Hok Hf) as (ot & Hr & Hw & Hb & Hg).
    specialize (Hw I). cbn [ad_key_bits dget] in *. destruct d' as [root n' aug']. cbn in Hb. subst n'. destruct Hr as [Ha [_ Hr]]. cbn in Ha. subst aug'.
    cbn [ad_root ad_key_bits] in Hr. assert (∀ k, dget ot k = tget t k) as Heq.
    { intros k. rewrite Hg, Gt. by destruct (last_of _ k). }
    destruct root as [c|], ot as [t'|]; try done.
    + destruct Hr as [Wc Sc]. assert (t' = t) as -> by by apply tree_unique. by rewrite (At c).
    + exfalso. destruct (whole_found t Wt) as (k & v & Hk). rewrite <- Heq in Hk. done.
Qed.

Lemma last_seen good k :
  NoDup (seen_at <$> good).*1 →
  last_of (seen_at <$> good) k = Absent ∨
  ∃ item, item ∈ good ∧ item.1 = k ∧ last_of (seen_at <$> good) k = Found (aug_seen item.2).
Proof.
  intros Hd. destruct (last_of (seen_at <$> good) k) as [x| |] eqn:E; [right|by left|].
  - apply last_of_distinct in E; [|done]. apply list_elem_of_fmap in E as (item & [= -> ->] & Hin). by exists item.
  - unfold last_of in E. by destruct (last _).
Qed.

(** The items of the other side, whatever becomes of the merge. *)
Lemma other_items st n root ot2 items :
  roots (Aug aug) st root n ot2 → until_err (dentries ot2) = res_map (as_held aug) <$> items →
  ∀ item, Ok item ∈ items → len item.1 = n ∧ dget ot2 item.1 = Found (as_held aug item).2.
Proof.
  intros [_ Hr] He item Hin. assert (Ok (as_held aug item) ∈ dentries ot2) as Hd.
  { apply until_err_sub. rewrite He. apply list_elem_of_fmap. by exists (Ok item). }
  destruct root as [c|], ot2 as [t|]; try done; [|by apply elem_of_nil in Hd]. destruct Hr as [_ Hs%(shows_wf (Aug aug))].
  split; [destruct (entries_length t _ [] _ _ Hs Hd) as (k' & E & Hk); cbn in E; by rewrite E|].
  by apply (entries_tget [] t).
Qed.

(** C20: where summaries are written as bits alone, merging another dictionary in, if it
    succeeds, gives one that answers as the other does where the other has the key and as
    before elsewhere, and no key was in both; if it fails nothing has changed. It succeeds whenever the widths agree, nothing
    is pruned away, no key is in both, the values of the other fit, and summaries always
    combine and fit. *)
Theorem aug_combine_with st st' d other ot ot2 :
  arepresents aug st d ot → arepresents aug st' other ot2 →
  match AugDict.combine_with other d with
  | (Ok _, d') =>
      ad_key_bits other = ad_key_bits d ∧ ad_key_bits d' = ad_key_bits d ∧ owhole ot2 ∧
      (∃ ot', arepresents aug st d' ot' ∧ (owhole ot → owhole ot')) ∧
      ∀ key, ad_key_bits d <= 8 * len key →
        acontents d' key = match acontents other key with Ok Absent => acontents d key | found => found end ∧
        (acontents other key = Ok Absent ∨ acontents d key = Ok Absent)
  | (Err _, d') =>
      d' = d ∧ ¬ (ad_key_bits other = ad_key_bits d ∧ owhole ot ∧ owhole ot2 ∧ roomy (ad_key_bits d) ot2 ∧ obliging aug (ad_key_bits d) ∧
                  ∀ k, dget ot k = Absent ∨ dget ot2 k = Absent)
  end.
Proof.
  intros Hr Hr2. unfold AugDict.combine_with. destruct (Z.eqb_spec (ad_key_bits other) (ad_key_bits d)) as [Hb|Hb]; cbn [negb].
  2:{ split; [done|]. intros (? & _). done. }
  destruct (aitems_spec aug st' other ot2 Hr2) as (items & -> & He & Hg).
  pose proof (other_items st' _ _ ot2 items (proj2 Hr2) He) as Hlen. rewrite Hb in Hlen.
  destruct (additions_spec aug st d ot items Hr ltac:(intros item Hi; split; [by apply Hg|by apply Hlen]) [])
    as [(good & -> & Habs & ->)|([err ->] & item & Hin & Hwhy)].
  2:{ split; [done|]. intros (_ & _ & Hw2 & _ & _ & Hdis). destruct item as [item|e].
      - destruct (Hlen item Hin) as [_ Hf]. destruct (Hdis item.1) as [?|E]; [done|]. by rewrite Hf in E.
      - assert (Err e ∈ dentries ot2) as Hd by (apply until_err_sub; rewrite He; apply list_elem_of_fmap; by exists (Err e)).
        destruct ot2 as [t|]; [|by apply elem_of_nil in Hd]. by apply entries_pruned in Hd as [_ ?]. }
  cbn [res_bind]. rewrite app_nil_l. rewrite <- list_fmap_compose in He.
  assert (dentries ot2 = Ok <$> (as_held aug <$> good)) as He2 by (apply until_err_all; rewrite He, <- list_fmap_compose; done).
  assert (owhole ot2) as Hw2 by (destruct ot2 as [t|]; [by apply (entries_ok_whole t [] _ He2)|done]).
  destruct (walk_answers aug st' other ot2 good Hr2 He2) as (Hls & Hdis & Hans). rewrite Hb in Hls.
  assert (∀ item, item ∈ good → item_good aug item) as Hgood by (intros item Hi; apply Hg, list_elem_of_fmap; by exists item).
  assert (Forall (aug_item_ok aug (ad_key_bits d)) (handed_on <$> good)) as Hok.
  { apply Forall_fmap, Forall_forall. intros item Hi. destruct (Hgood item Hi) as [Ho Hew]. rewrite Forall_forall in Hls.
    split; [|split; [done|by destruct (entry_copied (ae_entry item.2) Hew) as (s & _ & _ & ?)]].
    cbn [handed_on fst]. rewrite <- (Hls item Hi), len_packed. pose proof (div_ceil_8 (len item.1) (len_nonneg _)). unfold div_ceil in *. zdiv. }
  destruct (st_for _ _ d) as [[[]|err] d'] eqn:Ef; cbn [res_bind].
  - destruct (asets_contents aug st _ d ot d' Hr Hok Ef) as (ot' & Hr' & Hw' & Hb' & Hg'). rewrite (keyed_handed_on _ _ Hls) in Hg'.
    do 3 (split; [done|]). split; [by exists ot'|]. intros key Hk. specialize (Hg' (bits_of key (ad_key_bits d))). specialize (Hans (bits_of key (ad_key_bits d))).
    change (Extra (Aug aug)) with (AugExtra (A:=A)) in Hg', Hans. pose proof (acontents_none aug st d ot key Hr Hk) as [Hnone _].
    destruct (last_seen good (bits_of key (ad_key_bits d)) Hdis) as [E|(item & Hi & Ek & E)]; rewrite E in Hg', Hans; cbn [lookup_map] in *.
    + assert (acontents other key = Ok Absent) as -> by (apply (acontents_none aug st' other ot2 key Hr2); rewrite Hb; done || lia).
      split; [|by left]. apply (acontents_same aug st st d' d ot' ot key key Hr' Hr); [lia|done|by rewrite Hb'].
    + destruct (Hgood item Hi) as [Ho _].
      assert (acontents other key = Ok (Found (aug_seen item.2))) as -> by (apply (acontents_found aug st' other ot2 key _ Hr2); rewrite ?Hb; done || lia).
      split; [apply (acontents_found aug st d' ot' key _ Hr'); rewrite ?Hb'; done || lia|]. right. apply Hnone. rewrite <- Ek.
      rewrite Forall_forall in Habs. by apply Habs.
  - split; [done|]. intros (_ & Hw & _ & Hroom & Hob & _).
    destruct (asets_succeed aug st (handed_on <$> good) d ot Hr Hw Hob Hok) as [d1 E]; [|by rewrite Ef in E].
    apply Forall_fmap, Forall_forall. intros item Hi. destruct (Hlen item) as [_ Hf]; [apply list_elem_of_fmap; by exists item|].
    specialize (Hroom item.1). by rewrite Hf in Hroom.
Qed.
End theorems.
