(* ===== verification/PfxDict.v ===== *)
(** Prefix-code dictionaries: core/src/cell/dict/prefix.rs. Keys are of any length up to
    the dictionary's, none the beginning of another; a node says after its label whether
    it is a leaf or a fork. *)

From stdpp Require Import base list list_numbers numbers strings.
From Stdlib Require Import ZArith Lia.
From S2P Require Import Prelude Errors Bits CellData CellHash CellModel CellSlice CellBuilder DictLabel Dict.

Local Open Scope Z_scope.

Record PfxMatch : Type := MkPfxMatch { pm_matched : Z; pm_entry : DictEntry }.

Record PfxDict : Type := MkPfxDict { pd_root : option Cell; pd_key_bits : Z }.

Inductive Removal : Type := NotFound | Gone | Rebuilt (cell : Cell).

Record PfxDictIter : Type := MkPfxIter { pi_stack : list Pending; pi_done : bool }.

Definition NO_KEY_BITS : CellError := Malformed "a prefix-code fork with no key bits left".

Definition pfx_key_of (key : list Z) (key_len max : Z) : result CellError (list bool) :=
  if max <? key_len then Err (Malformed "prefix key wider than the dictionary")
  else if len key <? div_ceil key_len 8 then Err (KeyLength (len key * 8) key_len)
  else Ok (key_bit key <$> seqZ 0 key_len).

Section pfx_dict.
Context `{Hasher}.

Definition leaf_cell (key : list bool) (remaining : Z) (value : Builder) : result CellError Cell :=
  built (run! store_label key remaining; run! Builder.store_bit false; Builder.store_builder value).

(** The fork the writing functions make: a label, the marker, both branches. *)
Definition fork_cell (label : list bool) (remaining : Z) (lhs rhs : Cell) : result CellError Cell :=
  built (run! store_label label remaining;
         run! Builder.store_bit true;
         run! Builder.store_ref lhs;
         Builder.store_ref rhs).

Definition rebuild_fork (label : list bool) (remaining : Z) (node : Cell) (branch : Z) (child : Cell) :
    result CellError Cell :=
  let? sibling := ok_or (Cell.reference node (1 - branch)) NO_BRANCH in
  let '(lhs, rhs) := if branch =? 0 then (child, sibling) else (sibling, child) in
  fork_cell label remaining lhs rhs.

Definition pfx_split (node : Cell) (remaining : Z) (label : list bool) (at' : Z) (key : list bool) (value : Builder) :
    result CellError Cell :=
  let child_width := remaining - wrap 16 at' - 1 in
  let? kept := built (
    run! store_label (rest label (at' + 1)) child_width;
    λ kept,
      match skip_label remaining (Slice.new node) with
      | (Err e, _) => (Err e, kept)
      | (Ok _, slice) => Builder.store_slice slice kept
      end) in
  let? fresh := leaf_cell (rest key (at' + 1)) child_width value in
  let '(lhs, rhs) := if default false (get label at') then (fresh, kept) else (kept, fresh) in
  fork_cell (default [] (get_range label 0 at')) remaining lhs rhs.

(** A level down spends a key bit, so a round per key bit and one more suffice. *)
Fixpoint insert (fuel : nat) (node : Cell) (remaining : Z) (key : list bool) (value : Builder) : result CellError Cell :=
  match fuel with
  | O => Err (Malformed "out of fuel")
  | S fuel =>
      if Cell.is_exotic node then Err Pruned
      else
        match read_label_into remaining (Slice.new node, []) with
        | (Err e, _) => Err e
        | (Ok _, (slice, label)) =>
            match diverges label key with
            | Some at' => pfx_split node remaining label at' key value
            | None =>
                if len key <? len label then Err (Malformed "a prefix-code key is a prefix of a stored key")
                else
                  let? is_fork := fst (Slice.load_bit slice) in
                  let below := remaining - wrap 16 (len label) in
                  let tail := rest key (len label) in
                  if negb is_fork then
                    if bool_decide (tail = []) then leaf_cell label remaining value
                    else Err (Malformed "a stored prefix-code key is a prefix of this key")
                  else if bool_decide (tail = []) then Err (Malformed "a prefix-code key is a prefix of a stored key")
                  else if below =? 0 then Err NO_KEY_BITS
                  else
                    let branch := b2z (default false (head tail)) in
                    let? child := ok_or (Cell.reference node branch) NO_BRANCH in
                    let? new_child := insert fuel child (below - 1) (rest tail 1) value in
                    rebuild_fork label remaining node branch new_child
            end
        end
  end.

Definition pfx_collapse (node : Cell) (remaining : Z) (label : list bool) (survivor : Z) : result CellError Cell :=
  let? sibling := ok_or (Cell.reference node survivor) NO_BRANCH in
  if Cell.is_exotic sibling then Err Pruned
  else
    let below := remaining - wrap 16 (len label) in
    if below =? 0 then Err NO_KEY_BITS
    else
      match read_label_into (below - 1) (Slice.new sibling, Label.new) with
      | (Err e, _) => Err e
      | (Ok _, (slice, sibling_label)) =>
          let merged_label := label ++ [survivor =? 1] ++ run_bits sibling_label in
          built (run! store_label merged_label remaining; Builder.store_slice slice)
      end.

Fixpoint remove_from (fuel : nat) (node : Cell) (remaining : Z) (key : list bool) : result CellError Removal :=
  match fuel with
  | O => Err (Malformed "out of fuel")
  | S fuel =>
      if Cell.is_exotic node then Err Pruned
      else
        match read_label_into remaining (Slice.new node, []) with
        | (Err e, _) => Err e
        | (Ok _, (slice, label)) =>
            if bool_decide (is_Some (diverges label key)) || (len key <? len label) then Ok NotFound
            else
              let? is_fork := fst (Slice.load_bit slice) in
              let below := remaining - wrap 16 (len label) in
              let tail := rest key (len label) in
              if negb is_fork then if bool_decide (tail = []) then Ok Gone else Ok NotFound
              else if below =? 0 then Err NO_KEY_BITS
              else if bool_decide (tail = []) then Ok NotFound
              else
                let branch := b2z (default false (head tail)) in
                let? child := ok_or (Cell.reference node branch) NO_BRANCH in
                let? removal := remove_from fuel child (below - 1) (rest tail 1) in
                match removal with
                | NotFound => Ok NotFound
                | Gone => let? cell := pfx_collapse node remaining label (1 - branch) in Ok (Rebuilt cell)
                | Rebuilt new_child => let? cell := rebuild_fork label remaining node branch new_child in Ok (Rebuilt cell)
                end
        end
  end.

(** The check passes one label down and back; what a node reads refills it. *)
Fixpoint validate_node (fuel : nat) (node : Cell) (remaining : Z) (label : Label) : result CellError Label :=
  match fuel with
  | O => Err (Malformed "out of fuel")
  | S fuel =>
      if Cell.is_exotic node then Ok label
      else
        match read_label_into remaining (Slice.new node, label) with
        | (Err e, _) => Err e
        | (Ok _, (slice, label)) =>
            match Slice.load_bit slice with
            | (Err e, _) => Err e
            | (Ok is_fork, slice) =>
                if negb is_fork then Ok label
                else
                  let below := remaining - Label.width label in
                  if below =? 0 then Err NO_KEY_BITS
                  else if negb (Slice.remaining_bits slice =? 0) || negb (len (Cell.refs node) =? 2)
                  then Err (Malformed "a malformed prefix-code fork node")
                  else
                    let? lhs := ok_or (Cell.reference node 0) NO_BRANCH in
                    let? rhs := ok_or (Cell.reference node 1) NO_BRANCH in
                    let? label := validate_node fuel lhs (below - 1) label in
                    validate_node fuel rhs (below - 1) label
            end
        end
  end.

Fixpoint get_loop (fuel : nat) (bits : list bool) (node : Cell) (remaining consumed : Z) (label : Label) :
    result CellError (Lookup DictEntry) :=
  match fuel with
  | O => Err (Malformed "out of fuel")
  | S fuel =>
      if Cell.is_exotic node then Ok PrunedAway
      else
        match read_label_into remaining (Slice.new node, label) with
        | (Err e, _) => Err e
        | (Ok _, (slice, label)) =>
            let ahead := rest bits consumed in
            if bool_decide (is_Some (diverges label ahead)) || (len ahead <? l_len label) then Ok Absent
            else
              let consumed := consumed + l_len label in
              match Slice.load_bit slice with
              | (Err e, _) => Err e
              | (Ok is_fork, slice) =>
                  let below := remaining - Label.width label in
                  if negb is_fork then
                    if consumed =? len bits
                    then Ok (Found (MkEntry node (Cell.bit_len node - Slice.remaining_bits slice)))
                    else Ok Absent
                  else if below =? 0 then Err NO_KEY_BITS
                  else if consumed =? len bits then Ok Absent
                  else
                    let branch := b2z (default false (head (rest bits consumed))) in
                    let? child := ok_or (Cell.reference node branch) NO_BRANCH in
                    get_loop fuel bits child (below - 1) (consumed + 1) label
              end
        end
  end.

Fixpoint prefix_loop (fuel : nat) (bits : list bool) (node : Cell) (remaining consumed : Z) (label : Label) :
    result CellError (option PfxMatch) :=
  match fuel with
  | O => Err (Malformed "out of fuel")
  | S fuel =>
      if Cell.is_exotic node then Err Pruned
      else
        match read_label_into remaining (Slice.new node, label) with
        | (Err e, _) => Err e
        | (Ok _, (slice, label)) =>
            let ahead := rest bits consumed in
            if bool_decide (is_Some (diverges label ahead)) || (len ahead <? l_len label) then Ok None
            else
              let consumed := consumed + l_len label in
              match Slice.load_bit slice with
              | (Err e, _) => Err e
              | (Ok is_fork, slice) =>
                  let below := remaining - Label.width label in
                  if negb is_fork then
                    let bit_offset := Cell.bit_len node - Slice.remaining_bits slice in
                    Ok (Some (MkPfxMatch (wrap 16 consumed) (MkEntry node bit_offset)))
                  else if below =? 0 then Err NO_KEY_BITS
                  else if consumed =? len bits then Ok None
                  else
                    let branch := b2z (default false (head (rest bits consumed))) in
                    let? child := ok_or (Cell.reference node branch) NO_BRANCH in
                    prefix_loop fuel bits child (below - 1) (consumed + 1) label
              end
        end
  end.

(** The two branches of a fork, the right one first and so the last to come off. *)
Definition push_branches (node : Cell) (key : Label) (below : Z) : stm (list Pending) CellError unit :=
  st_for [1; 0] (λ branch, λ stack,
    match ok_or (Cell.reference node branch) NO_BRANCH with
    | Err e => (Err e, stack)
    | Ok child =>
        match Label.push (branch =? 1) key with
        | (Err e, _) => (Err e, stack)
        | (Ok _, key) => (Ok tt, (child, key, below - 1) :: stack)
        end
    end).

(** A round pops a node and stops at a leaf, or goes on with the branches it pushed: a
    round per key bit below the first node and one more suffice. *)
Fixpoint step_loop (fuel : nat) : stm (list Pending) CellError (option (list Z * Z * DictEntry)) := λ stack,
  match fuel with
  | O => (Err (Malformed "out of fuel"), stack)
  | S fuel =>
      match stack with
      | [] => (Ok None, [])
      | (node, prefix, remaining) :: stack =>
          if Cell.is_exotic node then (Err Pruned, stack)
          else
            match read_label_into remaining (Slice.new node, Label.new) with
            | (Err e, _) => (Err e, stack)
            | (Ok _, (slice, label)) =>
                match Slice.load_bit slice with
                | (Err e, _) => (Err e, stack)
                | (Ok is_fork, slice) =>
                    match Label.extend label prefix with
                    | (Err e, _) => (Err e, stack)
                    | (Ok _, key) =>
                        if negb is_fork then
                          let bit_offset := Cell.bit_len node - Slice.remaining_bits slice in
                          (Ok (Some (pack key, Label.width key, MkEntry node bit_offset)), stack)
                        else
                          let below := remaining - Label.width label in
                          if below =? 0 then (Err NO_KEY_BITS, stack)
                          else (run! push_branches node key below; step_loop fuel) stack
                    end
                end
            end
      end
  end.

Definition pfx_step : stm (list Pending) CellError (option (list Z * Z * DictEntry)) := λ stack,
  match stack with
  | [] => (Ok None, [])
  | (_, _, remaining) :: _ => step_loop (S (Z.to_nat remaining)) stack
  end.
End pfx_dict.

Module PfxDict.
Section pfx_dict.
Context `{Hasher}.

Definition from_root (root : option Cell) (key_bits : Z) : result CellError PfxDict :=
  let? _ := check_key_bits key_bits in
  Ok (MkPfxDict root key_bits).

Definition new (key_bits : Z) : result CellError PfxDict := from_root None key_bits.

Definition root (self : PfxDict) : option Cell := pd_root self.
Definition key_bits (self : PfxDict) : Z := pd_key_bits self.

Definition is_empty (self : PfxDict) : bool :=
  match pd_root self with None => true | Some _ => false end.

Definition get (self : PfxDict) (key : list Z) (key_len : Z) : result CellError (Lookup DictEntry) :=
  let? bits := pfx_key_of key key_len (pd_key_bits self) in
  match pd_root self with
  | None => Ok Absent
  | Some root => get_loop (S (Z.to_nat (pd_key_bits self))) bits root (pd_key_bits self) 0 Label.new
  end.

Definition lookup_prefix (self : PfxDict) (key : list Z) (key_len : Z) : result CellError (option PfxMatch) :=
  let? bits := pfx_key_of key key_len (pd_key_bits self) in
  match pd_root self with
  | None => Ok None
  | Some root => prefix_loop (S (Z.to_nat (pd_key_bits self))) bits root (pd_key_bits self) 0 Label.new
  end.

Definition set (key : list Z) (key_len : Z) (value : Builder) : stm PfxDict CellError unit := λ self,
  match (let? bits := pfx_key_of key key_len (pd_key_bits self) in
         match pd_root self with
         | None => leaf_cell bits (pd_key_bits self) value
         | Some root => insert (S (Z.to_nat (pd_key_bits self))) root (pd_key_bits self) bits value
         end) with
  | Ok new_root => (Ok tt, MkPfxDict (Some new_root) (pd_key_bits self))
  | Err e => (Err e, self)
  end.

Definition remove (key : list Z) (key_len : Z) : stm PfxDict CellError bool := λ self,
  match pfx_key_of key key_len (pd_key_bits self) with
  | Err e => (Err e, self)
  | Ok bits =>
      match pd_root self with
      | None => (Ok false, self)
      | Some root =>
          match remove_from (S (Z.to_nat (pd_key_bits self))) root (pd_key_bits self) bits with
          | Err e => (Err e, self)
          | Ok NotFound => (Ok false, self)
          | Ok Gone => (Ok true, MkPfxDict None (pd_key_bits self))
          | Ok (Rebuilt cell) => (Ok true, MkPfxDict (Some cell) (pd_key_bits self))
          end
      end
  end.

Definition validate (self : PfxDict) : result CellError unit :=
  match pd_root self with
  | None => Ok tt
  | Some root => res_map (λ _, tt) (validate_node (S (Z.to_nat (pd_key_bits self))) root (pd_key_bits self) Label.new)
  end.

Definition iter (self : PfxDict) : PfxDictIter :=
  match pd_root self with
  | None => MkPfxIter [] false
  | Some root => MkPfxIter [(root, Label.new, pd_key_bits self)] false
  end.

Definition next (self : PfxDictIter) : option (result CellError (list Z * Z * DictEntry)) * PfxDictIter :=
  if pi_done self then (None, self)
  else
    match pfx_step (pi_stack self) with
    | (Ok (Some entry), stack) => (Some (Ok entry), MkPfxIter stack false)
    | (Ok None, stack) => (None, MkPfxIter stack true)
    | (Err e, stack) => (Some (Err e), MkPfxIter stack true)
    end.

Fixpoint collect (fuel : nat) (iter : PfxDictIter) : list (result CellError (list Z * Z * DictEntry)) :=
  match fuel with
  | O => []
  | S fuel =>
      match next iter with
      | (Some item, iter) => item :: collect fuel iter
      | (None, _) => []
      end
  end.
End pfx_dict.
End PfxDict.
