(* ===== verification/PfxCells.v ===== *)
(** Prefix-code dictionaries: what they mean, their cells, and the walks over them. The
    trees are those of DictTree.v with labels of any length; a key stands in another's way
    when one begins the other. *)

From stdpp Require Import base list list_numbers numbers strings sorting.
From Stdlib Require Import ZArith Lia.
From S2P Require Import Prelude Errors Bits CellData CellHash CellModel CellSlice CellBuilder BuilderOps DictLabel Dict DictTree DictCells DictWalk PfxDict.

Local Open Scope Z_scope.

#[local] Arguments uint_bits : simpl never.

(** * Trees *)

(** The labels on the way to a leaf spend at most [n] bits. *)
Fixpoint pfx_wf (n : Z) (t : tree) : Prop :=
  match t with
  | TLeaf l _ => len l <= n
  | TFork l lhs rhs => len l < n ∧ pfx_wf (n - len l - 1) lhs ∧ pfx_wf (n - len l - 1) rhs
  | THole _ => 0 <= n
  end.

(** A stored key is the beginning of this one, or begins with it. *)
Fixpoint blocked (t : tree) (key : list bool) : Prop :=
  match t with
  | TLeaf l _ => key ≠ l ∧ (l `prefix_of` key ∨ key `prefix_of` l)
  | TFork l lhs rhs =>
      match strip l key with
      | Some (b :: key) => blocked (if b then rhs else lhs) key
      | _ => key `prefix_of` l
      end
  | THole _ => False
  end.

(** The entry whose key this one begins with. *)
Fixpoint tbegins (t : tree) (key : list bool) : Lookup (list bool * value) :=
  match t with
  | TLeaf l v => match strip l key with Some _ => Found (l, v) | None => Absent end
  | TFork l lhs rhs =>
      match strip l key with
      | Some (b :: key) => lookup_map (λ '(k, v), (l ++ b :: k, v)) (tbegins (if b then rhs else lhs) key)
      | _ => Absent
      end
  | THole _ => PrunedAway
  end.

(** ** A key along a label, inside it or off it *)

Lemma parting (key l : list bool) :
  (∃ k, key = l ++ k) ∨ (∃ x r, l = key ++ x :: r) ∨
  (∃ p x l' k', l = p ++ x :: l' ∧ key = p ++ negb x :: k').
Proof.
  revert key. induction l as [|x l IH]; intros key; [left; by exists key|].
  destruct key as [|y key]; [right; left; by exists x, l|].
  destruct (decide (y = x)) as [->|Hne].
  - destruct (IH key) as [[k ->]|[(z & r & ->)|(p & z & l' & k' & -> & ->)]]; [left; by exists k| |].
    + right. left. by exists z, r.
    + right. right. by exists (x :: p), z, l', k'.
  - right. right. exists [], x, l, key. split; [done|]. by destruct x, y.
Qed.

Lemma strip_inside key x (r : list bool) : strip (key ++ x :: r) key = None.
Proof. induction key as [|y key IH]; [done|]. simpl. by rewrite Bool.eqb_reflx. Qed.

Lemma strip_off (p : list bool) x l' k' : strip (p ++ x :: l') (p ++ negb x :: k') = None.
Proof. rewrite strip_prefix_app, strip_app. by destruct x. Qed.

Lemma off_no_prefix (p : list bool) x l' k' :
  ¬ (p ++ x :: l') `prefix_of` (p ++ negb x :: k') ∧ ¬ (p ++ negb x :: k') `prefix_of` (p ++ x :: l').
Proof. split; intros [r E]; rewrite <- app_assoc in E; apply app_inv_head in E; injection E as E _; by destruct x. Qed.

Lemma tget_inside t key x r : (∀ h, t ≠ THole h) → label_of t = key ++ x :: r → tget t key = Absent.
Proof.
  destruct t as [l v|l a b|h]; intros Hh; cbn [label_of]; [intros ->..|by destruct (Hh h)]; cbn [tget]; by rewrite strip_inside.
Qed.

Lemma tget_off t p x l' k' : (∀ h, t ≠ THole h) → label_of t = p ++ x :: l' → tget t (p ++ negb x :: k') = Absent.
Proof.
  destruct t as [l v|l a b|h]; intros Hh; cbn [label_of]; [intros ->..|by destruct (Hh h)]; cbn [tget]; by rewrite strip_off.
Qed.

Lemma blocked_inside t key x r : (∀ h, t ≠ THole h) → label_of t = key ++ x :: r → blocked t key.
Proof.
  destruct t as [l v|l a b|h]; intros Hh; cbn [label_of]; [intros ->..|by destruct (Hh h)]; cbn [blocked].
  - split; [|right; by eexists]. intros E. apply (f_equal length) in E. rewrite length_app in E. simpl in E. lia.
  - rewrite strip_inside. by eexists.
Qed.

Lemma blocked_off t p x l' k' : (∀ h, t ≠ THole h) → label_of t = p ++ x :: l' → ¬ blocked t (p ++ negb x :: k').
Proof.
  destruct t as [l v|l a b|h]; intros Hh; cbn [label_of]; [intros ->..|by destruct (Hh h)]; cbn [blocked];
    destruct (off_no_prefix p x l' k') as [H1 H2]; [intros [_ [?|?]]; done|]. by rewrite strip_off.
Qed.

Lemma blocked_fork l a b (x : bool) k : blocked (TFork l a b) (l ++ x :: k) ↔ blocked (if x then b else a) k.
Proof. cbn [blocked]. by rewrite strip_app. Qed.

(** ** What the definitions say of the keys stored *)

Lemma tbegins_spec t key :
  match tbegins t key with
  | Found (k, v) => tget t k = Found v ∧ k `prefix_of` key
  | Absent => ∀ k v, tget t k = Found v → ¬ k `prefix_of` key
  | PrunedAway => ¬ whole t
  end.
Proof.
  revert key. induction t as [l v|l a IHa b IHb|h]; intros key; [| |by intros []]; cbn [tbegins].
  - destruct (strip l key) as [r|] eqn:E.
    + apply strip_Some in E as ->. split; [cbn [tget]; by rewrite strip_self|by exists r].
    + intros k v'. rewrite tget_leaf. case_decide as Hk; [|done]. intros _ [r ->]. subst k. by rewrite strip_app in E.
  - destruct (strip l key) as [[|x k]|] eqn:E.
    + apply strip_Some in E as ->. rewrite app_nil_r. intros k v Hk [r ->]. cbn [tget] in Hk.
      destruct (strip (k ++ r) k) as [[|y k']|] eqn:E; try done. apply strip_Some in E. apply (f_equal length) in E.
      rewrite !length_app in E. simpl in E. lia.
    + apply strip_Some in E as ->.
      assert (match tbegins (if x then b else a) k with
        | Found (k', v) => tget (if x then b else a) k' = Found v ∧ k' `prefix_of` k
        | Absent => ∀ k' v, tget (if x then b else a) k' = Found v → ¬ k' `prefix_of` k
        | PrunedAway => ¬ whole (if x then b else a) end) as IH by (destruct x; [apply IHb|apply IHa]).
      destruct (tbegins _ k) as [[k' v]| |]; cbn [lookup_map].
      * rewrite tget_fork. destruct IH as [H1 [r ->]]. split; [done|]. exists r. by rewrite <- app_assoc.
      * intros k' v Hk' [r Hr]. cbn [tget] in Hk'. destruct (strip l k') as [[|y k2]|] eqn:E; try done. apply strip_Some in E as ->.
        rewrite <- app_assoc in Hr. apply app_inv_head in Hr. injection Hr as <- ->. apply (IH k2 v); [done|by exists r].
      * cbn [whole]. destruct x; tauto.
    + intros k v Hk [r ->]. cbn [tget] in Hk. destruct (strip l k) as [[|y k']|] eqn:E'; try done. apply strip_Some in E' as ->.
      rewrite <- app_assoc, strip_app in E. done.
Qed.

(** No stored key begins another. *)
Lemma prefix_free t k1 v1 k2 v2 : tget t k1 = Found v1 → tget t k2 = Found v2 → k1 `prefix_of` k2 → k1 = k2.
Proof.
  revert k1 k2. induction t as [l v|l a IHa b IHb|h]; intros k1 k2; [| |done].
  - rewrite !tget_leaf. by repeat case_decide; subst.
  - cbn [tget]. destruct (strip l k1) as [[|x k1']|] eqn:E1; try done. destruct (strip l k2) as [[|y k2']|] eqn:E2; try done.
    apply strip_Some in E1 as ->. apply strip_Some in E2 as ->. intros H1 H2 [r Hr]. rewrite <- app_assoc in Hr.
    apply app_inv_head in Hr. injection Hr as <- ->. do 2 f_equal. destruct y; [eapply IHb|eapply IHa]; try done; by exists r.
Qed.

Lemma blocked_spec t key : whole t →
  blocked t key ↔ ∃ k v, tget t k = Found v ∧ k ≠ key ∧ (k `prefix_of` key ∨ key `prefix_of` k).
Proof.
  revert key. induction t as [l v|l a IHa b IHb|h]; intros key; [| |done]; cbn [blocked whole].
  - intros _. split.
    + intros [Hne Hp]. exists l, v. rewrite tget_leaf, decide_True by done. split; [done|]. split; [congruence|]. tauto.
    + intros (k & v' & Hk & Hne & Hp). rewrite tget_leaf in Hk. case_decide as Ek; [|done]. subst k. split; [congruence|]. tauto.
  - intros [Wa Wb]. destruct (strip l key) as [[|x k]|] eqn:E.
    + apply strip_Some in E as ->. rewrite app_nil_r. split; [|done]. intros _. destruct (whole_found a Wa) as (k & v & Hk).
      exists (l ++ false :: k), v. rewrite tget_fork. split; [done|]. split; [|right; by eexists].
      intros Ek. apply (f_equal length) in Ek. rewrite length_app in Ek. simpl in Ek. lia.
    + apply strip_Some in E as ->. transitivity (∃ k' v, tget (if x then b else a) k' = Found v ∧ k' ≠ k ∧ (k' `prefix_of` k ∨ k `prefix_of` k')).
      { destruct x; [by apply IHb|by apply IHa]. }
      split.
      * intros (k' & v & Hk & Hne & Hp). exists (l ++ x :: k'), v. rewrite tget_fork. split; [done|]. split; [by intros [= ?]%app_inv_head|].
        destruct Hp as [[r ->]|[r ->]]; [left|right]; exists r; by rewrite <- app_assoc.
      * intros (k' & v & Hk & Hne & Hp). cbn [tget] in Hk. destruct (strip l k') as [[|y k2]|] eqn:E; try done. apply strip_Some in E as ->.
        destruct Hp as [[r Hr]|[r Hr]]; rewrite <- app_assoc in Hr; apply app_inv_head in Hr; injection Hr as -> Hr;
          exists k2, v; (split; [done|]); (split; [by intros ->|]); [left|right]; by exists r.
    + split.
      * intros [r ->]. destruct (whole_found a Wa) as (k & v & Hk). exists ((key ++ r) ++ false :: k), v. rewrite tget_fork.
        split; [done|]. split; [|right; exists (r ++ false :: k); by rewrite <- app_assoc].
        intros Ek. apply (f_equal length) in Ek. rewrite !length_app in Ek. simpl in Ek. lia.
      * intros (k & v & Hk & Hne & Hp). cbn [tget] in Hk. destruct (strip l k) as [[|y k2]|] eqn:E2; try done. apply strip_Some in E2 as ->.
        destruct Hp as [[r ->]|Hp]; [rewrite <- app_assoc, strip_app in E; done|].
        destruct (parting key l) as [[k ->]|[(x & r & ->)|(p & x & l' & k' & -> & ->)]]; [by rewrite strip_app in E|by eexists|].
        exfalso. destruct Hp as [r Hr]. rewrite <- !app_assoc in Hr. apply app_inv_head in Hr. injection Hr as Hr _. by destruct x.
Qed.

(** Every stored key fits the width. *)
Lemma tget_width n t key v : pfx_wf n t → tget t key = Found v → len key <= n.
Proof.
  revert n key. induction t as [l v'|l a IHa b IHb|c]; intros n key; [| |done].
  - rewrite tget_leaf. cbn [pfx_wf]. intros Hl. by case_decide; subst.
  - cbn [pfx_wf tget]. intros (Hl & Ha & Hb) H. destruct (strip l key) as [[|x k]|] eqn:E; try done.
    apply strip_Some in E as ->. rewrite len_app, len_cons. destruct x; [apply (IHb _ _ Hb) in H|apply (IHa _ _ Ha) in H]; lia.
Qed.

(** * Cells *)

(** ** The spellings of a label *)

(** Any bits a reader takes for the label [l] with [n] key bits left. *)
Definition label_head (n : Z) (l h : list bool) : Prop :=
  ∃ f m b, 0 <= m <= n ∧ spells n f m b l ∧ h = run_head n f m b ++ match f with FSame => [] | _ => l end.

Lemma label_head_form n f l : form_ok f l → len l <= n → label_head n l (form_bits n f l).
Proof.
  intros Hf Hl. pose proof (len_nonneg l). exists f, (len l), (nth_bit l 0). split; [lia|]. rewrite form_bits_head. split; [|done].
  destruct f; [done|done|by apply all_same_replicate].
Qed.

Lemma label_head_spec n l h :
  label_head n l h → len l <= n ∧ ∃ f, form_ok f l ∧ len h = len (form_bits n f l).
Proof.
  intros (f & m & b & Hm & Hsp & ->). destruct (spells_form n f m b l ltac:(lia) Hsp) as (Hf & _ & Hh & <-).
  split; [lia|]. by exists f.
Qed.

Section reading.
Context {S : Type} `{LawfulSink S}.

Lemma read_head n l h s (into : S) :
  0 <= n <= MAX_BITS → label_head n l h → ahead s h → 
  ∃ into', read_label_into n (s, into) = (Ok tt, (step_bits (len h) s, into')) ∧
    sink_ok into' ∧ sink_bits into' = l ∧ skip_label n s = (Ok tt, step_bits (len h) s).
Proof.
  intros Hn (f & m & b & Hm & Hsp & ->) Ha. destruct (read_label_at n f m b l s into Hn Hm Hsp Ha) as (i & Hi & Hok & Hb).
  exists i. do 3 (split; [done|]). pose proof Hi as Hi'.
  apply read_label_inv in Hi as (? & ? & ? & ? & ? & ? & ? & ? & ? & Hskip); [exact Hskip|done|by destruct Ha].
Qed.

(** A label that was read was there to be read, by any reader. *)
Lemma read_head_inv n s (into : S) s' into' :
  0 <= n <= MAX_BITS → slice_wf s → read_label_into n (s, into) = (Ok tt, (s', into')) →
  ∃ h, label_head n (sink_bits into') h ∧ ahead s h ∧ s' = step_bits (len h) s ∧ sink_ok into'.
Proof.
  intros Hn Hwf E. pose proof (read_label_head n s into s' into' Hn Hwf E) as (f & m & b & Hm & Hsp & Ha & -> & Hok & _).
  eexists. split; [by exists f, m, b|]. done.
Qed.
End reading.

Section pfx_cells.
Context `{Hasher}.

(** A node read: its label, its marker, and what follows. *)
Lemma read_pfx_node {S} `{LawfulSink S} n c l h b pb (into : S) :
  cell_wf c → 0 <= n <= MAX_BITS → label_head n l h → Cell.bits c = h ++ b :: pb →
  ∃ into', read_label_into n (Slice.new c, into) = (Ok tt, (step_bits (len h) (Slice.new c), into')) ∧
    sink_ok into' ∧ sink_bits into' = l ∧ skip_label n (Slice.new c) = (Ok tt, step_bits (len h) (Slice.new c)) ∧
    Slice.load_bit (step_bits (len h) (Slice.new c)) = (Ok b, step_bits (len h + 1) (Slice.new c)) ∧
    entry_value (MkEntry c (Cell.bit_len c - Slice.remaining_bits (step_bits (len h + 1) (Slice.new c)))) = (pb, Cell.refs c) ∧
    Slice.remaining_bits (step_bits (len h + 1) (Slice.new c)) = len pb.
Proof.
  intros Hwf Hn Hh Hb. destruct (read_head n l h (Slice.new c) into Hn Hh) as (i & Hi & Hok & Hl & Hskip); [by eapply node_ahead|].
  exists i. do 4 (split; [done|]). destruct (node_rest c h (b :: pb) Hwf Hb) as (Ws & Hsb & _ & _ & _).
  split; [rewrite (load_bit_ok _ b); [by rewrite step_bits_step|]; split; [done|by exists pb]|].
  assert (Cell.bits c = (h ++ [b]) ++ pb) as Hb' by by rewrite <- app_assoc.
  assert (len (h ++ [b]) = len h + 1) as E by by rewrite len_app.
  pose proof (entry_value_node c _ pb Hwf Hb') as Hv. destruct (node_rest c _ pb Hwf Hb') as (_ & _ & _ & Hrem & _).
  by rewrite E in *.
Qed.

(** ** The nodes the dictionary writes *)

Lemma appends_bit b k pb pr : appends k pb pr → appends (run! Builder.store_bit b; k) (b :: pb) pr.
Proof.
  intros Hk bs Hbs. pose proof (writes_bit b bs RNone) as Hw. rewrite len_cons. pose proof (len_nonneg pb).
  destruct (decide (len bs + 1 <= MAX_BITS)) as [Hl|Hl].
  - erewrite st_bind_ok by (apply (writes_ok _ [b] bs RNone (writes_bit b)); rewrite ?len_one; lia).
    specialize (Hk (bs ++ [b])). rewrite len_app, len_one in Hk. specialize (Hk ltac:(lia)).
    replace (len bs + (1 + len pb)) with (len bs + 1 + len pb) by lia.
    revert Hk. case_bool_decide; [intros ->; by rewrite <- app_assoc|done].
  - rewrite bool_decide_false by lia. specialize (Hw Hbs). rewrite (proj2 (Z.ltb_lt _ _)) in Hw by (rewrite len_one; lia).
    unfold st_bind. by destruct (Builder.store_bit b (holding bs RNone)) as [[]].
Qed.

Lemma leaf_cell_spec key vb vr n :
  0 <= n <= MAX_BITS → len key <= n → len vr <= MAX_REFS →
  if bool_decide (fits n key (false :: vb) vr)
  then leaf_cell key n (holding vb (refs_app RNone vr)) = made n key (false :: vb) vr
  else is_ok (leaf_cell key n (holding vb (refs_app RNone vr))) = false.
Proof.
  intros Hn Hk Hr. assert (LawfulRun key) as Hl by (apply bools_lawful; unfold U16_MAX, MAX_BITS in *; lia).
  pose proof (built_node key n _ (false :: vb) vr Hl Hn Hk (appends_bit false _ vb vr (appends_builder vb vr Hr))) as Hb.
  rewrite bools_run_bits in Hb. exact Hb.
Qed.

Lemma fork_cell_spec label n a b :
  0 <= n <= MAX_BITS → len label <= n → fits n label [true] [a; b] →
  fork_cell label n a b = made n label [true] [a; b].
Proof.
  intros Hn Hl Hf. assert (LawfulRun label) as Hr by (apply bools_lawful; unfold U16_MAX, MAX_BITS in *; lia).
  pose proof (built_node label n _ [true] [a; b] Hr Hn Hl (appends_bit true _ [] [a; b] (appends_branches a b))) as Hb.
  rewrite bools_run_bits in Hb. by rewrite bool_decide_true in Hb.
Qed.

(** ** Cells that spell a tree *)

(** The bits a node carries past its label: the marker, and a leaf's value. *)
Definition pfx_payload (t : tree) : list bool :=
  match t with TLeaf _ v => false :: v.1 | TFork _ _ _ => [true] | THole _ => [] end.

Inductive pfx_shows (strict : bool) : Z → Cell → tree → Prop :=
| pfx_hole n c : 0 <= n → Cell.is_exotic c = true → pfx_shows strict n c (THole c)
| pfx_leaf n c l h v :
    Cell.is_exotic c = false → label_head n l h → Cell.bits c = h ++ false :: v.1 → Cell.refs c = v.2 →
    (strict = true → made n l (false :: v.1) v.2 = Ok c) →
    pfx_shows strict n c (TLeaf l v)
| pfx_fork n c l h ca cb a b :
    Cell.is_exotic c = false → label_head n l h → len l < n → Cell.bits c = h ++ [true] → Cell.refs c = [ca; cb] →
    (strict = true → made n l [true] [ca; cb] = Ok c) →
    pfx_shows strict (n - len l - 1) ca a → pfx_shows strict (n - len l - 1) cb b →
    pfx_shows strict n c (TFork l a b).

Lemma pfx_shows_wf st n c t : pfx_shows st n c t → pfx_wf n t.
Proof. induction 1; simpl; auto. by apply label_head_spec in H1 as [? _]. Qed.

Lemma pfx_shows_nonneg st n c t : pfx_shows st n c t → 0 <= n.
Proof.
  destruct 1 as [|n c l h v _ Hh|n c l h ca cb a b _ _ Hl]; [done|..].
  - apply label_head_spec in Hh as [Hl _]. pose proof (len_nonneg l). lia.
  - pose proof (len_nonneg l). lia.
Qed.

(** Written by the dictionary, a tree has one cell. *)
Lemma pfx_shows_unique n c c' t : pfx_shows true n c t → pfx_shows true n c' t → c = c'.
Proof.
  intros Hs. revert c'.
  induction Hs as [n c _ _|n c l h v _ _ _ _ Hm|n c l h ca cb a b _ _ _ _ _ Hm _ IHa _ IHb];
    intros c' Hs'; inversion Hs'; subst; [done|..];
    repeat match goal with Hm : true = true → _ |- _ => specialize (Hm eq_refl) end; [congruence|].
  assert (ca = ca0 ∧ cb = cb0) as [<- <-] by auto. congruence.
Qed.

(** A node made under a label shows what its payload says. *)
Lemma made_leaf st n l v :
  0 <= n <= MAX_BITS → len l <= n → fits n l (false :: v.1) v.2 → Forall cell_wf v.2 →
  ∃ c, made n l (false :: v.1) v.2 = Ok c ∧ cell_wf c ∧ pfx_shows st n c (TLeaf l v).
Proof.
  intros Hn Hl Hf Hw. destruct (made_spec n l (false :: v.1) v.2) as (c & f & Hc & Hx & Hfo & Hb & Hr & Wc); [done..|].
  exists c. do 2 (split; [done|]). eapply (pfx_leaf _ _ _ _ (form_bits n f l)); [done|by apply label_head_form|done..].
Qed.

Lemma made_pfx_fork st n l ca cb a b :
  0 <= n <= MAX_BITS → len l < n → fits n l [true] [ca; cb] → cell_wf ca → cell_wf cb →
  pfx_shows st (n - len l - 1) ca a → pfx_shows st (n - len l - 1) cb b →
  ∃ c, fork_cell l n ca cb = Ok c ∧ cell_wf c ∧ pfx_shows st n c (TFork l a b).
Proof.
  intros Hn Hl Hf Wa Wb Ha Hb. rewrite fork_cell_spec by (done || lia).
  destruct (made_spec n l [true] [ca; cb]) as (c & f & Hc & Hx & Hfo & Hbits & Hr & Wc);
    [done|lia|done|by rewrite !Forall_cons, Forall_nil|].
  exists c. do 2 (split; [done|]). eapply (pfx_fork _ _ _ _ (form_bits n f l)); [done|by apply label_head_form; [|lia]|done..].
Qed.

(** Part of a label takes no more room than the label did, spelled as it was. *)
Lemma shorter_head m n l h l' :
  0 <= m <= n → n <= MAX_BITS → label_head n l h → (∃ p, l = p ++ l' ∨ l = l' ++ p) →
  len (label_enc m l') <= len h.
Proof.
  intros Hm Hn (Hl & f & Hf & ->)%label_head_spec Hp. apply (shorter_label m n f l l'); [done|done|lia|done|done].
Qed.

Lemma head_room c h pb : cell_wf c → Cell.bits c = h ++ pb → len h + len pb <= MAX_BITS.
Proof.
  intros Hwf Hb. apply cell_wf_bit_len in Hwf as Hl. destruct (node_rest c _ pb Hwf Hb) as (_ & _ & _ & _ & E). lia.
Qed.

(** A node seen as a label and what follows it: written again under another label, where
    it fits, it shows the relabelled tree. *)
Lemma pfx_node st n c t :
  pfx_shows st n c t → (∀ h, t ≠ THole h) → cell_wf c →
  ∃ h b pb, Cell.is_exotic c = false ∧ label_head n (label_of t) h ∧ Cell.bits c = h ++ b :: pb ∧ b :: pb = pfx_payload t ∧
    ∀ n' l', 0 <= n' <= MAX_BITS → n' - len l' = n - len (label_of t) → fits n' l' (pfx_payload t) (Cell.refs c) →
      ∃ c', made n' l' (pfx_payload t) (Cell.refs c) = Ok c' ∧ cell_wf c' ∧ pfx_shows st n' c' (with_label l' t).
Proof.
  intros Hs Hh Hwf%cell_wf_refs. destruct Hs as [n c _ _|n c l h v Hx Hl Hb Hr _|n c l h ca cb a b Hx Hl Hlt Hb Hr _ Ha Hbb].
  - by destruct (Hh c).
  - exists h, false, v.1. do 4 (split; [done|]). intros n' l' Hn' Hlen Hfit. rewrite Hr in *.
    apply label_head_spec in Hl as [Hl _]. cbn [label_of] in Hlen. apply made_leaf; done || lia.
  - exists h, true, []. do 4 (split; [done|]). intros n' l' Hn' Hlen Hfit. rewrite Hr in *. cbn [label_of with_label pfx_payload] in *.
    replace (n - len l - 1) with (n' - len l' - 1) in Ha, Hbb by lia. rewrite !Forall_cons in Hwf. destruct Hwf as (Wa & Wb & _).
    destruct (made_pfx_fork st n' l' ca cb a b) as (c' & Hc & Wc & Hs); [done|lia|done..|]. exists c'.
    by rewrite <- fork_cell_spec by (done || lia).
Qed.
End pfx_cells.

(** * Walks *)

(** ** A key against a label that was read *)

Section along.
Context {R : Type} `{BitRun R} (label : R) (l : list bool).
Hypotheses (Hlaw : LawfulRun label) (Hbits : run_bits label = l).

Lemma run_len_bits : run_len label = len l.
Proof. rewrite <- Hbits. symmetry. by apply len_run_bits. Qed.

Lemma diverges_inside key x r : l = key ++ x :: r → diverges label key = None.
Proof.
  intros Hl. unfold diverges. destruct (find _ _) as [i|] eqn:E; [|done].
  apply find_some in E as [Hi%list_elem_of_In%elem_of_seqZ Hf].
  destruct (get key i) as [b|] eqn:Eb; [|done]. pose proof (get_Some_lt _ _ _ Eb).
  rewrite (run_bit_get label Hlaw i b), Bool.eqb_reflx in Hf; [done|]. by rewrite Hbits, Hl, get_app_l by lia.
Qed.

Lemma along_cases key :
  (∃ k, key = l ++ k ∧ diverges label key = None ∧ (len key <? run_len label) = false) ∨
  (∃ x r, l = key ++ x :: r ∧ diverges label key = None ∧ (len key <? run_len label) = true) ∨
  (∃ p x l' k', l = p ++ x :: l' ∧ key = p ++ negb x :: k' ∧ diverges label key = Some (len p)).
Proof.
  rewrite run_len_bits. destruct (parting key l) as [[k ->]|[(x & r & Hl)|(p & x & l' & k' & Hl & ->)]].
  - left. exists k. split; [done|]. split; [by apply (diverges_none label Hlaw _ k); rewrite Hbits|].
    rewrite len_app. apply Z.ltb_ge. pose proof (len_nonneg k). lia.
  - right. left. exists x, r. split; [done|]. split; [by eapply diverges_inside|].
    rewrite Hl, len_app, len_cons. apply Z.ltb_lt. pose proof (len_nonneg r). lia.
  - right. right. exists p, x, l', k'. do 2 (split; [done|]). apply (diverges_some label Hlaw _ p x l' k'); by rewrite ?Hbits.
Qed.

(** The test by which a walk leaves a label before its end. *)
Definition leaves (key : list bool) : bool := bool_decide (is_Some (diverges label key)) || (len key <? run_len label).

Lemma leaves_cases key :
  (∃ k, key = l ++ k ∧ leaves key = false) ∨
  leaves key = true ∧ ((∃ x r, l = key ++ x :: r) ∨ (∃ p x l' k', l = p ++ x :: l' ∧ key = p ++ negb x :: k')).
Proof.
  unfold leaves. destruct (along_cases key) as [(k & -> & -> & ->)|[(x & r & -> & -> & ->)|(p & x & l' & k' & -> & -> & ->)]].
  - left. by exists k.
  - right. split; [by rewrite orb_true_r|]. left. by exists x, r.
  - right. split; [by rewrite bool_decide_true by by eexists|]. right. by exists p, x, l', k'.
Qed.
End along.

Lemma past_end (pre l k : list bool) : (len pre + len l =? len (pre ++ l ++ k)) = bool_decide (k = []).
Proof.
  rewrite !len_app. destruct k as [|x k]; [rewrite bool_decide_true by done; apply Z.eqb_eq; change (len (A:=bool) []) with 0; lia|].
  rewrite bool_decide_false by done. apply Z.eqb_neq. rewrite len_cons. pose proof (len_nonneg k). lia.
Qed.

Lemma head_past pre l x (k : list bool) : head (rest (pre ++ l ++ x :: k) (len pre + len l)) = Some x.
Proof. by rewrite app_assoc, <- len_app, rest_app. Qed.

Lemma tget_left t key l :
  label_of t = l → (∀ h, t ≠ THole h) →
  (∃ x r, l = key ++ x :: r) ∨ (∃ p x l' k', l = p ++ x :: l' ∧ key = p ++ negb x :: k') → tget t key = Absent.
Proof.
  intros Hl Hh [(x & r & E)|(p & x & l' & k' & E & ->)]; [eapply tget_inside|eapply tget_off]; try done; by rewrite Hl.
Qed.

Lemma tbegins_left t key l :
  label_of t = l → (∀ h, t ≠ THole h) →
  (∃ x r, l = key ++ x :: r) ∨ (∃ p x l' k', l = p ++ x :: l' ∧ key = p ++ negb x :: k') → tbegins t key = Absent.
Proof.
  intros <- Hh Hk. assert (strip (label_of t) key = None) as E.
  { destruct Hk as [(x & r & ->)|(p & x & l' & k' & -> & ->)]; [apply strip_inside|apply strip_off]. }
  destruct t as [l v|l a b|h]; cbn [tbegins label_of] in *; [by rewrite E..|by destruct (Hh h)].
Qed.

Section pfx_walk.
Context `{Hasher}.

(** What a lookup meets at a node whose label it reads into [lab']. *)
Lemma pfx_visit n c l h b pb (lab : Label) :
  cell_wf c → 0 <= n <= MAX_BITS → label_head n l h → Cell.bits c = h ++ b :: pb →
  ∃ s s' lab', read_label_into n (Slice.new c, lab) = (Ok tt, (s, lab')) ∧ Slice.load_bit s = (Ok b, s') ∧
    entry_value (MkEntry c (Cell.bit_len c - Slice.remaining_bits s')) = (pb, Cell.refs c) ∧
    Slice.remaining_bits s' = len pb ∧
    label_ok lab' ∧ lbits lab' = l ∧ l_len lab' = len l ∧ len l <= n ∧ LawfulRun lab' ∧ run_bits lab' = l.
Proof.
  intros Hwf Hn Hh Hb. destruct (read_pfx_node n c l h b pb lab Hwf Hn Hh Hb) as (lab' & Hr & Hok & Hl & _ & Hlb & Hv & Hrem).
  cbn [sink_bits sink_ok label_lawful_sink] in Hok, Hl. eexists _, _, lab'. do 4 (split; [done|]).
  apply label_head_spec in Hh as [Hle _]. pose proof (len_lbits lab' Hok) as Hlen. rewrite Hl in Hlen.
  do 3 (split; [done|]). split; [done|]. split; [by apply label_lawful|]. by rewrite label_run_bits.
Qed.

(** ** The lookups *)

Lemma get_loop_spec st n c t :
  pfx_shows st n c t → cell_wf c → n <= MAX_BITS →
  ∀ fuel pre key lab, (Z.to_nat n < fuel)%nat →
  ∃ r, get_loop fuel (pre ++ key) c n (len pre) lab = Ok r ∧ lookup_map entry_value r = tget t key.
Proof.
  induction 1 as [n c Hn Hx|n c l h v Hx Hl Hb Hr _|n c l h ca cb a b Hx Hl Hlt Hb Hr _ Ha IHa Hbb IHb];
    intros Hwf Hm [|fuel] pre key lab Hfuel; try lia; cbn [get_loop]; rewrite Hx; [by eexists|..].
  all: pose proof (len_nonneg l); apply label_head_spec in Hl as Hle; destruct Hle as [Hle _].
  - destruct (pfx_visit n c l h false v.1 lab) as (s & s' & lab' & -> & Hbit & Hv & _ & Hok & _ & Hlen & _ & Hlaw & Hrun); [done|lia|done..|].
    rewrite rest_app. cbv zeta.
    destruct (leaves_cases lab' l Hlaw Hrun key) as [(k & -> & Hk)|[Hk Hout]]; unfold leaves in Hk; cbn [run_len label_run] in Hk; rewrite Hk.
    + rewrite Hbit. cbn [negb]. rewrite Hlen, past_end. cbn [tget]. rewrite strip_app.
      destruct k; [rewrite bool_decide_true by done|rewrite bool_decide_false by done; by eexists].
      eexists. split; [done|]. cbn [lookup_map]. rewrite Hv, Hr. by destruct v.
    + eexists. split; [done|]. by rewrite (tget_left (TLeaf l v) key l).
  - destruct (pfx_visit n c l h true [] lab) as (s & s' & lab' & -> & Hbit & _ & _ & Hok & _ & Hlen & _ & Hlaw & Hrun); [done|lia|done..|].
    rewrite rest_app. cbv zeta.
    destruct (leaves_cases lab' l Hlaw Hrun key) as [(k & -> & Hk)|[Hk Hout]]; unfold leaves in Hk; cbn [run_len label_run] in Hk; rewrite Hk.
    + rewrite Hbit. cbn [negb]. unfold Label.width. rewrite Hlen, (proj2 (Z.eqb_neq _ _)), past_end by lia.
      destruct k as [|x k]; [rewrite bool_decide_true by done; eexists; split; [done|]; cbn [tget]; by rewrite strip_app|].
      rewrite bool_decide_false, head_past by done. cbn [default from_option id].
      destruct (two_refs c ca cb x Hr Hwf) as (R1 & _ & Wa & Wb). rewrite R1. cbn [ok_or res_bind].
      destruct (key_past pre l x k) as (E & El & _). rewrite E, <- El, tget_fork.
      destruct x; [apply IHb|apply IHa]; done || lia.
    + eexists. split; [done|]. by rewrite (tget_left (TFork l a b) key l).
Qed.

(** What a prefix lookup answers, [consumed] key bits down. *)
Definition matched (consumed : Z) (found : Lookup (list bool * value)) (outcome : result CellError (option PfxMatch)) : Prop :=
  match found with
  | Found (k, v) => ∃ e, outcome = Ok (Some (MkPfxMatch (consumed + len k) e)) ∧ entry_value e = v
  | Absent => outcome = Ok None
  | PrunedAway => outcome = Err Pruned
  end.

Lemma matched_under pre l x found outcome :
  matched (len (pre ++ l ++ [x])) found outcome →
  matched (len pre) (lookup_map (λ '(k, v), (l ++ x :: k, v)) found) outcome.
Proof.
  destruct found as [[k v]| |]; [|done..]. unfold matched. cbn [lookup_map].
  by replace (len pre + len (l ++ x :: k)) with (len (pre ++ l ++ [x]) + len k) by (rewrite !len_app, len_one, len_cons; lia).
Qed.

Lemma prefix_loop_spec st n c t :
  pfx_shows st n c t → cell_wf c →
  ∀ fuel pre key lab, (Z.to_nat n < fuel)%nat → len pre + n <= MAX_BITS →
  matched (len pre) (tbegins t key) (prefix_loop fuel (pre ++ key) c n (len pre) lab).
Proof.
  induction 1 as [n c Hn Hx|n c l h v Hx Hl Hb Hr _|n c l h ca cb a b Hx Hl Hlt Hb Hr _ Ha IHa Hbb IHb];
    intros Hwf [|fuel] pre key lab Hfuel Hm; try lia; cbn [prefix_loop]; rewrite Hx; [done|..].
  all: pose proof (len_nonneg l); pose proof (len_nonneg pre); apply label_head_spec in Hl as Hle; destruct Hle as [Hle _].
  - destruct (pfx_visit n c l h false v.1 lab) as (s & s' & lab' & -> & Hbit & Hv & _ & Hok & _ & Hlen & _ & Hlaw & Hrun); [done|lia|done..|].
    rewrite rest_app. cbv zeta.
    destruct (leaves_cases lab' l Hlaw Hrun key) as [(k & -> & Hk)|[Hk Hout]]; unfold leaves in Hk; cbn [run_len label_run] in Hk; rewrite Hk.
    + rewrite Hbit. cbn [negb tbegins]. rewrite Hlen, strip_app.
      assert (wrap 16 (len pre + len l) = len pre + len l) as -> by (apply Z.mod_small; unfold MAX_BITS in *; simpl; lia).
      eexists. split; [done|]. rewrite Hv, Hr. by destruct v.
    + by rewrite (tbegins_left (TLeaf l v) key l).
  - destruct (pfx_visit n c l h true [] lab) as (s & s' & lab' & -> & Hbit & _ & _ & Hok & _ & Hlen & _ & Hlaw & Hrun); [done|lia|done..|].
    rewrite rest_app. cbv zeta.
    destruct (leaves_cases lab' l Hlaw Hrun key) as [(k & -> & Hk)|[Hk Hout]]; unfold leaves in Hk; cbn [run_len label_run] in Hk; rewrite Hk.
    + rewrite Hbit. cbn [negb]. unfold Label.width. rewrite Hlen, (proj2 (Z.eqb_neq _ _)), past_end by lia.
      cbn [tbegins]. rewrite strip_app.
      destruct k as [|x k]; [by rewrite bool_decide_true by done|].
      rewrite bool_decide_false, head_past by done. cbn [default from_option id].
      destruct (two_refs c ca cb x Hr Hwf) as (R1 & _ & Wa & Wb). rewrite R1. cbn [ok_or res_bind].
      destruct (key_past pre l x k) as (E & El & _). rewrite E, <- El.
      destruct x; apply matched_under; [apply IHb|apply IHa]; done || lia.
    + by rewrite (tbegins_left (TFork l a b) key l).
Qed.
End pfx_walk.
