(* ===== verification/PfxEdit.v ===== *)
(** Storing into and removing from the cells of a prefix-code dictionary. *)

From stdpp Require Import base list list_numbers numbers strings.
From Stdlib Require Import ZArith Lia.
From S2P Require Import Prelude Errors Bits CellData CellHash CellModel CellSlice CellBuilder BuilderOps DictLabel Dict DictTree DictCells DictWalk DictSpec PfxDict PfxCells.

Local Open Scope Z_scope.

#[local] Arguments uint_bits : simpl never.

Section pfx_edit.
Context `{Hasher}.

(** ** Rooms *)

(** A value short enough to stand, marked, under a label of the widest key. *)
Definition pfx_spacious (n : Z) (v : value) : Prop := 2 + bounded_width n + n + 1 + len v.1 <= MAX_BITS.

Lemma pfx_spacious_fits n v m k :
  pfx_spacious n v → 0 <= m <= n → n <= MAX_BITS → len k <= m → len v.2 <= MAX_REFS → fits m k (false :: v.1) v.2.
Proof.
  intros Hs Hm Hn Hk Hr. pose proof (len_nonneg k). split; [|done]. rewrite len_cons.
  pose proof (best_form_least m k FLong ltac:(lia) ltac:(lia) I) as Hle.
  rewrite (len_form_bits m FLong k ltac:(lia)) in Hle.
  pose proof (bounded_width_mono m n ltac:(lia)). unfold pfx_spacious in Hs. lia.
Qed.

(** A node's label, or a part of it, leaves its payload the room it had. *)
Lemma part_fits m n c l h pb l' :
  cell_wf c → 0 <= m <= n → n <= MAX_BITS → label_head n l h → Cell.bits c = h ++ pb →
  (∃ p, l = p ++ l' ∨ l = l' ++ p) → fits m l' pb (Cell.refs c).
Proof.
  intros Hwf Hm Hn Hl Hb Hp. pose proof (head_room c h pb Hwf Hb). pose proof (shorter_head m n l h l' Hm Hn Hl Hp).
  split; [lia|]. unfold Cell.refs. apply len_refs_slice.
Qed.

Lemma fork_fits m n c l h pb l' ca cb :
  cell_wf c → 0 <= m <= n → n <= MAX_BITS → label_head n l h → Cell.bits c = h ++ pb → 0 < len pb →
  (∃ p, l = p ++ l' ∨ l = l' ++ p) → fits m l' [true] [ca; cb].
Proof.
  intros Hwf Hm Hn Hl Hb Hpb Hp. destruct (part_fits m n c l h pb l' Hwf Hm Hn Hl Hb Hp) as [Hf _].
  split; [rewrite len_one; lia|done].
Qed.

(** ** Nodes written *)

Lemma pfx_leaf_shows st n key v :
  0 <= n <= MAX_BITS → len key <= n → storable v →
  if bool_decide (fits n key (false :: v.1) v.2)
  then ∃ c, leaf_cell key n (builder_of v) = Ok c ∧ cell_wf c ∧ pfx_shows st n c (TLeaf key v)
  else is_ok (leaf_cell key n (builder_of v)) = false.
Proof.
  intros Hn Hk (_ & Hvr & Hvw). pose proof (leaf_cell_spec key v.1 v.2 n Hn Hk Hvr) as Hl. unfold builder_of.
  case_bool_decide as Hfit; [|done]. rewrite Hl. by apply made_leaf.
Qed.

(** A fork written again with another child. *)
Lemma rebuild_fork_spec st n c l h ca cb a b (x : bool) child t :
  cell_wf c → n <= MAX_BITS → label_head n l h → len l < n → Cell.bits c = h ++ [true] → Cell.refs c = [ca; cb] →
  pfx_shows st (n - len l - 1) ca a → pfx_shows st (n - len l - 1) cb b →
  cell_wf child → pfx_shows st (n - len l - 1) child t →
  ∃ c', rebuild_fork l n c (b2z x) child = Ok c' ∧ cell_wf c' ∧ pfx_shows st n c' (two x t (if x then a else b) l).
Proof.
  intros Hwf Hn Hl Hlt Hb Hr Ha Hbb Wc Hc. pose proof (len_nonneg l).
  destruct (two_refs c ca cb x Hr Hwf) as (_ & R2 & Wa & Wb).
  assert (∀ p q, fits n l [true] [p; q]) as Hfit.
  { intros p q. eapply (fork_fits n n c l h [true]); [done|lia|done|done|done|by rewrite len_one|exists []; by left]. }
  unfold rebuild_fork. rewrite R2. cbn [ok_or res_bind].
  destruct x; cbn [b2z Z.eqb Pos.eqb two]; cbv iota; apply made_pfx_fork; done || lia.
Qed.

(** The node a key leaves, under the rest of its label. *)
Lemma pfx_kept_shows st n c t p x l' :
  pfx_shows st n c t → cell_wf c → n <= MAX_BITS → (∀ h, t ≠ THole h) → label_of t = p ++ x :: l' →
  ∃ c', built (run! store_label l' (n - len p - 1);
      λ kept, match skip_label n (Slice.new c) with
              | (Err e, _) => (Err e, kept)
              | (Ok _, slice) => Builder.store_slice slice kept
              end) = Ok c' ∧ cell_wf c' ∧ pfx_shows st (n - len p - 1) c' (with_label l' t).
Proof.
  intros Hs Hwf Hm Hh Hl. apply pfx_shows_nonneg in Hs as Hn. pose proof (len_nonneg p). pose proof (len_nonneg l').
  destruct (pfx_node st n c t Hs Hh Hwf) as (h & b & pb & Hx & Hlh & Hb & Hpay & Hmade).
  apply label_head_spec in Hlh as Hle. destruct Hle as [Hle _]. rewrite Hl, len_app, len_cons in Hle.
  destruct (read_pfx_node n c (label_of t) h b pb Label.new Hwf ltac:(lia) Hlh Hb) as (_ & _ & _ & _ & -> & _).
  destruct (node_rest c h (b :: pb) Hwf Hb) as (Ws & Hsb & Hsr & Hsrem & Hroom).
  set (s := step_bits (len h) (Slice.new c)) in *. apply cell_wf_bit_len in Hwf as Hbl. pose proof (len_nonneg h).
  pose proof (appends_slice s Ws ltac:(lia)) as Happ. rewrite Hsb, Hsr in Happ.
  assert (LawfulRun l') as Hrun by (apply bools_lawful; unfold U16_MAX, MAX_BITS in *; lia).
  pose proof (built_node l' (n - len p - 1) _ _ _ Hrun ltac:(lia) ltac:(cbn [run_len bools_run]; lia) Happ) as Hbuilt.
  rewrite bools_run_bits in Hbuilt.
  assert (fits (n - len p - 1) l' (b :: pb) (Cell.refs c)) as Hfit.
  { eapply (part_fits _ n c (label_of t) h); [done|lia|lia|done|done|]. exists (p ++ [x]). left. by rewrite Hl, <- app_assoc. }
  rewrite bool_decide_true in Hbuilt by done. rewrite Hpay in *.
  destruct (Hmade (n - len p - 1) l') as (c' & Hc & Wc & Sc); [lia|rewrite Hl, len_app, len_cons; lia|done|].
  exists c'. split; [|done]. by rewrite <- Hc, <- Hbuilt.
Qed.

Lemma pfx_split_spec st n c t p x l' k' v :
  pfx_shows st n c t → cell_wf c → n <= MAX_BITS → (∀ h, t ≠ THole h) → label_of t = p ++ x :: l' →
  len (p ++ negb x :: k') <= n → storable v →
  if bool_decide (fits (n - len p - 1) k' (false :: v.1) v.2)
  then ∃ c', pfx_split c n (label_of t) (len p) (p ++ negb x :: k') (builder_of v) = Ok c' ∧ cell_wf c' ∧
    pfx_shows st n c' (two (negb x) (TLeaf k' v) (with_label l' t) p)
  else is_ok (pfx_split c n (label_of t) (len p) (p ++ negb x :: k') (builder_of v)) = false.
Proof.
  intros Hs Hwf Hm Hh Hl Hk Hv. pose proof (len_nonneg p). pose proof (len_nonneg k').
  rewrite len_app, len_cons in Hk. unfold pfx_split. cbv zeta.
  assert (wrap 16 (len p) = len p) as -> by (apply Z.mod_small; unfold MAX_BITS in *; simpl; lia).
  rewrite Hl. assert (∀ y (q : list bool), rest (p ++ y :: q) (len p + 1) = q) as Hrest.
  { intros y q. change (y :: q) with ([y] ++ q). rewrite app_assoc, <- (len_one y), <- len_app. apply rest_app. }
  rewrite !Hrest, get_at. cbn [default from_option id].
  destruct (pfx_kept_shows st n c t p x l' Hs Hwf Hm Hh Hl) as (ck & -> & Wk & Sk). cbn [res_bind].
  pose proof (pfx_leaf_shows st (n - len p - 1) k' v ltac:(lia) ltac:(lia) Hv) as Hleaf.
  case_bool_decide; [|by destruct (leaf_cell _ _ _)]. destruct Hleaf as (cf & -> & Wf & Sf). cbn [res_bind].
  assert (get_range (p ++ x :: l') 0 (len p) = Some p) as ->.
  { unfold get_range. pose proof (len_nonneg (x :: l')). rewrite len_app, !(proj2 (Z.leb_le _ _)) by lia. cbn [andb].
    f_equal. rewrite Z.sub_0_r. rewrite drop_0, take_app_length'; [done|unfold len; lia]. }
  destruct (pfx_node st n c t Hs Hh Hwf) as (h & b & pb & _ & Hlh & Hb & _ & _).
  assert (∀ a b, fits n p [true] [a; b]) as Hfit.
  { intros a' b'. eapply (fork_fits n n c (label_of t) h (b :: pb)); [done|lia|lia|done|done| |exists (x :: l'); by right].
    rewrite len_cons. pose proof (len_nonneg pb). lia. }
  cbn [default from_option id]. destruct x; cbn [negb two]; apply made_pfx_fork; done || lia.
Qed.

(** ** [insert] *)

(** Where a store puts its value: [m] key bits are left there and [k] of them label it. *)
Inductive placed : Z → tree → list bool → Z → list bool → Prop :=
| placed_here n l v : placed n (TLeaf l v) l n l
| placed_off n t p x l' k' :
    (∀ h, t ≠ THole h) → label_of t = p ++ x :: l' → placed n t (p ++ negb x :: k') (n - len p - 1) k'
| placed_under n l a b (x : bool) k m k' :
    placed (n - len l - 1) (if x then b else a) k m k' → placed n (TFork l a b) (l ++ x :: k) m k'.

(** What a key passes on its way down that another key keeps. *)
Definition shared (t : tree) (key p : list bool) : Prop :=
  ∃ j v, tget t j = Found v ∧ j ≠ key ∧ p `prefix_of` j.

Lemma shared_under l a b (x : bool) k p : shared (if x then b else a) k p ↔ shared (TFork l a b) (l ++ x :: k) (l ++ x :: p).
Proof.
  split.
  - intros (j & v & Hf & Hj & q & ->). exists (l ++ x :: p ++ q), v. rewrite tget_fork. split; [done|].
    split; [intros E%app_inv_head; by injection E|]. exists q. by rewrite <- app_assoc.
  - intros (j & v & Hf & Hj & q & ->). rewrite <- !app_assoc in Hf, Hj. cbn [app] in Hf, Hj. rewrite tget_fork in Hf.
    exists (p ++ q), v. split; [done|]. split; [by intros <-|by exists q].
Qed.

(** A stored key begins with the label at the root. *)
Lemma shared_label t key p :
  whole t → p `prefix_of` label_of t → ¬ label_of t `prefix_of` key → shared t key p.
Proof.
  intros Hw Hp Hn. destruct (whole_found t Hw) as (j & v & Hf). exists j, v. split; [done|].
  destruct (tget_under_label t j v Hw Hf) as [r Hj]. assert (label_of t `prefix_of` j) by by exists r.
  split; [by intros ->|by etransitivity].
Qed.

(** The value lands under the shortest beginning of its key that no other key has. *)
Lemma placed_own n t key m k :
  placed n t key m k → whole t →
  ∃ p, key = p ++ k ∧ m = n - len p ∧ ¬ shared t key p ∧ ∀ q, q `prefix_of` p → q ≠ p → shared t key q.
Proof.
  induction 1 as [n l v|n t p x l' k' Hh El|n l a b x k m k' _ IH]; intros Hw.
  - exists []. split; [done|]. split; [change (len (A:=bool) []) with 0; lia|]. split.
    + intros (j & w & Hf & Hj & _). rewrite tget_leaf in Hf. by case_decide.
    + intros q [r Hr]. by destruct q.
  - exists (p ++ [negb x]). split; [by rewrite <- app_assoc|]. split; [rewrite len_app, len_one; lia|].
    destruct (off_no_prefix p x l' k') as [H1 _]. rewrite <- El in H1. split.
    + intros (j & w & Hf & _ & r & ->). rewrite <- app_assoc in Hf. cbn [app] in Hf. by rewrite (tget_off t p x l' r Hh El) in Hf.
    + intros q [r Hr] Hq. apply shared_label; [done| |done]. destruct r as [|y r _] using rev_ind; [by rewrite app_nil_r in Hr|].
      rewrite app_assoc in Hr. apply app_inj_tail in Hr as [-> _]. rewrite El. exists (r ++ x :: l'). by rewrite <- app_assoc.
  - assert (whole (if x then b else a) ∧ whole (if x then a else b)) as [Hwx Hwo] by (cbn [whole] in Hw; destruct x; tauto).
    destruct (IH Hwx) as (p & -> & -> & Hown & Hless). exists (l ++ x :: p). split; [by rewrite <- app_assoc|].
    split; [rewrite len_app, len_cons; lia|]. rewrite <- shared_under. split; [done|]. intros q [r Hr] Hq.
    destruct (app_eq_inv _ _ _ _ Hr) as [(k & -> & _)|(k & -> & E)].
    + destruct (whole_found _ Hwo) as (j & v & Hf). exists ((q ++ k) ++ negb x :: j), v.
      split; [rewrite tget_fork; by destruct x|]. split; [|rewrite <- app_assoc; by eexists].
      intros Ej%app_inv_head. injection Ej as Ex _. by destruct x.
    + destruct k as [|y k].
      * rewrite app_nil_r in *. destruct (whole_found _ Hwo) as (j & v & Hf). exists (l ++ negb x :: j), v.
        split; [rewrite tget_fork; by destruct x|]. split; [|by eexists]. intros Ej%app_inv_head. injection Ej as Ex _. by destruct x.
      * cbn [app] in E. injection E as <- ->. apply shared_under. apply Hless; [by eexists|]. intros Ek. apply Hq. by rewrite <- Ek.
Qed.

Inductive inserted (st : bool) (n : Z) (t : tree) (key : list bool) (v : value) : result CellError Cell → Prop :=
| inserted_ok c t' m k0 :
    placed n t key m k0 → fits m k0 (false :: v.1) v.2 →
    cell_wf c → pfx_shows st n c t' → (whole t → whole t') → ¬ blocked t key → tget t key ≠ PrunedAway →
    (∀ k, tget t' k = if decide (k = key) then Found v else tget t k) → inserted st n t key v (Ok c)
| inserted_pruned : tget t key = PrunedAway → inserted st n t key v (Err Pruned)
| inserted_blocked m : blocked t key → inserted st n t key v (Err (Malformed m))
| inserted_full e m k :
    placed n t key m k → ¬ fits m k (false :: v.1) v.2 → inserted st n t key v (Err e).

Lemma inserted_made st n t key v m k r :
  placed n t key m k →
  (if bool_decide (fits m k (false :: v.1) v.2) then ∃ c, r = Ok c ∧ inserted st n t key v (Ok c) else is_ok r = false) →
  inserted st n t key v r.
Proof.
  intros Hp. case_bool_decide as Hf; [by intros (c & -> & ?)|]. destruct r; [done|]. intros _. by eapply inserted_full.
Qed.

(** At a fork the result of its branch is put back in its place. *)
Lemma inserted_under st n l a b (x : bool) k v c h ca cb r :
  cell_wf c → n <= MAX_BITS → label_head n l h → len l < n → Cell.bits c = h ++ [true] → Cell.refs c = [ca; cb] →
  pfx_shows st (n - len l - 1) ca a → pfx_shows st (n - len l - 1) cb b →
  inserted st (n - len l - 1) (if x then b else a) k v r →
  inserted st n (TFork l a b) (l ++ x :: k) v (res_bind r (rebuild_fork l n c (b2z x))).
Proof.
  intros Hwf Hm Hl Hlt Hb Hr Ha Hbb Hin. pose proof (len_nonneg l).
  destruct Hin as [c1 t' m k0 Hpl Hfit W1 S1 Hw Hbl Hp Hg|Hp|m Hbl|e m k1 Hpl Hf]; cbn [res_bind].
  - destruct (rebuild_fork_spec st n c l h ca cb a b x c1 t') as (c' & -> & Wc & Sc); [done..|].
    eapply inserted_ok; [by apply placed_under|exact Hfit|done|exact Sc| | | |].
    + rewrite whole_two. cbn [whole]. destruct x; tauto.
    + by rewrite blocked_fork.
    + by rewrite tget_fork.
    + intros k1. pose proof (tget_plug_change [MkFrame l x (if x then a else b)] (if x then b else a) t' k (Found v) Hg k1) as Hk.
      unfold frames_key in Hk. cbn [plug f_branch f_label f_other mbind list_bind] in Hk. rewrite app_nil_r, <- app_assoc in Hk.
      rewrite Hk. destruct x; done.
  - apply inserted_pruned. by rewrite tget_fork.
  - apply inserted_blocked. by rewrite blocked_fork.
  - eapply (inserted_full _ _ _ _ _ _ m k1); [by apply placed_under|done].
Qed.

(** A key that leaves a label takes the other side of a fork there. *)
Lemma inserted_split st n c t p x l' k' v :
  pfx_shows st n c t → cell_wf c → n <= MAX_BITS → (∀ h, t ≠ THole h) → label_of t = p ++ x :: l' →
  len (p ++ negb x :: k') <= n → storable v →
  inserted st n t (p ++ negb x :: k') v (pfx_split c n (label_of t) (len p) (p ++ negb x :: k') (builder_of v)).
Proof.
  intros Hs Hwf Hm Hh Hl Hk Hv. pose proof (pfx_split_spec st n c t p x l' k' v Hs Hwf Hm Hh Hl Hk Hv) as Hsp.
  rewrite len_app, len_cons in Hk. pose proof (len_nonneg p). pose proof (len_nonneg k').
  eapply (inserted_made _ _ _ _ _ (n - len p - 1) k'); [by eapply placed_off|]. case_bool_decide as Hf; [|done].
  destruct Hsp as (c' & Hc & Wc & Sc). exists c'. split; [done|]. eapply inserted_ok; [by eapply placed_off|exact Hf|done|exact Sc| | | |].
  - rewrite whole_two, whole_with_label. done.
  - by apply (blocked_off t p x l').
  - by rewrite (tget_off t p x l').
  - by apply tget_split.
Qed.

(** The node an edit reads on its way down. *)
Lemma edit_visit n c l h b pb :
  cell_wf c → n <= MAX_BITS → label_head n l h → Cell.bits c = h ++ b :: pb →
  ∃ s, read_label_into n (Slice.new c, [] : list bool) = (Ok tt, (s, l)) ∧ fst (Slice.load_bit s) = Ok b ∧
    0 <= len l <= n ∧ LawfulRun l ∧ wrap 16 (len l) = len l.
Proof.
  intros Hwf Hm Hl Hb. pose proof (len_nonneg l). apply label_head_spec in Hl as Hle. destruct Hle as [Hle _].
  destruct (read_pfx_node n c l h b pb (S := list bool) [] Hwf ltac:(lia) Hl Hb) as (l1 & Hr & _ & Hl1 & _ & Hbit & _).
  change (sink_bits l1) with l1 in Hl1. subst l1. eexists. split; [exact Hr|]. split; [by rewrite Hbit|]. split; [lia|].
  split; [apply bools_lawful; unfold U16_MAX, MAX_BITS in *; lia|]. apply Z.mod_small. unfold MAX_BITS in *. simpl. lia.
Qed.

Lemma insert_spec st n c t v :
  pfx_shows st n c t → cell_wf c → n <= MAX_BITS → storable v →
  ∀ fuel key, (Z.to_nat n < fuel)%nat → len key <= n → inserted st n t key v (insert fuel c n key (builder_of v)).
Proof.
  intros Hs Hwf Hm Hv. revert Hwf Hm.
  induction Hs as [n c Hn Hx|n c l h v0 Hx Hl Hb Hr Hst|n c l h ca cb a b Hx Hl Hlt Hb Hr Hst Ha IHa Hbb IHb];
    intros Hwf Hm [|fuel] key Hfuel Hk; try lia; cbn [insert]; rewrite Hx; [by apply inserted_pruned|..].
  - assert (pfx_shows st n c (TLeaf l v0)) as Hs by by eapply pfx_leaf.
    destruct (edit_visit n c l h false v0.1 Hwf Hm Hl Hb) as (s & -> & Hbit & Hle & Hlaw & Hw).
    destruct (along_cases l l Hlaw (bools_run_bits l) key) as [(k & -> & -> & Hlt)|[(x & r & El & -> & Hlt)|(p & x & l' & k' & El & -> & ->)]].
    + cbn [run_len bools_run] in Hlt. rewrite Hlt, Hbit. cbn [res_bind negb]. rewrite rest_app. case_bool_decide as Ek.
      * subst k. rewrite app_nil_r in *. eapply (inserted_made _ _ _ _ _ n l); [apply placed_here|].
        pose proof (pfx_leaf_shows st n l v ltac:(lia) ltac:(lia) Hv) as Hlv. case_bool_decide as Hf; [|done].
        destruct Hlv as (c' & -> & Wc & Sc). exists c'. split; [done|]. eapply inserted_ok; [apply placed_here|exact Hf|done|exact Sc|done| | |].
        -- by intros [].
        -- by rewrite tget_leaf, decide_True.
        -- intros k. rewrite !tget_leaf. by case_decide.
      * apply inserted_blocked. cbn [blocked]. split; [|left; by eexists]. intros E. apply Ek.
        by apply (f_equal (drop (length l))) in E; rewrite drop_app_length, drop_all in E.
    + cbn [run_len bools_run] in Hlt. rewrite Hlt. apply inserted_blocked. by eapply (blocked_inside (TLeaf l v0) key x r).
    + by eapply (inserted_split st n c (TLeaf l v0) p x l' k').
  - assert (pfx_shows st n c (TFork l a b)) as Hs by by eapply pfx_fork.
    destruct (edit_visit n c l h true [] Hwf Hm Hl Hb) as (s & -> & Hbit & Hle & Hlaw & Hw).
    destruct (along_cases l l Hlaw (bools_run_bits l) key) as [(k & -> & -> & Hlk)|[(x & r & El & -> & Hlk)|(p & x & l' & k' & El & -> & ->)]].
    + cbn [run_len bools_run] in Hlk. rewrite Hlk, Hbit. cbn [res_bind negb]. rewrite Hw, rest_app. destruct k as [|x k].
      { rewrite bool_decide_true by done. apply inserted_blocked. cbn [blocked]. rewrite strip_app. by rewrite app_nil_r. }
      rewrite bool_decide_false, (proj2 (Z.eqb_neq _ _)) by (done || lia). cbn [head default from_option id].
      destruct (two_refs c ca cb x Hr Hwf) as (R1 & _ & Wa & Wb). rewrite R1. cbn [ok_or res_bind].
      change (rest (x :: k) 1) with (rest ([x] ++ k) (len [x])). rewrite rest_app. rewrite len_app, len_cons in Hk.
      eapply inserted_under; [done..|]. destruct x; [apply IHb|apply IHa]; done || lia.
    + cbn [run_len bools_run] in Hlk. rewrite Hlk. apply inserted_blocked. by eapply (blocked_inside (TFork l a b) key x r).
    + by eapply (inserted_split st n c (TFork l a b) p x l' k').
Qed.

(** ** [remove_from] *)

(** Nothing is pruned away and every value could stand under any label. *)
Definition pfx_roomy (n : Z) (t : tree) : Prop :=
  ∀ k, match tget t k with Found v => pfx_spacious n v | Absent => True | PrunedAway => False end.

Lemma roomy_branch n l a b (x : bool) : pfx_roomy n (TFork l a b) → pfx_roomy n (if x then b else a).
Proof. intros Hr k. specialize (Hr (l ++ x :: k)). by rewrite tget_fork in Hr. Qed.

Inductive removed (st : bool) (N n : Z) (t : tree) (key : list bool) : result CellError Removal → Prop :=
| removed_absent : tget t key = Absent → removed st N n t key (Ok NotFound)
| removed_gone v : t = TLeaf key v → removed st N n t key (Ok Gone)
| removed_rebuilt c t' v :
    tget t key = Found v → cell_wf c → pfx_shows st n c t' → (whole t → whole t') →
    (∀ k, tget t' k = if decide (k = key) then Absent else tget t k) → removed st N n t key (Ok (Rebuilt c))
| removed_pruned : tget t key = PrunedAway → removed st N n t key (Err Pruned)
| removed_full e v : tget t key = Found v → ¬ pfx_roomy N t → removed st N n t key (Err e).

(** What is left of a fork whose branch [x] lost its leaf. *)
Lemma pfx_collapse_spec st n c l h ca cb a b (x : bool) :
  cell_wf c → n <= MAX_BITS → label_head n l h → len l < n → Cell.bits c = h ++ [true] → Cell.refs c = [ca; cb] →
  pfx_shows st (n - len l - 1) ca a → pfx_shows st (n - len l - 1) cb b →
  let u := if x then a else b in
  let l' := l ++ negb x :: label_of u in
  (∃ e, u = THole e) ∧ is_ok (pfx_collapse c n l (1 - b2z x)) = false ∨
  (∀ e, u ≠ THole e) ∧ len l' <= n ∧ ∃ pr, len pr <= MAX_REFS ∧
    if bool_decide (fits n l' (pfx_payload u) pr)
    then ∃ c', pfx_collapse c n l (1 - b2z x) = Ok c' ∧ cell_wf c' ∧ pfx_shows st n c' (with_label l' u)
    else is_ok (pfx_collapse c n l (1 - b2z x)) = false.
Proof.
  intros Hwf Hm Hl Hlt Hb Hr Ha Hbb u l'. pose proof (len_nonneg l).
  destruct (two_refs c ca cb x Hr Hwf) as (_ & R2 & Wa & Wb). unfold pfx_collapse. rewrite R2. cbn [ok_or res_bind].
  set (cs := if x then ca else cb). assert (cell_wf cs) as Ws by (subst cs; by destruct x).
  assert (pfx_shows st (n - len l - 1) cs u) as Hs by (subst cs u; by destruct x).
  destruct (hole_cases u) as [[e Ee]|Hh]; [left|right].
  { split; [by eexists|]. rewrite Ee in Hs. inversion Hs as [? ? ? Hx| |]; subst. by rewrite Hx. }
  split; [done|]. destruct (pfx_node st _ cs u Hs Hh Ws) as (hs & sb & pb & Hx & Hlh & Hbs & Hpay & Hmade).
  apply label_head_spec in Hlh as Hle. destruct Hle as [Hle _].
  assert (len l' = len l + 1 + len (label_of u)) as Hlen by (unfold l'; rewrite len_app, len_cons; lia).
  split; [lia|]. exists (Cell.refs cs). split; [unfold Cell.refs; apply len_refs_slice|]. rewrite Hx. cbv zeta.
  assert (wrap 16 (len l) = len l) as -> by (apply Z.mod_small; unfold MAX_BITS in *; simpl; lia).
  rewrite (proj2 (Z.eqb_neq _ _)) by lia.
  destruct (read_pfx_node (n - len l - 1) cs (label_of u) hs sb pb Label.new Ws ltac:(lia) Hlh Hbs) as (lab & -> & Hok & Hlab & _).
  cbn [sink_bits sink_ok label_lawful_sink] in Hok, Hlab. cbv beta iota.
  rewrite label_run_bits, Hlab by done.
  assert ((1 - b2z x =? 1) = negb x) as -> by by destruct x.
  change (l ++ [negb x] ++ label_of u) with l'.
  destruct (node_rest cs hs (sb :: pb) Ws Hbs) as (Wsl & Hsb & Hsr & Hsrem & Hroom).
  apply cell_wf_bit_len in Ws as Hbl. pose proof (len_nonneg hs).
  pose proof (appends_slice _ Wsl ltac:(lia)) as Happ. rewrite Hsb, Hsr in Happ.
  assert (LawfulRun l') as Hrun by (apply bools_lawful; unfold U16_MAX, MAX_BITS in *; lia).
  pose proof (built_node l' n _ _ _ Hrun ltac:(lia) ltac:(cbn [run_len bools_run]; lia) Happ) as Hbuilt.
  rewrite bools_run_bits, Hpay in Hbuilt. case_bool_decide as Hfit; [|exact Hbuilt]. rewrite Hbuilt.
  apply Hmade; [lia|lia|done].
Qed.

(** Where the survivor cannot take the joined label, something took more than its room. *)
Lemma join_not_roomy N n l (x : bool) u k v pr :
  0 <= n <= N → N <= MAX_BITS → (∀ e, u ≠ THole e) → len (l ++ negb x :: label_of u) <= n → len pr <= MAX_REFS →
  ¬ fits n (l ++ negb x :: label_of u) (pfx_payload u) pr → ¬ pfx_roomy N (two x (TLeaf k v) u l).
Proof.
  intros Hn HN Hh Hl Hpr Hnf Hroom. apply Hnf. split; [|done]. set (l' := l ++ negb x :: label_of u) in *.
  pose proof (len_nonneg l'). pose proof (best_form_least n l' FLong ltac:(lia) ltac:(lia) I) as Hle.
  rewrite len_form_bits in Hle by lia. pose proof (bounded_width_mono n N ltac:(lia)).
  assert (∀ y q v', tget (two x (TLeaf k v) u l) (l ++ y :: q) = Found v' → pfx_spacious N v') as Hsp.
  { intros y q v' Hf. specialize (Hroom (l ++ y :: q)). by rewrite Hf in Hroom. }
  destruct u as [l2 v'|l2 a c|h]; [| |by destruct (Hh h)]; cbn [pfx_payload label_of] in *.
  - specialize (Hsp (negb x) l2 v'). rewrite (proj2 (tget_two _ _ _ _ _)), tget_leaf, decide_True in Hsp by done.
    specialize (Hsp eq_refl). unfold pfx_spacious in Hsp. rewrite len_cons. lia.
  - specialize (Hsp x k v). rewrite (proj1 (tget_two _ _ _ _ _)), tget_leaf, decide_True in Hsp by done.
    specialize (Hsp eq_refl). unfold pfx_spacious in Hsp. pose proof (len_nonneg v.1). rewrite len_one. lia.
Qed.

Lemma fork_as_two l a b (x : bool) : TFork l a b = two x (if x then b else a) (if x then a else b) l.
Proof. by destruct x. Qed.

(** At a fork the result of its branch is put back, or the fork is joined to what is left. *)
Lemma removed_under st N n l a b (x : bool) k c h ca cb r :
  cell_wf c → 0 <= n <= N → N <= MAX_BITS → label_head n l h → len l < n → Cell.bits c = h ++ [true] → Cell.refs c = [ca; cb] →
  pfx_shows st (n - len l - 1) ca a → pfx_shows st (n - len l - 1) cb b →
  removed st N (n - len l - 1) (if x then b else a) k r →
  removed st N n (TFork l a b) (l ++ x :: k)
    (let? removal := r in
     match removal with
     | NotFound => Ok NotFound
     | Gone => let? cell := pfx_collapse c n l (1 - b2z x) in Ok (Rebuilt cell)
     | Rebuilt new_child => let? cell := rebuild_fork l n c (b2z x) new_child in Ok (Rebuilt cell)
     end).
Proof.
  intros Hwf Hn HN Hl Hlt Hb Hr Ha Hbb Hrem. pose proof (len_nonneg l).
  destruct Hrem as [Hk|v Ek|c1 t' v Hk W1 S1 Hw Hg|Hk|e v Hk Hnr]; cbn [res_bind].
  - apply removed_absent. by rewrite tget_fork.
  - assert (tget (TFork l a b) (l ++ x :: k) = Found v) as Hf by by rewrite tget_fork, Ek, tget_leaf, decide_True.
    pose proof (pfx_collapse_spec st n c l h ca cb a b x Hwf ltac:(lia) Hl Hlt Hb Hr Ha Hbb) as Hc. cbv zeta in Hc.
    destruct Hc as [[[e Ee] Herr]|(Hh & Hle & pr & Hpr & Hc)].
    { destruct (pfx_collapse _ _ _ _); [done|]. cbn [res_bind]. eapply removed_full; [done|]. intros Hroom.
      pose proof (roomy_branch N l a b (negb x) Hroom []) as Hx. destruct x; cbn [negb] in Hx; by rewrite Ee in Hx. }
    case_bool_decide as Hfit.
    + destruct Hc as (c' & -> & Wc & Sc). cbn [res_bind]. eapply removed_rebuilt; [done|done|exact Sc| |].
      * rewrite whole_with_label. cbn [whole]. destruct x; tauto.
      * intros k1. rewrite (tget_join l x k v _ Hh k1). by rewrite (fork_as_two l a b x), Ek.
    + destruct (pfx_collapse _ _ _ _); [done|]. cbn [res_bind]. eapply removed_full; [done|].
      rewrite (fork_as_two l a b x), Ek. by apply (join_not_roomy N n _ _ _ _ _ pr).
  - destruct (rebuild_fork_spec st n c l h ca cb a b x c1 t') as (c' & -> & Wc & Sc); [done|lia|done..|]. cbn [res_bind].
    eapply removed_rebuilt; [by rewrite tget_fork|done|exact Sc| |].
    + rewrite whole_two. cbn [whole]. destruct x; tauto.
    + intros k1. pose proof (tget_plug_change [MkFrame l x (if x then a else b)] (if x then b else a) t' k Absent Hg k1) as Hk1.
      unfold frames_key in Hk1. cbn [plug f_branch f_label f_other mbind list_bind] in Hk1. rewrite app_nil_r, <- app_assoc in Hk1.
      rewrite Hk1. by rewrite (fork_as_two l a b x).
  - apply removed_pruned. by rewrite tget_fork.
  - eapply removed_full; [by rewrite tget_fork|]. intros Hroom. by apply Hnr, (roomy_branch N l a b x).
Qed.

Lemma remove_from_spec st N n c t :
  pfx_shows st n c t → cell_wf c → n <= N → N <= MAX_BITS →
  ∀ fuel key, (Z.to_nat n < fuel)%nat → removed st N n t key (remove_from fuel c n key).
Proof.
  intros Hs Hwf Hn HN. revert Hwf Hn.
  induction Hs as [n c Hn0 Hx|n c l h v0 Hx Hl Hb Hr Hst|n c l h ca cb a b Hx Hl Hlt Hb Hr Hst Ha IHa Hbb IHb];
    intros Hwf Hm [|fuel] key Hfuel; try lia; cbn [remove_from]; rewrite Hx; [by apply removed_pruned|..].
  - destruct (edit_visit n c l h false v0.1 Hwf ltac:(lia) Hl Hb) as (s & -> & Hbit & Hle & Hlaw & Hw).
    destruct (leaves_cases l l Hlaw (bools_run_bits l) key) as [(k & -> & Hk)|[Hk Hout]]; unfold leaves in Hk;
      cbn [run_len bools_run] in Hk; rewrite Hk.
    + clear Hk. rewrite Hbit. cbn [res_bind negb]. rewrite rest_app. case_bool_decide as Ek.
      * subst k. rewrite app_nil_r. by eapply removed_gone.
      * apply removed_absent. cbn [tget]. rewrite strip_app. by destruct k.
    + apply removed_absent. by apply (tget_left (TLeaf l v0) key l).
  - destruct (edit_visit n c l h true [] Hwf ltac:(lia) Hl Hb) as (s & -> & Hbit & Hle & Hlaw & Hw).
    destruct (leaves_cases l l Hlaw (bools_run_bits l) key) as [(k & -> & Hk)|[Hk Hout]]; unfold leaves in Hk;
      cbn [run_len bools_run] in Hk; rewrite Hk.
    + rewrite Hbit. cbn [res_bind negb]. rewrite Hw, rest_app, (proj2 (Z.eqb_neq _ _)) by lia. destruct k as [|x k].
      { rewrite bool_decide_true by done. apply removed_absent. cbn [tget]. by rewrite strip_app. }
      rewrite bool_decide_false by done. cbn [head default from_option id].
      destruct (two_refs c ca cb x Hr Hwf) as (R1 & _ & Wa & Wb). rewrite R1. cbn [ok_or res_bind].
      change (rest (x :: k) 1) with (rest ([x] ++ k) (len [x])). rewrite rest_app.
      eapply removed_under; [done|lia|done..|]. destruct x; [apply IHb|apply IHa]; done || lia.
    + apply removed_absent. by apply (tget_left (TFork l a b) key l).
Qed.
End pfx_edit.
