(* ===== verification/PfxSpec.v ===== *)
(** The operations of a prefix-code dictionary against the tree its cells spell: lookups,
    edits, the check of its shape, and the iterator. *)

From stdpp Require Import base list list_numbers numbers strings sorting.
From Stdlib Require Import ZArith Lia.
From S2P Require Import Prelude Errors Bits CellData CellHash CellModel CellSlice CellBuilder BuilderOps DictLabel Dict DictTree DictCells DictWalk DictSpec PfxDict PfxCells PfxEdit.

Local Open Scope Z_scope.

#[local] Arguments uint_bits : simpl never.

(** A key as a caller gives it: bytes that hold its bits, no more of them than the
    dictionary allows. *)
Definition key_fits (d : PfxDict) (key : list Z) (key_len : Z) : Prop :=
  0 <= key_len <= pd_key_bits d ∧ key_len <= 8 * len key.

Lemma pfx_key_of_spec d key key_len :
  key_fits d key key_len → pfx_key_of key key_len (pd_key_bits d) = Ok (bits_of key key_len).
Proof.
  intros [Hl Hk]. unfold pfx_key_of. rewrite (proj2 (Z.ltb_ge _ _)) by lia. unfold div_ceil.
  by destruct (Z.ltb_spec (len key) ((key_len + 8 - 1) / 8)); [exfalso; zdiv|].
Qed.

Lemma packed_fits d k : len k <= pd_key_bits d → key_fits d (packed k) (len k).
Proof.
  intros Hk. pose proof (len_nonneg k). split; [lia|]. rewrite len_packed.
  pose proof (div_ceil_8 (len k) (len_nonneg k)). unfold div_ceil in *. zdiv.
Qed.

Definition oblocked (ot : option tree) (key : list bool) : Prop :=
  match ot with None => False | Some t => blocked t key end.

Definition oroomy (n : Z) (ot : option tree) : Prop :=
  match ot with None => True | Some t => pfx_roomy n t end.

Definition obegins (ot : option tree) (key : list bool) : Lookup (list bool * value) :=
  match ot with None => Absent | Some t => tbegins t key end.

Section pfx_spec.
Context `{Hasher}.

Definition prepresents (st : bool) (d : PfxDict) (ot : option tree) : Prop :=
  0 <= pd_key_bits d <= MAX_BITS ∧
  match pd_root d, ot with
  | None, None => True
  | Some c, Some t => cell_wf c ∧ pfx_shows st (pd_key_bits d) c t
  | _, _ => False
  end.

(** ** Lookups *)

Lemma pfx_get_spec st d ot key key_len :
  prepresents st d ot → key_fits d key key_len →
  ∃ r, PfxDict.get d key key_len = Ok r ∧ lookup_map entry_value r = dget ot (bits_of key key_len).
Proof.
  intros [Hn Hr] Hk. unfold PfxDict.get. rewrite pfx_key_of_spec by done. cbn [res_bind].
  destruct (pd_root d) as [c|], ot as [t|]; try done; [|by eexists]. destruct Hr as [Hwf Hs].
  exact (get_loop_spec st _ c t Hs Hwf ltac:(lia) (S (Z.to_nat (pd_key_bits d))) [] _ Label.new ltac:(lia)).
Qed.

Lemma pfx_lookup_spec st d ot key key_len :
  prepresents st d ot → key_fits d key key_len →
  matched 0 (obegins ot (bits_of key key_len)) (PfxDict.lookup_prefix d key key_len).
Proof.
  intros [Hn Hr] Hk. unfold PfxDict.lookup_prefix. rewrite pfx_key_of_spec by done. cbn [res_bind].
  destruct (pd_root d) as [c|], ot as [t|]; try done. destruct Hr as [Hwf Hs].
  apply (prefix_loop_spec st _ c t Hs Hwf (S (Z.to_nat (pd_key_bits d))) []); [lia|]. change (len (A:=bool) []) with 0. lia.
Qed.

(** ** Edits *)

(** Where a store into a dictionary, empty or not, puts its value. *)
Definition oplaced (n : Z) (ot : option tree) (key : list bool) (m : Z) (k : list bool) : Prop :=
  match ot with None => m = n ∧ k = key | Some t => placed n t key m k end.

Lemma pfx_set_spec st d ot key key_len v :
  prepresents st d ot → storable v → key_fits d key key_len →
  let bits := bits_of key key_len in
  (∃ d' ot', PfxDict.set key key_len (builder_of v) d = (Ok tt, d') ∧ pd_key_bits d' = pd_key_bits d ∧
     prepresents st d' ot' ∧ (owhole ot → owhole ot') ∧ ¬ oblocked ot bits ∧ dget ot bits ≠ PrunedAway ∧
     (∃ m k, oplaced (pd_key_bits d) ot bits m k ∧ fits m k (false :: v.1) v.2) ∧
     ∀ k, dget ot' k = if decide (k = bits) then Found v else dget ot k) ∨
  (∃ e, PfxDict.set key key_len (builder_of v) d = (Err e, d)) ∧
    (dget ot bits = PrunedAway ∨ oblocked ot bits ∨
     ∃ m k, oplaced (pd_key_bits d) ot bits m k ∧ ¬ fits m k (false :: v.1) v.2).
Proof.
  intros [Hn Hr] Hv Hk bits. unfold PfxDict.set. rewrite pfx_key_of_spec by done. cbn [res_bind]. fold bits.
  assert (len bits <= pd_key_bits d) as Hlen by (unfold bits; rewrite len_bits_of; destruct Hk; lia).
  pose proof Hv as (_ & Hvr & _).
  destruct (pd_root d) as [c|], ot as [t|]; try done.
  - destruct Hr as [Hwf Hs].
    destruct (insert_spec st _ c t v Hs Hwf ltac:(lia) Hv (S (Z.to_nat (pd_key_bits d))) bits ltac:(lia) Hlen)
      as [c' t' m k Hpl Hf Wc Sc Hw Hbl Hp Hg|Hp|m Hbl|e m k Hpl Hf].
    + left. eexists _, (Some t'). do 6 (split; [done|]). split; [by exists m, k|done].
    + right. split; [by eexists|by left].
    + right. split; [by eexists|by right; left].
    + right. split; [by eexists|]. do 2 right. by exists m, k.
  - pose proof (pfx_leaf_shows st (pd_key_bits d) bits v ltac:(lia) Hlen Hv) as Hleaf. case_bool_decide as Hf.
    + left. destruct Hleaf as (c & -> & Wc & Sc). eexists _, (Some (TLeaf bits v)). do 3 (split; [done|]).
      split; [done|]. split; [by intros []|]. split; [done|]. split; [by exists (pd_key_bits d), bits|]. intros k. apply tget_leaf.
    + right. destruct (leaf_cell _ _ _) as [|e]; [done|]. split; [by eexists|]. do 2 right.
      by exists (pd_key_bits d), bits.
Qed.

Lemma pfx_remove_spec st d ot key key_len :
  prepresents st d ot → key_fits d key key_len →
  let bits := bits_of key key_len in
  (∃ was d' ot', PfxDict.remove key key_len d = (Ok was, d') ∧ pd_key_bits d' = pd_key_bits d ∧
     prepresents st d' ot' ∧ (owhole ot → owhole ot') ∧ dget ot bits ≠ PrunedAway ∧
     (was = true ↔ dget ot bits ≠ Absent) ∧
     ∀ k, dget ot' k = if decide (k = bits) then Absent else dget ot k) ∨
  (∃ e, PfxDict.remove key key_len d = (Err e, d)) ∧ ¬ oroomy (pd_key_bits d) ot.
Proof.
  intros [Hn Hr] Hk bits. unfold PfxDict.remove. rewrite pfx_key_of_spec by done. fold bits.
  destruct (pd_root d) as [c|] eqn:Ed, ot as [t|]; try done.
  - destruct Hr as [Hwf Hs].
    destruct (remove_from_spec st (pd_key_bits d) _ c t Hs Hwf ltac:(lia) ltac:(lia) (S (Z.to_nat (pd_key_bits d))) bits ltac:(lia))
      as [Ha|v ->|c' t' v Hf Wc Sc Hw Hg|Hp|e v Hf Hnr]; cbn [dget oroomy].
    + left. eexists _, d, (Some t). do 2 (split; [done|]). unfold prepresents. rewrite Ed. do 2 (split; [done|]).
      rewrite Ha. do 2 (split; [done|]). intros k. case_decide; by subst.
    + left. eexists _, _, None. do 4 (split; [done|]). rewrite tget_leaf, decide_True by done. do 2 (split; [done|]).
      intros k. cbn [dget]. rewrite tget_leaf. by repeat case_decide.
    + left. eexists _, _, (Some t'). do 4 (split; [done|]). rewrite Hf. done.
    + right. split; [by eexists|]. intros Hroom. specialize (Hroom bits). by rewrite Hp in Hroom.
    + right. split; [by eexists|done].
  - left. eexists _, d, None. do 2 (split; [done|]). unfold prepresents. rewrite Ed. do 4 (split; [done|]).
    intros k. by case_decide.
Qed.

(** ** The check of the shape *)

Lemma validate_node_shows st n c t :
  pfx_shows st n c t → cell_wf c → n <= MAX_BITS →
  ∀ fuel lab, (Z.to_nat n < fuel)%nat → ∃ lab', validate_node fuel c n lab = Ok lab'.
Proof.
  induction 1 as [n c Hn Hx|n c l h v Hx Hl Hb Hr _|n c l h ca cb a b Hx Hl Hlt Hb Hr _ Ha IHa Hbb IHb];
    intros Hwf Hm [|fuel] lab Hfuel; try lia; cbn [validate_node]; rewrite Hx; [by eexists|..].
  all: pose proof (len_nonneg l); apply label_head_spec in Hl as Hle; destruct Hle as [Hle _].
  - destruct (pfx_visit n c l h false v.1 lab) as (s & s' & lab' & -> & -> & _); [done|lia|done..|]. by eexists.
  - destruct (pfx_visit n c l h true [] lab) as (s & s' & lab' & -> & -> & _ & Hrem & _ & _ & Hlen & _); [done|lia|done..|].
    cbn [negb]. cbv zeta. unfold Label.width. rewrite Hlen, (proj2 (Z.eqb_neq _ _)), Hrem by lia.
    rewrite Hr. cbn [negb orb len Z.eqb]. unfold Cell.reference. rewrite Hr.
    destruct (two_refs c ca cb false Hr Hwf) as (_ & _ & Wa & Wb).
    destruct (IHa Wa ltac:(lia) fuel lab' ltac:(lia)) as [lab1 E1]. destruct (IHb Wb ltac:(lia) fuel lab1 ltac:(lia)) as [lab2 E2].
    exists lab2. change (get [ca; cb] 0) with (Some ca). change (get [ca; cb] 1) with (Some cb). simpl. by rewrite E1.
Qed.

Lemma validate_node_inv fuel : ∀ c n lab lab', cell_wf c → 0 <= n <= MAX_BITS →
  validate_node fuel c n lab = Ok lab' → ∃ t, pfx_shows false n c t.
Proof.
  induction fuel as [|fuel IH]; intros c n lab lab' Hwf Hn Hv; [done|]. cbn [validate_node] in Hv.
  destruct (Cell.is_exotic c) eqn:Hx; [exists (THole c); apply pfx_hole; [lia|done]|].
  destruct (slice_new_spec c Hwf) as (Hs & _ & _).
  destruct (read_label_into n (Slice.new c, lab)) as [[[]|e] [s l1]] eqn:Er; [|done].
  destruct (read_head_inv n (Slice.new c) lab s l1 Hn Hs Er) as (h & Hh & Ha & -> & Hok).
  cbn [sink_bits sink_ok label_lawful_sink] in Hh, Hok.
  assert (slice_wf (step_bits (len h) (Slice.new c))) as Ws by (apply step_bits_wf; [done|by apply ahead_remaining]).
  destruct (Slice.load_bit _) as [[b|e] s'] eqn:Eb; [|done]. apply load_bit_inv in Eb as [[_ [pb Hpb]] ->]; [|done].
  destruct Ha as [_ [bs Hbs]]. rewrite new_bits in Hbs.
  destruct (node_rest c h bs Hwf Hbs) as (_ & Hrest & _). rewrite Hrest in Hpb. subst bs. cbn [app] in Hbs.
  pose proof (len_lbits l1 Hok) as Hll. apply label_head_spec in Hh as Hle. destruct Hle as [Hle _].
  pose proof (len_nonneg (lbits l1)).
  destruct b; cbn [negb] in Hv; [|exists (TLeaf (lbits l1) (pb, Cell.refs c)); by eapply (pfx_leaf _ _ _ _ h)].
  unfold Label.width in Hv. cbv zeta in Hv. rewrite <- Hll in Hv.
  destruct (Z.eqb_spec (n - len (lbits l1)) 0); [done|].
  destruct (negb _ || _) eqn:Eo; [done|]. apply orb_false_iff in Eo as [Er0%negb_false_iff%Z.eqb_eq Er2%negb_false_iff%Z.eqb_eq].
  assert (pb = []) as ->.
  { pose proof (node_rest c (h ++ [true]) pb Hwf ltac:(by rewrite Hbs, <- app_assoc)) as (_ & _ & _ & Hrem & _).
    rewrite len_app, len_one, <- step_bits_step, Er0 in Hrem. destruct pb; [done|]. rewrite len_cons in Hrem. pose proof (len_nonneg pb). lia. }
  assert (∃ ca cb, Cell.refs c = [ca; cb]) as (ca & cb & Erefs).
  { destruct (Cell.refs c) as [|? [|? [|? q]]]; [done|done|by eexists _, _|].
    rewrite !len_cons in Er2. pose proof (len_nonneg q). lia. }
  destruct (two_refs c ca cb false Erefs Hwf) as (R0 & R1 & Wa & Wb). cbn [b2z Z.sub] in R0, R1.
  change (1 - 0) with 1 in R1. rewrite R0, R1 in Hv. cbn [ok_or res_bind] in Hv.
  destruct (validate_node fuel ca _ _) as [l2|] eqn:Ea; [|done]. cbn [res_bind] in Hv.
  destruct (IH ca (n - len (lbits l1) - 1) _ _ Wa ltac:(lia) Ea) as [a Sa]. destruct (IH cb (n - len (lbits l1) - 1) _ _ Wb ltac:(lia) Hv) as [b Sb].
  exists (TFork (lbits l1) a b). by eapply (pfx_fork _ _ _ _ h); [..|lia|done|done|done|done|done].
Qed.

(** ** Iteration *)

Inductive pfx_pending (st : bool) : list Pending → list (result CellError (list bool * value)) → Prop :=
| pfx_pending_nil : pfx_pending st [] []
| pfx_pending_cons n c prefix t stack es :
    pfx_shows st n c t → cell_wf c → label_ok prefix → len (lbits prefix) + n <= MAX_BITS →
    pfx_pending st stack es →
    pfx_pending st ((c, prefix, n) :: stack) (entries (lbits prefix) t ++ es).

Definition pfx_yields (st : bool) (outcome : result CellError (option (list Z * Z * DictEntry)) * list Pending)
    (es : list (result CellError (list bool * value))) : Prop :=
  match es with
  | [] => outcome = (Ok None, [])
  | Ok (k, v) :: es' =>
      ∃ entry stack, outcome = (Ok (Some (packed k, len k, entry)), stack) ∧ entry_value entry = v ∧
        pfx_pending st stack es'
  | Err e :: _ => fst outcome = Err e
  end.

Lemma step_loop_spec st n c t :
  pfx_shows st n c t → cell_wf c →
  ∀ fuel prefix stack es, (Z.to_nat n < fuel)%nat → label_ok prefix → len (lbits prefix) + n <= MAX_BITS →
  pfx_pending st stack es →
  pfx_yields st (step_loop fuel ((c, prefix, n) :: stack)) (entries (lbits prefix) t ++ es).
Proof.
  induction 1 as [n c Hn Hx|n c l h v Hx Hl Hb Hr Hst|n c l h ca cb a b Hx Hl Hlt Hb Hr Hst Ha IHa Hbb IHb];
    intros Hwf [|fuel] prefix stack es Hfuel Hok Hm Hes; try lia; cbn [step_loop]; rewrite Hx; [done|..].
  all: pose proof (len_nonneg l); pose proof (len_nonneg (lbits prefix)); apply label_head_spec in Hl as Hle; destruct Hle as [Hle _].
  all: pose proof (len_lbits prefix Hok) as Hlp.
  - destruct (pfx_visit n c l h false v.1 Label.new) as (s & s' & lab & -> & -> & Hv & _ & Hokl & Hbl & Hll & _); [done|lia|done..|].
    destruct (extend_ok lab prefix (label_lawful _ Hokl) Hok) as (key & -> & Hokk & Hbk); [cbn [run_len label_run]; lia|].
    rewrite label_run_bits, Hbl in Hbk by done. cbn [negb]. cbv zeta. cbn [entries app pfx_yields].
    eexists _, stack. split; [|split; [rewrite Hv, Hr; by destruct v|done]].
    rewrite pack_label by done. unfold Label.width. by rewrite <- (len_lbits key Hokk), Hbk.
  - destruct (pfx_visit n c l h true [] Label.new) as (s & s' & lab & -> & -> & _ & _ & Hokl & Hbl & Hll & _); [done|lia|done..|].
    destruct (extend_ok lab prefix (label_lawful _ Hokl) Hok) as (key & -> & Hokk & Hbk); [cbn [run_len label_run]; lia|].
    rewrite label_run_bits, Hbl in Hbk by done. cbn [negb]. cbv zeta. unfold Label.width. rewrite Hll, (proj2 (Z.eqb_neq _ _)) by lia.
    destruct (push_children c ca cb (n - len l - 1) stack key Hr Hokk) as (l0 & l1 & O0 & O1 & B0 & B1 & E); [rewrite Hbk, len_app; lia|].
    erewrite st_bind_ok by exact E. destruct (two_refs c ca cb false Hr Hwf) as (_ & _ & Wa & Wb).
    cbn [entries]. rewrite <- (app_assoc (entries _ a)).
    assert (lbits l0 = lbits prefix ++ l ++ [false]) as B0' by by rewrite B0, Hbk, <- app_assoc.
    assert (lbits l1 = lbits prefix ++ l ++ [true]) as B1' by by rewrite B1, Hbk, <- app_assoc.
    rewrite <- B0', <- B1'. apply IHa; [done|lia|done|rewrite B0', !len_app, len_one; lia|].
    apply pfx_pending_cons; [done..|rewrite B1', !len_app, len_one; lia|done].
Qed.

Lemma pfx_step_spec st stack es : pfx_pending st stack es → pfx_yields st (pfx_step stack) es.
Proof.
  intros [|n c prefix t stack' es' Hs Hwf Hok Hm Hes]; [done|]. cbn [pfx_step].
  apply step_loop_spec; [done|done|lia|done|done|done].
Qed.

(** An entry the iterator yields, its key with its width and its value as bits. *)
Definition pfx_seen (item : result CellError (list Z * Z * DictEntry)) : result CellError (list Z * Z * value) :=
  res_map (λ '(key, key_len, entry), (key, key_len, entry_value entry)) item.

Definition pfx_expected (e : result CellError (list bool * value)) : result CellError (list Z * Z * value) :=
  res_map (λ '(key, v), (packed key, len key, v)) e.

Lemma pfx_collect_spec st stack es fuel :
  pfx_pending st stack es → (length es < fuel)%nat →
  pfx_seen <$> PfxDict.collect fuel (MkPfxIter stack false) = pfx_expected <$> until_err es.
Proof.
  revert stack es. induction fuel as [|fuel IH]; intros stack es Hp Hf; [lia|]. cbn [PfxDict.collect].
  apply pfx_step_spec in Hp. unfold PfxDict.next. cbn [pi_done pi_stack].
  destruct es as [|[[k v]|e] es]; cbn [pfx_yields until_err] in *.
  - by rewrite Hp.
  - destruct Hp as (entry & stack' & -> & Hv & Hp'). cbn [fmap list_fmap pfx_seen pfx_expected res_map].
    rewrite Hv. f_equal. apply IH; [done|simpl in Hf; lia].
  - destruct (pfx_step stack) as [r stack']. simpl in Hp. subst r.
    cbn [fmap list_fmap pfx_seen pfx_expected res_map]. f_equal. by destruct fuel.
Qed.

Lemma pfx_iter_pending st d ot : prepresents st d ot → pfx_pending st (pi_stack (PfxDict.iter d)) (dentries ot).
Proof.
  intros [Hn Hr]. unfold PfxDict.iter, dentries. destruct (pd_root d) as [c|], ot as [t|]; try done; cbn [pi_stack].
  - destruct Hr as [Hwf Hs]. rewrite <- (app_nil_r (entries [] t)). destruct new_ok as [Hok Hb].
    rewrite <- Hb. apply pfx_pending_cons; [done..| |constructor]. rewrite Hb. change (len (A:=bool) []) with 0. lia.
  - constructor.
Qed.
End pfx_spec.
