(* ===== verification/PfxTheorems.v ===== *)
(** The prefix-code dictionary's guarantees: what is stored and removed is what is found, no
    key is the beginning of another, the cells depend on the contents alone, iteration is
    complete, and the check of the shape lets through exactly the dictionaries. *)

From stdpp Require Import base list list_numbers numbers strings sorting.
From Stdlib Require Import ZArith Lia.
From S2P Require Import Prelude Errors Bits CellData CellHash CellModel CellSlice CellBuilder BuilderOps DictLabel Dict DictTree DictCells DictWalk DictSpec PfxDict PfxCells PfxEdit PfxSpec.

Local Open Scope Z_scope.

#[local] Arguments uint_bits : simpl never.

Section pfx_theorems.
Context `{Hasher}.

(** What a caller of [get] sees: the value's bits and references. *)
Definition pfx_contents (d : PfxDict) (key : list Z) (key_len : Z) : result CellError (Lookup value) :=
  res_map (lookup_map entry_value) (PfxDict.get d key key_len).

(** A stored key that this one begins, or that begins this one. *)
Definition in_the_way (d : PfxDict) (key : list bool) : Prop :=
  ∃ k v, len k <= pd_key_bits d ∧ pfx_contents d (packed k) (len k) = Ok (Found v) ∧
    k ≠ key ∧ (k `prefix_of` key ∨ key `prefix_of` k).

Lemma pfx_contents_spec st d ot key key_len :
  prepresents st d ot → key_fits d key key_len → pfx_contents d key key_len = Ok (dget ot (bits_of key key_len)).
Proof. intros Hr Hk. destruct (pfx_get_spec st d ot key key_len Hr Hk) as (r & E & <-). unfold pfx_contents. by rewrite E. Qed.

Lemma pfx_contents_packed st d ot k :
  prepresents st d ot → len k <= pd_key_bits d → pfx_contents d (packed k) (len k) = Ok (dget ot k).
Proof. intros Hr Hk. rewrite (pfx_contents_spec st d ot) by (done || by apply packed_fits). by rewrite bits_of_packed. Qed.

Lemma dget_width st d ot k v : prepresents st d ot → dget ot k = Found v → len k <= pd_key_bits d.
Proof.
  intros [Hn Hr]. destruct (pd_root d), ot as [t|]; try done. destruct Hr as [_ Hs]. apply tget_width. by eapply pfx_shows_wf.
Qed.

Lemma in_the_way_spec st d ot key : prepresents st d ot → owhole ot → in_the_way d key ↔ oblocked ot key.
Proof.
  intros Hr Hw. assert (oblocked ot key ↔ ∃ k v, dget ot k = Found v ∧ k ≠ key ∧ (k `prefix_of` key ∨ key `prefix_of` k)) as ->.
  { destruct ot as [t|]; cbn [oblocked dget]; [by apply blocked_spec|]. split; [done|by intros (? & ? & ? & _)]. }
  unfold in_the_way. split.
  - intros (k & v & Hk & Hf & Hp). rewrite (pfx_contents_packed st d ot) in Hf by done. injection Hf as Hf. by exists k, v.
  - intros (k & v & Hf & Hp). apply (dget_width st d) in Hf as Hk; [|done]. exists k, v.
    by rewrite (pfx_contents_packed st d ot), Hf.
Qed.

(** Another stored key that begins with [p]. *)
Definition begins_other (d : PfxDict) (key p : list bool) : Prop :=
  ∃ j v, len j <= pd_key_bits d ∧ pfx_contents d (packed j) (len j) = Ok (Found v) ∧ j ≠ key ∧ p `prefix_of` j.

(** The shortest beginning of a key that no other stored key has. *)
Definition own_beginning (d : PfxDict) (key p : list bool) : Prop :=
  p `prefix_of` key ∧ ¬ begins_other d key p ∧ ∀ q, q `prefix_of` p → q ≠ p → begins_other d key q.

(** The value fits one cell, with the bit that marks an entry and the shortest label of
    what is left of its key past its own beginning. *)
Definition has_room (d : PfxDict) (key : list bool) (v : value) : Prop :=
  ∀ p k, key = p ++ k → own_beginning d key p → fits (pd_key_bits d - len p) k (false :: v.1) v.2.

Lemma own_beginning_unique d key p q : own_beginning d key p → own_beginning d key q → p = q.
Proof.
  intros (Hp & Np & Lp) (Hq & Nq & Lq). destruct (decide (p = q)) as [|Hne]; [done|].
  destruct (prefix_weak_total p q key Hp Hq); [destruct Np; by apply Lq|destruct Nq; apply Lp; [done|by intros ->]].
Qed.

Lemma begins_other_spec st d ot key p :
  prepresents st d ot → begins_other d key p ↔ ∃ j v, dget ot j = Found v ∧ j ≠ key ∧ p `prefix_of` j.
Proof.
  intros Hr. split.
  - intros (j & v & Hj & Hf & Hp). rewrite (pfx_contents_packed st d ot) in Hf by done. injection Hf as Hf. by exists j, v.
  - intros (j & v & Hf & Hp). apply (dget_width st d) in Hf as Hj; [|done]. exists j, v.
    by rewrite (pfx_contents_packed st d ot), Hf.
Qed.

Lemma oplaced_own st d ot key m k :
  prepresents st d ot → owhole ot → oplaced (pd_key_bits d) ot key m k →
  ∃ p, key = p ++ k ∧ m = pd_key_bits d - len p ∧ own_beginning d key p.
Proof.
  intros Hr Hw Hpl.
  assert (∃ p, key = p ++ k ∧ m = pd_key_bits d - len p ∧
    ¬ (∃ j v, dget ot j = Found v ∧ j ≠ key ∧ p `prefix_of` j) ∧
    ∀ q, q `prefix_of` p → q ≠ p → ∃ j v, dget ot j = Found v ∧ j ≠ key ∧ q `prefix_of` j) as (p & -> & -> & Hn & Hl).
  { destruct ot as [t|]; cbn [oplaced dget owhole] in *; [by apply placed_own|]. destruct Hpl as [-> ->].
    exists []. split; [done|]. split; [change (len (A:=bool) []) with 0; lia|]. split; [by intros (? & ? & ? & _)|].
    intros q [r Hr']. by destruct q. }
  exists p. do 2 (split; [done|]). split; [by eexists|]. setoid_rewrite (begins_other_spec st d ot); done.
Qed.

Lemma has_room_spec st d ot key v m k :
  prepresents st d ot → owhole ot → oplaced (pd_key_bits d) ot key m k →
  has_room d key v ↔ fits m k (false :: v.1) v.2.
Proof.
  intros Hr Hw Hpl. destruct (oplaced_own st d ot key m k Hr Hw Hpl) as (p & -> & -> & Hown). split; [intros Hf; by apply Hf|].
  intros Hf p' k' E Hown'. rewrite (own_beginning_unique _ _ _ _ Hown' Hown) in *. by apply app_inv_head in E as <-.
Qed.

(** *** Edits and what they leave *)

Inductive pfx_edit : Type :=
| PfxPut (key : list Z) (key_len : Z) (v : value)
| PfxDrop (key : list Z) (key_len : Z).

Definition apply_pfx (d : PfxDict) (e : pfx_edit) : PfxDict :=
  match e with
  | PfxPut key key_len v => snd (PfxDict.set key key_len (builder_of v) d)
  | PfxDrop key key_len => snd (PfxDict.remove key key_len d)
  end.

Definition pfx_edit_ok (e : pfx_edit) : Prop :=
  match e with PfxPut _ n v => 0 <= n ∧ storable v | PfxDrop _ n => 0 <= n end.

Lemma pfx_key_refused d key key_len :
  0 <= key_len → ¬ key_fits d key key_len → ∃ e, pfx_key_of key key_len (pd_key_bits d) = Err e.
Proof.
  intros Hl Hk. unfold pfx_key_of. destruct (Z.ltb_spec (pd_key_bits d) key_len); [by eexists|]. unfold div_ceil.
  destruct (Z.ltb_spec (len key) ((key_len + 8 - 1) / 8)); [by eexists|]. destruct Hk. unfold key_fits. zdiv.
Qed.

#[export] Instance key_fits_dec d key n : Decision (key_fits d key n).
Proof. unfold key_fits. apply _. Defined.

Lemma apply_pfx_represents st d ot e :
  prepresents st d ot → pfx_edit_ok e →
  ∃ ot', prepresents st (apply_pfx d e) ot' ∧ (owhole ot → owhole ot') ∧ pd_key_bits (apply_pfx d e) = pd_key_bits d.
Proof.
  intros Hr Hok. destruct e as [key n v|key n]; cbn [apply_pfx pfx_edit_ok] in *.
  - destruct Hok as [Hn Hv]. destruct (decide (key_fits d key n)) as [Hk|Hk].
    + destruct (pfx_set_spec st d ot key n v Hr Hv Hk) as [(d' & ot' & -> & Hb & Hr' & Hw & _)|[[e ->] _]]; [by exists ot'|by exists ot].
    + destruct (pfx_key_refused d key n Hn Hk) as [e E]. unfold PfxDict.set. rewrite E. by exists ot.
  - destruct (decide (key_fits d key n)) as [Hk|Hk].
    + destruct (pfx_remove_spec st d ot key n Hr Hk) as [(was & d' & ot' & -> & Hb & Hr' & Hw & _)|[[e ->] _]]; [by exists ot'|by exists ot].
    + destruct (pfx_key_refused d key n Hok Hk) as [e E]. unfold PfxDict.remove. rewrite E. by exists ot.
Qed.

Lemma pfx_edits_represent st d ot es :
  prepresents st d ot → Forall pfx_edit_ok es →
  ∃ ot', prepresents st (fold_left apply_pfx es d) ot' ∧ (owhole ot → owhole ot') ∧
    pd_key_bits (fold_left apply_pfx es d) = pd_key_bits d.
Proof.
  revert d ot. induction es as [|e es IH]; intros d ot Hr Hes; [by exists ot|].
  apply Forall_cons in Hes as [He Hes]. cbn [fold_left].
  destruct (apply_pfx_represents st d ot e Hr He) as (ot1 & Hr1 & Hw1 & Hb1).
  destruct (IH _ ot1 Hr1 Hes) as (ot2 & Hr2 & Hw2 & Hb2). exists ot2. rewrite Hb2. auto.
Qed.

Lemma pfx_new_represents n d : 0 <= n → PfxDict.new n = Ok d → prepresents true d None ∧ pd_key_bits d = n.
Proof.
  intros Hn Hd. unfold PfxDict.new, PfxDict.from_root, check_key_bits in Hd.
  destruct (Z.ltb_spec MAX_BITS n); [done|]. injection Hd as <-. split; [|done]. split; [simpl; lia|done].
Qed.

(** Two dictionaries the library wrote that hold the same are the same cells. *)
Lemma prepresents_unique d1 d2 ot1 ot2 :
  prepresents true d1 ot1 → prepresents true d2 ot2 → owhole ot1 → owhole ot2 → pd_key_bits d1 = pd_key_bits d2 →
  (∀ k, len k <= pd_key_bits d1 → dget ot1 k = dget ot2 k) → d1 = d2.
Proof.
  intros R1 R2 W1 W2 Hb Heq.
  assert (∀ k, dget ot1 k = dget ot2 k) as Hall.
  { assert (∀ d ot k, prepresents true d ot → owhole ot → pd_key_bits d < len k → dget ot k = Absent) as Hwide.
    { intros d ot k Hr Hw Hk. destruct (dget ot k) as [v| |] eqn:E; [|done|].
      - apply (dget_width true d) in E; [lia|done].
      - destruct ot as [t|]; [|done]. by apply whole_not_pruned in E. }
    intros k. destruct (Z.le_gt_cases (len k) (pd_key_bits d1)) as [Hk|Hk]; [by apply Heq|].
    rewrite (Hwide d1 ot1), (Hwide d2 ot2); done || lia. }
  destruct R1 as [N1 S1], R2 as [N2 S2], d1 as [r1 b1], d2 as [r2 b2]. simpl in *. subst b2.
  destruct r1 as [c1|], ot1 as [t1|]; try done; destruct r2 as [c2|], ot2 as [t2|]; try done.
  - assert (t1 = t2) as <- by by apply tree_unique. destruct S1 as [_ S1], S2 as [_ S2].
    by rewrite (pfx_shows_unique _ _ _ _ S1 S2).
  - destruct (whole_found t1 W1) as (k & v & Hk). specialize (Hall k). cbn [dget] in Hall. congruence.
  - destruct (whole_found t2 W2) as (k & v & Hk). specialize (Hall k). cbn [dget] in Hall. congruence.
Qed.

(** *** Theorems *)

(** C14: over a dictionary with nothing pruned away, [set] succeeds exactly when no other
    stored key begins the new one or begins with it, and the value fits a cell under the
    label it gets there; then every key answers as before but the one stored. When it
    fails it leaves the dictionary as it was, so the keys always make a prefix code. *)
Theorem pfx_set_then_get st d ot key key_len v :
  prepresents st d ot → owhole ot → storable v → key_fits d key key_len →
  match PfxDict.set key key_len (builder_of v) d with
  | (Ok tt, d') =>
      (∃ ot', prepresents st d' ot' ∧ owhole ot') ∧ pd_key_bits d' = pd_key_bits d ∧
      ¬ in_the_way d (bits_of key key_len) ∧ has_room d (bits_of key key_len) v ∧
      ∀ key' key_len', key_fits d key' key_len' → pfx_contents d' key' key_len' =
        if decide (bits_of key' key_len' = bits_of key key_len) then Ok (Found v) else pfx_contents d key' key_len'
  | (Err _, d') => d' = d ∧ (in_the_way d (bits_of key key_len) ∨ ¬ has_room d (bits_of key key_len) v)
  end.
Proof.
  intros Hr Hw Hv Hk. pose proof (in_the_way_spec st d ot (bits_of key key_len) Hr Hw) as Hway.
  destruct (pfx_set_spec st d ot key key_len v Hr Hv Hk)
    as [(d' & ot' & -> & Hb & Hr' & Hw' & Hbl & Hp & (m & k & Hpl & Hf) & Hg)|[[e ->] Hwhy]].
  - split; [exists ot'; auto|]. split; [done|]. split; [by rewrite Hway|].
    split; [by apply (has_room_spec st d ot _ v m k)|]. intros key' n' Hk'.
    rewrite (pfx_contents_spec st d ot), (pfx_contents_spec st d' ot') by (done || by unfold key_fits in *; rewrite Hb).
    rewrite Hg. by case_decide.
  - split; [done|]. rewrite Hway. destruct Hwhy as [Hp|[Hbl|(m & k & Hpl & Hf)]]; [|by left|].
    + destruct ot as [t|]; [|done]. by apply whole_not_pruned in Hp.
    + right. by rewrite (has_room_spec st d ot _ v m k).
Qed.

(** [remove] answers whether the key was stored; after it every key answers as before
    but the one removed, which is absent. It fails only where a branch it must see is
    pruned away, or where joining the sibling's label to its parent's leaves no room for
    the sibling's value, and leaves the dictionary as it was. *)
Theorem pfx_remove_then_get st d ot key key_len :
  prepresents st d ot → key_fits d key key_len →
  match PfxDict.remove key key_len d with
  | (Ok was, d') =>
      (∃ ot', prepresents st d' ot') ∧ pd_key_bits d' = pd_key_bits d ∧
      (was = true ↔ ∃ v, pfx_contents d key key_len = Ok (Found v)) ∧
      ∀ key' key_len', key_fits d key' key_len' → pfx_contents d' key' key_len' =
        if decide (bits_of key' key_len' = bits_of key key_len) then Ok Absent else pfx_contents d key' key_len'
  | (Err _, d') => d' = d ∧ ¬ oroomy (pd_key_bits d) ot
  end.
Proof.
  intros Hr Hk.
  destruct (pfx_remove_spec st d ot key key_len Hr Hk) as [(was & d' & ot' & -> & Hb & Hr' & Hw' & Hp & Hwas & Hg)|[[e ->] Hwhy]]; [|done].
  split; [by eexists|]. split; [done|]. split.
  - rewrite Hwas, (pfx_contents_spec st d ot) by done. destruct (dget ot _) as [v| |]; [|split; [done|by intros [v [=]]]|done].
    split; [by eexists|done].
  - intros key' n' Hk'.
    rewrite (pfx_contents_spec st d ot), (pfx_contents_spec st d' ot') by (done || by unfold key_fits in *; rewrite Hb).
    rewrite Hg. by case_decide.
Qed.

(** [lookup_prefix] finds the one stored key the query begins with, tells how long it is
    and gives its entry; it answers that there is none only when there is none, and fails
    only where the answer is pruned away. *)
Theorem pfx_lookup_prefix st d ot key key_len :
  prepresents st d ot → key_fits d key key_len →
  match PfxDict.lookup_prefix d key key_len with
  | Ok (Some m) =>
      ∃ k, len k = pm_matched m ∧ k `prefix_of` bits_of key key_len ∧
        pfx_contents d (packed k) (len k) = Ok (Found (entry_value (pm_entry m))) ∧
        ∀ k' v, len k' <= pd_key_bits d → pfx_contents d (packed k') (len k') = Ok (Found v) →
          k' `prefix_of` bits_of key key_len → k' = k
  | Ok None =>
      ∀ k v, len k <= pd_key_bits d → pfx_contents d (packed k) (len k) = Ok (Found v) → ¬ k `prefix_of` bits_of key key_len
  | Err e => e = Pruned ∧ ¬ owhole ot
  end.
Proof.
  intros Hr Hk. pose proof (pfx_lookup_spec st d ot key key_len Hr Hk) as Hm.
  assert (match obegins ot (bits_of key key_len) with
    | Found (k, v) => dget ot k = Found v ∧ k `prefix_of` bits_of key key_len
    | Absent => ∀ k v, dget ot k = Found v → ¬ k `prefix_of` bits_of key key_len
    | PrunedAway => ¬ owhole ot
    end) as Hb by (destruct ot as [t|]; [apply tbegins_spec|done]).
  destruct (obegins ot _) as [[k v]| |]; cbn [matched] in Hm.
  - destruct Hm as (e & -> & He), Hb as [Hf Hp]. cbn [pm_matched pm_entry]. rewrite Z.add_0_l. exists k.
    apply (dget_width st d) in Hf as Hkw; [|done]. do 2 (split; [done|]). split; [by rewrite (pfx_contents_packed st d ot), Hf, He|].
    intros k' v' Hk' Hf' Hp'. rewrite (pfx_contents_packed st d ot) in Hf' by done. injection Hf' as Hf'.
    destruct ot as [t|]; [|done]. cbn [dget] in *.
    destruct (prefix_weak_total k k' _ Hp Hp') as [Hkk|Hkk]; [symmetry|]; by eapply prefix_free.
  - rewrite Hm. intros k v Hkw Hf. rewrite (pfx_contents_packed st d ot) in Hf by done. injection Hf as Hf. by eapply Hb.
  - by rewrite Hm.
Qed.

(** C13: however two prefix-code dictionaries were built from empty ones, by whatever stores and
    removals in whatever order, failed ones included, if they answer alike for every key
    they are the same cells, bit for bit. *)
Theorem pfx_history_independent n d es1 es2 :
  0 <= n → PfxDict.new n = Ok d → Forall pfx_edit_ok es1 → Forall pfx_edit_ok es2 →
  (∀ key key_len, pfx_contents (fold_left apply_pfx es1 d) key key_len = pfx_contents (fold_left apply_pfx es2 d) key key_len) →
  fold_left apply_pfx es1 d = fold_left apply_pfx es2 d.
Proof.
  intros Hn Hd H1 H2 Heq. destruct (pfx_new_represents n d Hn Hd) as [Hr Hb].
  destruct (pfx_edits_represent true d None es1 Hr H1) as (ot1 & R1 & W1 & B1).
  destruct (pfx_edits_represent true d None es2 Hr H2) as (ot2 & R2 & W2 & B2).
  eapply prepresents_unique; [done|done|by apply W1|by apply W2|congruence|].
  intros k Hk. specialize (Heq (packed k) (len k)).
  rewrite (pfx_contents_packed true _ ot1), (pfx_contents_packed true _ ot2) in Heq by (done || congruence || lia). congruence.
Qed.

(** C15: the check of a dictionary's shape passes over exactly the cells that spell one: every
    label reads within the key bits left, and every fork has two branches, no data of its
    own and a key bit to choose between them. A pruned branch spells whatever it hides; a
    fork above one is held to the same rules as any other, though the comment on [validate]
    says it is left unchecked. *)
Theorem pfx_validate_exact d :
  0 <= pd_key_bits d <= MAX_BITS → (∀ c, pd_root d = Some c → cell_wf c) →
  PfxDict.validate d = Ok tt ↔ ∃ ot, prepresents false d ot.
Proof.
  intros Hn Hwf. unfold PfxDict.validate, prepresents. destruct (pd_root d) as [c|].
  - specialize (Hwf c eq_refl). split.
    + intros Hv. destruct (validate_node _ _ _ _) as [lab'|] eqn:E; [|done].
      destruct (validate_node_inv _ _ _ _ _ Hwf Hn E) as [t Ht]. by exists (Some t).
    + intros ([t|] & _ & Hr); [|done]. destruct Hr as [_ Hs].
      destruct (validate_node_shows false _ c t Hs Hwf ltac:(lia) (S (Z.to_nat (pd_key_bits d))) Label.new ltac:(lia)) as [lab' ->]. done.
  - split; [|done]. intros _. by exists None.
Qed.

(** The iterator yields every stored key with its width and its value, in ascending order,
    each once, and no others, as long as nothing is pruned away. *)
Theorem pfx_iter_complete st d t fuel :
  prepresents st d (Some t) → whole t → (length (entries [] t) < fuel)%nat →
  ∃ kvs, pfx_seen <$> PfxDict.collect fuel (PfxDict.iter d) = (λ kv, Ok (packed kv.1, len kv.1, kv.2)) <$> kvs ∧
    StronglySorted bits_lt kvs.*1 ∧
    ∀ k v, len k <= pd_key_bits d → ((k, v) ∈ kvs ↔ pfx_contents d (packed k) (len k) = Ok (Found v)).
Proof.
  intros Hr Hw Hf. pose proof (pfx_iter_pending st d _ Hr) as Hp.
  destruct (entries_sorted [] t Hw) as (kvs & Hk & Hs & _). exists kvs.
  assert (PfxDict.iter d = MkPfxIter (pi_stack (PfxDict.iter d)) false) as -> by by unfold PfxDict.iter; destruct (pd_root d).
  rewrite (pfx_collect_spec st _ _ fuel Hp Hf). cbn [dentries]. rewrite Hk, until_err_ok. split; [|split; [done|]].
  - rewrite <- list_fmap_compose. apply list_fmap_ext. by intros _ [k v] _.
  - intros k v Hlen. rewrite (pfx_contents_packed st d (Some t)) by done. cbn [dget]. split.
    + intros Hin. f_equal. apply (entries_tget [] t k v). rewrite Hk. apply list_elem_of_fmap. by eexists.
    + intros [=Hg]. apply (entries_tget [] t k v) in Hg. rewrite Hk in Hg.
      apply list_elem_of_fmap in Hg as (kv & [= <-] & Hin). done.
Qed.
End pfx_theorems.
