(* ===== verification/Boc.v ===== *)
(** Bags of cells: the reader over the bytes, the checksum, the header
    (core/src/cell/boc.rs, core/src/cell/boc/header.rs) and the cells of the
    body, read and built (core/src/cell/boc/parse.rs). *)

From stdpp Require Import base list list_numbers numbers strings.
From Stdlib Require Import ZArith Lia.
From S2P Require Import Prelude Errors Bits CellData CellHash CellModel.

Local Open Scope Z_scope.

Definition MAGIC : list Z := [181; 238; 156; 114].
Definition WITH_HASHES : Z := 16.
Definition MAX_CELLS : Z := Z.shiftl 1 17.
Definition MAX_DEPTH : Z := 1024.

Record ParseOptions : Type := MkParseOptions { max_cells : Z }.

Module ParseOptions.
Definition default : ParseOptions := MkParseOptions MAX_CELLS.
Definition with_max_cells (self : ParseOptions) (cells : Z) : ParseOptions :=
  MkParseOptions (Z.min (max_cells self) cells).
Definition cell_ceiling (self : ParseOptions) : Z := Z.min (max_cells self) MAX_CELLS.
End ParseOptions.

(** ** The checksum *)

Definition CRC32C_INIT : Z := 4294967295.

Definition crc32c_update (crc : Z) (bytes : list Z) : Z :=
  fold_left (λ crc byte,
    fold_left (λ crc _,
      if negb (Z.land crc 1 =? 0) then Z.lxor (Z.shiftr crc 1) 2197175160 else Z.shiftr crc 1)
      (seqZ 0 8) (Z.lxor crc byte)) bytes crc.

Definition crc32c (bytes : list Z) : Z := Z.lxor (crc32c_update CRC32C_INIT bytes) U32_MAX.

(** ** The reader *)

Record Reader : Type := MkReader { r_bytes : list Z; r_at : Z }.

Module Reader.
Definition take (n : Z) : stm Reader CellError (list Z) := λ self,
  match checked_add USIZE_MAX (r_at self) n with
  | None => (Err Truncated, self)
  | Some stop =>
      match get_range (r_bytes self) (r_at self) stop with
      | None => (Err Truncated, self)
      | Some out => (Ok out, MkReader (r_bytes self) stop)
      end
  end.

Definition byte : stm Reader CellError Z :=
  do! out <- take 1;
  st_lift (ok_or (get out 0) Truncated).

Definition uint (n : Z) : stm Reader CellError Z :=
  do! out <- take n;
  st_ret (fold_left (λ value b, Z.lor (shl 64 value 8) b) out 0).

Definition remaining (self : Reader) : Z := len (r_bytes self) - r_at self.
Definition consumed (self : Reader) : Z := r_at self.
End Reader.

(** [trailing_zeros] of a byte. *)
Definition trailing_zeros_8 (v : Z) : Z :=
  default 8 (head (filter (λ i, Z.testbit v i = true) (seqZ 0 8))).

Definition bit_len (d2 : Z) (data : list Z) : result CellError Z :=
  let full := Z.shiftr d2 1 in
  if Z.land d2 1 =? 0 then Ok (full * 8)
  else
    let? last := ok_or (list.last data) (Malformed "partial byte with no data") in
    if 7 <=? trailing_zeros_8 last then Err (Malformed "partial byte has no completion bit")
    else Ok (full * 8 + (7 - trailing_zeros_8 last)).

(** ** The header *)

Record Header : Type := MkHeader {
  h_count : Z;
  h_ref_size : Z;
  h_root_list : list Z;
  h_has_index : bool;
  h_has_checksum : bool;
  h_has_cache_bits : bool;
  h_cell_area : Z;
  h_body_offset : Z;
}.

(** The checksum trails the bag in the other byte order. *)
Definition from_le_bytes (l : list Z) : Z := from_be_bytes (reverse l).

Definition check_crc (bytes : list Z) : result CellError unit :=
  if len bytes <? 4 then Err Truncated
  else
    let split := len bytes - 4 in
    let body := take (Z.to_nat split) bytes in
    let tail := drop (Z.to_nat split) bytes in
    if crc32c body =? from_le_bytes tail then Ok tt else Err Checksum.

Definition read_header (bytes : list Z) (options : ParseOptions) : stm Reader CellError Header :=
  do! magic <- Reader.take 4;
  if negb (bool_decide (magic = MAGIC)) then st_err NotABagOfCells
  else
  do! flags <- Reader.byte;
  let has_index := negb (Z.land flags 128 =? 0) in
  let has_checksum := negb (Z.land flags 64 =? 0) in
  let has_cache_bits := negb (Z.land flags 32 =? 0) in
  let ref_size := Z.land flags 7 in
  do! offset_size <- Reader.byte;
  if negb ((1 <=? ref_size) && (ref_size <=? 4)) then st_err (Errors.Header "reference size")
  else if negb ((1 <=? offset_size) && (offset_size <=? 8)) then st_err (Errors.Header "offset size")
  else
  run! (if has_checksum then st_lift (check_crc bytes) else st_ret tt);
  do! count <- Reader.uint ref_size;
  do! roots <- Reader.uint ref_size;
  do! absent <- Reader.uint ref_size;
  do! cell_area <- Reader.uint offset_size;
  if negb (absent =? 0) then st_err (Errors.Header "absent cells")
  else
  let ceiling := ParseOptions.cell_ceiling options in
  if ceiling <? count then st_err (TooManyCells ceiling)
  else if (roots =? 0) || (ceiling <? roots) then st_err (Errors.Header "root count")
  else
  do! reader <- st_get;
  if Reader.remaining reader <? saturating_mul USIZE_MAX count 2 then st_err Truncated
  else if Reader.remaining reader <? saturating_mul USIZE_MAX roots ref_size then st_err Truncated
  else
  do! root_list <- st_map (seqZ 0 roots) (λ _,
    do! index <- Reader.uint ref_size;
    if count <=? index then st_err BadReference else st_ret index);
  run! (if has_index
        then run! Reader.take (saturating_mul USIZE_MAX count offset_size); st_ret tt
        else st_ret tt);
  do! reader <- st_get;
  match checked_add USIZE_MAX (Reader.consumed reader) cell_area with
  | None => st_err (Errors.Header "cell area size")
  | Some stated_end =>
      let body_end := if has_checksum then saturating_sub (len bytes) 4 else len bytes in
      if negb (stated_end =? body_end) then st_err (Errors.Header "cell area size")
      else st_ret (MkHeader count ref_size root_list has_index has_checksum has_cache_bits cell_area
                     (Reader.consumed reader))
  end.

(** ** Raw cells *)

Record RawCell : Type := MkRawCell {
  rc_data : Span;
  rc_bits : Z;
  rc_refs : list Z;
  rc_ref_count : Z;
  rc_cell_type : CellType;
  rc_level_mask : Z;
  rc_stored : option Span;
}.

Definition raw_refs (self : RawCell) : list Z :=
  default [] (get_range (rc_refs self) 0 (rc_ref_count self)).

Definition classify (exotic : bool) (data : list Z) (level_mask ref_count : Z) :
    result CellError CellType :=
  if negb exotic then Ok Ordinary
  else
    let? tag := ok_or (get data 0) (Malformed "exotic cell has no type byte") in
    let? cell_type := ok_or (from_tag tag) (Malformed "unknown exotic cell type") in
    match cell_type with
    | Ordinary => Ok cell_type
    | _ =>
        let expected_refs :=
          match cell_type with MerkleProof => 1 | MerkleUpdate => 2 | _ => 0 end in
        if negb (ref_count =? expected_refs)
        then Err (Malformed "exotic cell has the wrong number of references")
        else if bool_decide (cell_type = PrunedBranch) then
          let? stored := ok_or (get data 1) (Malformed "pruned branch has no mask byte") in
          if negb (stored =? level_mask)
          then Err (Malformed "pruned branch mask disagrees with its descriptor")
          else if stored =? 0 then Err (Malformed "pruned branch has no level")
          else if negb (len data =? 2 + count_ones 8 stored * 34)
          then Err (Malformed "pruned branch length disagrees with its level mask")
          else Ok cell_type
        else Ok cell_type
    end.

(** One round of the loop of [read_raw]. *)
Definition read_raw_cell (header : Header) (index : Z) : stm Reader CellError RawCell :=
  do! d1 <- Reader.byte;
  do! d2 <- Reader.byte;
  let ref_count := Z.land d1 7 in
  if MAX_REFS <? ref_count then st_err (Malformed "cell has more than four references")
  else
  let exotic := negb (Z.land d1 8 =? 0) in
  let level_mask := Z.shiftr d1 5 in
  do! stored <-
    (if negb (Z.land d1 WITH_HASHES =? 0) then
       let per_level := count_ones 8 level_mask + 1 in
       do! reader <- st_get;
       do! taken <- Reader.take (per_level * (32 + 2));
       do! span <- st_lift (Span_new (Reader.consumed reader) (len taken));
       st_ret (Some span)
     else st_ret None);
  do! reader <- st_get;
  do! data <- Reader.take (Z.shiftr d2 1 + Z.land d2 1);
  do! span <- st_lift (Span_new (Reader.consumed reader) (len data));
  do! bits <- st_lift (bit_len d2 data);
  if MAX_BITS <? bits then st_err (Malformed "cell holds more than 1023 bits")
  else
  do! cell_type <- st_lift (classify exotic data level_mask ref_count);
  do! targets <- st_map (seqZ 0 ref_count) (λ _,
    do! target <- Reader.uint (h_ref_size header);
    if (h_count header <=? target) || (target <=? index) then st_err BadReference
    else st_lift (ok_or (checked U32_MAX target) BadReference));
  let refs := targets ++ replicate (Z.to_nat (MAX_REFS - ref_count)) 0 in
  st_ret (MkRawCell span bits refs ref_count cell_type level_mask stored).

Definition read_raw (header : Header) : stm Reader CellError (list RawCell) :=
  st_map (seqZ 0 (h_count header)) (read_raw_cell header).

(** ** Building the cells *)

(** The failure held is that of the lowest index recorded. *)
Definition Lowest : Type := option (Z * CellError).

Definition record (self : Lowest) (index : Z) (error : CellError) : Lowest :=
  match self with
  | Some (at', _) => if index <? at' then Some (index, error) else self
  | None => Some (index, error)
  end.

Definition into_result (self : Lowest) : result CellError unit :=
  match self with Some (_, error) => Err error | None => Ok tt end.

Definition heights (raw : list RawCell) (count : Z) : result CellError (list Z) :=
  let height :=
    fold_left (λ height index,
      match get raw index with
      | None => height
      | Some raw_cell =>
          let tallest := fold_left (λ tallest target,
            Z.max tallest (default 0 (get height target) + 1)) (raw_refs raw_cell) 0 in
          <[Z.to_nat index := tallest]> height
      end) (reverse (seqZ 0 count)) (replicate (Z.to_nat count) 0) in
  if existsb (λ at', MAX_DEPTH <? at') height then Err (TooDeep MAX_DEPTH) else Ok height.

(** The order cells are finished in: every cell of one height after those below. *)
Record Waves : Type := MkWaves { w_order : list Z; w_starts : list Z }.

Module Waves.
Definition by_height (height : list Z) : Waves :=
  let tallest := fold_left Z.max height 0 in
  let starts := replicate (Z.to_nat (tallest + 2)) 0 in
  let starts := fold_left (λ starts at', alter (Z.add 1) (Z.to_nat (at' + 1)) starts) height starts in
  let starts := fold_left (λ starts k,
    alter (Z.add (default 0 (get starts (k - 1)))) (Z.to_nat k) starts)
    (seqZ 1 (len starts - 1)) starts in
  let '(order, starts) := fold_left (λ '(order, starts) '(index, at'),
    match get starts at' with
    | None => (order, starts)
    | Some slot =>
        (<[Z.to_nat slot := index]> order, <[Z.to_nat at' := slot + 1]> starts)
    end) (zip (seqZ 0 (len height)) height) (replicate (length height) 0, starts) in
  let starts := fold_left (λ starts k,
    <[Z.to_nat k := default 0 (get starts (k - 1))]> starts)
    (reverse (seqZ 1 (len starts - 1))) starts in
  let starts := <[O := 0]> starts in
  MkWaves order starts.

(** [windows(2)] over the boundaries. *)
Definition iter (self : Waves) : list (list Z) :=
  omap (λ '(from, to), get_range (w_order self) from to)
    (zip (w_starts self) (tail (w_starts self))).

(** The plan the tests hold the waves to: one cell a wave, the last index first. *)
Definition descending (count : Z) : Waves :=
  MkWaves (reverse (seqZ 0 count)) (seqZ 0 (count + 1)).
End Waves.

Definition CELLS_PER_WORKER : Z := 1024.

Section finalize.
Context {T : Type}.

(** How many cores the process sees: read from the machine, whatever it says. *)
Variable parallelism : Z.
(** What finishes one cell, out of the cells finished so far. *)
Variable one : Z → list (option T) → result CellError (option T).

Definition workers_for (width : Z) : Z :=
  let affords := width / CELLS_PER_WORKER in
  if affords <? 2 then 1 else Z.max (Z.min parallelism affords) 1.

(** [wave.chunks(each)] *)
Fixpoint chunks_of (fuel : nat) (each : Z) (wave : list Z) : list (list Z) :=
  match fuel, wave with
  | S fuel', _ :: _ => take (Z.to_nat each) wave :: chunks_of fuel' each (drop (Z.to_nat each) wave)
  | _, _ => []
  end.

(** Every worker reads the cells as they stood when the wave began, and the
    outcomes come back in the order of the chunks. *)
Definition split_across_workers (wave : list Z) (held : list (option T)) (workers : Z) :
    option (list (Z * result CellError (option T))) :=
  if (workers <? 2) || (len wave =? 0) then None
  else
    let each := div_ceil (len wave) workers in
    Some (concat ((λ part : list Z, (λ index, (index, one index held)) <$> part) <$>
            chunks_of (length wave) each wave)).

Definition keep (state : list (option T) * Lowest) (index : Z)
    (outcome : result CellError (option T)) : list (option T) * Lowest :=
  let '(built, lowest) := state in
  match outcome with
  | Ok (Some value) => (<[Z.to_nat index := Some value]> built, lowest)
  | Ok None => (built, lowest)
  | Err error => (built, record lowest index error)
  end.

Definition run_wave (state : list (option T) * Lowest) (wave : list Z) :
    list (option T) * Lowest :=
  let workers := workers_for (len wave) in
  match (if 1 <? workers then split_across_workers wave (fst state) workers else None) with
  | Some produced => fold_left (λ state '(index, outcome), keep state index outcome) produced state
  | None => fold_left (λ state index, keep state index (one index (fst state))) wave state
  end.

Definition finalize (count : Z) (waves : Waves) : list (option T) * Lowest :=
  fold_left run_wave (Waves.iter waves) (replicate (Z.to_nat count) None, None).

(** [built.get(index).and_then(Option::as_ref).cloned().ok_or(..)?], for each root. *)
Fixpoint roots_of (built : list (option T)) (root_list : list Z) : result CellError (list T) :=
  match root_list with
  | [] => Ok []
  | index :: rest =>
      let? root := ok_or (get built index ≫= id) BadReference in
      let? others := roots_of built rest in
      Ok (root :: others)
  end.
End finalize.

Definition check_stored (identity : Identity) (stored : list Z) : result CellError unit :=
  let count := Identity.count identity in
  if negb (len stored =? count * 34)
  then Err (Malformed "cell stores a different number of hashes than its level mask allows")
  else
    let missing := Malformed "cell has fewer hashes than its level mask calls for" in
    let? _ := res_fold (λ _ index,
      let? hash := ok_or (Identity.hash identity index) missing in
      if bool_decide (get_range stored (index * 32) (index * 32 + 32) = Some hash) then Ok tt
      else Err (Malformed "cell stores a hash its contents do not give")) (seqZ 0 count) tt in
    let base := count * 32 in
    res_fold (λ _ index,
      let? depth := ok_or (Identity.depth identity index) missing in
      let at' := base + index * 2 in
      if bool_decide (get_range stored at' (at' + 2) = Some (to_be_bytes 2 depth)) then Ok tt
      else Err (Malformed "cell stores a depth its contents do not give")) (seqZ 0 count) tt.

Section build.
Context `{Hasher}.

(** The children of a cell, pushed one by one: [None] when one was not built. *)
Fixpoint push_refs (targets : list Z) (built : list (option Cell)) (refs : Refs Cell) :
    result CellError (option (Refs Cell)) :=
  match targets with
  | [] => Ok (Some refs)
  | target :: rest =>
      match get built target with
      | Some (Some child) =>
          match push child refs with
          | (Err e, _) => Err e
          | (Ok _, refs) => push_refs rest built refs
          end
      | Some None => Ok None
      | None => Err BadReference
      end
  end.

Definition build_one (raw_cell : RawCell) (payload : list Z) (built : list (option Cell)) :
    result CellError (option Cell) :=
  let? refs := push_refs (raw_refs raw_cell) built RNone in
  match refs with
  | None => Ok None
  | Some refs =>
      let? data := window payload (rc_data raw_cell) in
      let? cell := Cell.from_parts data (rc_bits raw_cell) refs (rc_cell_type raw_cell)
                     (rc_level_mask raw_cell) in
      let? _ :=
        match rc_stored raw_cell with
        | Some stored =>
            let? stored := Span_of stored payload in
            check_stored (Cell.identity cell) stored
        | None => Ok tt
        end in
      Ok (Some cell)
  end.

Fixpoint child_identities (targets : list Z) (computed : list (option Identity)) :
    result CellError (option (list Identity)) :=
  match targets with
  | [] => Ok (Some [])
  | target :: rest =>
      match get computed target with
      | Some (Some child) =>
          let? others := child_identities rest computed in
          Ok (cons child <$> others)
      | Some None => Ok None
      | None => Err BadReference
      end
  end.

Definition summarize_one (raw_cell : RawCell) (bytes : list Z) (computed : list (option Identity)) :
    result CellError (option Identity) :=
  let? children := child_identities (raw_refs raw_cell) computed in
  match children with
  | None => Ok None
  | Some children =>
      let? data := Span_of (rc_data raw_cell) bytes in
      let? identity := summarize data (rc_bits raw_cell) children (rc_cell_type raw_cell)
                         (rc_level_mask raw_cell) in
      let? _ :=
        match rc_stored raw_cell with
        | Some stored =>
            let? stored := Span_of stored bytes in
            check_stored identity stored
        | None => Ok tt
        end in
      Ok (Some identity)
  end.

(** The machine's share of the work, over which every result below is the same. *)
Variable parallelism : Z.

Definition build_planned (raw : list RawCell) (payload : list Z) (waves : Waves) (header : Header) :
    result CellError (list Cell) :=
  let one := λ index built,
    match get raw index with
    | Some raw_cell => build_one raw_cell payload built
    | None => Err BadReference
    end in
  let '(built, lowest) := finalize parallelism one (h_count header) waves in
  let? _ := into_result lowest in
  roots_of built (h_root_list header).

Definition read_and_build (header : Header) : stm Reader CellError (list Cell) :=
  do! reader <- st_get;
  let payload := r_bytes reader in
  do! raw <- read_raw header;
  do! height <- st_lift (heights raw (h_count header));
  st_lift (build_planned raw payload (Waves.by_height height) header).

Definition parse_boc_with (bytes : list Z) (options : ParseOptions) : result CellError (list Cell) :=
  fst ((do! header <- read_header bytes options; read_and_build header) (MkReader bytes 0)).

Definition parse_boc (bytes : list Z) : result CellError (list Cell) :=
  parse_boc_with bytes ParseOptions.default.

Definition verify_planned (raw : list RawCell) (bytes : list Z) (waves : Waves) (header : Header) :
    result CellError (list (list Z)) :=
  let one := λ index computed,
    match get raw index with
    | Some raw_cell => summarize_one raw_cell bytes computed
    | None => Err BadReference
    end in
  let '(identities, lowest) := finalize parallelism one (h_count header) waves in
  let? _ := into_result lowest in
  let? roots := roots_of identities (h_root_list header) in
  Ok (Identity.repr_hash <$> roots).

Definition verify_roots (header : Header) : stm Reader CellError (list (list Z)) :=
  do! reader <- st_get;
  let bytes := r_bytes reader in
  do! raw <- read_raw header;
  do! height <- st_lift (heights raw (h_count header));
  st_lift (verify_planned raw bytes (Waves.by_height height) header).
End build.
