(* ===== verification/BocWaves.v ===== *)
(** The order a bag's cells are finished in (core/src/cell/boc/parse.rs): the
    counting sort groups them by height, and any plan that puts every cell after
    the cells it refers to, on any number of workers, finishes them alike. *)

From stdpp Require Import base list list_numbers numbers strings.
From Stdlib Require Import ZArith Lia.
From S2P Require Import Prelude Errors Bits CellData CellHash CellModel CellSlice CellBuilder Boc.

Local Open Scope Z_scope.

(** ** Tables *)

(** A vector as the function it tabulates. *)
Definition tab {A} (n : Z) (f : Z → A) : list A := f <$> seqZ 0 n.

Lemma len_tab {A} n (f : Z → A) : 0 <= n → len (tab n f) = n.
Proof. intros. unfold tab. by rewrite len_fmap, len_seqZ. Qed.

Lemma get_tab {A} n (f : Z → A) i : 0 <= i < n → get (tab n f) i = Some (f i).
Proof. intros. unfold tab. by rewrite get_fmap, get_seqZ. Qed.

Lemma tab_ext {A} n (f g : Z → A) : (∀ i, 0 <= i < n → f i = g i) → tab n f = tab n g.
Proof. intros Hf. apply list_fmap_ext. intros k i Hi%lookup_seqZ. apply Hf. lia. Qed.

Lemma get_insert {A} (l : list A) i j (x : A) :
  0 <= i < len l → get (<[Z.to_nat i := x]> l) j = if j =? i then Some x else get l j.
Proof.
  intros Hi. unfold get, len in *. destruct (Z.ltb_spec j 0).
  - by destruct (Z.eqb_spec j i); [lia|].
  - destruct (Z.eqb_spec j i) as [->|].
    + apply list_lookup_insert_eq. lia.
    + apply list_lookup_insert_ne. lia.
Qed.

Lemma len_insert {A} (l : list A) i (x : A) : len (<[i := x]> l) = len l.
Proof. unfold len. by rewrite length_insert. Qed.

Lemma insert_tab {A} n (f : Z → A) i x :
  0 <= i < n → <[Z.to_nat i := x]> (tab n f) = tab n (λ j, if j =? i then x else f j).
Proof.
  intros Hi. apply list_get_ext; rewrite ?len_insert, !len_tab by lia; [done|]. intros j Hj.
  rewrite get_insert, !get_tab by (rewrite ?len_tab; lia). by destruct (j =? i).
Qed.

Lemma alter_tab {A} n (f : Z → A) g i :
  0 <= i < n → alter g (Z.to_nat i) (tab n f) = tab n (λ j, if j =? i then g (f j) else f j).
Proof.
  intros Hi. assert (alter g (Z.to_nat i) (tab n f) = <[Z.to_nat i := g (f i)]> (tab n f)) as ->.
  { apply list_eq. intros k. destruct (decide (k = Z.to_nat i)) as [->|].
    - pose proof (get_tab n f i Hi) as Hg. unfold get in Hg. destruct (Z.ltb_spec i 0); [lia|].
      rewrite list_lookup_alter_eq, Hg, list_lookup_insert_eq; [done|].
      by eapply lookup_lt_Some.
    - by rewrite list_lookup_alter_ne, list_lookup_insert_ne by done. }
  rewrite insert_tab by done. apply tab_ext. intros j _. by destruct (Z.eqb_spec j i) as [->|].
Qed.

Lemma replicate_tab {A} n (x : A) : 0 <= n → replicate (Z.to_nat n) x = tab n (λ _, x).
Proof.
  intros Hn. apply list_get_ext; [rewrite len_tab by lia; unfold len; rewrite length_replicate; lia|].
  intros i Hi. unfold len in Hi. rewrite length_replicate in Hi. rewrite get_tab by lia. unfold get.
  destruct (Z.ltb_spec i 0); [lia|]. apply lookup_replicate_2. lia.
Qed.

(** ** Counting *)

Definition count_eq (k : Z) (l : list Z) : Z := len (filter (λ x, x = k) l).
Definition count_lt (k : Z) (l : list Z) : Z := len (filter (λ x, x < k) l).

Lemma len_filter_cons {A} (P : A → Prop) `{∀ x, Decision (P x)} x l :
  len (filter P (x :: l)) = (if decide (P x) then 1 else 0) + len (filter P l).
Proof. rewrite filter_cons. destruct (decide (P x)); [apply len_cons|lia]. Qed.

Lemma count_eq_cons k x l : count_eq k (x :: l) = b2z (x =? k) + count_eq k l.
Proof.
  unfold count_eq. rewrite len_filter_cons. destruct (decide (x = k)), (Z.eqb_spec x k); simpl b2z; lia.
Qed.

Lemma count_lt_cons k x l : count_lt k (x :: l) = b2z (x <? k) + count_lt k l.
Proof.
  unfold count_lt. rewrite len_filter_cons. destruct (decide (x < k)), (Z.ltb_spec x k); simpl b2z; lia.
Qed.

Lemma count_eq_nonneg k l : 0 <= count_eq k l.
Proof. apply len_nonneg. Qed.

Lemma count_eq_app k l1 l2 : count_eq k (l1 ++ l2) = count_eq k l1 + count_eq k l2.
Proof. unfold count_eq. by rewrite filter_app, len_app. Qed.

Lemma count_lt_succ k l : count_lt (k + 1) l = count_lt k l + count_eq k l.
Proof.
  induction l as [|x l IH]; [done|]. rewrite !count_lt_cons, count_eq_cons, IH.
  destruct (Z.ltb_spec x (k + 1)), (Z.ltb_spec x k), (Z.eqb_spec x k); simpl b2z; lia.
Qed.

Lemma count_lt_mono k k' l : k <= k' → count_lt k l <= count_lt k' l.
Proof.
  intros Hk. induction l as [|x l IH]; [done|]. rewrite !count_lt_cons.
  destruct (Z.ltb_spec x k), (Z.ltb_spec x k'); simpl b2z; lia.
Qed.

Lemma count_lt_len k l : 0 <= count_lt k l <= len l.
Proof.
  split; [apply len_nonneg|]. induction l as [|x l IH]; [done|].
  rewrite count_lt_cons, len_cons. destruct (x <? k); simpl b2z; lia.
Qed.

Lemma count_lt_zero l : Forall (Z.le 0) l → count_lt 0 l = 0.
Proof.
  induction 1 as [|x l Hx _ IH]; [done|]. rewrite count_lt_cons, IH.
  by rewrite (proj2 (Z.ltb_ge _ _)).
Qed.

Lemma fold_max l acc : acc <= fold_left Z.max l acc ∧ Forall (λ x, x <= fold_left Z.max l acc) l.
Proof.
  revert acc. induction l as [|x l IH]; intros acc; simpl; [split; [lia|constructor]|].
  destruct (IH (Z.max acc x)) as [H1 H2]. split; [lia|]. constructor; [lia|done].
Qed.

(** ** The counting sort *)

Section by_height.
Variable height : list Z.
Hypothesis Hheight : Forall (Z.le 0) height.

#[local] Abbreviation tallest := (fold_left Z.max height 0).
#[local] Abbreviation size := (tallest + 2).

Lemma height_range i h : get height i = Some h → 0 <= h <= tallest.
Proof.
  intros Hi. destruct (fold_max height 0) as [_ Hm]. unfold get in Hi. destruct (_ <? _); [done|].
  rewrite Forall_forall in Hheight, Hm. apply list_elem_of_lookup_2 in Hi. split; auto.
Qed.

Lemma tallest_nonneg : 0 <= tallest.
Proof. apply (fold_max height 0). Qed.

Lemma histogram l f :
  Forall (λ x, 0 <= x <= tallest) l →
  fold_left (λ starts at', alter (Z.add 1) (Z.to_nat (at' + 1)) starts) l (tab size f) =
  tab size (λ j, f j + count_eq (j - 1) l).
Proof.
  revert f. induction l as [|x l IH]; intros f Hl; simpl.
  - apply tab_ext. intros j _. change (count_eq (j - 1) []) with 0. lia.
  - apply Forall_cons in Hl as [Hx Hl]. rewrite alter_tab by lia. rewrite IH by done. apply tab_ext.
    intros j Hj. rewrite count_eq_cons.
    destruct (Z.eqb_spec j (x + 1)), (Z.eqb_spec x (j - 1)); simpl b2z; lia.
Qed.

Lemma count_eq_neg : count_eq (-1) height = 0.
Proof.
  pose proof (count_lt_succ (-1) height) as Hs. change (-1 + 1) with 0 in Hs.
  rewrite count_lt_zero in Hs by done. pose proof (count_eq_nonneg (-1) height).
  pose proof (count_lt_len (-1) height). lia.
Qed.

Lemma prefix_sums m :
  0 <= m < size →
  fold_left (λ starts k, alter (Z.add (default 0 (get starts (k - 1)))) (Z.to_nat k) starts)
    (seqZ 1 m) (tab size (λ j, count_eq (j - 1) height)) =
  tab size (λ j, if j <=? m then count_lt j height else count_eq (j - 1) height).
Proof.
  intros [Hm Hs]. revert Hs. pattern m. apply natlike_ind; [..|done]; clear m Hm.
  - intros _. apply tab_ext. intros j Hj. destruct (Z.leb_spec j 0); [|done].
    assert (j = 0) as -> by lia. change (0 - 1) with (-1). by rewrite count_eq_neg, count_lt_zero.
  - intros m Hm IH Hs. rewrite <- Z.add_1_r, seqZ_app, fold_left_app, IH by lia.
    assert (seqZ (1 + m) 1 = [1 + m]) as -> by (rewrite seqZ_cons by lia; done). cbn [fold_left].
    rewrite get_tab by lia. replace (1 + m - 1) with m by lia. rewrite Z.leb_refl. cbn [default from_option id].
    rewrite alter_tab by lia. apply tab_ext. intros j Hj.
    destruct (Z.eqb_spec j (1 + m)) as [->|]; [|by destruct (Z.leb_spec j m), (Z.leb_spec j (m + 1)); try lia].
    destruct (Z.leb_spec (1 + m) m), (Z.leb_spec (1 + m) (m + 1)); try lia.
    replace (1 + m - 1) with m by lia. rewrite (Z.add_comm 1 m), count_lt_succ. done.
Qed.

(** Where the sort puts index [i]: after the lower heights and the earlier
    indices of its own height. *)
Definition place (i : Z) : Z :=
  match get height i with
  | Some h => count_lt h height + count_eq h (take (Z.to_nat i) height)
  | None => 0
  end.

Lemma take_succ_get {A} (l : list A) i x :
  get l i = Some x → take (Z.to_nat (i + 1)) l = take (Z.to_nat i) l ++ [x].
Proof.
  intros Hi. pose proof (get_Some_lt _ _ _ Hi). unfold get in Hi. destruct (Z.ltb_spec i 0); [lia|].
  replace (Z.to_nat (i + 1)) with (S (Z.to_nat i)) by lia. by apply take_S_r.
Qed.

Lemma count_eq_take_mono k i j :
  0 <= i <= j → count_eq k (take (Z.to_nat i) height) <= count_eq k (take (Z.to_nat j) height).
Proof.
  intros Hij. replace (take (Z.to_nat i) height) with (take (Z.to_nat i) (take (Z.to_nat j) height))
    by (rewrite take_take; f_equal; lia).
  set (l := take (Z.to_nat j) height). pose proof (count_eq_app k (take (Z.to_nat i) l) (drop (Z.to_nat i) l)) as Ha.
  rewrite take_drop in Ha. pose proof (count_eq_nonneg k (drop (Z.to_nat i) l)). lia.
Qed.

Lemma count_eq_take_le k i : count_eq k (take (Z.to_nat i) height) <= count_eq k height.
Proof.
  pose proof (count_eq_app k (take (Z.to_nat i) height) (drop (Z.to_nat i) height)) as Ha.
  rewrite take_drop in Ha. pose proof (count_eq_nonneg k (drop (Z.to_nat i) height)). lia.
Qed.

Lemma count_eq_before i h j :
  get height i = Some h → i < j →
  count_eq h (take (Z.to_nat i) height) < count_eq h (take (Z.to_nat j) height).
Proof.
  intros Hi Hj. pose proof (get_Some_lt _ _ _ Hi). pose proof (count_eq_take_mono h (i + 1) j ltac:(lia)) as Hm.
  rewrite (take_succ_get _ _ _ Hi), count_eq_app, (count_eq_cons h h []), Z.eqb_refl in Hm.
  change (count_eq h []) with 0 in Hm. simpl b2z in Hm. lia.
Qed.

Lemma place_bounds i h :
  get height i = Some h → count_lt h height <= place i < count_lt (h + 1) height.
Proof.
  intros Hi. unfold place. rewrite Hi. pose proof (get_Some_lt _ _ _ Hi).
  pose proof (count_eq_nonneg h (take (Z.to_nat i) height)). split; [lia|]. rewrite count_lt_succ.
  pose proof (count_eq_before i h (len height) Hi ltac:(lia)) as Hb.
  unfold len in Hb. rewrite Nat2Z.id, firstn_all in Hb. lia.
Qed.

Lemma place_inj i j hi hj :
  get height i = Some hi → get height j = Some hj → i < j → place i ≠ place j.
Proof.
  intros Hi Hj Hij. pose proof (place_bounds i hi Hi). pose proof (place_bounds j hj Hj).
  destruct (Z.lt_trichotomy hi hj) as [?|[->|?]].
  - pose proof (count_lt_mono (hi + 1) hj height ltac:(lia)). lia.
  - unfold place. rewrite Hi, Hj. pose proof (count_eq_before i hj j Hi Hij). lia.
  - pose proof (count_lt_mono (hj + 1) hi height ltac:(lia)). lia.
Qed.

Definition place_step : list Z * list Z → Z * Z → list Z * list Z := λ '(order, starts) '(index, at'),
  match get starts at' with
  | None => (order, starts)
  | Some slot => (<[Z.to_nat slot := index]> order, <[Z.to_nat at' := slot + 1]> starts)
  end.

(** The placement loop, after the first [m] cells. *)
Lemma placed m :
  0 <= m <= len height →
  ∃ order,
    fold_left place_step (zip (seqZ 0 m) (take (Z.to_nat m) height))
      (replicate (length height) 0, tab size (λ k, count_lt k height)) =
    (order, tab size (λ k, count_lt k height + count_eq k (take (Z.to_nat m) height))) ∧
    len order = len height ∧ ∀ i, 0 <= i < m → get order (place i) = Some i.
Proof.
  intros [Hm Hs]. revert Hs. pattern m. apply natlike_ind; [..|done]; clear m Hm.
  - intros _. exists (replicate (length height) 0). split; [|split; [unfold len; by rewrite length_replicate|intros; lia]].
    change (take (Z.to_nat 0) height) with (@nil Z). change (seqZ 0 0) with (@nil Z). cbn [zip_with fold_left].
    rewrite (tab_ext size _ (λ k, count_lt k height + count_eq k [])); [done|].
    intros k _. change (count_eq k []) with 0. lia.
  - intros m Hm IH Hs. destruct IH as (order & E & Hlen & Hp); [lia|]. rewrite <- Z.add_1_r in *.
    destruct (get_lt_Some height m) as [h Hh]; [lia|]. pose proof (height_range m h Hh) as Hr.
    rewrite seqZ_snoc by done. rewrite (take_succ_get height m h Hh).
    rewrite zip_with_app, fold_left_app, E by (rewrite length_seqZ, length_take; unfold len in *; lia).
    cbn [zip_with fold_left place_step]. rewrite get_tab by lia.
    assert (count_lt h height + count_eq h (take (Z.to_nat m) height) = place m) as ->
      by (unfold place; by rewrite Hh).
    pose proof (place_bounds m h Hh) as Hb. pose proof (count_lt_len h height). pose proof (count_lt_len (h + 1) height).
    eexists. split; [|split].
    + f_equal. rewrite insert_tab by lia. apply tab_ext. intros k _.
      rewrite count_eq_app, count_eq_cons. change (count_eq k []) with 0. rewrite Z.add_0_r.
      destruct (Z.eqb_spec k h) as [->|Hne].
      * rewrite Z.eqb_refl. unfold place. rewrite Hh. simpl b2z. lia.
      * rewrite (proj2 (Z.eqb_neq h k)) by done. simpl b2z. lia.
    + by rewrite len_insert.
    + intros i Hi. rewrite get_insert by lia. destruct (Z.eqb_spec (place i) (place m)) as [Ep|Ep].
      * destruct (decide (i = m)) as [->|]; [done|]. exfalso.
        destruct (get_lt_Some height i) as [hi Hhi]; [lia|]. by apply (place_inj i m hi h Hhi Hh ltac:(lia)).
      * apply Hp. destruct (decide (i = m)) as [->|]; [done|lia].
Qed.

Lemma shifted (f : Z → Z) m :
  0 <= m < size →
  fold_left (λ starts k, <[Z.to_nat k := default 0 (get starts (k - 1))]> starts)
    (reverse (seqZ (size - m) m)) (tab size f) =
  tab size (λ j, if size - m <=? j then f (j - 1) else f j).
Proof.
  intros [Hm Hs]. revert Hs. pattern m. apply natlike_ind; [..|done]; clear m Hm.
  - intros _. apply tab_ext. intros j Hj. by destruct (Z.leb_spec (size - 0) j); [lia|].
  - intros m Hm IH Hs. rewrite <- Z.add_1_r. rewrite seqZ_cons by lia. rewrite reverse_cons, fold_left_app.
    replace (Z.succ (size - (m + 1))) with (size - m) by lia. replace (Z.pred (m + 1)) with m by lia.
    rewrite IH by lia. cbn [fold_left]. rewrite get_tab by lia.
    destruct (Z.leb_spec (size - m) (size - (m + 1) - 1)); [lia|]. cbn [default from_option id].
    rewrite insert_tab by lia. apply tab_ext. intros j Hj.
    destruct (Z.eqb_spec j (size - (m + 1))) as [->|].
    + by rewrite (proj2 (Z.leb_le _ _)) by lia.
    + destruct (Z.leb_spec (size - m) j), (Z.leb_spec (size - (m + 1)) j); try done; lia.
Qed.

(** The order and the boundaries the sort ends with. *)
Lemma by_height_spec :
  ∃ order, Waves.by_height height = MkWaves order (tab size (λ k, count_lt k height)) ∧
    len order = len height ∧ ∀ i, 0 <= i < len height → get order (place i) = Some i.
Proof.
  pose proof tallest_nonneg as Ht. unfold Waves.by_height.
  rewrite replicate_tab by lia. rewrite histogram.
  2:{ apply Forall_forall. intros x Hx. apply list_elem_of_lookup in Hx as [k Hk].
      apply (height_range (Z.of_nat k)). by rewrite get_of_nat. }
  rewrite (tab_ext size _ (λ j, count_eq (j - 1) height)) by (intros; lia).
  rewrite len_tab by lia. rewrite prefix_sums by lia.
  rewrite (tab_ext size _ (λ k, count_lt k height)) by (intros j Hj; by rewrite (proj2 (Z.leb_le _ _)) by lia).
  destruct (placed (len height)) as (order & E & Hlen & Hp); [pose proof (len_nonneg height); lia|].
  assert (take (Z.to_nat (len height)) height = height) as Eh by (unfold len; by rewrite Nat2Z.id, firstn_all).
  rewrite Eh in E. unfold place_step in E. rewrite E. clear E. exists order. split; [|done]. f_equal.
  rewrite len_tab by lia. pose proof (shifted (λ k, count_lt k height + count_eq k height) (size - 1) ltac:(lia)) as Hsh.
  replace (size - (size - 1)) with 1 in Hsh by lia. rewrite Hsh.
  change O with (Z.to_nat 0). rewrite insert_tab by lia. apply tab_ext. intros j Hj.
  destruct (Z.eqb_spec j 0) as [->|]; [by rewrite count_lt_zero|].
  rewrite (proj2 (Z.leb_le _ _)) by lia. rewrite <- count_lt_succ. f_equal. lia.
Qed.

Lemma get_take_drop {A} (l : list A) a n r :
  0 <= a → 0 <= r < n → get (take (Z.to_nat n) (drop (Z.to_nat a) l)) r = get l (a + r).
Proof.
  intros Ha Hr. unfold get. destruct (Z.ltb_spec r 0), (Z.ltb_spec (a + r) 0); try lia.
  rewrite lookup_take_lt, lookup_drop by lia. f_equal. lia.
Qed.

(** The cells of one height, in ascending order. *)
Definition level (k : Z) : list Z :=
  filter (λ i, get height i = Some k) (seqZ 0 (len height)).

Lemma level_prefix k m :
  0 <= m <= len height →
  let l := filter (λ i, get height i = Some k) (seqZ 0 m) in
  len l = count_eq k (take (Z.to_nat m) height) ∧
  ∀ r i, get l r = Some i → get height i = Some k ∧ count_eq k (take (Z.to_nat i) height) = r.
Proof.
  intros [Hm Hs]. revert Hs. pattern m. apply natlike_ind; [..|done]; clear m Hm.
  - intros _. split; [done|]. intros r i Hr%get_Some_lt. change (len _) with 0 in Hr. lia.
  - intros m Hm IH Hs. destruct IH as [Hlen Hget]; [lia|]. rewrite <- Z.add_1_r in *. cbv zeta.
    rewrite seqZ_snoc, filter_app by done. set (l := filter _ (seqZ 0 m)) in *.
    destruct (get_lt_Some height m) as [h Hh]; [lia|]. rewrite (take_succ_get height m h Hh).
    rewrite count_eq_app, count_eq_cons. change (count_eq k []) with 0.
    rewrite (filter_cons _ m []). change (filter _ []) with (@nil Z). rewrite Hh.
    destruct (decide (Some h = Some k)) as [[= ->]|Hne].
    + rewrite len_app, Hlen, Z.eqb_refl. split; [done|]. intros r i Hr.
      pose proof (get_Some_lt _ _ _ Hr) as Hlt. rewrite len_app in Hlt. change (len [m]) with 1 in Hlt.
      destruct (decide (r < len l)).
      * rewrite get_app_l in Hr by lia. by apply Hget.
      * rewrite get_app_r in Hr by lia. replace (r - len l) with 0 in Hr by lia.
        injection Hr as <-. split; [done|]. lia.
    + rewrite app_nil_r, (proj2 (Z.eqb_neq h k)) by congruence. simpl b2z. split; [lia|done].
Qed.

Lemma level_spec k :
  len (level k) = count_eq k height ∧
  ∀ r i, get (level k) r = Some i → get height i = Some k ∧ place i = count_lt k height + r.
Proof.
  pose proof (len_nonneg height). destruct (level_prefix k (len height)) as [Hl Hg]; [lia|].
  assert (take (Z.to_nat (len height)) height = height) as Eh by (unfold len; by rewrite Nat2Z.id, firstn_all).
  rewrite Eh in Hl. split; [done|]. intros r i [Hi Hc]%Hg. split; [done|].
  unfold place. rewrite Hi. lia.
Qed.

Lemma omap_fmap_some {A B C} (f : B → option C) (g : A → B) (h : A → C) (l : list A) :
  (∀ x, x ∈ l → f (g x) = Some (h x)) → omap f (g <$> l) = h <$> l.
Proof.
  induction l as [|x l IH]; intros Hf; [done|]. csimpl. rewrite (Hf x) by left. f_equal.
  apply IH. intros y Hy. apply Hf. by right.
Qed.

Lemma zip_tab_tail (f : Z → Z) n :
  0 <= n → zip (tab (n + 1) f) (tail (tab (n + 1) f)) = (λ k, (f k, f (k + 1))) <$> seqZ 0 n.
Proof.
  intros Hn. assert (tail (tab (n + 1) f) = (λ k, f (k + 1)) <$> seqZ 0 n) as ->.
  { unfold tab. rewrite seqZ_cons by lia. simpl. replace (Z.pred (n + 1)) with n by lia.
    replace (seqZ (Z.succ 0) n) with (Z.add 1 <$> seqZ 0 n) by (rewrite fmap_add_seqZ; done).
    rewrite <- list_fmap_compose. apply list_fmap_ext. intros _ k _. simpl. f_equal. lia. }
  unfold tab. rewrite seqZ_snoc, fmap_app by done.
  rewrite <- (app_nil_r ((λ k, f (k + 1)) <$> seqZ 0 n)) at 1.
  rewrite zip_with_app by by rewrite !length_fmap. cbn [zip_with]. rewrite app_nil_r.
  rewrite zip_with_fmap_l, zip_with_fmap_r. induction (seqZ 0 n) as [|x l IH]; [done|]. simpl. by f_equal.
Qed.

Lemma iter_by_height : Waves.iter (Waves.by_height height) = level <$> seqZ 0 (tallest + 1).
Proof.
  destruct by_height_spec as (order & -> & Hlen & Hp). unfold Waves.iter. cbn [w_order w_starts].
  pose proof tallest_nonneg. replace size with ((tallest + 1) + 1) by lia.
  rewrite zip_tab_tail by lia. apply omap_fmap_some. intros k Hk%elem_of_seqZ.
  destruct (level_spec k) as [Hl Hg]. pose proof (count_lt_len k height). pose proof (count_lt_len (k + 1) height).
  pose proof (count_lt_succ k height). pose proof (count_eq_nonneg k height).
  unfold get_range. rewrite Hlen, !(proj2 (Z.leb_le _ _)) by lia. cbn [andb]. f_equal.
  apply list_get_ext.
  { unfold len in *. rewrite length_take, length_drop. lia. }
  intros r Hr. unfold len at 1 in Hr. rewrite length_take, length_drop in Hr.
  destruct (get_lt_Some (level k) r) as [i Hi]; [lia|]. rewrite Hi.
  apply Hg in Hi as [Hh Hpl]. rewrite get_take_drop by lia. rewrite <- Hpl.
  apply Hp. by eapply get_Some_lt.
Qed.
End by_height.
