(* ===== verification/BocRun.v ===== *)
(** Running a plan (core/src/cell/boc/parse.rs): finishing the cells wave by
    wave gives each of them the outcome its references determine, whatever the
    plan, as long as it puts a cell after the cells it refers to, and whatever
    the number of workers each wave is shared over. *)

From stdpp Require Import base list list_numbers numbers strings.
From Stdlib Require Import ZArith Lia.
From S2P Require Import Prelude Errors Bits CellData CellHash CellModel CellSlice CellBuilder Boc BocWaves.

Local Open Scope Z_scope.

(** A plan for [n] cells, wave by wave: each cell once, after the cells it
    refers to. *)
Record valid_plan (n : Z) (refs : Z → list Z) (plan : list (list Z)) : Prop := {
  vp_all : concat plan ≡ₚ seqZ 0 n;
  vp_after : ∀ before wave after i r,
    plan = before ++ wave :: after → i ∈ wave → r ∈ refs i → r ∈ concat before;
}.

Section run.
Context {T : Type}.
Variable n : Z.
Variable one : Z → list (option T) → result CellError (option T).
Variable refs : Z → list Z.
Hypothesis one_local : ∀ i held held',
  len held = n → len held' = n → 0 <= i < n →
  (∀ r, r ∈ refs i → get held r = get held' r) → one i held = one i held'.
Hypothesis refs_forward : ∀ i r, 0 <= i < n → r ∈ refs i → i < r < n.

(** What finishing a cell leaves behind. *)
Definition left_by (outcome : result CellError (option T)) : option T :=
  match outcome with Ok v => v | Err _ => None end.

(** The failure held after the cells of [done]. *)
Definition lowest_of (held : list (option T)) (finished : list Z) (lowest : Lowest) : Prop :=
  match lowest with
  | None => ∀ i, i ∈ finished → ∃ v, one i held = Ok v
  | Some (i, e) => i ∈ finished ∧ one i held = Err e ∧
      ∀ j, j ∈ finished → j < i → ∃ v, one j held = Ok v
  end.

(** The state once the cells of [done] are finished. *)
Record finished (cells : list Z) (state : list (option T) * Lowest) : Prop := {
  fin_len : len (fst state) = n;
  fin_range : ∀ i, i ∈ cells → 0 <= i < n;
  fin_done : ∀ i, i ∈ cells → get (fst state) i = Some (left_by (one i (fst state)));
  fin_rest : ∀ i, 0 <= i < n → i ∉ cells → get (fst state) i = Some None;
  fin_closed : ∀ i r, i ∈ cells → r ∈ refs i → r ∈ cells;
  fin_lowest : lowest_of (fst state) cells (snd state);
}.

(** Every cell finished: the one outcome there is. *)
Definition settled (held : list (option T)) : Prop :=
  len held = n ∧ ∀ i, 0 <= i < n → get held i = Some (left_by (one i held)).

Lemma settled_unique held held' : settled held → settled held' → held = held'.
Proof.
  intros [Hl Hg] [Hl' Hg']. assert (∀ k, 0 <= k → ∀ i, n - k <= i < n → 0 <= i → get held i = get held' i) as Hk.
  { intros k Hk. pattern k. apply natlike_ind; [|clear k Hk; intros k Hk IH i Hi Hi0|done]; [intros; lia|].
    destruct (decide (n - k <= i)); [apply IH; lia|].
    rewrite Hg, Hg' by lia. do 2 f_equal. apply one_local; [done..|lia|].
    intros r Hr. apply refs_forward in Hr as ?; [|lia]. apply IH; lia. }
  apply list_get_ext; [lia|]. intros i Hi. apply (Hk n); lia.
Qed.

Lemma lowest_unique held l l' :
  lowest_of held (seqZ 0 n) l → lowest_of held (seqZ 0 n) l' → l = l'.
Proof.
  intros H H'. destruct l as [[i e]|], l' as [[j e']|]; unfold lowest_of in *; [| | |done].
  - destruct H as (Hi & Ei & Hm), H' as (Hj & Ej & Hm'). destruct (Z.lt_trichotomy i j) as [Hlt|[->|Hlt]].
    + destruct (Hm' i Hi Hlt); congruence.
    + congruence.
    + destruct (Hm j Hj Hlt); congruence.
  - destruct H as (Hi & Ei & _). destruct (H' i Hi); congruence.
  - destruct H' as (Hi & Ei & _). destruct (H j Hi); congruence.
Qed.

(** ** One cell *)

Definition step (state : list (option T) * Lowest) (i : Z) : list (option T) * Lowest :=
  keep state i (one i (fst state)).

Lemma keep_held (state : list (option T) * Lowest) i outcome :
  fst (keep state i outcome) =
    match left_by outcome with
    | Some v => <[Z.to_nat i := Some v]> (fst state)
    | None => fst state
    end.
Proof. by destruct state, outcome as [[v|]|e]. Qed.

Lemma keep_lowest (state : list (option T) * Lowest) i outcome :
  snd (keep state i outcome) =
    match outcome with Err e => record (snd state) i e | Ok _ => snd state end.
Proof. by destruct state, outcome as [[v|]|e]. Qed.

Lemma keep_len (state : list (option T) * Lowest) i outcome : len (fst (keep state i outcome)) = len (fst state).
Proof. rewrite keep_held. destruct (left_by outcome); [apply len_insert|done]. Qed.

Lemma keep_get (state : list (option T) * Lowest) i outcome j :
  0 <= i < len (fst state) → get (fst state) i = Some None →
  get (fst (keep state i outcome)) j = if j =? i then Some (left_by outcome) else get (fst state) j.
Proof.
  intros Hi Hn. rewrite keep_held. destruct (left_by outcome) as [v|].
  - by apply get_insert.
  - by destruct (Z.eqb_spec j i) as [->|].
Qed.

Lemma step_finished cells state i :
  finished cells state → 0 <= i < n → i ∉ cells → (∀ r, r ∈ refs i → r ∈ cells) →
  finished (i :: cells) (step state i).
Proof.
  intros [Hlen Hrange Hdone Hrest Hclosed Hlow] Hi Hni Hr. unfold step.
  set (held := fst state) in *. set (held' := fst (keep state i (one i held))).
  assert (∀ j, get held' j = if j =? i then Some (left_by (one i held)) else get held j) as Hg.
  { intros j. apply keep_get; [unfold held in Hlen; lia|]. by apply Hrest. }
  assert (len held' = n) as Hlen' by (unfold held'; rewrite keep_len; done).
  assert (∀ j, j ∈ i :: cells → one j held' = one j held) as Hone.
  { intros j Hj. apply one_local; [done..|apply elem_of_cons in Hj as [->|Hj]; auto|]. intros r Hjr. rewrite Hg.
    destruct (Z.eqb_spec r i) as [->|]; [|done].
    exfalso. apply Hni. apply elem_of_cons in Hj as [->|Hj]; [by apply Hr|by eapply Hclosed]. }
  split.
  - done.
  - intros j [->|Hj]%elem_of_cons; [lia|auto].
  - intros j Hj. fold held'. rewrite Hone, Hg by done. destruct (Z.eqb_spec j i) as [->|]; [done|].
    apply elem_of_cons in Hj as [->|Hj]; [done|auto].
  - intros j Hj Hnj. fold held'. rewrite Hg. destruct (Z.eqb_spec j i) as [->|]; [by destruct Hnj; left|].
    apply Hrest; [done|]. by intros ?; apply Hnj; right.
  - intros j r [->|Hj]%elem_of_cons Hjr; right; eauto.
  - fold held'. rewrite keep_lowest. unfold lowest_of in *.
    destruct (one i held) as [v|e] eqn:Ei; swap 1 2.
    + destruct (snd state) as [[k e']|]; simpl.
      * destruct Hlow as (Hk & Ek & Hm). destruct (Z.ltb_spec i k).
        -- split; [by left|]. split; [by rewrite Hone by left|].
           intros j [->|Hj]%elem_of_cons Hlt; [lia|]. rewrite Hone by (by right). apply Hm; [done|lia].
        -- split; [by right|]. split; [by rewrite Hone by (by right)|].
           intros j Hj Hlt. rewrite Hone by done. apply elem_of_cons in Hj as [->|Hj]; [lia|by apply Hm].
      * split; [by left|]. split; [by rewrite Hone by left|].
        intros j Hj Hlt. rewrite Hone by done. apply elem_of_cons in Hj as [->|Hj]; [lia|by apply Hlow].
    + destruct (snd state) as [[k e']|].
      * destruct Hlow as (Hk & Ek & Hm). split; [by right|]. split; [by rewrite Hone by (by right)|].
        intros j Hj Hlt. rewrite Hone by done. apply elem_of_cons in Hj as [->|Hj]; [eauto|by apply Hm].
      * intros j Hj. rewrite Hone by done. apply elem_of_cons in Hj as [->|Hj]; [eauto|by apply Hlow].
Qed.

(** ** One wave *)

Lemma wave_finished wave : ∀ cells state,
  finished cells state → NoDup wave → (∀ i, i ∈ wave → 0 <= i < n ∧ i ∉ cells) →
  (∀ i r, i ∈ wave → r ∈ refs i → r ∈ cells) →
  finished (reverse wave ++ cells) (fold_left step wave state).
Proof.
  induction wave as [|i wave IH]; intros cells state Hf Hnd Hw Hr; [done|].
  apply NoDup_cons in Hnd as [Hni Hnd]. destruct (Hw i) as [Hi Hic]; [by left|].
  rewrite reverse_cons, <- app_assoc. simpl. apply IH; [|done| |].
  - apply step_finished; [done..|]. intros r. apply Hr. by left.
  - intros j Hj. destruct (Hw j) as [Hjn Hjc]; [by right|]. split; [done|].
    intros [->|]%elem_of_cons; done.
  - intros j r Hj Hjr. right. eapply Hr; [by right|done].
Qed.

(** A worker's cells read the state the wave began with, as the cells before
    them in the wave are none of their references. *)
Lemma keep_wave held0 wave : ∀ state,
  len held0 = n → len (fst state) = n → (∀ i, i ∈ wave → 0 <= i < n) →
  (∀ i r, i ∈ wave → r ∈ refs i → (r ∉ wave) ∧ get (fst state) r = get held0 r) →
  fold_left (λ state '(index, outcome), keep state index outcome)
    ((λ index, (index, one index held0)) <$> wave) state = fold_left step wave state.
Proof.
  induction wave as [|i wave IH]; intros state H0 Hlen Hw Hr; [done|].
  cbn [fmap list_fmap fold_left]. cbv beta iota.
  assert (one i held0 = one i (fst state)) as ->.
  { apply one_local; [done..|apply Hw; by left|]. intros r Hir. symmetry. by apply (Hr i r); [left|]. }
  change (keep state i (one i (fst state))) with (step state i).
  apply IH; [done|by unfold step; rewrite keep_len|intros j Hj; apply Hw; by right|].
  intros j r Hj Hjr. destruct (Hr j r) as [Hnr Hg]; [by right|done|]. split; [by intros ?; apply Hnr; right|].
  unfold step. rewrite <- Hg, keep_held. destruct (left_by _) as [v|]; [|done].
  rewrite get_insert; [|rewrite Hlen; apply Hw; by left].
  destruct (Z.eqb_spec r i) as [->|]; [|done]. destruct Hnr. by left.
Qed.

Lemma concat_chunks each : 1 <= each → ∀ fuel wave,
  (length wave <= fuel)%nat → concat (chunks_of fuel each wave) = wave.
Proof.
  intros He fuel. induction fuel as [|fuel IH]; intros wave Hf; [by destruct wave; simpl in *; [|lia]|].
  destruct wave as [|x wave]; [done|]. cbn [chunks_of concat]. rewrite IH; [by rewrite take_drop|].
  rewrite length_drop. simpl in *. lia.
Qed.

Lemma run_wave_step parallelism state wave :
  len (fst state) = n → (∀ i, i ∈ wave → 0 <= i < n) →
  (∀ i r, i ∈ wave → r ∈ refs i → r ∉ wave) →
  run_wave parallelism one state wave = fold_left step wave state.
Proof.
  intros Hlen Hw Hr. unfold run_wave. destruct (1 <? _) eqn:E; [|done].
  unfold split_across_workers. destruct (_ || _) eqn:Eg; [done|].
  apply orb_false_iff in Eg as [Eg%Z.ltb_ge Ew%Z.eqb_neq]. set (workers := workers_for _ _) in *.
  pose proof (len_nonneg wave).
  assert (∀ l : list (list Z),
    concat ((λ part : list Z, (λ index, (index, one index (fst state))) <$> part) <$> l) =
    (λ index, (index, one index (fst state))) <$> concat l) as Hc.
  { induction l as [|p l IH]; [done|]. cbn [fmap list_fmap concat]. by rewrite fmap_app, <- IH. }
  rewrite Hc, concat_chunks; [|unfold div_ceil; zdiv|done].
  apply keep_wave; [done..|]. intros i r Hi Hir. by eauto.
Qed.

(** ** The whole plan *)

Lemma run_finished parallelism plan : ∀ before state,
  valid_plan n refs (before ++ plan) → finished (reverse (concat before)) state →
  finished (reverse (concat (before ++ plan))) (fold_left (run_wave parallelism one) plan state).
Proof.
  induction plan as [|wave plan IH]; intros before state Hv Hf; [by rewrite app_nil_r|].
  destruct Hv as [Hall Hafter]. rewrite concat_app in Hall. simpl in Hall.
  assert (NoDup (concat before ++ wave ++ concat plan)) as Hnd
    by (rewrite Hall; apply NoDup_seqZ).
  apply NoDup_app in Hnd as (_ & Hdis & Hnd). apply NoDup_app in Hnd as (Hnd & _ & _).
  assert (∀ i, i ∈ wave → 0 <= i < n ∧ i ∉ concat before) as Hw.
  { intros i Hi. split; [|intros Hb; apply (Hdis i Hb); apply elem_of_app; by left].
    assert (i ∈ seqZ 0 n) as H%elem_of_seqZ; [|lia]. rewrite <- Hall.
    rewrite !elem_of_app. auto. }
  assert (∀ i r, i ∈ wave → r ∈ refs i → r ∈ concat before) as Hr
    by (intros i r; by apply (Hafter before wave plan)).
  assert (before ++ wave :: plan = (before ++ [wave]) ++ plan) as Eplan by (by rewrite <- app_assoc).
  cbn [fold_left]. rewrite Eplan. apply IH.
  - rewrite <- Eplan. split; [rewrite concat_app; done|done].
  - rewrite concat_app, reverse_app. simpl. rewrite app_nil_r.
    rewrite run_wave_step; [|by destruct Hf|apply Hw|].
    + apply wave_finished; [done..| |].
      * intros i Hi. rewrite elem_of_reverse. by apply Hw.
      * intros i r Hi Hir. rewrite elem_of_reverse. by eapply Hr.
    + intros i r Hi Hir Hrw. destruct (Hw r Hrw) as [_ Hrb]. apply Hrb. by apply (Hr i r).
Qed.

Lemma finalize_settles parallelism waves :
  0 <= n → valid_plan n refs (Waves.iter waves) →
  settled (fst (finalize parallelism one n waves)) ∧
  lowest_of (fst (finalize parallelism one n waves)) (seqZ 0 n) (snd (finalize parallelism one n waves)).
Proof.
  intros Hn Hv. unfold finalize.
  pose proof (run_finished parallelism (Waves.iter waves) [] (replicate (Z.to_nat n) None, None) Hv) as Hf.
  destruct Hf as [Hlen Hrange Hdone Hrest Hclosed Hlow].
  { split; cbn [concat]; change (reverse (@nil Z)) with (@nil Z).
    - unfold len. simpl. rewrite length_replicate. lia.
    - intros i Hi%elem_of_nil. done.
    - intros i Hi%elem_of_nil. done.
    - intros i Hi _. simpl. unfold get. destruct (Z.ltb_spec i 0); [lia|]. apply lookup_replicate_2. lia.
    - intros i r Hi%elem_of_nil. done.
    - intros i Hi%elem_of_nil. done. }
  simpl app in *. set (state := fold_left _ _ _) in *.
  assert (∀ i, i ∈ reverse (concat (Waves.iter waves)) ↔ i ∈ seqZ 0 n) as Hin.
  { intros i. rewrite elem_of_reverse. by rewrite (vp_all _ _ _ Hv). }
  split; [split|].
  - done.
  - intros i Hi. apply Hdone, Hin, elem_of_seqZ. lia.
  - unfold lowest_of in *. destruct (snd state) as [[i e]|].
    + destruct Hlow as (Hi & Ei & Hm). split; [by apply Hin|]. split; [done|].
      intros j Hj. apply Hm. by apply Hin.
    + intros j Hj. apply Hlow. by apply Hin.
Qed.

(** So any two plans end alike. *)
Lemma finalize_unique p p' waves waves' :
  0 <= n → valid_plan n refs (Waves.iter waves) → valid_plan n refs (Waves.iter waves') →
  finalize p one n waves = finalize p' one n waves'.
Proof.
  intros Hn Hv Hv'. destruct (finalize_settles p waves Hn Hv) as [Hs Hl].
  destruct (finalize_settles p' waves' Hn Hv') as [Hs' Hl'].
  pose proof (settled_unique _ _ Hs Hs') as E.
  rewrite (surjective_pairing (finalize p one n waves)), (surjective_pairing (finalize p' one n waves')).
  f_equal; [done|]. rewrite <- E in Hl'. by eapply lowest_unique.
Qed.
End run.

(** ** The plans there are *)

Lemma elem_of_concat {A} (x : A) ll : x ∈ concat ll ↔ ∃ l, l ∈ ll ∧ x ∈ l.
Proof.
  rewrite list_elem_of_In, in_concat. split; intros (l & H1 & H2); exists l.
  - by rewrite !list_elem_of_In.
  - by rewrite <- !list_elem_of_In.
Qed.

Lemma filter_parts {A} (P Q R : A → Prop) `{∀ x, Decision (P x), ∀ x, Decision (Q x), ∀ x, Decision (R x)} l :
  (∀ x, R x ↔ P x ∨ Q x) → (∀ x, P x → Q x → False) → filter P l ++ filter Q l ≡ₚ filter R l.
Proof.
  intros HR HPQ. induction l as [|x l IH]; [done|]. rewrite !filter_cons. specialize (HR x). specialize (HPQ x).
  destruct (decide (P x)), (decide (Q x)), (decide (R x)); try tauto.
  - simpl. by rewrite IH.
  - by rewrite <- Permutation_middle, IH.
Qed.

Lemma filter_none {A} (P : A → Prop) `{∀ x, Decision (P x)} (l : list A) : (∀ x, x ∈ l → ¬ P x) → filter P l = [].
Proof.
  intros Hn. induction l as [|x l IH]; [done|]. rewrite filter_cons, decide_False by (apply Hn; by left).
  apply IH. intros y Hy. apply Hn. by right.
Qed.

Lemma filter_all {A} (P : A → Prop) `{∀ x, Decision (P x)} (l : list A) : (∀ x, x ∈ l → P x) → filter P l = l.
Proof.
  intros Ha. induction l as [|x l IH]; [done|]. rewrite filter_cons, decide_True by (apply Ha; by left).
  f_equal. apply IH. intros y Hy. apply Ha. by right.
Qed.

Section plans.
Variable refs : Z → list Z.

Lemma by_height_valid height :
  Forall (Z.le 0) height →
  (∀ i r h, get height i = Some h → r ∈ refs i → ∃ h', get height r = Some h' ∧ h' < h) →
  valid_plan (len height) refs (Waves.iter (Waves.by_height height)).
Proof.
  intros Hpos Hlower. rewrite iter_by_height by done. set (tallest := fold_left Z.max height 0).
  assert (0 <= tallest) as Ht by apply tallest_nonneg.
  set (below m i := from_option (λ h, bool_decide (h < m)) false (get height i)). split.
  - assert (∀ m, 0 <= m → concat (level height <$> seqZ 0 m) ≡ₚ filter (λ i, below m i) (seqZ 0 (len height))) as Hm.
    { apply natlike_ind.
      - change (seqZ 0 0) with (@nil Z). cbn [fmap list_fmap concat]. rewrite filter_none; [done|].
        intros i _. unfold below.
        destruct (get height i) as [h|] eqn:Eh; simpl; [|tauto]. rewrite bool_decide_spec.
        pose proof (height_range height Hpos i h Eh). lia.
      - intros m Hm IH. rewrite <- Z.add_1_r, seqZ_snoc, fmap_app, concat_app by done. rewrite IH. simpl concat.
        rewrite app_nil_r. apply filter_parts; intros i; unfold below;
          destruct (get height i) as [h|]; simpl; rewrite ?bool_decide_spec.
        + split; [intros ?; destruct (decide (h = m)) as [->|]; [by right|left; lia]|].
          intros [?|[= ->]]; lia.
        + split; [by left|by intros [?|?]].
        + intros ? [= ->]. lia.
        + naive_solver. }
    rewrite Hm by lia. rewrite filter_all; [done|].
    intros i Hi%elem_of_seqZ. unfold below.
    destruct (get_lt_Some height i) as [h Hh]; [lia|]. rewrite Hh. simpl. rewrite bool_decide_spec.
    pose proof (height_range height Hpos i h Hh). fold tallest in H. lia.
  - intros before wave after i r Eplan Hi Hr. apply elem_of_concat.
    set (k := Z.of_nat (length before)).
    assert (∀ j, 0 <= j <= tallest → (level height <$> seqZ 0 (tallest + 1)) !! Z.to_nat j = Some (level height j)) as Hj.
    { intros j Hj. rewrite list_lookup_fmap. rewrite lookup_seqZ_lt by lia. simpl. do 2 f_equal. lia. }
    assert (k <= tallest) as Hk.
    { apply (f_equal length) in Eplan. rewrite length_fmap, length_seqZ, length_app in Eplan. simpl in Eplan. lia. }
    pose proof (Hj k ltac:(lia)) as Hw. rewrite Eplan in Hw. unfold k in Hw.
    rewrite Nat2Z.id, list_lookup_middle in Hw by done. injection Hw as ->.
    apply list_elem_of_filter in Hi as [Hi _]. destruct (Hlower i r _ Hi Hr) as (h' & Hh' & Hlt).
    pose proof (height_range height Hpos r h' Hh'). exists (level height h'). split.
    + apply (list_elem_of_lookup_2 _ (Z.to_nat h')). rewrite <- Hj by lia. rewrite Eplan.
      symmetry. apply lookup_app_l. lia.
    + apply list_elem_of_filter. split; [done|]. apply elem_of_seqZ. pose proof (get_Some_lt _ _ _ Hh'). lia.
Qed.

Lemma iter_descending n :
  0 <= n → Waves.iter (Waves.descending n) = (λ k, [n - 1 - k]) <$> seqZ 0 n.
Proof.
  intros Hn. unfold Waves.iter, Waves.descending. cbn [w_order w_starts].
  assert (seqZ 0 (n + 1) = tab (n + 1) id) as -> by (unfold tab; by rewrite list_fmap_id).
  rewrite zip_tab_tail by done. apply omap_fmap_some. intros k Hk%elem_of_seqZ. unfold get_range, id.
  assert (len (reverse (seqZ 0 n)) = n) as Hl by (unfold len; rewrite length_reverse, length_seqZ; lia).
  rewrite Hl, !(proj2 (Z.leb_le _ _)) by lia. simpl andb. f_equal. replace (k + 1 - k) with 1 by lia.
  apply list_get_ext; [unfold len in *; rewrite length_take, length_drop; change (length [n - 1 - k]) with 1%nat; lia|].
  intros i Hi. unfold len in Hi. rewrite length_take in Hi. rewrite get_take_drop by lia.
  replace i with 0 by lia. rewrite Z.add_0_r. unfold get. simpl. destruct (Z.ltb_spec k 0); [lia|].
  rewrite reverse_lookup_Some. rewrite length_seqZ. split; [|lia]. rewrite lookup_seqZ. lia.
Qed.

Lemma descending_valid n :
  0 <= n → (∀ i r, 0 <= i < n → r ∈ refs i → i < r < n) →
  valid_plan n refs (Waves.iter (Waves.descending n)).
Proof.
  intros Hn Hf. rewrite iter_descending by done.
  assert (concat ((λ k, [n - 1 - k]) <$> seqZ 0 n) = (λ k, n - 1 - k) <$> seqZ 0 n) as Hc.
  { induction (seqZ 0 n) as [|k l IH]; [done|]. simpl. by f_equal. }
  split.
  - rewrite Hc. apply NoDup_Permutation; [apply NoDup_fmap_2; [intros ???; lia|apply NoDup_seqZ]|apply NoDup_seqZ|].
    intros i. rewrite list_elem_of_fmap. setoid_rewrite elem_of_seqZ. split.
    + intros (k & -> & ?). lia.
    + intros Hi. exists (n - 1 - i). lia.
  - intros before wave after i r Eplan Hi Hr. apply elem_of_concat.
    set (k := Z.of_nat (length before)).
    assert (∀ j, 0 <= j < n → ((λ k, [n - 1 - k]) <$> seqZ 0 n) !! Z.to_nat j = Some [n - 1 - j]) as Hj.
    { intros j Hj. rewrite list_lookup_fmap. rewrite lookup_seqZ_lt by lia. simpl. do 3 f_equal. lia. }
    assert (k < n) as Hk.
    { apply (f_equal length) in Eplan. rewrite length_fmap, length_seqZ, length_app in Eplan. simpl in Eplan. lia. }
    pose proof (Hj k ltac:(lia)) as Hw. rewrite Eplan in Hw. unfold k in Hw.
    rewrite Nat2Z.id, list_lookup_middle in Hw by done. injection Hw as ->.
    apply list_elem_of_singleton in Hi as ->. apply Hf in Hr; [|lia].
    exists [r]. split; [|by left].
    apply (list_elem_of_lookup_2 _ (Z.to_nat (n - 1 - r))).
    assert ((before ++ [n - 1 - Z.of_nat (length before)] :: after) !! Z.to_nat (n - 1 - r) = Some [r]) as E.
    { rewrite <- Eplan, Hj by lia. do 2 f_equal. lia. }
    rewrite lookup_app_l in E by lia. done.
Qed.
End plans.
