(* ===== verification/BocCells.v ===== *)
(** What the body of a bag says (core/src/cell/boc/parse.rs): the rules every raw
    cell read keeps, the heights of the cells, and the cells built from them. *)

From stdpp Require Import base list list_numbers numbers strings.
From Stdlib Require Import ZArith Lia.
From S2P Require Import Prelude Errors Bits CellData CellHash CellModel CellSlice CellBuilder Boc BocWaves BocRun.

Local Open Scope Z_scope.

(** ** The reader *)

Lemma get_range_Some {A} (l out : list A) a b :
  get_range l a b = Some out →
  0 <= a <= b ∧ b <= len l ∧ out = take (Z.to_nat (b - a)) (drop (Z.to_nat a) l) ∧ len out = b - a.
Proof.
  unfold get_range. destruct (_ && _) eqn:E; [|done]. intros [= <-].
  apply andb_true_iff in E as [[H1%Z.leb_le H2%Z.leb_le]%andb_true_iff H3%Z.leb_le].
  split; [done|]. split; [done|]. split; [done|]. unfold len in *. rewrite length_take, length_drop. lia.
Qed.

Section reader.
Variable bytes : list Z.
Hypothesis Hbytes : Forall is_byte bytes.

(** A reader over the bag's bytes. *)
Definition reading (rd : Reader) : Prop := r_bytes rd = bytes ∧ 0 <= r_at rd <= len bytes.

Lemma reader_take_inv n rd out rd' :
  reading rd → 0 <= n → Reader.take n rd = (Ok out, rd') →
  reading rd' ∧ r_at rd' = r_at rd + n ∧ get_range bytes (r_at rd) (r_at rd + n) = Some out ∧
  len out = n ∧ Forall is_byte out.
Proof.
  intros [Hb Ha] Hn. unfold Reader.take, checked_add, checked. destruct (_ <=? _); [|done].
  destruct (get_range _ _ _) as [o|] eqn:E; [|done]. intros [= <- <-]. rewrite Hb in E.
  apply get_range_Some in E as HE. destruct HE as (H1 & H2 & Ho & Hl). simpl.
  split; [split; simpl; [done|lia]|]. split; [done|]. split; [done|]. split; [lia|].
  subst o. apply Forall_take, Forall_drop, Hbytes.
Qed.

Lemma byte_inv rd b rd' :
  reading rd → Reader.byte rd = (Ok b, rd') →
  reading rd' ∧ r_at rd' = r_at rd + 1 ∧ get bytes (r_at rd) = Some b ∧ is_byte b.
Proof.
  intros Hr H. apply st_bind_inv in H as (out & s1 & Ht & H).
  apply reader_take_inv in Ht as (Hr' & Hat & Hg & Hl & Hf); [|done|lia].
  unfold st_lift in H. destruct (get out 0) as [x|] eqn:E; [|done]. simpl in H. injection H as <- <-.
  split; [done|]. split; [done|]. destruct Hr as [_ Ha].
  apply get_range_Some in Hg as (_ & _ & Ho & _). split.
  - rewrite Ho in E. rewrite get_take_drop in E by lia. by rewrite Z.add_0_r in E.
  - unfold get in E. simpl in E. eapply Forall_lookup_1; [exact Hf|exact E].
Qed.

Lemma fold_be_nonneg l acc :
  Forall is_byte l → 0 <= acc → 0 <= fold_left (λ value b, Z.lor (shl 64 value 8) b) l acc.
Proof.
  revert acc. induction l as [|b l IH]; intros acc Hl Ha; [done|]. apply Forall_cons in Hl as [Hb Hl].
  simpl. apply IH; [done|]. apply Z.lor_nonneg. unfold is_byte in Hb. split; [|lia].
  unfold shl, wrap. by apply Z.mod_pos_bound.
Qed.

Lemma uint_inv n rd v rd' :
  reading rd → 0 <= n → Reader.uint n rd = (Ok v, rd') → reading rd' ∧ r_at rd' = r_at rd + n ∧ 0 <= v.
Proof.
  intros Hr Hn H. apply st_bind_inv in H as (out & s1 & Ht & H). injection H as <- <-.
  apply reader_take_inv in Ht as (Hr' & Hat & _ & _ & Hf); [|done..]. repeat split; [apply Hr'..|done|].
  by apply fold_be_nonneg.
Qed.
End reader.

(** ** Descriptors *)

Lemma trailing_zeros_spec v t :
  trailing_zeros_8 v = t → t < 8 → 0 <= t ∧ Z.testbit v t = true ∧ ∀ k, 0 <= k < t → Z.testbit v k = false.
Proof.
  intros <-. unfold trailing_zeros_8. change (seqZ 0 8) with [0; 1; 2; 3; 4; 5; 6; 7].
  assert (∀ l, (∀ k, 0 <= k < 8 - len l → Z.testbit v k = false) →
    l = seqZ (8 - len l) (len l) → len l <= 8 →
    let t := default 8 (head (filter (λ i, Z.testbit v i = true) l)) in
    t < 8 → 0 <= t ∧ Z.testbit v t = true ∧ ∀ k, 0 <= k < t → Z.testbit v k = false) as Hl;
    [|by apply (Hl [0; 1; 2; 3; 4; 5; 6; 7]); [intros k Hk; change (8 - len _) with 0 in Hk; lia|..]].
  induction l as [|x l IH]; intros Hlow El Hlen t Ht; [by vm_compute in Ht|].
  rewrite len_cons in *. pose proof (len_nonneg l).
  rewrite seqZ_cons in El by lia. injection El as Ex El. subst t. rewrite filter_cons in Ht |- *.
  destruct (decide _) as [Hx|Hx].
  - simpl in Ht |- *. split; [lia|]. split; [done|]. intros k Hk. apply Hlow. lia.
  - apply IH; [|by rewrite El at 1; f_equal; lia|lia|done].
    intros k Hk. destruct (decide (k = x)) as [->|]; [by apply not_true_is_false|]. apply Hlow. lia.
Qed.

(** The bit length a descriptor and a completion bit state is that of the data. *)
Lemma bit_len_completed d2 data bits :
  0 <= d2 → Forall is_byte data → len data = Z.shiftr d2 1 + Z.land d2 1 →
  bit_len d2 data = Ok bits → 0 <= bits ∧ completed data bits.
Proof.
  intros Hd Hf Hlen. unfold bit_len. pose proof (Z.land_ones d2 1 ltac:(lia)) as E1.
  pose proof (Z.shiftr_div_pow2 d2 1 ltac:(lia)) as E2. change (Z.ones 1) with 1 in E1.
  change (2 ^ 1) with 2 in *. rewrite E1, E2 in *. clear E1 E2. unfold completed.
  destruct (Z.eqb_spec (d2 mod 2) 0) as [E|E].
  - intros [= <-]. split; [zdiv|]. split; [unfold div_ceil; zdiv|]. split; [done|]. intros Hm. exfalso. zdiv.
  - destruct (list.last data) as [lb|] eqn:El; [|done]. cbn [ok_or res_bind].
    destruct (Z.leb_spec 7 (trailing_zeros_8 lb)); [done|]. intros [= <-].
    destruct (trailing_zeros_spec lb _ eq_refl) as (Ht0 & Ht & Hlow); [lia|].
    set (t := trailing_zeros_8 lb) in *. set (full := d2 / 2) in *.
    assert (0 <= full) by (subst full; zdiv). assert (d2 mod 2 = 1) as E1 by zdiv. rewrite E1 in Hlen.
    assert (get data full = Some lb) as Hg.
    { rewrite last_lookup in El. unfold get. destruct (Z.ltb_spec full 0); [lia|].
      rewrite <- El. f_equal. unfold len in Hlen. lia. }
    split; [lia|]. split; [unfold div_ceil; zdiv|]. split; [done|]. intros _.
    assert (∀ k, 0 <= k < 8 → data_bit data (full * 8 + k) = Z.testbit lb (7 - k)) as Hbit.
    { intros k Hk. unfold data_bit. replace ((full * 8 + k) / 8) with full by zdiv.
      replace ((full * 8 + k) mod 8) with k by zdiv. rewrite Hg. apply byte_bit_testbit. lia. }
    split; [rewrite Hbit by lia; by replace (7 - (7 - t)) with t by lia|].
    intros i Hi. destruct (decide (8 * len data <= i)); [by apply data_bit_past|].
    replace i with (full * 8 + (i - full * 8)) by lia. rewrite Hbit by lia. apply Hlow. lia.
Qed.

(** ** Raw cells *)

(** What each kind asks of a raw cell's references, mask and bytes. *)
Definition kind_rule (t : CellType) (data : list Z) (mask refs : Z) : Prop :=
  match t with
  | Ordinary => True
  | PrunedBranch =>
      refs = 0 ∧ mask ≠ 0 ∧ (get data 0 = Some 1 ∧ get data 1 = Some mask) ∧
      len data = 2 + 34 * count_ones 8 mask
  | LibraryReference => refs = 0 ∧ get data 0 = Some 2
  | MerkleProof => refs = 1 ∧ get data 0 = Some 3
  | MerkleUpdate => refs = 2 ∧ get data 0 = Some 4
  end.

Lemma classify_rule exotic data mask refs t :
  classify exotic data mask refs = Ok t → kind_rule t data mask refs.
Proof.
  unfold classify. destruct exotic; simpl; [|by intros [= <-]].
  destruct (get data 0) as [tag|] eqn:Eg; [|done]. simpl. destruct (from_tag tag) as [k|] eqn:Ek; [|done]. simpl.
  apply tag_from_tag in Ek. unfold kind_rule.
  destruct k; [by intros [= <-]|..]; injection Ek as <-; case_if; try done;
    apply negb_false_iff, Z.eqb_eq in Hc; cbn [bool_decide decide_rel CellType_eq_dec];
    try (rewrite bool_decide_eq_false_2 by done; by intros [= <-]).
  rewrite bool_decide_eq_true_2 by done. destruct (get data 1) as [stored|] eqn:Eg1; [|done]. simpl.
  repeat (case_if; try done). intros [= <-].
  apply negb_false_iff, Z.eqb_eq in Hc0. apply Z.eqb_neq in Hc1. apply negb_false_iff, Z.eqb_eq in Hc2.
  subst. split; [done|]. split; [done|]. split; [done|]. lia.
Qed.

(** The rules a raw cell of a bag of [count] cells keeps. *)
Record raw_ok (bytes : list Z) (count index : Z) (rc : RawCell) : Prop := {
  ro_refs : Forall (λ target, index < target < count) (raw_refs rc);
  ro_count : len (raw_refs rc) <= MAX_REFS;
  ro_data : ∃ data, Span_of (rc_data rc) bytes = Ok data ∧ completed data (rc_bits rc) ∧
    kind_rule (rc_cell_type rc) data (rc_level_mask rc) (len (raw_refs rc));
  ro_bits : 0 <= rc_bits rc <= MAX_BITS;
  ro_mask : mask_ok (rc_level_mask rc);
}.

Lemma Span_new_of start n span :
  Span_new start n = Ok span → span = {| start := start; stop := start + n |}.
Proof.
  unfold Span_new, checked_add, checked. intros H.
  destruct (start <=? U32_MAX); [|done]. simpl in H. destruct (n <=? U32_MAX); [|done]. simpl in H.
  destruct (_ <=? _); [|done]. by injection H as <-.
Qed.

Section read_raw.
Variables (bytes : list Z) (header : Header).
Hypothesis Hbytes : Forall is_byte bytes.
Hypothesis Href : 0 <= h_ref_size header.

Lemma read_targets index n rd targets rd' :
  reading bytes rd →
  st_map (seqZ 0 n) (λ _,
    do! target <- Reader.uint (h_ref_size header);
    if (h_count header <=? target) || (target <=? index) then st_err BadReference
    else st_lift (ok_or (checked U32_MAX target) BadReference)) rd = (Ok targets, rd') →
  reading bytes rd' ∧ length targets = Z.to_nat n ∧
  Forall (λ target, index < target < h_count header) targets.
Proof.
  intros Hr Hm. apply (st_map_inv (reading bytes) (λ _ target, index < target < h_count header)) in Hm
    as [Hr' Hf]; [|..|done].
  - split; [done|]. split; [rewrite <- (Forall2_length _ _ _ Hf), length_seqZ; done|].
    by eapply Forall2_Forall_r, Forall_true.
  - intros _ s b s' _ Hs H. apply st_bind_inv in H as (target & s1 & Hu & H).
    apply (uint_inv bytes Hbytes) in Hu as (Hs1 & _ & _); [|done..].
    destruct (_ || _) eqn:E; [done|]. apply orb_false_iff in E as [E1%Z.leb_gt E2%Z.leb_gt].
    unfold st_lift, checked in H. destruct (_ <=? _); [|done]. injection H as <- <-. by split.
Qed.

Lemma read_raw_cell_inv index rd rc rd' :
  reading bytes rd → read_raw_cell header index rd = (Ok rc, rd') →
  reading bytes rd' ∧ raw_ok bytes (h_count header) index rc.
Proof.
  intros Hr H. unfold read_raw_cell in H.
  apply st_bind_inv in H as (d1 & s1 & H1 & H). apply (byte_inv bytes Hbytes) in H1 as (Hs1 & _ & _ & Hd1); [|done..].
  apply st_bind_inv in H as (d2 & s2 & H2 & H). apply (byte_inv bytes Hbytes) in H2 as (Hs2 & _ & _ & Hd2); [|done..].
  unfold is_byte in *. destruct (Z.ltb_spec MAX_REFS (Z.land d1 7)) as [|Hrefs]; [done|]. cbv zeta in H.
  pose proof (Z.land_ones d1 3 ltac:(lia)) as E7. change (Z.ones 3) with 7 in E7.
  assert (0 <= Z.land d1 7) as Hrefs0 by (rewrite E7; by apply Z.mod_pos_bound). clear E7.
  apply st_bind_inv in H as (stored & s3 & H3 & H).
  assert (reading bytes s3) as Hs3.
  { destruct (negb _); [|by injection H3 as <- <-].
    apply st_bind_inv in H3 as (rd3 & s3' & [= <- <-] & H3).
    apply st_bind_inv in H3 as (taken & s4 & Ht & H3).
    apply (reader_take_inv bytes Hbytes) in Ht as (Hs4 & _); [|done..|].
    2:{ assert (0 <= count_ones 8 (Z.shiftr d1 5)); [|lia]. apply count_ones_nonneg. unfold mask_ok.
        rewrite Z.shiftr_div_pow2 by lia. change (2 ^ 5) with 32. zdiv. }
    apply st_bind_inv in H3 as (span & s5 & Hsp & H3). injection H3 as _ <-.
    unfold st_lift in Hsp. by injection Hsp as _ <-. }
  apply st_bind_inv in H as (rd3 & s3' & [= <- <-] & H).
  apply st_bind_inv in H as (data & s4 & H4 & H).
  apply (reader_take_inv bytes Hbytes) in H4 as (Hs4 & _ & Hg & Hlen & Hf); [|done..|].
  2:{ rewrite Z.shiftr_div_pow2 by lia. assert (0 <= Z.land d2 1) by (apply Z.land_nonneg; lia).
      change (2 ^ 1) with 2. zdiv. }
  apply st_bind_inv in H as (span & s4' & [= Hsp <-] & H). apply Span_new_of in Hsp as ->.
  apply st_bind_inv in H as (bits & s4'' & [= Hbits <-] & H).
  apply bit_len_completed in Hbits as [Hb0 Hcomp]; [|lia|done|done].
  destruct (Z.ltb_spec MAX_BITS bits) as [|Hmax]; [done|].
  apply st_bind_inv in H as (t & s5 & [= Ht <-] & H). apply classify_rule in Ht.
  apply st_bind_inv in H as (targets & s6 & H6 & H). apply read_targets in H6 as (Hs6 & Hn & Htg); [|done].
  injection H as <- <-. split; [done|].
  assert (raw_refs (MkRawCell {| start := r_at s3; stop := r_at s3 + len data |} bits
    (targets ++ replicate (Z.to_nat (MAX_REFS - Z.land d1 7)) 0) (Z.land d1 7) t (Z.shiftr d1 5) stored)
    = targets) as Er.
  { unfold raw_refs. simpl. unfold get_range, len. rewrite length_app, length_replicate, Hn.
    rewrite !(proj2 (Z.leb_le _ _)) by lia. simpl. rewrite drop_0. apply take_app_length'. lia. }
  change (Reader.consumed s3) with (r_at s3). split; rewrite ?Er.
  - done.
  - unfold len. lia.
  - exists data. unfold Span_of. cbn [start stop rc_data rc_bits rc_cell_type rc_level_mask].
    rewrite Hlen at 1. rewrite Hg. split; [done|]. split; [done|]. unfold len. rewrite Hn.
    by rewrite Z2Nat.id.
  - simpl. lia.
  - simpl. unfold mask_ok. rewrite Z.shiftr_div_pow2 by lia. change (2 ^ 5) with 32. zdiv.
Qed.

Lemma read_raw_inv rd raw rd' :
  0 <= h_count header → reading bytes rd → read_raw header rd = (Ok raw, rd') →
  reading bytes rd' ∧ len raw = h_count header ∧
  ∀ i rc, get raw i = Some rc → raw_ok bytes (h_count header) i rc.
Proof.
  intros Hc Hr Hm. apply (st_map_inv (reading bytes) (raw_ok bytes (h_count header))) in Hm as [Hr' Hf]; [|..|done].
  - assert (length raw = Z.to_nat (h_count header)) as Hl
      by (rewrite <- (Forall2_length _ _ _ Hf), length_seqZ; done).
    split; [done|]. split; [unfold len; lia|]. intros i rc Hi. pose proof (get_Some_lt _ _ _ Hi).
    unfold get in Hi. destruct (Z.ltb_spec i 0); [lia|].
    eapply Forall2_lookup_lr in Hf; [exact Hf| |exact Hi]. unfold len in *. apply lookup_seqZ. lia.
  - intros x s b s' _. apply read_raw_cell_inv.
Qed.
End read_raw.

(** ** Heights *)

(** The references of the cell at an index. *)
Definition refs_at (raw : list RawCell) (i : Z) : list Z :=
  match get raw i with Some rc => raw_refs rc | None => [] end.

Definition tallest_of (targets : list Z) (height : list Z) : Z :=
  fold_left (λ tallest target, Z.max tallest (default 0 (get height target) + 1)) targets 0.

Lemma tallest_bounds targets height acc :
  let m := fold_left (λ tallest target, Z.max tallest (default 0 (get height target) + 1)) targets acc in
  acc <= m ∧ Forall (λ target, default 0 (get height target) + 1 <= m) targets.
Proof.
  revert acc. induction targets as [|r l IH]; intros acc; simpl; [split; [lia|constructor]|].
  destruct (IH (Z.max acc (default 0 (get height r) + 1))) as [H1 H2]. split; [lia|]. constructor; [lia|done].
Qed.

Lemma tallest_ext targets h1 h2 acc :
  (∀ r, r ∈ targets → get h1 r = get h2 r) →
  fold_left (λ tallest target, Z.max tallest (default 0 (get h1 target) + 1)) targets acc =
  fold_left (λ tallest target, Z.max tallest (default 0 (get h2 target) + 1)) targets acc.
Proof.
  revert acc. induction targets as [|r l IH]; intros acc H; simpl; [done|].
  rewrite (H r) by left. apply IH. intros r' Hr'. apply H. by right.
Qed.

Section heights.
Variables (raw : list RawCell) (count : Z).
Hypothesis Hlen : len raw = count.
Hypothesis Hforward : ∀ i r, 0 <= i < count → r ∈ refs_at raw i → i < r < count.

Definition height_step (height : list Z) (index : Z) : list Z :=
  match get raw index with
  | None => height
  | Some raw_cell => <[Z.to_nat index := tallest_of (raw_refs raw_cell) height]> height
  end.

Lemma heights_run m :
  0 <= m <= count →
  let height := fold_left height_step (reverse (seqZ (count - m) m)) (replicate (Z.to_nat count) 0) in
  len height = count ∧
  (∀ i, count - m <= i < count → get height i = Some (tallest_of (refs_at raw i) height)).
Proof.
  intros [Hm Hs]. revert Hs. pattern m. apply natlike_ind; [..|done]; clear m Hm.
  - intros _. change (seqZ (count - 0) 0) with (@nil Z). cbn. pose proof (len_nonneg raw).
    split; [unfold len; rewrite length_replicate; lia|intros; lia].
  - intros m Hm IH Hs. rewrite <- Z.add_1_r in *. destruct IH as [IHl IHg]; [lia|].
    rewrite seqZ_cons by lia. replace (Z.succ (count - (m + 1))) with (count - m) by lia.
    replace (Z.pred (m + 1)) with m by lia. rewrite reverse_cons, fold_left_app.
    set (height := fold_left height_step (reverse (seqZ (count - m) m)) _) in *. set (i := count - (m + 1)).
    cbn [fold_left]. unfold height_step. destruct (get_lt_Some raw i) as [rc Hrc]; [lia|]. rewrite Hrc.
    assert (refs_at raw i = raw_refs rc) as Er by (unfold refs_at; by rewrite Hrc).
    cbv zeta. rewrite len_insert. split; [done|]. intros j Hj.
    rewrite get_insert by lia. destruct (Z.eqb_spec j i) as [->|].
    + rewrite Er. f_equal. apply tallest_ext. intros r Hr. rewrite <- Er in Hr.
      apply Hforward in Hr; [|lia]. rewrite get_insert by lia. by destruct (Z.eqb_spec r i); [lia|].
    + rewrite IHg by lia. f_equal. apply tallest_ext. intros r Hr.
      apply Hforward in Hr; [|lia]. rewrite get_insert by lia. by destruct (Z.eqb_spec r i); [lia|].
Qed.

Lemma heights_spec height :
  heights raw count = Ok height →
  len height = count ∧ Forall (λ h, 0 <= h <= MAX_DEPTH) height ∧
  ∀ i, 0 <= i < count → get height i = Some (tallest_of (refs_at raw i) height).
Proof.
  pose proof (len_nonneg raw). destruct (heights_run count) as [Hl Hg]; [lia|].
  unfold heights. rewrite Z.sub_diag in *. cbv zeta.
  change (λ (height : list Z) index, match get raw index with
          | Some raw_cell => <[Z.to_nat index := fold_left _ (raw_refs raw_cell) 0]> height
          | None => height end) with height_step.
  set (h := fold_left height_step _ _) in *. destruct (existsb _ h) eqn:E; [done|]. intros [= <-].
  split; [done|]. split; [|done].
  apply Forall_forall. intros x Hx. apply list_elem_of_lookup in Hx as [k Hk]. split.
  - rewrite <- get_of_nat in Hk. pose proof (get_Some_lt _ _ _ Hk).
    rewrite Hg in Hk by lia. injection Hk as <-. apply (tallest_bounds _ h 0).
  - destruct (decide (MAX_DEPTH < x)); [|lia]. exfalso. apply not_true_iff_false in E. apply E.
    apply existsb_exists. exists x. split; [apply list_elem_of_In; by eapply list_elem_of_lookup_2|].
    by apply Z.ltb_lt.
Qed.

Lemma heights_lower height i r h :
  heights raw count = Ok height → get height i = Some h → r ∈ refs_at raw i →
  ∃ h', get height r = Some h' ∧ h' < h.
Proof.
  intros (Hl & _ & Hg)%heights_spec Hi Hr. pose proof (get_Some_lt _ _ _ Hi).
  pose proof (Hforward i r ltac:(lia) Hr). rewrite Hg in Hi by lia. injection Hi as <-.
  destruct (get_lt_Some height r) as [h' Hh']; [lia|]. exists h'. split; [done|].
  destruct (tallest_bounds (refs_at raw i) height 0) as [_ Hf]. rewrite Forall_forall in Hf.
  specialize (Hf r Hr). rewrite Hh' in Hf. simpl in Hf. unfold tallest_of. lia.
Qed.

(** The waves the bag is finished in, and the order the tests hold them to, are
    plans for its cells. *)
Lemma waves_valid height :
  heights raw count = Ok height → valid_plan count (refs_at raw) (Waves.iter (Waves.by_height height)).
Proof.
  intros Hh. destruct (heights_spec height Hh) as (Hl & Hf & _). rewrite <- Hl. apply by_height_valid.
  - eapply Forall_impl; [exact Hf|]. intros x. simpl. lia.
  - intros i r h. by apply heights_lower.
Qed.
End heights.

(** ** Cells out of raw cells *)

(** The cell at an index of a bag, as the bytes tell it. *)
Local Unset Elimination Schemes.
Inductive reads (raw : list RawCell) (bytes : list Z) : Z → Cell → Prop :=
| reads_intro i rc c :
    get raw i = Some rc →
    Span_of (rc_data rc) bytes = Ok (Cell.data c) →
    Cell.bit_len c = rc_bits rc →
    Cell.cell_type c = rc_cell_type rc →
    Cell.level_mask c = rc_level_mask rc →
    Forall2 (reads raw bytes) (raw_refs rc) (Cell.refs c) →
    reads raw bytes i c.
Local Set Elimination Schemes.

(** The chain of references below a cell, at its longest. *)
Fixpoint cell_height (c : Cell) : Z :=
  match inner_refs c with
  | RNone => 0
  | ROne a => Z.max 0 (cell_height a + 1)
  | RTwo a b => Z.max (Z.max 0 (cell_height a + 1)) (cell_height b + 1)
  | RThree a b c => Z.max (Z.max (Z.max 0 (cell_height a + 1)) (cell_height b + 1)) (cell_height c + 1)
  | RFour a b c d =>
      Z.max (Z.max (Z.max (Z.max 0 (cell_height a + 1)) (cell_height b + 1)) (cell_height c + 1))
        (cell_height d + 1)
  end.

Lemma cell_height_refs c :
  cell_height c = fold_left (λ m child, Z.max m (cell_height child + 1)) (Cell.refs c) 0.
Proof. destruct c as [d b r t i]. by destruct r. Qed.
