(* ===== verification/BocParse.v ===== *)
(** The cells of a bag, built (core/src/cell/boc/parse.rs): each is the one its
    bytes tell and well-formed, and only hashing the cells gives the hashes the
    built ones have. *)

From stdpp Require Import base list list_numbers numbers strings.
From Stdlib Require Import ZArith Lia.
From S2P Require Import Prelude Errors Bits CellData CellHash CellModel CellSlice CellBuilder Boc BocWaves BocRun BocCells.

Local Open Scope Z_scope.

(** ** Children *)

(** What is held for a run of references: [None] when one of them failed. *)
Fixpoint gather {T} (targets : list Z) (held : list (option T)) : result CellError (option (list T)) :=
  match targets with
  | [] => Ok (Some [])
  | target :: rest =>
      match get held target with
      | Some (Some child) => let? others := gather rest held in Ok (cons child <$> others)
      | Some None => Ok None
      | None => Err BadReference
      end
  end.

Lemma gather_fmap {T U} (f : T → U) targets (held : list (option T)) :
  gather targets (fmap (M:=list) (fmap (M:=option) f) held) =
    res_map (fmap (M:=option) (fmap (M:=list) f)) (gather targets held).
Proof.
  induction targets as [|t targets IH]; [done|]. simpl. rewrite get_fmap.
  destruct (get held t) as [[c|]|]; [|done..]. simpl. rewrite IH.
  by destruct (gather targets held) as [[l|]|].
Qed.

Lemma gather_inv {T} targets (held : list (option T)) l :
  gather targets held = Ok (Some l) → Forall2 (λ t c, get held t = Some (Some c)) targets l.
Proof.
  revert l. induction targets as [|t targets IH]; intros l H; simpl in H.
  - injection H as <-. constructor.
  - destruct (get held t) as [[c|]|] eqn:E; [|done..].
    destruct (gather targets held) as [[l'|]|]; [|done..]. injection H as <-. constructor; auto.
Qed.

Lemma gather_ext {T} targets (held held' : list (option T)) :
  (∀ r, r ∈ targets → get held r = get held' r) → gather targets held = gather targets held'.
Proof.
  induction targets as [|t targets IH]; intros H; [done|]. simpl. rewrite (H t) by left.
  rewrite IH; [done|]. intros r Hr. apply H. by right.
Qed.

Lemma child_identities_gather targets computed : child_identities targets computed = gather targets computed.
Proof.
  induction targets as [|t targets IH]; [done|]. simpl. destruct (get computed t) as [[c|]|]; [|done..].
  by rewrite IH.
Qed.

Lemma push_refs_gather targets built : ∀ refs,
  len (refs_slice refs) + len targets <= MAX_REFS →
  res_map (fmap (M:=option) refs_slice) (push_refs targets built refs) =
  res_map (fmap (M:=option) (app (refs_slice refs))) (gather targets built).
Proof.
  induction targets as [|t targets IH]; intros refs Hl; simpl; [by rewrite app_nil_r|].
  rewrite len_cons in Hl. pose proof (len_nonneg targets).
  destruct (get built t) as [[c|]|]; [|done..].
  destruct (push_slice c refs) as (refs' & -> & Er); [lia|].
  rewrite IH by (rewrite Er, len_app; change (len [c]) with 1; lia). rewrite Er.
  destruct (gather targets built) as [[l|]|]; [|done..]. simpl. do 2 f_equal. by rewrite <- app_assoc.
Qed.

(** ** One cell *)

Section one.
Context `{HH : Hasher}.

(** Both ways of finishing a cell, its references' identities given. *)
Lemma build_one_summarize rc payload built :
  len (raw_refs rc) <= MAX_REFS →
  res_map (fmap (M:=option) Cell.identity) (build_one rc payload built) =
  summarize_one rc payload (fmap (M:=list) (fmap (M:=option) Cell.identity) built).
Proof.
  intros Hn. unfold build_one, summarize_one. rewrite child_identities_gather, gather_fmap.
  pose proof (push_refs_gather (raw_refs rc) built RNone) as Hp. specialize (Hp ltac:(unfold len in *; simpl; lia)).
  destruct (push_refs (raw_refs rc) built RNone) as [[refs|]|e], (gather (raw_refs rc) built) as [[l|]|e'];
    simpl in Hp; try discriminate Hp; [|done|by injection Hp as ->].
  injection Hp as <-. cbn [res_bind res_map]. simpl fmap.
  unfold window. destruct (Span_of (rc_data rc) payload) as [data|e] eqn:Ed; [|done]. cbn [res_bind res_map].
  rewrite from_parts_summarize.
  assert (payload_slice {| bytes := payload; span := rc_data rc |} = data) as ->
    by (unfold payload_slice; simpl; by rewrite Ed).
  destruct (summarize _ _ _ _ _) as [id|e]; [|done]. cbn [res_bind res_map]. simpl Cell.identity.
  destruct (rc_stored rc) as [stored|]; [|done].
  destruct (Span_of stored payload) as [st|e]; [|done]. cbn [res_bind]. by destruct (check_stored id st).
Qed.

Lemma build_one_ext rc payload built built' :
  (∀ r, r ∈ raw_refs rc → get built r = get built' r) →
  build_one rc payload built = build_one rc payload built'.
Proof.
  intros Hr. unfold build_one. assert (∀ refs, push_refs (raw_refs rc) built refs = push_refs (raw_refs rc) built' refs) as ->;
    [|done]. induction (raw_refs rc) as [|t l IH]; intros refs; [done|]. simpl. rewrite (Hr t) by left.
  destruct (get built' t) as [[c|]|]; [|done..]. destruct (push c refs) as [[[]|] refs']; [|done].
  apply IH. intros r Hr'. apply Hr. by right.
Qed.

Lemma summarize_one_ext rc payload computed computed' :
  (∀ r, r ∈ raw_refs rc → get computed r = get computed' r) →
  summarize_one rc payload computed = summarize_one rc payload computed'.
Proof. intros Hr. unfold summarize_one. by rewrite !child_identities_gather, (gather_ext _ _ _ Hr). Qed.

(** An identity is that of the mask it was computed for. *)
Lemma summarize_mask data bits refs t mask id :
  mask_ok mask → (t = PrunedBranch → mask ≠ 0 ∧ len data = 2 + 34 * count_ones 8 mask) →
  summarize data bits refs t mask = Ok id → id_mask id = mask.
Proof.
  intros Hm Hp. unfold summarize. destruct (negb _); [done|].
  destruct (decide (t = PrunedBranch)) as [->|Ht].
  - destruct Hp as [Hz Hl]; [done|]. rewrite compute_pruned by done. intros [= <-].
    by destruct (_ <$> seqZ _ _) as [|[] ?].
  - rewrite compute_other by done. intros [= <-]. clear -Hm. case_mask mask; reflexivity.
Qed.

(** The cell built of a raw cell is the one its bytes tell, on its references. *)
Lemma build_one_spec bytes count i rc built c :
  raw_ok bytes count i rc → build_one rc bytes built = Ok (Some c) →
  ∃ children, Forall2 (λ t child, get built t = Some (Some child)) (raw_refs rc) children ∧
    Cell.refs c = children ∧ Span_of (rc_data rc) bytes = Ok (Cell.data c) ∧
    Cell.bit_len c = rc_bits rc ∧ Cell.cell_type c = rc_cell_type rc ∧
    Cell.level_mask c = rc_level_mask rc ∧ (Forall cell_wf children → cell_wf c).
Proof.
  intros [Hrefs Hn (data & Ed & Hcomp & Hk) Hbits Hmask] Hb. unfold build_one in Hb.
  pose proof (push_refs_gather (raw_refs rc) built RNone) as Hp. specialize (Hp ltac:(unfold len in *; simpl; lia)).
  destruct (push_refs (raw_refs rc) built RNone) as [[refs|]|e]; simpl in Hb; [|done..].
  destruct (gather (raw_refs rc) built) as [[l|]|e'] eqn:Eg; simpl in Hp; try discriminate Hp. injection Hp as Hp.
  apply gather_inv in Eg. exists l. split; [done|].
  unfold window in Hb. rewrite Ed in Hb. cbn [res_bind] in Hb. rewrite from_parts_summarize in Hb.
  assert (payload_slice {| bytes := bytes; span := rc_data rc |} = data) as Ep
    by (unfold payload_slice; simpl; by rewrite Ed).
  rewrite Ep in Hb. destruct (summarize _ _ _ _ _) as [id|e] eqn:Es; [|done]. cbn [res_bind] in Hb.
  destruct (match rc_stored rc with Some _ => _ | None => _ end); [|done]. injection Hb as <-.
  assert (id_mask id = rc_level_mask rc) as Hid.
  { eapply summarize_mask; [done| |exact Es]. intros Et. unfold kind_rule in Hk. rewrite Et in Hk. tauto. }
  unfold Cell.refs, Cell.data, Cell.bit_len, Cell.cell_type, Cell.level_mask. simpl. rewrite Ep, Ed, Hid.
  do 5 (split; [done|]). intros Hwf. assert (len (raw_refs rc) = len l) as Hlen
    by (unfold len; f_equal; by eapply Forall2_length).
  constructor; unfold kind_ok, Cell.refs, Cell.data, Cell.bit_len, Cell.cell_type, Cell.level_mask, Cell.identity;
    simpl; rewrite ?Ep, ?Hid; [done..| |done|by rewrite Hp].
  rewrite Hp. rewrite Hlen in Hk. unfold kind_rule in Hk.
  assert (len l = 0 → l = []) as Hnil by (destruct l; unfold len; simpl; [done|lia]).
  destruct (rc_cell_type rc); [done|..]; destruct_and? Hk; repeat split;
    first [done | apply Hnil; lia | unfold len in *; lia].
Qed.
End one.

(** ** The bag *)

Section bag.
Context `{HH : Hasher}.
Variables (raw : list RawCell) (bytes : list Z) (header : Boc.Header).
Hypothesis Hlen : len raw = h_count header.
Hypothesis Hraw : ∀ i rc, get raw i = Some rc → raw_ok bytes (h_count header) i rc.

#[local] Abbreviation count := (h_count header).

Lemma refs_at_forward i r : 0 <= i < count → r ∈ refs_at raw i → i < r < count.
Proof.
  intros Hi. unfold refs_at. destruct (get raw i) as [rc|] eqn:E; [|by intros ?%elem_of_nil].
  intros Hr. destruct (Hraw i rc E) as [Hf _ _ _ _]. rewrite Forall_forall in Hf. by apply Hf.
Qed.

(** What finishes the cell at an index, in each of the two passes. *)
Definition build_at' (index : Z) (built : list (option Cell)) : result CellError (option Cell) :=
  match get raw index with
  | Some raw_cell => build_one raw_cell bytes built
  | None => Err BadReference
  end.
Definition summarize_at (index : Z) (computed : list (option Identity)) : result CellError (option Identity) :=
  match get raw index with
  | Some raw_cell => summarize_one raw_cell bytes computed
  | None => Err BadReference
  end.

Lemma build_local i held held' :
  len held = count → len held' = count → 0 <= i < count →
  (∀ r, r ∈ refs_at raw i → get held r = get held' r) → build_at' i held = build_at' i held'.
Proof.
  intros _ _ _. unfold build_at', refs_at. destruct (get raw i); [apply build_one_ext|done].
Qed.

Lemma summarize_local i held held' :
  len held = count → len held' = count → 0 <= i < count →
  (∀ r, r ∈ refs_at raw i → get held r = get held' r) → summarize_at i held = summarize_at i held'.
Proof.
  intros _ _ _. unfold summarize_at, refs_at. destruct (get raw i); [apply summarize_one_ext|done].
Qed.

Lemma build_summarize_at i built :
  res_map (fmap (M:=option) Cell.identity) (build_at' i built) =
  summarize_at i (fmap (M:=list) (fmap (M:=option) Cell.identity) built).
Proof.
  unfold build_at', summarize_at. destruct (get raw i) as [rc|] eqn:E; [|done].
  apply build_one_summarize. by apply (ro_count _ _ _ _ (Hraw i rc E)).
Qed.

Lemma count_nonneg : 0 <= count.
Proof. rewrite <- Hlen. apply len_nonneg. Qed.

#[local] Abbreviation valid waves := (valid_plan count (refs_at raw) (Waves.iter waves)).

(** The same cells and the same failure, under any plan and on any machine. *)
Lemma build_planned_plan p p' waves waves' :
  valid waves → valid waves' →
  build_planned p raw bytes waves header = build_planned p' raw bytes waves' header.
Proof.
  intros Hv Hv'. unfold build_planned. cbv zeta. fold build_at'.
  by rewrite (finalize_unique _ _ _ build_local refs_at_forward p p' waves waves' count_nonneg Hv Hv').
Qed.

(** Every cell of a finished bag is the one its bytes tell, and well-formed. *)
Lemma settled_reads built :
  settled count build_at' built →
  ∀ i c, get built i = Some (Some c) → reads raw bytes i c ∧ cell_wf c.
Proof.
  intros [Hl Hg]. assert (∀ k, 0 <= k → ∀ i c, count - k <= i → get built i = Some (Some c) →
    reads raw bytes i c ∧ cell_wf c) as Hk.
  { intros k Hk. pattern k. apply natlike_ind; [|clear k Hk; intros k Hk IH|done]; intros i c Hi Hc;
      pose proof (get_Some_lt _ _ _ Hc) as Hr; rewrite Hl in Hr; [lia|].
    destruct (decide (count - k <= i)); [by apply IH|].
    rewrite Hg in Hc by done. unfold build_at' in Hc. destruct (get raw i) as [rc|] eqn:Erc; [|done].
    destruct (build_one rc bytes built) as [[c'|]|] eqn:Eb; [|done..]. injection Hc as ->.
    destruct (build_one_spec _ _ _ _ _ _ (Hraw i rc Erc) Eb) as (children & Hch & Er & Ed & En & Et & Em & Hwf).
    assert (Forall2 (reads raw bytes) (raw_refs rc) children ∧ Forall cell_wf children) as [Hrd Hw].
    { destruct (Hraw i rc Erc) as [Hf _ _ _ _]. clear -Hch Hf IH n Hi. induction Hch as [|r x l ch Hx _ IHl]; [done|].
      apply Forall_cons in Hf as [Hrange Hf]. destruct (IHl Hf) as [H1 H2].
      destruct (IH r x) as [H3 H4]; [lia|done|]. by split; constructor. }
    split; [|by apply Hwf]. econstructor; eauto. by rewrite Er. }
  intros i c Hc. apply (Hk count count_nonneg i); [|done]. pose proof (get_Some_lt _ _ _ Hc). lia.
Qed.

(** Where no cell of a finished bag fails, every one of them is there. *)
Lemma settled_total built :
  settled count build_at' built → (∀ i, 0 <= i < count → ∃ v, build_at' i built = Ok v) →
  ∀ i, 0 <= i < count → ∃ c, get built i = Some (Some c).
Proof.
  intros [Hl Hg] Hok. assert (∀ k, 0 <= k → ∀ i, count - k <= i < count → 0 <= i → ∃ c, get built i = Some (Some c)) as Hk.
  { intros k Hk. pattern k. apply natlike_ind; [|clear k Hk; intros k Hk IH|done]; intros i Hi Hi0; [lia|].
    destruct (Hok i) as [v Hv]; [lia|]. rewrite Hg, Hv by lia. destruct v as [c|]; [by exists c|]. exfalso.
    unfold build_at' in Hv. destruct (get raw i) as [rc|] eqn:Erc; [|done]. unfold build_one in Hv.
    pose proof (Hraw i rc Erc) as [Hf Hn _ _ _].
    pose proof (push_refs_gather (raw_refs rc) built RNone ltac:(unfold len in *; simpl; lia)) as Hp.
    assert (∃ l, gather (raw_refs rc) built = Ok (Some l)) as [l Egl].
    { clear -Hf IH Hi Hi0. induction Hf as [|r rs Hr _ IHr]; [by exists []|].
      destruct (IH r) as [c Hc]; [lia|lia|]. destruct IHr as [l Hl]. simpl. rewrite Hc, Hl. by eexists. }
    rewrite Egl in Hp. destruct (push_refs (raw_refs rc) built RNone) as [[refs|]|]; [|done..].
    cbn [res_bind] in Hv. destruct (window bytes (rc_data rc)); [|done]. cbn [res_bind] in Hv.
    destruct (Cell.from_parts _ _ _ _ _); [|done]. cbn [res_bind] in Hv.
    by destruct (match rc_stored rc with Some _ => _ | None => _ end). }
  intros i Hi. apply (Hk count); lia.
Qed.

Lemma roots_of_total {T} (built : list (option T)) root_list :
  (∀ i, i ∈ root_list → ∃ c, get built i = Some (Some c)) → ∃ roots, roots_of built root_list = Ok roots.
Proof.
  induction root_list as [|i l IH]; intros Hr; [by exists []|]. simpl.
  destruct (Hr i) as [c Hc]; [by left|]. rewrite Hc. simpl. destruct IH as [rs ->]; [|by eexists].
  intros j Hj. apply Hr. by right.
Qed.

Lemma roots_of_inv {T} (built : list (option T)) root_list roots :
  roots_of built root_list = Ok roots → Forall2 (λ i c, get built i = Some (Some c)) root_list roots.
Proof.
  revert roots. induction root_list as [|i l IH]; intros roots H; simpl in H; [by injection H as <-|].
  destruct (get built i) as [[c|]|] eqn:E; simpl in H; [|done..].
  destruct (roots_of built l) as [rs|]; [|done]. injection H as <-. constructor; auto.
Qed.

Lemma roots_of_fmap {T U} (f : T → U) built root_list :
  roots_of (fmap (M:=list) (fmap (M:=option) f) built) root_list =
  res_map (fmap (M:=list) f) (roots_of built root_list).
Proof.
  induction root_list as [|i l IH]; [done|]. simpl. rewrite get_fmap.
  destruct (get built i) as [[c|]|]; [|done..]. simpl. rewrite IH. by destruct (roots_of built l).
Qed.

Lemma build_planned_sound p waves roots :
  valid waves → build_planned p raw bytes waves header = Ok roots →
  Forall2 (reads raw bytes) (h_root_list header) roots ∧ Forall cell_wf roots.
Proof.
  intros Hv. destruct (finalize_settles _ _ _ build_local p waves count_nonneg Hv) as [Hs _].
  unfold build_planned. cbv zeta. fold build_at'. destruct (finalize _ _ _ _) as [built lowest].
  simpl in Hs. destruct (into_result lowest); [|done]. simpl. intros Hr%roots_of_inv.
  induction Hr as [|i c l rs Hc _ [IH1 IH2]]; [done|]. destruct (settled_reads _ Hs _ _ Hc). by split; constructor.
Qed.

(** Hashing alone ends as building does. *)
Lemma verify_planned_build p p' waves waves' :
  valid waves → valid waves' →
  verify_planned p raw bytes waves header =
    res_map (fmap (M:=list) Cell.repr_hash) (build_planned p' raw bytes waves' header).
Proof.
  intros Hv Hv'.
  destruct (finalize_settles _ _ _ build_local p' waves' count_nonneg Hv') as [[Hsl Hsg] Hlow].
  destruct (finalize_settles _ _ _ summarize_local p waves count_nonneg Hv) as [Hs' Hlow'].
  unfold verify_planned, build_planned. cbv zeta. fold build_at'. fold summarize_at.
  destruct (finalize p' build_at' count waves') as [built lowest].
  destruct (finalize p summarize_at count waves) as [computed lowest']. simpl in *.
  set (named := fmap (M:=list) (fmap (M:=option) Cell.identity) built).
  assert (settled count summarize_at named) as Hn.
  { split; [by unfold named; rewrite len_fmap|]. intros i Hi. unfold named. rewrite get_fmap, Hsg by done.
    rewrite <- build_summarize_at. by destruct (build_at' i built). }
  pose proof (settled_unique _ _ _ summarize_local refs_at_forward _ _ Hs' Hn) as ->.
  assert (lowest_of summarize_at named (seqZ 0 count) lowest) as Hlow2.
  { unfold lowest_of, named in *. destruct lowest as [[i e]|].
    - destruct Hlow as (Hi & Ei & Hm). split; [done|]. rewrite <- build_summarize_at, Ei. split; [done|].
      intros j Hj Hlt. rewrite <- build_summarize_at. destruct (Hm j Hj Hlt) as [v ->]. by eexists.
    - intros j Hj. rewrite <- build_summarize_at. destruct (Hlow j Hj) as [v ->]. by eexists. }
  rewrite (lowest_unique _ _ _ _ _ Hlow' Hlow2). destruct (into_result lowest); [|done]. simpl.
  unfold named. rewrite roots_of_fmap. destruct (roots_of built _) as [rs|]; [|done]. simpl. f_equal.
  by rewrite <- list_fmap_compose.
Qed.

(** The height of the cell at an index is the one computed for it. *)
Lemma reads_height height i c :
  heights raw count = Ok height → reads raw bytes i c → get height i = Some (cell_height c).
Proof.
  intros Hh. destruct (heights_spec raw count Hlen refs_at_forward height Hh) as (_ & _ & Hg).
  revert i. induction c as [d b r t id IH] using cell_tree_ind. intros i Hr.
  remember (MkCell d b r t id) as c eqn:Ec. destruct Hr as [i rc c Hrc _ _ _ _ Hch].
  pose proof (get_Some_lt _ _ _ Hrc). rewrite Hg by lia. f_equal. rewrite cell_height_refs.
  unfold tallest_of, refs_at. rewrite Hrc. assert (Cell.refs c = refs_slice r) as Er by (by subst c).
  rewrite Er in *. clear -Hch IH.
  assert (∀ acc, fold_left (λ tallest target, Z.max tallest (default 0 (get height target) + 1)) (raw_refs rc) acc =
    fold_left (λ m child, Z.max m (cell_height child + 1)) (refs_slice r) acc) as Hacc; [|apply Hacc].
  revert IH. induction Hch as [|r' x l ch Hx _ IHl]; intros Hf acc; [done|].
  apply Forall_cons in Hf as [Hx' Hf]. simpl. rewrite (Hx' r' Hx). simpl. by apply IHl.
Qed.
End bag.
