(* ===== verification/BocTheorems.v ===== *)
(** Theorems of bags of cells, read (core/src/cell/boc/header.rs,
    core/src/cell/boc/parse.rs). *)

From stdpp Require Import base list list_numbers numbers strings.
From Stdlib Require Import ZArith Lia.
From S2P Require Import Prelude Errors Bits CellData CellHash CellModel CellSlice CellBuilder Boc BocWaves BocRun BocCells BocParse.

Local Open Scope Z_scope.

(** ** The header *)

(** What a header read says of the bag. *)
Record header_ok (bytes : list Z) (options : ParseOptions) (header : Boc.Header) : Prop := {
  ho_count : 0 <= h_count header <= ParseOptions.cell_ceiling options;
  ho_ref_size : 1 <= h_ref_size header <= 4;
  ho_roots : 1 <= len (h_root_list header) <= ParseOptions.cell_ceiling options;
  ho_root_list : Forall (λ index, 0 <= index < h_count header) (h_root_list header);
  ho_checksum : h_has_checksum header = true → check_crc bytes = Ok tt;
}.

Lemma read_header_inv bytes options rd header rd' :
  Forall is_byte bytes → reading bytes rd → read_header bytes options rd = (Ok header, rd') →
  reading bytes rd' ∧ h_body_offset header = r_at rd' ∧ header_ok bytes options header.
Proof.
  intros Hb Hr H. unfold read_header in H.
  apply st_bind_inv in H as (magic & s1 & H1 & H). apply (reader_take_inv bytes Hb) in H1 as (Hs1 & _); [|done..].
  case_if; [done|]. clear Hc.
  apply st_bind_inv in H as (flags & s2 & H2 & H). apply (byte_inv bytes Hb) in H2 as (Hs2 & _); [|done..].
  apply st_bind_inv in H as (offset_size & s3 & H3 & H).
  apply (byte_inv bytes Hb) in H3 as (Hs3 & _); [|done..].
  set (ref_size := Z.land flags 7) in *. case_if; [done|]. apply negb_false_iff in Hc.
  apply andb_true_iff in Hc as [Hr1%Z.leb_le Hr4%Z.leb_le].
  case_if; [done|]. apply negb_false_iff in Hc. apply andb_true_iff in Hc as [Ho1%Z.leb_le Ho8%Z.leb_le].
  apply st_bind_inv in H as (u & s4 & H4 & H).
  assert (s4 = s3 ∧ (negb (Z.land flags 64 =? 0) = true → check_crc bytes = Ok tt)) as [-> Hcrc].
  { destruct (negb (Z.land flags 64 =? 0)); injection H4 as H4 <-; [|done]. split; [done|]. by destruct u. }
  apply st_bind_inv in H as (count & s5 & H5 & H). apply (uint_inv bytes Hb) in H5 as (Hs5 & _ & Hcount); [|done|lia].
  apply st_bind_inv in H as (roots & s6 & H6 & H). apply (uint_inv bytes Hb) in H6 as (Hs6 & _ & Hroots); [|done|lia].
  apply st_bind_inv in H as (absent & s7 & H7 & H). apply (uint_inv bytes Hb) in H7 as (Hs7 & _ & _); [|done|lia].
  apply st_bind_inv in H as (area & s8 & H8 & H). apply (uint_inv bytes Hb) in H8 as (Hs8 & _ & _); [|done|lia].
  destruct (negb (absent =? 0)); [done|].
  destruct (Z.ltb_spec (ParseOptions.cell_ceiling options) count); [done|].
  destruct ((roots =? 0) || (ParseOptions.cell_ceiling options <? roots)) eqn:Hc; [done|].
  apply orb_false_iff in Hc as [Hz%Z.eqb_neq Hroots'%Z.ltb_ge].
  apply st_bind_inv in H as (rd0 & s9 & [= <- <-] & H).
  destruct (_ <? saturating_mul USIZE_MAX count 2); [done|].
  destruct (_ <? saturating_mul USIZE_MAX roots ref_size); [done|].
  apply st_bind_inv in H as (root_list & s10 & H10 & H).
  apply (st_map_inv (reading bytes) (λ _ index, 0 <= index < count)) in H10 as [Hs10 Hf]; [|..|done].
  2:{ intros _ s b s' _ Hs Hx. apply st_bind_inv in Hx as (index & s0 & Hu & Hx).
      apply (uint_inv bytes Hb) in Hu as (Hs0 & _ & Hi); [|done|lia].
      destruct (Z.leb_spec count index); [done|]. injection Hx as <- <-. split; [done|lia]. }
  apply st_bind_inv in H as (u' & s11 & H11 & H).
  assert (reading bytes s11) as Hs11.
  { destruct (negb (Z.land flags 128 =? 0)); [|by injection H11 as _ <-].
    apply st_bind_inv in H11 as (o & s0 & Ht & [= _ <-]).
    apply (reader_take_inv bytes Hb) in Ht as (Hs0 & _); [done..|]. unfold saturating_mul, USIZE_MAX, U64_MAX. lia. }
  apply st_bind_inv in H as (rd1 & s12 & [= <- <-] & H).
  destruct (checked_add _ _ _) as [stated_end|]; [|done]. destruct (negb (stated_end =? _)); [done|]. injection H as <- <-.
  split; [done|]. split; [done|]. split; simpl; [lia|lia| | |done].
  - unfold len. rewrite <- (Forall2_length _ _ _ Hf), length_seqZ. lia.
  - by eapply Forall2_Forall_r, Forall_true.
Qed.

(** ** Reading a bag *)

Section theorems.
Context `{HH : Hasher}.

(** The steps a parse that ends well goes through. *)
Lemma parse_boc_steps p bytes options roots :
  Forall is_byte bytes → parse_boc_with p bytes options = Ok roots →
  ∃ header rd raw rd' height,
    read_header bytes options (MkReader bytes 0) = (Ok header, rd) ∧ reading bytes rd ∧
    header_ok bytes options header ∧ read_raw header rd = (Ok raw, rd') ∧
    len raw = h_count header ∧ (∀ i rc, get raw i = Some rc → raw_ok bytes (h_count header) i rc) ∧
    heights raw (h_count header) = Ok height ∧
    build_planned p raw bytes (Waves.by_height height) header = Ok roots.
Proof.
  intros Hb. unfold parse_boc_with.
  assert (reading bytes (MkReader bytes 0)) as Hr by (split; simpl; [done|]; pose proof (len_nonneg bytes); lia).
  unfold st_bind at 1. destruct (read_header bytes options (MkReader bytes 0)) as [[header|e] rd] eqn:Eh; [|done].
  destruct (read_header_inv _ _ _ _ _ Hb Hr Eh) as (Hrd & _ & Hok). unfold read_and_build, st_get, st_lift.
  unfold st_bind. destruct (read_raw header rd) as [[raw|e] rd'] eqn:Er; [|done].
  destruct (read_raw_inv bytes header Hb) with rd raw rd' as (_ & Hl & Hraw);
    [destruct Hok; lia|destruct Hok; lia|done|done|].
  destruct (heights raw (h_count header)) as [height|e] eqn:Ehe; [|done]. cbn [fst].
  pose proof Hrd as [-> _]. intros Hbuild. exists header, rd, raw, rd', height. split_and!; done.
Qed.

(** What a parse that succeeds reads, root by root. *)
Lemma parse_boc_reads p bytes options roots :
  Forall is_byte bytes → parse_boc_with p bytes options = Ok roots →
  ∃ header rd raw rd',
    read_header bytes options (MkReader bytes 0) = (Ok header, rd) ∧ read_raw header rd = (Ok raw, rd') ∧
    Forall2 (reads raw bytes) (h_root_list header) roots ∧ Forall cell_wf roots.
Proof.
  intros Hb (header & rd & raw & rd' & height & Eh & _ & _ & Er & Hl & Hraw & Ehe & Hbuild)%parse_boc_steps; [|done].
  exists header, rd, raw, rd'. do 2 (split; [done|]).
  eapply build_planned_sound; [done..| |exact Hbuild].
  apply waves_valid; [done| |done]. by apply (refs_at_forward raw bytes header).
Qed.

Lemma parse_boc_wf p bytes roots : Forall is_byte bytes → parse_boc p bytes = Ok roots → Forall cell_wf roots.
Proof. intros Hb Hp. by destruct (parse_boc_reads _ _ _ _ Hb Hp) as (? & ? & ? & ? & _ & _ & _ & ?). Qed.

(** C8: every root a parse returns is the cell the bytes tell at that root's index:
    the same data, kind, mask and references, all the way down, for a raw bag read
    from those bytes; and every one is a well-formed cell, whatever the bytes. *)
Theorem parse_boc_sound p bytes options roots :
  Forall is_byte bytes → parse_boc_with p bytes options = Ok roots →
  ∃ header rd raw rd',
    read_header bytes options (MkReader bytes 0) = (Ok header, rd) ∧ read_raw header rd = (Ok raw, rd') ∧
    Forall2 (reads raw bytes) (h_root_list header) roots ∧ Forall cell_wf roots.
Proof. apply parse_boc_reads. Qed.

(** C35: a parse takes no more than it is allowed: at least one root and no more of
    them than the ceiling, no more cells than the ceiling, and no chain of
    references below a root longer than the bound on depth. *)
Theorem parse_boc_bounds p bytes options roots :
  Forall is_byte bytes → parse_boc_with p bytes options = Ok roots →
  1 <= len roots <= Z.min (max_cells options) MAX_CELLS ∧
  Forall (λ root, cell_height root <= MAX_DEPTH) roots ∧
  ∃ header rd, read_header bytes options (MkReader bytes 0) = (Ok header, rd) ∧
    h_count header <= Z.min (max_cells options) MAX_CELLS.
Proof.
  intros Hb (header & rd & raw & rd' & height & Eh & _ & Hok & Er & Hl & Hraw & Ehe & Hbuild)%parse_boc_steps; [|done].
  pose proof (refs_at_forward raw bytes header Hraw) as Hf.
  apply (build_planned_sound raw bytes header Hl Hraw) in Hbuild as [Hrd _]; [|by apply waves_valid].
  destruct Hok as [Hcount _ Hroots _ _]. unfold ParseOptions.cell_ceiling in *. split; [|split].
  - unfold len in *. by rewrite <- (Forall2_length _ _ _ Hrd).
  - eapply Forall2_Forall_r; [exact Hrd|]. apply Forall_true. intros i c Hc.
    pose proof (reads_height raw bytes header Hl Hraw height i c Ehe Hc) as Hh.
    destruct (heights_spec raw (h_count header) Hl Hf height Ehe) as (_ & Hmax & _).
    rewrite Forall_forall in Hmax. apply Hmax. unfold get in Hh. destruct (i <? 0); [done|].
    by eapply list_elem_of_lookup_2.
  - exists header, rd. split; [done|lia].
Qed.

(** The cells, and on a failure the error, do not depend on the number of
    workers, nor on the waves: finishing one cell at a time from the last index
    down, on any machine, ends as the parse does. *)
Theorem parse_boc_planned p p' bytes options header rd raw rd' height :
  Forall is_byte bytes → read_header bytes options (MkReader bytes 0) = (Ok header, rd) →
  read_raw header rd = (Ok raw, rd') → heights raw (h_count header) = Ok height →
  parse_boc_with p bytes options =
    build_planned p' raw bytes (Waves.descending (h_count header)) header.
Proof.
  intros Hb Eh Er Ehe. assert (reading bytes (MkReader bytes 0)) as Hr0
    by (split; simpl; [done|]; pose proof (len_nonneg bytes); lia).
  destruct (read_header_inv _ _ _ _ _ Hb Hr0 Eh) as (Hrd & _ & Hok).
  destruct Hok as [Hcount Hrs _ _ _].
  destruct (read_raw_inv bytes header Hb) with rd raw rd' as (_ & Hl & Hraw); [lia|lia|done|done|].
  pose proof (refs_at_forward raw bytes header Hraw) as Hf.
  unfold parse_boc_with. erewrite st_bind_ok by exact Eh. unfold read_and_build, st_get, st_lift, st_bind.
  rewrite Er, Ehe. simpl. destruct Hrd as [-> _].
  apply build_planned_plan; [done..|by apply waves_valid|apply descending_valid; [lia|done]].
Qed.

(** Once a bag's cells are read and within the bound on depth, its parse fails
    exactly where finishing one of them does, and with the failure of the lowest
    index: every cell before it is finished, or left over a failure after it. *)
Theorem parse_boc_error p bytes options header rd raw rd' height e :
  Forall is_byte bytes → read_header bytes options (MkReader bytes 0) = (Ok header, rd) →
  read_raw header rd = (Ok raw, rd') → heights raw (h_count header) = Ok height →
  parse_boc_with p bytes options = Err e ↔
  ∃ built i, settled (h_count header) (build_at' raw bytes) built ∧ 0 <= i < h_count header ∧
    build_at' raw bytes i built = Err e ∧ ∀ j, 0 <= j < i → ∃ v, build_at' raw bytes j built = Ok v.
Proof.
  intros Hb Eh Er Ehe. assert (reading bytes (MkReader bytes 0)) as Hr0
    by (split; simpl; [done|]; pose proof (len_nonneg bytes); lia).
  destruct (read_header_inv _ _ _ _ _ Hb Hr0 Eh) as (Hrd & _ & Hok).
  destruct Hok as [Hcount Hrs _ Hlist _].
  destruct (read_raw_inv bytes header Hb) with rd raw rd' as (_ & Hl & Hraw); [lia|lia|done|done|].
  pose proof (refs_at_forward raw bytes header Hraw) as Hf.
  destruct (finalize_settles _ _ _ (build_local raw bytes header) p (Waves.by_height height)) as [Hs Hlow];
    [lia|by apply waves_valid|].
  assert (parse_boc_with p bytes options = build_planned p raw bytes (Waves.by_height height) header) as ->.
  { unfold parse_boc_with. erewrite st_bind_ok by exact Eh. unfold read_and_build, st_get, st_lift, st_bind.
    rewrite Er, Ehe. simpl. by destruct Hrd as [-> _]. }
  unfold build_planned. cbv zeta. fold (build_at' raw bytes).
  destruct (finalize _ _ _ _) as [built lowest]. cbn [fst snd] in Hs, Hlow.
  assert (∀ built', settled (h_count header) (build_at' raw bytes) built' → built' = built) as Huniq.
  { intros built' Hs'. by eapply settled_unique; [apply (build_local raw bytes header)| |..]. }
  destruct lowest as [[k f]|]; cbn [into_result res_bind].
  - destruct Hlow as (Hk%elem_of_seqZ & Ek & Hm). split.
    + intros [= ->]. exists built, k. split; [done|]. split; [lia|]. split; [done|].
      intros j Hj. apply Hm; [apply elem_of_seqZ; lia|lia].
    + intros (built' & i & Hs' & Hi & Ei & Hmi). rewrite (Huniq _ Hs') in *.
      destruct (Z.lt_trichotomy i k) as [Hlt|[->|Hlt]].
      * destruct (Hm i) as [v Hv]; [apply elem_of_seqZ; lia|done|congruence].
      * congruence.
      * destruct (Hmi k) as [v Hv]; [lia|congruence].
  - assert (∀ i, 0 <= i < h_count header → ∃ v, build_at' raw bytes i built = Ok v) as Hall.
    { intros i Hi. apply Hlow, elem_of_seqZ. lia. }
    destruct (roots_of_total built (h_root_list header)) as [roots ->].
    { intros i Hi. rewrite Forall_forall in Hlist. apply (settled_total raw bytes header Hraw built Hs Hall), Hlist, Hi. }
    split; [done|]. intros (built' & i & Hs' & Hi & Ei & _). rewrite (Huniq _ Hs') in Ei.
    destruct (Hall i Hi); congruence.
Qed.
End theorems.
