(* ===== verification/BocWrite.v ===== *)
(** Bags of cells, written (core/src/cell/boc/serialize.rs) and written a chunk
    at a time (core/src/cell/boc/large.rs). *)

From stdpp Require Import base gmap list list_numbers numbers strings.
From Stdlib Require Import ZArith Lia.
From S2P Require Import Prelude Errors Bits CellData CellHash CellModel Boc.

Local Open Scope Z_scope.

Definition byte_width (value : Z) : Z :=
  let bits := 64 - leading_zeros 64 value in
  Z.max (div_ceil bits 8) 1.

Definition push_be (out : list Z) (value width : Z) : list Z :=
  out ++ drop (Z.to_nat (saturating_sub 8 width)) (to_be_bytes 8 value).

(** ** The order *)

Inductive Step : Type :=
| Visit (cell : Cell)
| Emit (cell : Cell).

(** The depth-first walk. The head of [stack] is the step popped next, and [order]
    grows at its end, the way the vector does. *)
Fixpoint walk_cells (fuel : nat) (stack : list Step) (seen : gset (list Z)) (order : list Cell) :
    list Cell :=
  match fuel, stack with
  | O, _ | _, [] => order
  | S fuel', Visit cell :: stack =>
      if bool_decide (Cell.repr_hash cell ∈ seen) then walk_cells fuel' stack seen order
      else walk_cells fuel' ((Visit <$> Cell.refs cell) ++ Emit cell :: stack)
             ({[Cell.repr_hash cell]} ∪ seen) order
  | S fuel', Emit cell :: stack => walk_cells fuel' stack seen (order ++ [cell])
  end.

(** Steps enough for the walk below a cell, were nothing in it shared. *)
Fixpoint walk_steps (c : Cell) : nat :=
  match inner_refs c with
  | RNone => 2
  | ROne a => 2 + walk_steps a
  | RTwo a b => 2 + (walk_steps a + walk_steps b)
  | RThree a b c => 2 + (walk_steps a + (walk_steps b + walk_steps c))
  | RFour a b c d => 2 + (walk_steps a + (walk_steps b + (walk_steps c + walk_steps d)))
  end.

Definition index_of (order : list Cell) : gmap (list Z) Z :=
  fold_left (λ positions '(index, cell), <[Cell.repr_hash cell := index]> positions)
    (zip (seqZ 0 (len order)) order) ∅.

Definition topological (roots : list Cell) : result CellError (list Cell * list (list Z)) :=
  let order :=
    reverse (walk_cells (sum_list (walk_steps <$> roots)) (Visit <$> roots) ∅ []) in
  let index_of := index_of order in
  let? children := res_fold (λ children cell,
    let? indices := res_fold (λ indices child,
      let? index := ok_or (index_of !! Cell.repr_hash child)
                      (Malformed "a reference was not reachable") in
      Ok (indices ++ [index])) (Cell.refs cell) [] in
    Ok (children ++ [indices])) order [] in
  Ok (order, children).

(** ** Options *)

Record BocOptions : Type := MkBocOptions { bo_index : bool; bo_crc32c : bool; bo_stored_hashes : bool }.

Module BocOptions.
Definition default : BocOptions := MkBocOptions false true false.
Definition with_index (self : BocOptions) (index : bool) : BocOptions :=
  MkBocOptions index (bo_crc32c self) (bo_stored_hashes self).
Definition with_checksum (self : BocOptions) (crc32c : bool) : BocOptions :=
  MkBocOptions (bo_index self) crc32c (bo_stored_hashes self).
Definition with_stored_hashes (self : BocOptions) (stored_hashes : bool) : BocOptions :=
  MkBocOptions (bo_index self) (bo_crc32c self) stored_hashes.
End BocOptions.

(** ** One buffer *)

(** One round of the loop over the cells: the cell's descriptors, the hashes and
    depths asked for, its data and its references. *)
Definition push_cell (stored_hashes : bool) (ref_size : Z) (body : list Z) (cell : Cell) (refs : list Z) :
    list Z :=
  let '(d1, d2) := Cell.stored_descriptors cell in
  let body := body ++ [if stored_hashes then Z.lor d1 WITH_HASHES else d1] in
  let body := body ++ [d2] in
  let body := if stored_hashes then Identity.write_stored (Cell.identity cell) body else body in
  let body := body ++ Cell.data cell in
  fold_left (λ body index, push_be body index ref_size) refs body.

(** The flags byte: the two choices on top, the reference size below. *)
Definition flags_byte (ref_size : Z) (options : BocOptions) : Z :=
  let flags := wrap 8 ref_size in
  let flags := if bo_index options then Z.lor flags 128 else flags in
  if bo_crc32c options then Z.lor flags 64 else flags.

Definition to_le_bytes (n : nat) (v : Z) : list Z := reverse (to_be_bytes n v).

Definition serialize_boc_with (roots : list Cell) (options : BocOptions) : result CellError (list Z) :=
  if len roots =? 0 then Err (Errors.Header "root count")
  else
  let? ' (order, children) := topological roots in
  let count := len order in
  if MAX_CELLS <? count then Err (TooManyCells MAX_CELLS)
  else
  let positions := index_of order in
  let ref_size := byte_width count in
  let '(body, offsets) := fold_left (λ '(body, offsets) '(cell, refs),
    let body := push_cell (bo_stored_hashes options) ref_size body cell refs in
    (body, offsets ++ [len body])) (zip order children) ([], []) in
  let offset_size := byte_width (len body) in
  let out := MAGIC in
  let out := out ++ [flags_byte ref_size options] in
  let out := out ++ [wrap 8 offset_size] in
  let out := push_be out count ref_size in
  let out := push_be out (len roots) ref_size in
  let out := push_be out 0 ref_size in
  let out := push_be out (len body) offset_size in
  let? out := res_fold (λ out root,
    let? index := ok_or (positions !! Cell.repr_hash root) (Malformed "a root was not reachable") in
    Ok (push_be out index ref_size)) roots out in
  let out :=
    if bo_index options then fold_left (λ out offset, push_be out offset offset_size) offsets out
    else out in
  let out := out ++ body in
  if bo_crc32c options then Ok (out ++ to_le_bytes 4 (crc32c out)) else Ok out.

Definition serialize_boc (roots : list Cell) : result CellError (list Z) :=
  serialize_boc_with roots BocOptions.default.

Definition file_hash `{Hasher} (bag : list Z) : list Z := sha256 bag.

(** ** In chunks *)

Definition CHUNK_TARGET : Z := 16 * 1024.

Inductive Phase : Type := PHeader | PBody | PCrc | PDone.

Record BocChunks : Type := MkBocChunks {
  bc_order : list Cell;
  bc_children : list (list Z);
  bc_ref_size : Z;
  bc_header : option (list Z);
  bc_crc_enabled : bool;
  bc_stored_hashes : bool;
  bc_running_crc : Z;
  bc_cursor : Z;
  bc_phase : Phase;
}.

Definition serialize_boc_chunks_with (roots : list Cell) (options : BocOptions) :
    result CellError BocChunks :=
  if len roots =? 0 then Err (Errors.Header "root count")
  else
  let? ' (order, children) := topological roots in
  let count := len order in
  if MAX_CELLS <? count then Err (TooManyCells MAX_CELLS)
  else
  let ref_size := byte_width count in
  let '(body_len, offsets) := fold_left (λ '(body_len, offsets) '(cell, refs),
    let stored := if bo_stored_hashes options then Identity.stored_len (Cell.identity cell) else 0 in
    let body_len := body_len + (2 + stored + len (Cell.data cell) + len (refs : list Z) * ref_size) in
    (body_len, offsets ++ [body_len])) (zip order children) (0, []) in
  let offset_size := byte_width body_len in
  let positions := index_of order in
  let header := MAGIC in
  let header := header ++ [flags_byte ref_size options] in
  let header := header ++ [wrap 8 offset_size] in
  let header := push_be header count ref_size in
  let header := push_be header (len roots) ref_size in
  let header := push_be header 0 ref_size in
  let header := push_be header body_len offset_size in
  let? header := res_fold (λ header root,
    let? index := ok_or (positions !! Cell.repr_hash root) (Malformed "a root was not reachable") in
    Ok (push_be header index ref_size)) roots header in
  let header :=
    if bo_index options then fold_left (λ header offset, push_be header offset offset_size) offsets header
    else header in
  Ok (MkBocChunks order children ref_size (Some header) (bo_crc32c options) (bo_stored_hashes options)
        (crc32c_update CRC32C_INIT header) 0 PHeader).

Definition serialize_boc_chunks (roots : list Cell) : result CellError BocChunks :=
  serialize_boc_chunks_with roots BocOptions.default.

Module BocChunks.
(** The inner loop of [next]: cells into [chunk] until it reaches its target. *)
Fixpoint fill (fuel : nat) (self : BocChunks) (cursor : Z) (chunk : list Z) : list Z * Z :=
  match fuel with
  | O => (chunk, cursor)
  | S fuel' =>
      if (cursor <? len (bc_order self)) && (len chunk <? CHUNK_TARGET) then
        let chunk :=
          match get (bc_order self) cursor, get (bc_children self) cursor with
          | Some cell, Some refs => push_cell (bc_stored_hashes self) (bc_ref_size self) chunk cell refs
          | _, _ => chunk
          end in
        fill fuel' self (cursor + 1) chunk
      else (chunk, cursor)
  end.

Definition with_phase (self : BocChunks) (phase : Phase) : BocChunks :=
  MkBocChunks (bc_order self) (bc_children self) (bc_ref_size self) (bc_header self)
    (bc_crc_enabled self) (bc_stored_hashes self) (bc_running_crc self) (bc_cursor self) phase.

(** One turn of the loop of [next]: [inl] returns, [inr] goes round again. *)
Definition turn (self : BocChunks) : (option (list Z) * BocChunks) + BocChunks :=
  match bc_phase self with
  | PHeader =>
      inl (bc_header self,
        MkBocChunks (bc_order self) (bc_children self) (bc_ref_size self) None
          (bc_crc_enabled self) (bc_stored_hashes self) (bc_running_crc self) (bc_cursor self) PBody)
  | PBody =>
      if len (bc_order self) <=? bc_cursor self
      then inr (with_phase self (if bc_crc_enabled self then PCrc else PDone))
      else
        let '(chunk, cursor) := fill (length (bc_order self)) self (bc_cursor self) [] in
        inl (Some chunk,
          MkBocChunks (bc_order self) (bc_children self) (bc_ref_size self) (bc_header self)
            (bc_crc_enabled self) (bc_stored_hashes self)
            (crc32c_update (bc_running_crc self) chunk) cursor PBody)
  | PCrc => inl (Some (to_le_bytes 4 (Z.lxor (bc_running_crc self) U32_MAX)), with_phase self PDone)
  | PDone => inl (None, self)
  end.

(** The loop goes round at most once, out of the body into what follows it. *)
Definition next (self : BocChunks) : option (list Z) * BocChunks :=
  match turn self with
  | inl out => out
  | inr self => match turn self with inl out => out | inr self => (None, self) end
  end.

(** A run of the iterator to its end: the chunks [next] gives in order, and the
    iterator its first [None] leaves. *)
Inductive drained : BocChunks → list (list Z) → BocChunks → Prop :=
  | drained_end self finished : next self = (None, finished) → drained self [] finished
  | drained_next self chunk self' pieces finished :
      next self = (Some chunk, self') → drained self' pieces finished →
      drained self (chunk :: pieces) finished.
End BocChunks.
