(* ===== verification/BocOrder.v ===== *)
(** The order a bag is written in (core/src/cell/boc/serialize.rs): the walk ends,
    names each cell once, and puts a cell before the cells it refers to. *)

From stdpp Require Import base gmap list list_numbers numbers strings.
From Stdlib Require Import ZArith Lia.
From S2P Require Import Prelude Errors Bits CellData CellHash CellModel CellBuilder Boc BocWaves BocRun BocCells BocWrite.

Local Open Scope Z_scope.

#[local] Abbreviation name := Cell.repr_hash.

Definition step_cell (s : Step) : Cell := match s with Visit c | Emit c => c end.

(** What a stack of steps may still take. *)
Definition step_weight (s : Step) : nat := match s with Visit c => walk_steps c | Emit _ => 1 end.
Definition stack_weight (stack : list Step) : nat := sum_list (step_weight <$> stack).

Lemma walk_steps_refs c : walk_steps c = (2 + sum_list (walk_steps <$> Cell.refs c))%nat.
Proof. destruct c as [d b r t i]. destruct r; simpl; lia. Qed.

Lemma stack_weight_app s1 s2 : stack_weight (s1 ++ s2) = (stack_weight s1 + stack_weight s2)%nat.
Proof. unfold stack_weight. rewrite fmap_app. induction (step_weight <$> s1); simpl; lia. Qed.

Lemma stack_weight_visits cs : stack_weight (Visit <$> cs) = sum_list (walk_steps <$> cs).
Proof. unfold stack_weight. by rewrite <- list_fmap_compose. Qed.

Lemma stack_weight_cons s stack : stack_weight (s :: stack) = (step_weight s + stack_weight stack)%nat.
Proof. done. Qed.

Section walk.
(** The cells reached, closed under references, where a hash tells the height. *)
Variable P : Cell → Prop.
Hypothesis P_refs : ∀ c x, P c → x ∈ Cell.refs c → P x.
Hypothesis P_height : ∀ a b, P a → P b → name a = name b → cell_height a = cell_height b.

Lemma child_height c x : x ∈ Cell.refs c → cell_height x < cell_height c.
Proof.
  intros Hx. rewrite (cell_height_refs c).
  assert (∀ l acc, acc <= fold_left (λ m child, Z.max m (cell_height child + 1)) l acc ∧
    (x ∈ l → cell_height x < fold_left (λ m child, Z.max m (cell_height child + 1)) l acc)) as Hf.
  { induction l as [|y l IH]; intros acc; simpl; [split; [lia|by intros ?%elem_of_nil]|].
    destruct (IH (Z.max acc (cell_height y + 1))) as [H1 H2]. split; [lia|].
    intros [->|H]%elem_of_cons; [lia|by apply H2]. }
  by apply Hf.
Qed.

(** The steps still to be taken are in order: an emission waits below its cell's
    children, written already or named above it, and below shallower cells only. *)
Fixpoint stack_ok (written : list Cell) (above : list Cell) (stack : list Step) : Prop :=
  match stack with
  | [] => True
  | Visit x :: stack => stack_ok written (x :: above) stack
  | Emit c :: stack =>
      (∀ x, x ∈ Cell.refs c → name x ∈ name <$> written ∨ name x ∈ name <$> above) ∧
      (∀ a, a ∈ above → cell_height a < cell_height c) ∧
      stack_ok written (c :: above) stack
  end.

Lemma stack_ok_weaken stack : ∀ written written' above above',
  stack_ok written above stack →
  (∀ h, h ∈ name <$> written ∨ h ∈ name <$> above → h ∈ name <$> written' ∨ h ∈ name <$> above') →
  (∀ a, a ∈ above' → ∃ b, b ∈ above ∧ cell_height a <= cell_height b) →
  stack_ok written' above' stack.
Proof.
  induction stack as [|[x|c] stack IH]; intros written written' above above' Hok Hn Hh; [done|..].
  - eapply IH; [exact Hok|..].
    + intros h. rewrite !fmap_cons, !elem_of_cons. specialize (Hn h). tauto.
    + intros a [->|Ha]%elem_of_cons; [exists x; split; [left|lia]|].
      destruct (Hh a Ha) as (b & Hb & ?). exists b. split; [by right|done].
  - destruct Hok as (Hk & Ha & Hok). split; [|split].
    + intros x Hx. apply Hn, Hk, Hx.
    + intros a Hin. destruct (Hh a Hin) as (b & Hb & ?). specialize (Ha b Hb). lia.
    + eapply IH; [exact Hok|..].
      * intros h. rewrite !fmap_cons, !elem_of_cons. specialize (Hn h). tauto.
      * intros a [->|Hin]%elem_of_cons; [exists c; split; [left|lia]|].
        destruct (Hh a Hin) as (b & Hb & ?). exists b. split; [by right|done].
Qed.

Lemma stack_ok_visits written cs : ∀ above stack,
  stack_ok written (reverse cs ++ above) stack → stack_ok written above ((Visit <$> cs) ++ stack).
Proof.
  induction cs as [|c cs IH]; intros above stack H; [done|].
  rewrite reverse_cons, <- app_assoc in H. by apply IH.
Qed.

(** An emission below a cell of the same name is of one as high, and so there is
    none: what is named again has been written. *)
Lemma stack_ok_emit written stack : ∀ above a c,
  stack_ok written above stack → a ∈ above → Emit c ∈ stack → cell_height a < cell_height c.
Proof.
  induction stack as [|s stack IH]; intros above a c Hok Ha Hc; [by apply elem_of_nil in Hc|].
  apply elem_of_cons in Hc as [<-|Hc].
  - by apply Hok.
  - destruct s as [x|d]; simpl in Hok; [|destruct Hok as (_ & _ & Hok)]; eapply IH; [exact Hok|by right|done|
      exact Hok|by right|done].
Qed.

(** The cells written, each after the cells it refers to. *)
Definition written_ok (written : list Cell) : Prop :=
  ∀ before c after x, written = before ++ c :: after → x ∈ Cell.refs c → name x ∈ name <$> before.

Definition emitted (stack : list Step) : list (list Z) :=
  omap (λ s, match s with Emit c => Some (name c) | Visit _ => None end) stack.

Record walk_ok (stack : list Step) (seen : gset (list Z)) (written : list Cell) : Prop := {
  wk_cells : Forall P (step_cell <$> stack) ∧ Forall P written;
  wk_seen : ∀ h, h ∈ seen ↔ h ∈ (name <$> written) ++ emitted stack;
  wk_nodup : NoDup ((name <$> written) ++ emitted stack);
  wk_stack : stack_ok written [] stack;
  wk_written : written_ok written;
}.

Lemma emitted_visits cs stack : emitted ((Visit <$> cs) ++ stack) = emitted stack.
Proof. by induction cs. Qed.

Lemma elem_of_emitted h stack : h ∈ emitted stack ↔ ∃ c, Emit c ∈ stack ∧ name c = h.
Proof.
  unfold emitted. rewrite list_elem_of_omap. split.
  - intros ([x|c] & Hs & [= <-]). eauto.
  - intros (c & Hs & <-). exists (Emit c). eauto.
Qed.

Lemma walk_visit_seen c stack seen written :
  walk_ok (Visit c :: stack) seen written → name c ∈ seen → walk_ok stack seen written.
Proof.
  intros [[Hs Hw] Hseen Hnd Hst Hwr] Hc. rewrite fmap_cons, Forall_cons in Hs. destruct Hs as [Pc Hs]. simpl in Hst.
  change (emitted (Visit c :: stack)) with (emitted stack) in *.
  split; [done..| |done]. apply (stack_ok_weaken _ written written [c] []); [done| |by intros ? ?%elem_of_nil].
  intros h [Hh|Hh]; [by left|]. apply list_elem_of_singleton in Hh as ->. left.
  apply Hseen, elem_of_app in Hc as [Hc|Hc]; [done|]. exfalso.
  apply elem_of_emitted in Hc as (d & Hd & Ed).
  pose proof (stack_ok_emit _ _ _ c d Hst ltac:(by left) Hd) as Hlt.
  assert (P d) as Pd. { rewrite Forall_fmap, Forall_forall in Hs. by apply (Hs (Emit d)). }
  rewrite (P_height c d) in Hlt by done. lia.
Qed.

Lemma walk_visit_new c stack seen written :
  walk_ok (Visit c :: stack) seen written → name c ∉ seen →
  walk_ok ((Visit <$> Cell.refs c) ++ Emit c :: stack) ({[name c]} ∪ seen) written.
Proof.
  intros [[Hs Hw] Hseen Hnd Hst Hwr] Hc. rewrite fmap_cons, Forall_cons in Hs. destruct Hs as [Pc Hs]. simpl in Hst.
  change (emitted (Visit c :: stack)) with (emitted stack) in *. split.
  - split; [|done]. rewrite fmap_app, Forall_app. split; [|by constructor].
    rewrite <- list_fmap_compose, Forall_fmap, Forall_forall. intros x Hx. by apply (P_refs c).
  - intros h. rewrite emitted_visits. change (emitted (Emit c :: stack)) with (name c :: emitted stack). rewrite elem_of_union, elem_of_singleton, Hseen.
    rewrite !elem_of_app, elem_of_cons. tauto.
  - rewrite emitted_visits. change (emitted (Emit c :: stack)) with (name c :: emitted stack). rewrite <- Permutation_middle. constructor; [|done]. by rewrite <- Hseen.
  - apply stack_ok_visits. rewrite app_nil_r. simpl. split; [|split].
    + intros x Hx. right. apply list_elem_of_fmap_2. by rewrite elem_of_reverse.
    + intros a Ha. rewrite elem_of_reverse in Ha. by apply child_height.
    + apply (stack_ok_weaken _ written written [c] (c :: reverse (Cell.refs c))); [done|..].
      * intros h [Hh|Hh]; [by left|right]. apply list_elem_of_singleton in Hh as ->. by left.
      * intros a [->|Ha]%elem_of_cons; [exists c; split; [left|lia]|].
        rewrite elem_of_reverse in Ha. exists c. split; [left|]. apply child_height in Ha. lia.
  - done.
Qed.

Lemma walk_emit c stack seen written :
  walk_ok (Emit c :: stack) seen written → walk_ok stack seen (written ++ [c]).
Proof.
  intros [[Hs Hw] Hseen Hnd Hst Hwr]. rewrite fmap_cons, Forall_cons in Hs. destruct Hs as [Pc Hs]. simpl in Hst.
  change (emitted (Emit c :: stack)) with (name c :: emitted stack) in *.
  destruct Hst as (Hk & _ & Hst).
  assert ((name <$> written) ++ name c :: emitted stack = (name <$> (written ++ [c])) ++ emitted stack) as E
    by (by rewrite fmap_app, <- app_assoc).
  rewrite E in Hnd. setoid_rewrite E in Hseen. split; [|done..| |].
  - split; [done|]. rewrite Forall_app. by repeat constructor.
  - apply (stack_ok_weaken _ written _ [c] []); [done| |by intros ? ?%elem_of_nil].
    intros h Hh. left. rewrite fmap_app. apply elem_of_app. exact Hh.
  - intros before d after x Ew Hx. destruct after as [|a after _] using rev_ind.
    + apply app_inj_tail in Ew as [<- <-]. by destruct (Hk x Hx) as [|?%elem_of_nil].
    + rewrite app_comm_cons, app_assoc in Ew. apply app_inj_tail in Ew as [-> _]. by eapply Hwr.
Qed.

Lemma walk_cells_ok fuel : ∀ stack seen written,
  (stack_weight stack <= fuel)%nat → walk_ok stack seen written →
  let out := walk_cells fuel stack seen written in
  Forall P out ∧ NoDup (name <$> out) ∧ written_ok out ∧
  (∀ h, h ∈ name <$> written ∨ (∃ s, s ∈ stack ∧ name (step_cell s) = h) → h ∈ name <$> out).
Proof.
  induction fuel as [|fuel IH]; intros stack seen written Hf Hok.
  - assert (stack = []) as ->.
    { destruct stack as [|[c|c] stack]; [done|..]; unfold stack_weight in Hf; simpl in Hf; [|lia].
      rewrite walk_steps_refs in Hf. lia. }
    destruct Hok as [[_ Hw] _ Hnd _ Hwr]. rewrite app_nil_r in Hnd. simpl. do 3 (split; [done|]).
    intros h [Hh|(s & Hs%elem_of_nil & _)]; done.
  - destruct stack as [|[c|c] stack].
    + destruct Hok as [[_ Hw] _ Hnd _ Hwr]. rewrite app_nil_r in Hnd. simpl. do 3 (split; [done|]).
      intros h [Hh|(s & Hs%elem_of_nil & _)]; done.
    + rewrite stack_weight_cons in Hf. cbn [step_weight] in Hf. rewrite walk_steps_refs in Hf. cbn [walk_cells]. destruct (bool_decide_reflect (name c ∈ seen)) as [Hc|Hc].
      * pose proof (walk_visit_seen _ _ _ _ Hok Hc) as Hok'.
        destruct (IH stack seen written) as (H1 & H2 & H3 & H4); [lia|done|].
        do 3 (split; [done|]). intros h [Hh|(s & Hs & Hh)]; [apply H4; by left|].
        apply elem_of_cons in Hs as [->|Hs]; [|apply H4; right; eauto].
        destruct Hok as [_ Hseen _ _ _]. apply H4. apply Hseen in Hc. rewrite elem_of_app in Hc.
        simpl in *. subst h. destruct Hc as [Hc|Hc]; [by left|]. apply elem_of_emitted in Hc as (d & Hd & Ed).
        right. by exists (Emit d).
      * pose proof (walk_visit_new _ _ _ _ Hok Hc) as Hok'.
        edestruct IH as (H1 & H2 & H3 & H4); [|exact Hok'|].
        { rewrite stack_weight_app, stack_weight_visits, stack_weight_cons. cbn [step_weight]. lia. }
        do 3 (split; [done|]). intros h [Hh|(s & Hs & Hh)]; [apply H4; by left|].
        apply H4. right. apply elem_of_cons in Hs as [->|Hs].
        -- exists (Emit c). split; [|done]. rewrite elem_of_app. right. by left.
        -- exists s. split; [|done]. rewrite elem_of_app. right. by right.
    + rewrite stack_weight_cons in Hf. cbn [step_weight] in Hf. cbn [walk_cells].
      destruct (IH stack seen (written ++ [c])) as (H1 & H2 & H3 & H4);
        [lia|by apply walk_emit|].
      do 3 (split; [done|]). intros h [Hh|(s & Hs & Hh)]; apply H4.
      * left. rewrite fmap_app. apply elem_of_app. by left.
      * apply elem_of_cons in Hs as [->|Hs]; [|right; eauto]. left. rewrite fmap_app. apply elem_of_app.
        right. simpl in *. subst h. by left.
Qed.
End walk.

(** ** Positions *)

Lemma res_fold_push {X Y} (R : X → Y → Prop) (f : X → result CellError Y) l : ∀ acc,
  (∀ x, x ∈ l → ∃ y, f x = Ok y ∧ R x y) →
  ∃ ys, res_fold (λ acc x, let? y := f x in Ok (acc ++ [y])) l acc = Ok (acc ++ ys) ∧ Forall2 R l ys.
Proof.
  induction l as [|x l IH]; intros acc Hf; [exists []; simpl; by rewrite app_nil_r|].
  destruct (Hf x) as (y & Hy & Hr); [by left|]. simpl. rewrite Hy. simpl.
  destruct (IH (acc ++ [y])) as (ys & Hys & Hrs); [intros x' Hx'; apply Hf; by right|].
  exists (y :: ys). rewrite Hys, <- app_assoc. split; [done|by constructor].
Qed.

Lemma index_of_snoc order c :
  index_of (order ++ [c]) = <[name c := len order]> (index_of order).
Proof.
  unfold index_of. rewrite len_app. change (len [c]) with 1. pose proof (len_nonneg order).
  rewrite seqZ_snoc by done. rewrite zip_with_app by (rewrite length_seqZ; unfold len; lia).
  by rewrite fold_left_app.
Qed.

Lemma index_of_spec order h i :
  NoDup (name <$> order) → index_of order !! h = Some i ↔ ∃ c, get order i = Some c ∧ name c = h.
Proof.
  induction order as [|c order IH] using rev_ind; intros Hnd.
  - split; [done|]. intros (c & Hc & _). apply get_Some_lt in Hc. unfold len in Hc. simpl in Hc. lia.
  - rewrite fmap_app, NoDup_app in Hnd. destruct Hnd as (Hnd & Hdis & _). specialize (IH Hnd).
    rewrite index_of_snoc. destruct (decide (name c = h)) as [<-|Hne].
    + rewrite lookup_insert_eq. split.
      * intros [= <-]. exists c. split; [|done]. rewrite get_app_r by lia. by rewrite Z.sub_diag.
      * intros (d & Hd & Ed). f_equal. destruct (decide (i < len order)) as [Hlt|Hge].
        -- exfalso. rewrite get_app_l in Hd by done. apply (Hdis (name c)); [|by left].
           rewrite <- Ed. apply list_elem_of_fmap_2. unfold get in Hd. destruct (i <? 0); [done|].
           by eapply list_elem_of_lookup_2.
        -- apply get_Some_lt in Hd. rewrite len_app in Hd. change (len [c]) with 1 in Hd. lia.
    + rewrite lookup_insert_ne, IH by done. split.
      * intros (d & Hd & Ed). exists d. split; [|done]. pose proof (get_Some_lt _ _ _ Hd).
        by rewrite get_app_l by lia.
      * intros (d & Hd & Ed). exists d. split; [|done]. destruct (decide (i < len order)) as [Hlt|Hge].
        -- by rewrite get_app_l in Hd.
        -- exfalso. pose proof (get_Some_lt _ _ _ Hd) as Hl. rewrite len_app in Hl. change (len [c]) with 1 in Hl.
           rewrite get_app_r in Hd by lia. replace (i - len order) with 0 in Hd by lia. by injection Hd as ->.
Qed.

(** The cells of a bag in the order written: each once, before its children, with
    the positions of its children; and where the roots are. *)
Record ordered (P : Cell → Prop) (roots order : list Cell) (children : list (list Z)) : Prop := {
  or_cells : Forall P order;
  or_names : NoDup (name <$> order);
  or_children : Forall2 (λ c indices, Forall2 (λ x j, index_of order !! name x = Some j) (Cell.refs c) indices)
    order children;
  or_forward : ∀ i c x, get order i = Some c → x ∈ Cell.refs c →
    ∃ j d, i < j ∧ get order j = Some d ∧ name d = name x;
  or_roots : ∀ r, r ∈ roots → ∃ i, index_of order !! name r = Some i;
}.

Lemma elem_of_names h (order : list Cell) : h ∈ name <$> order → ∃ i c, get order i = Some c ∧ name c = h.
Proof.
  intros (c & -> & (k & Hk)%list_elem_of_lookup)%list_elem_of_fmap. exists (Z.of_nat k), c.
  by rewrite get_of_nat.
Qed.

Lemma topological_spec (P : Cell → Prop) roots :
  (∀ c x, P c → x ∈ Cell.refs c → P x) →
  (∀ a b, P a → P b → name a = name b → cell_height a = cell_height b) →
  Forall P roots →
  ∃ order children, topological roots = Ok (order, children) ∧ ordered P roots order children.
Proof.
  intros Hrefs Hheight Hroots. unfold topological.
  destruct (walk_cells_ok P Hrefs Hheight (sum_list (walk_steps <$> roots)) (Visit <$> roots) ∅ [])
    as (HP & Hnd & Hwr & Hin).
  { by rewrite stack_weight_visits. }
  { assert (emitted (Visit <$> roots) = []) as He by (rewrite <- (app_nil_r (Visit <$> roots)); apply emitted_visits).
    split.
    - split; [|done]. by rewrite <- list_fmap_compose, Forall_fmap.
    - intros h. rewrite He. set_solver.
    - rewrite He. constructor.
    - rewrite <- (app_nil_r (Visit <$> roots)). apply stack_ok_visits. done.
    - intros before c after x E. by destruct before. }
  set (written := walk_cells _ _ _ _) in *. set (order := reverse written).
  assert (NoDup (name <$> order)) as Hnd' by (unfold order; rewrite fmap_reverse; by rewrite reverse_Permutation).
  assert (∀ i c x, get order i = Some c → x ∈ Cell.refs c →
    ∃ j d, i < j ∧ get order j = Some d ∧ name d = name x) as Hfw.
  { intros i c x Hi Hx. pose proof (get_Some_lt _ _ _ Hi) as Hil.
    unfold get in Hi. destruct (Z.ltb_spec i 0); [lia|].
    apply list_elem_of_split_length in Hi as (l1 & l2 & E & Hl).
    assert (written = reverse l2 ++ c :: reverse l1) as Ew.
    { rewrite <- (reverse_involutive written). fold order. rewrite E, reverse_app, reverse_cons, <- app_assoc. done. }
    specialize (Hwr _ _ _ x Ew Hx). rewrite fmap_reverse, elem_of_reverse in Hwr.
    apply elem_of_names in Hwr as (k & d & Hk & Ed). pose proof (get_Some_lt _ _ _ Hk).
    exists (len l1 + 1 + k), d. split; [unfold len; lia|]. split; [|done]. rewrite E.
    rewrite get_app_r by lia. replace (len l1 + 1 + k - len l1) with (1 + k) by lia.
    change (c :: l2) with ([c] ++ l2). rewrite get_app_r by (change (len [c]) with 1; lia).
    change (len [c]) with 1. by replace (1 + k - 1) with k by lia. }
  assert (∀ r, r ∈ roots → ∃ i, index_of order !! name r = Some i) as Hr.
  { intros r Hr. assert (name r ∈ name <$> order) as H.
    { unfold order. rewrite fmap_reverse, elem_of_reverse. apply Hin. right. exists (Visit r).
      split; [by apply list_elem_of_fmap_2|done]. }
    apply elem_of_names in H as (i & c & Hc & Ec). exists i. apply index_of_spec; eauto. }
  destruct (res_fold_push (λ c indices, Forall2 (λ x j, index_of order !! name x = Some j) (Cell.refs c) indices)
    (λ cell, res_fold (λ indices child,
      let? index := ok_or (index_of order !! name child) (Malformed "a reference was not reachable") in
      Ok (indices ++ [index])) (Cell.refs cell) []) order []) as (children & Ech & Hch).
  { intros c Hc. apply list_elem_of_lookup in Hc as [k Hk]. rewrite <- get_of_nat in Hk.
    destruct (res_fold_push (λ x j, index_of order !! name x = Some j)
      (λ child, ok_or (index_of order !! name child) (Malformed "a reference was not reachable"))
      (Cell.refs c) []) as (indices & Ei & Hi); [|by exists indices].
    intros x Hx. destruct (Hfw _ c x Hk Hx) as (j & d & _ & Hd & Ed). exists j.
    assert (index_of order !! name x = Some j) as -> by (apply index_of_spec; eauto). done. }
  exists order, children. rewrite Ech. split; [done|]. split; [|done..].
  unfold order. by apply Forall_reverse.
Qed.
