(* ===== verification/BocEncode.v ===== *)
(** The reader over a known run of bytes (core/src/cell/boc.rs, core/src/cell/boc/header.rs),
    integers and the checksum; and one cell, written and read back
    (core/src/cell/boc/serialize.rs, core/src/cell/boc/parse.rs): its descriptors, the hashes and depths stored
    ahead of its data, its data and its references. *)

From stdpp Require Import base list list_numbers numbers strings.
From Stdlib Require Import ZArith Lia.
From S2P Require Import Prelude Errors Bits CellData CellHash CellModel CellSlice CellBuilder Binding Merkle Boc BocWaves BocRun BocCells BocParse BocWrite.

Local Open Scope Z_scope.

(** ** Integers *)

Lemma lor_low x b : is_byte b → Z.lor (x * 256) b = x * 256 + b.
Proof.
  intros Hb. assert (Z.land (x * 256) b = 0) as H0.
  { apply Z.bits_inj'. intros k Hk. rewrite Z.land_spec, Z.bits_0. change 256 with (2 ^ 8).
    destruct (decide (k < 8)); [by rewrite Z.mul_pow2_bits_low by lia|].
    unfold is_byte in Hb. rewrite <- (Z.mod_small b (2 ^ 8)) by (change (2 ^ 8) with 256; lia).
    rewrite Z.mod_pow2_bits_high by lia. apply andb_false_r. }
  by rewrite Z.add_nocarry_lxor, Z.lxor_lor.
Qed.

Lemma fold_uint l :
  Forall is_byte l → len l <= 8 →
  fold_left (λ value b, Z.lor (shl 64 value 8) b) l 0 = from_be_bytes l.
Proof.
  induction l as [|b l IH] using rev_ind; intros Hl Hn; [done|].
  apply Forall_app in Hl as [Hl Hb]. rewrite Forall_singleton in Hb.
  rewrite len_app in Hn. change (len [b]) with 1 in Hn.
  rewrite fold_left_app, from_be_snoc. simpl. rewrite IH by (try done; lia).
  pose proof (from_be_bounds l Hl) as Hbd. pose proof (len_nonneg l).
  assert (256 ^ len l <= 256 ^ 7) by (apply Z.pow_le_mono_r; lia). change (256 ^ 7) with 72057594037927936 in *.
  unfold shl, wrap. rewrite Z.shiftl_mul_pow2 by lia. change (2 ^ 8) with 256. change (2 ^ 64) with 18446744073709551616.
  rewrite Z.mod_small by lia. by apply lor_low.
Qed.

(** The [width] low bytes of an integer, most significant first. *)
Definition be (width v : Z) : list Z := to_be_bytes (Z.to_nat width) v.

Lemma push_be_be out v w : 0 <= w <= 8 → push_be out v w = out ++ be w v.
Proof.
  intros Hw. unfold push_be, be. f_equal.
  replace 8%nat with (Z.to_nat (saturating_sub 8 w) + Z.to_nat w)%nat at 1 by (unfold saturating_sub; lia).
  apply to_be_bytes_drop.
Qed.

Lemma be_len w v : 0 <= w → len (be w v) = w.
Proof. intros. unfold len, be. rewrite length_to_be_bytes. lia. Qed.

Lemma byte_width_spec v :
  0 <= v < 2 ^ 64 → 1 <= byte_width v <= 8 ∧ v < 256 ^ byte_width v.
Proof.
  intros Hv. unfold byte_width, leading_zeros, div_ceil. destruct (Z.leb_spec v 0).
  - replace v with 0 by lia. by vm_compute.
  - pose proof (Z.log2_spec v ltac:(lia)) as Hl. pose proof (Z.log2_nonneg v).
    assert (Z.log2 v < 64) by (apply Z.log2_lt_pow2; lia).
    split; [zdiv|]. change 256 with (2 ^ 8). rewrite <- Z.pow_mul_r by zdiv.
    eapply Z.lt_le_trans; [apply Hl|]. apply Z.pow_le_mono_r; zdiv.
Qed.

Lemma byte_width_mono v w : v < 256 ^ w → 0 <= v → 1 <= w → w <= 8 → byte_width v <= w.
Proof.
  intros Hv H0 Hw Hw8. unfold byte_width, leading_zeros, div_ceil. destruct (Z.leb_spec v 0).
  - replace v with 0 by lia. vm_compute. destruct w; [lia|done|lia].
  - change 256 with (2 ^ 8) in Hv. rewrite <- Z.pow_mul_r in Hv by lia.
    apply Z.log2_lt_pow2 in Hv; [|lia]. pose proof (Z.log2_nonneg v). zdiv.
Qed.

(** ** The reader over known bytes *)

Section sees.
Variable bytes : list Z.
Hypothesis Hlen : len bytes <= USIZE_MAX.

(** The reader stands where [rest] is what is left. *)
Definition sees (rd : Reader) (rest : list Z) : Prop :=
  r_bytes rd = bytes ∧ 0 <= r_at rd ∧ r_at rd + len rest = len bytes ∧
  drop (Z.to_nat (r_at rd)) bytes = rest.

Lemma take_sees rd out rest n :
  sees rd (out ++ rest) → n = len out →
  ∃ rd', Reader.take n rd = (Ok out, rd') ∧ sees rd' rest ∧ r_at rd' = r_at rd + n ∧
    get_range bytes (r_at rd) (r_at rd + n) = Some out.
Proof.
  intros (Hb & H0 & Hl & Hd) ->. pose proof (len_nonneg out). pose proof (len_nonneg rest).
  rewrite len_app in Hl. unfold Reader.take, checked_add, checked. rewrite (proj2 (Z.leb_le _ _)) by lia.
  assert (get_range bytes (r_at rd) (r_at rd + len out) = Some out) as Hg.
  { unfold get_range. rewrite !(proj2 (Z.leb_le _ _)) by lia. simpl. f_equal. rewrite Hd.
    apply take_app_length'. unfold len. lia. }
  rewrite Hb, Hg. eexists. split; [done|]. split; [|done]. split; [done|]. simpl. split; [lia|]. split; [lia|].
  rewrite Z2Nat.inj_add by lia. rewrite <- drop_drop, Hd. apply drop_app_length'. unfold len. lia.
Qed.

Lemma byte_sees rd b rest :
  sees rd (b :: rest) →
  ∃ rd', Reader.byte rd = (Ok b, rd') ∧ sees rd' rest ∧ r_at rd' = r_at rd + 1.
Proof.
  intros Hs. destruct (take_sees rd [b] rest 1 Hs eq_refl) as (rd' & Ht & Hs' & Hat & _).
  exists rd'. unfold Reader.byte. erewrite st_bind_ok by exact Ht. done.
Qed.

Lemma uint_sees rd w v rest :
  sees rd (be w v ++ rest) → 0 <= w <= 8 → 0 <= v < 256 ^ w →
  ∃ rd', Reader.uint w rd = (Ok v, rd') ∧ sees rd' rest ∧ r_at rd' = r_at rd + w.
Proof.
  intros Hs Hw Hv. destruct (take_sees rd (be w v) rest w Hs) as (rd' & Ht & Hs' & Hat & _); [by rewrite be_len by lia|].
  exists rd'. unfold Reader.uint. erewrite st_bind_ok by exact Ht. split; [|done].
  unfold st_ret. rewrite fold_uint by (apply to_be_bytes_bytes || (rewrite be_len; lia)).
  unfold be. rewrite from_to_be_bytes; [done|]. by rewrite Z2Nat.id by lia.
Qed.
End sees.

(** A loop over a run of known bytes reads one value a round. *)
Lemma st_map_sees {A B} (bytes : list Z) (enc : B → list Z) (body : A → stm Reader CellError B) xs bs : ∀ rd rest,
  length xs = length bs →
  (∀ x b rd rest, (x, b) ∈ zip xs bs → sees bytes rd (enc b ++ rest) →
    ∃ rd', body x rd = (Ok b, rd') ∧ sees bytes rd' rest) →
  sees bytes rd (concat (enc <$> bs) ++ rest) →
  ∃ rd', st_map xs body rd = (Ok bs, rd') ∧ sees bytes rd' rest.
Proof.
  revert bs. induction xs as [|x xs IH]; intros [|b bs] rd rest Hl Hb Hs; simpl in *; try lia; [by exists rd|].
  rewrite <- app_assoc in Hs. destruct (Hb x b rd _ ltac:(by left) Hs) as (rd1 & Hx & Hs1).
  destruct (IH bs rd1 rest) as (rd2 & Hxs & Hs2); [lia|intros; apply Hb; [by right|done]|done|].
  exists rd2. erewrite st_bind_ok by exact Hx. by erewrite st_bind_ok by exact Hxs.
Qed.

(** ** Descriptors *)

Definition d1_of (stored : bool) (c : Cell) : Z :=
  if stored then Z.lor (fst (Cell.stored_descriptors c)) WITH_HASHES else fst (Cell.stored_descriptors c).

Lemma d1_spec (stored : bool) refs exotic mask :
  0 <= refs <= MAX_REFS → mask_ok mask →
  let d1 := refs_descriptor refs exotic mask 3 in
  let d1 := if stored then Z.lor d1 WITH_HASHES else d1 in
  is_byte d1 ∧ Z.land d1 7 = refs ∧ negb (Z.land d1 8 =? 0) = exotic ∧ Z.shiftr d1 5 = mask ∧
  negb (Z.land d1 WITH_HASHES =? 0) = stored.
Proof.
  unfold MAX_REFS. intros Hr Hm. assert (refs = 0 ∨ refs = 1 ∨ refs = 2 ∨ refs = 3 ∨ refs = 4) as Hc by lia.
  case_mask mask; destruct Hc as [->|[->|[->|[->| ->]]]], exotic, stored; vm_compute; repeat split; congruence.
Qed.

Lemma trailing_zeros_unique v t :
  0 <= t < 8 → Z.testbit v t = true → (∀ k, 0 <= k < t → Z.testbit v k = false) → trailing_zeros_8 v = t.
Proof.
  intros Ht Hb Hlow. destruct (decide (trailing_zeros_8 v < 8)) as [Hlt|Hge].
  - destruct (trailing_zeros_spec v _ eq_refl Hlt) as (H0 & Hb' & Hlow').
    destruct (Z.lt_trichotomy (trailing_zeros_8 v) t) as [H|[H|H]]; [|done|].
    + by rewrite Hlow in Hb' by lia.
    + by rewrite Hlow' in Hb by lia.
  - exfalso. unfold trailing_zeros_8 in Hge. destruct (head (filter _ _)) as [x|] eqn:E; simpl in Hge.
    + assert (x ∈ filter (λ i, Z.testbit v i = true) (seqZ 0 8)) as Hx.
      { apply head_Some_elem_of in E. done. }
      apply list_elem_of_filter in Hx as [_ Hx]. apply elem_of_seqZ in Hx. lia.
    + apply head_None in E. assert (t ∈ filter (λ i, Z.testbit v i = true) (seqZ 0 8)) as Hx.
      { apply list_elem_of_filter. split; [done|]. apply elem_of_seqZ. lia. }
      rewrite E in Hx. by apply elem_of_nil in Hx.
Qed.

(** The second descriptor and the data give the bit length back. *)
Lemma d2_spec data bits :
  0 <= bits <= MAX_BITS → completed data bits →
  let d2 := bits_descriptor bits in
  is_byte d2 ∧ Z.shiftr d2 1 + Z.land d2 1 = len data ∧ bit_len d2 data = Ok bits.
Proof.
  intros Hb (Hl & Hf & Hcomp). cbv zeta. rewrite bits_descriptor_exact by done. unfold MAX_BITS, div_ceil in *.
  set (d2 := bits / 8 + (bits + 8 - 1) / 8). unfold bit_len.
  pose proof (Z.land_ones d2 1 ltac:(lia)) as E1. pose proof (Z.shiftr_div_pow2 d2 1 ltac:(lia)) as E2.
  change (Z.ones 1) with 1 in E1. change (2 ^ 1) with 2 in *. rewrite E1, E2. clear E1 E2.
  split; [unfold is_byte, d2; zdiv|]. split; [unfold d2; zdiv|].
  destruct (Z.eqb_spec (d2 mod 2) 0) as [E|E].
  - f_equal. unfold d2 in *. zdiv.
  - assert (bits mod 8 ≠ 0) as Hm by (unfold d2 in *; zdiv). destruct (Hcomp Hm) as [Hset Hclear].
    assert (d2 / 2 = bits / 8) as -> by (unfold d2 in *; zdiv).
    destruct (get_lt_Some data (bits / 8)) as [lb Hlb]; [zdiv|].
    assert (list.last data = Some lb) as ->.
    { rewrite last_lookup. unfold get in Hlb. destruct (Z.ltb_spec (bits / 8) 0); [zdiv|].
      rewrite <- Hlb. f_equal. unfold len in Hl. zdiv. }
    cbn [ok_or res_bind].
    assert (∀ k, 0 <= k < 8 → data_bit data (bits / 8 * 8 + k) = Z.testbit lb (7 - k)) as Hbit.
    { intros k Hk. unfold data_bit. replace ((bits / 8 * 8 + k) / 8) with (bits / 8) by zdiv.
      replace ((bits / 8 * 8 + k) mod 8) with k by zdiv. rewrite Hlb. apply byte_bit_testbit. lia. }
    rewrite (trailing_zeros_unique lb (7 - bits mod 8)).
    + destruct (Z.leb_spec 7 (7 - bits mod 8)); [zdiv|]. f_equal. zdiv.
    + zdiv.
    + rewrite <- Hbit by zdiv. by replace (bits / 8 * 8 + bits mod 8) with bits by zdiv.
    + intros k Hk. pose proof (Z.mod_pos_bound bits 8 ltac:(lia)). replace k with (7 - (7 - k)) by lia. rewrite <- Hbit by lia. apply Hclear. zdiv.
Qed.

Lemma classify_spec c :
  kind_ok c → classify (Cell.is_exotic c) (Cell.data c) (Cell.level_mask c) (len (Cell.refs c)) = Ok (Cell.cell_type c).
Proof.
  unfold kind_ok, classify, Cell.is_exotic. change (inner_cell_type c) with (Cell.cell_type c).
  destruct (Cell.cell_type c); [done|..]; intros Hk; destruct_and? Hk;
    rewrite bool_decide_eq_false_2 by done; cbn [negb];
    repeat match goal with H : get _ _ = Some _ |- _ => rewrite H; clear H end; cbn [ok_or res_bind];
    try (unfold len; match goal with H : length _ = _ |- _ => rewrite H | H : Cell.refs _ = _ |- _ => rewrite H end);
    try done.
  change (from_tag 1) with (Some PrunedBranch). cbn [ok_or res_bind]. simpl length.
  change (negb (Z.of_nat 0 =? 0)) with false. cbn iota. rewrite bool_decide_eq_true_2 by done.
  rewrite Z.eqb_refl. cbn [negb]. rewrite (proj2 (Z.eqb_neq _ _)) by done.
  match goal with H : len _ = _ |- _ => unfold len in H |- *; rewrite H end.
  by rewrite Z.mul_comm, Z.eqb_refl.
Qed.

(** ** Stored hashes *)

Lemma mk_identity_nth mask hs i h d :
  mask_ok mask → len hs = count_ones 8 mask + 1 → hs !! i = Some (h, d) →
  Identity.hash (mk_identity mask hs) (Z.of_nat i) = Some h ∧
  Identity.depth (mk_identity mask hs) (Z.of_nat i) = Some d.
Proof.
  intros Hm Hlen. revert Hlen. case_mask mask; intros Hlen; unfold len in Hlen;
    match type of Hlen with _ = ?n => let k := eval vm_compute in n in change n with k in Hlen end;
    destruct hs as [|[] [|[] [|[] [|[] [|]]]]]; simpl in Hlen; try lia;
    destruct i as [|[|[|[|i]]]]; intros [= <- <-] || intros [=]; by vm_compute.
Qed.

Definition stored_bytes (id : Identity) : list Z := Identity.write_stored id [].

Lemma fold_append {A B} (f : A → option B) (g : B → list Z) l out :
  fold_left (λ out x, match f x with Some h => out ++ g h | None => out end) l out =
  out ++ concat ((λ x, default [] (g <$> f x)) <$> l).
Proof.
  revert out. induction l as [|x l IH]; intros out; simpl; [by rewrite app_nil_r|].
  rewrite IH. destruct (f x); simpl; by rewrite ?app_assoc.
Qed.

Lemma write_stored_app id out :
  Identity.write_stored id out = out ++
    concat ((λ i, default [] ((λ h, h) <$> Identity.hash id i)) <$> seqZ 0 (Identity.count id)) ++
    concat ((λ i, default [] (to_be_bytes 2 <$> Identity.depth id i)) <$> seqZ 0 (Identity.count id)).
Proof.
  unfold Identity.write_stored.
  rewrite (fold_append (Identity.depth id) (to_be_bytes 2)), (fold_append (Identity.hash id) (λ h, h)).
  by rewrite app_assoc.
Qed.

Lemma get_range_chunk {A} (k : nat) (ll : list (list A)) post i x :
  Forall (λ l, length l = k) ll → get ll i = Some x →
  get_range (concat ll ++ post) (i * Z.of_nat k) (i * Z.of_nat k + Z.of_nat k) = Some x.
Proof.
  intros Hf Hi. pose proof (get_Some_lt _ _ _ Hi) as Hr.
  unfold get in Hi. destruct (Z.ltb_spec i 0); [done|].
  apply list_elem_of_split_length in Hi as (l1 & l2 & -> & Hl).
  apply Forall_app in Hf as [H1 H2]. apply Forall_cons in H2 as [Hx H2].
  rewrite concat_app. cbn [concat]. rewrite <- !app_assoc.
  assert (i * Z.of_nat k = len (concat l1)) as E by (unfold len; rewrite (length_concat_len k) by done; lia).
  rewrite E. apply get_range_middle; [done|]. unfold len. lia.
Qed.

Section encode.
Context `{HH : Hasher} `{!HasherOk HH}.

(** What the identity of a well-formed cell holds, level by level. *)
Lemma identity_nth c i :
  cell_wf c → 0 <= i < Identity.count (Cell.identity c) →
  ∃ h d, Identity.hash (Cell.identity c) i = Some h ∧ Identity.depth (Cell.identity c) i = Some d ∧
    length h = 32%nat.
Proof.
  intros Hwf Hi. destruct (cell_wf_identity c Hwf) as [Hid Hlen].
  assert (mask_ok (Cell.level_mask c)) as Hm by (by destruct Hwf).
  unfold Identity.count in Hi. change (id_mask (Cell.identity c)) with (Cell.level_mask c) in Hi.
  destruct (get_lt_Some (own_hashes c) i) as [[h d] Hhd]; [lia|].
  unfold get in Hhd. destruct (Z.ltb_spec i 0); [lia|].
  destruct (mk_identity_nth _ _ _ h d Hm Hlen Hhd) as [H1 H2].
  rewrite Z2Nat.id in H1, H2 by lia. rewrite Hid. exists h, d. do 2 (split; [done|]).
  eapply own_hashes_len; [exact Hwf|]. by eapply list_elem_of_lookup_2.
Qed.

Lemma identity_count_nonneg c : cell_wf c → 0 <= Identity.count (Cell.identity c).
Proof.
  intros [c' _ _ Hm _ _ _]. unfold Identity.count. change (id_mask (Cell.identity c')) with (Cell.level_mask c').
  pose proof (count_ones_nonneg _ Hm). lia.
Qed.

Lemma stored_hashes_len c :
  cell_wf c → Forall (λ l, length l = 32%nat)
    ((λ i, default [] ((λ h, h) <$> Identity.hash (Cell.identity c) i)) <$> seqZ 0 (Identity.count (Cell.identity c))).
Proof.
  intros Hwf. apply Forall_fmap, Forall_forall. intros i Hi%elem_of_seqZ.
  destruct (identity_nth c i Hwf) as (h & d & Hh & _ & Hl); [lia|]. simpl. by rewrite Hh.
Qed.

Lemma stored_depths_len c :
  cell_wf c → Forall (λ l, length l = 2%nat)
    ((λ i, default [] (to_be_bytes 2 <$> Identity.depth (Cell.identity c) i)) <$>
      seqZ 0 (Identity.count (Cell.identity c))).
Proof.
  intros Hwf. apply Forall_fmap, Forall_forall. intros i Hi%elem_of_seqZ.
  destruct (identity_nth c i Hwf) as (h & d & _ & Hd & _); [lia|]. simpl. by rewrite Hd.
Qed.

Lemma stored_bytes_len c : cell_wf c → len (stored_bytes (Cell.identity c)) = Identity.stored_len (Cell.identity c).
Proof.
  intros Hwf. pose proof (identity_count_nonneg c Hwf). unfold stored_bytes. rewrite write_stored_app, app_nil_l, len_app. unfold len.
  rewrite (length_concat_len 32), (length_concat_len 2) by (by apply stored_hashes_len || by apply stored_depths_len).
  rewrite !length_fmap, length_seqZ. unfold Identity.stored_len. lia.
Qed.

Lemma check_all {A} (f : unit → A → result CellError unit) l :
  (∀ x, x ∈ l → f tt x = Ok tt) → res_fold f l tt = Ok tt.
Proof.
  induction l as [|x l IH]; intros Hf; [done|]. simpl. rewrite Hf by left. simpl.
  apply IH. intros y Hy. apply Hf. by right.
Qed.

(** What a writer stores ahead of a cell's data passes the check of a reader. *)
Lemma check_stored_ok c : cell_wf c → check_stored (Cell.identity c) (stored_bytes (Cell.identity c)) = Ok tt.
Proof.
  intros Hwf. pose proof (identity_count_nonneg c Hwf). unfold check_stored. rewrite stored_bytes_len by done.
  unfold Identity.stored_len. change (32 + 2) with 34. rewrite Z.eqb_refl. cbn [negb].
  pose proof (stored_hashes_len c Hwf) as Hfh. pose proof (stored_depths_len c Hwf) as Hfd.
  unfold stored_bytes. rewrite write_stored_app, app_nil_l. set (id := Cell.identity c) in *.
  set (hs := (λ i, default [] ((λ h, h) <$> Identity.hash id i)) <$> seqZ 0 (Identity.count id)) in *.
  set (ds := (λ i, default [] (to_be_bytes 2 <$> Identity.depth id i)) <$> seqZ 0 (Identity.count id)) in *.
  rewrite check_all; [cbn [res_bind]; apply check_all|].
  - intros i Hi%elem_of_seqZ. destruct (identity_nth c i Hwf) as (h & d & Hh & Hd & Hl); [unfold id in *; lia|].
    fold id in Hd. rewrite Hd. cbn [ok_or res_bind]. rewrite bool_decide_eq_true_2; [done|].
    assert (Identity.count id * 32 = len (concat hs)) as ->.
    { unfold len. rewrite (length_concat_len 32) by done. unfold hs. rewrite length_fmap, length_seqZ. lia. }
    pose proof (get_range_chunk 2 ds [] i (to_be_bytes 2 d) Hfd) as Hg. rewrite app_nil_r in Hg.
    unfold get_range in Hg |- *. rewrite len_app.
    assert (get ds i = Some (to_be_bytes 2 d)) as Hi2 by (unfold ds; rewrite get_fmap, get_seqZ by lia; simpl; by rewrite Hd).
    specialize (Hg Hi2). pose proof (len_nonneg (concat hs)).
    destruct (_ && _) eqn:E; [|done]. apply andb_true_iff in E as [[E1%Z.leb_le E2%Z.leb_le]%andb_true_iff E3%Z.leb_le].
    rewrite !(proj2 (Z.leb_le _ _)) by lia. cbn [andb]. rewrite <- Hg. do 2 f_equal; [lia|].
    rewrite Z2Nat.inj_add by lia. rewrite <- drop_drop. rewrite drop_app_length' by (unfold len; lia). by f_equal; lia.
  - intros i Hi%elem_of_seqZ. destruct (identity_nth c i Hwf) as (h & d & Hh & Hd & Hl); [unfold id in *; lia|].
    fold id in Hh. rewrite Hh. cbn [ok_or res_bind]. rewrite bool_decide_eq_true_2; [done|].
    apply (get_range_chunk 32); [done|]. unfold hs. rewrite get_fmap, get_seqZ by lia. simpl. by rewrite Hh.
Qed.

(** ** The bytes of a cell *)

Definition cell_bytes (stored : bool) (width : Z) (c : Cell) (indices : list Z) : list Z :=
  [d1_of stored c; snd (Cell.stored_descriptors c)] ++
  (if stored then stored_bytes (Cell.identity c) else []) ++ Cell.data c ++ concat (be width <$> indices).

Lemma fold_push_be l w out :
  0 <= w <= 8 → fold_left (λ out v, push_be out v w) l out = out ++ concat (be w <$> l).
Proof.
  intros Hw. revert out. induction l as [|v l IH]; intros out; simpl; [by rewrite app_nil_r|].
  rewrite push_be_be by done. by rewrite IH, app_assoc.
Qed.

Lemma push_cell_bytes stored width body c indices :
  0 <= width <= 8 → push_cell stored width body c indices = body ++ cell_bytes stored width c indices.
Proof.
  intros Hw. unfold push_cell, cell_bytes, d1_of. destruct (Cell.stored_descriptors c) as [d1 d2]. simpl fst. simpl snd.
  rewrite fold_push_be by done. destruct stored; [rewrite write_stored_app; unfold stored_bytes; rewrite write_stored_app|];
    by rewrite ?app_nil_l, <- !app_assoc.
Qed.

Lemma concat_be_len w l : 0 <= w → len (concat (be w <$> l)) = w * len l.
Proof.
  intros Hw. unfold len. rewrite (length_concat_len (Z.to_nat w)), length_fmap; [lia|].
  apply Forall_fmap, Forall_true. intros v. apply length_to_be_bytes.
Qed.

Lemma cell_bytes_len stored w c indices :
  cell_wf c → 0 <= w <= 8 → length indices = length (Cell.refs c) →
  2 <= len (cell_bytes stored w c indices) <= 298.
Proof.
  intros Hwf Hw Hn. unfold cell_bytes. rewrite !len_app, concat_be_len by lia.
  change (len [d1_of stored c; snd (Cell.stored_descriptors c)]) with 2.
  pose proof (stored_bytes_len c Hwf) as Hs. pose proof (len_nonneg (Cell.data c)).
  pose proof (len_refs_slice (inner_refs c)) as Hr. change (refs_slice (inner_refs c)) with (Cell.refs c) in Hr.
  assert (len indices = len (Cell.refs c)) as Hl by (unfold len; lia). rewrite Hl. unfold MAX_REFS in *.
  assert (0 <= w * len (Cell.refs c) <= 32) by nia.
  assert (0 <= Identity.stored_len (Cell.identity c) <= 136) as Hst.
  { assert (mask_ok (Cell.level_mask c)) as Hm by (by destruct Hwf). unfold Identity.stored_len, Identity.count.
    change (id_mask (Cell.identity c)) with (Cell.level_mask c). case_mask (Cell.level_mask c); vm_compute; split; congruence. }
  assert (len (Cell.data c) <= 128) as Hd.
  { destruct Hwf as [c' Hb [Hd _] _ _ _ _]. rewrite Hd. unfold div_ceil, MAX_BITS in *. zdiv. }
  destruct stored; [|change (len (@nil Z)) with 0]; lia.
Qed.

Lemma cell_bytes_bytes stored w c indices : cell_wf c → Forall is_byte (cell_bytes stored w c indices).
Proof.
  intros Hwf. assert (mask_ok (Cell.level_mask c) ∧ completed (Cell.data c) (Cell.bit_len c) ∧
    0 <= Cell.bit_len c <= MAX_BITS) as (Hm & Hc & Hb) by (by destruct Hwf).
  pose proof (len_refs_slice (inner_refs c)) as Hr. change (refs_slice (inner_refs c)) with (Cell.refs c) in Hr.
  unfold cell_bytes. rewrite !Forall_app. split; [|split; [|split]].
  - constructor; [|constructor; [|constructor]].
    + by apply (d1_spec stored (len (Cell.refs c)) (Cell.is_exotic c) (Cell.level_mask c)).
    + by apply (d2_spec _ _ Hb Hc).
  - destruct stored; [|constructor]. unfold stored_bytes. rewrite write_stored_app, app_nil_l, Forall_app.
    split; apply Forall_concat, Forall_fmap, Forall_forall; intros i Hi%elem_of_seqZ; simpl.
    + destruct (identity_nth c i Hwf) as (h & d & Hh & _ & _); [lia|]. rewrite Hh. simpl.
      destruct (cell_wf_identity c Hwf) as [Hid Hlen].
      destruct (get_lt_Some (own_hashes c) i) as [[h' d'] Hhd].
      { unfold Identity.count in Hi. change (id_mask (Cell.identity c)) with (Cell.level_mask c) in Hi. lia. }
      unfold get in Hhd. destruct (Z.ltb_spec i 0); [lia|].
      destruct (mk_identity_nth _ _ _ h' d' Hm Hlen Hhd) as [H1 _]. rewrite Z2Nat.id, <- Hid, Hh in H1 by lia.
      injection H1 as ->. eapply own_hashes_range; [exact Hwf|]. by eapply list_elem_of_lookup_2.
    + destruct (identity_nth c i Hwf) as (h & d & _ & Hd & _); [lia|]. rewrite Hd. apply (to_be_bytes_bytes 2 d).
  - by destruct Hc as (_ & Hc & _).
  - apply Forall_concat, Forall_fmap, Forall_true. intros v. apply to_be_bytes_bytes.
Qed.

(** What a raw cell has to hold for the cell it was written from to be made again. *)
Record raw_of (bytes : list Z) (c : Cell) (indices : list Z) (rc : RawCell) : Prop := {
  rf_refs : raw_refs rc = indices;
  rf_data : Span_of (rc_data rc) bytes = Ok (Cell.data c);
  rf_bits : rc_bits rc = Cell.bit_len c;
  rf_type : rc_cell_type rc = Cell.cell_type c;
  rf_mask : rc_level_mask rc = Cell.level_mask c;
  rf_stored : match rc_stored rc with
    | None => True
    | Some span => ∃ st, Span_of span bytes = Ok st ∧ check_stored (Cell.identity c) st = Ok tt
    end;
}.

Lemma raw_of_summarize bytes c indices rc held :
  cell_wf c → raw_of bytes c indices rc →
  Forall2 (λ x j, get held j = Some (Some (Cell.identity x))) (Cell.refs c) indices →
  summarize_one rc bytes held = Ok (Some (Cell.identity c)).
Proof.
  intros Hwf [Hr Hd Hb Ht Hm Hst] Hheld. unfold summarize_one. rewrite child_identities_gather, Hr.
  assert (gather indices held = Ok (Some (Cell.identity <$> Cell.refs c))) as ->.
  { clear -Hheld. induction Hheld as [|x j xs js Hx _ IH]; [done|]. simpl. by rewrite Hx, IH. }
  cbn [res_bind]. rewrite Hd. cbn [res_bind]. rewrite Hb, Ht, Hm.
  assert (summarize (Cell.data c) (Cell.bit_len c) (Cell.identity <$> Cell.refs c) (Cell.cell_type c)
    (Cell.level_mask c) = Ok (Cell.identity c)) as -> by (by destruct Hwf).
  cbn [res_bind]. destruct (rc_stored rc) as [span|]; [|done]. destruct Hst as (st & -> & Hst).
  cbn [res_bind]. by rewrite Hst.
Qed.

Lemma Span_new_ok start n :
  0 <= start → 0 <= n → start + n <= U32_MAX → Span_new start n = Ok {| start := start; stop := start + n |}.
Proof.
  intros H0 Hn Hs. unfold Span_new, checked_add, checked.
  rewrite !(proj2 (Z.leb_le _ _)) by lia. cbn [ok_or res_bind]. by rewrite (proj2 (Z.leb_le _ _)) by lia.
Qed.

Section read.
Variables (bytes : list Z) (header : Boc.Header) (stored : bool).
Hypothesis Hbytes : len bytes <= U32_MAX.
Hypothesis Hwidth : 1 <= h_ref_size header <= 8.
Hypothesis Hcount : h_count header <= U32_MAX + 1.
Hypothesis Hfits : h_count header <= 256 ^ h_ref_size header.

Lemma usize_bytes : len bytes <= USIZE_MAX.
Proof. unfold U32_MAX, USIZE_MAX, U64_MAX in *. lia. Qed.

(** A cell written is read back. *)
Lemma read_cell_sees c indices index rd rest :
  cell_wf c → sees bytes rd (cell_bytes stored (h_ref_size header) c indices ++ rest) →
  length indices = length (Cell.refs c) → Forall (λ j, index < j < h_count header) indices → 0 <= index →
  ∃ rc rd', read_raw_cell header index rd = (Ok rc, rd') ∧ raw_of bytes c indices rc ∧ sees bytes rd' rest.
Proof.
  intros Hwf Hs Hn Hidx Hi0. pose proof usize_bytes as Hus.
  assert (0 <= Cell.bit_len c <= MAX_BITS ∧ completed (Cell.data c) (Cell.bit_len c) ∧ mask_ok (Cell.level_mask c) ∧
    kind_ok c) as (Hb & Hcomp & Hm & Hk) by (by destruct Hwf).
  pose proof (len_refs_slice (inner_refs c)) as Hr. change (refs_slice (inner_refs c)) with (Cell.refs c) in Hr.
  destruct (d1_spec stored (len (Cell.refs c)) (Cell.is_exotic c) (Cell.level_mask c) Hr Hm)
    as (Hd1 & E7 & E8 & E5 & E16).
  destruct (d2_spec _ _ Hb Hcomp) as (Hd2 & Elen & Ebits).
  unfold cell_bytes in Hs. rewrite <- !app_assoc in Hs. cbn [app] in Hs.
  change (if stored then Z.lor (refs_descriptor (len (Cell.refs c)) (Cell.is_exotic c) (Cell.level_mask c) 3) WITH_HASHES
          else refs_descriptor (len (Cell.refs c)) (Cell.is_exotic c) (Cell.level_mask c) 3)
    with (d1_of stored c) in *.
  change (bits_descriptor (Cell.bit_len c)) with (snd (Cell.stored_descriptors c)) in *.
  set (d1 := d1_of stored c) in *. set (d2 := snd (Cell.stored_descriptors c)) in *.
  destruct (byte_sees bytes Hus rd d1 _ Hs) as (rd1 & R1 & Hs1 & _).
  destruct (byte_sees bytes Hus rd1 d2 _ Hs1) as (rd2 & R2 & Hs2 & _).
  unfold read_raw_cell. erewrite st_bind_ok by exact R1. erewrite st_bind_ok by exact R2. rewrite E7.
  destruct (Z.ltb_spec MAX_REFS (len (Cell.refs c))); [lia|]. cbv zeta. rewrite E8, E5, E16.
  assert (∃ span rd3,
    (if stored then
       let per_level := count_ones 8 (Cell.level_mask c) + 1 in
       do! reader <- st_get;
       do! taken <- Reader.take (per_level * (32 + 2));
       do! span <- st_lift (Span_new (Reader.consumed reader) (len taken));
       st_ret (Some span)
     else st_ret None) rd2 = (Ok span, rd3) ∧
    sees bytes rd3 (Cell.data c ++ concat (be (h_ref_size header) <$> indices) ++ rest) ∧
    match span with
    | None => True
    | Some span => ∃ st, Span_of span bytes = Ok st ∧ check_stored (Cell.identity c) st = Ok tt
    end) as (span & rd3 & R3 & Hs3 & Hspan).
  { destruct stored; [|by exists None, rd2].
    destruct (take_sees bytes Hus rd2 _ _ ((count_ones 8 (Cell.level_mask c) + 1) * (32 + 2)) Hs2) as (rd3 & Rt & Hs3 & Hat & Hg).
    { by rewrite stored_bytes_len. }
    destruct Hs2 as (_ & H20 & H2l & _). rewrite len_app in H2l.
    match type of H2l with _ + (_ + len ?l) = _ => pose proof (len_nonneg l) end.
    pose proof (len_nonneg (stored_bytes (Cell.identity c))).
    eexists (Some _), rd3. cbv zeta. unfold st_get at 1. erewrite st_bind_ok by done. erewrite st_bind_ok by exact Rt.
    unfold Reader.consumed. rewrite Span_new_ok by lia. split; [done|]. split; [done|].
    exists (stored_bytes (Cell.identity c)). unfold Span_of. cbn [start stop].
    rewrite stored_bytes_len by done.
    change (Identity.stored_len (Cell.identity c)) with ((count_ones 8 (Cell.level_mask c) + 1) * (32 + 2)).
    rewrite Hg. split; [done|]. by apply check_stored_ok. }
  erewrite st_bind_ok by exact R3. unfold st_get at 1. erewrite (st_bind_ok (λ s, (Ok s, s))) by done.
  destruct (take_sees bytes Hus rd3 (Cell.data c) _ (Z.shiftr d2 1 + Z.land d2 1) Hs3) as (rd4 & R4 & Hs4 & Hat & Hg); [done|].
  erewrite st_bind_ok by exact R4.
  destruct Hs3 as (_ & H30 & H3l & _). rewrite len_app in H3l.
  match type of H3l with _ + (_ + len ?l) = _ => pose proof (len_nonneg l) end. pose proof (len_nonneg (Cell.data c)).
  unfold Reader.consumed. rewrite Span_new_ok by lia. unfold st_lift. erewrite (st_bind_ok (λ s, (Ok _, s))) by done.
  rewrite Ebits. erewrite (st_bind_ok (λ s, (Ok _, s))) by done.
  destruct (Z.ltb_spec MAX_BITS (Cell.bit_len c)); [lia|].
  rewrite classify_spec by done. erewrite (st_bind_ok (λ s, (Ok _, s))) by done.
  destruct (st_map_sees bytes (be (h_ref_size header)) (λ _,
    do! target <- Reader.uint (h_ref_size header);
    if (h_count header <=? target) || (target <=? index) then st_err BadReference
    else st_lift (ok_or (checked U32_MAX target) BadReference))
    (seqZ 0 (len (Cell.refs c))) indices rd4 rest) as (rd5 & R5 & Hs5).
  { rewrite length_seqZ, Hn. unfold len. lia. }
  { intros x j rd' rest' Hin Hsj. apply elem_of_zip_r in Hin. rewrite Forall_forall in Hidx. specialize (Hidx j Hin).
    destruct (uint_sees bytes Hus rd' (h_ref_size header) j rest' Hsj) as (rd'' & Ru & Hs'' & _); [lia|lia|].
    exists rd''. erewrite st_bind_ok by exact Ru. split; [|done].
    rewrite (proj2 (Z.leb_gt _ _)), (proj2 (Z.leb_gt j index)) by lia. cbn [orb].
    unfold st_lift, checked. by rewrite (proj2 (Z.leb_le _ _)) by lia. }
  { done. }
  unfold st_lift in R5. erewrite st_bind_ok by exact R5. eexists _, rd5. split; [done|]. split; [|done].
  split; cbn [rc_data rc_bits rc_cell_type rc_level_mask rc_stored]; try done.
  - unfold raw_refs. cbn [rc_refs rc_ref_count]. unfold get_range, len. rewrite length_app, length_replicate, Hn.
    rewrite !(proj2 (Z.leb_le _ _)) by lia. cbn [andb default from_option id]. rewrite drop_0.
    apply take_app_length'. lia.
  - unfold Span_of. cbn [start stop]. by rewrite <- Elen, Hg.
Qed.
End read.
End encode.
