(* ===== verification/BocRoundtrip.v ===== *)
(** A bag written and read back (core/src/cell/boc/serialize.rs,
    core/src/cell/boc/large.rs, core/src/cell/boc/parse.rs): the layout of the
    bytes, the header and the body read out of them, and the cells they give. *)

From stdpp Require Import base gmap list list_numbers numbers strings.
From Stdlib Require Import ZArith Lia.
From S2P Require Import Prelude Errors Bits CellData CellHash CellModel CellSlice CellBuilder Binding Merkle Boc BocWaves BocRun BocCells BocParse BocTheorems BocWrite BocOrder BocEncode.

Local Open Scope Z_scope.

#[local] Abbreviation name := Cell.repr_hash.

(** ** The layout *)

Definition root_indices (order roots : list Cell) : list Z :=
  (λ r, default 0 (index_of order !! name r)) <$> roots.

(** The bytes of the cells, one run each, and the offset each ends at. *)
Definition cell_runs (options : BocOptions) (w : Z) (cells : list (Cell * list Z)) : list (list Z) :=
  (λ '(c, indices), cell_bytes (bo_stored_hashes options) w c indices) <$> cells.

Fixpoint ends (start : Z) (runs : list (list Z)) : list Z :=
  match runs with
  | [] => []
  | run :: rest => (start + len run) :: ends (start + len run) rest
  end.

(** Everything a bag holds before its checksum. *)
Definition layout (options : BocOptions) (order roots : list Cell) (children : list (list Z)) : list Z :=
  let w := byte_width (len order) in
  let runs := cell_runs options w (zip order children) in
  let o := byte_width (len (concat runs)) in
  MAGIC ++ [flags_byte w options; wrap 8 o] ++ be w (len order) ++ be w (len roots) ++ be w 0 ++
  be o (len (concat runs)) ++ concat (be w <$> root_indices order roots) ++
  (if bo_index options then concat (be o <$> ends 0 runs) else []) ++ concat runs.

Definition sealed (options : BocOptions) (out : list Z) : list Z :=
  if bo_crc32c options then out ++ to_le_bytes 4 (crc32c out) else out.

Lemma length_ends start runs : length (ends start runs) = length runs.
Proof. revert start. induction runs as [|r rs IH]; intros start; simpl; [done|]. by rewrite IH. Qed.

Section layout.
Context `{HH : Hasher} `{!HasherOk HH}.

Lemma body_fold options w cells : ∀ body offsets,
  0 <= w <= 8 →
  fold_left (λ '(body, offsets) '(cell, refs),
    let body := push_cell (bo_stored_hashes options) w body cell refs in (body, offsets ++ [len body]))
    cells (body, offsets) =
  (body ++ concat (cell_runs options w cells), offsets ++ ends (len body) (cell_runs options w cells)).
Proof.
  intros body offsets Hw. revert body offsets. induction cells as [|[c indices] cells IH]; intros body offsets;
    [by rewrite !app_nil_r|].
  change (cell_runs options w ((c, indices) :: cells))
    with (cell_bytes (bo_stored_hashes options) w c indices :: cell_runs options w cells).
  cbn [fold_left concat ends]. cbv beta zeta.
  rewrite push_cell_bytes by done. rewrite IH, len_app, <- !app_assoc. done.
Qed.

Lemma roots_fold order roots w : ∀ out,
  0 <= w <= 8 → (∀ r, r ∈ roots → ∃ i, index_of order !! name r = Some i) →
  res_fold (λ out root,
    let? index := ok_or (index_of order !! name root) (Malformed "a root was not reachable") in
    Ok (push_be out index w)) roots out = Ok (out ++ concat (be w <$> root_indices order roots)).
Proof.
  intros out Hw. revert out. induction roots as [|r roots IH]; intros out Hr; simpl; [by rewrite app_nil_r|].
  destruct (Hr r) as [i Hi]; [by left|]. rewrite Hi. cbn [ok_or res_bind].
  rewrite IH by (intros r' Hr'; apply Hr; by right). rewrite push_be_be by done. by rewrite <- app_assoc.
Qed.

Lemma offset_width options w cells :
  1 <= byte_width (len (concat (cell_runs options w cells))) <= 8 ∨ 2 ^ 64 <= len (concat (cell_runs options w cells)).
Proof.
  pose proof (len_nonneg (concat (cell_runs options w cells))).
  destruct (decide (2 ^ 64 <= len (concat (cell_runs options w cells)))) as [|]; [by right|left].
  apply byte_width_spec. lia.
Qed.

(** What a writer returns is its layout, sealed with the checksum asked for. *)
Lemma serialize_layout options roots order children :
  roots ≠ [] → topological roots = Ok (order, children) →
  (∀ r, r ∈ roots → ∃ i, index_of order !! name r = Some i) →
  len order <= MAX_CELLS →
  len (concat (cell_runs options (byte_width (len order)) (zip order children))) < 2 ^ 64 →
  serialize_boc_with roots options = Ok (sealed options (layout options order roots children)).
Proof.
  intros Hne Ht Hr Hc Hb. unfold serialize_boc_with.
  destruct (Z.eqb_spec (len roots) 0) as [E|_]; [by destruct roots; [|unfold len in E; simpl in E; lia]|].
  rewrite Ht. cbn [res_bind]. destruct (Z.ltb_spec MAX_CELLS (len order)); [lia|].
  pose proof (len_nonneg order). destruct (byte_width_spec (len order)) as [Hw _].
  { unfold MAX_CELLS in Hc. change (Z.shiftl 1 17) with 131072 in Hc. lia. }
  set (w := byte_width (len order)) in *. cbv zeta. rewrite body_fold by lia.
  set (runs := cell_runs options w (zip order children)) in *. rewrite !app_nil_l. change (len []) with 0.
  destruct (byte_width_spec (len (concat runs))) as [Ho _]; [pose proof (len_nonneg (concat runs)); lia|].
  set (o := byte_width (len (concat runs))) in *.
  rewrite roots_fold by (done || lia). cbn [res_bind]. unfold sealed, layout. fold w runs o.
  rewrite !push_be_be by lia. rewrite fold_push_be by lia. rewrite <- !app_assoc. cbn [app].
  destruct (bo_index options), (bo_crc32c options); do 4 (rewrite ?app_nil_l, <- ?app_assoc; cbn [app]); done.
Qed.
End layout.

(** ** The checksum *)

Lemma lxor_u32 a b : 0 <= a <= U32_MAX → 0 <= b <= U32_MAX → 0 <= Z.lxor a b <= U32_MAX.
Proof.
  intros Ha Hb. assert (0 <= Z.lxor a b) as H0 by (apply Z.lxor_nonneg; lia). split; [done|].
  destruct (decide (Z.lxor a b = 0)) as [->|]; [by vm_compute|].
  enough (Z.lxor a b < 2 ^ 32) by (unfold U32_MAX; change (2 ^ 32) with 4294967296 in *; lia).
  apply Z.log2_lt_pow2; [lia|]. eapply Z.le_lt_trans; [apply Z.log2_lxor; lia|].
  assert (∀ x, 0 <= x <= U32_MAX → Z.log2 x < 32) as Hlog.
  { intros x Hx. destruct (decide (x = 0)) as [->|]; [done|]. apply Z.log2_lt_pow2; [lia|].
    unfold U32_MAX in Hx. change (2 ^ 32) with 4294967296. lia. }
  apply Z.max_lub_lt; by apply Hlog.
Qed.

Lemma crc32c_u32 bytes crc :
  Forall is_byte bytes → 0 <= crc <= U32_MAX → 0 <= crc32c_update crc bytes <= U32_MAX.
Proof.
  intros Hb. revert crc. induction Hb as [|b bytes Hb _ IH]; intros crc Hc; [done|].
  unfold crc32c_update in *. cbn [fold_left]. apply IH. clear IH.
  assert (∀ l c, 0 <= c <= U32_MAX → 0 <= fold_left (λ crc _,
    if negb (Z.land crc 1 =? 0) then Z.lxor (Z.shiftr crc 1) 2197175160 else Z.shiftr crc 1) (l : list Z) c <= U32_MAX) as Hl.
  { induction l as [|x l IHl]; intros c Hcr; [done|]. cbn [fold_left]. apply IHl.
    assert (0 <= Z.shiftr c 1 <= U32_MAX) by (rewrite Z.shiftr_div_pow2 by lia; change (2 ^ 1) with 2; zdiv).
    destruct (negb _); [|done]. apply lxor_u32; [done|]. unfold U32_MAX. lia. }
  apply Hl, lxor_u32; [done|]. unfold is_byte, U32_MAX in *. lia.
Qed.

Lemma crc32c_range bytes : Forall is_byte bytes → 0 <= crc32c bytes <= U32_MAX.
Proof. intros Hb. apply lxor_u32; [|by vm_compute]. by apply crc32c_u32; [|vm_compute]. Qed.

Lemma check_crc_sealed out : Forall is_byte out → check_crc (out ++ to_le_bytes 4 (crc32c out)) = Ok tt.
Proof.
  intros Hb. unfold check_crc. rewrite len_app. assert (len (to_le_bytes 4 (crc32c out)) = 4) as El.
  { unfold len, to_le_bytes. by rewrite length_reverse, length_to_be_bytes. }
  rewrite El. pose proof (len_nonneg out). rewrite (proj2 (Z.ltb_ge _ _)) by lia. cbv zeta.
  replace (len out + 4 - 4) with (len out) by lia.
  rewrite take_app_length', drop_app_length' by (unfold len; lia).
  unfold from_le_bytes, to_le_bytes. rewrite reverse_involutive, from_to_be_bytes; [by rewrite Z.eqb_refl|].
  pose proof (crc32c_range out Hb). change (256 ^ Z.of_nat 4) with 4294967296. unfold U32_MAX in *. lia.
Qed.

(** ** The header of a bag *)

Lemma flags_spec w options :
  1 <= w <= 4 →
  let flags := flags_byte w options in
  is_byte flags ∧ Z.land flags 7 = w ∧ negb (Z.land flags 128 =? 0) = bo_index options ∧
  negb (Z.land flags 64 =? 0) = bo_crc32c options ∧ negb (Z.land flags 32 =? 0) = false.
Proof.
  intros Hw. assert (w = 1 ∨ w = 2 ∨ w = 3 ∨ w = 4) as Hc by lia. destruct options as [i c s].
  destruct Hc as [->|[->|[->| ->]]], i, c; vm_compute; repeat split; congruence.
Qed.

Section read_header.
Variables (options : BocOptions) (order roots : list Cell) (children : list (list Z)).

#[local] Abbreviation w := (byte_width (len order)).
#[local] Abbreviation runs := (cell_runs options w (zip order children)).
#[local] Abbreviation o := (byte_width (len (concat runs))).
#[local] Abbreviation out := (layout options order roots children).
#[local] Abbreviation bag := (sealed options out).
#[local] Abbreviation indices := (root_indices order roots).

Hypothesis Hcount : 1 <= len order <= MAX_CELLS.
Hypothesis Hroots : 1 <= len roots <= MAX_CELLS.
Hypothesis Hroots_w : len roots < 256 ^ w.
Hypothesis Hindices : Forall (λ i, 0 <= i < len order) indices.
Hypothesis Hrun : 2 * len order <= len (concat runs) < 2 ^ 32.
Hypothesis Hlen : length (ends 0 runs) = length order.
Hypothesis Hbytes : Forall is_byte out.
Hypothesis Hbag : len bag <= U32_MAX.

(** The header read out of a bag written. *)
Definition header_of : Boc.Header :=
  MkHeader (len order) w indices (bo_index options) (bo_crc32c options) false (len (concat runs))
    (len out - len (concat runs)).

Lemma width_spec : 1 <= w <= 3 ∧ len order < 256 ^ w.
Proof.
  unfold MAX_CELLS in Hcount. change (Z.shiftl 1 17) with 131072 in Hcount.
  destruct (byte_width_spec (len order)) as [Hw Hv]; [lia|]. split; [|done]. split; [lia|].
  apply byte_width_mono; [change (256 ^ 3) with 16777216|..]; lia.
Qed.

Lemma offset_width_spec : 1 <= o <= 8 ∧ len (concat runs) < 256 ^ o.
Proof. apply byte_width_spec. lia. Qed.

(** What is left once the header is read: the cells, and the checksum. *)
Definition tail_of : list Z := if bo_crc32c options then to_le_bytes 4 (crc32c out) else [].

Lemma bag_tail : bag = out ++ tail_of.
Proof. unfold sealed, tail_of. destruct (bo_crc32c options); [done|by rewrite app_nil_r]. Qed.

Lemma len_tail : len tail_of = if bo_crc32c options then 4 else 0.
Proof. unfold tail_of, to_le_bytes, len. destruct (bo_crc32c options); [|done]. by rewrite length_reverse, length_to_be_bytes. Qed.

Lemma read_header_sees :
  ∃ rd, read_header bag ParseOptions.default (MkReader bag 0) = (Ok header_of, rd) ∧
    sees bag rd (concat runs ++ tail_of).
Proof.
  assert (len bag <= USIZE_MAX) as Hus by (unfold U32_MAX, USIZE_MAX, U64_MAX in *; lia).
  destruct width_spec as [Hw Hcw]. destruct offset_width_spec as [Ho Hro].
  destruct (flags_spec w options) as (Hf & E7 & E128 & E64 & E32); [lia|]. cbv zeta in *.
  assert (wrap 8 o = o) as Hwo by (unfold wrap; apply Z.mod_small; change (2 ^ 8) with 256; lia).
  assert (sees bag (MkReader bag 0) (out ++ tail_of)) as Hs.
  { split; [done|]. cbn [r_at]. split; [lia|]. rewrite <- bag_tail. split; [lia|done]. }
  assert (out ++ tail_of = MAGIC ++ flags_byte w options :: o :: be w (len order) ++ be w (len roots) ++ be w 0 ++
    be o (len (concat runs)) ++ concat (be w <$> indices) ++
    (if bo_index options then concat (be o <$> ends 0 runs) else []) ++ concat runs ++ tail_of) as El.
  { unfold layout. cbv zeta. rewrite Hwo. rewrite <- !app_assoc. done. }
  rewrite El in Hs. clear El.
  unfold read_header.
  destruct (take_sees bag Hus _ MAGIC _ 4 Hs eq_refl) as (rd1 & R1 & Hs1 & _). erewrite st_bind_ok by exact R1.
  rewrite bool_decide_eq_true_2 by done. cbn [negb].
  destruct (byte_sees bag Hus _ _ _ Hs1) as (rd2 & R2 & Hs2 & _). erewrite st_bind_ok by exact R2.
  rewrite E7, E128, E64, E32. cbv zeta.
  destruct (byte_sees bag Hus _ _ _ Hs2) as (rd3 & R3 & Hs3 & _). erewrite st_bind_ok by exact R3.
  rewrite !(proj2 (Z.leb_le _ _)) by lia. cbn [andb negb].
  assert ((if bo_crc32c options then st_lift (check_crc bag) else st_ret tt) rd3 = (Ok tt, rd3)) as Rc.
  { unfold sealed. destruct (bo_crc32c options); [|done]. unfold st_lift. by rewrite check_crc_sealed. }
  erewrite st_bind_ok by exact Rc.
  destruct (uint_sees bag Hus rd3 w (len order) _ Hs3) as (rd4 & R4 & Hs4 & _); [lia|lia|]. erewrite st_bind_ok by exact R4.
  destruct (uint_sees bag Hus rd4 w (len roots) _ Hs4) as (rd5 & R5 & Hs5 & _); [lia|lia|]. erewrite st_bind_ok by exact R5.
  destruct (uint_sees bag Hus rd5 w 0 _ Hs5) as (rd6 & R6 & Hs6 & _); [lia|lia|]. erewrite st_bind_ok by exact R6.
  destruct (uint_sees bag Hus rd6 o (len (concat runs)) _ Hs6) as (rd7 & R7 & Hs7 & _); [lia|lia|].
  erewrite st_bind_ok by exact R7. cbn [Z.eqb negb].
  change (ParseOptions.cell_ceiling ParseOptions.default) with MAX_CELLS.
  rewrite (proj2 (Z.ltb_ge MAX_CELLS (len order))), (proj2 (Z.ltb_ge MAX_CELLS (len roots))) by lia.
  rewrite (proj2 (Z.eqb_neq (len roots) 0)) by lia. cbn [orb].
  unfold st_get at 1. erewrite (st_bind_ok (λ s, (Ok s, s))) by done.
  assert (len (ends 0 runs) = len order) as Hle by exact (f_equal Z.of_nat Hlen).
  assert (Reader.remaining rd7 = w * len roots + (if bo_index options then o * len order else 0) +
    len (concat runs) + len tail_of) as Hrem.
  { destruct Hs7 as (Hb7 & _ & Hl7 & _). unfold Reader.remaining. rewrite Hb7, <- Hl7, !len_app.
    rewrite concat_be_len by lia. unfold root_indices. rewrite len_fmap.
    destruct (bo_index options); [rewrite concat_be_len, Hle by lia; lia|].
    change (len []) with 0. lia. }
  assert (0 <= o * len order) by nia. assert (0 <= w * len roots) by nia. pose proof (len_nonneg tail_of).
  rewrite (proj2 (Z.ltb_ge (Reader.remaining rd7) (saturating_mul _ _ 2)))
    by (rewrite Hrem; unfold saturating_mul; destruct (bo_index options); lia).
  rewrite (proj2 (Z.ltb_ge (Reader.remaining rd7) _))
    by (rewrite Hrem; unfold saturating_mul; destruct (bo_index options); lia).
  destruct (st_map_sees bag (be w) (λ _,
    do! index <- Reader.uint w;
    if len order <=? index then st_err BadReference else st_ret index)
    (seqZ 0 (len roots)) indices rd7
    ((if bo_index options then concat (be o <$> ends 0 runs) else []) ++ concat runs ++ tail_of)) with (3 := Hs7) as (rd8 & R8 & Hs8).
  { unfold root_indices. rewrite length_seqZ, length_fmap. unfold len. lia. }
  { intros x j rd' rest' Hin Hsj. apply elem_of_zip_r in Hin. rewrite Forall_forall in Hindices.
    specialize (Hindices j Hin).
    destruct (uint_sees bag Hus rd' w j rest' Hsj) as (rd'' & Ru & Hs'' & _); [lia|lia|].
    exists rd''. erewrite st_bind_ok by exact Ru. by rewrite (proj2 (Z.leb_gt _ _)) by lia. }
  erewrite st_bind_ok by exact R8.
  assert (∃ rd9, (if bo_index options
        then run! Reader.take (saturating_mul USIZE_MAX (len order) o); st_ret tt
        else st_ret tt) rd8 = (Ok tt, rd9) ∧ sees bag rd9 (concat runs ++ tail_of)) as (rd9 & R9 & Hs9).
  { destruct (bo_index options); [|by exists rd8].
    destruct (take_sees bag Hus rd8 _ _ (saturating_mul USIZE_MAX (len order) o) Hs8) as (rd9 & R9 & Hs9 & _).
    - rewrite concat_be_len, Hle by lia. unfold saturating_mul.
      unfold MAX_CELLS in Hcount. change (Z.shiftl 1 17) with 131072 in Hcount. unfold USIZE_MAX, U64_MAX. nia.
    - exists rd9. by erewrite st_bind_ok by exact R9. }
  erewrite st_bind_ok by exact R9. unfold st_get. erewrite (st_bind_ok (λ s, (Ok s, s))) by done.
  pose proof Hs9 as (Hb9 & H90 & Hl9 & _). rewrite len_app in Hl9.
  unfold checked_add, checked, Reader.consumed. rewrite (proj2 (Z.leb_le _ _)) by (pose proof (len_nonneg tail_of); lia).
  assert ((if bo_crc32c options then saturating_sub (len bag) 4 else len bag) = r_at rd9 + len (concat runs)) as ->.
  { pose proof len_tail as Hlt. unfold saturating_sub. destruct (bo_crc32c options); lia. }
  rewrite Z.eqb_refl. cbn [negb]. exists rd9. split; [|done]. unfold header_of, st_ret. do 3 f_equal.
  rewrite bag_tail, len_app in Hl9. lia.
Qed.
End read_header.
