(* ===== verification/BocGraph.v ===== *)
(** The cells of a bag written, read back (core/src/cell/boc/serialize.rs,
    core/src/cell/boc/parse.rs): the raw cells are those of the order written,
    their heights are within the bound, and building them gives the same trees. *)

From stdpp Require Import base gmap list list_numbers numbers strings.
From Stdlib Require Import ZArith Lia.
From S2P Require Import Prelude Errors Bits CellData CellHash CellModel CellSlice CellBuilder Binding Merkle Boc BocWaves BocRun BocCells BocParse BocTheorems BocWrite BocOrder BocEncode BocRoundtrip.

Local Open Scope Z_scope.

#[local] Abbreviation name := Cell.repr_hash.

(** A loop over known runs of bytes reads one value a run. *)
Lemma st_map_runs {A B C} (bytes : list Z) (enc : C → list Z) (R : A → C → B → Prop)
    (body : A → stm Reader CellError B) xs cs : ∀ rd rest,
  length xs = length cs →
  (∀ x c rd rest, (x, c) ∈ zip xs cs → sees bytes rd (enc c ++ rest) →
    ∃ b rd', body x rd = (Ok b, rd') ∧ R x c b ∧ sees bytes rd' rest) →
  sees bytes rd (concat (enc <$> cs) ++ rest) →
  ∃ bs rd', st_map xs body rd = (Ok bs, rd') ∧ sees bytes rd' rest ∧
    Forall2 (λ xc b, R (fst xc) (snd xc) b) (zip xs cs) bs.
Proof.
  revert cs. induction xs as [|x xs IH]; intros [|c cs] rd rest Hl Hb Hs; simpl in Hl; try lia.
  - exists [], rd. done.
  - cbn [fmap list_fmap concat] in Hs. rewrite <- app_assoc in Hs.
    destruct (Hb x c rd _ ltac:(by left) Hs) as (b & rd1 & Hx & Hr & Hs1).
    destruct (IH cs rd1 rest) as (bs & rd2 & Hxs & Hs2 & Hf); [lia|intros; apply Hb; [by right|done]|done|].
    exists (b :: bs), rd2. cbn [st_map]. erewrite st_bind_ok by exact Hx. erewrite st_bind_ok by exact Hxs.
    split; [done|]. split; [done|]. by constructor.
Qed.

Section graph.
Context `{HH : Hasher} `{!HasherOk HH}.

(** ** The same tree *)

Lemma same_height a : ∀ b, same a b → cell_height a = cell_height b.
Proof.
  induction a as [d b0 r t i IH] using cell_tree_ind. intros b Hab.
  set (a := MkCell d b0 r t i) in *. change (refs_slice r) with (Cell.refs a) in IH. clearbody a.
  destruct Hab as [a b _ _ _ _ Hr]. rewrite !cell_height_refs. revert IH. generalize 0.
  induction Hr as [|x y la lb Hxy _ IHr]; intros m IH; [done|]. apply Forall_cons in IH as [IHx IH]. cbn [fold_left].
  rewrite (IHx y Hxy). by apply IHr.
Qed.

(** ** The cells of a tree *)

Inductive within : Cell → Cell → Prop :=
| within_here c : within c c
| within_below r c x : within r c → x ∈ Cell.refs c → within r x.

Lemma within_wf r c : cell_wf r → within r c → cell_wf c.
Proof.
  intros Hr Hw. induction Hw as [|r c x _ IH Hx]; [done|]. destruct (IH Hr) as [c' _ _ _ _ _ Hf].
  rewrite Forall_forall in Hf. by apply Hf.
Qed.

Lemma within_height r c : within r c → cell_height c <= cell_height r.
Proof. induction 1 as [|r c x _ IH Hx]; [done|]. apply child_height in Hx. lia. Qed.

Lemma within_hashed r c m : within r c → hashed c m → hashed r m.
Proof.
  induction 1 as [|r c x _ IH Hx]; [done|]. intros Hm. apply IH. by eapply hashed_below.
Qed.

(** ** The bag *)

Section bag.
Variables (options : BocOptions) (roots : list Cell).
Hypothesis Hwf : Forall cell_wf roots.
Hypothesis Hfree : collision_free (λ m, ∃ r, r ∈ roots ∧ hashed r m).

(** The cells a bag of these roots holds. *)
Definition held (c : Cell) : Prop := ∃ r, r ∈ roots ∧ within r c.

Lemma held_refs c x : held c → x ∈ Cell.refs c → held x.
Proof. intros (r & Hr & Hw) Hx. exists r. split; [done|]. by eapply within_below. Qed.

Lemma held_wf c : held c → cell_wf c.
Proof. intros (r & Hr & Hw). rewrite Forall_forall in Hwf. eapply within_wf; [by apply Hwf|done]. Qed.

Lemma held_same a b : held a → held b → name a = name b → same a b.
Proof.
  intros Ha Hb. apply repr_hash_same; [by apply held_wf..|]. intros x y Hx Hy. apply Hfree.
  - destruct Hx as [Hx|Hx]; [destruct Ha as (r & Hr & Hw)|destruct Hb as (r & Hr & Hw)];
      exists r; (split; [done|]); by eapply within_hashed.
  - destruct Hy as [Hy|Hy]; [destruct Ha as (r & Hr & Hw)|destruct Hb as (r & Hr & Hw)];
      exists r; (split; [done|]); by eapply within_hashed.
Qed.

Lemma held_height a b : held a → held b → name a = name b → cell_height a = cell_height b.
Proof. intros Ha Hb E. by apply same_height, held_same. Qed.

Lemma held_roots : Forall held roots.
Proof. apply Forall_forall. intros r Hr. exists r. split; [done|constructor]. Qed.

(** The order is always found. *)
Lemma topological_ok : ∃ order children, topological roots = Ok (order, children) ∧ ordered held roots order children.
Proof. apply topological_spec; [apply held_refs|apply held_height|apply held_roots]. Qed.

Variables (order : list Cell) (children : list (list Z)).
Hypothesis Hord : ordered (held) roots order children.

Lemma order_wf i c : get order i = Some c → cell_wf c ∧ held c.
Proof.
  intros Hi. assert (held c) as Hc; [|split; [by apply held_wf|done]].
  pose proof (or_cells _ _ _ _ Hord) as Hf. rewrite Forall_forall in Hf. apply Hf.
  unfold get in Hi. destruct (i <? 0); [done|]. by eapply list_elem_of_lookup_2.
Qed.

(** The positions written for a cell's references: of cells after it, the same
    as those they stand for. *)
Lemma children_at i c :
  get order i = Some c →
  ∃ indices, get children i = Some indices ∧
    Forall2 (λ x j, i < j < len order ∧ ∃ d, get order j = Some d ∧ same x d) (Cell.refs c) indices.
Proof.
  intros Hi. pose proof (or_children _ _ _ _ Hord) as Hch. pose proof (get_Some_lt _ _ _ Hi) as Hr.
  destruct (get_lt_Some children i) as [indices Hx]; [unfold len in *; rewrite <- (Forall2_length _ _ _ Hch); lia|].
  exists indices. split; [done|]. unfold get in Hi, Hx. destruct (Z.ltb_spec i 0); [done|].
  pose proof (Forall2_lookup_lr _ _ _ _ _ _ Hch Hi Hx) as Hf. apply Forall2_same_length_lookup.
  split; [eapply Forall2_length; exact Hf|]. intros k x j Hxk Hjk.
  pose proof (Forall2_lookup_lr _ _ _ _ _ _ Hf Hxk Hjk) as Hj. simpl in Hj.
  apply list_elem_of_lookup_2 in Hxk.
  assert (get order i = Some c) as Hi' by (unfold get; destruct (Z.ltb_spec i 0); [lia|done]).
  destruct (or_forward _ _ _ _ Hord i c x Hi' Hxk) as (j' & d & Hlt & Hd & Ed).
  assert (index_of order !! name x = Some j') as Hj' by (apply index_of_spec; [apply Hord|eauto]).
  rewrite Hj in Hj'. injection Hj' as <-. split; [split; [done|by eapply get_Some_lt]|]. exists d. split; [done|].
  apply held_same; [|by eapply order_wf|done]. eapply held_refs; [|done]. by eapply order_wf.
Qed.

#[local] Abbreviation w := (byte_width (len order)).
#[local] Abbreviation runs := (cell_runs options w (zip order children)).
#[local] Abbreviation header := (header_of options order roots children).

Lemma root_at r : r ∈ roots → ∃ i d, index_of order !! name r = Some i ∧ get order i = Some d ∧ same r d.
Proof.
  intros Hr. destruct (or_roots _ _ _ _ Hord r Hr) as [i Hi]. exists i.
  pose proof Hi as (d & Hd & Ed)%index_of_spec; [|apply Hord]. exists d. split; [done|]. split; [done|].
  apply held_same; [|by eapply order_wf|done]. by apply (proj1 (Forall_forall _ _) held_roots).
Qed.

Lemma root_indices_range : Forall (λ i, 0 <= i < len order) (root_indices order roots).
Proof.
  unfold root_indices. apply Forall_fmap, Forall_forall. intros r Hr. simpl.
  destruct (root_at r Hr) as (i & d & -> & Hd & _). by eapply get_Some_lt.
Qed.

Section body.
Variable bytes : list Z.
Hypothesis Hbytes : Forall is_byte bytes.
Hypothesis Hlen : len bytes <= U32_MAX.
Hypothesis Hcount : 1 <= len order <= MAX_CELLS.

Lemma read_raw_sees rd rest :
  sees bytes rd (concat runs ++ rest) →
  ∃ raw rd', read_raw header rd = (Ok raw, rd') ∧ len raw = len order ∧
    ∀ i c, get order i = Some c → ∃ rc indices,
      get raw i = Some rc ∧ get children i = Some indices ∧ raw_of bytes c indices rc.
Proof.
  intros Hs. destruct (byte_width_spec (len order)) as [Hw Hcw].
  { unfold MAX_CELLS in Hcount. change (Z.shiftl 1 17) with 131072 in Hcount. lia. }
  pose proof (Forall2_length _ _ _ (or_children _ _ _ _ Hord)) as Hcl.
  assert (length (zip order children) = length order) as Hzl by (rewrite length_zip_with; lia).
  destruct (st_map_runs bytes (λ '(c, indices), cell_bytes (bo_stored_hashes options) w c indices)
    (λ (i : Z) '(c, indices) rc, raw_of bytes c indices rc) (read_raw_cell header)
    (seqZ 0 (len order)) (zip order children) rd rest) as (raw & rd' & Hraw & _ & Hf).
  { rewrite length_seqZ, Hzl. unfold len. lia. }
  { intros i [c indices] rd1 rest1 Hin Hs1. apply list_elem_of_lookup in Hin as [k Hk].
    apply lookup_zip_with_Some in Hk as (i' & ci & [= <- <-] & Hi & Hci).
    apply lookup_zip_with_Some in Hci as (c' & idx' & [= <- <-] & Hc & Hidx).
    apply lookup_seqZ in Hi as [-> Hk]. rewrite Z.add_0_l.
    rewrite <- (get_of_nat order) in Hc. rewrite <- (get_of_nat children) in Hidx.
    destruct (children_at _ _ Hc) as (idx & Hidx2 & Hf2). rewrite Hidx in Hidx2. injection Hidx2 as <-.
    destruct (read_cell_sees bytes header (bo_stored_hashes options)) with (6 := Hs1) (index := Z.of_nat k)
      as (rc & rd2 & Hrc & Hof & Hs2).
    - done.
    - simpl. lia.
    - unfold MAX_CELLS in Hcount. change (Z.shiftl 1 17) with 131072 in Hcount. simpl. unfold U32_MAX. lia.
    - simpl. lia.
    - by eapply order_wf.
    - symmetry. by eapply Forall2_length.
    - eapply Forall2_Forall_r; [exact Hf2|]. apply Forall_true. intros x j [Hj _]. exact Hj.
    - lia.
    - by exists rc, rd2. }
  { done. }
  exists raw, rd'. split; [done|]. apply Forall2_length in Hf as Hl. rewrite length_zip_with, length_seqZ, Hzl in Hl.
  split; [unfold len in *; lia|]. intros i c Hi. pose proof (get_Some_lt _ _ _ Hi) as Hr.
  destruct (children_at _ _ Hi) as (indices & Hidx & _).
  destruct (get_lt_Some raw i) as [rc Hrc]; [unfold len in *; lia|]. exists rc, indices. do 2 (split; [done|]).
  unfold get in Hi, Hidx, Hrc. destruct (Z.ltb_spec i 0); [lia|].
  assert (zip (seqZ 0 (len order)) (zip order children) !! Z.to_nat i = Some (i, (c, indices))) as Hz.
  { apply lookup_zip_with_Some. exists i, (c, indices). split; [done|]. split; [apply lookup_seqZ; lia|].
    apply lookup_zip_with_Some. eauto. }
  exact (Forall2_lookup_lr _ _ _ _ _ _ Hf Hz Hrc).
Qed.

Section raw.
Variable raw : list RawCell.
Hypothesis Hrawlen : len raw = len order.
Hypothesis Hraw : ∀ i c, get order i = Some c → ∃ rc indices,
  get raw i = Some rc ∧ get children i = Some indices ∧ raw_of bytes c indices rc.
Hypothesis Hok : ∀ i rc, get raw i = Some rc → raw_ok bytes (len order) i rc.
Hypothesis Hdeep : Forall (λ r, cell_height r <= MAX_DEPTH) roots.

Lemma refs_at_order i c :
  get order i = Some c →
  Forall2 (λ x j, i < j < len order ∧ ∃ d, get order j = Some d ∧ same x d) (Cell.refs c) (refs_at raw i).
Proof.
  intros Hi. destruct (Hraw i c Hi) as (rc & indices & Hrc & Hidx & Hof).
  destruct (children_at i c Hi) as (indices' & Hidx' & Hf). rewrite Hidx in Hidx'. injection Hidx' as <-.
  unfold refs_at. by rewrite Hrc, (rf_refs _ _ _ _ Hof).
Qed.

Lemma heights_ok : ∃ height, heights raw (len order) = Ok height.
Proof.
  pose proof (len_nonneg order) as Hn.
  destruct (heights_run raw (len order) Hrawlen) with (m := len order) as [Hl Hg];
    [by apply (refs_at_forward raw bytes header)|lia|].
  rewrite Z.sub_diag in *. set (height := fold_left (height_step raw) _ _) in *.
  assert (∀ k, 0 <= k → ∀ i c, len order - k <= i → get order i = Some c → get height i = Some (cell_height c)) as Hk.
  { intros k Hk. pattern k. apply natlike_ind; [|clear k Hk; intros k Hk IH|done]; intros i c Hi Hc;
      pose proof (get_Some_lt _ _ _ Hc) as Hr; [lia|].
    rewrite Hg by lia. f_equal. rewrite cell_height_refs. unfold tallest_of. pose proof (refs_at_order i c Hc) as Hf.
    assert (∀ acc, fold_left (λ tallest target, Z.max tallest (default 0 (get height target) + 1)) (refs_at raw i) acc =
      fold_left (λ m child, Z.max m (cell_height child + 1)) (Cell.refs c) acc) as Hacc; [|apply Hacc].
    induction Hf as [|x j xs js (Hj & d & Hd & Hs) _ IHf]; intros acc; [done|]. cbn [fold_left].
    rewrite (IH j d) by (done || lia). cbn [default from_option id]. rewrite (same_height _ _ Hs). apply IHf. }
  unfold heights. cbv zeta.
  change (λ (height : list Z) index, match get raw index with
          | Some raw_cell => <[Z.to_nat index := fold_left _ (raw_refs raw_cell) 0]> height
          | None => height end) with (height_step raw).
  fold height. destruct (existsb _ height) eqn:E; [|by eexists]. exfalso.
  apply existsb_exists in E as (h & Hin & Hh%Z.ltb_lt). apply list_elem_of_In, list_elem_of_lookup in Hin as [k Hkh].
  rewrite <- get_of_nat in Hkh. pose proof (get_Some_lt _ _ _ Hkh) as Hr.
  destruct (get_lt_Some order (Z.of_nat k)) as [c Hc]; [lia|].
  rewrite (Hk (len order) Hn (Z.of_nat k) c) in Hkh by (done || lia). injection Hkh as <-.
  destruct (order_wf _ _ Hc) as [_ (r & Hr' & Hw)]. rewrite Forall_forall in Hdeep. specialize (Hdeep r Hr').
  apply within_height in Hw. lia.
Qed.

(** Every cell of the bag hashes to the identity it was written with. *)
Definition named : list (option Identity) := (λ c, Some (Cell.identity c)) <$> order.

Lemma named_at i c : get order i = Some c → get named i = Some (Some (Cell.identity c)).
Proof. intros Hi. unfold named. by rewrite get_fmap, Hi. Qed.

Lemma summarize_named i c : get order i = Some c → summarize_at raw bytes i named = Ok (Some (Cell.identity c)).
Proof.
  intros Hi. destruct (Hraw i c Hi) as (rc & indices & Hrc & _ & Hof). unfold summarize_at. rewrite Hrc.
  eapply raw_of_summarize; [by eapply order_wf|done|]. pose proof (refs_at_order i c Hi) as Hf.
  unfold refs_at in Hf. rewrite Hrc, (rf_refs _ _ _ _ Hof) in Hf. eapply Forall2_impl; [exact Hf|].
  intros x j (_ & d & Hd & Hs). by rewrite (named_at _ _ Hd), (same_identity _ _ Hs).
Qed.

Lemma verify_named p waves :
  valid_plan (len order) (refs_at raw) (Waves.iter waves) →
  verify_planned p raw bytes waves header = Ok (name <$> roots).
Proof.
  intros Hv. pose proof (len_nonneg order) as Hn. unfold verify_planned. cbv zeta. cbn [h_count header_of h_root_list].
  fold (summarize_at raw bytes).
  destruct (finalize_settles _ _ _ (summarize_local raw bytes header) p waves Hn Hv) as [Hs Hl].
  assert (settled (len order) (summarize_at raw bytes) named) as Hsn.
  { split; [unfold named; by rewrite len_fmap|]. intros i Hi. destruct (get_lt_Some order i Hi) as [c Hc].
    by rewrite (named_at _ _ Hc), (summarize_named _ _ Hc). }
  pose proof (settled_unique _ _ _ (summarize_local raw bytes header) (refs_at_forward raw bytes header Hok) _ _ Hs Hsn) as E.
  assert (lowest_of (summarize_at raw bytes) named (seqZ 0 (len order)) None) as Hln.
  { intros i Hi%elem_of_seqZ. destruct (get_lt_Some order i) as [c Hc]; [lia|]. rewrite (summarize_named _ _ Hc). eauto. }
  destruct (finalize _ _ _ _) as [computed lowest]. simpl in E, Hl. subst computed.
  rewrite (lowest_unique _ _ _ _ _ Hl Hln). cbn [into_result res_bind].
  assert (roots_of named (root_indices order roots) =
    Ok ((λ r, Cell.identity r) <$> roots)) as ->.
  { assert (∀ rs, (∀ r, r ∈ rs → r ∈ roots) →
      roots_of named (root_indices order rs) = Ok ((λ r, Cell.identity r) <$> rs)) as Hrs; [|by apply Hrs].
    induction rs as [|r rs IH]; intros Hin; [done|]. cbn [root_indices fmap list_fmap roots_of].
    destruct (root_at r) as (i & d & Hi & Hd & Hs'); [apply Hin; by left|]. rewrite Hi. cbn [default from_option id].
    rewrite (named_at _ _ Hd). cbn [mbind option_bind ok_or res_bind]. unfold id at 1.
    fold (root_indices order rs). rewrite IH by (intros r' Hr'; apply Hin; by right).
    cbn [res_bind]. by rewrite (same_identity _ _ Hs'). }
  cbn [res_bind]. f_equal. by rewrite <- list_fmap_compose.
Qed.

(** A cell the bytes tell is the one written there. *)
Lemma reads_same c' : ∀ i c, cell_wf c' → reads raw bytes i c' → get order i = Some c → same c c'.
Proof.
  induction c' as [d b r t id IH] using cell_tree_ind. intros i c Hwf' Hr Hc.
  set (c' := MkCell d b r t id) in *. change (refs_slice r) with (Cell.refs c') in IH. clearbody c'.
  destruct Hr as [i rc c' Hrc Hd Hb Ht Hm Hch]. destruct (Hraw i c Hc) as (rc' & indices & Hrc' & _ & Hof).
  rewrite Hrc in Hrc'. injection Hrc' as <-. destruct Hof as [Fr Fd Fb Ft Fm _].
  pose proof (refs_at_order i c Hc) as Hf. unfold refs_at in Hf. rewrite Hrc in Hf.
  assert (Forall2 same (Cell.refs c) (Cell.refs c')) as Hsame.
  { assert (Forall cell_wf (Cell.refs c')) as Hwfs by (by destruct Hwf'). clear -IH Hch Hf Hwfs.
    revert IH Hwfs Hf. generalize (Cell.refs c). induction Hch as [|j y js ys Hy _ IHc]; intros xs IH Hwfs Hf;
      inversion Hf as [|x ? xs' ? (_ & e & He & Hse) Hf']; subst; [constructor|].
    apply Forall_cons in IH as [IHy IH]. apply Forall_cons in Hwfs as [Hwy Hwfs].
    constructor; [|by apply IHc]. eapply same_trans; [exact Hse|]. by eapply IHy. }
  assert (Cell.data c = Cell.data c') as Ed by congruence. assert (Cell.bit_len c = Cell.bit_len c') as Eb by congruence.
  assert (Cell.cell_type c = Cell.cell_type c') as Et by congruence.
  assert (Cell.level_mask c = Cell.level_mask c') as Em by congruence.
  constructor; [done..| |done]. destruct (order_wf _ _ Hc) as [Hwf1 _].
  assert (Cell.identity <$> Cell.refs c = Cell.identity <$> Cell.refs c') as Eid.
  { clear -Hsame. induction Hsame as [|x y l1 l2 Hxy _ IHs]; [done|].
    apply (f_equal2 cons); [by apply same_identity|done]. }
  destruct Hwf1 as [c _ _ _ _ S1 _], Hwf' as [c' _ _ _ _ S2 _].
  rewrite Ed, Eb, Et, Em, Eid, S2 in S1. by injection S1.
Qed.

Lemma build_same p waves :
  valid_plan (len order) (refs_at raw) (Waves.iter waves) →
  ∃ roots', build_planned p raw bytes waves header = Ok roots' ∧ Forall2 same roots roots'.
Proof.
  intros Hv. pose proof (verify_named p waves Hv) as Hver.
  rewrite (verify_planned_build raw bytes header Hrawlen Hok p p waves waves Hv Hv) in Hver.
  destruct (build_planned p raw bytes waves header) as [roots'|e] eqn:Eb; [|done]. exists roots'. split; [done|].
  apply (build_planned_sound raw bytes header Hrawlen Hok) in Eb as [Hrd Hw]; [|done].
  cbn [header_of h_root_list] in Hrd. unfold root_indices in Hrd.
  assert (∀ rs cs, (∀ r, r ∈ rs → r ∈ roots) →
    Forall2 (reads raw bytes) ((λ r, default 0 (index_of order !! name r)) <$> rs) cs → Forall cell_wf cs →
    Forall2 same rs cs) as Hrs; [|by apply Hrs].
  clear Hrd Hw. induction rs as [|r rs IH]; intros cs Hin Hrd Hw; inversion Hrd as [|j c' js cs' Hj Hrd']; subst;
    [constructor|].
  apply Forall_cons in Hw as [Hwc Hw]. constructor; [|apply IH; [intros r' Hr'; apply Hin; by right|done..]].
  destruct (root_at r) as (i & d & Hi & Hd & Hs); [apply Hin; by left|]. rewrite Hi in Hj.
  eapply same_trans; [exact Hs|]. by eapply reads_same.
Qed.
End raw.
End body.
End bag.
End graph.
