(* ===== verification/BocTrip.v ===== *)
(** The round trip of bags of cells (core/src/cell/boc/serialize.rs,
    core/src/cell/boc/parse.rs), and of bags compressed
    (core/src/cell/boc/compress.rs): the definitions of the latter, over [lz4_flex]
    as the interface [Lz4], and the theorems. *)

From stdpp Require Import base gmap list list_numbers numbers strings.
From Stdlib Require Import ZArith Lia.
From S2P Require Import Prelude Errors Bits CellData CellHash CellModel CellSlice CellBuilder Binding Merkle Boc BocWaves BocRun BocCells BocParse BocTheorems BocWrite BocOrder BocEncode BocRoundtrip BocGraph.

Local Open Scope Z_scope.

#[local] Abbreviation name := Cell.repr_hash.

(** ** Compressed bags (core/src/cell/boc/compress.rs) *)

(** [lz4_flex]: the block form with the length of what it holds in front. *)
Class Lz4 : Type := {
  compress_prepend_size : list Z → list Z;
  decompress_size_prepended : list Z → option (list Z);
}.

(** Its documentation: the length is four little-endian bytes, and what was
    compressed comes back. *)
Class Lz4Ok (L : Lz4) : Prop := {
  size_prepended bytes : len bytes < 2 ^ 32 →
    ∃ block, compress_prepend_size bytes = to_le_bytes 4 (len bytes) ++ block;
  decompress_compress bytes : len bytes < 2 ^ 32 →
    decompress_size_prepended (compress_prepend_size bytes) = Some bytes;
}.

Definition MAX_DECOMPRESSED : Z := Z.shiftl 64 20.

Section compress.
Context `{Hasher} `{Lz4}.
Variable parallelism : Z.

Definition compress (bag : list Z) : list Z := compress_prepend_size bag.

(** [u32] always fits a [usize] of the targets the crate builds for. *)
Definition decompress (bytes : list Z) : result CellError (list Z) :=
  let? prefix := ok_or (get_range bytes 0 4) Truncated in
  let named := from_le_bytes prefix in
  if MAX_DECOMPRESSED <? named then Err (Malformed "compressed bag expands past the cap")
  else ok_or (decompress_size_prepended bytes) (Malformed "bytes are not valid lz4").

Definition compress_boc (roots : list Cell) : result CellError (list Z) :=
  let? bag := serialize_boc roots in Ok (compress bag).

Definition decompress_boc (bytes : list Z) : result CellError (list Cell) :=
  let? bag := decompress bytes in parse_boc parallelism bag.
End compress.

Section trip.
Context `{HH : Hasher} `{!HasherOk HH}.

(** ** Sizes *)

Lemma concat_bounds (runs : list (list Z)) lo hi :
  Forall (λ r, lo <= len r <= hi) runs → lo * len runs <= len (concat runs) <= hi * len runs.
Proof.
  induction 1 as [|r runs Hr _ IH]; [unfold len; simpl; lia|].
  cbn [concat]. rewrite len_app, len_cons. lia.
Qed.

Section sizes.
Variables (options : BocOptions) (order : list Cell) (children : list (list Z)).
Hypothesis Hwf : ∀ c, c ∈ order → cell_wf c.
Hypothesis Hch : Forall2 (λ c indices, length indices = length (Cell.refs c)) order children.
Hypothesis Hcount : len order <= MAX_CELLS.

#[local] Abbreviation w := (byte_width (len order)).
#[local] Abbreviation runs := (cell_runs options w (zip order children)).

Lemma width_bounds : 1 <= w <= 3.
Proof.
  unfold MAX_CELLS in Hcount. change (Z.shiftl 1 17) with 131072 in Hcount. pose proof (len_nonneg order).
  destruct (byte_width_spec (len order)) as [Hw _]; [lia|]. split; [lia|].
  apply byte_width_mono; [change (256 ^ 3) with 16777216|..]; lia.
Qed.

Lemma length_runs : length runs = length order.
Proof. unfold cell_runs. rewrite length_fmap, length_zip_with, <- (Forall2_length _ _ _ Hch). lia. Qed.

Lemma runs_spec : Forall (λ r, 2 <= len r <= 298 ∧ Forall is_byte r) runs.
Proof.
  pose proof width_bounds as Hw. unfold cell_runs. apply Forall_fmap, Forall_forall. intros [c indices] Hin. simpl.
  apply list_elem_of_lookup in Hin as [k Hk]. apply lookup_zip_with_Some in Hk as (c' & i' & [= <- <-] & Hc & Hi).
  pose proof (Forall2_lookup_lr _ _ _ _ _ _ Hch Hc Hi) as Hl. simpl in Hl.
  apply list_elem_of_lookup_2 in Hc. split; [|by apply cell_bytes_bytes, Hwf].
  apply cell_bytes_len; [by apply Hwf|lia|done].
Qed.

Lemma runs_len : 2 * len order <= len (concat runs) <= 298 * len order.
Proof.
  assert (len order = len runs) as E by (symmetry; exact (f_equal Z.of_nat length_runs)).
  pose proof (concat_bounds runs 2 298) as Hb. rewrite <- E in Hb. apply Hb.
  eapply Forall_impl; [exact runs_spec|]. by intros r [H _].
Qed.

Lemma runs_bytes : Forall is_byte (concat runs).
Proof. apply Forall_concat. eapply Forall_impl; [exact runs_spec|]. by intros r [_ H]. Qed.

Variable roots : list Cell.
Hypothesis Hroots : len roots <= MAX_CELLS.

#[local] Abbreviation out := (layout options order roots children).

Lemma be_runs_bytes v l : Forall is_byte (concat (be v <$> l)).
Proof. apply Forall_concat, Forall_fmap, Forall_true. intros x. apply to_be_bytes_bytes. Qed.

Lemma layout_bytes : Forall is_byte out.
Proof.
  pose proof width_bounds as Hw. unfold layout. cbv zeta. rewrite !Forall_app. split_and!.
  - repeat constructor; lia.
  - constructor; [by apply flags_spec; lia|]. constructor; [|constructor]. unfold wrap, is_byte.
    change (2 ^ 8) with 256. by apply Z.mod_pos_bound.
  - apply to_be_bytes_bytes.
  - apply to_be_bytes_bytes.
  - apply to_be_bytes_bytes.
  - apply to_be_bytes_bytes.
  - apply be_runs_bytes.
  - destruct (bo_index options); [apply be_runs_bytes|constructor].
  - apply runs_bytes.
Qed.

Lemma sealed_bytes : Forall is_byte (sealed options out).
Proof.
  unfold sealed. destruct (bo_crc32c options); [|apply layout_bytes]. apply Forall_app. split; [apply layout_bytes|].
  apply Forall_reverse, to_be_bytes_bytes.
Qed.

(** A bag of as many cells as a reader takes is far short of what a reader indexes. *)
Lemma sealed_len : len (sealed options out) <= MAX_DECOMPRESSED.
Proof.
  pose proof width_bounds as Hw. pose proof runs_len as Hr. unfold MAX_CELLS in *. change (Z.shiftl 1 17) with 131072 in *.
  destruct (byte_width_spec (len (concat runs))) as [Ho _]; [pose proof (len_nonneg order); lia|].
  assert (len (ends 0 runs) = len order) as Hends.
  { pose proof (length_ends 0 runs) as E. rewrite length_runs in E. exact (f_equal Z.of_nat E). }
  assert (len out <= 4 + 2 + 3 * 3 + 8 + 3 * len roots + 8 * len order + len (concat runs)) as Hout.
  { unfold layout. cbv zeta. rewrite !len_app, !be_len, concat_be_len by lia.
    change (len MAGIC) with 4. change (len [flags_byte w options; _]) with 2.
    unfold root_indices. rewrite len_fmap. pose proof (len_nonneg roots).
    assert (len (if bo_index options then concat (be (byte_width (len (concat runs))) <$> ends 0 runs) else [])
      <= 8 * len order) as Hi.
    { destruct (bo_index options); [|change (len []) with 0; pose proof (len_nonneg order); lia].
      rewrite concat_be_len, Hends by lia. pose proof (len_nonneg order). nia. }
    nia. }
  assert (len (sealed options out) <= len out + 4) as Hs.
  { unfold sealed. destruct (bo_crc32c options); [|lia]. rewrite len_app.
    assert (len (to_le_bytes 4 (crc32c out)) = 4); [|lia].
    unfold to_le_bytes, len. by rewrite length_reverse, length_to_be_bytes. }
  unfold MAX_DECOMPRESSED. change (Z.shiftl 64 20) with 67108864. lia.
Qed.
End sizes.

Lemma ordered_lengths P roots order children :
  ordered P roots order children → Forall2 (λ c indices, length indices = length (Cell.refs c)) order children.
Proof.
  intros [_ _ Hch _ _]. eapply Forall2_impl; [exact Hch|]. intros c indices H. symmetry.
  eapply Forall2_length. exact H.
Qed.

(** Where writing succeeds, the bag is its layout. *)
Lemma serialize_inv options roots bag :
  Forall cell_wf roots → collision_free (λ m, ∃ r, r ∈ roots ∧ hashed r m) →
  serialize_boc_with roots options = Ok bag →
  ∃ order children, topological roots = Ok (order, children) ∧
    ordered (held roots) roots order children ∧ 1 <= len order <= MAX_CELLS ∧ 1 <= len roots ∧
    bag = sealed options (layout options order roots children).
Proof.
  intros Hwf Hfree Hs. destruct (topological_ok roots Hwf Hfree) as (order & children & Ht & Hord).
  assert (roots ≠ []) as Hne by (by intros ->).
  assert (len order <= MAX_CELLS) as Hc.
  { unfold serialize_boc_with in Hs. destruct (len roots =? 0); [done|]. rewrite Ht in Hs. cbn [res_bind] in Hs.
    destruct (Z.ltb_spec MAX_CELLS (len order)); [done|lia]. }
  exists order, children. split; [done|]. split; [done|].
  destruct roots as [|r rs] eqn:Er; [done|]. rewrite <- Er in *. assert (r ∈ roots) as Hr by (rewrite Er; by left).
  destruct (root_at roots Hwf Hfree order children Hord r Hr) as (k & d & _ & Hd & _).
  pose proof (get_Some_lt _ _ _ Hd). split; [lia|]. split; [rewrite Er, len_cons; pose proof (len_nonneg rs); lia|].
  assert (∀ c, c ∈ order → cell_wf c) as Hwo.
  { intros c Hin. pose proof (or_cells _ _ _ _ Hord) as Hf. rewrite Forall_forall in Hf. by eapply held_wf, Hf. }
  pose proof (ordered_lengths _ _ _ _ Hord) as Hl. pose proof (runs_len options order children Hwo Hl Hc) as Hrl.
  rewrite (serialize_layout options roots order children) in Hs; [by injection Hs|by rewrite Er|done|apply Hord|done|].
  unfold MAX_CELLS in Hc. change (Z.shiftl 1 17) with 131072 in Hc. lia.
Qed.

(** Roots named apart are no more than the cells. *)
Lemma roots_fit P roots order children :
  ordered P roots order children → NoDup (name <$> roots) → len roots <= len order.
Proof.
  intros Hord Hnd. unfold len.
  assert (length (name <$> roots) <= length (name <$> order))%nat as Hle; [|rewrite !length_fmap in Hle; lia].
  apply submseteq_length, NoDup_submseteq; [done|]. intros h (r & -> & Hr)%list_elem_of_fmap.
  destruct (or_roots _ _ _ _ Hord r Hr) as [j Hj]. apply index_of_spec in Hj as (c & Hc & <-); [|apply Hord].
  apply list_elem_of_fmap_2. unfold get in Hc. destruct (j <? 0); [done|]. by eapply list_elem_of_lookup_2.
Qed.

Lemma parse_serialized p options roots bag :
  Forall cell_wf roots → collision_free (λ m, ∃ r, r ∈ roots ∧ hashed r m) →
  Forall (λ r, cell_height r <= MAX_DEPTH) roots →
  len roots <= 255 ∨ NoDup (name <$> roots) →
  serialize_boc_with roots options = Ok bag →
  len bag <= MAX_DECOMPRESSED ∧ ∃ roots', parse_boc p bag = Ok roots' ∧ Forall2 same roots roots'.
Proof.
  intros Hwf Hfree Hdeep Hfew Hs.
  destruct (serialize_inv options roots bag Hwf Hfree Hs) as (order & children & Ht & Hord & Hc & Hr1 & ->).
  assert (∀ c, c ∈ order → cell_wf c) as Hwo.
  { intros c Hin. pose proof (or_cells _ _ _ _ Hord) as Hf. rewrite Forall_forall in Hf. by eapply held_wf, Hf. }
  pose proof (ordered_lengths _ _ _ _ Hord) as Hl. pose proof (runs_len options order children Hwo Hl (proj2 Hc)) as Hrl.
  pose proof (width_bounds order (proj2 Hc)) as Hw.
  destruct (byte_width_spec (len order)) as [_ Hcw].
  { unfold MAX_CELLS in Hc. change (Z.shiftl 1 17) with 131072 in Hc. lia. }
  assert (len roots <= MAX_CELLS ∧ len roots < 256 ^ byte_width (len order)) as [Hrm Hrw].
  { destruct Hfew as [Hfew|Hnd].
    - split; [unfold MAX_CELLS; change (Z.shiftl 1 17) with 131072; lia|].
      eapply Z.lt_le_trans with (256 ^ 1); [lia|]. apply Z.pow_le_mono_r; lia.
    - pose proof (roots_fit _ _ _ _ Hord Hnd). lia. }
  pose proof (sealed_bytes options order children Hwo Hl (proj2 Hc) roots) as Hby.
  pose proof (sealed_len options order children Hwo Hl (proj2 Hc) roots Hrm) as Hcap.
  assert (len (sealed options (layout options order roots children)) <= U32_MAX) as Hbl
    by (unfold MAX_DECOMPRESSED in Hcap; change (Z.shiftl 64 20) with 67108864 in Hcap; unfold U32_MAX; lia).
  split; [exact Hcap|]. clear Hcap.
  destruct (read_header_sees options order roots children) as (rd & Rh & Hsees); try done.
  { apply (root_indices_range roots Hwf Hfree order children Hord). }
  { unfold MAX_CELLS in Hc. change (Z.shiftl 1 17) with 131072 in Hc. lia. }
  { by rewrite length_ends, length_runs. }
  { exact (layout_bytes options order children Hwo Hl (proj2 Hc) roots). }
  set (bag := sealed options (layout options order roots children)) in *.
  destruct (read_raw_sees options roots Hwf Hfree order children Hord bag Hbl Hc rd _ Hsees)
    as (raw & rd' & Rr & Hrawlen & Hraw).
  assert (∀ i rc, get raw i = Some rc → raw_ok bag (len order) i rc) as Hok.
  { assert (reading bag rd) as Hrd.
    { destruct Hsees as (H1 & H2 & H3 & _). split; [done|]. pose proof (len_nonneg (concat (cell_runs options
        (byte_width (len order)) (zip order children)) ++ tail_of options order roots children)). lia. }
    by apply (read_raw_inv bag (header_of options order roots children) Hby ltac:(simpl; lia) rd raw rd'
      ltac:(simpl; lia) Hrd Rr). }
  destruct (heights_ok options roots Hwf Hfree order children Hord bag Hc raw Hrawlen Hraw Hok Hdeep) as [height Hh].
  assert (valid_plan (len order) (refs_at raw) (Waves.iter (Waves.by_height height))) as Hv.
  { apply waves_valid; [done| |done]. by apply (refs_at_forward raw bag (header_of options order roots children)). }
  destruct (build_same options roots Hwf Hfree order children Hord bag raw Hrawlen Hraw Hok p _ Hv) as (roots' & Hb & Hsame).
  exists roots'. split; [|done]. unfold parse_boc, parse_boc_with. erewrite st_bind_ok by exact Rh.
  unfold read_and_build, st_get, st_lift, st_bind. rewrite Rr. cbn [h_count header_of]. rewrite Hh. cbn [fst].
  destruct Hsees as [-> _]. exact Hb.
Qed.

(** C9: what is written is read back as the same trees. Well-formed roots within
    the bound on depth, no two byte strings hashed in building them colliding,
    and their number within what the bag can state: the bag of them, with or
    without an index, a checksum and stored hashes, parses on any number of
    workers to roots that are, one for one, the same trees. *)
Theorem boc_round_trip p options roots bag :
  Forall cell_wf roots → collision_free (λ m, ∃ r, r ∈ roots ∧ hashed r m) →
  Forall (λ r, cell_height r <= MAX_DEPTH) roots →
  len roots <= 255 ∨ NoDup (name <$> roots) →
  serialize_boc_with roots options = Ok bag →
  ∃ roots', parse_boc p bag = Ok roots' ∧ Forall2 same roots roots'.
Proof. intros. by eapply parse_serialized. Qed.
End trip.

(** ** Compressed bags, there and back *)

Section compressed.
Context `{HH : Hasher} `{!HasherOk HH} `{L : Lz4}.

(** A length past the cap is refused whatever the decoder would do. *)
Lemma decompress_capped bytes prefix :
  get_range bytes 0 4 = Some prefix → MAX_DECOMPRESSED < from_le_bytes prefix →
  decompress bytes = Err (Malformed "compressed bag expands past the cap").
Proof.
  intros Hp Hn. unfold decompress. rewrite Hp. cbn [ok_or res_bind]. by rewrite (proj2 (Z.ltb_lt _ _)).
Qed.

Lemma decompress_back `{!Lz4Ok L} bag : len bag <= MAX_DECOMPRESSED → decompress (compress bag) = Ok bag.
Proof.
  intros Hl. assert (len bag < 2 ^ 32) as H32 by (unfold MAX_DECOMPRESSED in Hl; change (Z.shiftl 64 20) with 67108864 in Hl; lia).
  unfold decompress, compress. destruct (size_prepended bag H32) as [block Hb].
  assert (get_range (compress_prepend_size bag) 0 4 = Some (to_le_bytes 4 (len bag))) as ->.
  { rewrite Hb. apply (get_range_middle [] (to_le_bytes 4 (len bag)) block); [done|].
    unfold to_le_bytes, len. by rewrite length_reverse, length_to_be_bytes. }
  cbn [ok_or res_bind]. unfold from_le_bytes, to_le_bytes. rewrite reverse_involutive, from_to_be_bytes
    by (pose proof (len_nonneg bag); change (256 ^ Z.of_nat 4) with (2 ^ 32); lia).
  rewrite (proj2 (Z.ltb_ge _ _)) by lia. by rewrite decompress_compress.
Qed.

(** A bag compressed and read back is the trees it was made of. *)
Theorem compressed_round_trip `{!Lz4Ok L} p roots bytes :
  Forall cell_wf roots → collision_free (λ m, ∃ r, r ∈ roots ∧ hashed r m) →
  Forall (λ r, cell_height r <= MAX_DEPTH) roots →
  len roots <= 255 ∨ NoDup (name <$> roots) →
  compress_boc roots = Ok bytes →
  ∃ roots', decompress_boc p bytes = Ok roots' ∧ Forall2 same roots roots'.
Proof.
  intros Hwf Hfree Hdeep Hfew Hc. unfold compress_boc in Hc.
  destruct (serialize_boc roots) as [bag|] eqn:Hs; cbn [res_bind] in Hc; [|done]. injection Hc as <-.
  destruct (parse_serialized p _ roots bag Hwf Hfree Hdeep Hfew Hs) as (Hcap & roots' & Hp & Hsame).
  exists roots'. split; [|done]. unfold decompress_boc. by rewrite decompress_back.
Qed.
End compressed.
