(* ===== verification/BocChunked.v ===== *)
(** A bag written a chunk at a time (core/src/cell/boc/large.rs): the iterator's
    chunks, one after another, are the bag written at once. *)

From stdpp Require Import base gmap list list_numbers numbers strings.
From Stdlib Require Import ZArith Lia.
From S2P Require Import Prelude Errors Bits CellData CellHash CellModel CellSlice CellBuilder Binding Boc BocWaves BocRun BocCells BocParse BocWrite BocOrder BocEncode BocRoundtrip BocGraph BocTrip.

Local Open Scope Z_scope.

#[local] Abbreviation name := Cell.repr_hash.

Lemma crc32c_update_app crc a b : crc32c_update crc (a ++ b) = crc32c_update (crc32c_update crc a) b.
Proof. unfold crc32c_update. by rewrite fold_left_app. Qed.

Section chunked.
Context `{HH : Hasher} `{!HasherOk HH}.
Variables (options : BocOptions) (order roots : list Cell) (children : list (list Z)).

#[local] Abbreviation w := (byte_width (len order)).
#[local] Abbreviation runs := (cell_runs options w (zip order children)).
#[local] Abbreviation o := (byte_width (len (concat runs))).

(** What goes ahead of the cells. *)
Definition head_of : list Z :=
  MAGIC ++ [flags_byte w options; wrap 8 o] ++ be w (len order) ++ be w (len roots) ++ be w 0 ++
  be o (len (concat runs)) ++ concat (be w <$> root_indices order roots) ++
  (if bo_index options then concat (be o <$> ends 0 runs) else []).

Lemma layout_head : layout options order roots children = head_of ++ concat runs.
Proof. unfold layout, head_of. cbv zeta. by rewrite <- !app_assoc. Qed.

Hypothesis Hwf : ∀ c, c ∈ order → cell_wf c.
Hypothesis Hch : Forall2 (λ c indices, length indices = length (Cell.refs c)) order children.
Hypothesis Hcount : len order <= MAX_CELLS.

(** Sizing the cells ahead of writing them. *)
Lemma size_fold cells : ∀ body_len offsets,
  Forall (λ '(c, indices), cell_wf c) cells →
  fold_left (λ '(body_len, offsets) '(cell, refs),
    let stored := if bo_stored_hashes options then Identity.stored_len (Cell.identity cell) else 0 in
    let body_len := body_len + (2 + stored + len (Cell.data cell) + len (refs : list Z) * w) in
    (body_len, offsets ++ [body_len])) cells (body_len, offsets) =
  (body_len + len (concat (cell_runs options w cells)), offsets ++ ends body_len (cell_runs options w cells)).
Proof.
  pose proof (width_bounds order Hcount) as Hw.
  induction cells as [|[c indices] cells IH]; intros body_len offsets Hf.
  - cbn. by rewrite app_nil_r, Z.add_0_r.
  - apply Forall_cons in Hf as [Hc Hf].
    change (cell_runs options w ((c, indices) :: cells))
      with (cell_bytes (bo_stored_hashes options) w c indices :: cell_runs options w cells).
    cbn [fold_left concat ends]. cbv beta zeta. rewrite IH by done.
    assert (2 + (if bo_stored_hashes options then Identity.stored_len (Cell.identity c) else 0) +
      len (Cell.data c) + len indices * w = len (cell_bytes (bo_stored_hashes options) w c indices)) as ->.
    { unfold cell_bytes. rewrite !len_app, concat_be_len by lia.
      change (len [d1_of (bo_stored_hashes options) c; _]) with 2.
      destruct (bo_stored_hashes options); [rewrite stored_bytes_len by done|change (len (@nil Z)) with 0]; lia. }
    rewrite len_app, <- app_assoc. f_equal. lia.
Qed.

(** The iterator over these cells, once the header is out, at a cursor. *)
Definition at_cursor (cursor crc : Z) (phase : Phase) : BocChunks :=
  MkBocChunks order children w None (bo_crc32c options) (bo_stored_hashes options) crc cursor phase.

Lemma run_at cursor :
  0 <= cursor < len order →
  ∃ c indices, get order cursor = Some c ∧ get children cursor = Some indices ∧
    runs !! Z.to_nat cursor = Some (cell_bytes (bo_stored_hashes options) w c indices).
Proof.
  intros Hc. destruct (get_lt_Some order cursor Hc) as [c Ho].
  destruct (get_lt_Some children cursor) as [indices Hi];
    [unfold len in *; rewrite <- (Forall2_length _ _ _ Hch); lia|].
  exists c, indices. do 2 (split; [done|]). unfold cell_runs. rewrite list_lookup_fmap.
  unfold get in *. destruct (Z.ltb_spec cursor 0); [lia|].
  assert (zip order children !! Z.to_nat cursor = Some (c, indices)) as ->
    by (apply lookup_zip_with_Some; eauto). done.
Qed.

Lemma fill_spec crc phase fuel : ∀ start cursor chunk,
  0 <= cursor <= len order → (Z.to_nat (len order - cursor) <= fuel)%nat →
  ∃ cursor', BocChunks.fill fuel (at_cursor start crc phase) cursor chunk =
      (chunk ++ concat (take (Z.to_nat (cursor' - cursor)) (drop (Z.to_nat cursor) runs)), cursor') ∧
    cursor <= cursor' <= len order ∧ (cursor < len order → len chunk < CHUNK_TARGET → cursor < cursor').
Proof.
  pose proof (width_bounds order Hcount) as Hw.
  induction fuel as [|fuel IH]; intros start cursor chunk Hc Hf.
  - exists cursor. rewrite Z.sub_diag. simpl. rewrite app_nil_r. split; [done|]. lia.
  - cbn [BocChunks.fill at_cursor bc_order bc_children bc_stored_hashes bc_ref_size].
    destruct (Z.ltb_spec cursor (len order)) as [Hlt|Hge]; cbn [andb].
    2:{ exists cursor. rewrite Z.sub_diag. cbn. rewrite app_nil_r. split; [done|]. lia. }
    destruct (Z.ltb_spec (len chunk) CHUNK_TARGET) as [Hs|Hs].
    2:{ exists cursor. rewrite Z.sub_diag. cbn. rewrite app_nil_r. split; [done|]. lia. }
    destruct (run_at cursor ltac:(lia)) as (c & indices & Ho & Hi & Hr). rewrite Ho, Hi.
    rewrite push_cell_bytes by lia.
    destruct (IH start (cursor + 1) (chunk ++ cell_bytes (bo_stored_hashes options) w c indices))
      as (cursor' & E & Hc' & _); [lia|lia|].
    exists cursor'. fold (at_cursor start crc phase). rewrite E. split; [|lia]. f_equal. rewrite <- app_assoc. f_equal.
    rewrite (drop_S _ _ _ Hr). replace (Z.to_nat (cursor' - cursor)) with (S (Z.to_nat (cursor' - (cursor + 1)))) by lia.
    cbn [take concat]. by replace (S (Z.to_nat cursor)) with (Z.to_nat (cursor + 1)) by lia.
Qed.

Lemma next_body crc cursor cursor' chunk :
  cursor < len order →
  BocChunks.fill (length order) (at_cursor cursor crc PBody) cursor [] = (chunk, cursor') →
  BocChunks.next (at_cursor cursor crc PBody) = (Some chunk, at_cursor cursor' (crc32c_update crc chunk) PBody).
Proof.
  intros Hc E. assert (BocChunks.turn (at_cursor cursor crc PBody) =
    inl (Some chunk, at_cursor cursor' (crc32c_update crc chunk) PBody)) as Et; [|unfold BocChunks.next; by rewrite Et].
  unfold BocChunks.turn. change (bc_phase (at_cursor cursor crc PBody)) with PBody.
  change (bc_order (at_cursor cursor crc PBody)) with order. change (bc_cursor (at_cursor cursor crc PBody)) with cursor.
  cbv iota. rewrite (proj2 (Z.leb_gt (len order) cursor)) by done. by rewrite E.
Qed.

(** The checksum chunk, where there is one. *)
Definition last_chunk (crc : Z) : list Z :=
  if bo_crc32c options then to_le_bytes 4 (Z.lxor crc U32_MAX) else [].

(** A drained iterator: nothing more comes of it, however often it is asked. *)
Definition exhausted (self : BocChunks) : Prop := BocChunks.next self = (None, self).

Lemma drained_at_end crc :
  ∃ pieces finished, BocChunks.drained (at_cursor (len order) crc PBody) pieces finished ∧
    concat pieces = last_chunk crc ∧ exhausted finished ∧ (length pieces <= 1)%nat.
Proof.
  assert (∀ out, BocChunks.turn (BocChunks.with_phase (at_cursor (len order) crc PBody)
      (if bo_crc32c options then PCrc else PDone)) = inl out →
    BocChunks.next (at_cursor (len order) crc PBody) = out) as Hn.
  { intros out Ht. unfold BocChunks.next, BocChunks.turn at 1, at_cursor.
    cbn [bc_phase bc_order bc_cursor bc_crc_enabled]. rewrite Z.leb_refl. unfold at_cursor in Ht. by rewrite Ht. }
  unfold last_chunk. destruct (bo_crc32c options).
  - eexists [_], _. split; [eapply BocChunks.drained_next; [by apply Hn|]; by apply BocChunks.drained_end|].
    cbn. split; [by rewrite ?app_nil_r|]. split; [done|lia].
  - eexists [], _. split; [apply BocChunks.drained_end; by apply Hn|]. split; [done|split; [done|cbn; lia]].
Qed.

Lemma drained_body left : ∀ cursor crc,
  0 <= cursor <= len order → (Z.to_nat (len order - cursor) <= left)%nat →
  ∃ pieces finished, BocChunks.drained (at_cursor cursor crc PBody) pieces finished ∧
    concat pieces = concat (drop (Z.to_nat cursor) runs) ++
      last_chunk (crc32c_update crc (concat (drop (Z.to_nat cursor) runs))) ∧
    exhausted finished ∧ (length pieces <= left + 1)%nat.
Proof.
  pose proof (length_runs options order children Hch) as Hlr.
  induction left as [|left IH]; intros cursor crc Hc Hf;
    (destruct (decide (cursor = len order)) as [->|Hne];
      [destruct (drained_at_end crc) as (pieces & finished & Hd & Hp & He & Hl); exists pieces, finished;
       rewrite drop_ge by (rewrite Hlr; unfold len; lia); cbn [concat]; rewrite app_nil_l;
       change (crc32c_update crc []) with crc; split; [done|split; [done|split; [done|lia]]]|]); [lia|].
  destruct (fill_spec crc PBody (length order) cursor cursor []) as (cursor' & E & Hc' & Hprog);
    [lia|unfold len; lia|]. specialize (Hprog ltac:(lia) ltac:(by vm_compute)). rewrite app_nil_l in E.
  set (chunk := concat (take (Z.to_nat (cursor' - cursor)) (drop (Z.to_nat cursor) runs))) in *.
  destruct (IH cursor' (crc32c_update crc chunk)) as (pieces & finished & Hd & Hp & He & Hl); [lia..|].
  exists (chunk :: pieces), finished. split; [|cbn [concat length]; split; [|split; [done|lia]]].
  { eapply BocChunks.drained_next; [|exact Hd]. apply next_body; [lia|done]. }
  assert (concat (drop (Z.to_nat cursor) runs) = chunk ++ concat (drop (Z.to_nat cursor') runs)) as ->.
  { unfold chunk. rewrite <- concat_app. f_equal.
    rewrite <- (take_drop (Z.to_nat (cursor' - cursor)) (drop (Z.to_nat cursor) runs)) at 1.
    f_equal. rewrite drop_drop. f_equal. lia. }
  by rewrite Hp, crc32c_update_app, <- app_assoc.
Qed.
End chunked.

Section theorem.
Context `{HH : Hasher} `{!HasherOk HH}.

(** C38: writing in chunks is writing: wherever a bag is written at once, the
    iterator over the same roots and options is built, it gives finitely many
    chunks, at most one a cell and two more, they are that bag cut up, checksum
    included, and after them [next] says there is no more, and goes on saying it. *)
Theorem chunks_are_the_bag options roots bag :
  Forall cell_wf roots → collision_free (λ m, ∃ r, r ∈ roots ∧ hashed r m) →
  serialize_boc_with roots options = Ok bag →
  ∃ chunks pieces finished, serialize_boc_chunks_with roots options = Ok chunks ∧
    BocChunks.drained chunks pieces finished ∧ concat pieces = bag ∧
    BocChunks.next finished = (None, finished) ∧ (length pieces <= length (bc_order chunks) + 2)%nat.
Proof.
  intros Hwf Hfree Hs.
  destruct (serialize_inv options roots bag Hwf Hfree Hs) as (order & children & Ht & Hord & Hc & Hr1 & ->).
  assert (∀ c, c ∈ order → cell_wf c) as Hwo.
  { intros c Hin. pose proof (or_cells _ _ _ _ Hord) as Hf. rewrite Forall_forall in Hf. by eapply held_wf, Hf. }
  pose proof (ordered_lengths _ _ _ _ Hord) as Hl. pose proof (runs_len options order children Hwo Hl (proj2 Hc)) as Hrl.
  pose proof (width_bounds order (proj2 Hc)) as Hw.
  destruct (byte_width_spec (len (concat (cell_runs options (byte_width (len order)) (zip order children))))) as [Ho _].
  { unfold MAX_CELLS in Hc. change (Z.shiftl 1 17) with 131072 in Hc. lia. }
  assert (serialize_boc_chunks_with roots options = Ok (MkBocChunks order children (byte_width (len order))
    (Some (head_of options order roots children)) (bo_crc32c options) (bo_stored_hashes options)
    (crc32c_update CRC32C_INIT (head_of options order roots children)) 0 PHeader)) as Es.
  { unfold serialize_boc_chunks_with. rewrite (proj2 (Z.eqb_neq (len roots) 0)) by lia. rewrite Ht. cbn [res_bind].
    rewrite (proj2 (Z.ltb_ge MAX_CELLS (len order))) by lia. cbv zeta.
    rewrite (size_fold options order (proj2 Hc)).
    2:{ apply Forall_forall. intros [c indices] Hin. apply list_elem_of_lookup in Hin as [k Hk].
        apply lookup_zip_with_Some in Hk as (c' & i' & [= <- <-] & Hck & _). apply Hwo. by eapply list_elem_of_lookup_2. }
    rewrite app_nil_l, Z.add_0_l. rewrite roots_fold by (apply Hord || lia). cbn [res_bind].
    rewrite !push_be_be by lia. rewrite fold_push_be by lia.
    assert (∀ h, h = head_of options order roots children →
      Ok (MkBocChunks order children (byte_width (len order)) (Some h) (bo_crc32c options) (bo_stored_hashes options)
        (crc32c_update CRC32C_INIT h) 0 PHeader) = Ok (E := CellError) (MkBocChunks order children (byte_width (len order))
        (Some (head_of options order roots children)) (bo_crc32c options) (bo_stored_hashes options)
        (crc32c_update CRC32C_INIT (head_of options order roots children)) 0 PHeader)) as Hh by (by intros h ->).
    apply Hh. unfold head_of. destruct (bo_index options);
      do 4 (rewrite ?app_nil_r, <- ?app_assoc; cbn [app]); done. }
  destruct (drained_body options order children Hl (proj2 Hc) (length order) 0
    (crc32c_update CRC32C_INIT (head_of options order roots children)))
    as (pieces & finished & Hd & Hp & He & Hn); [unfold len in *; lia..|].
  eexists _, (head_of options order roots children :: pieces), finished. split; [exact Es|].
  split; [eapply BocChunks.drained_next; [reflexivity|exact Hd]|]. split; [|split; [exact He|cbn; lia]].
  cbn [concat]. rewrite Hp. change (Z.to_nat 0) with O. rewrite drop_0.
  unfold sealed. rewrite layout_head, <- crc32c_update_app. unfold last_chunk, crc32c.
  destruct (bo_crc32c options); by rewrite ?app_nil_r, ?app_assoc.
Qed.
End theorem.
