(* ===== verification/BocLazy.v ===== *)
(** A bag read in part: the view that has only its header read
    (core/src/cell/boc/view.rs, core/src/cell/boc/random.rs) and the reader that
    builds cells as they are asked for and keeps them (core/src/cell/boc/lazy.rs,
    with [RawCells], [Build] and [build_at] of core/src/cell/boc/parse.rs). *)

From stdpp Require Import base list list_numbers numbers strings sorting.
From Stdlib Require Import ZArith Lia.
From S2P Require Import Prelude Errors Bits CellData CellHash CellModel Boc.

Local Open Scope Z_scope.

Record RawCells : Type := MkRawCells { rw_cells : list RawCell; rw_payload : list Z }.

Module RawCells.
Definition len (self : RawCells) : Z := Prelude.len (rw_cells self).
End RawCells.

Definition read_cells (header : Header) : stm Reader CellError RawCells :=
  do! reader <- st_get;
  let payload := r_bytes reader in
  do! cells <- read_raw header;
  do! _ <- st_lift (heights cells (h_count header));
  st_ret (MkRawCells cells payload).

Record Build : Type := MkBuild {
  bu_built : list (option Cell);
  bu_seen : list Z;
  bu_generation : Z;
  bu_kept : Z;
  bu_builds : Z;
}.

Module Build.
Definition new (count : Z) : Build :=
  MkBuild (replicate (Z.to_nat count) None) (replicate (Z.to_nat count) 0) 0 0 0.

Definition keep (self : Build) (position : Z) (cell : Cell) : Build :=
  let builds := bu_builds self + 1 in
  match Prelude.get (bu_built self) position with
  | Some slot =>
      MkBuild (<[Z.to_nat position := Some cell]> (bu_built self)) (bu_seen self) (bu_generation self)
        (match slot with None => bu_kept self + 1 | Some _ => bu_kept self end) builds
  | None => MkBuild (bu_built self) (bu_seen self) (bu_generation self) (bu_kept self) builds
  end.

Definition get (self : Build) (index : Z) : option Cell :=
  default None (Prelude.get (bu_built self) index).

Definition count (self : Build) : Z := bu_kept self.
Definition builds (self : Build) : Z := bu_builds self.

Definition open_walk (self : Build) : Build :=
  match checked_add U32_MAX (bu_generation self) 1 with
  | Some next => MkBuild (bu_built self) (bu_seen self) next (bu_kept self) (bu_builds self)
  | None =>
      MkBuild (bu_built self) (replicate (length (bu_seen self)) 0) 1 (bu_kept self) (bu_builds self)
  end.

Definition with_seen (self : Build) (seen : list Z) : Build :=
  MkBuild (bu_built self) seen (bu_generation self) (bu_kept self) (bu_builds self).
End Build.

(** The walk of [build_at]: the positions reached and not built, the head of
    [stack] being the one popped next. [None] where [fuel] runs out. *)
Fixpoint collect (fuel : nat) (raw : list RawCell) (built : list (option Cell)) (generation : Z)
    (stack : list Z) (seen : list Z) (order : list Z) : option (result CellError (list Z) * list Z) :=
  match fuel with
  | O => None
  | S fuel' =>
      match stack with
      | [] => Some (Ok order, seen)
      | position :: stack =>
          match get built position with
          | Some (Some _) => collect fuel' raw built generation stack seen order
          | _ =>
              match get seen position with
              | Some mark =>
                  if mark =? generation then collect fuel' raw built generation stack seen order
                  else
                    let seen := <[Z.to_nat position := generation]> seen in
                    let order := order ++ [position] in
                    match get raw position with
                    | None => Some (Err BadReference, seen)
                    | Some rc =>
                        collect fuel' raw built generation (reverse (raw_refs rc) ++ stack) seen order
                    end
              | None => collect fuel' raw built generation stack seen order
              end
          end
      end
  end.

(** Steps enough: each cell is entered once, and pushes four references at most. *)
Definition collect_fuel (count : nat) : nat := 5 * count + 2.

Section build_at.
Context `{Hasher}.

(** One position of the second loop of [build_at]. *)
Definition build_position (raw : RawCells) (position : Z) : stm (Build * Lowest) CellError unit :=
  λ '(state, lowest),
    match get (rw_cells raw) position with
    | None => (Err BadReference, (state, lowest))
    | Some raw_cell =>
        match build_one raw_cell (rw_payload raw) (bu_built state) with
        | Ok (Some cell) => (Ok tt, (Build.keep state position cell, lowest))
        | Ok None => (Ok tt, (state, lowest))
        | Err error => (Ok tt, (state, record lowest position error))
        end
    end.

Definition build_at (raw : RawCells) (index : Z) : stm Build CellError Cell := λ state,
  if len (rw_cells raw) <=? index then (Err BadReference, state)
  else
    match Build.get state index with
    | Some cell => (Ok cell, state)
    | None =>
        let state := Build.open_walk state in
        match collect (collect_fuel (length (rw_cells raw))) (rw_cells raw) (bu_built state)
                (bu_generation state) [index] (bu_seen state) [] with
        | None => (Err BadReference, state)
        | Some (Err error, seen) => (Err error, Build.with_seen state seen)
        | Some (Ok order, seen) =>
            let state := Build.with_seen state seen in
            let order := merge_sort Z.le order in
            match st_for (reverse order) (build_position raw) (state, None) with
            | (Err error, (state, _)) => (Err error, state)
            | (Ok _, (state, lowest)) =>
                match into_result lowest with
                | Err error => (Err error, state)
                | Ok _ => (ok_or (Build.get state index) BadReference, state)
                end
            end
        end
    end.

Definition build_cell (header : Header) (index : Z) : stm Reader CellError Cell :=
  if h_count header <=? index then st_err BadReference
  else
    do! raw <- read_cells header;
    st_lift (fst (build_at raw index (Build.new (h_count header)))).
End build_at.

(** ** The reader that keeps what it builds *)

Record LazyBoc : Type := MkLazyBoc { lz_header : Header; lz_raw : RawCells; lz_build : Build }.

Module LazyBoc.
Section lazy.
Context `{Hasher}.

Definition open_with (bytes : list Z) (options : ParseOptions) : result CellError LazyBoc :=
  let? header := fst (read_header bytes options (MkReader bytes 0)) in
  let? raw := fst (read_cells header (MkReader bytes (h_body_offset header))) in
  Ok (MkLazyBoc header raw (Build.new (h_count header))).

Definition open (bytes : list Z) : result CellError LazyBoc := open_with bytes ParseOptions.default.

Definition cell_count (self : LazyBoc) : Z := RawCells.len (lz_raw self).
Definition root_count (self : LazyBoc) : Z := len (h_root_list (lz_header self)).
Definition built_count (self : LazyBoc) : Z := Build.count (lz_build self).
Definition builds_run (self : LazyBoc) : Z := Build.builds (lz_build self).

(** [&self] over the [RefCell]: the build is the state. *)
Definition cell (index : Z) : stm LazyBoc CellError Cell := λ self,
  let '(result, build) := build_at (lz_raw self) index (lz_build self) in
  (result, MkLazyBoc (lz_header self) (lz_raw self) build).

Definition root (n : Z) : stm LazyBoc CellError Cell :=
  do! self <- st_get;
  do! index <- st_lift (ok_or (get (h_root_list (lz_header self)) n) BadReference);
  cell index.

Definition roots : stm LazyBoc CellError (list Cell) :=
  do! self <- st_get;
  st_map (h_root_list (lz_header self)) cell.

Definition prewarm (indices : list Z) : stm LazyBoc CellError unit :=
  st_for indices (λ index, run! cell index; st_ret tt).
End lazy.
End LazyBoc.

(** ** The view *)

Record BocView : Type := MkBocView { bv_bytes : list Z; bv_header : Header }.

Module BocView.
Section view.
Context `{Hasher}.

Definition open_with (bytes : list Z) (options : ParseOptions) : result CellError BocView :=
  let? header := fst (read_header bytes options (MkReader bytes 0)) in
  Ok (MkBocView bytes header).

Definition open (bytes : list Z) : result CellError BocView := open_with bytes ParseOptions.default.

Definition cell_count (self : BocView) : Z := h_count (bv_header self).
Definition root_count (self : BocView) : Z := len (h_root_list (bv_header self)).
Definition has_index (self : BocView) : bool := h_has_index (bv_header self).
Definition has_checksum (self : BocView) : bool := h_has_checksum (bv_header self).
Definition has_cache_bits (self : BocView) : bool := h_has_cache_bits (bv_header self).
Definition cell_area_len (self : BocView) : Z := h_cell_area (bv_header self).

Definition reader_at_body (self : BocView) : Reader := MkReader (bv_bytes self) (h_body_offset (bv_header self)).

Definition materialize (parallelism : Z) (self : BocView) : result CellError (list Cell) :=
  fst (read_and_build parallelism (bv_header self) (reader_at_body self)).

Definition verify (parallelism : Z) (self : BocView) : result CellError (list (list Z)) :=
  fst (verify_roots parallelism (bv_header self) (reader_at_body self)).

Definition cell (self : BocView) (index : Z) : result CellError Cell :=
  fst (build_cell (bv_header self) index (reader_at_body self)).
End view.
End BocView.
