(* ===== verification/BocLazySpec.v ===== *)
(** Cells built as they are asked for (core/src/cell/boc/parse.rs [build_at],
    core/src/cell/boc/lazy.rs): each is the cell a whole parse builds at that
    index, whatever was asked for before. *)

From stdpp Require Import base list list_numbers numbers strings sorting.
From Stdlib Require Import ZArith Lia.
From S2P Require Import Prelude Errors Bits CellData CellHash CellModel CellSlice CellBuilder Boc BocWaves BocRun BocCells BocParse BocTheorems BocLazy.

Local Open Scope Z_scope.

Section lazy.
Context `{HH : Hasher}.
Variables (raw : list RawCell) (bytes : list Z) (header : Boc.Header).
Hypothesis Hlen : len raw = h_count header.
Hypothesis Hraw : ∀ i rc, get raw i = Some rc → raw_ok bytes (h_count header) i rc.

#[local] Abbreviation count := (h_count header).
#[local] Abbreviation raws := (MkRawCells raw bytes).

(** The cells a whole parse ends with. *)
Variable whole : list (option Cell).
Hypothesis Hwhole : settled count (build_at' raw bytes) whole.

Definition has (built : list (option Cell)) (i : Z) : Prop := ∃ c, get built i = Some (Some c).

(** What is kept is what the whole parse holds, and is counted. *)
Record coherent (state : Build) : Prop := {
  co_built : len (bu_built state) = count;
  co_seen : len (bu_seen state) = count;
  co_whole : ∀ i c, get (bu_built state) i = Some (Some c) → get whole i = Some (Some c);
  co_marks : Forall (λ m, m <= bu_generation state) (bu_seen state);
  co_generation : 0 <= bu_generation state;
  co_kept : bu_kept state = len (filter is_Some (bu_built state));
  co_builds : bu_builds state = bu_kept state;
}.

Lemma new_coherent : 0 <= count → coherent (Build.new count).
Proof.
  intros Hc. split; simpl; try done.
  - unfold len. rewrite length_replicate. lia.
  - unfold len. rewrite length_replicate. lia.
  - intros i c Hi. unfold get in Hi. destruct (i <? 0); [done|]. by apply lookup_replicate in Hi as [? _].
  - by apply Forall_replicate.
  - rewrite filter_none; [done|]. intros x Hx. apply elem_of_replicate in Hx as [-> _]. by intros [? ?].
Qed.

(** A walk begins with no cell marked as its own. *)
Lemma open_walk_spec state :
  coherent state →
  coherent (Build.open_walk state) ∧ bu_built (Build.open_walk state) = bu_built state ∧
  Forall (λ m, m ≠ bu_generation (Build.open_walk state)) (bu_seen (Build.open_walk state)).
Proof.
  intros [Hb Hs Hw Hm Hg Hk Hbu]. unfold Build.open_walk, checked_add, checked.
  destruct (bu_generation state + 1 <=? U32_MAX); simpl.
  - split; [|split; [done|]].
    + split; simpl; try done; [|lia]. eapply Forall_impl; [exact Hm|]. intros m. simpl. lia.
    + eapply Forall_impl; [exact Hm|]. intros m. simpl. lia.
  - split; [|split; [done|by apply Forall_replicate]]. split; simpl; try done.
    + unfold len. rewrite length_replicate. exact Hs.
    + by apply Forall_replicate.
Qed.

(** ** The walk *)

(** The cells reached from a position. *)
Inductive reach (index : Z) : Z → Prop :=
| reach_here : reach index index
| reach_step i r : reach index i → r ∈ refs_at raw i → reach index r.

Lemma reach_trans a b c : reach a b → reach b c → reach a c.
Proof. intros Hab Hbc. induction Hbc; [done|]. by eapply reach_step. Qed.

(** A cell held rests on cells held. *)
Lemma whole_refs i r : has whole i → r ∈ refs_at raw i → has whole r.
Proof.
  intros [c Hc] Hr. pose proof (get_Some_lt _ _ _ Hc) as Hi. destruct Hwhole as [Hl Hg].
  rewrite Hg in Hc by lia. unfold build_at', refs_at in *. destruct (get raw i) as [rc|] eqn:Erc; [|done].
  destruct (build_one rc bytes whole) as [[c'|]|] eqn:Eb; [|done..].
  destruct (build_one_spec _ _ _ _ _ _ (Hraw i rc Erc) Eb) as (children & Hch & _).
  apply list_elem_of_lookup in Hr as [k Hk]. destruct (Forall2_lookup_l _ _ _ _ _ Hch Hk) as (x & _ & Hx).
  by exists x.
Qed.

Lemma whole_reach i j : has whole i → reach i j → has whole j.
Proof. intros Hi Hr. induction Hr as [|j r _ IH Hr]; [done|]. by eapply whole_refs. Qed.

Record walking (index : Z) (built : list (option Cell)) (generation : Z) (stack seen order : list Z) : Prop := {
  wa_stack : Forall (λ i, 0 <= i < count ∧ reach index i) stack;
  wa_order : Forall (λ i, 0 <= i < count ∧ reach index i ∧ get built i = Some None) order;
  wa_nodup : NoDup order;
  wa_seen : len seen = count ∧ ∀ i, 0 <= i < count → get seen i = Some generation ↔ i ∈ order;
  wa_closed : ∀ i r, i ∈ order → r ∈ refs_at raw i → r ∈ order ∨ has built r ∨ r ∈ stack;
}.

Lemma get_slot (built : list (option Cell)) i :
  0 <= i < len built → get built i = Some None ∨ has built i.
Proof. intros Hi. destruct (get_lt_Some built i Hi) as [[c|] Hc]; [right; by exists c|by left]. Qed.

Lemma collect_cell_spec index built generation :
  len built = count → ∀ fuel stack seen order,
  walking index built generation stack seen order →
  5 * (count - len order) + len stack < Z.of_nat fuel →
  ∃ order' seen', collect fuel raw built generation stack seen order = Some (Ok order', seen') ∧
    walking index built generation [] seen' order' ∧
    (∀ i, i ∈ order → i ∈ order') ∧ (∀ i, i ∈ stack → i ∈ order' ∨ has built i) ∧
    (Forall (λ k, k <= generation) seen → Forall (λ k, k <= generation) seen').
Proof.
  intros Hb fuel. induction fuel as [|fuel IH]; intros stack seen order Hw Hf.
  { exfalso. assert (len order <= count); [|pose proof (len_nonneg stack); lia].
    destruct Hw as [_ Ho Hnd _ _]. pose proof (len_nonneg raw).
    assert (length order <= length (seqZ 0 count))%nat as Hle.
    { apply submseteq_length, NoDup_submseteq; [done|]. intros i Hi. rewrite Forall_forall in Ho.
      apply elem_of_seqZ. destruct (Ho i Hi). lia. }
    rewrite length_seqZ in Hle. unfold len in *. lia. }
  destruct stack as [|position stack].
  { exists order, seen. split; [done|]. split; [done|]. split; [done|]. split; [by intros i Hi%elem_of_nil|done]. }
  rewrite len_cons in Hf. cbn [collect].
  pose proof Hw as [Hst Hor Hnd [Hsl Hsn] Hcl]. apply Forall_cons in Hst as [[Hp Hrp] Hst].
  destruct (get_slot built position ltac:(lia)) as [Hpn|[c Hpc]].
  2:{ rewrite Hpc. destruct (IH stack seen order) as (o & s & E & H1 & H2 & H3 & H4); [|lia|].
      - split; [done..|]. intros i r Hi Hr. destruct (Hcl i r Hi Hr) as [?|[?|Hr']]; auto.
        apply elem_of_cons in Hr' as [->|?]; [right; left; by exists c|auto].
      - exists o, s. split; [done|]. split; [done|]. split; [done|]. split; [|done].
        intros i [->|Hi]%elem_of_cons; [right; by exists c|by apply H3]. }
  rewrite Hpn. destruct (get_lt_Some seen position ltac:(lia)) as [mark Hmark]. rewrite Hmark.
  destruct (Z.eqb_spec mark generation) as [->|Hne].
  { apply Hsn in Hmark; [|done]. destruct (IH stack seen order) as (o & s & E & H1 & H2 & H3 & H4); [|lia|].
    - split; [done..|]. intros i r Hi Hr. destruct (Hcl i r Hi Hr) as [?|[?|Hr']]; auto.
      apply elem_of_cons in Hr' as [->|?]; auto.
    - exists o, s. split; [done|]. split; [done|]. split; [done|]. split; [|done].
      intros i [->|Hi]%elem_of_cons; [left; by apply H2|by apply H3]. }
  assert (position ∉ order) as Hni by (intros Hin; apply Hsn in Hin; [congruence|done]).
  destruct (get_lt_Some raw position ltac:(lia)) as [rc Hrc]. rewrite Hrc.
  assert (refs_at raw position = raw_refs rc) as Er by (unfold refs_at; by rewrite Hrc).
  destruct (IH (reverse (raw_refs rc) ++ stack) (<[Z.to_nat position := generation]> seen) (order ++ [position]))
    as (o & s & E & H1 & H2 & H3 & H4).
  - split.
    + apply Forall_app. split; [|done]. apply Forall_reverse, Forall_forall. intros r Hr. rewrite <- Er in Hr. split.
      * pose proof (refs_at_forward raw bytes header Hraw position r Hp Hr). lia.
      * by eapply reach_step.
    + apply Forall_app. split; [done|]. by apply Forall_singleton.
    + apply NoDup_app. split; [done|]. split; [|apply NoDup_singleton].
      intros x Hx Hx'%list_elem_of_singleton. by subst.
    + rewrite len_insert. split; [done|]. intros i Hi. rewrite get_insert by lia. rewrite elem_of_app, list_elem_of_singleton.
      destruct (Z.eqb_spec i position) as [->|]; [tauto|]. rewrite Hsn by done. tauto.
    + intros i r Hi Hr. rewrite !elem_of_app, elem_of_reverse, list_elem_of_singleton in *. destruct Hi as [Hi| ->].
      * destruct (Hcl i r Hi Hr) as [?|[?|Hr']]; auto. apply elem_of_cons in Hr' as [->|?]; auto.
      * rewrite Er in Hr. auto.
  - rewrite len_app. change (len [position]) with 1. rewrite len_app.
    pose proof (ro_count _ _ _ _ (Hraw position rc Hrc)) as H4. unfold MAX_REFS in H4.
    assert (len (reverse (raw_refs rc)) = len (raw_refs rc)) as -> by (unfold len; by rewrite length_reverse). lia.
  - exists o, s. split; [done|]. split; [done|]. split; [|split].
    + intros i Hi. apply H2, elem_of_app. by left.
    + intros i [->|Hi]%elem_of_cons; [left; apply H2, elem_of_app; right; by left|].
      apply H3, elem_of_app. by right.
    + intros Hs. apply H4. by apply Forall_insert.
Qed.

(** ** Building what was reached *)

Lemma kept_insert (built : list (option Cell)) i c :
  get built i = Some None →
  len (filter is_Some (<[Z.to_nat i := Some c]> built)) = len (filter is_Some built) + 1.
Proof.
  unfold get. destruct (Z.ltb_spec i 0); [done|]. intros Hi.
  rewrite insert_take_drop by (by eapply lookup_lt_Some).
  rewrite <- (take_drop_middle built (Z.to_nat i) None Hi) at 3.
  rewrite !filter_app, !len_app, !filter_cons. rewrite decide_True, decide_False by (eauto || by intros [? ?]).
  rewrite len_cons. lia.
Qed.

Lemma keep_coherent state i c :
  coherent state → get (bu_built state) i = Some None → get whole i = Some (Some c) →
  coherent (Build.keep state i c) ∧
  bu_built (Build.keep state i c) = <[Z.to_nat i := Some c]> (bu_built state).
Proof.
  intros [Hb Hs Hw Hm Hg Hk Hbu] Hi Hc. pose proof (get_Some_lt _ _ _ Hi) as Hr.
  unfold Build.keep. rewrite Hi. split; [|done]. split; simpl; try done.
  - by rewrite len_insert.
  - intros j d. rewrite get_insert by done. destruct (Z.eqb_spec j i) as [->|]; [congruence|apply Hw].
  - rewrite kept_insert by done. lia.
  - lia.
Qed.

Definition lowest_failure (cells : list Z) (lowest : Lowest) : Lowest :=
  fold_left (λ lowest i,
    match build_at' raw bytes i whole with Err e => record lowest i e | Ok _ => lowest end) cells lowest.

Definition agrees_at (built : list (option Cell)) (i : Z) : Prop := get built i = get whole i.

Lemma run_positions ds : ∀ state lowest,
  StronglySorted (λ a b, b < a) ds → coherent state →
  (∀ i, i ∈ ds → 0 <= i < count ∧ get (bu_built state) i = Some None ∧
    ∀ r, r ∈ refs_at raw i → r ∈ ds ∨ agrees_at (bu_built state) r) →
  ∃ state', st_for ds (build_position raws) (state, lowest) = (Ok tt, (state', lowest_failure ds lowest)) ∧
    coherent state' ∧ (∀ i, i ∈ ds ∨ agrees_at (bu_built state) i → agrees_at (bu_built state') i).
Proof.
  induction ds as [|i ds IH]; intros state lowest Hsort Hco Hds.
  { exists state. split; [done|]. split; [done|]. by intros i [Hi%elem_of_nil|Hi]. }
  apply StronglySorted_inv in Hsort as [Hsort Hhead]. rewrite Forall_forall in Hhead.
  destruct (Hds i) as (Hi & Hnone & Hrefs); [by left|].
  assert (build_at' raw bytes i (bu_built state) = build_at' raw bytes i whole) as Eb.
  { apply (build_local raw bytes header); [apply Hco|apply Hwhole|done|]. intros r Hr.
    destruct (Hrefs r Hr) as [Hin|Hag]; [|done]. exfalso. pose proof (refs_at_forward raw bytes header Hraw i r Hi Hr).
    apply elem_of_cons in Hin as [->|Hin]; [lia|]. specialize (Hhead r Hin). lia. }
  pose proof (proj2 Hwhole i Hi) as Hwi.
  assert (∃ state1, build_position raws i (state, lowest) =
      (Ok tt, (state1, match build_at' raw bytes i whole with Err e => record lowest i e | Ok _ => lowest end)) ∧
    coherent state1 ∧ agrees_at (bu_built state1) i ∧
    ∀ j, j ≠ i → get (bu_built state1) j = get (bu_built state) j) as (state1 & E1 & Hco1 & Hag1 & Hother).
  { rewrite <- Eb. unfold build_position, build_at' in *. cbn [rw_cells rw_payload].
    destruct (get_lt_Some raw i) as [rc Hrc]; [lia|]. rewrite Hrc in *.
    destruct (build_one rc bytes (bu_built state)) as [[c|]|e] eqn:E; rewrite <- Eb in Hwi; simpl in Hwi.
    - destruct (keep_coherent state i c Hco Hnone Hwi) as [Hk Hkb]. exists (Build.keep state i c).
      split; [done|]. split; [done|]. rewrite Hkb. pose proof (co_built _ Hco). split.
      + unfold agrees_at. rewrite get_insert by lia. by rewrite Z.eqb_refl.
      + intros j Hj. rewrite get_insert by lia. by rewrite (proj2 (Z.eqb_neq _ _)).
    - exists state. split; [done|]. split; [done|]. split; [|done]. unfold agrees_at. congruence.
    - exists state. split; [done|]. split; [done|]. split; [|done]. unfold agrees_at. congruence. }
  destruct (IH state1 (match build_at' raw bytes i whole with Err e => record lowest i e | Ok _ => lowest end))
    as (state' & E & Hco' & Hag'); [done|done| |].
  - intros j Hj. assert (j ≠ i) as Hne by (specialize (Hhead j Hj); lia).
    destruct (Hds j) as (Hjr & Hjn & Hjrefs); [by right|]. rewrite Hother by done. do 2 (split; [done|]).
    intros r Hr. destruct (decide (r = i)) as [->|Hri]; [by right|].
    destruct (Hjrefs r Hr) as [[->|Hin]%elem_of_cons|Hag]; [done|by left|right].
    unfold agrees_at. by rewrite Hother.
  - exists state'. split; [|split; [done|]].
    + cbn [st_for]. erewrite st_bind_ok by exact E1. exact E.
    + intros j Hj. apply Hag'. destruct (decide (j = i)) as [->|Hne]; [by right|].
      destruct Hj as [[->|Hin]%elem_of_cons|Hag]; [done|by left|right]. unfold agrees_at. by rewrite Hother.
Qed.

(** What is recorded is the failure of the lowest index. *)
Lemma lowest_failure_spec cells : ∀ before lowest,
  lowest_of (build_at' raw bytes) whole before lowest →
  lowest_of (build_at' raw bytes) whole (reverse cells ++ before) (lowest_failure cells lowest).
Proof.
  induction cells as [|i cells IH]; intros before lowest Hl; [done|].
  rewrite reverse_cons, <- app_assoc. unfold lowest_failure. cbn [fold_left]. apply IH. clear IH.
  destruct (build_at' raw bytes i whole) as [v|e] eqn:Ei; destruct lowest as [[k e']|]; unfold lowest_of in *; simpl.
  - destruct Hl as (Hk & Ek & Hm). split; [by right|]. split; [done|].
    intros j [->|Hj]%elem_of_cons Hlt; [by exists v|by apply Hm].
  - intros j [->|Hj]%elem_of_cons; [by exists v|by apply Hl].
  - destruct Hl as (Hk & Ek & Hm). destruct (Z.ltb_spec i k).
    + split; [by left|]. split; [done|]. intros j [->|Hj]%elem_of_cons Hlt; [lia|apply Hm; [done|lia]].
    + split; [by right|]. split; [done|]. intros j [->|Hj]%elem_of_cons Hlt; [lia|by apply Hm].
  - split; [by left|]. split; [done|]. intros j [->|Hj]%elem_of_cons Hlt; [lia|by apply Hl].
Qed.

(** ** The answer *)

(** What asking for a cell answers: the cell of the whole parse; or, where there is
    none, the failure of the lowest index among the cells it reaches. *)
Definition answers (index : Z) (answer : result CellError Cell) : Prop :=
  match answer with
  | Ok c => get whole index = Some (Some c)
  | Err e =>
      count <= index ∧ e = BadReference ∨
      index < count ∧ get whole index = Some None ∧
        ((∃ i, reach index i ∧ build_at' raw bytes i whole = Err e ∧
            ∀ j, reach index j → j < i → ∃ v, build_at' raw bytes j whole = Ok v) ∨
         (∀ j, reach index j → ∃ v, build_at' raw bytes j whole = Ok v) ∧ e = BadReference)
  end.

Lemma answers_unique index a b : answers index a → answers index b → a = b.
Proof.
  destruct a as [c|e], b as [d|f]; simpl; [congruence| | |].
  - intros Hc [[Hr _]|(_ & Hn & _)]; [apply get_Some_lt in Hc; destruct Hwhole; lia|congruence].
  - intros [[Hr _]|(_ & Hn & _)] Hc; [apply get_Some_lt in Hc; destruct Hwhole; lia|congruence].
  - intros [[H1 ->]|(H1 & _ & Ha)] [[H2 ->]|(H2 & _ & Hb)]; [done|lia|lia|]. f_equal.
    destruct Ha as [(i & Hi & Ei & Hm)|[Hall ->]], Hb as [(j & Hj & Ej & Hm')|[Hall' ->]]; [| | |done].
    + destruct (Z.lt_trichotomy i j) as [Hlt|[->|Hlt]]; [|congruence|].
      * destruct (Hm' i Hi Hlt); congruence.
      * destruct (Hm j Hj Hlt); congruence.
    + destruct (Hall' i Hi); congruence.
    + destruct (Hall j Hj); congruence.
Qed.

Lemma sorted_reverse order :
  NoDup order → StronglySorted (λ a b, b < a) (reverse (merge_sort Z.le order)).
Proof.
  intros Hnd. assert (NoDup (merge_sort Z.le order)) as Hnd' by (by rewrite merge_sort_Permutation).
  assert (StronglySorted Z.le (merge_sort Z.le order)) as Hs by (apply StronglySorted_merge_sort; intros ??; lia).
  induction Hs as [|x l Hs IH Hx]; [constructor|]. apply NoDup_cons in Hnd' as [Hnx Hnd'].
  rewrite reverse_cons. specialize (IH Hnd').
  assert (∀ l' : list Z, StronglySorted (λ a b, b < a) l' → Forall (λ y, x < y) l' →
    StronglySorted (λ a b, b < a) (l' ++ [x])) as Happ.
  { clear. induction 1 as [|y l' Hs IH Hy]; intros Hf; simpl; [by repeat constructor|].
    apply Forall_cons in Hf as [Hxy Hf]. constructor; [by apply IH|]. apply Forall_app. split; [done|].
    by apply Forall_singleton. }
  apply Happ; [done|]. apply Forall_reverse, Forall_forall. intros y Hy. rewrite Forall_forall in Hx.
  specialize (Hx y Hy). destruct (decide (x = y)) as [->|]; [done|lia].
Qed.

Lemma build_at_answers state index :
  0 <= index → coherent state →
  answers index (fst (build_at raws index state)) ∧ coherent (snd (build_at raws index state)).
Proof.
  intros H0 Hco. unfold build_at. cbn [rw_cells]. rewrite Hlen. destruct (Z.leb_spec count index) as [Hge|Hlt].
  { simpl. split; [by left|done]. }
  destruct (get_slot (bu_built state) index ltac:(rewrite (co_built _ Hco); lia)) as [Hn|[c Hc]].
  2:{ assert (Build.get state index = Some c) as -> by (unfold Build.get; by rewrite Hc). simpl.
      split; [by apply (co_whole _ Hco)|done]. }
  assert (Build.get state index = None) as -> by (unfold Build.get; by rewrite Hn).
  destruct (open_walk_spec state Hco) as (Hco1 & Eb & Hmarks). set (state1 := Build.open_walk state) in *.
  destruct (collect_cell_spec index (bu_built state1) (bu_generation state1)) with (fuel := collect_fuel (length raw))
    (stack := [index]) (seen := bu_seen state1) (order := @nil Z) as (order & seen & Ec & Hw & _ & Hst & Hmk).
  { apply Hco1. }
  { split.
    - apply Forall_singleton. split; [lia|constructor].
    - apply Forall_nil_2.
    - apply NoDup_nil_2.
    - split; [apply Hco1|]. intros i Hi. split; [|by intros ?%elem_of_nil]. intros Hs. exfalso.
      rewrite Forall_forall in Hmarks. apply (Hmarks (bu_generation state1)); [|done].
      unfold get in Hs. destruct (i <? 0); [done|]. by eapply list_elem_of_lookup_2.
    - by intros i r ?%elem_of_nil. }
  { change (len (@nil Z)) with 0. change (len [index]) with 1. unfold collect_fuel, len in *. lia. }
  rewrite Ec. cbv beta iota zeta. set (state2 := Build.with_seen state1 seen).
  assert (coherent state2) as Hco2.
  { destruct Hco1 as [? ? ? Hm ? ? ?]. destruct Hw as [_ _ _ [Hsl _] _]. split; simpl; try done. by apply Hmk. }
  destruct Hw as [_ Hor Hnd _ Hcl]. rewrite Forall_forall in Hor.
  assert (∀ i, i ∈ reverse (merge_sort Z.le order) ↔ i ∈ order) as Hin.
  { intros i. rewrite elem_of_reverse. by rewrite merge_sort_Permutation. }
  destruct (run_positions (reverse (merge_sort Z.le order)) state2 None) as (state' & Er & Hco' & Hag).
  { by apply sorted_reverse. }
  { done. }
  { intros i Hi%Hin. destruct (Hor i Hi) as (Hr & _ & Hno). split; [done|]. split; [done|]. intros r Hrr.
    destruct (Hcl i r Hi Hrr) as [?|[[c Hc]|?%elem_of_nil]]; [left; by apply Hin| |done].
    right. unfold agrees_at. change (bu_built state2) with (bu_built state1). rewrite Hc. symmetry. by apply (co_whole _ Hco1). }
  unfold Lowest in Er |- *. rewrite Er. cbv beta iota. pose proof (lowest_failure_spec (reverse (merge_sort Z.le order)) [] None) as Hlow.
  specialize (Hlow ltac:(by intros i ?%elem_of_nil)). rewrite app_nil_r, reverse_involutive in Hlow.
  set (lowest := lowest_failure _ None) in *.
  assert (index ∈ order) as Hio.
  { destruct (Hst index) as [?|[c Hc]]; [by left|done|]. rewrite Eb in Hc. congruence. }
  assert (get (bu_built state') index = get whole index) as Egi by (apply Hag; left; by apply Hin).
  assert (∀ j, reach index j → j ∈ order ∨ has whole j) as Hreach.
  { intros j Hj. induction Hj as [|j r _ IH Hr]; [by left|]. destruct IH as [Hjo|Hjw]; [|right; by eapply whole_refs].
    destruct (Hcl j r Hjo Hr) as [?|[[c Hc]|?%elem_of_nil]]; [by left| |done]. right. exists c. by apply (co_whole _ Hco1). }
  assert (∀ j, has whole j → ∃ v, build_at' raw bytes j whole = Ok v) as Hok.
  { intros j [c Hc]. pose proof (get_Some_lt _ _ _ Hc) as Hr. destruct Hwhole as [Hl Hg]. rewrite Hg in Hc by lia.
    destruct (build_at' raw bytes j whole) as [v|]; [by exists v|done]. }
  destruct (get_slot whole index ltac:(destruct Hwhole; lia)) as [Hwn|[c Hwc]].
  - destruct lowest as [[i e]|]; simpl.
    + destruct Hlow as (Hi & Ei & Hm). rewrite merge_sort_Permutation in Hi. split; [|done]. right.
      split; [done|]. split; [done|]. left. exists i. split; [by apply Hor|]. split; [done|]. intros j Hj Hlt'.
      destruct (Hreach j Hj) as [Hjo|Hjw]; [|by apply Hok]. apply Hm; [|done]. by rewrite merge_sort_Permutation.
    + unfold Build.get. rewrite Egi, Hwn. simpl. split; [|done]. right. split; [done|]. split; [done|]. right.
      split; [|done]. intros j Hj. destruct (Hreach j Hj) as [Hjo|Hjw]; [|by apply Hok].
      apply Hlow. by rewrite merge_sort_Permutation.
  - assert (lowest = None) as ->.
    { destruct lowest as [[i e]|]; [|done]. exfalso. destruct Hlow as (Hi & Ei & _).
      rewrite merge_sort_Permutation in Hi. destruct (Hor i Hi) as (_ & Hri & _).
      destruct (Hok i) as [v Hv]; [|congruence]. apply (whole_reach index); [by exists c|done]. }
    simpl. unfold Build.get. rewrite Egi, Hwc. simpl. done.
Qed.
End lazy.
