(* ===== verification/BocViews.v ===== *)
(** Theorems of bags read in part (core/src/cell/boc/view.rs,
    core/src/cell/boc/random.rs, core/src/cell/boc/lazy.rs): the views agree with
    the parse, and with each other. *)

From stdpp Require Import base list list_numbers numbers strings.
From Stdlib Require Import ZArith Lia.
From S2P Require Import Prelude Errors Bits CellData CellHash CellModel CellSlice CellBuilder Boc BocWaves BocRun BocCells BocParse BocTheorems BocLazy BocLazySpec.

Local Open Scope Z_scope.

Section views.
Context `{HH : Hasher}.

(** The state a reader is in after a run of requests, whatever they answered. *)
Definition asked (lz : LazyBoc) (indices : list Z) : LazyBoc :=
  fold_left (λ lz index, snd (LazyBoc.cell index lz)) indices lz.

(** The bag under a reader: its header, its raw cells and their heights. *)
Record bag_of (bytes : list Z) (options : ParseOptions) (header : Boc.Header) (raw : list RawCell)
    (height : list Z) : Prop := {
  bo_header : ∃ rd, read_header bytes options (MkReader bytes 0) = (Ok header, rd) ∧
    rd = MkReader bytes (h_body_offset header);
  bo_raw : ∃ rd', read_raw header (MkReader bytes (h_body_offset header)) = (Ok raw, rd');
  bo_height : heights raw (h_count header) = Ok height;
  bo_count : len raw = h_count header;
  bo_ok : ∀ i rc, get raw i = Some rc → raw_ok bytes (h_count header) i rc;
}.

Lemma header_reader bytes options header rd :
  Forall is_byte bytes → read_header bytes options (MkReader bytes 0) = (Ok header, rd) →
  rd = MkReader bytes (h_body_offset header) ∧ header_ok bytes options header ∧ reading bytes rd.
Proof.
  intros Hb Hh. assert (reading bytes (MkReader bytes 0)) as Hr0
    by (split; simpl; [done|]; pose proof (len_nonneg bytes); lia).
  destruct (read_header_inv _ _ _ _ _ Hb Hr0 Hh) as (Hrd & Hat & Hok). split; [|done].
  destruct rd as [b a], Hrd as [Eb _]. simpl in *. congruence.
Qed.

(** Opening reads the header and the raw cells, and nothing else. *)
Lemma lazy_open_inv bytes options lz :
  Forall is_byte bytes → LazyBoc.open_with bytes options = Ok lz →
  ∃ header raw height, bag_of bytes options header raw height ∧
    lz = MkLazyBoc header (MkRawCells raw bytes) (Build.new (h_count header)).
Proof.
  intros Hb. unfold LazyBoc.open_with.
  destruct (read_header bytes options (MkReader bytes 0)) as [[header|e] rd] eqn:Eh; [|done].
  destruct (header_reader _ _ _ _ Hb Eh) as (Erd & Hok & Hrd). cbn [fst res_bind]. unfold read_cells, st_get, st_lift, st_bind, st_ret.
  destruct (read_raw header _) as [[raw|e] rd'] eqn:Er; [|done].
  destruct (heights raw (h_count header)) as [height|e] eqn:Ehe; [|done]. cbn [fst res_bind r_bytes]. intros [= <-].
  rewrite <- Erd in Er. destruct Hok as [Hc Hrs _ _ _].
  destruct (read_raw_inv bytes header Hb) with rd raw rd' as (_ & Hl & Hraw); [lia|lia|done|done|].
  exists header, raw, height. split; [|done]. split; [by exists rd|exists rd'; by rewrite <- Erd|done..].
Qed.

Section bag.
Variables (bytes : list Z) (options : ParseOptions) (header : Boc.Header) (raw : list RawCell) (height : list Z).
Hypothesis Hbag : bag_of bytes options header raw height.

Lemma bag_valid : valid_plan (h_count header) (refs_at raw) (Waves.iter (Waves.by_height height)).
Proof.
  destruct Hbag as [_ _ Hh Hl Hok]. apply waves_valid; [done| |done]. by apply (refs_at_forward raw bytes header).
Qed.

(** The cells a whole parse of the bag builds. *)
Definition whole_of (p : Z) : list (option Cell) :=
  fst (finalize p (build_at' raw bytes) (h_count header) (Waves.by_height height)).

Lemma whole_settled p : settled (h_count header) (build_at' raw bytes) (whole_of p).
Proof.
  destruct Hbag as [_ _ _ Hl Hok].
  apply (finalize_settles _ _ _ (build_local raw bytes header) p); [rewrite <- Hl; apply len_nonneg|apply bag_valid].
Qed.

Lemma cell_answers p index build :
  coherent header (whole_of p) build → 0 <= index →
  let lz := MkLazyBoc header (MkRawCells raw bytes) build in
  answers raw bytes header (whole_of p) index (fst (LazyBoc.cell index lz)) ∧
  ∃ build', snd (LazyBoc.cell index lz) = MkLazyBoc header (MkRawCells raw bytes) build' ∧
    coherent header (whole_of p) build'.
Proof.
  intros Hco Hi. destruct Hbag as [_ _ _ Hl Hok]. cbv zeta. unfold LazyBoc.cell. cbn [lz_raw lz_build lz_header].
  destruct (build_at_answers raw bytes header Hl Hok (whole_of p) (whole_settled p) build index Hi Hco) as [Ha Hc].
  destruct (build_at (MkRawCells raw bytes) index build) as [answer build']. simpl in *. split; [done|]. by exists build'.
Qed.

Lemma asked_coherent p indices : ∀ build,
  coherent header (whole_of p) build → Forall (Z.le 0) indices →
  ∃ build', asked (MkLazyBoc header (MkRawCells raw bytes) build) indices =
    MkLazyBoc header (MkRawCells raw bytes) build' ∧ coherent header (whole_of p) build'.
Proof.
  induction indices as [|i indices IH]; intros build Hco Hi; [by exists build|].
  apply Forall_cons in Hi as [Hi His].
  destruct (cell_answers p i build Hco Hi) as (_ & build1 & E & Hco1).
  unfold asked. cbn [fold_left]. rewrite E. by apply IH.
Qed.

Lemma new_whole p : coherent header (whole_of p) (Build.new (h_count header)).
Proof. destruct Hbag as [_ _ _ Hl _]. apply new_coherent. rewrite <- Hl. apply len_nonneg. Qed.

Lemma lazy_roots p root_list cells : ∀ build,
  coherent header (whole_of p) build → Forall (λ i, 0 <= i) root_list →
  Forall2 (λ i c, get (whole_of p) i = Some (Some c)) root_list cells →
  ∃ lz, st_map root_list LazyBoc.cell (MkLazyBoc header (MkRawCells raw bytes) build) = (Ok cells, lz).
Proof.
  intros build Hco Hi Hc. revert build Hco. induction Hc as [|i c root_list cells Hic _ IH]; intros build Hco; [by eexists|].
  apply Forall_cons in Hi as [Hi His].
  destruct (cell_answers p i build Hco Hi) as (Ha & build1 & E & Hco1). cbn [st_map].
  assert (answers raw bytes header (whole_of p) i (Ok c)) as Hok by done.
  assert (LazyBoc.cell i (MkLazyBoc header (MkRawCells raw bytes) build) =
    (Ok c, MkLazyBoc header (MkRawCells raw bytes) build1)) as E1.
  { rewrite (surjective_pairing (LazyBoc.cell _ _)), E. f_equal. destruct Hbag as [_ _ _ Hl Hraw].
    by eapply (answers_unique raw bytes header (whole_of p) (whole_settled p)). }
  erewrite st_bind_ok by exact E1. destruct (IH His build1 Hco1) as [lz Elz]. exists lz.
  by erewrite st_bind_ok by exact Elz.
Qed.
End bag.

(** Asking a bag for a cell answers the same whatever was asked before, success
    or failure: what the reader keeps never changes an answer. It is the answer of
    a view that builds that cell afresh, and the reader never builds a cell twice. *)
Theorem lazy_history_free bytes options lz view indices index :
  Forall is_byte bytes → LazyBoc.open_with bytes options = Ok lz → BocView.open_with bytes options = Ok view →
  Forall (Z.le 0) indices → 0 <= index →
  fst (LazyBoc.cell index (asked lz indices)) = BocView.cell view index ∧
  LazyBoc.builds_run (asked lz indices) = LazyBoc.built_count (asked lz indices).
Proof.
  intros Hb Ho Hv Hi H0. destruct (lazy_open_inv _ _ _ Hb Ho) as (header & raw & height & Hbag & ->).
  destruct (asked_coherent bytes options header raw height Hbag 1 indices _
    (new_whole bytes options header raw height Hbag 1) Hi) as (build & -> & Hco).
  split; [|exact (co_builds _ _ _ Hco)].
  destruct Hbag as [(rd & Eh & ->) (rd' & Er) Ehe Hl Hok] eqn:Eb. clear Eb.
  unfold BocView.open_with in Hv. rewrite Eh in Hv. cbn [fst res_bind] in Hv. injection Hv as <-.
  assert (bag_of bytes options header raw height) as Hbag' by (split; eauto).
  unfold BocView.cell, build_cell, BocView.reader_at_body. cbn [bv_header bv_bytes].
  eapply (answers_unique raw bytes header _ (whole_settled _ _ _ _ _ Hbag' 1));
    [apply (cell_answers bytes options header raw height Hbag' 1 index build Hco H0)|].
  destruct (Z.leb_spec (h_count header) index); [simpl; left; done|].
  unfold read_cells, st_get, st_lift, st_bind, st_ret. rewrite Er, Ehe. cbn [fst r_bytes].
  by apply (build_at_answers raw bytes header Hl Hok _ (whole_settled _ _ _ _ _ Hbag' 1)),
    (new_whole bytes options header raw height Hbag' 1).
Qed.

(** C37: where a parse of the bag succeeds, opening it lazily does too, and the roots
    it hands out, after any requests, are the cells of the parse, down to the windows
    into the bytes. *)
Theorem lazy_roots_parse p bytes options roots indices :
  Forall is_byte bytes → parse_boc_with p bytes options = Ok roots → Forall (Z.le 0) indices →
  ∃ lz, LazyBoc.open_with bytes options = Ok lz ∧ fst (LazyBoc.roots (asked lz indices)) = Ok roots.
Proof.
  intros Hb Hp Hi.
  destruct (parse_boc_steps p bytes options roots Hb Hp)
    as (header & rd & raw & rd' & height & Eh & Hrd & Hok & Er & Hl & Hraw & Ehe & Hbuild).
  destruct (header_reader _ _ _ _ Hb Eh) as (-> & _ & _).
  assert (LazyBoc.open_with bytes options =
    Ok (MkLazyBoc header (MkRawCells raw bytes) (Build.new (h_count header)))) as Eo.
  { unfold LazyBoc.open_with. rewrite Eh. cbn [fst res_bind]. unfold read_cells, st_get, st_lift, st_bind, st_ret.
    by rewrite Er, Ehe. }
  assert (bag_of bytes options header raw height) as Hbag by (split; eauto).
  eexists. split; [exact Eo|].
  destruct (asked_coherent bytes options header raw height Hbag p indices _
    (new_whole bytes options header raw height Hbag p) Hi) as (build & -> & Hco).
  destruct (lazy_roots bytes options header raw height Hbag p (h_root_list header) roots build Hco) as [lz Elz].
  - eapply Forall_impl; [apply Hok|]. intros i. simpl. lia.
  - unfold build_planned in Hbuild. cbv zeta in Hbuild. fold (build_at' raw bytes) in Hbuild.
    unfold whole_of. destruct (finalize _ _ _ _) as [built lowest]. destruct (into_result lowest); [|done].
    cbn [fst]. by apply roots_of_inv.
  - unfold LazyBoc.roots, st_get. unfold st_bind at 1. cbn [lz_header]. by rewrite Elz.
Qed.

(** Verifying a bag without building it answers what building it does: the same
    failure, or the hashes of the very roots a parse of the bytes returns, on any
    two machines. *)
Theorem verify_agrees p p' bytes options view :
  Forall is_byte bytes → BocView.open_with bytes options = Ok view →
  BocView.verify p view = res_map (fmap (M:=list) Cell.repr_hash) (BocView.materialize p' view) ∧
  BocView.materialize p' view = parse_boc_with p' bytes options.
Proof.
  intros Hb Hv. unfold BocView.open_with in Hv.
  destruct (read_header bytes options (MkReader bytes 0)) as [[header|e] rd] eqn:Eh; [|done].
  injection Hv as <-. destruct (header_reader _ _ _ _ Hb Eh) as (Erd & Hok & Hrd).
  unfold BocView.verify, BocView.materialize, BocView.reader_at_body. cbn [bv_header bv_bytes]. rewrite <- Erd.
  split; [|unfold parse_boc_with; by erewrite st_bind_ok by exact Eh].
  unfold verify_roots, read_and_build, st_get, st_lift, st_bind.
  destruct (read_raw header rd) as [[raw|e] rd'] eqn:Er; [|done].
  destruct (heights raw (h_count header)) as [height|e] eqn:Ehe; [|done]. cbn [fst]. rewrite Erd. cbn [r_bytes].
  destruct Hok as [Hc Hrs _ _ _].
  destruct (read_raw_inv bytes header Hb) with rd raw rd' as (_ & Hl & Hraw); [lia|lia|done|done|].
  pose proof (refs_at_forward raw bytes header Hraw) as Hf.
  apply (verify_planned_build raw bytes header Hl Hraw); by apply waves_valid.
Qed.
End views.
