(* ===== verification/Block.v ===== *)
(** Blocks, as far as a client reads them (core/src/tlb/block.rs), and the coin
    amounts of core/src/tlb/coins.rs. *)

From S2P Require Import Prelude Errors Bits CellData CellHash CellModel CellSlice.
From stdpp Require Import base list list_numbers numbers strings.
From Stdlib Require Import ZArith Lia.

Local Open Scope Z_scope.

(** [?] on a cursor operation inside a function over blocks. *)
Definition st_cell {A} (m : stm Slice CellError A) : stm Slice BlockError A := λ self,
  let '(r, self) := m self in (from_cell_error r, self).

(** [let mut s = cell.parse(); ...] *)
Definition parsing {E A} (cell : Cell) (m : stm Slice E A) : result E A := fst (m (Slice.new cell)).

(** ** coins.rs *)

Definition NANOTONS_PER_TON : Z := 1000000000.

Record Coins : Type := MkCoins { coins_0 : Z }.

Module Coins.
Definition ZERO : Coins := MkCoins 0.
Definition from_nanotons (nanotons : Z) : Coins := MkCoins nanotons.
Definition nanotons (self : Coins) : Z := coins_0 self.
Definition tons (self : Coins) : Z := coins_0 self / NANOTONS_PER_TON.
Definition load : stm Slice BlockError Coins :=
  do! amount <- st_cell (Slice.load_var_uint 16); st_ret (MkCoins amount).
End Coins.

(** ** block.rs *)

Definition BLOCK_TAG : Z := 0x11ef55aa.
Definition BLOCK_INFO_TAG : Z := 0x9bc7a987.
Definition BLOCK_EXTRA_TAG : Z := 0x4a33f6fd.
Definition MC_BLOCK_EXTRA_TAG : Z := 0xcca5.
Definition INFO_REFERENCE : Z := 0.
Definition STATE_UPDATE_REFERENCE : Z := 2.
Definition EXTRA_REFERENCE : Z := 3.
Definition MAX_SHARD_PREFIX_BITS : Z := 60.

Record BlockHeader : Type := MkBlockHeader {
  bh_workchain : Z;
  bh_shard : Z;
  bh_seqno : Z;
  bh_key_block : bool;
  bh_gen_utime : Z;
  bh_gen_validator_list_hash_short : Z;
  bh_gen_catchain_seqno : Z;
  bh_prev_key_block_seqno : Z;
}.

Record Block : Type := MkBlock { block_cell : Cell }.

(** The shard word: the declared prefix bits, the terminator, and nothing below. *)
Definition shard_word (prefix prefix_bits : Z) : Z :=
  let significant := Z.land prefix (U64_MAX - Z.shiftr (Z.shiftr U64_MAX prefix_bits) 1) in
  Z.lor significant (shl 64 1 (63 - prefix_bits)).

Definition read_shard_ident : stm Slice BlockError (Z * Z) :=
  do! tag <- st_cell (Slice.load_uint 2);
  if negb (tag =? 0) then st_err (WrongConstructor "a shard identifier")
  else
    do! prefix_bits <- st_cell (Slice.load_uint 6);
    if MAX_SHARD_PREFIX_BITS <? prefix_bits
    then st_err (BMalformed "a shard prefix longer than 60 bits")
    else
      do! workchain <- st_cell Slice.load_i32;
      do! prefix <- st_cell (Slice.load_uint 64);
      st_ret (workchain, shard_word prefix prefix_bits).

Definition skip_currency : stm Slice BlockError unit :=
  run! st_cell (Slice.load_var_uint 16);
  run! st_cell Slice.load_maybe_ref;
  st_ret tt.

Definition read_header : stm Slice BlockError BlockHeader :=
  do! tag <- st_cell Slice.load_u32;
  if negb (tag =? BLOCK_INFO_TAG) then st_err (WrongConstructor "a block header")
  else
    run! st_cell (Slice.skip_bits 32);
    run! st_cell (Slice.skip_bits 6);
    do! key_block <- st_cell Slice.load_bit;
    run! st_cell (Slice.skip_bits 1);
    run! st_cell (Slice.skip_bits 8);
    do! seqno <- st_cell Slice.load_u32;
    run! st_cell (Slice.skip_bits 32);
    do! ident <- read_shard_ident;
    do! gen_utime <- st_cell Slice.load_u32;
    run! st_cell (Slice.skip_bits (64 + 64));
    do! gen_validator_list_hash_short <- st_cell Slice.load_u32;
    do! gen_catchain_seqno <- st_cell Slice.load_u32;
    run! st_cell (Slice.skip_bits 32);
    do! prev_key_block_seqno <- st_cell Slice.load_u32;
    st_ret (MkBlockHeader (fst ident) (snd ident) seqno key_block gen_utime
              gen_validator_list_hash_short gen_catchain_seqno prev_key_block_seqno).

(** The masterchain extra of a block extra, past the descriptors. *)
Definition read_extra_custom : stm Slice BlockError Cell :=
  do! tag <- st_cell Slice.load_u32;
  if negb (tag =? BLOCK_EXTRA_TAG) then st_err (WrongConstructor "a block extra")
  else
    run! st_cell Slice.load_ref;
    run! st_cell Slice.load_ref;
    run! st_cell Slice.load_ref;
    run! st_cell (Slice.skip_bits (256 + 256));
    do! custom <- st_cell Slice.load_maybe_ref;
    st_lift (ok_or custom NotAKeyBlock).

(** The configuration of a masterchain block extra. *)
Definition read_config : stm Slice BlockError Cell :=
  do! tag <- st_cell (Slice.load_uint 16);
  if negb (tag =? MC_BLOCK_EXTRA_TAG) then st_err (WrongConstructor "a masterchain block extra")
  else
    do! key_block <- st_cell Slice.load_bit;
    if negb key_block then st_err NotAKeyBlock
    else
      run! st_cell Slice.load_maybe_ref;
      run! st_cell Slice.load_maybe_ref;
      run! skip_currency;
      run! skip_currency;
      run! st_cell Slice.load_ref;
      run! st_cell (Slice.skip_bits 256);
      st_cell Slice.load_ref.

Module Block.
Definition from_cell (cell : Cell) : result BlockError Block :=
  let? tag := from_cell_error (parsing cell Slice.load_u32) in
  if negb (tag =? BLOCK_TAG) then Err (WrongConstructor "block") else Ok (MkBlock cell).

Definition cell (self : Block) : Cell := block_cell self.

Definition header (self : Block) : result BlockError BlockHeader :=
  let? info := ok_or (Cell.reference (block_cell self) INFO_REFERENCE)
                 (BMalformed "a block without a header") in
  if Cell.is_exotic info then Err NotCovered else parsing info read_header.

Definition config (self : Block) : result BlockError Cell :=
  let? extra := ok_or (Cell.reference (block_cell self) EXTRA_REFERENCE)
                  (BMalformed "a block without an extra") in
  if Cell.is_exotic extra then Err NotCovered
  else
    let? custom := parsing extra read_extra_custom in
    if Cell.is_exotic custom then Err NotCovered else parsing custom read_config.

Definition new_state_hash (self : Block) : result BlockError (list Z) :=
  let? update := ok_or (Cell.reference (block_cell self) STATE_UPDATE_REFERENCE)
                   (BMalformed "block without a state update") in
  if negb (bool_decide (Cell.cell_type update = MerkleUpdate))
  then Err (BMalformed "block state update is not a merkle update")
  else ok_or (get_range (Cell.data update) 33 65) (BMalformed "merkle update is too short").
End Block.
