(* ===== verification/States.v ===== *)
(** Shard states and the shard directory of the masterchain
    (core/src/tlb/shard.rs), and accounts (core/src/tlb/account.rs). *)

From stdpp Require Import base list list_numbers numbers strings.
From Stdlib Require Import ZArith Lia.
From S2P Require Import Prelude Errors Bits CellData CellHash CellModel CellSlice Dict Boc Block.

Local Open Scope Z_scope.

(** ** shard.rs *)

Definition SHARD_STATE_TAG : Z := 0x9023afe2.
Definition ACCOUNTS_REFERENCE : Z := 1.
Definition CUSTOM_REFERENCE : Z := 3.
Definition ACCOUNT_KEY_BITS : Z := 256.
Definition MC_STATE_EXTRA_TAG : Z := 0xcc26.
Definition WORKCHAIN_KEY_BITS : Z := 32.
Definition SHARD_DESCR_TAGS : list Z := [0xa; 0xb].
Definition MAX_SPLIT_DEPTH : Z := 60.

Record ShardAccountEntry : Type := MkShardAccountEntry {
  sae_account : Cell;
  sae_last_trans_hash : list Z;
  sae_last_trans_lt : Z;
}.

Record ShardState : Type := MkShardState { state_cell : Cell }.

Record ShardDescr : Type := MkShardDescr { sd_seq_no : Z; sd_root_hash : list Z }.

Record McStateExtra : Type := MkMcStateExtra { extra_cell : Cell }.

(** [i32::to_be_bytes] *)
Definition i32_be_bytes (v : Z) : list Z := to_be_bytes 4 (wrap 32 v).

Definition skip_to_custom : stm Slice BlockError bool :=
  run! st_cell (Slice.skip_bits (32 + 32));
  do! ident <- st_cell (Slice.load_uint 2);
  if negb (ident =? 0) then st_err (BMalformed "shard identifier")
  else
    run! st_cell (Slice.skip_bits (6 + 32 + 64));
    run! st_cell (Slice.skip_bits (32 + 32 + 32 + 64 + 32 + 1));
    st_cell Slice.load_bit.

(** An account record, past what the accounts dictionary keeps beside it. *)
Definition read_account_entry : stm Slice BlockError ShardAccountEntry :=
  run! st_cell (Slice.skip_bits 5);
  run! Coins.load;
  run! st_cell Slice.load_maybe_ref;
  do! account <- st_cell Slice.load_ref;
  do! last_trans_hash <- st_cell (Slice.load_bytes 32);
  do! last_trans_lt <- st_cell (Slice.load_uint 64);
  st_ret (MkShardAccountEntry account last_trans_hash last_trans_lt).

Module ShardDescr.
Definition load : stm Slice BlockError ShardDescr :=
  do! tag <- st_cell (Slice.load_uint 4);
  if negb (bool_decide (tag ∈ SHARD_DESCR_TAGS)) then st_err (WrongConstructor "shard_descr")
  else
    do! seq_no <- st_cell Slice.load_u32;
    run! st_cell (Slice.skip_bits (32 + 64 + 64));
    do! root_hash <- st_cell (Slice.load_bytes 32);
    st_ret (MkShardDescr seq_no root_hash).
End ShardDescr.

(** A run of a reader over a dictionary entry. *)
Definition entry_parsing {A} (entry : DictEntry) (m : stm Slice BlockError A) : result BlockError A :=
  let? slice := from_cell_error (entry_slice entry) in fst (m slice).

(** The walk down a workchain's shard tree, as [for depth in 0..=MAX_SPLIT_DEPTH]
    unrolled over the depths left. *)
Fixpoint find_shard_loop (depths : list Z) (node : Cell) (account_id : list Z) :
    result BlockError (Lookup ShardDescr) :=
  match depths with
  | [] => Err (BMalformed "shard tree deeper than a shard splits")
  | depth :: depths =>
      if Cell.is_exotic node then Ok PrunedAway
      else
        match st_cell Slice.load_bit (Slice.new node) with
        | (Err e, _) => Err e
        | (Ok false, slice) => res_map Found (fst (ShardDescr.load slice))
        | (Ok true, _) =>
            let? byte := ok_or (get account_id (depth / 8))
                           (BMalformed "shard tree deeper than an account id can steer") in
            let branch := b2z (Z.land (Z.shiftr byte (7 - depth mod 8)) 1 =? 1) in
            let? node := ok_or (Cell.reference node branch)
                           (BMalformed "shard tree fork without both halves") in
            find_shard_loop depths node account_id
        end
  end.

Definition find_shard (root : Cell) (account_id : list Z) : result BlockError (Lookup ShardDescr) :=
  find_shard_loop (seqZ 0 (MAX_SPLIT_DEPTH + 1)) root account_id.

Module McStateExtra.
Definition from_cell (cell : Cell) : result BlockError McStateExtra :=
  let? tag := from_cell_error (parsing cell (Slice.load_uint 16)) in
  if negb (tag =? MC_STATE_EXTRA_TAG) then Err (WrongConstructor "masterchain_state_extra")
  else Ok (MkMcStateExtra cell).

Definition shard_for (self : McStateExtra) (workchain : Z) (account_id : list Z) :
    result BlockError (Lookup ShardDescr) :=
  let? root := parsing (extra_cell self) (
    run! st_cell (Slice.skip_bits 16); st_cell Slice.load_maybe_ref) in
  match root with
  | None => Ok Absent
  | Some root =>
      let? dict := from_cell_error (Dict.from_root (Some root) WORKCHAIN_KEY_BITS) in
      let? found := from_cell_error (Dict.get dict (i32_be_bytes workchain)) in
      match found with
      | Found entry =>
          let? tree := entry_parsing entry (st_cell Slice.load_ref) in find_shard tree account_id
      | Absent => Ok Absent
      | PrunedAway => Ok PrunedAway
      end
  end.
End McStateExtra.

Module ShardState.
Definition from_cell (cell : Cell) : result BlockError ShardState :=
  let? tag := from_cell_error (parsing cell Slice.load_u32) in
  if negb (tag =? SHARD_STATE_TAG) then Err (WrongConstructor "shard_state")
  else Ok (MkShardState cell).

Definition accounts (self : ShardState) : result BlockError Cell :=
  ok_or (Cell.reference (state_cell self) ACCOUNTS_REFERENCE)
    (BMalformed "shard state without accounts").

Definition account (self : ShardState) (account_id : list Z) :
    result BlockError (Lookup ShardAccountEntry) :=
  let? accounts := accounts self in
  if Cell.is_exotic accounts then Ok PrunedAway
  else
    let? root := parsing accounts (st_cell Slice.load_maybe_ref) in
    match root with
    | None => Ok Absent
    | Some root =>
        let? dict := from_cell_error (Dict.from_root (Some root) ACCOUNT_KEY_BITS) in
        let? found := from_cell_error (Dict.get dict account_id) in
        match found with
        | Found entry => res_map Found (entry_parsing entry read_account_entry)
        | Absent => Ok Absent
        | PrunedAway => Ok PrunedAway
        end
    end.

Definition masterchain_extra (self : ShardState) : result BlockError (Lookup McStateExtra) :=
  let? custom := parsing (state_cell self) skip_to_custom in
  if negb custom then Ok Absent
  else
    let? cell := ok_or (Cell.reference (state_cell self) CUSTOM_REFERENCE)
                   (BMalformed "shard state without its extra") in
    if Cell.is_exotic cell then Ok PrunedAway
    else res_map Found (McStateExtra.from_cell cell).
End ShardState.

(** ** account.rs *)

Definition STORAGE_EXTRA_NONE : Z := 0.
Definition STORAGE_EXTRA_INFO : Z := 1.

Inductive AccountStatus : Type :=
| Nonexistent
| Uninit
| Frozen (state_hash : list Z)
| Active (code data : option Cell).

Record Account : Type := MkAccount {
  ac_balance : Coins;
  ac_status : AccountStatus;
  ac_last_trans_lt : Z;
}.

Definition skip_anycast : stm Slice BlockError unit :=
  do! anycast <- st_cell Slice.load_bit;
  if anycast then
    do! depth <- st_cell (Slice.load_uint 5);
    st_cell (Slice.skip_bits depth)
  else st_ret tt.

Definition skip_address : stm Slice BlockError unit :=
  do! kind <- st_cell (Slice.load_uint 2);
  if kind =? 2 then
    run! skip_anycast;
    st_cell (Slice.skip_bits (8 + 256))
  else if kind =? 3 then
    run! skip_anycast;
    do! len <- st_cell (Slice.load_uint 9);
    st_cell (Slice.skip_bits (32 + len))
  else st_err (BMalformed "account address").

Definition skip_storage_info : stm Slice BlockError unit :=
  run! st_cell (Slice.load_var_uint 7);
  run! st_cell (Slice.load_var_uint 7);
  do! extra <- st_cell (Slice.load_uint 3);
  run! (if extra =? STORAGE_EXTRA_NONE then st_ret tt
        else if extra =? STORAGE_EXTRA_INFO then st_cell (Slice.skip_bits 256)
        else st_err (BMalformed "account storage extra"));
  run! st_cell (Slice.skip_bits 32);
  do! due_payment <- st_cell Slice.load_bit;
  if due_payment then run! st_cell (Slice.load_var_uint 16); st_ret tt
  else st_ret tt.

Definition load_status : stm Slice BlockError AccountStatus :=
  do! active <- st_cell Slice.load_bit;
  if active then
    do! split_depth <- st_cell Slice.load_bit;
    run! (if split_depth then st_cell (Slice.skip_bits 5) else st_ret tt);
    do! special <- st_cell Slice.load_bit;
    run! (if special then st_cell (Slice.skip_bits 2) else st_ret tt);
    do! code <- st_cell Slice.load_maybe_ref;
    do! data <- st_cell Slice.load_maybe_ref;
    run! st_cell Slice.load_maybe_ref;
    st_ret (Active code data)
  else
    do! frozen <- st_cell Slice.load_bit;
    if frozen then
      do! state_hash <- st_cell (Slice.load_bytes 32);
      st_ret (Frozen state_hash)
    else st_ret Uninit.

Module Account.
Definition nonexistent : Account := MkAccount Coins.ZERO Nonexistent 0.

Definition read : stm Slice BlockError Account :=
  do! present <- st_cell Slice.load_bit;
  if negb present then st_ret nonexistent
  else
    run! skip_address;
    run! skip_storage_info;
    do! last_trans_lt <- st_cell (Slice.load_uint 64);
    do! balance <- Coins.load;
    run! st_cell Slice.load_maybe_ref;
    do! status <- load_status;
    st_ret (MkAccount balance status last_trans_lt).

Definition from_cell (cell : Cell) : result BlockError Account := parsing cell read.

Definition decode `{Hasher} (parallelism : Z) (state : list Z) : result BlockError Account :=
  match state with
  | [] => Ok nonexistent
  | _ =>
      let? roots := from_cell_error (parse_boc parallelism state) in
      let? root := ok_or (head roots) (BMalformed "account state has no root cell") in
      from_cell root
  end.

Definition code (self : Account) : option Cell :=
  match ac_status self with Active code _ => code | _ => None end.
Definition data (self : Account) : option Cell :=
  match ac_status self with Active _ data => data | _ => None end.
Definition is_active (self : Account) : bool :=
  match ac_status self with Active _ _ => true | _ => false end.
Definition exists_ (self : Account) : bool :=
  match ac_status self with Nonexistent => false | _ => true end.
End Account.
