(* ===== verification/Validators.v ===== *)
(** The validators a key block's configuration names
    (core/src/proof/validators.rs). *)

From stdpp Require Import base list list_numbers numbers strings.
From Stdlib Require Import ZArith Lia.
From S2P Require Import Prelude Errors Bits CellData CellHash CellModel CellSlice Dict Block States Search.

Local Open Scope Z_scope.

Definition CURRENT_VALIDATORS : Z := 34.
Definition CURRENT_TEMP_VALIDATORS : Z := 35.
Definition VALIDATORS_TAG : Z := 0x11.
Definition VALIDATORS_EXT_TAG : Z := 0x12.
Definition VALIDATOR_TAG : Z := 0x53.
Definition VALIDATOR_ADDR_TAG : Z := 0x73.
Definition ED25519_PUBKEY_TAG : Z := 0x8e81278a.
Definition PUB_ED25519 : Z := 0x4813b4c6.

Record Validator : Type := MkValidator { v_public_key : list Z; v_weight : Z }.

Record ValidatorSet : Type := MkValidatorSet {
  vs_utime_since : Z;
  vs_utime_until : Z;
  vs_total : Z;
  vs_main : Z;
  vs_members : list (list Z * Validator);
  vs_total_weight : Z;
}.

Definition read_validator : stm Slice BlockError Validator :=
  do! tag <- st_cell (Slice.load_uint 8);
  if negb (tag =? VALIDATOR_TAG) && negb (tag =? VALIDATOR_ADDR_TAG)
  then st_err (WrongConstructor "a validator descriptor")
  else
    do! key_tag <- st_cell (Slice.load_uint 32);
    if negb (key_tag =? ED25519_PUBKEY_TAG) then st_err (WrongConstructor "an ed25519 public key")
    else
      do! public_key <- st_cell (Slice.load_bytes 32);
      if negb (len public_key =? 32)
      then st_err (BMalformed "an ed25519 public key that is not 32 bytes")
      else
        do! weight <- st_cell (Slice.load_uint 64);
        st_ret (MkValidator public_key weight).

(** The fields of a validator set ahead of its list, and the list's root. *)
Definition read_set_header : stm Slice BlockError (Z * Z * Z * Z * Cell) :=
  do! tag <- st_cell (Slice.load_uint 8);
  do! extended <- (if tag =? VALIDATORS_EXT_TAG then st_ret true
                   else if tag =? VALIDATORS_TAG then st_ret false
                   else st_err (WrongConstructor "a validator set"));
  do! utime_since <- st_cell Slice.load_u32;
  do! utime_until <- st_cell Slice.load_u32;
  do! total <- st_cell Slice.load_u16;
  do! main <- st_cell Slice.load_u16;
  if (main =? 0) || (total <? main)
  then st_err (BMalformed "a validator set with no main validators, or more main than total")
  else
    run! (if extended : bool then run! st_cell (Slice.load_uint 64); st_ret tt else st_ret tt);
    do! list <- (if extended then
                   do! maybe <- st_cell Slice.load_maybe_ref;
                   st_lift (ok_or maybe (BMalformed "a validator set with no list"))
                 else st_cell Slice.load_ref);
    st_ret (utime_since, utime_until, total, main, list).

Section validators.
Context `{Hasher}.

Definition short_id (public_key : list Z) : list Z :=
  sha256 (reverse (to_be_bytes 4 PUB_ED25519) ++ public_key).

(** A round of the loop over the list: the entry at an index, weighed and named. *)
Definition read_member (list_dict : Dict) (state : Z * list (list Z * Validator)) (index : Z) :
    result BlockError (Z * list (list Z * Validator)) :=
  let '(total_weight, members) := state in
  let? found := from_cell_error (Dict.get list_dict (to_be_bytes 2 index)) in
  match found with
  | Absent => Err (BMalformed "a validator set missing an entry the count promises")
  | PrunedAway => Err NotCovered
  | Found entry =>
      let? validator := entry_parsing entry read_validator in
      let? total_weight := ok_or (checked_add U64_MAX total_weight (v_weight validator))
                             (BMalformed "validator weights that overflow") in
      Ok (total_weight, members ++ [(short_id (v_public_key validator), validator)])
  end.
End validators.

Module ValidatorSet.
Section set.
Context `{Hasher}.

Definition from_cell (param : Cell) : result BlockError ValidatorSet :=
  let? '(utime_since, utime_until, total, main, list) := parsing param read_set_header in
  let? list_dict := from_cell_error (Dict.from_root (Some list) 16) in
  let? '(total_weight, members) := res_fold (read_member list_dict) (seqZ 0 main) (0, []) in
  let members := sort_by_key fst members in
  if repeats fst members then Err (BMalformed "a validator set that names the same key twice")
  else Ok (MkValidatorSet utime_since utime_until total main members total_weight).

Definition from_config (config : Cell) : result BlockError ValidatorSet :=
  let? params := from_cell_error (Dict.from_root (Some config) 32) in
  let? found := from_cell_error (Dict.get params (i32_be_bytes CURRENT_TEMP_VALIDATORS)) in
  let? entry :=
    match found with
    | Found entry => Ok entry
    | PrunedAway => Err NotCovered
    | Absent =>
        let? found := from_cell_error (Dict.get params (i32_be_bytes CURRENT_VALIDATORS)) in
        match found with
        | Found entry => Ok entry
        | Absent => Err (BMalformed "a configuration without the validator set")
        | PrunedAway => Err NotCovered
        end
    end in
  let? param := entry_parsing entry (st_cell Slice.load_ref) in
  from_cell param.
End set.

Definition find (self : ValidatorSet) (short_id : list Z) : option Validator :=
  match search fst short_id (vs_members self) with
  | inl at' => snd <$> get (vs_members self) at'
  | inr _ => None
  end.

Definition total_weight (self : ValidatorSet) : Z := vs_total_weight self.
Definition carries (self : ValidatorSet) (weight : Z) : bool := vs_total_weight self * 2 <? weight * 3.
Definition length (self : ValidatorSet) : Z := len (vs_members self).
Definition is_empty (self : ValidatorSet) : bool := length self =? 0.
Definition iter (self : ValidatorSet) : list Validator := snd <$> vs_members self.
End ValidatorSet.

(** ** What reading a set establishes *)

Definition weigh (validators : list Validator) : Z := foldr Z.add 0 (v_weight <$> validators).

(** A validator set's members are as many as its count of main validators, in the
    order of their short ids, each under the id of its key and no key twice, and
    the weight stated is theirs, within a machine word. *)
Record set_ok `{Hasher} (self : ValidatorSet) : Prop := {
  so_main : 0 < vs_main self <= vs_total self;
  so_total : vs_total self <= U16_MAX;
  so_count : len (vs_members self) = vs_main self;
  so_sorted : key_sorted fst (vs_members self);
  so_named : Forall (λ '(id, v), id = short_id (v_public_key v)) (vs_members self);
  so_weights : Forall (λ v, 0 <= v_weight v <= U64_MAX) (ValidatorSet.iter self);
  so_weight : vs_total_weight self = weigh (ValidatorSet.iter self);
  so_bound : 0 <= vs_total_weight self <= U64_MAX;
}.

Lemma weigh_app l1 l2 : weigh (l1 ++ l2) = weigh l1 + weigh l2.
Proof.
  unfold weigh. rewrite fmap_app. induction l1 as [|v l1 IH]; [done|].
  rewrite fmap_cons. cbn [app foldr]. lia.
Qed.

Lemma weigh_permutes l1 l2 : l1 ≡ₚ l2 → weigh l1 = weigh l2.
Proof. unfold weigh. induction 1; rewrite ?fmap_cons; cbn [foldr]; lia. Qed.

Lemma st_cell_inv {A} (m : stm Slice CellError A) s a s' :
  st_cell m s = (Ok a, s') → m s = (Ok a, s').
Proof. unfold st_cell. destruct (m s) as [[x|e] t]; simpl; [by intros [= -> ->]|done]. Qed.


Lemma lor_range w a b : 0 <= w → 0 <= a < 2 ^ w → 0 <= b < 2 ^ w → 0 <= Z.lor a b < 2 ^ w.
Proof.
  intros Hw Ha Hb. assert (0 <= Z.lor a b) as H0 by (apply Z.lor_nonneg; lia). split; [done|].
  apply Z.bounded_iff_bits_nonneg; [done..|]. intros l Hl. rewrite Z.lor_spec.
  rewrite (proj1 (Z.bounded_iff_bits_nonneg w a Hw ltac:(lia)) (proj2 Ha) l Hl).
  by rewrite (proj1 (Z.bounded_iff_bits_nonneg w b Hw ltac:(lia)) (proj2 Hb) l Hl).
Qed.

Lemma gather_range w data start n : 1 <= w → 0 <= Slice.gather w data start n < 2 ^ w.
Proof.
  intros Hw. unfold Slice.gather. assert (2 ^ 1 <= 2 ^ w) as Hp by (apply Z.pow_le_mono_r; lia).
  change (2 ^ 1) with 2 in Hp. set (step := λ value i, Z.lor _ _).
  assert (∀ l v, 0 <= v < 2 ^ w → 0 <= fold_left step l v < 2 ^ w) as Hf; [|apply Hf; lia].
  intros l. induction l as [|i l IH]; intros v Hv; [done|]. simpl. apply IH.
  apply lor_range; [lia|unfold shl, wrap; apply Z.mod_pos_bound; lia|].
  destruct (Slice.bit_at _ _); simpl; lia.
Qed.

Lemma load_uint_range n s v s' : Slice.load_uint n s = (Ok v, s') → 0 <= v <= U64_MAX.
Proof.
  unfold Slice.load_uint. case_if; [done|]. intros (start & s1 & _ & H)%st_bind_inv. injection H as <- _.
  pose proof (gather_range 64 (Cell.data (s_cell s1)) start n ltac:(lia)). unfold U64_MAX. lia.
Qed.

Lemma load_u16_range s v s' : Slice.load_u16 s = (Ok v, s') → 0 <= v <= U16_MAX.
Proof.
  intros (a & s1 & _ & H)%st_bind_inv. unfold U16_MAX.
  assert (v = from_be_bytes (drop 6 (to_be_bytes 8 a))) as -> by (unfold st_ret in H; congruence).
  destruct (low_bytes a) as (_ & -> & _). pose proof (Z.mod_pos_bound a (2 ^ 16) ltac:(lia)). lia.
Qed.

Lemma read_validator_weight s v s' : read_validator s = (Ok v, s') → 0 <= v_weight v <= U64_MAX.
Proof.
  unfold read_validator. intros (tag & s1 & _ & H)%st_bind_inv. case_if; [done|].
  apply st_bind_inv in H as (key_tag & s2 & _ & H). case_if; [done|].
  apply st_bind_inv in H as (key & s3 & _ & H). case_if; [done|].
  apply st_bind_inv in H as (weight & s4 & Hw%st_cell_inv & H). injection H as <- _.
  by eapply load_uint_range.
Qed.

Section set_spec.
Context `{Hasher}.

(** What the loop over the list has gathered: members named by their keys, and their weight. *)
Definition gathered (state : Z * list (list Z * Validator)) : Prop :=
  Forall (λ '(id, v), id = short_id (v_public_key v)) state.2 ∧
  Forall (λ v, 0 <= v_weight v <= U64_MAX) (snd <$> state.2) ∧
  state.1 = weigh (snd <$> state.2) ∧ 0 <= state.1 <= U64_MAX.

Lemma read_member_gathers list_dict state index state' :
  gathered state → read_member list_dict state index = Ok state' →
  gathered state' ∧ len state'.2 = len state.2 + 1.
Proof.
  destruct state as [weight members]. intros (Hn & Hw & Hs & Hb) E. simpl in *.
  destruct (from_cell_error _) as [found|]; [|done]. simpl in E. destruct found as [entry| |]; [|done..].
  unfold entry_parsing in E. destruct (from_cell_error _) as [slice|]; [|done]. simpl in E.
  destruct (read_validator slice) as [[v|] s'] eqn:Ev; [|done]. apply read_validator_weight in Ev. simpl in E.
  unfold checked_add, checked in E. destruct (Z.leb_spec (weight + v_weight v) U64_MAX); [|done]. simpl in E.
  injection E as <-. simpl. rewrite len_app. split; [|done]. split; [|split; [|split]]; cbn [fst snd].
  - apply Forall_app. split; [done|]. by apply Forall_singleton.
  - rewrite fmap_app. apply Forall_app. split; [done|]. by apply Forall_singleton.
  - rewrite fmap_app, weigh_app, <- Hs. unfold weigh. simpl. lia.
  - simpl. lia.
Qed.

Lemma read_members_gather list_dict indices : ∀ state state',
  gathered state → res_fold (read_member list_dict) indices state = Ok state' →
  gathered state' ∧ len state'.2 = len state.2 + len indices.
Proof.
  induction indices as [|index indices IH]; intros state state' Hg E.
  - injection E as <-. split; [done|]. change (len (@nil Z)) with 0. lia.
  - cbn [res_fold] in E. destruct (read_member _ _ _) as [state1|] eqn:E1; [|done].
    apply read_member_gathers in E1 as [Hg1 Hl1]; [|done]. apply IH in E as [Hg2 Hl2]; [|done].
    split; [done|]. rewrite len_cons. lia.
Qed.

Lemma read_set_header_inv s since until total main list s' :
  read_set_header s = (Ok (since, until, total, main, list), s') → 0 < main <= total ∧ total <= U16_MAX.
Proof.
  unfold read_set_header. intros E. do 4 apply st_bind_inv in E as (? & ? & _ & E).
  apply st_bind_inv in E as (m' & ? & Ht%st_cell_inv%load_u16_range & E).
  apply st_bind_inv in E as (m & ? & Hm%st_cell_inv%load_u16_range & E). case_if; [done|].
  apply orb_false_iff in Hc as [H1%Z.eqb_neq H2%Z.ltb_ge].
  do 2 apply st_bind_inv in E as (? & ? & _ & E). injection E as _ _ <- <- _ _. lia.
Qed.

(** Every set that is read is in order. *)
Lemma from_cell_ok param set : ValidatorSet.from_cell param = Ok set → set_ok set.
Proof.
  unfold ValidatorSet.from_cell, parsing. intros E.
  destruct (read_set_header _) as [[[[[[since until] total] main] list]|] s'] eqn:Eh; [|done]. simpl in E.
  apply read_set_header_inv in Eh as [Hmain Htotal].
  destruct (res_fold _ _ _) as [[weight members]|] eqn:Em; [|done]. simpl in E.
  apply read_members_gather in Em as [(Hn & Hw & Hs & Hb) Hl].
  2:{ split; [constructor|]. split; [constructor|]. split; [done|]. unfold U64_MAX. simpl. lia. }
  destruct (repeats _ _) eqn:Er; [done|]. injection E as <-. apply sort_by_key_strict in Er.
  pose proof (sort_by_key_permutes fst members) as Hp. simpl in *.
  assert (snd <$> sort_by_key fst members ≡ₚ snd <$> members) as Hp2 by by rewrite Hp.
  rewrite len_seqZ in Hl by lia. change (len (@nil (Datatypes.list Z * Validator))) with 0 in Hl.
  split; cbn [vs_main vs_total vs_members vs_total_weight]; unfold ValidatorSet.iter; cbn [vs_members]; try done.
  - unfold len in *. rewrite Hp. lia.
  - by rewrite Hp.
  - by rewrite Hp2.
  - by rewrite (weigh_permutes _ _ Hp2).
Qed.

Lemma from_config_ok config set : ValidatorSet.from_config config = Ok set → set_ok set.
Proof.
  unfold ValidatorSet.from_config. intros E.
  destruct (from_cell_error _) as [params|]; [|done]. cbn [res_bind] in E.
  destruct (from_cell_error _) as [found|]; [|done]. cbn [res_bind] in E.
  destruct (match found with Found _ => _ | Absent => _ | PrunedAway => _ end) as [entry|]; [|done]. simpl in E.
  destruct (entry_parsing _ _) as [param|]; [|done]. simpl in E. by apply from_cell_ok in E.
Qed.

(** [find] answers with the one member of an id, when there is one. *)
Lemma find_spec set id v :
  key_sorted fst (vs_members set) → ValidatorSet.find set id = Some v ↔ (id, v) ∈ vs_members set.
Proof.
  intros Hs. unfold ValidatorSet.find. pose proof (search_spec fst id _ Hs) as Hf.
  pose proof (key_sorted_NoDup _ _ Hs) as Hnd.
  destruct (search fst id (vs_members set)) as [i|i].
  - destruct Hf as ([id' v'] & Hg & Hid). simpl in Hid. subst id'. rewrite Hg. simpl.
    assert ((id, v') ∈ vs_members set) as Hin.
    { unfold get in Hg. destruct (i <? 0); [done|]. by apply list_elem_of_lookup_2 in Hg. }
    split; [by intros [= ->]|]. intros Hv. f_equal.
    apply list_elem_of_lookup in Hin as [n Hn], Hv as [m Hm].
    assert (n = m) as ->; [|congruence].
    eapply NoDup_lookup; [exact Hnd| |]; rewrite list_lookup_fmap; [by rewrite Hn|by rewrite Hm].
  - destruct Hf as [Hni _]. split; [done|]. intros Hv. exfalso. apply Hni, list_elem_of_fmap. by exists (id, v).
Qed.
End set_spec.
