(* ===== verification/BlockTheorems.v ===== *)
(** The fields of a block header are in range, and its shard in normal form. *)

From stdpp Require Import base list list_numbers numbers strings.
From Stdlib Require Import ZArith Lia.
From S2P Require Import Prelude Errors Bits CellData CellHash CellModel CellSlice Block Validators.

Local Open Scope Z_scope.

(** A shard word: [n] bits of prefix, a one, and zeros below. *)
Definition shard_normal (shard n : Z) : Prop :=
  0 <= shard < 2 ^ 64 ∧ 0 <= n <= MAX_SHARD_PREFIX_BITS ∧ Z.testbit shard (63 - n) = true ∧
  ∀ i, 0 <= i < 63 - n → Z.testbit shard i = false.

Lemma kept_bits n i :
  0 <= n <= 60 → 0 <= i < 64 →
  Z.testbit (U64_MAX - Z.shiftr (Z.shiftr U64_MAX n) 1) i = negb (i <? 63 - n).
Proof.
  intros Hn Hi. rewrite Z.shiftr_shiftr by lia. change U64_MAX with (Z.ones 64).
  rewrite Z.shiftr_div_pow2, Z.ones_div_pow2 by lia. replace (64 - (n + 1)) with (63 - n) by lia.
  rewrite (Z.sub_nocarry_ldiff (Z.ones 64)).
  - rewrite Z.ldiff_spec, !Z.testbit_ones_nonneg by lia. rewrite (proj2 (Z.ltb_lt i 64)) by lia. done.
  - apply Z.bits_inj_iff'. intros k Hk. rewrite Z.ldiff_spec, Z.bits_0, !Z.testbit_ones_nonneg by lia.
    destruct (Z.ltb_spec k (63 - n)); [|done]. rewrite (proj2 (Z.ltb_lt k 64)) by lia. done.
Qed.

Lemma shard_word_spec prefix n :
  0 <= prefix < 2 ^ 64 → 0 <= n <= 60 →
  shard_normal (shard_word prefix n) n ∧
  ∀ i, 63 - n < i < 64 → Z.testbit (shard_word prefix n) i = Z.testbit prefix i.
Proof.
  intros Hp Hn. unfold shard_word, shl, wrap.
  rewrite (Z.mod_small (Z.shiftl 1 (63 - n))).
  2:{ rewrite Z.shiftl_1_l. split; [apply Z.pow_nonneg; lia|apply Z.pow_lt_mono_r; lia]. }
  rewrite Z.shiftl_1_l. set (kept := U64_MAX - _).
  assert (∀ i, 0 <= i < 64 → Z.testbit (Z.lor (Z.land prefix kept) (2 ^ (63 - n))) i =
    (Z.testbit prefix i && negb (i <? 63 - n)) || (i =? 63 - n)) as Hbit.
  { intros i Hi. rewrite Z.lor_spec, Z.land_spec. unfold kept. rewrite kept_bits by lia.
    rewrite Z.pow2_bits_eqb by lia. by rewrite (Z.eqb_sym i). }
  split; [split; [|split; [unfold MAX_SHARD_PREFIX_BITS; lia|split]]|].
  - apply lor_range; [lia| |split; [apply Z.pow_nonneg; lia|apply Z.pow_lt_mono_r; lia]].
    assert (0 <= Z.land prefix kept) by (apply Z.land_nonneg; lia). split; [done|].
    apply Z.bounded_iff_bits_nonneg; [lia|done|]. intros l Hl. rewrite Z.land_spec.
    by rewrite (proj1 (Z.bounded_iff_bits_nonneg 64 prefix ltac:(lia) ltac:(lia)) (proj2 Hp) l Hl).
  - rewrite Hbit, Z.eqb_refl by lia. apply orb_true_r.
  - intros i Hi. rewrite Hbit by lia. rewrite (proj2 (Z.ltb_lt i (63 - n))) by lia.
    rewrite (proj2 (Z.eqb_neq i (63 - n))) by lia. by rewrite andb_false_r.
  - intros i Hi. rewrite Hbit by lia. rewrite (proj2 (Z.ltb_ge i (63 - n))) by lia.
    rewrite (proj2 (Z.eqb_neq i (63 - n))) by lia. by rewrite andb_true_r, orb_false_r.
Qed.

Lemma load_u32_range s v s' : Slice.load_u32 s = (Ok v, s') → 0 <= v < 2 ^ 32.
Proof.
  intros (a & s1 & _ & H)%st_bind_inv.
  assert (v = from_be_bytes (drop 4 (to_be_bytes 8 a))) as -> by (unfold st_ret in H; congruence).
  destruct (low_bytes a) as (_ & _ & ->). by apply Z.mod_pos_bound.
Qed.

Lemma swrap_range v : - 2 ^ 31 <= swrap 32 v < 2 ^ 31.
Proof.
  unfold swrap. change (2 ^ (32 - 1)) with 2147483648. change (2 ^ 31) with 2147483648.
  pose proof (Z.mod_pos_bound (v + 2147483648) (2 ^ 32) ltac:(lia)). lia.
Qed.

Lemma load_i32_range s v s' : Slice.load_i32 s = (Ok v, s') → - 2 ^ 31 <= v < 2 ^ 31.
Proof.
  intros (a & s1 & _ & H)%st_bind_inv.
  assert (v = swrap 32 (from_be_bytes (drop 4 (to_be_bytes 8 a)))) as -> by (unfold st_ret in H; congruence).
  apply swrap_range.
Qed.

Lemma read_shard_ident_inv s workchain shard s' :
  read_shard_ident s = (Ok (workchain, shard), s') →
  - 2 ^ 31 <= workchain < 2 ^ 31 ∧ ∃ n, shard_normal shard n.
Proof.
  intros H. apply st_bind_inv in H as (tag & s1 & _ & H). case_if; [done|].
  apply st_bind_inv in H as (n & s2 & Hn%st_cell_inv%load_uint_range & H).
  destruct (Z.ltb_spec MAX_SHARD_PREFIX_BITS n) as [|Hle]; [done|]. unfold MAX_SHARD_PREFIX_BITS in Hle.
  apply st_bind_inv in H as (wc & s3 & Hw%st_cell_inv%load_i32_range & H).
  apply st_bind_inv in H as (prefix & s4 & Hp%st_cell_inv%load_uint_range & H). unfold U64_MAX in Hp.
  assert (workchain = wc ∧ shard = shard_word prefix n) as [-> ->] by (unfold st_ret in H; split; congruence).
  split; [done|]. exists n. apply shard_word_spec; lia.
Qed.

(** C40: whatever a block's header cell holds, the numbers read from it are in the range
    of their types, and the shard is in the one form every client compares: at most
    sixty bits of prefix, a one, and zeros. *)
Theorem header_in_range block header :
  Block.header block = Ok header →
  - 2 ^ 31 <= bh_workchain header < 2 ^ 31 ∧ (∃ n, shard_normal (bh_shard header) n) ∧
  0 <= bh_seqno header < 2 ^ 32 ∧ 0 <= bh_gen_utime header < 2 ^ 32 ∧
  0 <= bh_gen_validator_list_hash_short header < 2 ^ 32 ∧ 0 <= bh_gen_catchain_seqno header < 2 ^ 32 ∧
  0 <= bh_prev_key_block_seqno header < 2 ^ 32.
Proof.
  unfold Block.header. destruct (ok_or _ _) as [info|]; [|done]. cbn [res_bind]. destruct (Cell.is_exotic info); [done|].
  unfold parsing. destruct (read_header (Slice.new info)) as [r s] eqn:H. cbn [fst]. intros ->. unfold read_header in H.
  apply st_bind_inv in H as (tag & s1 & _ & H). case_if; [done|].
  do 5 apply st_bind_inv in H as (? & ? & _ & H).
  apply st_bind_inv in H as (seqno & ? & H1%st_cell_inv%load_u32_range & H). apply st_bind_inv in H as (? & ? & _ & H).
  apply st_bind_inv in H as ([wc shard] & ? & [H2 H3]%read_shard_ident_inv & H).
  apply st_bind_inv in H as (utime & ? & H4%st_cell_inv%load_u32_range & H). apply st_bind_inv in H as (? & ? & _ & H).
  apply st_bind_inv in H as (short & ? & H5%st_cell_inv%load_u32_range & H).
  apply st_bind_inv in H as (cc & ? & H6%st_cell_inv%load_u32_range & H). apply st_bind_inv in H as (? & ? & _ & H).
  apply st_bind_inv in H as (pk & ? & H7%st_cell_inv%load_u32_range & H).
  injection H as <- _. by cbn.
Qed.
