(* ===== verification/Covered.v ===== *)
(** Reading through a proof: what a reader gets out of a tree with pruned branches
    it gets out of every whole tree of the same hash. [view] relates the two trees,
    [tracks] the runs of one program over both, and each reader of the crate is
    shown to track itself. *)

From stdpp Require Import base list list_numbers numbers strings.
From Stdlib Require Import ZArith Lia.
From S2P Require Import Prelude Errors Bits CellData CellHash CellModel Binding CellSlice DictLabel Dict Block States.

Local Open Scope Z_scope.

(** The byte strings a reader's trees are built of, no two of them colliding. *)
Class Vetted `{HH : Hasher} : Type := {
  vetted : list Z → Prop;
  vetted_free : collision_free vetted;
}.

Section covered.
Context `{HH : Hasher} `{!HasherOk HH} {HV : Vetted}.

(** ** Trees *)

(** [c] shows [t], a tree with nothing pruned away at level zero: they answer with
    one hash, and are built of byte strings that do not collide. *)
Record view (c t : Cell) : Prop := {
  vw_hash : Cell.hash c = Cell.hash t;
  vw_shown_wf : cell_wf c;
  vw_wf : cell_wf t;
  vw_whole : Cell.level_mask t = 0;
  vw_vetted x : hashed c x ∨ hashed t x → vetted x;
}.

Lemma not_stored_whole t : Cell.level_mask t = 0 → ¬ stored_at 0 t.
Proof. intros E [_ Hl]. unfold Cell.level in Hl. rewrite E in Hl. by compute in Hl. Qed.

Lemma whole_not_pruned_branch t : cell_wf t → Cell.level_mask t = 0 → Cell.cell_type t ≠ PrunedBranch.
Proof. intros [t' _ _ _ K _ _] E T. unfold kind_ok in K. rewrite T in K. by destruct K as (_ & Hne & _). Qed.

Lemma view_free c t : view c t → collision_free (λ x, hashed c x ∨ hashed t x).
Proof. intros [_ _ _ _ Hx] x y ?%Hx ?%Hx. by apply vetted_free. Qed.

(** A node that is not a pruned branch shows its bits and kind, and its references
    answer as the whole tree's. *)
Lemma view_node c t :
  view c t → Cell.cell_type c ≠ PrunedBranch →
  Cell.data c = Cell.data t ∧ Cell.bit_len c = Cell.bit_len t ∧ Cell.cell_type c = Cell.cell_type t ∧
  Forall2 (λ x y, Cell.hash_at x (b2z (is_merkle (Cell.cell_type c))) =
                  Cell.hash_at y (b2z (is_merkle (Cell.cell_type c)))) (Cell.refs c) (Cell.refs t).
Proof.
  intros Hv Tc. pose proof (view_free c t Hv) as Hcf. destruct Hv as [E Hc Ht Hm _]. pose proof (whole_not_pruned_branch t Ht Hm) as Tt.
  assert (¬ stored_at 0 c) as Nc by by intros [? _].
  destruct (hash_at_own c 0 Hc ltac:(lia) Nc) as (i1 & r1 & d1 & R1 & H1 & I1).
  destruct (hash_at_own t 0 Ht ltac:(lia) (not_stored_whole t Hm)) as (i2 & r2 & d2 & R2 & H2 & I2).
  unfold Cell.hash in E. rewrite H1, H2 in E.
  apply Hcf in E as <-; [|left; by eapply own_reprs_hashed|right; by eapply own_reprs_hashed].
  destruct (reprs_heads c t i1 i2 r1 d1 d2) as [_ Hi]; [done..|]. rewrite <- (Hi Tc) in *.
  by destruct (reprs_children c t i1 r1 d1 d2 0) as (? & ? & ? & ?); auto.
Qed.

Lemma is_exotic_false c : Cell.is_exotic c = false ↔ Cell.cell_type c = Ordinary.
Proof. unfold Cell.is_exotic. rewrite negb_false_iff. apply bool_decide_eq_true. Qed.

(** An ordinary node shows its references as well. *)
Lemma view_open c t :
  view c t → Cell.is_exotic c = false →
  Cell.data c = Cell.data t ∧ Cell.bit_len c = Cell.bit_len t ∧ Cell.cell_type t = Ordinary ∧
  Forall2 view (Cell.refs c) (Cell.refs t).
Proof.
  intros Hv T%is_exotic_false. destruct (view_node c t Hv) as (Ed & Eb & Et & Hr); [by rewrite T|].
  rewrite T in Et, Hr. simpl in Hr. split; [done|]. split; [done|]. split; [done|].
  destruct Hv as [_ Hc Ht Hm Hcf]. assert (Forall cell_wf (Cell.refs c)) as Fc by by destruct Hc.
  assert (Forall cell_wf (Cell.refs t)) as Ft by by destruct Ht.
  apply Forall2_same_length_lookup_2; [by eapply Forall2_length|]. intros i x y Hx Hy.
  pose proof (Forall2_lookup_lr _ _ _ _ _ _ Hr Hx Hy) as Hxy.
  apply list_elem_of_lookup_2 in Hx, Hy. rewrite Forall_forall in Fc, Ft.
  split; [done|auto..| |intros z [?|?]; apply Hcf; eauto using hashed_below].
  pose proof (child_mask t y Ht ltac:(congruence) Hy) as E. rewrite <- Et in E. simpl in E.
  by rewrite Hm, Z.lor_0_r in E.
Qed.

(** What a node's first byte says about its kind. *)
Lemma ordinary_tag c x : cell_wf c → get (Cell.data c) 0 = Some x → 4 < x → Cell.is_exotic c = false.
Proof.
  intros [c' _ _ _ K _ _] Hx Hgt. apply is_exotic_false. unfold kind_ok in K.
  destruct (Cell.cell_type c'); [done|exfalso..]; destruct_and?; simplify_eq; lia.
Qed.


(** ** Cursors *)

(** Cursors at the same place of two cells of the same bits, whose references are
    related in turn. *)
Record sview (R : Cell → Cell → Prop) (s s' : Slice) : Prop := {
  sv_data : Cell.data (s_cell s) = Cell.data (s_cell s');
  sv_refs : Forall2 R (Cell.refs (s_cell s)) (Cell.refs (s_cell s'));
  sv_bit : s_bit s = s_bit s';
  sv_next_ref : s_next_ref s = s_next_ref s';
  sv_end_bit : s_end_bit s = s_end_bit s';
  sv_end_ref : s_end_ref s = s_end_ref s';
}.

Lemma new_sview c t : view c t → Cell.is_exotic c = false → sview view (Slice.new c) (Slice.new t).
Proof.
  intros Hv T. destruct (view_open c t Hv T) as (Ed & Eb & _ & Hr). split; try done.
  simpl. unfold len. by rewrite (Forall2_length _ _ _ Hr).
Qed.

Lemma same_sview c t : same c t → sview same (Slice.new c) (Slice.new t).
Proof.
  intros [c' t' Ed Eb _ _ Hr]. split; try done. simpl. unfold len. by rewrite (Forall2_length _ _ _ Hr).
Qed.

Lemma get_related {A B} (R : A → B → Prop) l l' i x :
  Forall2 R l l' → get l i = Some x → ∃ y, get l' i = Some y ∧ R x y.
Proof. unfold get. intros Hf. destruct (i <? 0); [done|]. intros Hx. by eapply Forall2_lookup_l. Qed.

(** ** Programs *)

(** Where a run of [m] succeeds, so does the run of [m'] from related states, with
    related answers. *)
Definition tracks {S E A B} (V : S → S → Prop) (R : A → B → Prop) (m : stm S E A) (m' : stm S E B) : Prop :=
  ∀ s s' a s1, V s s' → m s = (Ok a, s1) → ∃ b s1', m' s' = (Ok b, s1') ∧ R a b ∧ V s1 s1'.

Section tracks.
Context {S E : Type} {V : S → S → Prop}.

Lemma tracks_ret {A B} (R : A → B → Prop) a b : R a b → tracks V R (st_ret (E:=E) a) (st_ret b).
Proof. intros Hr s s' x s1 Hs [= <- <-]. by exists b, s'. Qed.

Lemma tracks_err {A B} (R : A → B → Prop) (e : E) m' : tracks V R (st_err e) m'.
Proof. by intros s s' x s1 _ ?. Qed.

Lemma tracks_get : tracks V V (st_get (E:=E)) st_get.
Proof. intros s s' x s1 Hs [= <- <-]. by exists s', s'. Qed.

Lemma tracks_bind {A A' B B'} (R : A → A' → Prop) (Q : B → B' → Prop) m m'
    (k : A → stm S E B) (k' : A' → stm S E B') :
  tracks V R m m' → (∀ a a', R a a' → tracks V Q (k a) (k' a')) →
  tracks V Q (st_bind m k) (st_bind m' k').
Proof.
  intros Hm Hk s s' b s2 Hs H. apply st_bind_inv in H as (a & s1 & Ha & Hb).
  destruct (Hm _ _ _ _ Hs Ha) as (a' & s1' & Ha' & Hr & Hs1). erewrite st_bind_ok by exact Ha'.
  by eapply Hk.
Qed.

(** After an answer that is the same on both sides. *)
Lemma tracks_same {A B B'} (Q : B → B' → Prop) m m' (k : A → stm S E B) (k' : A → stm S E B') :
  tracks V eq m m' → (∀ a, tracks V Q (k a) (k' a)) → tracks V Q (st_bind m k) (st_bind m' k').
Proof. intros Hm Hk. eapply tracks_bind; [exact Hm|]. by intros a ? <-. Qed.

Lemma tracks_if {A B} (R : A → B → Prop) (b : bool) m1 m2 m1' m2' :
  tracks (E:=E) V R m1 m1' → tracks V R m2 m2' → tracks V R (if b then m1 else m2) (if b then m1' else m2').
Proof. by destruct b. Qed.

Lemma tracks_lift_ok_or {A B} (R : A → B → Prop) o o' (e e' : E) :
  option_Forall2 R o o' → tracks V R (st_lift (ok_or o e)) (st_lift (ok_or o' e')).
Proof. intros [x y Hr|] s s' a s1 Hs H; [|done]. injection H as <- <-. by exists y, s'. Qed.

Lemma tracks_for {A} (l : list A) (f f' : A → stm S E unit) :
  (∀ x, tracks V eq (f x) (f' x)) → tracks V eq (st_for l f) (st_for l f').
Proof.
  intros Hf. induction l as [|x l IH]; simpl; [by apply tracks_ret|]. by apply tracks_same.
Qed.
End tracks.

(** ** The loads *)

Section loads.
Context {rel : Cell → Cell → Prop}.

Lemma tracks_look {A B E} (R : A → B → Prop) (f : Slice → A) (g : Slice → B) :
  (∀ s s', sview rel s s' → R (f s) (g s')) →
  tracks (sview rel) R (λ s, (Ok (E:=E) (f s), s)) (λ s, (Ok (g s), s)).
Proof. intros Hf s s' a s1 Hs [= <- <-]. eexists _, s'. split; [done|]. split; [by apply Hf|done]. Qed.

Lemma tracks_advance n : tracks (sview rel) eq (Slice.advance n) (Slice.advance n).
Proof.
  intros s s' a s1 Hs H. unfold Slice.advance, Slice.remaining_bits in *. cbv zeta in *.
  destruct Hs as [Hd Hr Eb En Eeb Eer]. rewrite <- Eb, <- Eeb.
  destruct (s_end_bit s - s_bit s <? n); [done|]. injection H as <- <-.
  eexists _, _. split; [done|]. split; [done|]. by split; cbn.
Qed.

Lemma tracks_skip_bits n : tracks (sview rel) eq (Slice.skip_bits n) (Slice.skip_bits n).
Proof. apply tracks_same; [apply tracks_advance|]. intros _. by apply tracks_ret. Qed.

Lemma tracks_load_bit : tracks (sview rel) eq Slice.load_bit Slice.load_bit.
Proof.
  apply tracks_same; [apply tracks_advance|]. intros at'. apply tracks_look. by intros s s' [-> _ _ _ _ _].
Qed.

Lemma tracks_load_uint n : tracks (sview rel) eq (Slice.load_uint n) (Slice.load_uint n).
Proof.
  unfold Slice.load_uint. apply tracks_if; [apply tracks_err|].
  apply tracks_same; [apply tracks_advance|]. intros start. apply tracks_look. by intros s s' [-> _ _ _ _ _].
Qed.

Lemma tracks_load_uint128 n : tracks (sview rel) eq (Slice.load_uint128 n) (Slice.load_uint128 n).
Proof.
  unfold Slice.load_uint128. apply tracks_if; [apply tracks_err|].
  apply tracks_same; [apply tracks_advance|]. intros start. apply tracks_look. by intros s s' [-> _ _ _ _ _].
Qed.

Lemma tracks_load_u16 : tracks (sview rel) eq Slice.load_u16 Slice.load_u16.
Proof. apply tracks_same; [apply tracks_load_uint|]. intros v. by apply tracks_ret. Qed.
Lemma tracks_load_u32 : tracks (sview rel) eq Slice.load_u32 Slice.load_u32.
Proof. apply tracks_same; [apply tracks_load_uint|]. intros v. by apply tracks_ret. Qed.
Lemma tracks_load_i32 : tracks (sview rel) eq Slice.load_i32 Slice.load_i32.
Proof. apply tracks_same; [apply tracks_load_uint|]. intros v. by apply tracks_ret. Qed.

Lemma tracks_read_var max : tracks (sview rel) eq (Slice.read_var max) (Slice.read_var max).
Proof.
  unfold Slice.read_var. apply tracks_if; [apply tracks_err|].
  eapply tracks_bind; [apply tracks_get|]. intros s0 s0' _.
  apply tracks_same; [apply tracks_load_uint|]. intros len.
  destruct (checked_mul U32_MAX len 8) as [n|]; [|by intros s s' a s1 _ ?].
  intros s s' a s1 Hs H. destruct (Slice.load_uint128 n s) as [[raw|] s2] eqn:El; [|done]. injection H as <- <-.
  destruct (tracks_load_uint128 n _ _ _ _ Hs El) as (b & s2' & -> & <- & Hv). by eexists _, _.
Qed.

Lemma tracks_load_var_uint max : tracks (sview rel) eq (Slice.load_var_uint max) (Slice.load_var_uint max).
Proof. apply tracks_same; [apply tracks_read_var|]. intros v. by apply tracks_ret. Qed.

Lemma tracks_load_bytes n : tracks (sview rel) eq (Slice.load_bytes n) (Slice.load_bytes n).
Proof.
  unfold Slice.load_bytes, Slice.load_bytes_into. eapply tracks_bind; [apply tracks_get|]. intros s0 s0' _.
  apply tracks_same; [apply tracks_lift_ok_or; destruct (checked_mul _ _ _); by constructor|]. intros m.
  apply tracks_same; [apply tracks_advance|]. intros start. apply tracks_look. by intros s s' [-> _ _ _ _ _].
Qed.

Lemma tracks_load_ref : tracks (sview rel) rel Slice.load_ref Slice.load_ref.
Proof.
  intros s s' a s1 Hs H. unfold Slice.load_ref in *. destruct Hs as [Hd Hr Eb En Eeb Eer].
  rewrite <- En, <- Eer. destruct (s_end_ref s <=? s_next_ref s); [done|].
  destruct (get (Cell.refs (s_cell s)) (s_next_ref s)) as [x|] eqn:Ex; [|done].
  injection H as <- <-. destruct (get_related rel _ _ _ _ Hr Ex) as (y & -> & Hv). eexists _, _.
  split; [done|]. split; [done|]. split; cbn; congruence || done.
Qed.

Lemma tracks_load_maybe_ref : tracks (sview rel) (option_Forall2 rel) Slice.load_maybe_ref Slice.load_maybe_ref.
Proof.
  apply tracks_same; [apply tracks_load_bit|]. intros present. apply tracks_if; [|apply tracks_ret; constructor].
  eapply tracks_bind; [apply tracks_load_ref|]. intros a a' Hv. apply tracks_ret. by constructor.
Qed.

(** The error of a cursor raised to one of a block changes no success. *)
Lemma tracks_st_cell {A B} (R : A → B → Prop) m m' :
  tracks (sview rel) R m m' → tracks (sview rel) R (st_cell m) (st_cell m').
Proof.
  intros Hm s s' a s1 Hs H. unfold st_cell in *. destruct (m s) as [[x|e] t] eqn:Em; simpl in H; [|done].
  injection H as <- <-. destruct (Hm _ _ _ _ Hs Em) as (b & s1' & -> & Hr & Hv). by eexists _, _.
Qed.
End loads.
End covered.

Create HintDb tracks.
#[export] Hint Resolve tracks_skip_bits tracks_load_bit tracks_load_uint tracks_load_u16 tracks_load_u32
  tracks_load_i32 tracks_load_var_uint tracks_load_bytes tracks_load_ref tracks_load_maybe_ref
  tracks_st_cell : tracks.

(** One step at a time through a program over a cursor. *)
Ltac track :=
  repeat first
    [ apply tracks_err
    | apply tracks_if
    | solve [eauto with tracks]
    | apply tracks_same; [solve [eauto with tracks]|intros ?]
    | eapply tracks_bind; [solve [eauto with tracks]|intros ? ? ?]
    | apply tracks_lift_ok_or; assumption
    | apply tracks_ret; first [reflexivity|assumption] ].

Section readers.
Context {rel : Cell → Cell → Prop}.

Lemma tracks_coins : tracks (sview rel) eq Coins.load Coins.load.
Proof. unfold Coins.load. track. Qed.

Lemma tracks_shard_ident : tracks (sview rel) eq read_shard_ident read_shard_ident.
Proof. unfold read_shard_ident. track. Qed.

Lemma tracks_skip_currency : tracks (sview rel) eq skip_currency skip_currency.
Proof. unfold skip_currency. track. Qed.
End readers.
#[export] Hint Resolve tracks_coins tracks_shard_ident tracks_skip_currency : tracks.

Section readers2.
Context {rel : Cell → Cell → Prop}.

Lemma tracks_header : tracks (sview rel) eq read_header read_header.
Proof. unfold read_header. track. Qed.

Lemma tracks_extra_custom : tracks (sview rel) rel read_extra_custom read_extra_custom.
Proof. unfold read_extra_custom. track. Qed.

Lemma tracks_config : tracks (sview rel) rel read_config read_config.
Proof. unfold read_config. track. Qed.

Lemma tracks_skip_to_custom : tracks (sview rel) eq skip_to_custom skip_to_custom.
Proof. unfold skip_to_custom. track. Qed.

Lemma tracks_shard_descr : tracks (sview rel) eq ShardDescr.load ShardDescr.load.
Proof. unfold ShardDescr.load. track. Qed.
End readers2.

(** ** Dictionaries *)

Section dicts.
Context `{HH : Hasher} `{!HasherOk HH} {HV : Vetted}.

Lemma tracks_unary fuel max count : tracks (sview view) eq (unary_loop fuel max count) (unary_loop fuel max count).
Proof.
  revert count. induction fuel as [|fuel IH]; intros count; [apply tracks_err|]. cbn [unary_loop].
  apply tracks_same; [apply tracks_load_bit|]. intros more. track.
Qed.

Lemma tracks_read_run max : tracks (sview view) eq (read_run max) (read_run max).
Proof.
  unfold read_run. apply tracks_same; [apply tracks_load_bit|]. intros first. apply tracks_if; [|track].
  apply tracks_same; [apply tracks_unary|]. intros count. by apply tracks_ret.
Qed.

(** A cursor and a sink, the sink the same on both sides. *)
Definition pview {S} (p q : Slice * S) : Prop := sview view p.1 q.1 ∧ p.2 = q.2.

Lemma tracks_on_slice {S A} (m : stm Slice CellError A) :
  tracks (sview view) eq m m → tracks (pview (S:=S)) eq (on_slice m) (on_slice m).
Proof.
  intros Hm [s i] [s' i'] a s1 [Hs Hi] H. simpl in *. subst i'. destruct (m s) as [r t] eqn:Em.
  injection H as -> <-. destruct (Hm _ _ _ _ Hs Em) as (b & t' & -> & <- & Hv). by eexists _, _.
Qed.

Lemma tracks_on_sink {S A} (m : stm S CellError A) : tracks pview eq (on_sink m) (on_sink m).
Proof.
  intros [s i] [s' i'] a s1 [Hs Hi] H. simpl in *. subst i'. destruct (m i) as [r t] eqn:Em.
  injection H as -> <-. by eexists _, _.
Qed.

Lemma tracks_label {S} `{LabelSink S} max : tracks pview eq (read_label_into (S:=S) max) (read_label_into max).
Proof.
  unfold read_label_into. apply tracks_same; [apply tracks_on_sink|]. intros _.
  apply tracks_same; [apply tracks_on_slice, tracks_read_run|]. intros [count|value count].
  - apply tracks_same; [apply tracks_on_sink|]. intros _. apply tracks_for. intros _.
    apply tracks_same; [apply tracks_on_slice, tracks_load_bit|]. intros b. apply tracks_on_sink.
  - apply tracks_same; [apply tracks_on_sink|]. intros _. apply tracks_for. intros _. apply tracks_on_sink.
Qed.

(** An answer out of a proof against the answer out of the whole tree: what is found
    is there, what is shown to be absent is absent, and a pruned branch says nothing. *)
Definition lview {E A B} (R : A → B → Prop) (r : result E (Lookup A)) (r' : result E (Lookup B)) : Prop :=
  match r with
  | Ok (Found a) => ∃ b, r' = Ok (Found b) ∧ R a b
  | Ok Absent => r' = Ok Absent
  | Ok PrunedAway | Err _ => True
  end.

(** The node a lookup stops at is not a pruned one. *)
Record eview (e e' : DictEntry) : Prop := {
  ev_cell : view (e_cell e) (e_cell e');
  ev_ordinary : Cell.is_exotic (e_cell e) = false;
  ev_offset : e_bit_offset e = e_bit_offset e';
}.

Lemma view_reference c t i x :
  view c t → Cell.is_exotic c = false → Cell.reference c i = Some x → ∃ y, Cell.reference t i = Some y ∧ view x y.
Proof. intros Hv T. destruct (view_open c t Hv T) as (_ & _ & _ & Hr). by apply get_related. Qed.

Lemma lookup_loop_view bits fuel : ∀ node node' remaining consumed label,
  view node node' →
  lview (λ p p', eview p.2 p'.2) (lookup_loop fuel Plain bits node remaining consumed label)
    (lookup_loop fuel Plain bits node' remaining consumed label).
Proof.
  induction fuel as [|fuel IH]; intros node node' remaining consumed label Hv; [done|]. cbn [lookup_loop].
  destruct (Cell.is_exotic node) eqn:T; [done|]. destruct (view_open _ _ Hv T) as (_ & Eb & T' & _).
  rewrite (proj2 (is_exotic_false node') T').
  destruct (read_label_into remaining (Slice.new node, label)) as [[[]|e] [s l]] eqn:El; [|done].
  destruct (tracks_label remaining (Slice.new node, label) (Slice.new node', label) tt (s, l))
    as ([] & [s' l'] & -> & _ & Hs & El'); [split; [by apply new_sview|done]|done|]. cbn in Hs, El'. subst l'.
  destruct (diverges l _); [done|]. destruct (_ =? 0).
  - cbn. eexists _. split; [done|]. split; cbn; [done|done|]. destruct Hs as [_ _ Hb _ He _].
    unfold Slice.remaining_bits. by rewrite Eb, Hb, He.
  - destruct (Cell.reference node _) as [child|] eqn:Ec; [|done].
    destruct (view_reference _ _ _ _ Hv T Ec) as (child' & -> & Hv'). by apply IH.
Qed.

(** A dictionary read through a proof answers as the whole one. *)
Lemma get_view_dict root root' key_bits key :
  view root root' →
  lview eview (let? dict := Dict.from_root (Some root) key_bits in Dict.get dict key)
    (let? dict := Dict.from_root (Some root') key_bits in Dict.get dict key).
Proof.
  intros Hv. unfold Dict.from_root. destruct (check_key_bits key_bits); [|done]. cbn [res_bind].
  unfold Dict.get. cbn [d_key_bits d_root lookup]. destruct (key_of key key_bits) as [bits|]; [|done]. cbn [res_bind].
  pose proof (lookup_loop_view bits (S (Z.to_nat key_bits)) root root' key_bits 0 Label.new Hv) as Hl.
  destruct (lookup_loop _ _ _ root _ _ _) as [[[x e]| |]|]; cbn in *; [|by rewrite Hl|done..].
  destruct Hl as ([x' e'] & -> & He). by eexists _.
Qed.

(** What is read out of an entry found through a proof. *)
Lemma entry_view {A B} (R : A → B → Prop) e e' m m' a :
  eview e e' → tracks (sview view) R m m' → entry_parsing e m = Ok a → ∃ b, entry_parsing e' m' = Ok b ∧ R a b.
Proof.
  intros [Hv T Eo] Hm. unfold entry_parsing, entry_slice. rewrite <- Eo.
  destruct (Slice.skip_bits _ (Slice.new (e_cell e))) as [[[]|] s] eqn:Es; [|done]. cbn. intros H.
  destruct (tracks_skip_bits _ _ _ _ _ (new_sview _ _ Hv T) Es) as ([] & s' & -> & _ & Hs). cbn.
  destruct (m s) as [r s1] eqn:Em. simpl in H. subst r.
  destruct (Hm _ _ _ _ Hs Em) as (b & s1' & -> & Hr & _). by exists b.
Qed.

Lemma parsing_view {E A B} (R : A → B → Prop) c t (m : stm Slice E A) (m' : stm Slice E B) a :
  view c t → Cell.is_exotic c = false → tracks (sview view) R m m' → parsing c m = Ok a →
  ∃ b, parsing t m' = Ok b ∧ R a b.
Proof.
  intros Hv T Hm. unfold parsing. destruct (m (Slice.new c)) as [r s1] eqn:Em. simpl. intros ->.
  destruct (Hm _ _ _ _ (new_sview _ _ Hv T) Em) as (b & s1' & -> & Hr & _). by exists b.
Qed.
End dicts.
