(* ===== verification/CoveredProofs.v ===== *)
(** What the verified functions of core/src/tlb and core/src/proof/validators.rs
    read out of a proof is what they read out of the whole tree. *)

From stdpp Require Import base list list_numbers numbers strings.
From Stdlib Require Import ZArith Lia.
From S2P Require Import Prelude Errors Bits CellData CellHash CellModel Binding CellSlice Dict Block States Search Validators Covered.

Local Open Scope Z_scope.

(** ** Tags that no exotic cell carries *)

Lemma gather_low data w : ∀ l k v,
  0 <= k → 0 <= v < 2 ^ k → k + len l <= w →
  0 <= fold_left (λ value i, Z.lor (shl w value 1) (b2z (Slice.bit_at data i))) l v < 2 ^ (k + len l).
Proof.
  induction l as [|i l IH]; intros k v Hk Hv Hw.
  - change (len []) with 0. by rewrite Z.add_0_r.
  - rewrite len_cons in *. pose proof (len_nonneg l). rewrite Z.add_assoc. apply IH; [lia| |lia].
    assert (2 ^ (k + 1) = 2 * 2 ^ k) as Hp by (rewrite Z.pow_add_r; lia).
    assert (2 ^ (k + 1) <= 2 ^ w) by (apply Z.pow_le_mono_r; lia).
    apply lor_range; [lia| |destruct (Slice.bit_at data i); simpl; lia].
    unfold shl, wrap. rewrite Z.shiftl_mul_pow2 by lia. change (2 ^ 1) with 2. rewrite Z.mod_small; lia.
Qed.

Lemma fold_seqZ_shift {A} (f : A → Z → A) a n v :
  fold_left (λ v i, f v (a + i)) (seqZ 0 n) v = fold_left f (seqZ a n) v.
Proof.
  replace (seqZ a n) with (Z.add a <$> seqZ 0 n) by (rewrite fmap_add_seqZ; f_equal; lia).
  revert v. induction (seqZ 0 n) as [|i l IH]; intros v; [done|]. apply IH.
Qed.

Section tags.
Context `{HH : Hasher} `{!HasherOk HH}.

(** The first five bits of an exotic cell are clear. *)
Lemma exotic_bits c i : cell_wf c → Cell.is_exotic c = true → 0 <= i < 5 → Slice.bit_at (Cell.data c) i = false.
Proof.
  intros Hwf T Hi. assert (∃ x, get (Cell.data c) 0 = Some x ∧ x ∈ [1; 2; 3; 4]) as (x & Hx & Hin).
  { destruct Hwf as [c' _ _ _ K _ _]. unfold kind_ok in K. unfold Cell.is_exotic in T.
    change (inner_cell_type c') with (Cell.cell_type c') in T.
    destruct (Cell.cell_type c'); [done|..]; destruct_and?; eexists; (split; [eassumption|rewrite !elem_of_cons; tauto]). }
  unfold Slice.bit_at. replace (i / 8) with 0 by zdiv. rewrite Hx, Z.mod_small by lia.
  assert (i ∈ seqZ 0 5) as Hi' by (apply elem_of_seqZ; lia). clear Hx Hi. revert x i Hin Hi'.
  assert (Forall (λ x, Forall (λ i, (Z.land (Z.shiftr x (7 - i)) 1 =? 1) = false) (seqZ 0 5)) [1; 2; 3; 4]) as Hf
    by by repeat constructor.
  intros x i Hx Hi. rewrite Forall_forall in Hf. specialize (Hf x Hx). rewrite Forall_forall in Hf. by apply Hf.
Qed.

(** A tag of [n] bits with one of its top five set is not an exotic cell's. *)
Lemma tag_ordinary c n v :
  cell_wf c → 5 <= n <= 64 → parsing c (Slice.load_uint n) = Ok v → 2 ^ (n - 5) <= v → Cell.is_exotic c = false.
Proof.
  intros Hwf Hn Hp Hv. destruct (Cell.is_exotic c) eqn:T; [|done]. exfalso. revert Hp. unfold parsing, Slice.load_uint.
  destruct (64 <? n); [done|]. unfold Slice.advance, st_bind. cbn [Slice.new s_bit Slice.set_bit s_cell].
  destruct (_ <? n); [done|]. cbn. intros [= <-]. revert Hv. unfold Slice.gather.
  rewrite (fold_seqZ_shift (λ value i, Z.lor (shl 64 value 1) (b2z (Slice.bit_at (Cell.data c) i)))).
  replace n with (5 + (n - 5)) at 2 by lia. rewrite seqZ_app, fold_left_app by lia.
  assert (∀ i, i ∈ seqZ 0 5 → Slice.bit_at (Cell.data c) i = false) as Hz.
  { intros i Hi%elem_of_seqZ. apply exotic_bits; [done..|lia]. }
  change (seqZ 0 5) with [0; 1; 2; 3; 4] in *. cbn [fold_left].
  rewrite !Hz by (rewrite !elem_of_cons; tauto). change (Z.lor (shl 64 0 1) (b2z false)) with 0.
  pose proof (gather_low (Cell.data c) 64 (seqZ (0 + 5) (n - 5)) 0 0) as Hg.
  rewrite len_seqZ in Hg by lia. specialize (Hg ltac:(lia) ltac:(done) ltac:(lia)). rewrite Z.add_0_l in Hg.
  intros Hv. apply (proj1 (Z.lt_nge _ _) (proj2 Hg)). exact Hv.
Qed.
End tags.

(** ** Blocks *)

Section blocks.
Context `{HH : Hasher} `{!HasherOk HH} {HV : Vetted}.

Lemma from_cell_error_ok {A} (m : result CellError A) a : from_cell_error m = Ok a ↔ m = Ok a.
Proof. destruct m; cbn; split; congruence. Qed.

Lemma tag32_ordinary c v :
  cell_wf c → parsing c Slice.load_u32 = Ok v → 2 ^ 27 <= v → Cell.is_exotic c = false.
Proof.
  unfold parsing, Slice.load_u32. intros Hwf Hp Hv.
  destruct (Slice.load_uint 32 (Slice.new c)) as [[w|] s] eqn:Ew; unfold st_bind in Hp; rewrite Ew in Hp; [|done].
  apply (tag_ordinary c 32 w); [done|lia|unfold parsing; by rewrite Ew|].
  assert (v = from_be_bytes (drop 4 (to_be_bytes 8 w))) as -> by (unfold st_ret in Hp; cbn [fst] in Hp; congruence).
  destruct (low_bytes w) as (_ & _ & Hl). rewrite Hl in Hv. apply load_uint_range in Ew.
  pose proof (Z.mod_le w (2 ^ 32) ltac:(lia) ltac:(lia)). change (32 - 5) with 27. lia.
Qed.

(** A constructor that checks a tag and keeps the cell shows as it is. *)
Lemma block_view c t b :
  view c t → Block.from_cell c = Ok b →
  b = MkBlock c ∧ Cell.is_exotic c = false ∧ Block.from_cell t = Ok (MkBlock t).
Proof.
  intros Hv. unfold Block.from_cell. destruct (from_cell_error _) as [tag|] eqn:Et; [|done]. cbn [ok_or res_bind].
  apply from_cell_error_ok in Et. destruct (Z.eqb_spec tag BLOCK_TAG) as [->|]; [|done]. cbn. intros [= <-].
  assert (Cell.is_exotic c = false) as T by (eapply tag32_ordinary; [by destruct Hv|exact Et|done]).
  destruct (parsing_view eq c t _ _ _ Hv T tracks_load_u32 Et) as (? & -> & <-). by cbn.
Qed.

Lemma header_view c t h :
  view c t → Cell.is_exotic c = false → Block.header (MkBlock c) = Ok h → Block.header (MkBlock t) = Ok h.
Proof.
  intros Hv T. unfold Block.header. cbn [block_cell].
  destruct (Cell.reference c _) as [info|] eqn:Ei; [|done]. cbn [ok_or res_bind].
  destruct (view_reference _ _ _ _ Hv T Ei) as (info' & -> & Hi). cbn [ok_or res_bind].
  destruct (Cell.is_exotic info) eqn:Ti; [done|]. intros Hp.
  destruct (view_open _ _ Hi Ti) as (_ & _ & ->%is_exotic_false & _).
  by destruct (parsing_view eq info info' _ _ _ Hi Ti tracks_header Hp) as (? & -> & <-).
Qed.

Lemma config_view c t config :
  view c t → Cell.is_exotic c = false → Block.config (MkBlock c) = Ok config →
  ∃ config', Block.config (MkBlock t) = Ok config' ∧ view config config'.
Proof.
  intros Hv T. unfold Block.config. cbn [block_cell].
  destruct (Cell.reference c _) as [extra|] eqn:Ee; [|done]. cbn [ok_or res_bind].
  destruct (view_reference _ _ _ _ Hv T Ee) as (extra' & -> & He). cbn [ok_or res_bind].
  destruct (Cell.is_exotic extra) eqn:Te; [done|].
  destruct (view_open _ _ He Te) as (_ & _ & ->%is_exotic_false & _).
  destruct (parsing extra _) as [custom|] eqn:Ep; [|done]. cbn [ok_or res_bind].
  destruct (parsing_view view extra extra' _ _ _ He Te tracks_extra_custom Ep) as (custom' & -> & Hc). cbn [ok_or res_bind].
  destruct (Cell.is_exotic custom) eqn:Tc; [done|]. intros Hp.
  destruct (view_open _ _ Hc Tc) as (_ & _ & ->%is_exotic_false & _).
  by apply (parsing_view view custom custom' _ _ _ Hc Tc tracks_config Hp).
Qed.

Lemma state_hash_view c t h :
  view c t → Cell.is_exotic c = false → Block.new_state_hash (MkBlock c) = Ok h →
  Block.new_state_hash (MkBlock t) = Ok h.
Proof.
  intros Hv T. unfold Block.new_state_hash. cbn [block_cell].
  destruct (Cell.reference c _) as [update|] eqn:Eu; [|done]. cbn [ok_or res_bind].
  destruct (view_reference _ _ _ _ Hv T Eu) as (update' & -> & Hu). cbn [ok_or res_bind].
  destruct (bool_decide (Cell.cell_type update = MerkleUpdate)) eqn:Et; [|done].
  apply bool_decide_eq_true in Et. destruct (view_node _ _ Hu) as (Ed & _ & Et' & _); [congruence|].
  rewrite <- Et', Et, <- Ed. done.
Qed.
End blocks.

(** ** Validator sets *)

Section sets.
Context `{HH : Hasher} `{!HasherOk HH} {HV : Vetted}.

Lemma tracks_validator : tracks (sview view) eq read_validator read_validator.
Proof. unfold read_validator. track. Qed.

Lemma tracks_set_header :
  tracks (sview view) (λ p q, p.1 = q.1 ∧ view p.2 q.2) read_set_header read_set_header.
Proof.
  unfold read_set_header. apply tracks_same; [auto with tracks|]. intros tag.
  apply tracks_same; [track|]. intros extended. do 4 (apply tracks_same; [auto with tracks|]; intros ?).
  apply tracks_if; [apply tracks_err|]. apply tracks_same; [destruct extended; track|]. intros _.
  apply (tracks_bind view); [destruct extended; track|]. intros l l' Hl. by apply tracks_ret.
Qed.

Lemma res_fold_view {S A} (f g : S → A → result BlockError S) l s r :
  (∀ s x r, f s x = Ok r → g s x = Ok r) → res_fold f l s = Ok r → res_fold g l s = Ok r.
Proof.
  intros Hfg. revert s. induction l as [|x l IH]; intros s; [done|]. simpl.
  destruct (f s x) as [s1|] eqn:E; [|done]. rewrite (Hfg _ _ _ E). apply IH.
Qed.

Lemma lview_found {A B} (R : A → B → Prop) (r : result CellError (Lookup A)) r' a :
  lview R r r' → r = Ok (Found a) → ∃ b, r' = Ok (Found b) ∧ R a b.
Proof. by intros Hl ->. Qed.

Lemma member_view list list' key_bits state index r :
  0 <= key_bits <= MAX_BITS → view list list' →
  read_member (MkDict (Some list) key_bits) state index = Ok r →
  read_member (MkDict (Some list') key_bits) state index = Ok r.
Proof.
  intros Hk Hv. destruct state as [weight members]. unfold read_member.
  pose proof (get_view_dict list list' key_bits (to_be_bytes 2 index) Hv) as Hl. unfold Dict.from_root, check_key_bits in Hl.
  rewrite (proj2 (Z.ltb_ge MAX_BITS key_bits)) in Hl by lia. cbn [res_bind] in Hl.
  destruct (Dict.get (MkDict (Some list) _) _) as [[entry| |]|]; [|done..]. cbn [lview] in Hl.
  destruct Hl as (entry' & -> & He). cbn [from_cell_error map_err res_bind]. destruct (entry_parsing entry _) as [v|] eqn:Ev; [|done].
  by destruct (entry_view eq entry entry' _ _ _ He tracks_validator Ev) as (? & -> & <-).
Qed.

(** A set of validators read through a proof is the set of the whole configuration. *)
Lemma from_cell_view param param' set :
  view param param' → ValidatorSet.from_cell param = Ok set → ValidatorSet.from_cell param' = Ok set.
Proof.
  intros Hv. unfold ValidatorSet.from_cell. destruct (parsing param _) as [[[[[since until] total] main] list]|] eqn:Ep; [|done].
  assert (Cell.is_exotic param = false) as T.
  { unfold parsing, read_set_header, st_bind in Ep.
    destruct (st_cell (Slice.load_uint 8) (Slice.new param)) as [[tag|] s] eqn:Et; [|done].
    apply (tag_ordinary param 8 tag); [by destruct Hv|lia|unfold parsing; by erewrite st_cell_inv by exact Et|].
    revert Ep. unfold VALIDATORS_EXT_TAG, VALIDATORS_TAG. change (2 ^ (8 - 5)) with 8.
    destruct (Z.eqb_spec tag 18) as [->|]; [done|]. by destruct (Z.eqb_spec tag 17) as [->|]. }
  destruct (parsing_view _ param param' _ _ _ Hv T tracks_set_header Ep)
    as ([[[[since' until'] total'] main'] list'] & -> & Eq & Hl). cbn in Eq, Hl. injection Eq as <- <- <- <-. cbn.
  destruct (res_fold _ _ _) as [[weight members]|] eqn:Em; [|done].
  apply (res_fold_view _ (read_member (MkDict (Some list') 16))) in Em; [by rewrite Em|].
  intros s x r. by apply member_view.
Qed.

Lemma from_config_view config config' set :
  view config config' → ValidatorSet.from_config config = Ok set → ValidatorSet.from_config config' = Ok set.
Proof.
  intros Hv. unfold ValidatorSet.from_config.
  assert (∀ r, Dict.from_root (Some r) 32 = Ok (MkDict (Some r) 32)) as Hd by done.
  assert (∀ key, lview eview (Dict.get (MkDict (Some config) 32) key) (Dict.get (MkDict (Some config') 32) key)) as Hl
    by (intros key; exact (get_view_dict config config' 32 key Hv)).
  rewrite !Hd. cbn [from_cell_error map_err res_bind].
  set (k35 := i32_be_bytes CURRENT_TEMP_VALIDATORS). set (k34 := i32_be_bytes CURRENT_VALIDATORS).
  assert (∀ entry entry', eview entry entry' →
    (let? param := entry_parsing entry (st_cell Slice.load_ref) in ValidatorSet.from_cell param) = Ok set →
    (let? param := entry_parsing entry' (st_cell Slice.load_ref) in ValidatorSet.from_cell param) = Ok set) as Hend.
  { intros entry entry' He. destruct (entry_parsing entry _) as [param|] eqn:Ep; [|done]. cbn [ok_or res_bind].
    destruct (entry_view view entry entry' _ (st_cell Slice.load_ref) _ He ltac:(auto with tracks) Ep) as (param' & -> & Hp).
    by apply from_cell_view. }
  pose proof (Hl k35) as H35. pose proof (Hl k34) as H34.
  destruct (Dict.get (MkDict (Some config) 32) k35) as [[e35| |]|]; [| |done..];
    cbn [lview map_err res_bind] in H35 |- *.
  - destruct H35 as (e' & -> & He). by apply Hend.
  - rewrite H35. cbn [map_err res_bind]. destruct (Dict.get (MkDict (Some config) 32) k34) as [[e34| |]|]; [|done..].
    cbn [lview map_err res_bind] in H34 |- *.
    destruct H34 as (e' & -> & He). by apply Hend.
Qed.
End sets.

(** ** States and accounts *)

Section states.
Context `{HH : Hasher} `{!HasherOk HH} {HV : Vetted}.

Lemma state_view c t state :
  view c t → ShardState.from_cell c = Ok state →
  state = MkShardState c ∧ Cell.is_exotic c = false ∧ ShardState.from_cell t = Ok (MkShardState t).
Proof.
  intros Hv. unfold ShardState.from_cell. destruct (from_cell_error _) as [tag|] eqn:Et; [|done]. cbn.
  apply from_cell_error_ok in Et. destruct (Z.eqb_spec tag SHARD_STATE_TAG) as [->|]; [|done]. cbn. intros [= <-].
  assert (Cell.is_exotic c = false) as T by (eapply tag32_ordinary; [by destruct Hv|exact Et|done]).
  destruct (parsing_view eq c t _ _ _ Hv T tracks_load_u32 Et) as (? & -> & <-). by cbn.
Qed.

(** An account record against the record of the whole state. *)
Record sae_view (e e' : ShardAccountEntry) : Prop := {
  sae_cell : view (sae_account e) (sae_account e');
  sae_hash : sae_last_trans_hash e = sae_last_trans_hash e';
  sae_lt : sae_last_trans_lt e = sae_last_trans_lt e';
}.

Lemma tracks_account_entry : tracks (sview view) sae_view read_account_entry read_account_entry.
Proof.
  unfold read_account_entry. do 2 (apply tracks_same; [auto with tracks|]; intros _).
  eapply tracks_bind; [auto with tracks|]. intros _ _ _.
  eapply tracks_bind; [auto with tracks|]. intros a a' Ha.
  do 2 (apply tracks_same; [auto with tracks|]; intros ?). by apply tracks_ret.
Qed.

Lemma lview_map {E A A' B B'} (R : A → A' → Prop) (Q : B → B' → Prop) (r : result E A) r' (f : A → B) (f' : A' → B') :
  (∀ a, r = Ok a → ∃ a', r' = Ok a' ∧ R a a') → (∀ a a', R a a' → Q (f a) (f' a')) →
  lview Q (res_map (λ a, Found (f a)) r) (res_map (λ a, Found (f' a)) r').
Proof.
  intros Hr Hf. destruct r as [a|]; [|done]. destruct (Hr a eq_refl) as (a' & -> & Ha). cbn. eexists. split; [done|auto].
Qed.

Lemma account_view c t account_id :
  view c t → Cell.is_exotic c = false →
  lview sae_view (ShardState.account (MkShardState c) account_id) (ShardState.account (MkShardState t) account_id).
Proof.
  intros Hv T. unfold ShardState.account, ShardState.accounts. cbn [state_cell].
  destruct (Cell.reference c _) as [accounts|] eqn:Ea; [|done]. cbn [ok_or res_bind].
  destruct (view_reference _ _ _ _ Hv T Ea) as (accounts' & -> & Ha). cbn [ok_or res_bind].
  destruct (Cell.is_exotic accounts) eqn:Ta; [done|].
  destruct (view_open _ _ Ha Ta) as (_ & _ & ->%is_exotic_false & _).
  destruct (parsing accounts _) as [root|] eqn:Ep; [|done]. cbn [res_bind].
  destruct (parsing_view (option_Forall2 view) accounts accounts' _ (st_cell Slice.load_maybe_ref) _ Ha Ta
    ltac:(auto with tracks) Ep) as (root' & -> & Hr). cbn [res_bind].
  destruct Hr as [r r' Hr|]; [|done]. pose proof (get_view_dict r r' ACCOUNT_KEY_BITS account_id Hr) as Hl.
  assert (∀ r, Dict.from_root (Some r) ACCOUNT_KEY_BITS = Ok (MkDict (Some r) ACCOUNT_KEY_BITS)) as Hd by done.
  rewrite !Hd in *. cbn [from_cell_error map_err res_bind] in *.
  destruct (Dict.get (MkDict (Some r) _) account_id) as [[e| |]|]; [| |done..]; cbn [lview map_err res_bind] in *.
  - destruct Hl as (e' & -> & He). cbn [map_err res_bind].
    apply (lview_map sae_view sae_view _ _ id id); [|done]. intros a.
    by apply (entry_view sae_view e e' _ _ a He tracks_account_entry).
  - by rewrite Hl.
Qed.

Record extra_view (e e' : McStateExtra) : Prop := {
  ex_cell : view (extra_cell e) (extra_cell e');
  ex_ordinary : Cell.is_exotic (extra_cell e) = false;
}.

Lemma masterchain_extra_view c t :
  view c t → Cell.is_exotic c = false →
  lview extra_view (ShardState.masterchain_extra (MkShardState c)) (ShardState.masterchain_extra (MkShardState t)).
Proof.
  intros Hv T. unfold ShardState.masterchain_extra. cbn [state_cell].
  destruct (parsing c _) as [custom|] eqn:Ep; [|done].
  destruct (parsing_view eq c t _ _ _ Hv T tracks_skip_to_custom Ep) as (? & -> & <-). cbn [res_bind].
  destruct custom; [|done]. cbn [negb]. destruct (Cell.reference c _) as [cell|] eqn:Ec; [|done]. cbn [ok_or res_bind].
  destruct (view_reference _ _ _ _ Hv T Ec) as (cell' & -> & Hc). cbn [ok_or res_bind].
  destruct (Cell.is_exotic cell) eqn:Tc; [done|].
  destruct (view_open _ _ Hc Tc) as (_ & _ & ->%is_exotic_false & _).
  apply (lview_map extra_view extra_view _ _ id id); [|done]. intros extra. unfold McStateExtra.from_cell.
  destruct (from_cell_error (parsing cell _)) as [tag|] eqn:Et; [|done]. apply from_cell_error_ok in Et.
  destruct (parsing_view eq cell cell' _ _ _ Hc Tc (tracks_load_uint 16) Et) as (? & -> & <-).
  cbn [from_cell_error map_err res_bind]. destruct (negb _); [done|]. intros [= <-]. by exists (MkMcStateExtra cell').
Qed.

Lemma find_shard_view account_id depths : ∀ node node',
  view node node' → lview eq (find_shard_loop depths node account_id) (find_shard_loop depths node' account_id).
Proof.
  induction depths as [|depth depths IH]; intros node node' Hv; [done|]. cbn [find_shard_loop].
  destruct (Cell.is_exotic node) eqn:T; [done|].
  destruct (view_open _ _ Hv T) as (_ & _ & ->%is_exotic_false & _).
  destruct (st_cell Slice.load_bit (Slice.new node)) as [[bit|] s] eqn:Eb; [|done].
  destruct (tracks_st_cell eq _ _ tracks_load_bit _ _ _ _ (new_sview _ _ Hv T) Eb) as (? & s' & -> & <- & Hs).
  destruct bit.
  - destruct (get account_id _) as [byte|]; [|done]. cbn [ok_or res_bind].
    destruct (Cell.reference node _) as [child|] eqn:Ec; [|done].
    destruct (view_reference _ _ _ _ Hv T Ec) as (child' & -> & Hc). by apply IH.
  - apply (lview_map eq eq _ _ id id); [|by intros ? ? <-]. intros d.
    destruct (ShardDescr.load s) as [r s1] eqn:El. cbn [fst]. intros ->.
    destruct (tracks_shard_descr _ _ _ _ Hs El) as (d' & s1' & -> & <- & _). by exists d.
Qed.

Lemma shard_for_view e e' workchain account_id :
  extra_view e e' → lview eq (McStateExtra.shard_for e workchain account_id) (McStateExtra.shard_for e' workchain account_id).
Proof.
  intros [Hv T]. unfold McStateExtra.shard_for. set (key := i32_be_bytes workchain).
  destruct (parsing (extra_cell e) _) as [root|] eqn:Ep; [|done]. cbn [res_bind].
  assert (tracks (E:=BlockError) (sview view) (option_Forall2 view)
    (run! st_cell (Slice.skip_bits 16); st_cell Slice.load_maybe_ref)
    (run! st_cell (Slice.skip_bits 16); st_cell Slice.load_maybe_ref)) as Hm by track.
  destruct (parsing_view _ _ _ _ _ _ Hv T Hm Ep) as (root' & -> & Hr). cbn [res_bind].
  destruct Hr as [r r' Hr|]; [|done]. pose proof (get_view_dict r r' WORKCHAIN_KEY_BITS key Hr) as Hl.
  assert (∀ r, Dict.from_root (Some r) WORKCHAIN_KEY_BITS = Ok (MkDict (Some r) WORKCHAIN_KEY_BITS)) as Hd by done.
  rewrite !Hd in *. cbn [from_cell_error map_err res_bind] in *.
  destruct (Dict.get (MkDict (Some r) _) key) as [[en| |]|]; [| |done..]; cbn [lview] in Hl.
  - destruct Hl as (en' & -> & He). cbn [from_cell_error map_err res_bind].
    destruct (entry_parsing en (st_cell Slice.load_ref)) as [tree|] eqn:Et; [|done].
    destruct (entry_view view en en' _ (st_cell Slice.load_ref) _ He ltac:(auto with tracks) Et) as (tree' & -> & Ht).
    by apply find_shard_view.
  - by rewrite Hl.
Qed.

End states.

(** ** Accounts *)

Section accounts.
Context {rel : Cell → Cell → Prop}.

(** Two accounts with related code and data, and otherwise equal. *)
Inductive status_rel : AccountStatus → AccountStatus → Prop :=
| sr_nonexistent : status_rel Nonexistent Nonexistent
| sr_uninit : status_rel Uninit Uninit
| sr_frozen h : status_rel (Frozen h) (Frozen h)
| sr_active code code' data data' :
    option_Forall2 rel code code' → option_Forall2 rel data data' →
    status_rel (Active code data) (Active code' data').

Record account_rel (a a' : Account) : Prop := {
  ar_balance : ac_balance a = ac_balance a';
  ar_status : status_rel (ac_status a) (ac_status a');
  ar_lt : ac_last_trans_lt a = ac_last_trans_lt a';
}.

Lemma tracks_load_status : tracks (sview rel) status_rel load_status load_status.
Proof.
  unfold load_status. apply tracks_same; [auto with tracks|]. intros active. apply tracks_if.
  - do 4 (apply tracks_same; [track|]; intros ?).
    eapply tracks_bind; [auto with tracks|]. intros code code' Hc.
    eapply tracks_bind; [auto with tracks|]. intros data data' Hd.
    eapply tracks_bind; [auto with tracks|]. intros _ _ _. apply tracks_ret. by constructor.
  - apply tracks_same; [auto with tracks|]. intros frozen. apply tracks_if; [|apply tracks_ret; constructor].
    apply tracks_same; [auto with tracks|]. intros h. apply tracks_ret. constructor.
Qed.

Lemma tracks_anycast : tracks (sview rel) eq skip_anycast skip_anycast.
Proof. unfold skip_anycast. track. Qed.

Lemma tracks_address : tracks (sview rel) eq skip_address skip_address.
Proof.
  unfold skip_address. apply tracks_same; [auto with tracks|]. intros kind.
  apply tracks_if; [|apply tracks_if; [|track]]; (apply tracks_same; [apply tracks_anycast|]; intros _; track).
Qed.

Lemma tracks_storage_info : tracks (sview rel) eq skip_storage_info skip_storage_info.
Proof.
  unfold skip_storage_info. do 3 (apply tracks_same; [auto with tracks|]; intros ?).
  apply tracks_same; [track|]. intros _. track.
Qed.

Lemma tracks_account : tracks (sview rel) account_rel Account.read Account.read.
Proof.
  unfold Account.read. apply tracks_same; [auto with tracks|]. intros present.
  apply tracks_if; [apply tracks_ret; by repeat constructor|].
  apply tracks_same; [apply tracks_address|]. intros _. apply tracks_same; [apply tracks_storage_info|]. intros _.
  do 2 (apply tracks_same; [auto with tracks|]; intros ?).
  eapply tracks_bind; [auto with tracks|]. intros _ _ _.
  eapply tracks_bind; [apply tracks_load_status|]. intros st st' Hst. by apply tracks_ret.
Qed.
End accounts.
Arguments account_rel rel a a' : clear implicits.

(** The account in one cell is the account in any same tree. *)
Lemma from_account_same c t a :
  same c t → Account.from_cell c = Ok a → ∃ a', Account.from_cell t = Ok a' ∧ account_rel same a a'.
Proof.
  intros Hv. unfold Account.from_cell, parsing. destruct (Account.read (Slice.new c)) as [r s] eqn:E. cbn. intros ->.
  destruct (tracks_account _ _ _ _ (same_sview _ _ Hv) E) as (a' & s' & -> & Ha & _). by exists a'.
Qed.

(** A tree shown whole is shown itself. *)
Lemma view_same `{HH : Hasher} `{!HasherOk HH} {HV : Vetted} c t : view c t → Cell.level_mask c = 0 → same c t.
Proof.
  intros Hv Hm'. apply repr_hash_same; [by destruct Hv..|by apply view_free|]. destruct Hv as [E _ _ Hm _].
  unfold Cell.repr_hash, Cell.level. by rewrite Hm, Hm'.
Qed.
