(* ===== verification/Proof.v ===== *)
(** Reading blocks, states and accounts out of Merkle proofs
    (core/src/proof.rs). *)

From stdpp Require Import base list list_numbers numbers strings.
From Stdlib Require Import ZArith Lia.
From S2P Require Import Prelude Errors Bits CellData CellHash CellModel CellSlice Merkle Dict Boc Block States.

Local Open Scope Z_scope.

Definition MASTERCHAIN : Z := -1.

Record AccountRead : Type := MkAccountRead {
  ar_trusted_block_hash : list Z;
  ar_workchain : Z;
  ar_account_id : list Z;
  ar_shard_proof : list Z;
  ar_proof : list Z;
  ar_state : list Z;
}.

Module AccountRead.
Definition masterchain (trusted_block_hash account_id proof state : list Z) : AccountRead :=
  MkAccountRead trusted_block_hash MASTERCHAIN account_id [] proof state.
Definition in_shard (trusted_block_hash : list Z) (workchain : Z)
    (account_id shard_proof proof state : list Z) : AccountRead :=
  MkAccountRead trusted_block_hash workchain account_id shard_proof proof state.
End AccountRead.

Section proof.
Context `{Hasher}.
(** How many workers the parser of bags may use. *)
Variable parallelism : Z.

Definition covered_block (proof root_hash : list Z) : result BlockError Block :=
  let? roots := from_cell_error (parse_boc parallelism proof) in
  let? root := ok_or (head roots) (BMalformed "a proof with no root cell") in
  let? content := verify_merkle_proof root root_hash in
  Block.from_cell content.

Definition verify_block_state (roots : list Cell) (block_hash : list Z) : result BlockError (list Z) :=
  let? content := rooted_at roots block_hash in
  let? block := Block.from_cell content in
  Block.new_state_hash block.

Definition verify_shard_state (roots : list Cell) (state_hash : list Z) : result BlockError ShardState :=
  let? content := rooted_at roots state_hash in
  ShardState.from_cell content.

Definition verify_shard_block (shard_proof trusted_block_hash : list Z) (workchain : Z)
    (account_id : list Z) : result BlockError (list Z) :=
  let? roots := from_cell_error (parse_boc parallelism shard_proof) in
  let? state_hash := verify_block_state roots trusted_block_hash in
  let? state := verify_shard_state roots state_hash in
  let? extra := ShardState.masterchain_extra state in
  match extra with
  | Found extra =>
      let? descr := McStateExtra.shard_for extra workchain account_id in
      match descr with
      | Found descr => Ok (sd_root_hash descr)
      | Absent => Err (BMalformed "no shard record for the workchain")
      | PrunedAway => Err NotCovered
      end
  | _ => Err NotCovered
  end.

(** The account a state names, held to the bytes the server sent for it. *)
Definition bind_account (entry : ShardAccountEntry) (state : list Z) : result BlockError Account :=
  if bool_decide (state = []) then Err NotBound
  else
    let? account := from_cell_error (parse_boc parallelism state) in
    let? root := ok_or (head account) (BMalformed "account state has no root cell") in
    if Cell.is_exotic root || negb (Cell.level_mask root =? 0) then Err NotBound
    else if negb (bool_decide (Cell.hash root = Cell.hash (sae_account entry))) then Err NotBound
    else Account.from_cell root.

Definition verify_account (read : AccountRead) : result BlockError Account :=
  let? block_hash :=
    if ar_workchain read =? MASTERCHAIN then Ok (ar_trusted_block_hash read)
    else verify_shard_block (ar_shard_proof read) (ar_trusted_block_hash read)
           (ar_workchain read) (ar_account_id read) in
  let? roots := from_cell_error (parse_boc parallelism (ar_proof read)) in
  let? state_hash := verify_block_state roots block_hash in
  let? state := verify_shard_state roots state_hash in
  let? found := ShardState.account state (ar_account_id read) in
  match found with
  | Found entry => bind_account entry (ar_state read)
  | PrunedAway => Err NotCovered
  | Absent => if bool_decide (ar_state read = []) then Ok Account.nonexistent else Err NotBound
  end.
End proof.
