(* ===== verification/ProofTheorems.v ===== *)
(** What the verified reads of core/src/proof.rs establish about the real chain. *)

From stdpp Require Import base list list_numbers numbers strings.
From Stdlib Require Import ZArith Lia.
From S2P Require Import Prelude Errors Bits CellData CellHash CellModel Binding CellSlice BuilderOps Merkle Dict Boc BocTheorems Block States Validators Covered CoveredProofs Proof.

Local Open Scope Z_scope.

(** ** What whole trees say *)

Section whole.
Context `{HH : Hasher} `{!HasherOk HH}.

(** A tree of the chain as its nodes hold it: well formed and with nothing pruned. *)
Definition whole (t : Cell) : Prop := cell_wf t ∧ Cell.level_mask t = 0.

Definition state_hash_of (block : Cell) : result BlockError (list Z) :=
  let? b := Block.from_cell block in Block.new_state_hash b.
Definition header_of (block : Cell) : result BlockError BlockHeader :=
  let? b := Block.from_cell block in Block.header b.
Definition validators_of (block : Cell) : result BlockError ValidatorSet :=
  let? b := Block.from_cell block in
  let? config := Block.config b in
  ValidatorSet.from_config config.
Definition account_of (state : Cell) (account_id : list Z) : result BlockError (Lookup ShardAccountEntry) :=
  let? s := ShardState.from_cell state in ShardState.account s account_id.
Definition shard_of (state : Cell) (workchain : Z) (account_id : list Z) :
    result BlockError (Lookup ShardDescr) :=
  let? s := ShardState.from_cell state in
  let? extra := ShardState.masterchain_extra s in
  match extra with
  | Found extra => McStateExtra.shard_for extra workchain account_id
  | Absent => Ok Absent
  | PrunedAway => Ok PrunedAway
  end.

(** The byte strings hashed in building the cells a bag holds. *)
Definition told (parallelism : Z) (bytes x : list Z) : Prop :=
  ∃ roots r, parse_boc parallelism bytes = Ok roots ∧ r ∈ roots ∧ hashed r x.

End whole.

Section views.
Context `{HH : Hasher} `{!HasherOk HH} {HV : Vetted}.
Variable p : Z.

(** A tree of the chain, and bytes a server sent, among what is vetted. *)
Definition real (t : Cell) : Prop := whole t ∧ ∀ x, hashed t x → vetted x.
Definition heard (bytes : list Z) : Prop := Forall is_byte bytes ∧ ∀ x, told p bytes x → vetted x.

Lemma real_view c t :
  cell_wf c → (∀ x, hashed c x → vetted x) → real t → Cell.hash c = Cell.hash t → view c t.
Proof. intros Hc Hx [[Ht Hm] Hy] E. split; [done..|]. intros x [?|?]; auto. Qed.

(** A root of a bag, and what hangs from it. *)
Lemma heard_root bytes roots root :
  heard bytes → parse_boc p bytes = Ok roots → root ∈ roots → cell_wf root ∧ ∀ x, hashed root x → vetted x.
Proof.
  intros [Hb Hx] Hp Hr. pose proof (parse_boc_wf _ _ _ Hb Hp) as Hwf. rewrite Forall_forall in Hwf.
  split; [auto|]. intros x Hh. apply Hx. by exists roots, root.
Qed.

(** What a verified proof shows of a whole tree of its hash. *)
Lemma proof_view bytes roots root hash content t :
  heard bytes → parse_boc p bytes = Ok roots → root ∈ roots →
  verify_merkle_proof root hash = Ok content → real t → Cell.hash t = hash → view content t.
Proof.
  intros Hb Hp Hr (_ & Hin & E)%verify_merkle_proof_inv Ht Hh.
  destruct (heard_root _ _ _ Hb Hp Hr) as [Hf%cell_wf_refs Hx]. rewrite Forall_forall in Hf.
  apply real_view; [auto| |done|congruence]. intros x Hc. apply Hx. by eapply hashed_below.
Qed.

Lemma rooted_view bytes roots hash content t :
  heard bytes → parse_boc p bytes = Ok roots → rooted_at roots hash = Ok content →
  real t → Cell.hash t = hash → view content t.
Proof. intros Hb Hp (root & Hr & Hv)%rooted_at_inv. by eapply proof_view. Qed.

Lemma covered_view bytes hash b t :
  heard bytes → covered_block p bytes hash = Ok b → real t → Cell.hash t = hash →
  view (block_cell b) t ∧ Cell.is_exotic (block_cell b) = false ∧ Block.from_cell t = Ok (MkBlock t).
Proof.
  intros Hb. unfold covered_block. destruct (parse_boc p bytes) as [roots|] eqn:Ep; [|done].
  cbn [from_cell_error map_err res_bind]. destruct (head roots) as [root|] eqn:Er; [|done]. cbn [ok_or res_bind].
  destruct (verify_merkle_proof root hash) as [content|] eqn:Ev; [|done]. cbn [res_bind]. intros Hf Ht Hh.
  assert (root ∈ roots) as Hr by (destruct roots; simplify_eq/=; by left).
  pose proof (proof_view _ _ _ _ _ _ Hb Ep Hr Ev Ht Hh) as Hv. by destruct (block_view _ _ _ Hv Hf) as (-> & ? & ?).
Qed.

(** The state a covered block names is the state its whole tree names. *)
Lemma block_state_view bytes roots block_hash state_hash block :
  heard bytes → parse_boc p bytes = Ok roots → verify_block_state roots block_hash = Ok state_hash →
  real block → Cell.hash block = block_hash → state_hash_of block = Ok state_hash.
Proof.
  intros Hb Hp. unfold verify_block_state, state_hash_of.
  destruct (rooted_at roots block_hash) as [content|] eqn:Er; [|done]. cbn. intros Hv Hw Hh.
  pose proof (rooted_view _ _ _ _ _ Hb Hp Er Hw Hh) as Hview.
  destruct (Block.from_cell content) as [b|] eqn:Ef; [|done]. cbn in Hv.
  destruct (block_view _ _ _ Hview Ef) as (-> & T & ->). cbn. by eapply state_hash_view.
Qed.

Lemma shard_state_view bytes roots state_hash state t :
  heard bytes → parse_boc p bytes = Ok roots → verify_shard_state roots state_hash = Ok state →
  real t → Cell.hash t = state_hash →
  view (state_cell state) t ∧ Cell.is_exotic (state_cell state) = false ∧ ShardState.from_cell t = Ok (MkShardState t).
Proof.
  intros Hb Hp. unfold verify_shard_state.
  destruct (rooted_at roots state_hash) as [content|] eqn:Er; [|done]. cbn. intros Hv Hw Hh.
  pose proof (rooted_view _ _ _ _ _ Hb Hp Er Hw Hh) as Hview.
  by destruct (state_view _ _ _ Hview Hv) as (-> & T & Hs).
Qed.

(** A covered state of a covered block, against the whole ones. *)
Lemma covered_state bytes roots block_hash block state s :
  heard bytes → parse_boc p bytes = Ok roots →
  (let? state_hash := verify_block_state roots block_hash in verify_shard_state roots state_hash) = Ok s →
  real block → real state → Cell.hash block = block_hash → state_hash_of block = Ok (Cell.hash state) →
  view (state_cell s) state ∧ Cell.is_exotic (state_cell s) = false ∧
  ShardState.from_cell state = Ok (MkShardState state).
Proof.
  intros Hb Hp Hs Rb Rs Hh Hsh. destruct (verify_block_state roots block_hash) as [h|] eqn:Eb; [|done]. cbn in Hs.
  pose proof (block_state_view _ _ _ _ _ Hb Hp Eb Rb Hh) as E. rewrite Hsh in E. injection E as <-.
  by eapply shard_state_view.
Qed.

(** The shard block a proof shows is the one the whole masterchain state records. *)
Lemma shard_block_view bytes trusted workchain account_id hash block state :
  heard bytes → verify_shard_block p bytes trusted workchain account_id = Ok hash →
  real block → real state → Cell.hash block = trusted → state_hash_of block = Ok (Cell.hash state) →
  ∃ descr, shard_of state workchain account_id = Ok (Found descr) ∧ sd_root_hash descr = hash.
Proof.
  intros Hb Hv Rb Rs Hh Hsh. unfold verify_shard_block in Hv.
  destruct (parse_boc p bytes) as [roots|] eqn:Ep; [|done]. cbn in Hv.
  destruct (let? h := verify_block_state roots trusted in verify_shard_state roots h) as [s|] eqn:Es;
    [|by destruct (verify_block_state roots trusted); cbn in Hv, Es; rewrite ?Es in Hv].
  pose proof (covered_state _ _ _ _ _ _ Hb Ep Es Rb Rs Hh Hsh) as (Hview & T & Hfs). unfold shard_of. rewrite Hfs. cbn.
  destruct (verify_block_state roots trusted) as [h|]; [|done]. cbn in Hv, Es. rewrite Es in Hv. cbn in Hv.
  destruct s as [c]. cbn in Hview, T. pose proof (masterchain_extra_view c state Hview T) as Hx.
  destruct (ShardState.masterchain_extra (MkShardState c)) as [[extra| |]|]; [|done..]. cbn in Hv. cbn [lview] in Hx.
  destruct Hx as (extra' & -> & He). cbn. pose proof (shard_for_view _ _ workchain account_id He) as Hf.
  destruct (McStateExtra.shard_for extra workchain account_id) as [[d| |]|]; [|done..]. cbn in Hv. injection Hv as <-.
  destruct Hf as (d' & -> & <-). by exists d.
Qed.

(** An account bound to an entry a proof shows is the account of the whole entry. *)
Lemma bind_account_view entry entry' bytes account :
  heard bytes → sae_view entry entry' → bind_account p entry bytes = Ok account →
  ∃ account', Account.from_cell (sae_account entry') = Ok account' ∧ account_rel same account account'.
Proof.
  intros Hb [[E _ Ht Hm Hx] _ _] H. unfold bind_account in H. destruct (bool_decide (bytes = [])); [done|].
  destruct (parse_boc p bytes) as [roots|] eqn:Ep; [|done]. cbn [from_cell_error map_err res_bind] in H.
  destruct (head roots) as [root|] eqn:Er; [|done]. cbn [ok_or res_bind] in H.
  destruct (Cell.is_exotic root || _) eqn:Eo; [done|]. apply orb_false_iff in Eo as [_ Hm'].
  apply negb_false_iff, Z.eqb_eq in Hm'. destruct (bool_decide (Cell.hash root = _)) eqn:Eh; [|done].
  apply bool_decide_eq_true in Eh. cbn in H.
  assert (root ∈ roots) as Hr by (destruct roots; simplify_eq/=; by left).
  destruct (heard_root _ _ _ Hb Ep Hr) as [Hwr Hxr]. eapply from_account_same; [|exact H].
  apply view_same; [|done]. split; [congruence|done..|]. intros x [?|?]; auto.
Qed.
End views.

(** ** Theorems *)

Section theorems.
Context `{HH : Hasher} `{!HasherOk HH}.
Variable p : Z.

(** The block an account read is about: the trusted one in the masterchain, and in a
    shard the one the state of the trusted block records for the account. *)
Inductive home (trees : list Cell) (read : AccountRead) (block : Cell) : Prop :=
| home_masterchain :
    ar_workchain read = MASTERCHAIN → Cell.hash block = ar_trusted_block_hash read → home trees read block
| home_shard mc_block mc_state descr :
    ar_workchain read ≠ MASTERCHAIN →
    mc_block ∈ trees → mc_state ∈ trees →
    Cell.hash mc_block = ar_trusted_block_hash read →
    state_hash_of mc_block = Ok (Cell.hash mc_state) →
    shard_of mc_state (ar_workchain read) (ar_account_id read) = Ok (Found descr) →
    Cell.hash block = sd_root_hash descr → home trees read block.

(** Everything hashed in a read: in building the cells of the server's bags, and the trees. *)
Definition account_hears (trees : list Cell) (read : AccountRead) (x : list Z) : Prop :=
  told p (ar_shard_proof read) x ∨ told p (ar_proof read) x ∨ told p (ar_state read) x ∨
  ∃ t, t ∈ trees ∧ hashed t x.

Definition read_bytes (read : AccountRead) : Prop :=
  Forall is_byte (ar_shard_proof read) ∧ Forall is_byte (ar_proof read) ∧ Forall is_byte (ar_state read).

(** The hash a read settles on is its home block's. *)
Lemma home_hash {HV : Vetted} read trees block h :
  heard p (ar_shard_proof read) → (∀ t, t ∈ trees → real t) → home trees read block →
  (if ar_workchain read =? MASTERCHAIN then Ok (ar_trusted_block_hash read)
   else verify_shard_block p (ar_shard_proof read) (ar_trusted_block_hash read)
          (ar_workchain read) (ar_account_id read)) = Ok h → Cell.hash block = h.
Proof.
  intros Hh Hreal [E Eh|mcb mcs descr E Hmb Hms Eh Esh Ed Ehb].
  - rewrite E. cbn. congruence.
  - rewrite (proj2 (Z.eqb_neq _ _) E). intros Ev.
    destruct (shard_block_view p _ _ _ _ _ mcb mcs Hh Ev (Hreal _ Hmb) (Hreal _ Hms) Eh Esh) as (d & Hd & <-).
    congruence.
Qed.

(** C1: an account a server shows is the account of the chain. Whatever bytes it
    sent, if the read verifies against the hash of a trusted block, then the state
    the chain keeps under that block (for a shard, under the shard block the
    masterchain state records) either holds an account entry, whose account is the
    one returned, or holds none, and the account returned is the nonexistent one.
    SHA-256 is assumed not to collide on what is hashed along the way. *)
Theorem verify_account_sound read account trees block state :
  read_bytes read → verify_account p read = Ok account →
  Forall whole trees → block ∈ trees → state ∈ trees →
  home trees read block → state_hash_of block = Ok (Cell.hash state) →
  collision_free (account_hears trees read) →
  match account_of state (ar_account_id read) with
  | Ok (Found entry) => ∃ account', Account.from_cell (sae_account entry) = Ok account' ∧ account_rel same account account'
  | Ok Absent => account = Account.nonexistent
  | _ => False
  end.
Proof.
  intros (Bs & Bp & Ba) Hv Hw Hb Hs Hhome Hsh Hcf.
  set (HV := {| vetted := account_hears trees read; vetted_free := Hcf |}). rewrite Forall_forall in Hw.
  assert (∀ t, t ∈ trees → real t) as Hreal.
  { intros t Ht. split; [auto|]. intros x Hx. do 3 right. by exists t. }
  assert (heard p (ar_shard_proof read)) as H1 by (split; [done|]; by left).
  assert (heard p (ar_proof read)) as H2 by (split; [done|]; by right; left).
  assert (heard p (ar_state read)) as H3 by (split; [done|]; by do 2 right; left).
  unfold verify_account in Hv.
  destruct (if _ =? _ then _ else _) as [h0|] eqn:Eh; [|done]. eapply home_hash in Eh; [|exact H1|exact Hreal|exact Hhome].
  cbn [res_bind] in Hv.
  destruct (parse_boc p (ar_proof read)) as [roots|] eqn:Ep; [|done]. cbn [from_cell_error map_err res_bind] in Hv.
  destruct (verify_block_state roots _) as [h|] eqn:Eb; [|done]. cbn [res_bind] in Hv.
  destruct (verify_shard_state roots h) as [s|] eqn:Es; [|done]. cbn [res_bind] in Hv.
  destruct (covered_state p (ar_proof read) roots h0 block state s) as (Hview & T & Hfs); auto.
  { by rewrite Eb. }
  unfold account_of. rewrite Hfs. cbn [res_bind]. destruct s as [c]. cbn in Hview, T.
  pose proof (account_view c state (ar_account_id read) Hview T) as Ha.
  destruct (ShardState.account (MkShardState c) _) as [[entry| |]|]; [| |done..]; cbn [lview res_bind] in Ha, Hv.
  - destruct Ha as (entry' & -> & He). by eapply bind_account_view.
  - rewrite Ha. destruct (bool_decide _); [|done]. by injection Hv as <-.
Qed.
End theorems.
