(* ===== verification/Chain.v ===== *)
(** Chains of block proofs: the messages validators sign
    (core/src/proof/signature.rs), their weight and the walk along a chain
    (core/src/proof/chain.rs), over the types of core/src/tl/lite.rs and
    core/src/tl/signed.rs. *)

From stdpp Require Import base list list_numbers numbers strings.
From Stdlib Require Import ZArith Lia.
From S2P Require Import Prelude Errors Bits CellData CellHash CellModel Dict Block Search Validators Proof.

Local Open Scope Z_scope.

(** ** tl/lite.rs and tl/signed.rs *)

Record BlockIdExt : Type := MkBlockIdExt {
  id_workchain : Z;
  id_shard : Z;
  id_seqno : Z;
  id_root_hash : list Z;
  id_file_hash : list Z;
}.

#[export] Instance BlockIdExt_eq_dec : EqDecision BlockIdExt.
Proof. solve_decision. Defined.

Record Signature : Type := MkSignature { sig_node_id_short : list Z; sig_signature : list Z }.

Inductive SignatureSet : Type :=
| OrdinarySet (validator_set_hash catchain_seqno : Z) (signatures : list Signature)
| SimplexSet (cc_seqno validator_set_hash : Z) (signatures : list Signature)
    (session_id : list Z) (slot : Z) (candidate : list Z).

Module SignatureSet.
Definition signatures (self : SignatureSet) : list Signature :=
  match self with
  | OrdinarySet _ _ signatures => signatures
  | SimplexSet _ _ signatures _ _ _ => signatures
  end.
End SignatureSet.

Inductive BlockLink : Type :=
| BackLink (to_key_block : bool) (from to : BlockIdExt) (dest_proof proof state_proof : list Z)
| ForwardLink (to_key_block : bool) (from to : BlockIdExt) (dest_proof config_proof : list Z)
    (signatures : SignatureSet).

Record PartialBlockProof : Type := MkPartialBlockProof {
  pp_complete : bool;
  pp_from : BlockIdExt;
  pp_to : BlockIdExt;
  pp_steps : list BlockLink;
}.

Record BlockId : Type := MkBlockId { bi_root_cell_hash : list Z; bi_file_hash : list Z }.
Record CandidateId : Type := MkCandidateId { ci_slot : Z; ci_hash : list Z }.
Inductive Vote : Type := Notarize (id : CandidateId) | Finalize (id : CandidateId).
Inductive CandidateBlock : Type :=
| OrdinaryCandidate (block : BlockIdExt)
| EmptyCandidate (block : BlockIdExt).
Record DataToSign : Type := MkDataToSign { ds_session_id : list Z; ds_data : list Z }.

Module CandidateBlock.
Definition block (self : CandidateBlock) : BlockIdExt :=
  match self with OrdinaryCandidate block | EmptyCandidate block => block end.
End CandidateBlock.

(** The serializers and the reader the [tl_proto] package derives for these types. *)
Class TlCodec : Type := {
  tl_block_id : BlockId → list Z;
  tl_vote : Vote → list Z;
  tl_data_to_sign : DataToSign → list Z;
  read_prefix : list Z → option CandidateBlock;
}.

(** What the [curve25519_dalek] and [sha2] packages provide to the check of a signature. *)
Class Curve : Type := {
  EdwardsPoint : Type;
  Scalar : Type;
  point_eq_dec :: EqDecision EdwardsPoint;
  decompress : list Z → option EdwardsPoint;
  compress : EdwardsPoint → list Z;
  is_small_order : EdwardsPoint → bool;
  from_canonical_bytes : list Z → option Scalar;
  from_bytes_mod_order_wide : list Z → Scalar;
  vartime_double_scalar_mul_basepoint : Scalar → EdwardsPoint → Scalar → EdwardsPoint;
  point_neg : EdwardsPoint → EdwardsPoint;
  sha512 : list Z → list Z;
}.

(** ** signature.rs *)

Module signature.
Section signature.
Context `{Hasher} `{TlCodec} `{Curve}.

Definition block_id_message (root_hash file_hash : list Z) : list Z :=
  tl_block_id (MkBlockId root_hash file_hash).

Definition simplex_message (session_id : list Z) (slot : Z) (candidate : list Z) : list Z :=
  tl_data_to_sign (MkDataToSign session_id (tl_vote (Finalize (MkCandidateId slot (sha256 candidate))))).

Definition canonical_point (bytes : list Z) : option EdwardsPoint :=
  point ← decompress bytes;
  if bool_decide (compress point = bytes) then Some point else None.

Definition verify (public_key message signature : list Z) : bool :=
  if negb (len signature =? 64) then false
  else
    match get_range signature 0 32, get_range signature 32 64 with
    | Some r_bytes, Some s_bytes =>
        match canonical_point public_key with
        | None => false
        | Some a =>
            if is_small_order a then false
            else
              match canonical_point r_bytes with
              | None => false
              | Some r =>
                  if is_small_order r then false
                  else
                    match from_canonical_bytes s_bytes with
                    | None => false
                    | Some s =>
                        let k := from_bytes_mod_order_wide (sha512 (r_bytes ++ public_key ++ message)) in
                        bool_decide (vartime_double_scalar_mul_basepoint k (point_neg a) s = r)
                    end
              end
        end
    | _, _ => false
    end.
End signature.
End signature.

(** ** chain.rs *)

Definition MASTERCHAIN_SHARD : Z := 0x8000000000000000.

Record ProvenBlock : Type := MkProvenBlock {
  pb_id : BlockIdExt;
  pb_key_block : bool;
  pb_gen_utime : Z;
}.

Definition is_masterchain (id : BlockIdExt) : bool :=
  (id_workchain id =? MASTERCHAIN) && (id_shard id =? MASTERCHAIN_SHARD).

Section chain.
Context `{Hasher} `{TlCodec} `{Curve}.
Variable parallelism : Z.

Definition signed_message (set : SignatureSet) (to : BlockIdExt) : result BlockError (list Z) :=
  match set with
  | OrdinarySet _ _ _ => Ok (signature.block_id_message (id_root_hash to) (id_file_hash to))
  | SimplexSet _ _ _ session_id slot candidate =>
      let? named := ok_or (read_prefix candidate)
                      (ChainBroken "has a signed candidate that cannot be read") in
      if negb (bool_decide (CandidateBlock.block named = to))
      then Err (ChainBroken "has signatures for a block other than the one the link claims")
      else Ok (signature.simplex_message session_id slot candidate)
  end.

(** The loop over the signatures: the attempts spent, the members counted and
    their weight go along. *)
Fixpoint carried_loop (set : ValidatorSet) (budget : Z) (message : list Z)
    (signatures : list Signature) (attempts : Z) (counted : list (list Z)) (weight : Z) :
    result BlockError Z :=
  match signatures with
  | [] => Ok weight
  | entry :: signatures =>
      match ValidatorSet.find set (sig_node_id_short entry) with
      | None => carried_loop set budget message signatures attempts counted weight
      | Some validator =>
          match search id (sig_node_id_short entry) counted with
          | inl _ => carried_loop set budget message signatures attempts counted weight
          | inr at' =>
              if budget <=? attempts then Ok weight
              else
                let attempts := attempts + 1 in
                if negb (signature.verify (v_public_key validator) message (sig_signature entry))
                then carried_loop set budget message signatures attempts counted weight
                else
                  let counted := insert_at at' (sig_node_id_short entry) counted in
                  let? weight := ok_or (checked_add U64_MAX weight (v_weight validator))
                                   (BMalformed "validator weights that overflow") in
                  if ValidatorSet.carries set weight then Ok weight
                  else carried_loop set budget message signatures attempts counted weight
          end
      end
  end.

Definition carried_weight (set : ValidatorSet) (signatures : list Signature) (message : list Z) :
    result BlockError Z :=
  carried_loop set (saturating_mul USIZE_MAX (ValidatorSet.length set) 2) message signatures 0 [] 0.

Definition verify_link (link : BlockLink) (from : BlockIdExt) : result BlockError ProvenBlock :=
  match link with
  | BackLink _ _ _ _ _ _ => Err BackwardLink
  | ForwardLink to_key_block source to dest_proof config_proof signatures =>
      if negb (bool_decide (source = from))
      then Err (ChainBroken "has a link that does not start where the last one ended")
      else if negb (is_masterchain source) || negb (is_masterchain to)
      then Err (ChainBroken "has a link outside the masterchain")
      else if id_seqno to <=? id_seqno source
      then Err (ChainBroken "has a forward link that does not move forward")
      else
        let? config_block := covered_block parallelism config_proof (id_root_hash source) in
        let? config := Block.config config_block in
        let? set := ValidatorSet.from_config config in
        let? dest_block := covered_block parallelism dest_proof (id_root_hash to) in
        let? header := Block.header dest_block in
        let to_seqno := wrap 32 (id_seqno to) in
        if negb (bh_seqno header =? to_seqno) || negb (bh_workchain header =? id_workchain to)
             || negb (bh_shard header =? id_shard to)
        then Err (ChainBroken "has a destination header for a different block")
        else if negb (Bool.eqb (bh_key_block header) to_key_block)
        then Err (ChainBroken "has a destination that is not the kind of block the link says")
        else
          let? message := signed_message signatures to in
          let? carried := carried_weight set (SignatureSet.signatures signatures) message in
          if negb (ValidatorSet.carries set carried)
          then Err (NotEnoughWeight carried (ValidatorSet.total_weight set))
          else Ok (MkProvenBlock to (bh_key_block header) (bh_gen_utime header))
  end.

Definition verify_chain (anchor : BlockIdExt) (proof : PartialBlockProof) :
    result BlockError ProvenBlock :=
  if negb (bool_decide (pp_from proof = anchor))
  then Err (ChainBroken "starts at a block other than the one it was asked about")
  else if bool_decide (pp_steps proof = []) then Err (ChainBroken "has no steps")
  else
    let? proven :=
      res_fold (λ proven step,
        let from := match proven with Some block => pb_id block | None => anchor end in
        let? block := verify_link step from in Ok (Some block)) (pp_steps proof) None in
    let? last := ok_or proven (ChainBroken "has no steps") in
    if negb (bool_decide (pb_id last = pp_to proof))
    then Err (ChainBroken "ends somewhere other than it says")
    else Ok last.
End chain.
