(* ===== verification/ChainTheorems.v ===== *)
(** What a verified chain of block proofs establishes (core/src/proof/chain.rs). *)

From stdpp Require Import base list list_numbers numbers strings relations.
From Stdlib Require Import ZArith Lia.
From S2P Require Import Prelude Errors Bits CellData CellHash CellModel Binding CellSlice Merkle Dict Boc Block States Search Validators Covered CoveredProofs Proof ProofTheorems Chain.

Local Open Scope Z_scope.

Section weights.
Context `{HH : Hasher} `{TC : TlCodec} `{CV : Curve}.

(** A member of the set one of whose signatures over the message verifies. *)
Definition signed_by (set : ValidatorSet) (message : list Z) (signatures : list Signature)
    (member : list Z * Validator) : Prop :=
  member ∈ vs_members set ∧
  ∃ entry, entry ∈ signatures ∧ sig_node_id_short entry = member.1 ∧
    signature.verify (v_public_key member.2) message (sig_signature entry) = true.

(** Members, each once, that signed a message. *)
Record signers (set : ValidatorSet) (message : list Z) (signatures : list Signature)
    (who : list (list Z * Validator)) : Prop := {
  sg_distinct : NoDup who;
  sg_signed : Forall (signed_by set message signatures) who;
}.

(** More than two thirds of a set's weight signed a message. *)
Definition backed (set : ValidatorSet) (message : list Z) (signatures : list Signature) : Prop :=
  ∃ who, signers set message signatures who ∧ 2 * vs_total_weight set < 3 * weigh (snd <$> who).

Lemma weigh_nonneg l : Forall (λ v, 0 <= v_weight v <= U64_MAX) l → 0 <= weigh l.
Proof. induction 1 as [|v l Hv _ IH]; [done|]. unfold weigh in *. rewrite fmap_cons. cbn [foldr]. lia. Qed.

Lemma weigh_cons v l : weigh (v :: l) = v_weight v + weigh l.
Proof. done. Qed.

(** Distinct members of a set weigh no more than the set. *)
Lemma weigh_submembers set who :
  set_ok set → NoDup who → (∀ m, m ∈ who → m ∈ vs_members set) → 0 <= weigh (snd <$> who) <= vs_total_weight set.
Proof.
  intros Hset Hnd Hin. pose proof (so_weights _ Hset) as Hw. pose proof (so_weight _ Hset) as Ht. unfold ValidatorSet.iter in *. rewrite Ht.
  assert (who ⊆+ vs_members set) as [k Hk]%submseteq_Permutation by by apply NoDup_submseteq.
  assert (snd <$> vs_members set ≡ₚ (snd <$> who) ++ (snd <$> k)) as Hp by by rewrite Hk, fmap_app.
  rewrite Hp in Hw. apply Forall_app in Hw as [H1 H2]. rewrite (weigh_permutes _ _ Hp), weigh_app.
  pose proof (weigh_nonneg _ H1). pose proof (weigh_nonneg _ H2). lia.
Qed.

(** The state of the loop over the signatures: the ids counted so far, sorted, are
    those of members that signed, and their weight is what has been added up. *)
Record tallied (set : ValidatorSet) (message : list Z) (signatures : list Signature)
    (counted : list (list Z)) (weight : Z) (who : list (list Z * Validator)) : Prop := {
  ta_sorted : key_sorted id counted;
  ta_ids : counted ≡ₚ fst <$> who;
  ta_signed : Forall (signed_by set message signatures) who;
  ta_weight : weight = weigh (snd <$> who);
}.

Lemma tallied_distinct set message signatures counted weight who :
  tallied set message signatures counted weight who → NoDup who.
Proof.
  intros [Hs Hi _ _]. apply key_sorted_NoDup in Hs. rewrite list_fmap_id in Hs. rewrite Hi in Hs.
  by apply NoDup_fmap_1 in Hs.
Qed.

Lemma tallied_weight set message signatures counted weight who :
  set_ok set → tallied set message signatures counted weight who → 0 <= weight <= vs_total_weight set.
Proof.
  intros Hset Ht. pose proof (tallied_distinct _ _ _ _ _ _ Ht) as Hnd. destruct Ht as [_ _ Hs ->].
  apply weigh_submembers; [done..|]. rewrite Forall_forall in Hs. intros m Hm. by destruct (Hs m Hm).
Qed.

(** One more member counted. *)
Lemma tallied_insert set message signatures counted weight who entry v at' :
  set_ok set → tallied set message signatures counted weight who → entry ∈ signatures →
  ValidatorSet.find set (sig_node_id_short entry) = Some v →
  search id (sig_node_id_short entry) counted = inr at' →
  signature.verify (v_public_key v) message (sig_signature entry) = true →
  tallied set message signatures (insert_at at' (sig_node_id_short entry) counted) (weight + v_weight v)
    ((sig_node_id_short entry, v) :: who).
Proof.
  intros Hset [Hs Hi Hf ->] Hin Hv Hat Hver.
  destruct (insert_search_sorted id counted (sig_node_id_short entry) at' Hs Hat) as [Hs' Hp].
  split; [done|by rewrite Hp, Hi| |rewrite fmap_cons, weigh_cons; cbn; lia].
  constructor; [|done]. split; [|by exists entry].
  by apply find_spec; [destruct Hset|].
Qed.

(** Counting never fails, stops early only past two thirds, and the weight it
    returns is that of members that signed. *)
Lemma carried_loop_sound set budget message all signatures : ∀ attempts counted weight who,
  set_ok set → (∀ e, e ∈ signatures → e ∈ all) → tallied set message all counted weight who →
  ∃ w counted' who', carried_loop set budget message signatures attempts counted weight = Ok w ∧
    tallied set message all counted' w who'.
Proof.
  induction signatures as [|entry signatures IH]; intros attempts counted weight who Hset Hall Ht.
  { by exists weight, counted, who. }
  cbn [carried_loop]. assert (∀ e, e ∈ signatures → e ∈ all) as Hall' by (intros e He; apply Hall; by right).
  destruct (ValidatorSet.find set _) as [v|] eqn:Ef; [|by eapply IH].
  destruct (search id _ counted) as [i|at'] eqn:Es; [by eapply IH|].
  destruct (budget <=? attempts); [by exists weight, counted, who|].
  destruct (signature.verify _ _ _) eqn:Ev; [|by eapply IH]. cbn [negb].
  pose proof (tallied_insert _ _ _ _ _ _ entry v at' Hset Ht (Hall entry ltac:(by left)) Ef Es Ev) as Ht'.
  pose proof (tallied_weight _ _ _ _ _ _ Hset Ht') as Hw. pose proof (so_bound _ Hset) as Hb.
  unfold checked_add, checked. rewrite (proj2 (Z.leb_le _ U64_MAX)) by lia. cbn [ok_or res_bind].
  destruct (ValidatorSet.carries set _); [by eexists _, _, _|by eapply IH].
Qed.

(** How many entries name a member and do not verify. *)
Definition faulty (set : ValidatorSet) (message : list Z) (entry : Signature) : bool :=
  match ValidatorSet.find set (sig_node_id_short entry) with
  | Some v => negb (signature.verify (v_public_key v) message (sig_signature entry))
  | None => false
  end.
Definition faults (set : ValidatorSet) (message : list Z) (signatures : list Signature) : Z :=
  len (List.filter (faulty set message) signatures).

Lemma faults_cons set message entry signatures :
  faults set message (entry :: signatures) =
  b2z (faulty set message entry) + faults set message signatures.
Proof. unfold faults. cbn [List.filter]. destruct (faulty _ _ _); [by rewrite len_cons|done]. Qed.

Lemma member_unique set id v v' : set_ok set → (id, v) ∈ vs_members set → (id, v') ∈ vs_members set → v = v'.
Proof.
  intros Hset H1 H2. pose proof (so_sorted _ Hset) as Hs. apply (find_spec set id v Hs) in H1.
  apply (find_spec set id v' Hs) in H2. congruence.
Qed.

Lemma tallied_count set message signatures counted weight who id v :
  set_ok set → tallied set message signatures counted weight who →
  (id, v) ∈ vs_members set → ¬ id ∈ counted → len who + 1 <= ValidatorSet.length set.
Proof.
  intros Hset Ht Hm Hni. pose proof (tallied_distinct _ _ _ _ _ _ Ht) as Hnd. destruct Ht as [_ Hi Hf _].
  assert (NoDup ((id, v) :: who)) as Hnd'.
  { constructor; [|done]. intros Hin. apply Hni. rewrite Hi. apply list_elem_of_fmap. by exists (id, v). }
  assert ((id, v) :: who ⊆+ vs_members set) as Hsub.
  { apply NoDup_submseteq; [done|]. intros m [->|Hm']%elem_of_cons; [done|].
    rewrite Forall_forall in Hf. by destruct (Hf m Hm'). }
  apply submseteq_length in Hsub. unfold ValidatorSet.length, len. cbn [length] in Hsub. lia.
Qed.

(** Who one entry can stand for. *)
Lemma entry_signs set message entry m :
  set_ok set → signed_by set message [entry] m →
  ∃ v, ValidatorSet.find set (sig_node_id_short entry) = Some v ∧ m = (sig_node_id_short entry, v) ∧
    signature.verify (v_public_key v) message (sig_signature entry) = true.
Proof.
  destruct m as [i v]. intros Hset (Hm & e & ->%list_elem_of_singleton & Hid & Hv). cbn in Hid, Hv. subst i.
  exists v. split; [|done]. by apply find_spec; [destruct Hset|].
Qed.

Lemma signed_by_cons set message entry signatures m :
  signed_by set message (entry :: signatures) m →
  signed_by set message [entry] m ∨ signed_by set message signatures m.
Proof.
  intros (Hm & e & [->|He]%elem_of_cons & H).
  - left. split; [done|]. exists entry. split; [by left|done].
  - right. split; [done|]. by exists e.
Qed.

Lemma counted_member set message signatures counted weight who id v :
  set_ok set → tallied set message signatures counted weight who →
  ValidatorSet.find set id = Some v → id ∈ counted → (id, v) ∈ who.
Proof.
  intros Hset [_ Hi Hf _] Hv Hin. apply find_spec in Hv; [|by destruct Hset].
  rewrite Hi in Hin. apply list_elem_of_fmap in Hin as ([j u] & Hj & Hin). cbn in Hj. subst j.
  rewrite Forall_forall in Hf. destruct (Hf _ Hin) as [Hm _]. by rewrite (member_unique set _ v u Hset Hv Hm).
Qed.

(** Every member that signed is among those counted, or the weight carries. *)
Definition complete (set : ValidatorSet) (message : list Z) (all signatures : list Signature)
    (who : list (list Z * Validator)) (w : Z) : Prop :=
  ValidatorSet.carries set w = true ∨
  ∃ counted' who', tallied set message all counted' w who' ∧
    ∀ m, m ∈ who ∨ signed_by set message signatures m → m ∈ who'.

Lemma complete_cons set message all entry signatures who who' w :
  complete set message all signatures who' w →
  (∀ m, m ∈ who → m ∈ who') → (∀ m, signed_by set message [entry] m → m ∈ who') →
  complete set message all (entry :: signatures) who w.
Proof.
  intros [Hc|(c & wh & Htc & Hin)] Hw He; [by left|right]. exists c, wh. split; [done|].
  intros m [Hm|[Hm|Hm]%signed_by_cons]; apply Hin; auto.
Qed.

(** That is so as long as no more entries are faulty than the set has members. *)
Lemma carried_loop_complete set message all signatures : ∀ attempts counted weight who,
  set_ok set → (∀ e, e ∈ signatures → e ∈ all) → tallied set message all counted weight who →
  attempts + faults set message signatures <= len who + ValidatorSet.length set →
  ∃ w, carried_loop set (2 * ValidatorSet.length set) message signatures attempts counted weight = Ok w ∧
    complete set message all signatures who w.
Proof.
  induction signatures as [|entry signatures IH]; intros attempts counted weight who Hset Hall Ht Hle.
  { exists weight. split; [done|]. right. exists counted, who. split; [done|].
    intros m [Hm|(_ & e & He & _)]; [done|by apply not_elem_of_nil in He]. }
  assert (∀ e, e ∈ signatures → e ∈ all) as Hall' by (intros e He; apply Hall; by right).
  assert (0 <= faults set message signatures) as Hnn by apply len_nonneg.
  rewrite faults_cons in Hle. cbn [carried_loop]. unfold faulty in Hle.
  pose proof (λ m, entry_signs set message entry m Hset) as Hone.
  destruct (ValidatorSet.find set _) as [v|] eqn:Ef.
  2:{ destruct (IH attempts counted weight who) as (w & -> & Hc); [done..|]. exists w. split; [done|].
      eapply complete_cons; [exact Hc|done|]. intros m (? & [=] & _)%Hone. }
  pose proof (search_spec id (sig_node_id_short entry) counted (ta_sorted _ _ _ _ _ _ Ht)) as Hsearch.
  destruct (search id _ counted) as [i|at'] eqn:Es.
  { destruct (IH attempts counted weight who) as (w & -> & Hc); [done..| |].
    { destruct (signature.verify _ _ _); cbn in Hle; lia. }
    exists w. split; [done|]. eapply complete_cons; [exact Hc|done|]. intros m (u & [= <-] & -> & _)%Hone.
    eapply counted_member; [done..|]. destruct Hsearch as (k & Hk & <-). unfold get in Hk.
    destruct (i <? 0); [done|]. by apply list_elem_of_lookup_2 in Hk. }
  destruct Hsearch as [Hni _]. rewrite list_fmap_id in Hni.
  apply (find_spec set _ v (so_sorted _ Hset)) in Ef as Hmem.
  pose proof (tallied_count _ _ _ _ _ _ _ v Hset Ht Hmem Hni) as Hcount.
  rewrite (proj2 (Z.leb_gt (2 * ValidatorSet.length set) attempts)) by
    (destruct (signature.verify _ _ _); cbn in Hle; lia).
  destruct (signature.verify _ _ _) eqn:Ev; cbn [negb b2z] in *.
  - pose proof (tallied_insert _ _ _ _ _ _ entry v at' Hset Ht (Hall entry ltac:(by left)) Ef Es Ev) as Ht'.
    pose proof (tallied_weight _ _ _ _ _ _ Hset Ht') as Hw. pose proof (so_bound _ Hset) as Hb.
    unfold checked_add, checked. rewrite (proj2 (Z.leb_le _ U64_MAX)) by lia. cbn [ok_or res_bind].
    destruct (ValidatorSet.carries set _) eqn:Ec; [eexists; split; [done|by left]|].
    destruct (IH (attempts + 1) _ _ _ Hset Hall' Ht') as (w & -> & Hc); [rewrite len_cons; lia|].
    exists w. split; [done|]. eapply complete_cons; [exact Hc|by right|]. intros m (u & [= <-] & -> & _)%Hone. by left.
  - destruct (IH (attempts + 1) counted weight who) as (w & -> & Hc); [done..|lia|]. exists w. split; [done|].
    eapply complete_cons; [exact Hc|done|]. intros m (u & [= <-] & _ & Hv)%Hone. congruence.
Qed.

Lemma tallied_none set message signatures : tallied set message signatures [] 0 [].
Proof. split; try done. constructor. Qed.

Lemma budget_exact set :
  set_ok set → saturating_mul USIZE_MAX (ValidatorSet.length set) 2 = 2 * ValidatorSet.length set.
Proof.
  intros Hset. pose proof (so_main _ Hset). pose proof (so_total _ Hset). pose proof (so_count _ Hset).
  unfold saturating_mul, ValidatorSet.length, USIZE_MAX, U64_MAX, U16_MAX in *. lia.
Qed.

Lemma carries_spec set w : ValidatorSet.carries set w = true ↔ 2 * vs_total_weight set < 3 * w.
Proof. unfold ValidatorSet.carries. rewrite Z.ltb_lt. lia. Qed.

(** The weight returned is that of members that signed. *)
Lemma carried_weight_signed set message signatures :
  set_ok set → ∃ w who, carried_weight set signatures message = Ok w ∧ signers set message signatures who ∧
    w = weigh (snd <$> who) ∧ 0 <= w <= vs_total_weight set.
Proof.
  intros Hset. destruct (carried_loop_sound set (saturating_mul USIZE_MAX (ValidatorSet.length set) 2) message
    signatures signatures 0 [] 0 []) as (w & counted & who & Hw & Ht); [done..|apply tallied_none|].
  exists w, who. split; [done|]. split; [|split; [by destruct Ht|by eapply tallied_weight]].
  split; [by eapply tallied_distinct|by destruct Ht].
Qed.
End weights.

(** ** A link, and a chain of them *)

Section links.
Context `{HH : Hasher} `{!HasherOk HH} `{TC : TlCodec} `{CV : Curve}.
Variable p : Z.

(** One step of trust: both blocks in the masterchain, the second after the first; the
    validators that the whole first block configures signed for the second with more than
    two thirds of their weight; and the whole second block is the block its id says. *)
Record link_holds (trees : list Cell) (from to : BlockIdExt) : Prop := {
  lh_masterchain : is_masterchain from = true ∧ is_masterchain to = true;
  lh_forward : id_seqno from < id_seqno to;
  lh_signed t : t ∈ trees → Cell.hash t = id_root_hash from →
    ∃ set signatures message, validators_of t = Ok set ∧ set_ok set ∧
      signed_message signatures to = Ok message ∧ backed set message (SignatureSet.signatures signatures);
  lh_header t : t ∈ trees → Cell.hash t = id_root_hash to →
    ∃ header, header_of t = Ok header ∧ bh_seqno header = wrap 32 (id_seqno to) ∧
      bh_workchain header = id_workchain to ∧ bh_shard header = id_shard to;
}.

(** The block proven is the one its whole tree says. *)
Definition tells (trees : list Cell) (block : ProvenBlock) : Prop :=
  ∀ t, t ∈ trees → Cell.hash t = id_root_hash (pb_id block) →
    ∃ header, header_of t = Ok header ∧ bh_key_block header = pb_key_block block ∧
      bh_gen_utime header = pb_gen_utime block.

Definition link_proofs (link : BlockLink) : list (list Z) :=
  match link with
  | BackLink _ _ _ dest_proof proof state_proof => [dest_proof; proof; state_proof]
  | ForwardLink _ _ _ dest_proof config_proof _ => [dest_proof; config_proof]
  end.

Lemma config_view_set {HV : Vetted} bytes hash b config set t :
  heard p bytes → covered_block p bytes hash = Ok b → Block.config b = Ok config →
  ValidatorSet.from_config config = Ok set → real t → Cell.hash t = hash → validators_of t = Ok set.
Proof.
  intros Hb Hcb Hcfg Hset Ht Hh. destruct (covered_view p _ _ _ _ Hb Hcb Ht Hh) as (Hv & T & Hf).
  unfold validators_of. rewrite Hf. cbn [res_bind]. destruct b as [c].
  destruct (config_view c t config Hv T Hcfg) as (config' & -> & Hc). cbn [res_bind]. by apply (from_config_view config).
Qed.

Lemma header_of_view {HV : Vetted} bytes hash b header t :
  heard p bytes → covered_block p bytes hash = Ok b → Block.header b = Ok header →
  real t → Cell.hash t = hash → header_of t = Ok header.
Proof.
  intros Hb Hcb Hh Ht E. destruct (covered_view p _ _ _ _ Hb Hcb Ht E) as (Hv & T & Hf).
  unfold header_of. rewrite Hf. cbn [res_bind]. destruct b as [c]. by apply (header_view c).
Qed.

Lemma carried_backed set message signatures w :
  set_ok set → carried_weight set signatures message = Ok w → ValidatorSet.carries set w = true →
  backed set message signatures.
Proof.
  intros Hset Hw Hc%carries_spec. destruct (carried_weight_signed set message signatures Hset) as (w' & who & Hw' & Hs & -> & _).
  rewrite Hw in Hw'. injection Hw' as ->. by exists who.
Qed.

Lemma verify_link_holds {HV : Vetted} trees link from block :
  (∀ bytes, bytes ∈ link_proofs link → heard p bytes) → (∀ t, t ∈ trees → real t) →
  verify_link p link from = Ok block → link_holds trees from (pb_id block) ∧ tells trees block.
Proof.
  intros Hheard Hreal. destruct link as [|to_key_block source to dest_proof config_proof signatures]; [done|].
  assert (heard p dest_proof) as Hd by (apply Hheard; by left).
  assert (heard p config_proof) as Hcp by (apply Hheard; right; by left).
  cbn [verify_link]. destruct (bool_decide (source = from)) eqn:Es; [|done]. apply bool_decide_eq_true in Es as ->. cbn [negb].
  destruct (negb (is_masterchain from) || negb (is_masterchain to)) eqn:Em; [done|].
  apply orb_false_iff in Em as [Hm1%negb_false_iff Hm2%negb_false_iff].
  destruct (Z.leb_spec (id_seqno to) (id_seqno from)); [done|].
  destruct (covered_block p config_proof _) as [b|] eqn:Eb; [|done]. cbn [res_bind].
  destruct (Block.config b) as [config|] eqn:Ec; [|done]. cbn [res_bind].
  destruct (ValidatorSet.from_config config) as [set|] eqn:Eset; [|done]. cbn [res_bind].
  destruct (covered_block p dest_proof _) as [db|] eqn:Edb; [|done]. cbn [res_bind].
  destruct (Block.header db) as [header|] eqn:Eh; [|done]. cbn [res_bind]. cbv zeta.
  destruct (negb (bh_seqno header =? _) || _ || _) eqn:Ehd; [done|].
  apply orb_false_iff in Ehd as [[H1%negb_false_iff%Z.eqb_eq H2%negb_false_iff%Z.eqb_eq]%orb_false_iff H3%negb_false_iff%Z.eqb_eq].
  destruct (negb (Bool.eqb _ _)); [done|].
  destruct (signed_message signatures to) as [message|] eqn:Emsg; [|done]. cbn [res_bind].
  destruct (carried_weight _ _ _) as [w|] eqn:Ew; [|done]. cbn [res_bind].
  destruct (ValidatorSet.carries set w) eqn:Ecar; [|done]. cbn [negb]. intros [= <-]. cbn [pb_id].
  apply from_config_ok in Eset as Hset.
  assert (∀ t, t ∈ trees → Cell.hash t = id_root_hash to → header_of t = Ok header) as Hhdr
    by (intros t Ht E; by eapply (header_of_view dest_proof); [..|apply Hreal|]).
  split; [split; [done|lia| |]|].
  - intros t Ht E. exists set, signatures, message.
    split; [by eapply (config_view_set config_proof); [..|apply Hreal|]|]. do 2 (split; [done|]). by eapply carried_backed.
  - intros t Ht E. exists header. by rewrite (Hhdr t Ht E).
  - intros t Ht E. exists header. by rewrite (Hhdr t Ht E).
Qed.

Lemma verify_link_shape link from block :
  verify_link p link from = Ok block →
  ∃ source dest_proof config_proof signatures,
    link = ForwardLink (pb_key_block block) source (pb_id block) dest_proof config_proof signatures.
Proof.
  destruct link as [|to_key_block source to dest_proof config_proof signatures]; [done|]. cbn [verify_link].
  destruct (negb _); [done|]. destruct (_ || _); [done|]. destruct (_ <=? _); [done|].
  destruct (covered_block p config_proof _); [|done]. cbn [res_bind].
  destruct (Block.config _); [|done]. cbn [res_bind]. destruct (ValidatorSet.from_config _); [|done]. cbn [res_bind].
  destruct (covered_block p dest_proof _); [|done]. cbn [res_bind].
  destruct (Block.header _) as [header|]; [|done]. cbn [res_bind]. cbv zeta. destruct (_ || _); [done|].
  destruct (Bool.eqb (bh_key_block header) to_key_block) eqn:Ek; [|done]. apply Bool.eqb_prop in Ek as <-. cbn [negb].
  destruct (signed_message _ _); [|done]. cbn [res_bind]. destruct (carried_weight _ _ _); [|done]. cbn [res_bind].
  destruct (negb _); [done|]. intros [= <-]. by eexists _, _, _, _.
Qed.

(** A step of a chain, as what it proves and how it was reached. *)
Definition step_reached (trees : list Cell) (from : BlockIdExt) (link : BlockLink) : Prop :=
  ∃ block source dest_proof config_proof signatures,
    link = ForwardLink (pb_key_block block) source (pb_id block) dest_proof config_proof signatures ∧
    tc (link_holds trees) from (pb_id block) ∧ tells trees block.

(** The walk along the steps, from where it stands. *)
Lemma steps_hold {HV : Vetted} trees anchor steps : ∀ proven last,
  (∀ link bytes, link ∈ steps → bytes ∈ link_proofs link → heard p bytes) → (∀ t, t ∈ trees → real t) →
  res_fold (λ proven step,
    let from := match proven with Some block => pb_id block | None => anchor end in
    let? block := verify_link p step from in Ok (Some block)) steps proven = Ok (Some last) →
  let from := match proven with Some block => pb_id block | None => anchor end in
  Forall (step_reached trees from) steps ∧
  ((steps = [] ∧ proven = Some last) ∨ (tc (link_holds trees) from (pb_id last) ∧ tells trees last)).
Proof.
  induction steps as [|link steps IH]; intros proven last Hheard Hreal H from;
    [split; [done|]; left; by injection H as ->|].
  cbn [res_fold] in H. cbv zeta in H. fold from in H.
  destruct (verify_link p link from) as [block|] eqn:Ev; [|done]. cbn [res_bind] in H.
  destruct (verify_link_holds trees link from block) as [Hl Htl]; [|exact Hreal|exact Ev|].
  { intros bytes. apply Hheard. by left. }
  apply IH in H; [|intros l bytes Hin; apply Hheard; by right|exact Hreal]. cbv zeta in H. destruct H as [Hall Hend].
  split.
  - constructor.
    + destruct (verify_link_shape _ _ _ Ev) as (s & d & c & g & E). exists block, s, d, c, g.
      split; [done|]. split; [by apply tc_once|done].
    + eapply Forall_impl; [exact Hall|]. intros l (b & s & d & c & g & E & Hr & Hb). exists b, s, d, c, g.
      split; [done|]. split; [by apply (tc_l _ _ (pb_id block))|done].
  - right. destruct Hend as [[_ [= ->]]|[Hr Hlast]]; [split; [by apply tc_once|done]|].
    split; [|done]. by apply (tc_l _ _ (pb_id block)).
Qed.

Lemma verify_chain_steps {HV : Vetted} trees anchor proof last :
  (∀ link bytes, link ∈ pp_steps proof → bytes ∈ link_proofs link → heard p bytes) → (∀ t, t ∈ trees → real t) →
  verify_chain p anchor proof = Ok last →
  tc (link_holds trees) anchor (pb_id last) ∧ pb_id last = pp_to proof ∧ tells trees last ∧
  Forall (step_reached trees anchor) (pp_steps proof).
Proof.
  intros Hheard Hreal Hv. unfold verify_chain in Hv. destruct (negb (bool_decide (pp_from proof = anchor))); [done|].
  destruct (bool_decide (pp_steps proof = [])) eqn:En; [done|]. apply bool_decide_eq_false in En.
  destruct (res_fold _ _ _) as [[block|]|] eqn:Ef; [|done..]. cbn [ok_or res_bind] in Hv.
  destruct (bool_decide (pb_id block = pp_to proof)) eqn:Et; [|done]. apply bool_decide_eq_true in Et.
  injection Hv as <-. apply (steps_hold trees) in Ef as [Hall [[? _]|[Hr Htl]]]; done.
Qed.

Lemma tc_forward trees a b : tc (link_holds trees) a b → id_seqno a < id_seqno b.
Proof. induction 1 as [a b Hl|a b c Hl _ IH]; destruct Hl; lia. Qed.
End links.

(** ** What a message certifies *)

(** The encodings the protocol documents: a constructor's fields are read back from
    what is written, and a block id and a vote are written under constructors of
    their own. *)
Class TlCodecOk (TC : TlCodec) : Prop := {
  tl_block_id_inj a b : tl_block_id a = tl_block_id b → a = b;
  tl_vote_inj a b : tl_vote a = tl_vote b → a = b;
  tl_data_to_sign_inj a b : tl_data_to_sign a = tl_data_to_sign b → a = b;
  tl_apart a b : tl_block_id a ≠ tl_data_to_sign b;
}.

(** ** Theorems *)

Section theorems.
Context `{HH : Hasher} `{!HasherOk HH} `{TC : TlCodec} `{CV : Curve}.
Variable p : Z.

(** Everything hashed in checking a chain: in building the cells of its proofs, and the trees. *)
Definition chain_hears (trees : list Cell) (proof : PartialBlockProof) (x : list Z) : Prop :=
  (∃ link bytes, link ∈ pp_steps proof ∧ bytes ∈ link_proofs link ∧ told p bytes x) ∨
  ∃ t, t ∈ trees ∧ hashed t x.

Definition chain_bytes (proof : PartialBlockProof) : Prop :=
  ∀ link bytes, link ∈ pp_steps proof → bytes ∈ link_proofs link → Forall is_byte bytes.

(** C2: a chain that verifies leads from the anchor to the block it names by steps of
    trust: each from a masterchain block to a later one, whose id was signed by more
    than two thirds of the weight of the validators the whole first block configures,
    and whose header is that of the whole second block. The block proven is the
    chain's last, above the anchor, and is told as its whole tree tells it. SHA-256
    is assumed not to collide on what is hashed along the way. *)
Theorem verify_chain_sound anchor proof last trees :
  chain_bytes proof → verify_chain p anchor proof = Ok last →
  Forall whole trees → collision_free (chain_hears trees proof) →
  tc (link_holds trees) anchor (pb_id last) ∧ pb_id last = pp_to proof ∧
  id_seqno anchor < id_seqno (pb_id last) ∧ tells trees last.
Proof.
  intros Hb Hv Hw Hcf. set (HV := {| vetted := chain_hears trees proof; vetted_free := Hcf |}).
  apply (verify_chain_steps p trees) in Hv as (Hr & Ht & Htl & _).
  - split; [done|]. split; [done|]. split; [by eapply tc_forward|done].
  - intros link bytes Hl Hin. split; [by eapply Hb|]. intros x Hx. left. by exists link, bytes.
  - rewrite Forall_forall in Hw. intros t Ht. split; [auto|]. intros x Hx. right. by exists t.
Qed.

(** C32: counting signatures against a set of validators read from a configuration
    never fails, and the weight it returns is that of distinct members of the set,
    each of whom signed the message; it is never more than the set's. *)
Theorem carried_weight_sound param set message signatures :
  ValidatorSet.from_cell param = Ok set →
  ∃ w who, carried_weight set signatures message = Ok w ∧ signers set message signatures who ∧
    w = weigh (snd <$> who) ∧ 0 <= w <= vs_total_weight set.
Proof. intros Hset%from_cell_ok. by apply carried_weight_signed. Qed.

(** C33: signatures of members with more than two thirds of the weight are recognised as
    such, in any order and among any others, as long as no more entries name a member
    and fail to verify than the set has members. *)
Theorem carried_weight_tolerates param set message signatures who :
  ValidatorSet.from_cell param = Ok set →
  faults set message signatures <= ValidatorSet.length set →
  signers set message signatures who → 2 * vs_total_weight set < 3 * weigh (snd <$> who) →
  ∃ w, carried_weight set signatures message = Ok w ∧ ValidatorSet.carries set w = true.
Proof.
  intros Hset%from_cell_ok Hf [Hnd Hs] Hw. unfold carried_weight. rewrite budget_exact by done.
  destruct (carried_loop_complete set message signatures signatures 0 [] 0 [] Hset) as (w & Hr & Hc);
    [done|apply tallied_none|unfold len; cbn; lia|].
  exists w. split; [done|]. destruct Hc as [Hc|(counted & who' & Ht & Hin)]; [done|]. apply carries_spec.
  assert (who ⊆+ who') as [k Hk]%submseteq_Permutation.
  { apply NoDup_submseteq; [done|]. rewrite Forall_forall in Hs. intros m Hm. apply Hin. right. auto. }
  pose proof (ta_weight _ _ _ _ _ _ Ht) as ->. rewrite (weigh_permutes _ _ (fmap_Permutation snd _ _ Hk)), fmap_app, weigh_app.
  assert (0 <= weigh (snd <$> k)); [|lia]. apply weigh_nonneg, Forall_forall. intros v Hv.
  pose proof (so_weights _ Hset) as Hall. rewrite Forall_forall in Hall. apply Hall.
  apply list_elem_of_fmap in Hv as (m & -> & Hm). apply list_elem_of_fmap. exists m. split; [done|].
  pose proof (ta_signed _ _ _ _ _ _ Ht) as Hsg. rewrite Forall_forall in Hsg. apply Hsg. rewrite Hk. apply elem_of_app. by right.
Qed.

(** A set of validators read from a configuration has as many members as it says,
    sorted by distinct short ids, each the id of the member's key; the total is their
    weight, within a machine word; and a search by id finds the member of that id. *)
Theorem validator_set_read config set :
  ValidatorSet.from_config config = Ok set →
  set_ok set ∧ ∀ id v, ValidatorSet.find set id = Some v ↔ (id, v) ∈ vs_members set.
Proof. intros Hset%from_config_ok. split; [done|]. intros id v. apply find_spec, Hset. Qed.

(** C34: one signed message certifies one block: signature sets that call for the same
    message, claimed for two blocks, are claimed for blocks of the same root and file,
    and two votes for the same block id. *)
Theorem signed_message_binds `{!TlCodecOk TC} set1 set2 to1 to2 message :
  collision_free (λ x, ∃ a b c d e, SimplexSet a b c d e x = set1 ∨ SimplexSet a b c d e x = set2) →
  signed_message set1 to1 = Ok message → signed_message set2 to2 = Ok message →
  id_root_hash to1 = id_root_hash to2 ∧ id_file_hash to1 = id_file_hash to2.
Proof.
  intros Hcf. destruct set1 as [h1 c1 s1|a1 b1 s1 session1 slot1 x1], set2 as [h2 c2 s2|a2 b2 s2 session2 slot2 x2]; cbn.
  - intros [= <-] [= E%tl_block_id_inj]. by injection E as -> ->.
  - intros [= <-]. destruct (read_prefix x2) as [named|]; [|done]. cbn. destruct (negb _); [done|].
    intros [= E]. symmetry in E. by apply tl_apart in E.
  - destruct (read_prefix x1) as [named|]; [|done]. cbn. destruct (negb _); [done|].
    intros [= <-] [= E]. by apply tl_apart in E.
  - destruct (read_prefix x1) as [named1|] eqn:E1; [|done]. cbn.
    destruct (bool_decide (_ = to1)) eqn:D1; [|done]. apply bool_decide_eq_true in D1. intros [= <-].
    destruct (read_prefix x2) as [named2|] eqn:E2; [|done]. cbn.
    destruct (bool_decide (_ = to2)) eqn:D2; [|done]. apply bool_decide_eq_true in D2.
    intros [= E%tl_data_to_sign_inj]. injection E as _ E%tl_vote_inj. injection E as _ E. apply Hcf in E.
    + subst x2. rewrite E1 in E2. injection E2 as <-. by rewrite <- D1, <- D2.
    + eexists _, _, _, _, _. by right.
    + eexists _, _, _, _, _. by left.
Qed.
End theorems.
