(* ===== verification/Sync.v ===== *)
(** The walk of a client to the head of the chain (core/src/client/sync.rs and the
    synchronous part of core/src/client.rs), and the account read that hangs off it.
    The server and the clock are parameters: whatever they answer, round by round. *)

From stdpp Require Import base list list_numbers numbers strings.
From Stdlib Require Import ZArith Lia.
From S2P Require Import Prelude Errors Bits CellData CellHash CellModel Block States Proof Chain.

Local Open Scope Z_scope.

(** ** Errors (core/src/error.rs)

    The constructors and codes of the source. A message the model does not read is a
    string; those of the sync and of the proofs are what they are rendered from. *)

Inductive SyncFailure : Type :=
| ReplyTooLong (links : Z)
| ProofTooLarge (bytes : Z)
| TooManySignatures (count : Z)
| TooManyRounds
| TooManyLinks
| AnchorStayed (at' : Z)
| Outlasted (elapsed limit : Z)
| HeadNotAhead (target start : Z)
| ChainRefused (failure : BlockError)
| ShortOfTarget (at' target : Z)
| StoppedAtOrdinaryBlock.

Inductive ProofFailure : Type :=
| ProofRefused (failure : BlockError)
| AnchorOutsideMasterchain (workchain : Z).

Inductive Error : Type :=
| Transport (message : string)
| Handshake
| Timeout
| LiteServer (code : Z) (message : string)
| Decode (message : string)
| Address (message : string)
| Config (message : string)
| CellFailed (failure : BlockError)
| Proof (why : ProofFailure)
| Sync (why : SyncFailure)
| Stale (age_seconds limit_seconds : Z)
| ClockBehind (by_seconds tolerated_seconds : Z)
| ConnectionLost.

Inductive ErrorCode : Type :=
| CTransport | CHandshake | CTimeout | CConnectionLost | CLiteServer | CDecode | CAddress | CConfig
| CCell | CProof | CSync | CStale | CClockBehind | CInvalidArgument.

Module Error.
Definition code (self : Error) : ErrorCode :=
  match self with
  | Transport _ => CTransport
  | Handshake => CHandshake
  | Timeout => CTimeout
  | ConnectionLost => CConnectionLost
  | LiteServer _ _ => CLiteServer
  | Decode _ => CDecode
  | Address _ => CAddress
  | Config _ => CConfig
  | CellFailed _ => CCell
  | Proof _ => CProof
  | Sync _ => CSync
  | Stale _ _ => CStale
  | ClockBehind _ _ => CClockBehind
  end.

(** A read that checked nothing, and every failure of the proofs. *)
Definition decoding (error : BlockError) : Error := CellFailed error.
Definition from (error : BlockError) : Error := Proof (ProofRefused error).
End Error.

(** ** Block ids of the client (core/src/lite/types.rs)

    The wire carries a sequence number as an [i32], the client as a [u32]; both are
    the record [BlockIdExt]. *)

Definition from_wire (wire : BlockIdExt) : BlockIdExt :=
  MkBlockIdExt (id_workchain wire) (id_shard wire) (wrap 32 (id_seqno wire))
    (id_root_hash wire) (id_file_hash wire).

Definition to_wire (block : BlockIdExt) : BlockIdExt :=
  MkBlockIdExt (id_workchain block) (id_shard block) (swrap 32 (id_seqno block))
    (id_root_hash block) (id_file_hash block).

(** ** sync.rs *)

Definition MAX_LINKS_PER_REPLY : Z := 64.
Definition MAX_LINKS_PER_SYNC : Z := 4096.
Definition MAX_ROUNDS : Z := 512.
Definition MAX_PROOF_BYTES : Z := Z.shiftl 1 20.
Definition MAX_SIGNATURES : Z := 1024.
Definition MAX_CLOCK_SKEW : Z := 300.

(** A step's proofs and its signatures, as the bounds look at them. *)
Definition link_within_bounds (step : BlockLink) : result Error unit :=
  let '(dest_proof, other, signatures) :=
    match step with
    | ForwardLink _ _ _ dest_proof config_proof signatures => (dest_proof, config_proof, Some signatures)
    | BackLink _ _ _ dest_proof _ state_proof => (dest_proof, state_proof, None)
    end in
  let? _ := res_fold (λ _ proof,
    if MAX_PROOF_BYTES <? len proof then Err (Sync (ProofTooLarge (len proof))) else Ok tt)
    [dest_proof; other] tt in
  match signatures with
  | Some set =>
      let count := len (SignatureSet.signatures set) in
      if MAX_SIGNATURES <? count then Err (Sync (TooManySignatures count)) else Ok tt
  | None => Ok tt
  end.

Definition within_bounds (reply : PartialBlockProof) : result Error unit :=
  if MAX_LINKS_PER_REPLY <? len (pp_steps reply) then Err (Sync (ReplyTooLong (len (pp_steps reply))))
  else res_fold (λ _ step, link_within_bounds step) (pp_steps reply) tt.

Record SyncWalk : Type := MkSyncWalk { sw_rounds : Z; sw_links : Z }.

Module SyncWalk.
Definition new : SyncWalk := MkSyncWalk 0 0.

Definition round (links : Z) : stm SyncWalk Error unit := λ self,
  let self := MkSyncWalk (sw_rounds self + 1) (sw_links self) in
  if MAX_ROUNDS <? sw_rounds self then (Err (Sync TooManyRounds), self)
  else
    let self := MkSyncWalk (sw_rounds self) (sw_links self + links) in
    if MAX_LINKS_PER_SYNC <? sw_links self then (Err (Sync TooManyLinks), self)
    else (Ok tt, self).

Definition cost (self : SyncWalk) : Z * Z := (sw_links self, sw_rounds self).
End SyncWalk.

Record SyncReport : Type := MkSyncReport { sr_head : BlockIdExt; sr_links : Z; sr_rounds : Z }.

Definition advanced (before after : BlockIdExt) : result Error unit :=
  if id_seqno after <=? id_seqno before then Err (Sync (AnchorStayed (id_seqno before))) else Ok tt.

Definition fresh_enough (now gen_utime limit_seconds : Z) : result Error unit :=
  if saturating_add U64_MAX now MAX_CLOCK_SKEW <? gen_utime
  then Err (ClockBehind (gen_utime - now) MAX_CLOCK_SKEW)
  else
    let age := saturating_sub now gen_utime in
    if limit_seconds <? age then Err (Stale age limit_seconds) else Ok tt.

Definition worth_continuing (elapsed limit_seconds : Z) : result Error unit :=
  if limit_seconds =? 0 then Ok tt
  else if limit_seconds <? elapsed then Err (Sync (Outlasted elapsed limit_seconds)) else Ok tt.

(** ** client.rs *)

(** What a client keeps between calls. *)
Record Client : Type := MkClient {
  cl_anchor : option BlockIdExt;
  cl_init_block : option BlockIdExt;
  cl_max_head_age : Z;
}.

(** What the server and the clock say during a sync: the head it reports, its reply to
    the query of each round, the seconds the walk has taken when each round starts, and
    the time when it ends. *)
Record Network : Type := MkNetwork {
  nw_masterchain_info : result Error BlockIdExt;
  nw_block_proof : Z → BlockIdExt → BlockIdExt → result Error PartialBlockProof;
  nw_elapsed : Z → Z;
  nw_now : Z;
}.

Definition last_key_block (reply : PartialBlockProof) : option BlockIdExt :=
  head (omap (λ step, match step with
    | ForwardLink true _ to _ _ _ => Some (from_wire to)
    | _ => None
    end) (reverse (pp_steps reply))).

Section sync.
Context `{Hasher} `{TlCodec} `{Curve}.
Variable parallelism : Z.

(** The loop of [sync]. The walk counts its rounds and refuses one past [MAX_ROUNDS],
    so that many and one more are enough. *)
Fixpoint sync_loop (fuel : nat) (net : Network) (max_head_age : Z) (target anchor trusted_key_block : BlockIdExt)
    (walk : SyncWalk) : result Error (SyncReport * BlockIdExt) :=
  match fuel with
  | O => Err (Sync TooManyRounds)
  | S fuel' =>
      let? _ := worth_continuing (nw_elapsed net (sw_rounds walk)) max_head_age in
      let? reply := nw_block_proof net (sw_rounds walk) anchor target in
      let? _ := within_bounds reply in
      match SyncWalk.round (len (pp_steps reply)) walk with
      | (Err e, _) => Err e
      | (Ok _, walk) =>
          let? proven := map_err (λ failure, Sync (ChainRefused failure))
                           (verify_chain parallelism (to_wire anchor) reply) in
          let reached := from_wire (pb_id proven) in
          let? _ := advanced anchor reached in
          let trusted_key_block := default trusted_key_block (last_key_block reply) in
          let anchor := reached in
          if pp_complete reply then
            if negb (bool_decide (anchor = target))
            then Err (Sync (ShortOfTarget (id_seqno anchor) (id_seqno target)))
            else
              let? _ := fresh_enough (nw_now net) (pb_gen_utime proven) max_head_age in
              let '(links, rounds) := SyncWalk.cost walk in
              Ok (MkSyncReport anchor links rounds, trusted_key_block)
          else if negb (pb_key_block proven) then Err (Sync StoppedAtOrdinaryBlock)
          else sync_loop fuel' net max_head_age target anchor trusted_key_block walk
      end
  end.

Definition sync (net : Network) : stm Client Error SyncReport := λ self,
  match (match cl_anchor self, cl_init_block self with
         | Some anchor, _ => Ok anchor
         | None, Some init => Ok init
         | None, None => Err (Config "config names no init block to start a sync from")
         end) with
  | Err e => (Err e, self)
  | Ok start =>
      match nw_masterchain_info net with
      | Err e => (Err e, self)
      | Ok target =>
          if id_seqno target <=? id_seqno start
          then (Err (Sync (HeadNotAhead (id_seqno target) (id_seqno start))), self)
          else
            match sync_loop (S (Z.to_nat MAX_ROUNDS)) net (cl_max_head_age self) target start start SyncWalk.new with
            | Err e => (Err e, self)
            | Ok (report, trusted_key_block) =>
                (Ok report, MkClient (Some trusted_key_block) (cl_init_block self) (cl_max_head_age self))
            end
      end
  end.

(** [account_at], over the state the server answers with: the shard proof, the proof
    and the account's bytes. *)
Definition account_at (reported : result Error (list Z * list Z * list Z)) (workchain : Z)
    (account_id : list Z) (trusted : BlockIdExt) : result Error (Account * BlockIdExt) :=
  if negb (id_workchain trusted =? MASTERCHAIN) || negb (id_shard trusted =? MASTERCHAIN_SHARD)
  then Err (Proof (AnchorOutsideMasterchain (id_workchain trusted)))
  else
    let? '(shard_proof, proof, state) := reported in
    let anchor := id_root_hash trusted in
    let read :=
      if workchain =? MASTERCHAIN then AccountRead.masterchain anchor account_id proof state
      else AccountRead.in_shard anchor workchain account_id shard_proof proof state in
    let? account := map_err Error.from (verify_account parallelism read) in
    Ok (account, trusted).

Definition account (net : Network) (reported : result Error (list Z * list Z * list Z)) (workchain : Z)
    (account_id : list Z) : stm Client Error (Account * BlockIdExt) :=
  do! report <- sync net;
  st_lift (account_at reported workchain account_id (sr_head report)).
End sync.
