(* ===== verification/SyncTheorems.v ===== *)
(** What a sync establishes about the head it reports and the anchor it keeps. *)

From stdpp Require Import base list list_numbers numbers strings relations.
From Stdlib Require Import ZArith Lia.
From S2P Require Import Prelude Errors Bits CellData CellHash CellModel Binding Boc Block States Validators Covered Proof ProofTheorems Chain ChainTheorems Sync.

Local Open Scope Z_scope.

(** A sequence number that came off the wire: an [i32]. *)
Definition wire_typed (id : BlockIdExt) : Prop := - 2 ^ 31 <= id_seqno id < 2 ^ 31.

Definition reply_typed (reply : PartialBlockProof) : Prop :=
  wire_typed (pp_to reply) ∧
  ∀ key_block from to dest_proof config_proof signatures,
    ForwardLink key_block from to dest_proof config_proof signatures ∈ pp_steps reply → wire_typed to.

Lemma to_from_wire id : wire_typed id → to_wire (from_wire id) = id.
Proof.
  destruct id as [w s n r f]. unfold wire_typed, to_wire, from_wire, swrap, wrap. cbn. intros Hn. f_equal.
  change (2 ^ (32 - 1)) with 2147483648. change (2 ^ 32) with 4294967296. change (2 ^ 31) with 2147483648 in Hn. zdiv.
Qed.

Section sync.
Context `{HH : Hasher} `{!HasherOk HH} `{TC : TlCodec} `{CV : Curve}.
Variable p : Z.
Variable trees : list Cell.

(** One id leads to another by the steps of trust of verified chains. *)
Definition leads (from to : BlockIdExt) : Prop := tc (link_holds trees) (to_wire from) (to_wire to).

(** The whole block of an id is a key block. *)
Definition key_block_of (id : BlockIdExt) : Prop :=
  ∀ t, t ∈ trees → Cell.hash t = id_root_hash id →
    ∃ header, header_of t = Ok header ∧ bh_key_block header = true.

(** The whole block of an id was made within the age allowed, by a clock, and not
    after it by more than the skew allowed. *)
Definition fresh (now limit : Z) (id : BlockIdExt) : Prop :=
  ∀ t, t ∈ trees → Cell.hash t = id_root_hash id →
    ∃ header, header_of t = Ok header ∧
      bh_gen_utime header <= now + MAX_CLOCK_SKEW ∧ now - bh_gen_utime header <= limit.

(** The block a sync keeps to start from next time: where it started, or a key block on the way. *)
Definition trusted_from (start kept : BlockIdExt) : Prop :=
  kept = start ∨ leads start kept ∧ key_block_of kept.

Lemma fresh_enough_inv now gen_utime limit :
  0 <= limit → fresh_enough now gen_utime limit = Ok tt →
  gen_utime <= now + MAX_CLOCK_SKEW ∧ now - gen_utime <= limit.
Proof.
  unfold fresh_enough, saturating_add, saturating_sub. intros Hl.
  destruct (Z.ltb_spec (Z.min U64_MAX (now + MAX_CLOCK_SKEW)) gen_utime); [done|].
  destruct (Z.ltb_spec limit (Z.max 0 (now - gen_utime))); [done|]. lia.
Qed.

(** The last key block of a reply is the destination of one of its links. *)
Lemma last_key_block_inv reply key :
  last_key_block reply = Some key →
  ∃ from to dest_proof config_proof signatures,
    ForwardLink true from to dest_proof config_proof signatures ∈ pp_steps reply ∧ key = from_wire to.
Proof.
  unfold last_key_block. intros Hk.
  match type of Hk with head ?l = _ => assert (key ∈ l) as Hin by (destruct l; simplify_eq/=; by left) end.
  apply list_elem_of_omap in Hin as (step & Hin & Hs). rewrite elem_of_reverse in Hin.
  destruct step as [|[] from to dest_proof config_proof signatures]; try done. injection Hs as <-.
  by exists from, to, dest_proof, config_proof, signatures.
Qed.

Context {HV : Vetted}.
Hypothesis Hreal : ∀ t, t ∈ trees → real t.

(** What one reply that passes establishes. *)
Lemma reply_holds anchor reply proven :
  (∀ link bytes, link ∈ pp_steps reply → bytes ∈ link_proofs link → heard p bytes) → reply_typed reply →
  verify_chain p (to_wire anchor) reply = Ok proven →
  leads anchor (from_wire (pb_id proven)) ∧ tells trees proven ∧
  ∀ key, last_key_block reply = Some key → leads anchor key ∧ key_block_of key.
Proof.
  intros Hh [Hto Hst] Hv. apply (verify_chain_steps p trees) in Hv as (Hr & Et & Htl & Hall); [|done..].
  unfold leads. rewrite to_from_wire by by rewrite Et. do 2 (split; [done|]).
  intros key (from & to & d & c & g & Hin & ->)%last_key_block_inv.
  rewrite to_from_wire by by eapply Hst. rewrite Forall_forall in Hall.
  destruct (Hall _ Hin) as (block & s & d' & c' & g' & E & Hr' & Htb). injection E as Ek _ -> _ _ _.
  split; [done|]. intros t Ht Eh. cbn in Eh. destruct (Htb t Ht Eh) as (h & Hh' & Hkb & _).
  exists h. split; [done|]. by rewrite Hkb, <- Ek.
Qed.

(** The loop, from any point of a walk that has kept what it should. *)
Lemma sync_loop_holds net limit target start fuel : ∀ anchor trusted walk report kept,
  (∀ r a reply, nw_block_proof net r a target = Ok reply → reply_typed reply ∧
     ∀ link bytes, link ∈ pp_steps reply → bytes ∈ link_proofs link → heard p bytes) →
  0 <= limit → anchor = start ∨ leads start anchor → trusted_from start trusted → id_seqno start <= id_seqno anchor →
  0 <= sw_rounds walk → 0 <= sw_links walk →
  sync_loop p fuel net limit target anchor trusted walk = Ok (report, kept) →
  leads start (sr_head report) ∧ sr_head report = target ∧ id_seqno start < id_seqno (sr_head report) ∧
  trusted_from start kept ∧ fresh (nw_now net) limit (sr_head report) ∧
  sr_rounds report <= MAX_ROUNDS ∧ sr_links report <= MAX_LINKS_PER_SYNC.
Proof.
  induction fuel as [|fuel IH]; intros anchor trusted walk report kept Hnet Hlim Ha Ht Hseq Hwr Hwl H; [done|].
  cbn [sync_loop] in H. destruct (worth_continuing _ _); [|done]. cbn [res_bind] in H.
  destruct (nw_block_proof net _ anchor target) as [reply|] eqn:Er; [|done]. cbn [res_bind] in H.
  destruct (Hnet _ _ _ Er) as [Htyped Hheard].
  destruct (within_bounds reply); [|done]. cbn [res_bind] in H.
  destruct (SyncWalk.round _ walk) as [[u|] walk'] eqn:Ew; [|done].
  unfold SyncWalk.round in Ew. cbv zeta in Ew. cbn [sw_rounds sw_links] in Ew.
  destruct (Z.ltb_spec MAX_ROUNDS (sw_rounds walk + 1)); [done|].
  destruct (Z.ltb_spec MAX_LINKS_PER_SYNC (sw_links walk + len (pp_steps reply))); [done|].
  injection Ew as _ <-. pose proof (len_nonneg (pp_steps reply)).
  destruct (verify_chain p (to_wire anchor) reply) as [proven|] eqn:Ev; [|done]. cbn [map_err res_bind] in H. cbv zeta in H.
  destruct (reply_holds _ _ _ Hheard Htyped Ev) as (Hl & Htl & Hkey).
  set (reached := from_wire (pb_id proven)) in *. unfold advanced in H.
  destruct (Z.leb_spec (id_seqno reached) (id_seqno anchor)); [done|]. cbn [res_bind] in H.
  assert (∀ b, leads anchor b → leads start b) as Htrans.
  { intros b Hb. destruct Ha as [->|Ha]; [done|]. unfold leads in *. by etrans. }
  assert (trusted_from start (default trusted (last_key_block reply))) as Ht'.
  { destruct (last_key_block reply) as [key|]; [|done]. destruct (Hkey key eq_refl). right. split; [by apply Htrans|done]. }
  destruct (pp_complete reply).
  - destruct (bool_decide (reached = target)) eqn:Ereach; [|done]. apply bool_decide_eq_true in Ereach. cbn [negb] in H.
    destruct (fresh_enough _ _ _) as [[]|] eqn:Ef; [|done]. cbn [res_bind SyncWalk.cost sw_links sw_rounds] in H.
    injection H as <- <-. cbn [sr_head sr_links sr_rounds]. apply fresh_enough_inv in Ef as [F1 F2]; [|done].
    split; [by apply Htrans|]. split; [done|]. split; [lia|]. split; [done|]. split; [|lia].
    intros t Htr Eh. destruct (Htl t Htr) as (h & Hh & _ & Hg); [done|]. exists h. by rewrite Hg.
  - destruct (negb (pb_key_block proven)); [done|].
    apply IH in H; cbn [sw_rounds sw_links]; try done || lia. right. by apply Htrans.
Qed.
End sync.

(** ** Termination *)

Section rounds.
Context `{HH : Hasher} `{TC : TlCodec} `{CV : Curve}.

(** A walk of so many rounds has at most that many fewer to go. *)
Lemma sync_loop_fuel p net limit target fuel : ∀ fuel' anchor trusted walk,
  0 <= sw_rounds walk <= MAX_ROUNDS → MAX_ROUNDS - sw_rounds walk < Z.of_nat fuel → (fuel <= fuel')%nat →
  sync_loop p fuel' net limit target anchor trusted walk = sync_loop p fuel net limit target anchor trusted walk.
Proof.
  induction fuel as [|fuel IH]; intros fuel' anchor trusted walk Hr Hf Hle; [lia|].
  destruct fuel' as [|fuel']; [lia|]. cbn [sync_loop].
  destruct (worth_continuing _ _); [|done]. cbn [res_bind].
  destruct (nw_block_proof net _ anchor target) as [reply|]; [|done]. cbn [res_bind].
  destruct (within_bounds reply); [|done]. cbn [res_bind].
  destruct (SyncWalk.round _ walk) as [[u|] walk'] eqn:Ew; [|done].
  unfold SyncWalk.round in Ew. cbv zeta in Ew. cbn [sw_rounds sw_links] in Ew.
  destruct (Z.ltb_spec MAX_ROUNDS (sw_rounds walk + 1)); [done|].
  destruct (_ <? _); [done|]. injection Ew as _ <-.
  destruct (map_err _ _) as [proven|]; [|done]. cbn [res_bind]. cbv zeta.
  destruct (advanced _ _); [|done]. cbn [res_bind]. destruct (pp_complete reply); [done|].
  destruct (negb (pb_key_block proven)); [done|]. apply IH; cbn [sw_rounds]; lia.
Qed.
End rounds.

(** ** Theorems *)

Section theorems.
Context `{HH : Hasher} `{!HasherOk HH} `{TC : TlCodec} `{CV : Curve}.
Variable p : Z.

(** The block a client starts a sync from. *)
Definition start_of (self : Client) : option BlockIdExt :=
  match cl_anchor self with Some anchor => Some anchor | None => cl_init_block self end.

(** Every reply the network gives is made of bytes and of typed ids. *)
Definition network_typed (net : Network) : Prop :=
  ∀ round anchor target reply, nw_block_proof net round anchor target = Ok reply →
    reply_typed reply ∧ chain_bytes reply.

(** Everything hashed in a sync: in building the cells of any reply's proofs, and the trees. *)
Definition sync_hears (trees : list Cell) (net : Network) (x : list Z) : Prop :=
  (∃ round anchor target reply link bytes, nw_block_proof net round anchor target = Ok reply ∧
     link ∈ pp_steps reply ∧ bytes ∈ link_proofs link ∧ told p bytes x) ∨
  ∃ t, t ∈ trees ∧ hashed t x.

(** C3: whatever a server answers in whatever round, a sync that succeeds has proven the
    head it reports, the one the server named, by steps of trust from the client's
    anchor; that block is later than the anchor, and by the local clock no older than
    the client allows and no further ahead than the skew allowed. The anchor the
    client keeps is the old one or a key block proven on the way. No sync checks more
    links or takes more replies than its bounds, and one that fails changes nothing. *)
Theorem sync_sound net self start trees :
  start_of self = Some start → 0 <= cl_max_head_age self → network_typed net →
  Forall whole trees → collision_free (sync_hears trees net) →
  match sync p net self with
  | (Ok report, self') =>
      leads trees start (sr_head report) ∧ nw_masterchain_info net = Ok (sr_head report) ∧
      id_seqno start < id_seqno (sr_head report) ∧
      fresh trees (nw_now net) (cl_max_head_age self) (sr_head report) ∧
      (∃ kept, cl_anchor self' = Some kept ∧ trusted_from trees start kept) ∧
      sr_rounds report <= MAX_ROUNDS ∧ sr_links report <= MAX_LINKS_PER_SYNC
  | (Err _, self') => self' = self
  end.
Proof.
  intros Hstart Hlim Hnet Hw Hcf. set (HV := {| vetted := sync_hears trees net; vetted_free := Hcf |}).
  assert (∀ t, t ∈ trees → real t) as Hreal.
  { rewrite Forall_forall in Hw. intros t Ht. split; [auto|]. intros x Hx. right. by exists t. }
  unfold sync. assert (match cl_anchor self, cl_init_block self with
    | Some anchor, _ => Ok anchor | None, Some init => Ok init | None, None => Err (Config "config names no init block to start a sync from") end = Ok start) as ->.
  { unfold start_of in Hstart. destruct (cl_anchor self), (cl_init_block self); congruence. }
  destruct (nw_masterchain_info net) as [target|]; [|done].
  destruct (Z.leb_spec (id_seqno target) (id_seqno start)); [done|].
  destruct (sync_loop _ _ _ _ _ _ _ _) as [[report kept]|] eqn:El; [|done].
  apply (sync_loop_holds p trees Hreal net _ target start) in El as (Hl & Eh & Hs & Hk & Hf & Hr & Hlk);
    [..|done|by left|by left|lia|done|done].
  - split; [done|]. split; [by rewrite Eh|]. split; [done|]. split; [done|]. split; [|done]. by exists kept.
  - intros r a reply Er. destruct (Hnet _ _ _ _ Er) as [Ht Hb]. split; [done|]. intros link bytes Hin Hby.
    split; [by eapply Hb|]. intros x Hx. left. by exists r, a, target, reply, link, bytes.
Qed.

(** C39: a sync ends: a walk takes no more rounds than its bound, whatever the server
    answers, so rounds beyond those the client provides for would change nothing. *)
Theorem sync_terminates net limit target start fuel :
  (S (Z.to_nat MAX_ROUNDS) <= fuel)%nat →
  sync_loop p fuel net limit target start start SyncWalk.new =
  sync_loop p (S (Z.to_nat MAX_ROUNDS)) net limit target start start SyncWalk.new.
Proof. intros Hf. apply sync_loop_fuel; [done|cbn [SyncWalk.new sw_rounds]; unfold MAX_ROUNDS; lia|done]. Qed.
End theorems.
