(* ===== verification/Address.v ===== *)
(** Account addresses as text: core/src/address.rs and the decoders of
    core/src/codec.rs it reads with. *)

From stdpp Require Import base list list_numbers numbers strings.
From Stdlib Require Import ZArith Lia.
From S2P Require Import Prelude Errors Bits Codec Sync.

Local Open Scope Z_scope.

(** ** codec.rs

    A [&str] is the list of its bytes; a decoder that answers [None] is an [option]. *)

Module codec.
Definition sextet (c : Z) : option Z :=
  if between 65 c 90 then Some (c - 65)
  else if between 97 c 122 then Some (c - 97 + 26)
  else if between 48 c 57 then Some (c - 48 + 52)
  else if (c =? 43) || (c =? 45) then Some 62
  else if (c =? 47) || (c =? 95) then Some 63
  else None.

(** The loop over the body: [acc] and [bits] are what is not yet out. *)
Fixpoint decode_loop (body out : list Z) (acc bits : Z) : option (list Z * Z * Z) :=
  match body with
  | [] => Some (out, acc, bits)
  | c :: body =>
      match sextet c with
      | None => None
      | Some digit =>
          let acc := Z.lor (shl 32 acc 6) digit in
          let bits := bits + 6 in
          if 8 <=? bits
          then let bits := bits - 8 in decode_loop body (out ++ [wrap 8 (Z.shiftr acc bits)]) acc bits
          else decode_loop body out acc bits
      end
  end.

Definition base64_decode (input : list Z) : option (list Z) :=
  if negb (len input mod 4 =? 0) then None
  else
    let padding := leading_pads (reverse input) in
    match get_range input 0 (len input - padding) with
    | None => None
    | Some body =>
        if (2 <? padding) || bool_decide (PAD ∈ body) then None
        else
          match decode_loop body [] 0 0 with
          | None => None
          | Some (out, acc, bits) =>
              if negb (Z.land acc (Z.shiftl 1 bits - 1) =? 0) then None else Some out
          end
    end.

Definition crc16_shift (crc : Z) : Z :=
  if negb (Z.land crc 0x8000 =? 0) then Z.lxor (shl 16 crc 1) 0x1021 else shl 16 crc 1.

Definition crc16 (data : list Z) : Z :=
  fold_left (λ crc byte, Nat.iter 8 crc16_shift (Z.lxor crc (shl 16 byte 8))) data 0.

Definition decode_hex (input : list Z) : option (list Z) :=
  match hex_decode input with Ok bytes => Some bytes | Err _ => None end.
End codec.

(** ** [i32::from_str], of the standard library *)

Definition COLON : Z := 58.
Definition PLUS : Z := 43.
Definition MINUS : Z := 45.

Definition digit_value (c : Z) : option Z := if between 48 c 57 then Some (c - 48) else None.

(** Digits in a row, the number leaving [-2^31 .. 2^31) at no point. *)
Fixpoint parse_digits (negative : bool) (digits : list Z) (value : Z) : option Z :=
  match digits with
  | [] => Some value
  | c :: digits =>
      match digit_value c with
      | None => None
      | Some digit =>
          let value := if negative then 10 * value - digit else 10 * value + digit in
          if (- 2 ^ 31 <=? value) && (value <? 2 ^ 31) then parse_digits negative digits value else None
      end
  end.

Definition parse_i32 (text : list Z) : option Z :=
  match text with
  | [] => None
  | c :: digits =>
      if ((c =? PLUS) || (c =? MINUS)) && bool_decide (digits = []) then None
      else if c =? PLUS then parse_digits false digits 0
      else if c =? MINUS then parse_digits true digits 0
      else parse_digits false text 0
  end.

(** [str::split_once], at the first of a character. *)
Fixpoint split_once (c : Z) (text : list Z) : option (list Z * list Z) :=
  match text with
  | [] => None
  | x :: text =>
      if x =? c then Some ([], text)
      else match split_once c text with Some (before, after) => Some (x :: before, after) | None => None end
  end.

(** [<[u8; N]>::try_from] *)
Definition sized (n : Z) (bytes : list Z) : option (list Z) := if len bytes =? n then Some bytes else None.

(** ** address.rs *)

Definition ADDRESS_TAG : Z := 0x11.
Definition TEST_ONLY : Z := 0x80.
Definition NON_BOUNCEABLE : Z := 0x40.

Record Address : Type := MkAddress {
  a_workchain : Z;
  a_account_id : list Z;
  a_bounceable : bool;
  a_test_only : bool;
}.

Module Address.
Definition parse_raw (workchain account : list Z) : result Error Address :=
  let? workchain := ok_or (parse_i32 workchain) (Sync.Address "invalid workchain") in
  let? account_id := ok_or (codec.decode_hex account ≫= sized 32) (Sync.Address "account id is not 32 hex bytes") in
  Ok (MkAddress workchain account_id true false).

Definition parse_user_friendly (s : list Z) : result Error Address :=
  let? raw := ok_or (codec.base64_decode s ≫= sized 36) (Sync.Address "not a 36-byte user-friendly address") in
  let byte i := default 0 (get raw i) in
  let stored := [byte 34; byte 35] in
  if negb (bool_decide (to_be_bytes 2 (codec.crc16 (take 34 raw)) = stored))
  then Err (Sync.Address "address checksum mismatch")
  else
    let tag := byte 0 in
    if negb (Z.land tag (Z.land (Z.lnot (Z.lor TEST_ONLY NON_BOUNCEABLE)) 0xFF) =? ADDRESS_TAG)
    then Err (Sync.Address "unknown address tag")
    else
      Ok (MkAddress (swrap 8 (byte 1)) (take 32 (drop 2 raw))
            (Z.land tag NON_BOUNCEABLE =? 0) (negb (Z.land tag TEST_ONLY =? 0))).

Definition parse (s : list Z) : result Error Address :=
  match split_once COLON s with
  | Some (workchain, account) => parse_raw workchain account
  | None => parse_user_friendly s
  end.

Definition workchain (self : Address) : Z := a_workchain self.
Definition account_id (self : Address) : list Z := a_account_id self.
Definition is_bounceable (self : Address) : bool := a_bounceable self.
Definition is_test_only (self : Address) : bool := a_test_only self.

Definition eqb (self other : Address) : bool :=
  (a_workchain self =? a_workchain other) && bool_decide (a_account_id self = a_account_id other).
End Address.

(** The example of the crate's documentation, and its spelling in the other alphabet. *)
Definition bytes_of (text : string) : list Z := (λ a, Z.of_N (Ascii.N_of_ascii a)) <$> String.list_ascii_of_string text.

Example parse_example :
  match Address.parse (bytes_of "EQD8uRo6OBbQ97jCx2EIuKm8Wmt6Vb15-KsQHFLbKSMiYM0w"),
        Address.parse (bytes_of "EQD8uRo6OBbQ97jCx2EIuKm8Wmt6Vb15+KsQHFLbKSMiYM0w") with
  | Ok a, Ok b => Address.eqb a b && (Address.workchain a =? 0) && Address.is_bounceable a = true
  | _, _ => False
  end.
Proof. vm_compute. reflexivity. Qed.
Example crc16_example : codec.crc16 (bytes_of "123456789") = 0x31C3.
Proof. vm_compute. reflexivity. Qed.
