(* ===== verification/AddressTheorems.v ===== *)
(** Addresses as text: the two base64 decoders agree, every address has one
    user-friendly spelling up to the alphabet, and the checksum catches what people
    get wrong. *)

From stdpp Require Import base list list_numbers numbers strings.
From Stdlib Require Import ZArith Lia.
From S2P Require Import Prelude Errors Bits Codec Sync Address.

Local Open Scope Z_scope.

#[local] Arguments uint_bits : simpl never.
#[local] Arguments codec.crc16_shift : simpl never.

(** ** The checksum as a shift register over bits *)

Definition word16 (s : Z) : Prop := 0 <= s < 2 ^ 16.

Definition crc_bits (s : Z) (bs : list bool) : Z :=
  fold_left (λ s b, codec.crc16_shift (Z.lxor s (b2z b * 2 ^ 15))) bs s.

Lemma word_high s i : word16 s → 16 <= i → Z.testbit s i = false.
Proof. intros Hs Hi. rewrite <- (Z.mod_small s (2 ^ 16)) by done. by apply Z.mod_pow2_bits_high. Qed.

Lemma word_intro s : 0 <= s → (∀ i, 16 <= i → Z.testbit s i = false) → word16 s.
Proof.
  intros Hs Hi. assert (s = s mod 2 ^ 16) as ->; [|apply Z.mod_pos_bound; lia].
  apply Z.bits_inj'. intros i _. destruct (Z.lt_ge_cases i 16).
  - by rewrite Z.mod_pow2_bits_low.
  - by rewrite Z.mod_pow2_bits_high, Hi.
Qed.

Lemma word_ext s t : (∀ i, 0 <= i → Z.testbit s i = Z.testbit t i) → s = t.
Proof. apply Z.bits_inj'. Qed.

Lemma lxor_word s t : word16 s → word16 t → word16 (Z.lxor s t).
Proof.
  intros Hs Ht. apply word_intro; [apply Z.lxor_nonneg; unfold word16 in *; lia|].
  intros i Hi. rewrite Z.lxor_spec, (word_high s), (word_high t); done.
Qed.

Lemma bit_8_top s : word16 s → (Z.land s 0x8000 =? 0) = negb (Z.testbit s 15).
Proof.
  intros Hs. assert (Z.land s 0x8000 = if Z.testbit s 15 then 0x8000 else 0) as ->; [|by destruct (Z.testbit s 15)].
  apply word_ext. intros i Hi. rewrite Z.land_spec. change 0x8000 with (2 ^ 15). rewrite Z.pow2_bits_eqb by lia.
  destruct (Z.eqb_spec 15 i) as [<-|]; destruct (Z.testbit s 15);
    rewrite ?Z.pow2_bits_true, ?Z.pow2_bits_false, ?Z.bits_0, ?andb_false_r, ?andb_true_r by lia; done.
Qed.

(** A round of the register, bit by bit. *)
Lemma shift_bit s i : word16 s → 0 <= i →
  Z.testbit (codec.crc16_shift s) i =
    xorb ((i <? 16) && Z.testbit s (i - 1)) (Z.testbit s 15 && Z.testbit 0x1021 i).
Proof.
  intros Hs Hi. assert (Z.testbit (shl 16 s 1) i = (i <? 16) && Z.testbit s (i - 1)) as E.
  { unfold shl, wrap. destruct (Z.ltb_spec i 16).
    - rewrite Z.mod_pow2_bits_low, Z.shiftl_spec by lia. done.
    - by rewrite Z.mod_pow2_bits_high. }
  unfold codec.crc16_shift. rewrite bit_8_top by done. destruct (Z.testbit s 15); cbn [negb]; rewrite ?Z.lxor_spec, E; [done|].
  by rewrite xorb_false_r.
Qed.

Lemma shift_word s : word16 s → word16 (codec.crc16_shift s).
Proof.
  intros Hs. apply word_intro.
  - unfold codec.crc16_shift. assert (0 <= shl 16 s 1) by (apply Z.mod_pos_bound; lia).
    destruct (negb _); [apply Z.lxor_nonneg; lia|done].
  - intros i Hi. rewrite shift_bit by (done || lia). rewrite (proj2 (Z.ltb_ge i 16)) by lia.
    rewrite (word_high 0x1021) by (unfold word16; lia). by rewrite andb_false_r.
Qed.

Lemma shift_lxor s t : word16 s → word16 t →
  codec.crc16_shift (Z.lxor s t) = Z.lxor (codec.crc16_shift s) (codec.crc16_shift t).
Proof.
  intros Hs Ht. apply word_ext. intros i Hi. rewrite Z.lxor_spec, !shift_bit by (done || by apply lxor_word).
  rewrite !Z.lxor_spec. destruct (i <? 16), (Z.testbit s (i - 1)), (Z.testbit t (i - 1)), (Z.testbit s 15), (Z.testbit t 15), (Z.testbit 0x1021 i); done.
Qed.

(** The polynomial has a constant term, so a round loses nothing. *)
Lemma shift_inj s t : word16 s → word16 t → codec.crc16_shift s = codec.crc16_shift t → s = t.
Proof.
  intros Hs Ht E. assert (∀ i, 0 <= i → Z.testbit (codec.crc16_shift s) i = Z.testbit (codec.crc16_shift t) i) as Hi by by rewrite E.
  assert (Z.testbit s 15 = Z.testbit t 15) as Htop.
  { specialize (Hi 0 ltac:(lia)). rewrite !shift_bit in Hi by (done || lia). rewrite (Z.testbit_neg_r s), (Z.testbit_neg_r t) in Hi by lia.
    change (Z.testbit 0x1021 0) with true in Hi. by destruct (Z.testbit s 15), (Z.testbit t 15). }
  apply word_ext. intros i H0. destruct (Z.lt_ge_cases i 15) as [H15|H15].
  - specialize (Hi (i + 1) ltac:(lia)). rewrite !shift_bit, Htop in Hi by (done || lia).
    rewrite (proj2 (Z.ltb_lt (i + 1) 16)) in Hi by lia. replace (i + 1 - 1) with i in Hi by lia.
    by destruct (Z.testbit s i), (Z.testbit t i), (Z.testbit t 15 && _).
  - destruct (decide (i = 15)) as [->|]; [done|]. by rewrite (word_high s), (word_high t) by (done || lia).
Qed.

Lemma shift_low s : 0 <= s < 2 ^ 15 → codec.crc16_shift s = 2 * s.
Proof.
  intros Hs. unfold codec.crc16_shift. assert (Z.testbit s 15 = false) as E.
  { rewrite <- (Z.mod_small s (2 ^ 15)) by done. by apply Z.mod_pow2_bits_high. }
  rewrite bit_8_top, E by (unfold word16; lia). cbn [negb]. unfold shl, wrap. rewrite Z.shiftl_mul_pow2 by lia.
  rewrite Z.mod_small; lia.
Qed.

Lemma iter_shift_word n s : word16 s → word16 (Nat.iter n codec.crc16_shift s).
Proof. intros Hs. induction n; [done|]. cbn [Nat.iter nat_rect]. by apply shift_word. Qed.

Lemma iter_shift_inj n s t :
  word16 s → word16 t → Nat.iter n codec.crc16_shift s = Nat.iter n codec.crc16_shift t → s = t.
Proof.
  intros Hs Ht. induction n as [|n IH]; [done|]. cbn [Nat.iter nat_rect]. intros E%shift_inj; [auto|by apply iter_shift_word..].
Qed.

(** Bits fed to the register are bits added at its top. *)
Lemma crc_bits_word bs : ∀ s,
  word16 s → (length bs <= 16)%nat →
  crc_bits s bs = Nat.iter (length bs) codec.crc16_shift (Z.lxor s (bits_uint bs * 2 ^ (16 - len bs))).
Proof.
  induction bs as [|b bs IH]; intros s Hs Hl.
  { change (bits_uint []) with 0. rewrite Z.mul_0_l. cbn. by rewrite Z.lxor_0_r. }
  cbn [length] in Hl. pose proof (bits_uint_range bs) as Hr. pose proof (len_nonneg bs) as Hn.
  assert (len bs <= 15) as Hb by (unfold len; lia). set (n := len bs) in *.
  assert (0 < 2 ^ n ∧ 0 < 2 ^ (15 - n) ∧ 2 ^ n * 2 ^ (15 - n) = 2 ^ 15) as (P1 & P2 & P3).
  { rewrite <- Z.pow_add_r by lia. replace (n + (15 - n)) with 15 by lia. repeat split; apply Z.pow_pos_nonneg; lia. }
  set (low := bits_uint bs * 2 ^ (15 - n)) in *. assert (0 <= low < 2 ^ 15) as Hlow by (unfold low; nia).
  assert (word16 (Z.lxor s (b2z b * 2 ^ 15))) as Ht by (apply lxor_word; [done|unfold word16; destruct b; cbn; lia]).
  cbn [crc_bits fold_left]. fold (crc_bits (codec.crc16_shift (Z.lxor s (b2z b * 2 ^ 15))) bs).
  rewrite IH by (by apply shift_word || lia). fold n. cbn [length]. rewrite Nat.iter_succ_r. f_equal.
  rewrite len_cons. fold n. replace (16 - (1 + n)) with (15 - n) by lia.
  replace (bits_uint (b :: bs) * 2 ^ (15 - n)) with (b2z b * 2 ^ 15 + low)
    by (rewrite bits_uint_cons, <- P3; unfold low; fold n; ring).
  replace (16 - n) with (1 + (15 - n)) by lia. rewrite Z.pow_add_r by lia.
  replace (bits_uint bs * (2 ^ 1 * 2 ^ (15 - n))) with (2 * low) by (unfold low; lia).
  rewrite <- shift_low, <- shift_lxor by (done || unfold word16; lia). f_equal. rewrite Z.lxor_assoc. f_equal.
  symmetry. apply Z.add_nocarry_lxor. apply word_ext. intros i Hi. rewrite Z.land_spec, Z.bits_0.
  destruct b; cbn [b2z]; rewrite ?Z.mul_0_l, ?Z.bits_0, ?Z.mul_1_l; [|done].
  destruct (decide (i = 15)) as [->|]; [|by rewrite Z.pow2_bits_false by lia].
  rewrite <- (Z.mod_small low (2 ^ 15)), Z.mod_pow2_bits_high by lia. by rewrite andb_false_r.
Qed.

Lemma crc_bits_app s b1 b2 : crc_bits s (b1 ++ b2) = crc_bits (crc_bits s b1) b2.
Proof. unfold crc_bits. by rewrite fold_left_app. Qed.

Lemma crc_bits_closed s bs : word16 s → word16 (crc_bits s bs).
Proof.
  revert s. induction bs as [|b bs IH]; intros s Hs; [done|]. apply IH, shift_word, lxor_word; [done|].
  unfold word16. destruct b; cbn; lia.
Qed.

Lemma crc_bits_inj bs s t : word16 s → word16 t → crc_bits s bs = crc_bits t bs → s = t.
Proof.
  revert s t. induction bs as [|b bs IH]; intros s t Hs Ht E; [done|].
  assert (word16 (b2z b * 2 ^ 15)) as Hb by (unfold word16; destruct b; cbn; lia).
  apply IH in E; [|by apply shift_word, lxor_word..]. apply shift_inj in E; [|by apply lxor_word..].
  apply (f_equal (λ x, Z.lxor x (b2z b * 2 ^ 15))) in E. rewrite !Z.lxor_assoc, Z.lxor_nilpotent, !Z.lxor_0_r in E. done.
Qed.

Lemma crc16_bits data : Forall is_byte data → codec.crc16 data = crc_bits 0 (bytes_bits data).
Proof.
  unfold codec.crc16. assert (word16 0) as H0 by (unfold word16; lia). revert H0. generalize 0 as s.
  induction data as [|b data IH]; intros s Hs Hd; [done|]. apply Forall_cons in Hd as [Hb Hd]. unfold is_byte in Hb.
  rewrite bytes_bits_cons, crc_bits_app. cbn [fold_left]. rewrite (crc_bits_word (uint_bits 8 b)) by (done || (rewrite length_uint_bits; lia)).
  rewrite length_uint_bits, len_uint_bits, bits_uint_uint_bits, Z.mod_small by lia.
  replace (shl 16 b 8) with (b * 2 ^ (16 - Z.of_nat 8)) by (unfold shl, wrap; rewrite Z.shiftl_mul_pow2, Z.mod_small by lia; lia). apply IH; [|done].
  apply iter_shift_word, lxor_word; [done|]. unfold word16. lia.
Qed.

(** A run of bytes followed by its checksum leaves the register clear, and nothing
    else after it does. *)
Lemma crc_residue s check : word16 s → word16 check → crc_bits s (uint_bits 16 check) = 0 ↔ check = s.
Proof.
  intros Hs Hc. rewrite crc_bits_word by (done || (rewrite length_uint_bits; lia)).
  rewrite length_uint_bits, len_uint_bits, bits_uint_uint_bits, Z.mod_small by done.
  change (2 ^ (16 - Z.of_nat 16)) with 1. rewrite Z.mul_1_r.
  assert (Nat.iter 16 codec.crc16_shift 0 = 0) as E0 by (vm_compute; done). split.
  - intros E. rewrite <- E0 in E. apply iter_shift_inj in E; [by apply Z.lxor_eq in E|by apply lxor_word|unfold word16; lia].
  - intros ->. by rewrite Z.lxor_nilpotent.
Qed.

(** Two runs of bits of one checksum that differ only within sixteen bits are one. *)
Lemma crc_burst p x y q :
  length x = length y → (length x <= 16)%nat → crc_bits 0 (p ++ x ++ q) = crc_bits 0 (p ++ y ++ q) → x = y.
Proof.
  intros Hl Hx E. assert (word16 0) as H0 by (unfold word16; lia). rewrite !crc_bits_app in E.
  pose proof (crc_bits_closed 0 p H0) as Hp. apply crc_bits_inj in E; [|by apply crc_bits_closed..].
  assert (length y <= 16)%nat as Hy by lia.
  rewrite (crc_bits_word x), (crc_bits_word y), Hl in E by done.
  assert (∀ z, (length z <= 16)%nat → word16 (bits_uint z * 2 ^ (16 - len z))) as Hw.
  { intros z Hz. pose proof (bits_uint_range z). assert (2 ^ len z * 2 ^ (16 - len z) = 2 ^ 16) as P.
    { rewrite <- Z.pow_add_r by (unfold len; lia). f_equal. lia. }
    assert (0 < 2 ^ (16 - len z)) by (apply Z.pow_pos_nonneg; unfold len; lia). unfold word16. nia. }
  apply iter_shift_inj in E; [|apply lxor_word; [done|apply Hw; lia]..].
  assert (len x = len y) as Hlen by (unfold len; lia). rewrite Hlen in E.
  apply (f_equal (Z.lxor (crc_bits 0 p))) in E. rewrite <- !Z.lxor_assoc, Z.lxor_nilpotent, !Z.lxor_0_l in E.
  apply bits_uint_inj; [done|]. assert (0 < 2 ^ (16 - len y)) by (apply Z.pow_pos_nonneg; unfold len; lia). nia.
Qed.

(** ** The two decoders *)

(** A character of either alphabet, in the standard one. *)
Definition standard (c : Z) : Z := if c =? 45 then 43 else if c =? 95 then 47 else c.

Definition to_option {E A} (r : result E A) : option A := match r with Ok a => Some a | Err _ => None end.

Lemma sextet_standard c : codec.sextet c = to_option (sextet (standard c)).
Proof.
  unfold standard. destruct (Z.eqb_spec c 45) as [->|]; [done|]. destruct (Z.eqb_spec c 95) as [->|]; [done|].
  unfold codec.sextet, sextet. destruct (between 65 c 90), (between 97 c 122), (between 48 c 57); try done.
  rewrite (proj2 (Z.eqb_neq c 45)), (proj2 (Z.eqb_neq c 95)), !orb_false_r by done.
  by destruct (c =? 43), (c =? 47).
Qed.

Lemma sextet_range c v : codec.sextet c = Some v → 0 <= v < 64.
Proof.
  unfold codec.sextet, between. intros H.
  repeat match type of H with (if ?b then _ else _) = _ => destruct b eqn:? end; try done; injection H as <-; lia.
Qed.

Lemma push_six acc d : 0 <= d < 64 → Z.lor (shl 32 acc 6) d = (acc mod 67108864) * 64 + d.
Proof.
  intros Hd. unfold shl, wrap. rewrite Z.shiftl_mul_pow2 by lia. change (2 ^ 32) with (67108864 * 2 ^ 6).
  rewrite Z.mul_mod_distr_r by lia. change 64 with (2 ^ 6). set (a := acc mod _).
  rewrite <- Z.lxor_lor, <- Z.add_nocarry_lxor; [done|..]; apply word_ext; intros i Hi; rewrite Z.land_spec, Z.bits_0;
    (destruct (Z.lt_ge_cases i 6);
     [by rewrite Z.mul_pow2_bits_low|rewrite <- (Z.mod_small d (2 ^ 6)), (Z.mod_pow2_bits_high d) by lia; apply andb_false_r]).
Qed.

(** What is left of a loop when the text ends. *)
Definition finish (r : option (list Z * Z * Z)) : option (list Z) :=
  match r with
  | Some (out, acc, bits) => if negb (Z.land acc (Z.shiftl 1 bits - 1) =? 0) then None else Some out
  | None => None
  end.

Lemma loop_step c body out acc bits :
  codec.decode_loop (c :: body) out acc bits =
    match codec.sextet c with
    | None => None
    | Some d =>
        let acc := Z.lor (shl 32 acc 6) d in
        if 8 <=? bits + 6
        then codec.decode_loop body (out ++ [wrap 8 (Z.shiftr acc (bits + 6 - 8))]) acc (bits + 6 - 8)
        else codec.decode_loop body out acc (bits + 6)
    end.
Proof. done. Qed.

Ltac next_sextet d H :=
  match goal with |- context [codec.sextet ?c] => rewrite (sextet_standard c) end;
  let E := fresh "E" in
  match goal with |- context [sextet ?c] => destruct (sextet c) as [d|] eqn:E; [|done] end;
  match type of E with sextet (standard ?c) = _ => assert (0 <= d < 64) as H by (apply (sextet_range c); by rewrite sextet_standard, E) end;
  clear E; cbn [to_option res_bind]; rewrite (push_six _ d H).

(** Four characters at the start of a quantum. *)
Lemma loop_quantum c1 c2 c3 c4 body out acc :
  match decode_quantum (standard <$> [c1; c2; c3; c4]) with
  | Ok bytes => ∃ acc', codec.decode_loop (c1 :: c2 :: c3 :: c4 :: body) out acc 0 = codec.decode_loop body (out ++ bytes) acc' 0
  | Err _ => codec.decode_loop (c1 :: c2 :: c3 :: c4 :: body) out acc 0 = None
  end.
Proof.
  cbn [fmap list_fmap decode_quantum]. rewrite loop_step. next_sextet d1 H1.
  change (8 <=? 0 + 6) with false. cbv zeta iota. change (0 + 6) with 6. rewrite loop_step. next_sextet d2 H2.
  change (8 <=? 6 + 6) with true. cbv zeta iota. change (6 + 6 - 8) with 4. rewrite loop_step. next_sextet d3 H3.
  change (8 <=? 4 + 6) with true. cbv zeta iota. change (4 + 6 - 8) with 2. rewrite loop_step. next_sextet d4 H4.
  change (8 <=? 2 + 6) with true. cbv zeta iota. change (2 + 6 - 8) with 0.
  eexists. rewrite <- !app_assoc. cbn [app]. f_equal. f_equal.
  rewrite dec_first, dec_second, dec_third by done. unfold wrap. rewrite !Z.shiftr_div_pow2 by lia.
  change (2 ^ 8) with 256; change (2 ^ 4) with 16; change (2 ^ 2) with 4; change (2 ^ 0) with 1.
  f_equal; [zdiv|]. f_equal; [zdiv|]. f_equal. zdiv.
Qed.

Lemma loop_rest2 c1 c2 out acc :
  finish (codec.decode_loop [c1; c2] out acc 0) = (λ bytes, out ++ bytes) <$> to_option (decode_quantum (standard <$> [c1; c2])).
Proof.
  cbn [fmap list_fmap decode_quantum]. rewrite loop_step. next_sextet d1 H1.
  change (8 <=? 0 + 6) with false. cbv zeta iota. change (0 + 6) with 6. rewrite loop_step. next_sextet d2 H2.
  change (8 <=? 6 + 6) with true. cbv zeta iota. change (6 + 6 - 8) with 4. cbn [codec.decode_loop finish].
  change (Z.shiftl 1 4 - 1) with (Z.ones 4). change 15 with (Z.ones 4). rewrite !Z.land_ones by lia. change (2 ^ 4) with 16.
  replace (((acc mod 67108864 * 64 + d1) mod 67108864 * 64 + d2) mod 16) with (d2 mod 16) by zdiv.
  destruct (negb _); [done|]. cbn [to_option option_fmap option_map fmap]. do 3 f_equal.
  rewrite dec_first by done. unfold wrap. rewrite Z.shiftr_div_pow2 by lia. change (2 ^ 8) with 256; change (2 ^ 4) with 16. zdiv.
Qed.

Lemma loop_rest3 c1 c2 c3 out acc :
  finish (codec.decode_loop [c1; c2; c3] out acc 0) = (λ bytes, out ++ bytes) <$> to_option (decode_quantum (standard <$> [c1; c2; c3])).
Proof.
  cbn [fmap list_fmap decode_quantum]. rewrite loop_step. next_sextet d1 H1.
  change (8 <=? 0 + 6) with false. cbv zeta iota. change (0 + 6) with 6. rewrite loop_step. next_sextet d2 H2.
  change (8 <=? 6 + 6) with true. cbv zeta iota. change (6 + 6 - 8) with 4. rewrite loop_step. next_sextet d3 H3.
  change (8 <=? 4 + 6) with true. cbv zeta iota. change (4 + 6 - 8) with 2. cbn [codec.decode_loop finish].
  change (Z.shiftl 1 2 - 1) with (Z.ones 2). change 3 with (Z.ones 2). rewrite !Z.land_ones by lia. change (2 ^ 2) with 4.
  set (acc2 := (acc mod 67108864 * 64 + d1) mod 67108864 * 64 + d2).
  replace ((acc2 mod 67108864 * 64 + d3) mod 4) with (d3 mod 4) by zdiv.
  destruct (negb _); [done|]. cbn [to_option option_fmap option_map fmap]. rewrite <- app_assoc. cbn [app]. do 2 f_equal. subst acc2.
  rewrite dec_first, dec_second by done. unfold wrap. rewrite !Z.shiftr_div_pow2 by lia.
  change (2 ^ 8) with 256; change (2 ^ 4) with 16; change (2 ^ 2) with 4. f_equal; [zdiv|]. f_equal. zdiv.
Qed.

Lemma loop_quanta body : ∀ out acc,
  (length body mod 4 ≠ 1)%nat →
  finish (codec.decode_loop body out acc 0) =
    (λ bytes, out ++ bytes) <$> to_option (collect decode_quantum (chunks 4 (standard <$> body))).
Proof.
  pattern body. apply (chunk_ind 4); clear body; [lia|intros l Hl out acc Hm|intros q l Hq IH out acc Hm].
  - destruct l as [|c1 [|c2 [|c3 [|]]]]; cbn [length] in *; try lia; [|done|..].
    + cbn. change (Z.shiftl 1 0 - 1) with 0. by rewrite Z.land_0_r, app_nil_r.
    + rewrite loop_rest2, chunks_short by (done || (cbn; lia)). cbn [collect].
      destruct (decode_quantum _); [|done]. cbn. by rewrite app_nil_r.
    + rewrite loop_rest3, chunks_short by (done || (cbn; lia)). cbn [collect].
      destruct (decode_quantum _); [|done]. cbn. by rewrite app_nil_r.
  - rewrite length_app, Hq in Hm. assert (length l mod 4 ≠ 1)%nat as Hm'.
    { replace (4 + length l)%nat with (length l + 1 * 4)%nat in Hm by lia. by rewrite Nat.Div0.mod_add in Hm. }
    rewrite fmap_app, chunks_full by (lia || by rewrite length_fmap). cbn [collect].
    destruct q as [|c1 [|c2 [|c3 [|c4 [|]]]]]; try done. cbn [app].
    pose proof (loop_quantum c1 c2 c3 c4 l out acc) as Hstep. destruct (decode_quantum _) as [bytes|e].
    + destruct Hstep as [acc' ->]. rewrite IH by done. cbn [res_bind].
      destruct (collect _ _); [|done]. cbn. by rewrite app_assoc.
    + rewrite Hstep. done.
Qed.

Lemma loop_pad body : ∀ out acc bits, PAD ∈ body → codec.decode_loop body out acc bits = None.
Proof.
  induction body as [|c body IH]; intros out acc bits Hin; [by apply elem_of_nil in Hin|]. rewrite loop_step.
  apply elem_of_cons in Hin as [<-|Hin]; [done|]. destruct (codec.sextet c); [|done]. cbv zeta. destruct (8 <=? _); by apply IH.
Qed.

Lemma pads_standard l : leading_pads (standard <$> l) = leading_pads l.
Proof.
  induction l as [|c l IH]; [done|]. cbn [fmap list_fmap leading_pads]. rewrite IH.
  assert ((standard c =? PAD) = (c =? PAD)) as ->; [|done]. unfold standard, PAD.
  destruct (Z.eqb_spec c 45) as [->|]; [done|]. by destruct (Z.eqb_spec c 95) as [->|].
Qed.

Lemma get_range_fmap {A B} (f : A → B) l a b : get_range (f <$> l) a b = fmap (M:=list) f <$> get_range l a b.
Proof.
  unfold get_range, len. rewrite length_fmap. destruct (_ && _); [|done]. cbn. by rewrite fmap_take, fmap_drop.
Qed.

Lemma pads_bound l : 0 <= leading_pads l <= len l.
Proof.
  destruct (leading_pads_split l) as (n & l' & -> & ->). rewrite len_app. pose proof (len_nonneg l').
  unfold len at 1. rewrite length_replicate. lia.
Qed.

Lemma decoders_same s : codec.base64_decode s = to_option (base64_decode (standard <$> s)).
Proof.
  unfold codec.base64_decode, base64_decode. rewrite <- fmap_reverse, pads_standard.
  assert (len (standard <$> s) = len s) as -> by (unfold len; by rewrite length_fmap).
  destruct (Z.eqb_spec (len s mod 4) 0) as [Hm|]; [|done]. cbn [negb]. cbv zeta.
  rewrite get_range_fmap. pose proof (pads_bound (reverse s)) as Hp. unfold len in Hp at 1. rewrite length_reverse in Hp.
  fold (len s) in Hp. set (padding := leading_pads (reverse s)) in *.
  destruct (get_range s 0 (len s - padding)) as [body|] eqn:Eb.
  2:{ cbn. by destruct (2 <? padding). }
  cbn [option_fmap option_map fmap ok_or]. destruct (Z.ltb_spec 2 padding); [done|]. cbn [orb].
  assert (len body = len s - padding) as Hl.
  { unfold get_range in Eb. destruct (_ && _); [|done]. injection Eb as <-. rewrite drop_0. unfold len in *. rewrite length_take. lia. }
  cbn [res_bind]. fold (finish (codec.decode_loop body [] 0 0)).
  assert (length body mod 4 ≠ 1)%nat as Hm4.
  { intros E. apply (f_equal Z.of_nat) in E. rewrite Nat2Z.inj_mod in E. change (Z.of_nat 4) with 4 in E. change (Z.of_nat 1) with 1 in E.
    fold (len body) in E. rewrite Hl in E. zdiv. }
  pose proof (loop_quanta body [] 0 Hm4) as Hq. case_bool_decide as Hpad.
  - rewrite (loop_pad body [] 0 0 Hpad) in Hq. cbn [finish] in Hq. destruct (collect _ _); [|done]. by cbn in Hq.
  - rewrite Hq. by destruct (collect _ _).
Qed.

(** ** The bits of a text *)

Definition sval (c : Z) : Z := match sextet c with Ok v => v | Err _ => 0 end.
Definition text_bits (text : list Z) : list bool := concat ((λ c, uint_bits 6 (sval c)) <$> text).

Lemma text_bits_app l1 l2 : text_bits (l1 ++ l2) = text_bits l1 ++ text_bits l2.
Proof. unfold text_bits. by rewrite fmap_app, concat_app. Qed.

Lemma length_text_bits l : length (text_bits l) = (6 * length l)%nat.
Proof.
  unfold text_bits. induction l as [|c l IH]; [done|]. cbn [fmap list_fmap concat length]. rewrite length_app, length_uint_bits, IH. lia.
Qed.

Lemma digit_bits v : 0 <= v < 256 → uint_bits 6 (sval (digit v)) = uint_bits 6 v.
Proof. intros Hv. unfold sval. rewrite sextet_digit by done. change 64 with (2 ^ 6). by apply uint_bits_mod. Qed.

Lemma quantum_bits a b c :
  Forall is_byte [a; b; c] → text_bits (encode_chunk [a; b; c]) = bytes_bits [a; b; c].
Proof.
  intros H. b64_bytes. cbn [encode_chunk take replicate app Nat.add Nat.sub]. unfold text_bits, bytes_bits.
  cbn [fmap list_fmap concat]. autorewrite with b64. rewrite !digit_bits by zdiv. apply bits_uint_inj; [done|].
  rewrite !bits_uint_app, !bits_uint_uint_bits, !len_app, !len_uint_bits. change (len (A:=bool) []) with 0. change (bits_uint []) with 0.
  change (2 ^ Z.of_nat 6) with 64. change (2 ^ Z.of_nat 8) with 256.
  change (2 ^ (Z.of_nat 6 + (Z.of_nat 6 + (Z.of_nat 6 + 0)))) with 262144. change (2 ^ (Z.of_nat 6 + (Z.of_nat 6 + 0))) with 4096.
  change (2 ^ (Z.of_nat 6 + 0)) with 64. change (2 ^ (Z.of_nat 8 + (Z.of_nat 8 + 0))) with 65536. change (2 ^ (Z.of_nat 8 + 0)) with 256.
  change (2 ^ 0) with 1. zdiv.
Qed.

Lemma encode_bits bytes :
  Forall is_byte bytes → (length bytes mod 3 = 0)%nat → text_bits (base64_encode bytes) = bytes_bits bytes.
Proof.
  pattern bytes. apply (chunk_ind 3); clear bytes; [lia|intros l Hl Hb Hm|intros q l Hq IH Hb Hm].
  - by destruct l as [|? [|? [|]]]; cbn in *; try lia.
  - apply Forall_app in Hb as [Hbq Hb]. rewrite base64_encode_full, text_bits_app, bytes_bits_app by done.
    destruct q as [|a [|b [|c [|]]]]; try done. rewrite quantum_bits by done. f_equal. apply IH; [done|].
    rewrite length_app, Hq in Hm. replace (3 + length l)%nat with (length l + 1 * 3)%nat in Hm by lia.
    by rewrite Nat.Div0.mod_add in Hm.
Qed.

Lemma text_bits_inj l1 l2 :
  length l1 = length l2 → Forall (λ c, is_byte c ∧ is_ok (sextet c) = true) l1 → Forall (λ c, is_byte c ∧ is_ok (sextet c) = true) l2 →
  text_bits l1 = text_bits l2 → l1 = l2.
Proof.
  revert l2. induction l1 as [|c1 l1 IH]; intros [|c2 l2] Hl H1 H2 E; try done.
  apply Forall_cons in H1 as [[B1 O1] H1], H2 as [[B2 O2] H2]. change (c1 :: l1) with ([c1] ++ l1) in E.
  change (c2 :: l2) with ([c2] ++ l2) in E. rewrite !text_bits_app in E. apply app_inj_1 in E as [Ec El]; [|done].
  f_equal; [|apply IH; [by injection Hl|done..]]. unfold text_bits in Ec. cbn [fmap list_fmap concat] in Ec. rewrite !app_nil_r in Ec.
  unfold sval in Ec. destruct (sextet c1) as [v1|] eqn:E1; [|done]. destruct (sextet c2) as [v2|] eqn:E2; [|done].
  apply digit_sextet in E1 as (R1 & <- & _); [|done]. apply digit_sextet in E2 as (R2 & <- & _); [|done].
  f_equal. apply (f_equal bits_uint) in Ec. by rewrite !uint_bits_id in Ec.
Qed.

(** ** What a user-friendly address spells *)

Definition tag_of (a : Address) : Z :=
  Z.lor ADDRESS_TAG (Z.lor (if a_bounceable a then 0 else NON_BOUNCEABLE) (if a_test_only a then TEST_ONLY else 0)).

(** The thirty-six bytes of an address: tag, workchain, account, checksum. *)
Definition friendly (a : Address) : list Z :=
  let body := tag_of a :: wrap 8 (a_workchain a) :: a_account_id a in
  body ++ to_be_bytes 2 (codec.crc16 body).

Definition friendly_ok (a : Address) : Prop :=
  - 128 <= a_workchain a < 128 ∧ len (a_account_id a) = 32 ∧ Forall is_byte (a_account_id a).

Lemma crc16_word data : Forall is_byte data → word16 (codec.crc16 data).
Proof. intros Hd. rewrite crc16_bits by done. apply crc_bits_closed. unfold word16. lia. Qed.

Lemma tag_byte a : is_byte (tag_of a).
Proof. unfold tag_of. by destruct (a_bounceable a), (a_test_only a). Qed.

Lemma friendly_bytes a : friendly_ok a → Forall is_byte (friendly a) ∧ length (friendly a) = 36%nat.
Proof.
  intros (Hw & Hl & Hb). unfold friendly. cbv zeta. split.
  - apply Forall_app. split; [|apply to_be_bytes_bytes]. constructor; [apply tag_byte|]. constructor; [|done].
    apply Z.mod_pos_bound. lia.
  - rewrite length_app, length_to_be_bytes. unfold len in Hl. cbn [length]. lia.
Qed.

Lemma two_bytes_bits v : 0 <= v < 2 ^ 16 → bytes_bits (to_be_bytes 2 v) = uint_bits 16 v.
Proof.
  intros Hv. change 16%nat with (8 + 8)%nat. rewrite uint_bits_app. cbn [to_be_bytes app].
  rewrite bytes_bits_cons. unfold bytes_bits. cbn [fmap list_fmap concat]. rewrite app_nil_r. change (2 ^ Z.of_nat 8) with 256.
  f_equal; change 256 with (2 ^ 8); by rewrite uint_bits_mod.
Qed.

Lemma friendly_checks a : friendly_ok a → crc_bits 0 (bytes_bits (friendly a)) = 0.
Proof.
  intros Hok. unfold friendly. cbv zeta. set (body := tag_of a :: _).
  assert (Forall is_byte body) as Hb.
  { destruct (friendly_bytes a Hok) as [H _]. unfold friendly in H. cbv zeta in H. by apply Forall_app in H as [H _]. }
  pose proof (crc16_word body Hb) as Hw. rewrite bytes_bits_app, two_bytes_bits, crc_bits_app, <- crc16_bits by done.
  by apply crc_residue.
Qed.

Lemma tag_cases t : is_byte t →
  (Z.land t (Z.land (Z.lnot (Z.lor TEST_ONLY NON_BOUNCEABLE)) 0xFF) =? ADDRESS_TAG) = true →
  ∀ w id, tag_of (MkAddress w id (Z.land t NON_BOUNCEABLE =? 0) (negb (Z.land t TEST_ONLY =? 0))) = t.
Proof.
  intros Ht Htag w id. revert Htag. unfold tag_of. cbn [a_bounceable a_test_only].
  enough (negb (Z.land t (Z.land (Z.lnot (Z.lor TEST_ONLY NON_BOUNCEABLE)) 0xFF) =? ADDRESS_TAG) ||
    (Z.lor ADDRESS_TAG (Z.lor (if Z.land t NON_BOUNCEABLE =? 0 then 0 else NON_BOUNCEABLE)
       (if negb (Z.land t TEST_ONLY =? 0) then TEST_ONLY else 0)) =? t) = true) as H.
  { intros E. rewrite E in H. by apply Z.eqb_eq in H. }
  revert t Ht. unfold is_byte. enum1.
Qed.

Lemma tag_reads a :
  (Z.land (tag_of a) (Z.land (Z.lnot (Z.lor TEST_ONLY NON_BOUNCEABLE)) 0xFF) =? ADDRESS_TAG) = true ∧
  (Z.land (tag_of a) NON_BOUNCEABLE =? 0) = a_bounceable a ∧ negb (Z.land (tag_of a) TEST_ONLY =? 0) = a_test_only a.
Proof. unfold tag_of. by destruct (a_bounceable a), (a_test_only a). Qed.

(** The reader of thirty-six bytes, on their parts. *)
Lemma friendly_parts s t w account c1 c2 :
  len account = 32 → split_once COLON s = None → codec.base64_decode s = Some ((t :: w :: account) ++ [c1; c2]) →
  Address.parse s =
    if negb (bool_decide (to_be_bytes 2 (codec.crc16 (t :: w :: account)) = [c1; c2])) then Err (Sync.Address "address checksum mismatch")
    else if negb (Z.land t (Z.land (Z.lnot (Z.lor TEST_ONLY NON_BOUNCEABLE)) 0xFF) =? ADDRESS_TAG)
    then Err (Sync.Address "unknown address tag")
    else Ok (MkAddress (swrap 8 w) account (Z.land t NON_BOUNCEABLE =? 0) (negb (Z.land t TEST_ONLY =? 0))).
Proof.
  intros Hl Hc Hd. unfold Address.parse. rewrite Hc. unfold Address.parse_user_friendly. rewrite Hd.
  assert (len (t :: w :: account) = 34) as H34 by (rewrite !len_cons, Hl; done).
  assert (len ((t :: w :: account) ++ [c1; c2]) = 36) as H36 by (rewrite len_app, H34; done).
  assert (take 34 ((t :: w :: account) ++ [c1; c2]) = t :: w :: account) as T by (apply take_app_length'; unfold len in H34; lia).
  assert (take 32 (drop 2 ((t :: w :: account) ++ [c1; c2])) = account) as A
    by (cbn [app drop]; apply take_app_length'; unfold len in Hl; lia).
  assert (get ((t :: w :: account) ++ [c1; c2]) 34 = Some c1) as G1 by by rewrite get_app_r, H34 by lia.
  assert (get ((t :: w :: account) ++ [c1; c2]) 35 = Some c2) as G2 by by rewrite get_app_r, H34 by lia.
  assert (get ((t :: w :: account) ++ [c1; c2]) 0 = Some t ∧ get ((t :: w :: account) ++ [c1; c2]) 1 = Some w) as [G3 G4] by done.
  revert H36 T A G1 G2 G3 G4. generalize ((t :: w :: account) ++ [c1; c2]). intros raw H36 T A G1 G2 G3 G4.
  cbn [option_bind mbind]. unfold sized. rewrite H36. cbn [Z.eqb Pos.eqb ok_or res_bind]. cbv zeta.
  by rewrite T, A, G1, G2, G3, G4.
Qed.

Lemma split_raw (raw : list Z) :
  len raw = 36 → ∃ t w id c1 c2, raw = (t :: w :: id) ++ [c1; c2] ∧ len id = 32.
Proof.
  intros Hl. unfold len in Hl. destruct raw as [|t [|w rest]]; cbn [length] in Hl; [lia..|].
  assert (length (drop 32 rest) = 2%nat) as Hd by (rewrite length_drop; lia).
  destruct (drop 32 rest) as [|c1 [|c2 [|]]] eqn:Ed; try done.
  exists t, w, (take 32 rest), c1, c2. split; [cbn; by rewrite <- Ed, take_drop|]. unfold len. rewrite length_take. lia.
Qed.

Lemma split_once_in c s : split_once c s = None ↔ c ∉ s.
Proof.
  induction s as [|x s IH]; cbn [split_once]; [split; [by intros _ ?%elem_of_nil|done]|].
  rewrite elem_of_cons. destruct (Z.eqb_spec x c) as [->|]; [split; [done|intros H; destruct H; by left]|].
  destruct (split_once c s) as [[]|]; [split; [done|]; intros H; destruct IH as [_ IH]; exfalso; assert (c ∉ s) by tauto; by discriminate IH|].
  split; [|done]. intros _ [?|?]; [congruence|]. by apply IH.
Qed.

Lemma wrap_swrap_byte w : is_byte w → wrap 8 (swrap 8 w) = w ∧ - 128 <= swrap 8 w < 128.
Proof. unfold is_byte, wrap, swrap. change (2 ^ 8) with 256. change (2 ^ (8 - 1)) with 128. intros. zdiv. Qed.

Lemma swrap_wrap_byte w : - 128 <= w < 128 → swrap 8 (wrap 8 w) = w.
Proof. intros. unfold wrap. rewrite swrap_mod by lia. by apply swrap_small. Qed.

Lemma hex_decode_length text bytes : hex_decode text = Ok bytes → length text = (2 * length bytes)%nat.
Proof.
  unfold hex_decode. destruct (negb _); [done|]. revert bytes. pattern text.
  apply (chunk_ind 2); clear text; [lia|intros l Hl bytes|intros q l Hq IH bytes].
  - destruct l as [|c [|]]; cbn [length] in Hl; [|done|lia]. cbn. by intros [= <-].
  - rewrite chunks_full by (done || lia). intros (out & rest & H1 & H2 & ->)%collect_cons_inv.
    rewrite !length_app, (IH _ H2), Hq. destruct q as [|h [|l' [|]]]; try done. cbn [hex_pair] in H1. inv_res. cbn. lia.
Qed.

(** A raw address is longer than a user-friendly one. *)
Lemma colon_raw_long s workchain account a :
  split_once COLON s = Some (workchain, account) → Address.parse_raw workchain account = Ok a → (64 < length s)%nat.
Proof.
  intros Hs Hp. assert (length s = S (length workchain + length account)) as ->.
  { clear Hp. revert workchain Hs. induction s as [|x s IH]; intros workchain Hs; [done|]. cbn [split_once] in Hs.
    destruct (x =? COLON); [injection Hs as <- <-; done|]. destruct (split_once COLON s) as [[b c]|]; [|done].
    injection Hs as <- ->. cbn [length]. by rewrite (IH b). }
  unfold Address.parse_raw in Hp. inv_res. unfold codec.decode_hex in *.
  destruct (hex_decode account) as [bytes|] eqn:Eh; [|done]. apply hex_decode_length in Eh as ->.
  cbn [option_bind mbind] in *. unfold sized in *. destruct (Z.eqb_spec (len bytes) 32) as [E|]; [|done]. unfold len in E. lia.
Qed.

(** ** Theorems *)

(** The decoder addresses are read with and the decoder of bags agree, once the
    URL-safe characters are read as the standard ones: they accept the same texts, padding
    rules and spare bits included, and give the same bytes. *)
Theorem base64_decoders_agree s : codec.base64_decode s = to_option (base64_decode (standard <$> s)).
Proof. apply decoders_same. Qed.

Lemma friendly_accepts s a :
  Forall is_byte s → COLON ∉ s →
  Address.parse s = Ok a ↔ standard <$> s = base64_encode (friendly a) ∧ friendly_ok a.
Proof.
  intros Hs Hcolon%split_once_in. split.
  - intros Hp. assert (∃ raw, codec.base64_decode s = Some raw ∧ len raw = 36) as (raw & Hd & Hl).
    { unfold Address.parse in Hp. rewrite Hcolon in Hp. unfold Address.parse_user_friendly in Hp.
      destruct (codec.base64_decode s) as [raw|]; [|done]. cbn [option_bind mbind] in Hp. unfold sized in Hp.
      destruct (Z.eqb_spec (len raw) 36); [by exists raw|done]. }
    destruct (split_raw raw Hl) as (t & w & id & c1 & c2 & -> & Hid).
    rewrite (friendly_parts s t w id c1 c2) in Hp by done. rewrite decoders_same in Hd.
    assert (Forall is_byte (standard <$> s)) as Hstd.
    { apply Forall_fmap. eapply Forall_impl; [exact Hs|]. intros c Hc. unfold standard. cbn.
      destruct (c =? 45), (c =? 95); unfold is_byte in *; lia. }
    destruct (base64_decode (standard <$> s)) as [bytes|] eqn:Ed; [|done]. injection Hd as ->.
    apply base64_encode_decode in Ed as [Hb He]; [|done]. apply Forall_cons in Hb as [Ht [Hw [Hb _]%Forall_app]%Forall_cons].
    case_bool_decide as Hcrc; [|done]. cbn [negb] in Hp.
    destruct (Z.land t _ =? ADDRESS_TAG) eqn:Htag; [|done]. cbn [negb] in Hp. injection Hp as <-.
    destruct (wrap_swrap_byte w Hw) as [Ew Rw]. split; [|done]. rewrite <- He. f_equal. unfold friendly. cbn [a_workchain a_account_id].
    rewrite tag_cases, Ew by done. cbv zeta. by rewrite Hcrc.
  - intros [He Hok]. pose proof (friendly_bytes a Hok) as [Hb _]. pose proof Hok as (Hw & Hid & _).
    assert (codec.base64_decode s = Some (friendly a)) as Hd by by rewrite decoders_same, He, base64_decode_encode.
    unfold friendly in Hd. cbv zeta in Hd. set (body := tag_of a :: _) in *.
    destruct (to_be_bytes 2 (codec.crc16 body)) as [|c1 [|c2 [|]]] eqn:Ec; try done. subst body.
    rewrite (friendly_parts s _ _ _ c1 c2 Hid Hcolon Hd), Ec, bool_decide_true by done. cbn [negb].
    destruct (tag_reads a) as (-> & -> & ->). cbn [negb]. rewrite swrap_wrap_byte by done. by destruct a.
Qed.

(** C27: a user-friendly address has one spelling but for the alphabet. A text without a
    colon is accepted exactly where it is the base64, in either alphabet or a mixture, of
    the tag, the workchain, the account and their checksum, and it is that address it
    reads as, flags included. *)
Theorem address_friendly s a :
  Forall is_byte s → COLON ∉ s →
  Address.parse s = Ok a ↔ standard <$> s = base64_encode (friendly a) ∧ friendly_ok a.
Proof. apply friendly_accepts. Qed.

Lemma text_sextets s a :
  Forall is_byte s → standard <$> s = base64_encode (friendly a) → friendly_ok a →
  text_bits (standard <$> s) = bytes_bits (friendly a) ∧ length s = 48%nat ∧
  Forall (λ c, is_byte c ∧ is_ok (sextet c) = true) (standard <$> s).
Proof.
  intros Hs He Hok. destruct (friendly_bytes a Hok) as [Hb Hl]. rewrite He. split; [apply encode_bits; [done|by rewrite Hl]|].
  rewrite <- (length_fmap standard s), He. clear s Hs He. revert Hl. generalize (friendly a) Hb. clear.
  assert (∀ l, Forall is_byte l → (length l mod 3 = 0)%nat → (3 * length (base64_encode l) = 4 * length l)%nat ∧
    Forall (λ c, is_byte c ∧ is_ok (sextet c) = true) (base64_encode l)) as H.
  { intros l. pattern l. apply (chunk_ind 3); clear l; [lia|intros l Hl Hb Hm|intros q l Hq IH Hb Hm].
    - destruct l as [|? [|? [|]]]; cbn in *; try lia. split; [done|constructor].
    - apply Forall_app in Hb as [Hbq Hb]. rewrite base64_encode_full by done. rewrite !length_app, Hq in *.
      destruct IH as [IH1 IH2]; [done| |].
      { replace (3 + length l)%nat with (length l + 1 * 3)%nat in Hm by lia. by rewrite Nat.Div0.mod_add in Hm. }
      destruct q as [|a [|b [|c [|]]]]; try done. b64_bytes. split; [cbn [encode_chunk take replicate app Nat.add Nat.sub length]; lia|].
      apply Forall_app. split; [|done]. cbn [encode_chunk take replicate app Nat.add Nat.sub]. autorewrite with b64.
      assert (∀ v, 0 <= v < 256 → is_byte (digit v) ∧ is_ok (sextet (digit v)) = true) as Hdig.
      { intros v Hv. rewrite sextet_digit by done. split; [|done]. revert v Hv. unfold is_byte. enum1. }
      repeat (apply Forall_cons; split); [apply Hdig; zdiv..|constructor]. }
  intros l Hb Hl. destruct (H l Hb) as [H1 H2]; [by rewrite Hl|]. split; [lia|done].
Qed.

(** C28: the checksum of the user-friendly form, a text without a colon, catches what people
    get wrong. Of two texts that differ in at most two neighbouring characters, by a slip or
    a swap, the first of them of that form, both are accepted only where they spell the same
    characters in the two alphabets, and then they are the same address. The raw form has no
    checksum, and a slip in it may well be another address. *)
Theorem address_typo p x y q a1 a2 :
  Forall is_byte (p ++ x ++ q) → Forall is_byte y → COLON ∉ p ++ x ++ q → length x = length y → (length x <= 2)%nat →
  Address.parse (p ++ x ++ q) = Ok a1 → Address.parse (p ++ y ++ q) = Ok a2 →
  standard <$> x = standard <$> y ∧ a1 = a2.
Proof.
  intros Hs1 Hy Hc1 Hl Hx H1 H2. assert (Forall is_byte (p ++ y ++ q)) as Hs2.
  { apply Forall_app in Hs1 as [? [_ ?]%Forall_app]. rewrite !Forall_app. done. }
  pose proof (proj1 (friendly_accepts _ _ Hs1 Hc1) H1) as [E1 O1].
  destruct (text_sextets _ _ Hs1 E1 O1) as (B1 & L1 & V1).
  assert (COLON ∉ p ++ y ++ q) as Hc2.
  { apply split_once_in. destruct (split_once COLON (p ++ y ++ q)) as [[workchain account]|] eqn:Es; [exfalso|done].
    unfold Address.parse in H2. rewrite Es in H2. apply (colon_raw_long _ _ _ _ Es) in H2. rewrite !length_app in *. lia. }
  pose proof (proj1 (friendly_accepts _ _ Hs2 Hc2) H2) as [E2 O2].
  destruct (text_sextets _ _ Hs2 E2 O2) as (B2 & _ & V2).
  assert (standard <$> x = standard <$> y) as Exy.
  { pose proof (friendly_checks a1 O1) as C1. pose proof (friendly_checks a2 O2) as C2.
    rewrite <- B1, !fmap_app, !text_bits_app in C1. rewrite <- B2, !fmap_app, !text_bits_app in C2.
    rewrite !fmap_app in V1, V2. apply Forall_app in V1 as [_ [V1 _]%Forall_app], V2 as [_ [V2 _]%Forall_app].
    apply text_bits_inj; [by rewrite !length_fmap|done|done|].
    apply (crc_burst (text_bits (standard <$> p)) _ _ (text_bits (standard <$> q)));
      [by rewrite !length_text_bits, !length_fmap, Hl|rewrite length_text_bits, length_fmap; lia|congruence]. }
  split; [done|]. assert (standard <$> (p ++ x ++ q) = standard <$> (p ++ y ++ q)) as E by by rewrite !fmap_app, Exy.
  assert (Address.parse (p ++ x ++ q) = Ok a2) as H3 by (apply friendly_accepts; [done|done|by rewrite E]). congruence.
Qed.

(** ** Raw addresses *)

(** A number in decimal; ten digits hold any [i32]. *)
Fixpoint decimal_digits (fuel : nat) (n : Z) : list Z :=
  match fuel with
  | O => []
  | S fuel => if n <? 10 then [48 + n] else decimal_digits fuel (n / 10) ++ [48 + n mod 10]
  end.
Definition decimal (n : Z) : list Z := if n <? 0 then MINUS :: decimal_digits 10 (- n) else decimal_digits 10 n.

(** The text [workchain:account]. *)
Definition raw_text (workchain : Z) (account : list Z) : list Z := decimal workchain ++ COLON :: hex_encode account.

Lemma parse_digits_app negative l1 l2 v :
  parse_digits negative (l1 ++ l2) v = parse_digits negative l1 v ≫= parse_digits negative l2.
Proof.
  revert v. induction l1 as [|c l1 IH]; intros v; [done|]. cbn [app parse_digits]. destruct (digit_value c); [|done].
  cbv zeta. by destruct (_ && _).
Qed.

Lemma digit_value_of n : 0 <= n < 10 → digit_value (48 + n) = Some n.
Proof.
  intros Hn. unfold digit_value, between. rewrite !(proj2 (Z.leb_le _ _)) by lia. cbn [andb]. f_equal. lia.
Qed.

(** Reading digits back: on the way to a number that fits nothing overflows. *)
Lemma parse_decimal_digits negative fuel : ∀ n,
  0 <= n < 10 ^ Z.of_nat fuel → (0 < fuel)%nat → (if negative : bool then n <= 2 ^ 31 else n < 2 ^ 31) →
  parse_digits negative (decimal_digits fuel n) 0 = Some (if negative then - n else n).
Proof.
  induction fuel as [|fuel IH]; intros n Hn Hf Hb; [lia|]. cbn [decimal_digits].
  destruct (Z.ltb_spec n 10).
  - cbn [parse_digits]. rewrite digit_value_of by lia. cbv zeta.
    rewrite (proj2 (Z.leb_le _ _)), (proj2 (Z.ltb_lt _ _)) by (destruct negative; lia). cbn [andb]. f_equal; destruct negative; lia.
  - destruct fuel as [|fuel]; [change (10 ^ Z.of_nat 1) with 10 in Hn; lia|].
    rewrite Nat2Z.inj_succ, Z.pow_succ_r in Hn by lia.
    rewrite parse_digits_app, IH by (lia || (destruct negative; zdiv) || zdiv). cbn [option_bind mbind parse_digits].
    rewrite digit_value_of by zdiv. cbv zeta.
    rewrite (proj2 (Z.leb_le _ _)), (proj2 (Z.ltb_lt _ _)) by (destruct negative; zdiv). cbn [andb]. f_equal; destruct negative; zdiv.
Qed.

Lemma decimal_digits_are n fuel : 0 <= n → Forall (λ c, 48 <= c <= 57) (decimal_digits fuel n).
Proof.
  revert n. induction fuel as [|fuel IH]; intros n Hn; [constructor|]. cbn [decimal_digits]. destruct (Z.ltb_spec n 10).
  - constructor; [lia|constructor].
  - apply Forall_app. split; [apply IH; zdiv|]. constructor; [zdiv|constructor].
Qed.

Lemma decimal_digits_cons n fuel : 0 <= n → (0 < fuel)%nat → ∃ c l, decimal_digits fuel n = c :: l ∧ 48 <= c <= 57.
Proof.
  intros Hn Hf. pose proof (decimal_digits_are n fuel Hn) as Hd. destruct fuel as [|fuel]; [lia|].
  destruct (decimal_digits (S fuel) n) as [|c l] eqn:E; [|apply Forall_cons in Hd as [? _]; by exists c, l].
  cbn [decimal_digits] in E. destruct (n <? 10); [done|]. by apply app_eq_nil in E as [_ ?].
Qed.

Lemma parse_i32_decimal n : - 2 ^ 31 <= n < 2 ^ 31 → parse_i32 (decimal n) = Some n.
Proof.
  intros Hn. unfold decimal. destruct (Z.ltb_spec n 0).
  - destruct (decimal_digits_cons (- n) 10) as (c & l & E & Hc); [lia|lia|]. unfold parse_i32.
    change (MINUS =? PLUS) with false. change (MINUS =? MINUS) with true. rewrite E, bool_decide_false by done. cbn [orb andb].
    rewrite <- E, parse_decimal_digits by lia. f_equal. lia.
  - destruct (decimal_digits_cons n 10) as (c & l & E & Hc); [lia|lia|]. rewrite E. unfold parse_i32.
    rewrite !(proj2 (Z.eqb_neq c _)) by (unfold PLUS, MINUS; lia). cbn [orb andb]. rewrite <- E.
    by rewrite parse_decimal_digits by lia.
Qed.

Lemma split_once_first c before after : c ∉ before → split_once c (before ++ c :: after) = Some (before, after).
Proof.
  induction before as [|x before IH]; intros Hin; cbn [app split_once]; [by rewrite Z.eqb_refl|].
  rewrite elem_of_cons in Hin. rewrite (proj2 (Z.eqb_neq x c)) by (intros ->; tauto). by rewrite IH by tauto.
Qed.

Lemma decimal_no_colon n : COLON ∉ decimal n.
Proof.
  assert (∀ m, 0 <= m → COLON ∉ decimal_digits 10 m) as H.
  { intros m Hm Hin. pose proof (decimal_digits_are m 10 Hm) as Hd. rewrite Forall_forall in Hd.
    specialize (Hd _ Hin). unfold COLON in Hd. lia. }
  unfold decimal. destruct (Z.ltb_spec n 0); [|by apply H]. rewrite elem_of_cons. intros [?|Hin]; [done|]. revert Hin. apply H. lia.
Qed.

Lemma parse_digits_range negative l v n :
  - 2 ^ 31 <= v < 2 ^ 31 → parse_digits negative l v = Some n → - 2 ^ 31 <= n < 2 ^ 31.
Proof.
  revert v. induction l as [|c l IH]; intros v Hv; cbn [parse_digits]; [by intros [= <-]|].
  destruct (digit_value c) as [d|]; [|done]. cbv zeta. destruct (_ && _) eqn:E; [|done]. apply IH. lia.
Qed.

Lemma parse_i32_range text n : parse_i32 text = Some n → - 2 ^ 31 <= n < 2 ^ 31.
Proof.
  unfold parse_i32. destruct text as [|c l]; [done|]. destruct (_ && _); [done|].
  destruct (c =? PLUS); [apply parse_digits_range; lia|]. destruct (c =? MINUS); apply parse_digits_range; lia.
Qed.

Lemma split_once_bytes c text before after :
  split_once c text = Some (before, after) → Forall is_byte text → Forall is_byte after.
Proof.
  revert before. induction text as [|x text IH]; intros before Hs Ht; [done|]. apply Forall_cons in Ht as [_ Ht]. cbn [split_once] in Hs.
  destruct (x =? c); [by injection Hs as _ <-|]. destruct (split_once c text) as [[b a]|]; [|done].
  injection Hs as _ <-. by eapply IH.
Qed.

(** The raw form reads back: for every [i32] workchain and every account, the text
    [workchain:account] is the address it names, in upper or lower case; and what any text
    reads as is an [i32] and thirty-two bytes. *)
Theorem address_raw workchain account text a :
  (- 2 ^ 31 <= workchain < 2 ^ 31 → len account = 32 → Forall is_byte account →
   Address.parse (raw_text workchain account) = Ok (MkAddress workchain account true false)) ∧
  (Forall is_byte text → Address.parse text = Ok a →
   - 2 ^ 31 <= a_workchain a < 2 ^ 31 ∧ len (a_account_id a) = 32 ∧ Forall is_byte (a_account_id a)).
Proof.
  split.
  - intros Hw Hl Hb. unfold Address.parse, raw_text. rewrite split_once_first by apply decimal_no_colon.
    unfold Address.parse_raw. rewrite parse_i32_decimal by done. cbn [ok_or res_bind].
    unfold codec.decode_hex. rewrite hex_decode_encode by done. cbn [option_bind mbind]. unfold sized. by rewrite Hl.
  - intros Ht Hp. destruct (split_once COLON text) as [[before after]|] eqn:Es.
    + unfold Address.parse in Hp. rewrite Es in Hp. unfold Address.parse_raw in Hp.
      destruct (parse_i32 before) as [n|] eqn:En; [|done]. cbn [ok_or res_bind] in Hp. unfold codec.decode_hex in Hp.
      destruct (hex_decode after) as [bytes|] eqn:Eh; [|done]. cbn [option_bind mbind] in Hp. unfold sized in Hp.
      destruct (Z.eqb_spec (len bytes) 32); [|done]. injection Hp as <-. cbn [a_workchain a_account_id].
      split; [by eapply parse_i32_range|]. split; [done|]. apply hex_encode_decode in Eh as [? _]; [done|].
      by eapply split_once_bytes.
    + apply friendly_accepts in Hp as [_ (Hw & Hl & Hb)]; [|done|by apply split_once_in]. split; [lia|done].
Qed.
