(* ===== verification/Adnl.v ===== *)
(** The encrypted session to a liteserver: core/src/adnl/frame.rs, handshake.rs and
    connection.rs. The ciphers, the curve, the derived TL serializers, the transport and
    the system's randomness are parameters. *)

From stdpp Require Import base list list_numbers numbers strings.
From Stdlib Require Import ZArith Lia.
From S2P Require Import Prelude Errors Bits CellHash.

Local Open Scope Z_scope.

(** ** Parameters *)

(** AES-256 in counter mode ([aes], [ctr]): a cipher and the run of keystream it is at. *)
Class Ctr : Type := {
  Aes256Ctr : Type;
  new_ctr : list Z → list Z → Aes256Ctr;
  apply_keystream : list Z → Aes256Ctr → list Z * Aes256Ctr;
}.

(** X25519 over [curve25519_dalek], SHA-512, and the TL form of a public key. *)
Class Exchange : Type := {
  EdwardsPoint : Type;
  serialize_key : list Z → list Z;
  sha512 : list Z → list Z;
  mul_base_clamped : list Z → list Z;
  decompress : list Z → option EdwardsPoint;
  mul_clamped : EdwardsPoint → list Z → list Z;
}.

Inductive Message : Type :=
| Query (query_id query : list Z)
| Answer (query_id answer : list Z).

(** What the [tl_proto] macros derive for [tl::adnl::Message]. *)
Class AdnlTl : Type := {
  serialize_message : Message → list Z;
  deserialize_message : list Z → option Message;
}.

Inductive TransportError : Type := Io (message : string) | ConnectTimeout.

(** The outside: a transport and the system's randomness. An [async] call is a step of
    its state that may never end: a caller past its deadline drops the future where it
    waits, and [None] is that. *)
Class World (W : Type) : Type := {
  world_write_all : list Z → W → option (result TransportError unit) * W;
  world_read_exact : Z → W → option (result TransportError (list Z)) * W;
  world_random : Z → W → option (list Z) * W;
}.

(** ** frame.rs *)

Definition MIN_FRAME : Z := 64.
Definition MAX_FRAME : Z := Z.shiftl 1 24.

Inductive FrameError : Type :=
| ImplausibleLength (length : Z)
| BodyTooShort
| PayloadTooLarge (length : Z)
| Checksum.

Section frame.
Context `{Hasher} `{Ctr}.

Record SessionCiphers : Type := MkCiphers { sc_rx : Aes256Ctr; sc_tx : Aes256Ctr }.

(** A range the length of the array has settled. *)
Definition range (data : list Z) (a b : Z) : list Z := default [] (get_range data a b).

Definition from_params (params : list Z) : SessionCiphers :=
  MkCiphers (new_ctr (range params 0 32) (range params 64 80)) (new_ctr (range params 32 64) (range params 80 96)).

Definition to_le_bytes (n : nat) (v : Z) : list Z := reverse (to_be_bytes n v).
Definition from_le_bytes (l : list Z) : Z := from_be_bytes (reverse l).

Definition seal (nonce payload : list Z) : stm SessionCiphers FrameError (list Z) := λ self,
  let body := saturating_add USIZE_MAX (len payload) MIN_FRAME in
  if MAX_FRAME <? body then (Err (PayloadTooLarge (len payload)), self)
  else
    let checksum := sha256 (nonce ++ payload) in
    let frame := take 4 (to_le_bytes 8 body) ++ nonce ++ payload ++ checksum in
    let '(frame, tx) := apply_keystream frame (sc_tx self) in
    (Ok frame, MkCiphers (sc_rx self) tx).

(** The prefix is decrypted in place; its caller reads no more of it. *)
Definition open_len (prefix : list Z) : stm SessionCiphers FrameError Z := λ self,
  let '(prefix, rx) := apply_keystream prefix (sc_rx self) in
  let self := MkCiphers rx (sc_tx self) in
  let length := from_le_bytes prefix in
  if negb ((MIN_FRAME <=? length) && (length <=? MAX_FRAME)) then (Err (ImplausibleLength length), self)
  else (Ok length, self).

Definition open_body (body : list Z) : stm SessionCiphers FrameError (list Z) := λ self,
  if len body <? MIN_FRAME then (Err BodyTooShort, self)
  else
    let '(body, rx) := apply_keystream body (sc_rx self) in
    let self := MkCiphers rx (sc_tx self) in
    let nonce := take 32 body in
    let rest := drop 32 body in
    let payload := take (Z.to_nat (saturating_sub (len rest) 32)) rest in
    let stored := drop (Z.to_nat (saturating_sub (len rest) 32)) rest in
    if negb (bool_decide (stored = sha256 (nonce ++ payload))) then (Err Checksum, self)
    else (Ok payload, self).
End frame.

(** ** handshake.rs *)

Record HandshakeSecrets : Type := MkSecrets { hs_key_seed : list Z; hs_params : list Z }.

Inductive HandshakeError : Type := InvalidServerKey | DegenerateSharedSecret.

Section handshake.
Context `{Hasher} `{Ctr} `{Exchange}.

Record Handshake : Type := MkHandshake { hk_packet : list Z; hk_ciphers : SessionCiphers }.

Definition client_handshake (server_key : list Z) (secrets : HandshakeSecrets) : result HandshakeError Handshake :=
  let server_key_id := sha256 (serialize_key server_key) in
  let scalar := take 32 (sha512 (hs_key_seed secrets)) in
  let client_pub := mul_base_clamped scalar in
  let? server_point := ok_or (decompress server_key) InvalidServerKey in
  let shared := mul_clamped server_point scalar in
  if bool_decide (shared = replicate 32 0) then Err DegenerateSharedSecret
  else
    let checksum := sha256 (hs_params secrets) in
    let key := take 16 shared ++ drop 16 checksum in
    let iv := take 4 checksum ++ drop 20 shared in
    let '(encrypted, _) := apply_keystream (hs_params secrets) (new_ctr key iv) in
    Ok (MkHandshake (server_key_id ++ client_pub ++ checksum ++ encrypted) (from_params (hs_params secrets))).
End handshake.

(** ** connection.rs *)

Definition MAX_FRAMES_PER_QUERY : Z := 8.

Inductive AdnlError : Type :=
| ATransport (error : TransportError)
| AHandshake (error : HandshakeError)
| AFrame (error : FrameError)
| AMalformed
| NoAnswer
| NoRandomness
| Desynchronized.

(** An [async fn] of a [&mut self]: what it gives, if it is not dropped first, and the
    state either way. *)
Definition async (S E A : Type) : Type := S → option (result E A) * S.
Definition async_ret {S E A} (a : A) : async S E A := λ s, (Some (Ok a), s).
Definition async_err {S E A} (e : E) : async S E A := λ s, (Some (Err e), s).
Definition async_bind {S E A B} (m : async S E A) (k : A → async S E B) : async S E B := λ s,
  match m s with
  | (Some (Ok a), s) => k a s
  | (Some (Err e), s) => (Some (Err e), s)
  | (None, s) => (None, s)
  end.

Declare Scope async_scope.
Notation "'await!' x <- m ; k" := (async_bind m (λ x, k)) (at level 100, x pattern, m at next level, right associativity) : async_scope.
Notation "'then!' m ; k" := (async_bind m (λ _, k)) (at level 100, m at next level, right associativity) : async_scope.

Section connection.
Context `{Hasher} `{Ctr} `{Exchange} `{AdnlTl} {W : Type} `{World W}.
Local Open Scope async_scope.

Record AdnlConnection : Type := MkConnection { ac_world : W; ac_ciphers : SessionCiphers; ac_intact : bool }.

Definition random (n : Z) : async W AdnlError (list Z) := λ w,
  match world_random n w with
  | (Some bytes, w) => (Some (Ok bytes), w)
  | (None, w) => (Some (Err NoRandomness), w)
  end.

Definition write_all (buf : list Z) : async W AdnlError unit := λ w,
  let '(r, w) := world_write_all buf w in (map_err ATransport <$> r, w).
Definition read_exact (n : Z) : async W AdnlError (list Z) := λ w,
  let '(r, w) := world_read_exact n w in (map_err ATransport <$> r, w).

(** The parts of a connection as states of their own. *)
Definition on_world {A} (m : async W AdnlError A) : async AdnlConnection AdnlError A := λ self,
  let '(r, w) := m (ac_world self) in (r, MkConnection w (ac_ciphers self) (ac_intact self)).
Definition on_ciphers {A} (m : stm SessionCiphers FrameError A) : async AdnlConnection AdnlError A := λ self,
  let '(r, ciphers) := m (ac_ciphers self) in (Some (map_err AFrame r), MkConnection (ac_world self) ciphers (ac_intact self)).
Definition set_intact (intact : bool) : async AdnlConnection AdnlError unit := λ self,
  (Some (Ok tt), MkConnection (ac_world self) (ac_ciphers self) intact).

Definition check : async AdnlConnection AdnlError unit := λ self,
  if ac_intact self then (Some (Ok tt), self) else (Some (Err Desynchronized), self).

Definition send (nonce message : list Z) : async AdnlConnection AdnlError unit :=
  then! check;
  await! frame <- on_ciphers (seal nonce message);
  then! set_intact false;
  then! on_world (write_all frame);
  set_intact true.

Definition recv : async AdnlConnection AdnlError (list Z) :=
  then! check;
  then! set_intact false;
  await! prefix <- on_world (read_exact 4);
  await! length <- on_ciphers (open_len prefix);
  await! body <- on_world (read_exact length);
  await! payload <- on_ciphers (open_body body);
  then! set_intact true;
  async_ret payload.

(** [for _ in 0..MAX_FRAMES_PER_QUERY] *)
Fixpoint query_loop (rounds : nat) (query_id : list Z) (undecodable : Z) : async AdnlConnection AdnlError (list Z) :=
  match rounds with
  | O => if undecodable =? MAX_FRAMES_PER_QUERY then async_err AMalformed else async_err NoAnswer
  | S rounds =>
      await! payload <- recv;
      if bool_decide (payload = []) then query_loop rounds query_id undecodable
      else
        match deserialize_message payload with
        | Some (Answer answered answer) =>
            if bool_decide (answered = query_id) then async_ret answer else query_loop rounds query_id undecodable
        | Some (Query _ _) => query_loop rounds query_id undecodable
        | None => query_loop rounds query_id (undecodable + 1)
        end
  end.

Definition query (query : list Z) : async AdnlConnection AdnlError (list Z) :=
  await! query_id <- on_world (random 32);
  let message := serialize_message (Query query_id query) in
  await! nonce <- on_world (random 32);
  then! send nonce message;
  query_loop (Z.to_nat MAX_FRAMES_PER_QUERY) query_id 0.

Definition connect (server_key : list Z) (world : W) : option (result AdnlError AdnlConnection) * W :=
  (await! key_seed <- random 32;
   await! params <- random 160;
   let secrets := MkSecrets key_seed params in
   await! handshake <- (λ w, (Some (map_err AHandshake (client_handshake server_key secrets)), w));
   then! write_all (hk_packet handshake);
   λ w, (Some (Ok (MkConnection w (hk_ciphers handshake) true)), w)) world.

Definition is_intact (self : AdnlConnection) : bool := ac_intact self.
End connection.
Arguments AdnlConnection {_} _.
