(* ===== verification/AdnlTheorems.v ===== *)
(** The session to a server: what one end seals the other opens, the handshake gives both
    ends the same ciphers, and a connection that calls itself intact is in step with the
    server whatever failed or was abandoned before. *)

From stdpp Require Import base list list_numbers numbers strings.
From Stdlib Require Import ZArith Lia.
From S2P Require Import Prelude Errors Bits CellHash Adnl.

Local Open Scope Z_scope.

(** ** What is asked of the parameters *)

(** A stream cipher: applied to what it gave, from where it was, it gives the text back;
    what it is applied to in pieces is what it is applied to at once. *)
Class CtrOk (C : Ctr) : Prop := {
  keystream_involutive c data : Forall is_byte data →
    apply_keystream (apply_keystream data c).1 c = (data, (apply_keystream data c).2);
  keystream_app c d1 d2 :
    apply_keystream (d1 ++ d2) c =
      ((apply_keystream d1 c).1 ++ (apply_keystream d2 (apply_keystream d1 c).2).1,
       (apply_keystream d2 (apply_keystream d1 c).2).2);
  keystream_length c data : length (apply_keystream data c).1 = length data;
}.

(** ** Frames *)

Section frames.
Context `{HH : Hasher} `{!HasherOk HH} `{C : Ctr} `{!CtrOk C}.

(** What a frame holds before it is encrypted. *)
Definition plain_frame (nonce payload : list Z) : list Z :=
  take 4 (to_le_bytes 8 (len payload + MIN_FRAME)) ++ nonce ++ payload ++ sha256 (nonce ++ payload).

Definition framable (f : list Z * list Z) : Prop :=
  len f.1 = 32 ∧ Forall is_byte f.1 ∧ Forall is_byte f.2 ∧ len f.2 + MIN_FRAME <= MAX_FRAME.

(** Frames one after another, as a cipher encrypts them. *)
Fixpoint stream (c : Aes256Ctr) (frames : list (list Z * list Z)) : list Z :=
  match frames with
  | [] => []
  | (nonce, payload) :: frames =>
      let '(frame, c) := apply_keystream (plain_frame nonce payload) c in frame ++ stream c frames
  end.

Fixpoint after (c : Aes256Ctr) (frames : list (list Z * list Z)) : Aes256Ctr :=
  match frames with
  | [] => c
  | (nonce, payload) :: frames => after (apply_keystream (plain_frame nonce payload) c).2 frames
  end.

Lemma seal_spec nonce payload self :
  framable (nonce, payload) →
  seal nonce payload self =
    (Ok (apply_keystream (plain_frame nonce payload) (sc_tx self)).1,
     MkCiphers (sc_rx self) (apply_keystream (plain_frame nonce payload) (sc_tx self)).2).
Proof.
  intros (_ & _ & _ & Hl). cbn [fst snd] in Hl. unfold seal. pose proof (len_nonneg payload).
  assert (saturating_add USIZE_MAX (len payload) MIN_FRAME = len payload + MIN_FRAME) as ->.
  { unfold saturating_add. change MAX_FRAME with 16777216 in Hl. change USIZE_MAX with 18446744073709551615. lia. }
  rewrite (proj2 (Z.ltb_ge _ _)) by done. cbv zeta. fold (plain_frame nonce payload). by destruct (apply_keystream _ _).
Qed.

Lemma seal_refused nonce payload self :
  MAX_FRAME < len payload + MIN_FRAME →
  seal nonce payload self = (Err (PayloadTooLarge (len payload)), self).
Proof.
  intros Hl. unfold seal. pose proof (len_nonneg payload). rewrite (proj2 (Z.ltb_lt _ _)); [done|].
  unfold saturating_add. change MAX_FRAME with 16777216 in *. change USIZE_MAX with 18446744073709551615 in *. lia.
Qed.

Lemma length_prefix v : 0 <= v < 2 ^ 32 → from_le_bytes (take 4 (to_le_bytes 8 v)) = v ∧ len (take 4 (to_le_bytes 8 v)) = 4 ∧
  Forall is_byte (take 4 (to_le_bytes 8 v)).
Proof.
  intros Hv. assert (take 4 (to_le_bytes 8 v) = reverse (to_be_bytes 4 v)) as ->.
  { unfold to_le_bytes. rewrite <- (to_be_bytes_drop 4 4 v). change (4 + 4)%nat with 8%nat.
    rewrite <- (take_drop 4 (to_be_bytes 8 v)) at 1. rewrite reverse_app. apply take_app_length'.
    by rewrite length_reverse, length_drop, length_to_be_bytes. }
  unfold from_le_bytes. rewrite reverse_involutive, from_to_be_bytes by done. split; [done|].
  split; [unfold len; by rewrite length_reverse, length_to_be_bytes|]. apply Forall_reverse, to_be_bytes_bytes.
Qed.

(** Opening what was sealed: the length out of the first four bytes, the payload out of
    the rest, and the cipher where the sealer's is. *)
Lemma open_frame nonce payload rx tx :
  framable (nonce, payload) →
  let frame := (apply_keystream (plain_frame nonce payload) rx).1 in
  let rx' := (apply_keystream (plain_frame nonce payload) rx).2 in
  ∃ mid, open_len (take 4 frame) (MkCiphers rx tx) = (Ok (len payload + MIN_FRAME), MkCiphers mid tx) ∧
    len (drop 4 frame) = len payload + MIN_FRAME ∧
    open_body (drop 4 frame) (MkCiphers mid tx) = (Ok payload, MkCiphers rx' tx).
Proof.
  intros (Hn & Bn & Bp & Hl). cbn [fst snd] in *. pose proof (len_nonneg payload) as Hp.
  change MAX_FRAME with 16777216 in Hl. change MIN_FRAME with 64 in *. cbv zeta.
  destruct (length_prefix (len payload + 64) ltac:(lia)) as (Hlow & L4 & B4).
  set (prefix := take 4 (to_le_bytes 8 (len payload + 64))) in *. set (sum := sha256 (nonce ++ payload)).
  set (body := nonce ++ payload ++ sum). assert (plain_frame nonce payload = prefix ++ body) as -> by done.
  assert (Forall is_byte body ∧ len body = len payload + 64) as [Bb Lb].
  { unfold body, sum. split; [rewrite !Forall_app; split; [done|split; [done|apply sha256_bytes]]|].
    rewrite !len_app, Hn. assert (len (sha256 (nonce ++ payload)) = 32) as -> by (unfold len; by rewrite sha256_len). lia. }
  rewrite keystream_app. cbn [fst snd]. set (c1 := (apply_keystream prefix rx).2).
  assert (length (apply_keystream prefix rx).1 = 4%nat) as E4 by (rewrite keystream_length; unfold len in L4; lia).
  rewrite take_app_length', drop_app_length' by done. exists c1. split; [|split].
  - unfold open_len. cbn [sc_rx sc_tx]. rewrite keystream_involutive by done. fold c1. rewrite Hlow.
    change MIN_FRAME with 64. change MAX_FRAME with 16777216. by rewrite !(proj2 (Z.leb_le _ _)) by lia.
  - unfold len in *. rewrite keystream_length. lia.
  - unfold open_body. change MIN_FRAME with 64. assert (len (apply_keystream body c1).1 = len payload + 64) as Lk
      by (unfold len in *; rewrite keystream_length; lia).
    rewrite Lk, (proj2 (Z.ltb_ge _ _)) by lia. cbn [sc_rx sc_tx]. rewrite keystream_involutive by done.
    unfold body. assert (length nonce = 32%nat) as Ln by (unfold len in Hn; lia).
    rewrite take_app_length', drop_app_length' by done.
    assert (saturating_sub (len (payload ++ sum)) 32 = len payload) as ->.
    { rewrite len_app. assert (len sum = 32) as -> by (unfold sum, len; by rewrite sha256_len). unfold saturating_sub. lia. }
    rewrite take_app_length', drop_app_length' by (unfold len; lia). cbv zeta. by rewrite bool_decide_true.
Qed.

(** The frames of several payloads, and what the other end makes of them. *)
Fixpoint seal_all (frames : list (list Z * list Z)) : stm SessionCiphers FrameError (list (list Z)) :=
  match frames with
  | [] => st_ret []
  | (nonce, payload) :: frames =>
      do! frame <- seal nonce payload; do! rest <- seal_all frames; st_ret (frame :: rest)
  end.

Fixpoint open_all (frames : list (list Z)) : stm SessionCiphers FrameError (list (list Z)) :=
  match frames with
  | [] => st_ret []
  | frame :: frames =>
      do! length <- open_len (take 4 frame);
      do! payload <- open_body (take (Z.to_nat length) (drop 4 frame));
      do! rest <- open_all frames; st_ret (payload :: rest)
  end.

(** The frames one end seals, one after another, the other end opens to the payloads
    they were made of, in that order; a frame says how long it is, and the two ciphers end
    where each other is. *)
Theorem frames_in_order frames client server :
  Forall framable frames → sc_tx client = sc_rx server →
  ∃ wire client' server', seal_all frames client = (Ok wire, client') ∧ open_all wire server = (Ok frames.*2, server') ∧
    sc_tx client' = sc_rx server' ∧ sc_rx client' = sc_rx client ∧ sc_tx server' = sc_tx server.
Proof.
  intros Hf. revert client server. induction Hf as [|[nonce payload] frames Hf1 Hf IH]; intros client server Hc.
  { by exists [], client, server. }
  destruct server as [rx tx]. cbn [sc_rx sc_tx] in *. destruct (open_frame nonce payload rx tx Hf1) as (mid & Hlen & Hl & Hbody).
  cbn [seal_all]. set (client1 := MkCiphers (sc_rx client) (apply_keystream (plain_frame nonce payload) (sc_tx client)).2).
  destruct (IH client1 (MkCiphers (apply_keystream (plain_frame nonce payload) rx).2 tx)) as (wire & client' & server' & Hs & Ho & Ht & Hr & Hx).
  { cbn [client1 sc_tx sc_rx]. by rewrite Hc. }
  exists ((apply_keystream (plain_frame nonce payload) (sc_tx client)).1 :: wire), client', server'.
  split; [|split; [|done]].
  - erewrite st_bind_ok by by apply seal_spec. fold client1. by erewrite st_bind_ok by exact Hs.
  - rewrite Hc. cbn [open_all]. erewrite st_bind_ok by exact Hlen.
    rewrite take_ge by (rewrite <- Hl; unfold len; lia). erewrite st_bind_ok by exact Hbody. by erewrite st_bind_ok by exact Ho.
Qed.
End frames.

(** ** The handshake *)

Section handshake.
Context `{HH : Hasher} `{!HasherOk HH} `{C : Ctr} `{!CtrOk C} `{X : Exchange}.

(** What a server that reached the same secret makes of a packet, and the ciphers it then
    holds: the client's, the other way round. *)
Definition server_opens (shared packet : list Z) : list Z :=
  let checksum := take 32 (drop 64 packet) in
  (apply_keystream (drop 96 packet) (new_ctr (take 16 shared ++ drop 16 checksum) (take 4 checksum ++ drop 20 shared))).1.

Definition server_ciphers (params : list Z) : SessionCiphers :=
  MkCiphers (sc_tx (from_params params)) (sc_rx (from_params params)).

(** A handshake fails exactly for a key that is not a point and for one that would make
    the secret all zeros; otherwise the packet names the server and carries the client's
    key, and a server that reaches the same secret decrypts the session's parameters out of
    it, checks them against their digest, and derives the ciphers the client holds. *)
Theorem handshake_opens server_key secrets :
  (∀ scalar, len (mul_base_clamped scalar) = 32) → len (hs_params secrets) = 160 → Forall is_byte (hs_params secrets) →
  let scalar := take 32 (sha512 (hs_key_seed secrets)) in
  match client_handshake server_key secrets with
  | Ok h =>
      ∃ point, decompress server_key = Some point ∧ mul_clamped point scalar ≠ replicate 32 0 ∧
        len (hk_packet h) = 256 ∧ take 32 (hk_packet h) = sha256 (serialize_key server_key) ∧
        take 32 (drop 32 (hk_packet h)) = mul_base_clamped scalar ∧
        take 32 (drop 64 (hk_packet h)) = sha256 (hs_params secrets) ∧
        server_opens (mul_clamped point scalar) (hk_packet h) = hs_params secrets ∧
        hk_ciphers h = from_params (hs_params secrets)
  | Err InvalidServerKey => decompress server_key = None
  | Err DegenerateSharedSecret => ∃ point, decompress server_key = Some point ∧ mul_clamped point scalar = replicate 32 0
  end.
Proof.
  intros Hpub Hl Hb scalar. unfold client_handshake. fold scalar. cbv zeta.
  destruct (decompress server_key) as [point|]; [|done]. cbn [ok_or res_bind].
  case_bool_decide as Hz; [by exists point|]. set (sum := sha256 (hs_params secrets)). set (shared := mul_clamped point scalar) in *.
  set (c := new_ctr _ _). pose proof (keystream_involutive c (hs_params secrets) Hb) as Hinv.
  pose proof (keystream_length c (hs_params secrets)) as Hlen. destruct (apply_keystream (hs_params secrets) c) as [encrypted c'].
  cbn [fst snd] in *. exists point. split; [done|]. split; [done|]. cbn [hk_packet hk_ciphers].
  set (id := sha256 (serialize_key server_key)). set (pub := mul_base_clamped scalar).
  assert (length id = 32%nat ∧ length sum = 32%nat ∧ length pub = 32%nat) as (Lid & Lsum & Lpub).
  { split; [apply sha256_len|]. split; [apply sha256_len|]. pose proof (Hpub scalar) as Hp. unfold len in Hp. fold pub in Hp. lia. }
  assert (drop 32 (id ++ pub ++ sum ++ encrypted) = pub ++ sum ++ encrypted) as D1 by by rewrite drop_app_length' by done.
  assert (drop 64 (id ++ pub ++ sum ++ encrypted) = sum ++ encrypted) as D2.
  { rewrite app_assoc. rewrite drop_app_length'; [done|]. rewrite length_app. lia. }
  assert (drop 96 (id ++ pub ++ sum ++ encrypted) = encrypted) as D3.
  { rewrite !app_assoc. rewrite drop_app_length'; [done|]. rewrite !length_app. lia. }
  split; [unfold len in *; rewrite !length_app, Lid, Lpub, Lsum; lia|]. split; [by rewrite take_app_length' by done|].
  split; [rewrite D1; by rewrite take_app_length' by done|].
  assert (take 32 (sum ++ encrypted) = sum) as T by by rewrite take_app_length' by done. rewrite D2, T. split; [done|]. split; [|done].
  unfold server_opens. cbv zeta. rewrite D2, D3, T. fold shared. fold c. by rewrite Hinv.
Qed.
End handshake.

(** ** The connection *)

(** A transport delivers what the peer sends, in order, and carries what it is given.
    [incoming] is everything the peer has still to be read of, [written] everything it
    was given; a call that fails or is dropped may have done part of its work. *)
Class WorldOk (W : Type) `{World W} : Type := {
  incoming : W → list Z;
  written : W → list Z;
  random_apart n w r w' : world_random n w = (r, w') → incoming w' = incoming w ∧ written w' = written w;
  random_length n w bytes w' : world_random n w = (Some bytes, w') → len bytes = n ∧ Forall is_byte bytes;
  write_all_apart buf w r w' : world_write_all buf w = (r, w') → incoming w' = incoming w;
  write_all_whole buf w w' : world_write_all buf w = (Some (Ok tt), w') → written w' = written w ++ buf;
  read_exact_apart n w r w' : world_read_exact n w = (r, w') → written w' = written w;
  read_exact_whole n w bytes w' :
    world_read_exact n w = (Some (Ok bytes), w') → len bytes = n ∧ incoming w = bytes ++ incoming w';
}.

Section connection.
Context `{HH : Hasher} `{!HasherOk HH} `{C : Ctr} `{!CtrOk C} `{X : Exchange} `{T : AdnlTl}.
Context {W : Type} `{HW : World W} `{!WorldOk W}.

(** In step: what is still to come is whole frames, encrypted from where the client's
    cipher is, and what was written is a greeting and whole frames, encrypted up to where
    the client's cipher is. *)
Record in_step (from : Aes256Ctr) (greeting : list Z) (conn : AdnlConnection W)
    (coming sent : list (list Z * list Z)) : Prop := {
  step_coming : incoming (ac_world conn) = stream (sc_rx (ac_ciphers conn)) coming;
  step_framable : Forall framable coming;
  step_sendable : Forall framable sent;
  step_sent : written (ac_world conn) = greeting ++ stream from sent;
  step_after : sc_tx (ac_ciphers conn) = after from sent;
}.

Lemma stream_app c fs gs : stream c (fs ++ gs) = stream c fs ++ stream (after c fs) gs.
Proof.
  revert c. induction fs as [|[nonce payload] fs IH]; intros c; [done|]. cbn [app stream after].
  destruct (apply_keystream (plain_frame nonce payload) c) as [frame c'] eqn:E. cbn [snd]. by rewrite IH, app_assoc.
Qed.

Lemma stream_snoc c fs nonce payload :
  stream c (fs ++ [(nonce, payload)]) = stream c fs ++ (apply_keystream (plain_frame nonce payload) (after c fs)).1.
Proof. rewrite stream_app. f_equal. unfold stream. destruct (apply_keystream _ _). cbn [fst]. apply app_nil_r. Qed.

Lemma after_app c fs gs : after c (fs ++ gs) = after (after c fs) gs.
Proof. revert c. induction fs as [|[nonce payload] fs IH]; intros c; [done|]. cbn [app after]. apply IH. Qed.

(** What a query is sent as is bytes, whatever tells it apart. *)
Definition sendable (q : list Z) : Prop :=
  ∀ id, len id = 32 → Forall is_byte id → Forall is_byte (serialize_message (Query id q)).

(** The transport failed, or the caller stopped waiting. *)
Definition cut_off {A} (r : option (result AdnlError A)) : Prop := r = None ∨ ∃ e, r = Some (Err (ATransport e)).

Lemma send_spec from greeting conn coming sent nonce message :
  (ac_intact conn = true → in_step from greeting conn coming sent) →
  len nonce = 32 → Forall is_byte nonce → Forall is_byte message →
  let '(r, conn') := send nonce message conn in
  (ac_intact conn = false → conn' = conn ∧ r = Some (Err Desynchronized)) ∧
  (ac_intact conn' = true → ac_intact conn = true ∧
     (r = Some (Ok tt) ∧ in_step from greeting conn' coming (sent ++ [(nonce, message)]) ∨
      r = Some (Err (AFrame (PayloadTooLarge (len message)))) ∧ conn' = conn ∧ MAX_FRAME < len message + MIN_FRAME)) ∧
  (r = Some (Ok tt) → ac_intact conn' = true) ∧
  (ac_intact conn = true → ac_intact conn' = false →
     cut_off r ∧ incoming (ac_world conn') = incoming (ac_world conn)).
Proof.
  intros Hin Ln Bn Bm. unfold send, check, async_bind. destruct (ac_intact conn) eqn:Ei.
  2:{ split; [done|]. rewrite Ei. done. }
  specialize (Hin eq_refl). unfold on_ciphers, cut_off.
  destruct (Z.le_gt_cases (len message + MIN_FRAME) MAX_FRAME) as [Hm|Hm].
  2:{ rewrite seal_refused by lia. cbn [map_err]. destruct conn as [w ciphers intact]. cbn [ac_world ac_ciphers ac_intact] in *.
      split; [done|]. split; [|split; [done|by intros _ ?; simplify_eq]]. intros _. split; [done|]. by right. }
  rewrite seal_spec by done. cbn [map_err]. unfold set_intact, on_world, write_all. cbn [ac_world ac_ciphers ac_intact].
  destruct Hin as [Hc Hf Hsf Hs Ha]. destruct (world_write_all _ (ac_world conn)) as [r w] eqn:Ew.
  pose proof (write_all_apart _ _ _ _ Ew) as Hi.
  destruct r as [[[]|e]|]; cbn [option_fmap option_map fmap map_err ac_world ac_ciphers ac_intact sc_rx];
    [|do 3 (split; [done|]); intros _ _; split; [right; by eexists|done]
     |do 3 (split; [done|]); intros _ _; split; [by left|done]].
  split; [done|]. split; [|done]. intros _. split; [done|]. left. split; [done|]. constructor; cbn [ac_world ac_ciphers sc_rx sc_tx].
  - by rewrite Hi.
  - done.
  - apply Forall_app. split; [done|]. by apply Forall_singleton.
  - by rewrite (write_all_whole _ _ _ Ew), Hs, stream_snoc, Ha, app_assoc.
  - by rewrite after_app, Ha.
Qed.

(** Reading from what begins with a frame takes the frame's own bytes. *)
Lemma read_front n w bytes w1 frame rest :
  world_read_exact n w = (Some (Ok bytes), w1) → incoming w = frame ++ rest → n <= len frame →
  bytes = take (Z.to_nat n) frame ∧ incoming w1 = drop (Z.to_nat n) frame ++ rest.
Proof.
  intros E Hw Hn. destruct (read_exact_whole _ _ _ _ E) as [L I]. rewrite Hw, <- (take_drop (Z.to_nat n) frame), <- app_assoc in I.
  symmetry in I. apply app_inj_1 in I as [<- <-]; [done|]. rewrite length_take. unfold len in *. lia.
Qed.

(** A frame is read whole or the connection says it is not intact. *)
Lemma recv_spec from greeting conn coming sent :
  (ac_intact conn = true → in_step from greeting conn coming sent) →
  let '(r, conn') := recv conn in
  written (ac_world conn') = written (ac_world conn) ∧
  (ac_intact conn' = true → ∃ nonce payload coming', r = Some (Ok payload) ∧ coming = (nonce, payload) :: coming' ∧
     ac_intact conn = true ∧ in_step from greeting conn' coming' sent) ∧
  (∀ payload, r = Some (Ok payload) → ac_intact conn' = true) ∧
  (ac_intact conn = false → conn' = conn ∧ r = Some (Err Desynchronized)) ∧
  (ac_intact conn = true → ac_intact conn' = false → cut_off r).
Proof.
  intros Hin. unfold recv, check, async_bind. destruct (ac_intact conn) eqn:Ei.
  2:{ repeat split; try done; by rewrite Ei. }
  specialize (Hin eq_refl). destruct Hin as [Hc Hf Hsf Hs Ha]. unfold set_intact, on_world, read_exact. cbn [ac_world ac_ciphers ac_intact].
  destruct (world_read_exact 4 (ac_world conn)) as [r1 w1] eqn:E1. pose proof (read_exact_apart _ _ _ _ E1) as W1.
  destruct r1 as [[prefix|e]|]; cbn [option_fmap option_map fmap map_err ac_world ac_ciphers ac_intact];
    [|do 4 (split; [done|]); intros _ _; right; by eexists|do 4 (split; [done|]); by left].
  destruct coming as [|[nonce payload] coming].
  { destruct (read_exact_whole _ _ _ _ E1) as [L1 I1]. rewrite Hc in I1. symmetry in I1. by apply app_nil in I1 as [-> _]. }
  apply Forall_cons in Hf as [Hf1 Hf]. destruct (conn) as [w [rx tx] intact]. cbn [ac_ciphers ac_world sc_rx sc_tx] in *.
  destruct (open_frame nonce payload rx tx Hf1) as (mid & Hopen & Lbody & Hbody). cbn [stream] in Hc.
  destruct (apply_keystream (plain_frame nonce payload) rx) as [frame rx'] eqn:Ek. cbn [fst snd] in *.
  destruct (read_front 4 w prefix w1 frame (stream rx' coming) E1 Hc) as [-> I1'].
  { unfold len in *. rewrite length_drop in Lbody. change MIN_FRAME with 64 in Lbody. lia. }
  change (Z.to_nat 4) with 4%nat in *.
  unfold on_ciphers. cbn [ac_ciphers]. rewrite Hopen. cbn [map_err ac_world ac_ciphers ac_intact].
  destruct (world_read_exact _ w1) as [r2 w2] eqn:E2. pose proof (read_exact_apart _ _ _ _ E2) as W2.
  destruct r2 as [[body|e]|]; cbn [option_fmap option_map fmap map_err ac_world ac_ciphers ac_intact];
    [|split; [congruence|]; do 3 (split; [done|]); intros _ _; right; by eexists|split; [congruence|]; do 3 (split; [done|]); by left].
  destruct (read_exact_whole _ _ _ _ E2) as [L2 I2]. rewrite I1' in I2.
  apply app_inj_1 in I2 as [<- I2]; [|unfold len in *; lia]. rewrite Hbody. cbn [map_err ac_world ac_ciphers ac_intact async_ret].
  split; [congruence|]. split; [|done]. intros _. exists nonce, payload, coming. do 3 (split; [done|]).
  constructor; cbn [ac_world ac_ciphers sc_rx sc_tx]; congruence || done.
Qed.
(** What a frame's payload answers a query with. *)
Definition answer_of (query_id payload : list Z) : option (list Z) :=
  if bool_decide (payload = []) then None
  else
    match deserialize_message payload with
    | Some (Answer answered answer) => if bool_decide (answered = query_id) then Some answer else None
    | _ => None
    end.

Definition undecodable (payload : list Z) : Prop := payload ≠ [] ∧ deserialize_message payload = None.
#[global] Instance undecodable_dec payload : Decision (undecodable payload).
Proof. unfold undecodable. apply _. Defined.

(** What became of [rounds] frames at most. *)
Definition looked_at (rounds : nat) (query_id : list Z) (coming coming' : list (list Z * list Z))
    (count : Z) (r : option (result AdnlError (list Z))) : Prop :=
  ∃ skipped, Forall (λ f, answer_of query_id f.2 = None) skipped ∧
    match r with
    | Some (Ok answer) => ∃ f, coming = skipped ++ f :: coming' ∧ (length skipped < rounds)%nat ∧ answer_of query_id f.2 = Some answer
    | Some (Err e) => coming = skipped ++ coming' ∧ length skipped = rounds ∧
        e = (if count + len (filter (λ f, undecodable f.2) skipped) =? MAX_FRAMES_PER_QUERY then AMalformed else NoAnswer)
    | None => False
    end.

Lemma looked_at_skip rounds query_id f coming coming' count r :
  answer_of query_id f.2 = None →
  looked_at rounds query_id coming coming' (if decide (undecodable f.2) then count + 1 else count) r →
  looked_at (S rounds) query_id (f :: coming) coming' count r.
Proof.
  intros Hf (skipped & Hs & H). exists (f :: skipped). split; [by constructor|].
  destruct r as [[answer|e]|]; [| |done].
  - destruct H as (g & -> & Hl & Hg). exists g. split; [done|]. split; [cbn; lia|done].
  - destruct H as (-> & Hl & ->). split; [done|]. split; [cbn; lia|]. rewrite filter_cons.
    case_decide; [rewrite len_cons, Z.add_assoc|]; done.
Qed.

(** Where a wait for an answer was cut off: fewer frames than [rounds] had been read, none
    of them an answer. *)
Definition passed_over (rounds : nat) (query_id : list Z) (coming : list (list Z * list Z)) : Prop :=
  ∃ skipped rest, coming = skipped ++ rest ∧ (length skipped < rounds)%nat ∧
    Forall (λ f, answer_of query_id f.2 = None) skipped.

Lemma passed_over_skip rounds query_id f coming :
  answer_of query_id f.2 = None → passed_over rounds query_id coming → passed_over (S rounds) query_id (f :: coming).
Proof.
  intros Hf (skipped & rest & -> & Hl & Hs). exists (f :: skipped), rest. split; [done|]. split; [cbn; lia|by constructor].
Qed.

Lemma query_loop_spec from greeting rounds query_id : ∀ count conn coming sent,
  (ac_intact conn = true → in_step from greeting conn coming sent) →
  let '(r, conn') := query_loop rounds query_id count conn in
  (ac_intact conn' = true → ac_intact conn = true ∧
     ∃ coming', in_step from greeting conn' coming' sent ∧ looked_at rounds query_id coming coming' count r) ∧
  (∀ answer, r = Some (Ok answer) → ac_intact conn' = true) ∧
  (ac_intact conn = true → ac_intact conn' = false →
     cut_off r ∧ written (ac_world conn') = written (ac_world conn) ∧ passed_over rounds query_id coming).
Proof.
  induction rounds as [|rounds IH]; intros count conn coming sent Hin; cbn [query_loop].
  { replace ((if _ : bool then async_err AMalformed else async_err NoAnswer) conn) with
      (Some (Err (if count =? MAX_FRAMES_PER_QUERY then AMalformed else NoAnswer)) : option (result AdnlError (list Z)), conn)
      by by case_match.
    split; [|split; [done|congruence]]. intros Hi. split; [done|]. exists coming. split; [by apply Hin|]. exists [].
    split; [done|]. split; [done|]. split; [done|]. cbn. by rewrite Z.add_0_r. }
  pose proof (recv_spec _ _ conn coming sent Hin) as Hrecv. unfold async_bind. destruct (recv conn) as [r conn1].
  destruct Hrecv as (Hw & Hr & Hok & _ & Hcut). destruct (ac_intact conn1) eqn:Ei1.
  2:{ destruct r as [[payload|e]|]; [by specialize (Hok payload eq_refl)|..]; (split; [by rewrite Ei1|split; [done|]]);
      intros Hi _; (split; [destruct (Hcut Hi eq_refl) as [|[e' He]]; [by left|right; exists e'; congruence]|]);
      (split; [done|]); exists [], coming; (split; [done|]); (split; [cbn; lia|done]). }
  destruct (Hr eq_refl) as (nonce & payload & coming' & -> & -> & Hi & Hs). clear Hr Hok Hcut. rewrite <- Hw. clear Hw.
  assert (∀ count', answer_of query_id payload = None → count' = (if decide (undecodable payload) then count + 1 else count) →
    let '(r, conn') := query_loop rounds query_id count' conn1 in
    (ac_intact conn' = true → ac_intact conn = true ∧
       ∃ coming'', in_step from greeting conn' coming'' sent ∧ looked_at (S rounds) query_id ((nonce, payload) :: coming') coming'' count r) ∧
    (∀ answer, r = Some (Ok answer) → ac_intact conn' = true) ∧
    (ac_intact conn = true → ac_intact conn' = false →
       cut_off r ∧ written (ac_world conn') = written (ac_world conn1) ∧ passed_over (S rounds) query_id ((nonce, payload) :: coming'))) as Hskip.
  { intros count' Ha ->. specialize (IH (if decide (undecodable payload) then count + 1 else count) conn1 coming' sent (λ _, Hs)).
    destruct (query_loop _ _ _ _) as [r conn']. destruct IH as (IH1 & IH2 & IH3). split; [|split; [done|]].
    - intros Hc. destruct (IH1 Hc) as (_ & coming'' & Hst & Hlook). split; [done|]. exists coming''. split; [done|].
      by apply looked_at_skip.
    - intros _ Hc. destruct (IH3 Ei1 Hc) as (? & ? & ?). do 2 (split; [done|]). by apply passed_over_skip. }
  unfold answer_of in Hskip. case_bool_decide as Hp.
  { apply Hskip; [done|]. rewrite decide_False; [done|]. by intros []. }
  destruct (deserialize_message payload) as [[qid q|qid answer]|] eqn:Em.
  - apply Hskip; [done|]. rewrite decide_False; [done|]. intros []. congruence.
  - case_bool_decide as Hq.
    + split; [|split; [done|congruence]]. intros _. split; [done|]. exists coming'. split; [done|]. exists []. split; [done|].
      exists (nonce, payload). split; [done|]. split; [cbn; lia|]. cbn [snd]. unfold answer_of.
      rewrite bool_decide_false by done. rewrite Em. by rewrite bool_decide_true.
    + apply Hskip; [done|]. rewrite decide_False; [done|]. intros []. congruence.
  - apply Hskip; [done|]. rewrite decide_True; [done|]. by split.
Qed.

(** The wire as a connection that is not intact leaves it. *)
Definition untouched (conn conn' : AdnlConnection W) : Prop :=
  incoming (ac_world conn') = incoming (ac_world conn) ∧ written (ac_world conn') = written (ac_world conn) ∧
  ac_ciphers conn' = ac_ciphers conn ∧ ac_intact conn' = ac_intact conn.

Lemma untouched_in_step from greeting conn conn' coming sent :
  untouched conn conn' → in_step from greeting conn coming sent → in_step from greeting conn' coming sent.
Proof. intros (Hi & Hw & Hc & _) []. constructor; by rewrite ?Hi, ?Hw, ?Hc. Qed.

Lemma random_spec n conn :
  let '(r, conn') := on_world (random n) conn in
  untouched conn conn' ∧ (r = Some (Err NoRandomness) ∨ ∃ bytes, r = Some (Ok bytes) ∧ len bytes = n ∧ Forall is_byte bytes).
Proof.
  unfold on_world, random, untouched. destruct (world_random n (ac_world conn)) as [[bytes|] w] eqn:E;
    cbn [ac_world ac_ciphers ac_intact]; destruct (random_apart _ _ _ _ E) as [-> ->]; (split; [done|]); [right|by left].
  exists bytes. split; [done|]. by apply (random_length _ _ _ _ E).
Qed.

(** A query that was not sent: no randomness, or a message too large for a frame. *)
Definition refused (q : list Z) (r : option (result AdnlError (list Z))) : Prop :=
  r = Some (Err NoRandomness) ∨
  ∃ query_id, let n := len (serialize_message (Query query_id q)) in
    len query_id = 32 ∧ MAX_FRAME < n + MIN_FRAME ∧ r = Some (Err (AFrame (PayloadTooLarge n))).

(** What a query has done to a session, and what it gave, when it left it intact. *)
Definition asked (q : list Z) (coming sent coming' sent' : list (list Z * list Z)) (r : option (result AdnlError (list Z))) : Prop :=
  (coming' = coming ∧ sent' = sent ∧ refused q r) ∨
  ∃ query_id nonce, sent' = sent ++ [(nonce, serialize_message (Query query_id q))] ∧
    looked_at (Z.to_nat MAX_FRAMES_PER_QUERY) query_id coming coming' 0 r.

(** Where a query was cut off: in its sending, nothing read yet, or, sent whole, in the
    wait for its answer. *)
Definition stopped (from : Aes256Ctr) (greeting q : list Z) (conn conn' : AdnlConnection W)
    (coming sent : list (list Z * list Z)) : Prop :=
  incoming (ac_world conn') = incoming (ac_world conn) ∨
  ∃ query_id nonce, len query_id = 32 ∧
    written (ac_world conn') = greeting ++ stream from (sent ++ [(nonce, serialize_message (Query query_id q))]) ∧
    passed_over (Z.to_nat MAX_FRAMES_PER_QUERY) query_id coming.

Lemma query_spec from greeting q conn coming sent :
  (ac_intact conn = true → in_step from greeting conn coming sent) → sendable q →
  let '(r, conn') := query q conn in
  (ac_intact conn = false → untouched conn conn' ∧ (r = Some (Err NoRandomness) ∨ r = Some (Err Desynchronized))) ∧
  (ac_intact conn' = true → ac_intact conn = true ∧
     ∃ coming' sent', in_step from greeting conn' coming' sent' ∧ asked q coming sent coming' sent' r) ∧
  (∀ answer, r = Some (Ok answer) → ac_intact conn' = true) ∧
  (ac_intact conn = true → ac_intact conn' = false → cut_off r ∧ stopped from greeting q conn conn' coming sent).
Proof.
  intros Hin Hq. unfold query.
  assert (∀ (r : option (result AdnlError (list Z))) conn', r = Some (Err NoRandomness) → untouched conn conn' →
    (ac_intact conn = false → untouched conn conn' ∧ (r = Some (Err NoRandomness) ∨ r = Some (Err Desynchronized))) ∧
    (ac_intact conn' = true → ac_intact conn = true ∧
       ∃ coming' sent', in_step from greeting conn' coming' sent' ∧ asked q coming sent coming' sent' r) ∧
    (∀ answer, r = Some (Ok answer) → ac_intact conn' = true) ∧
    (ac_intact conn = true → ac_intact conn' = false → cut_off r ∧ stopped from greeting q conn conn' coming sent)) as Hrandom.
  { intros r conn' -> U. pose proof U as (_ & _ & _ & ->). split; [by auto|]. split; [|split; [done|congruence]]. intros Ht.
    split; [done|]. exists coming, sent. split; [by apply (untouched_in_step _ _ conn), Hin|]. left. do 2 (split; [done|]). by left. }
  unfold async_bind at 1. pose proof (random_spec 32 conn) as H1.
  destruct (on_world (random 32) conn) as [r1 conn1]. destruct H1 as (U1 & [->|(query_id & -> & Lid & Bid)]); [by apply Hrandom|].
  unfold async_bind at 1. pose proof (random_spec 32 conn1) as H2.
  destruct (on_world (random 32) conn1) as [r2 conn2]. destruct H2 as (U2 & H2).
  assert (untouched conn conn2) as U. { destruct U1 as (? & ? & ? & ?), U2 as (? & ? & ? & ?). repeat split; congruence. }
  assert (ac_intact conn2 = ac_intact conn) as Hi by by destruct U as (? & ? & ? & ?).
  destruct H2 as [->|(nonce & -> & Ln & Bn)]; [by apply Hrandom|]. clear Hrandom.
  assert (ac_intact conn2 = true → in_step from greeting conn2 coming sent) as Hin2.
  { rewrite Hi. intros Ht. by apply (untouched_in_step _ _ conn), Hin. }
  unfold async_bind at 1. pose proof (send_spec _ _ conn2 coming sent nonce (serialize_message (Query query_id q)) Hin2 Ln Bn (Hq _ Lid Bid)) as Hsend.
  destruct (send nonce _ conn2) as [r3 conn3]. destruct Hsend as (Hdown & Hup & Hok & Hcut). rewrite Hi in *.
  assert (ac_intact conn = true → ac_intact conn3 = false →
    cut_off r3 ∧ stopped from greeting q conn conn3 coming sent) as Hcut3.
  { intros Ht H3. destruct (Hcut Ht H3) as [Hc He]. split; [done|]. left. destruct U as (U & _). congruence. }
  assert (ac_intact conn = false → untouched conn conn3) as Hun.
  { intros Hf. by destruct (Hdown Hf) as [-> _]. }
  destruct r3 as [[[]|e]|].
  - specialize (Hok eq_refl). destruct (Hup Hok) as (Ht & [[_ Hst]|[? _]]); [|done].
    pose proof (query_loop_spec from greeting (Z.to_nat MAX_FRAMES_PER_QUERY) query_id 0 conn3 coming _ (λ _, Hst)) as Hloop.
    destruct (query_loop _ _ _ conn3) as [r conn4]. destruct Hloop as (L1 & L2 & L3). split; [by rewrite Ht|]. split; [|split; [done|]].
    + intros H4. destruct (L1 H4) as (_ & coming' & Hst' & Hlook). split; [done|]. exists coming', (sent ++ [(nonce, serialize_message (Query query_id q))]).
      split; [done|]. right. by exists query_id, nonce.
    + intros _ H4. destruct (L3 Hok H4) as (Hc & Hw & Hp). split; [done|]. right. exists query_id, nonce.
      split; [done|]. rewrite Hw. split; [apply Hst|done].
  - split; [|split; [|split; [done|]]].
    + intros Hf. destruct (Hdown Hf) as [_ [= ->]]. auto.
    + intros H3. destruct (Hup H3) as (Ht & [[? _]|([= ->] & -> & Hl)]); [done|]. split; [done|]. exists coming, sent.
      split; [by apply Hin2|]. left. do 2 (split; [done|]). right. by exists query_id.
    + intros Ht H3. destruct (Hcut3 Ht H3) as [[|[e' [= ->]]] ?]; [done|]. split; [right; by eexists|done].
  - split; [|split; [|split; [done|]]].
    + intros Hf. by destruct (Hdown Hf) as [_ ?].
    + intros H3. by destruct (Hup H3) as (_ & [[? _]|[? _]]).
    + intros Ht H3. destruct (Hcut3 Ht H3) as [_ ?]. split; [by left|done].
Qed.

(** A session, one query after another, whatever became of each. *)
Fixpoint queries (qs : list (list Z)) (conn : AdnlConnection W) : AdnlConnection W :=
  match qs with
  | [] => conn
  | q :: qs => queries qs (query q conn).2
  end.

Lemma queries_in_step from greeting qs conn coming sent :
  (ac_intact conn = true → in_step from greeting conn coming sent) → Forall sendable qs →
  ac_intact (queries qs conn) = true →
  ac_intact conn = true ∧ ∃ gone coming' sent', coming = gone ++ coming' ∧ in_step from greeting (queries qs conn) coming' (sent ++ sent').
Proof.
  revert conn coming sent. induction qs as [|q qs IH]; intros conn coming sent Hin Hqs Hi; cbn [queries] in *.
  { split; [done|]. exists [], coming, []. rewrite app_nil_r. split; [done|]. by apply Hin. }
  apply Forall_cons in Hqs as [Hq Hqs]. pose proof (query_spec from greeting q conn coming sent Hin Hq) as Hspec.
  destruct (query q conn) as [r conn1]. cbn [snd] in *. destruct Hspec as (_ & Hup & _).
  destruct (ac_intact conn1) eqn:E1.
  - destruct (Hup eq_refl) as (Ht & coming1 & sent1 & Hst & Hask). split; [done|].
    destruct (IH conn1 coming1 sent1 (λ _, Hst) Hqs Hi) as (_ & gone & coming' & sent' & -> & Hst').
    assert (∃ gone1, coming = gone1 ++ gone ++ coming') as [gone1 ->].
    { destruct Hask as [(<- & _)|(query_id & nonce & _ & skipped & _ & H)]; [by exists []|].
      destruct r as [[answer|e]|]; [| |done].
      - destruct H as (f & -> & _). exists (skipped ++ [f]). by rewrite <- app_assoc.
      - destruct H as (-> & _). by exists skipped. }
    assert (∃ more, sent1 = sent ++ more) as [more ->].
    { destruct Hask as [(_ & -> & _)|(query_id & nonce & -> & _)]; [exists []; by rewrite app_nil_r|by eexists]. }
    exists (gone1 ++ gone), coming', (more ++ sent'). rewrite <- !app_assoc in *. done.
  - destruct (IH conn1 coming sent ltac:(by rewrite E1) Hqs Hi) as [? _]. congruence.
Qed.

Lemma connect_spec server_key w r w' :
  connect server_key w = (r, w') →
  incoming w' = incoming w ∧
  ∀ conn, r = Some (Ok conn) → ac_world conn = w' ∧ ac_intact conn = true ∧
    ∃ seed w1 params w2 h, world_random 32 w = (Some seed, w1) ∧ world_random 160 w1 = (Some params, w2) ∧
      client_handshake server_key (MkSecrets seed params) = Ok h ∧
      written w' = written w ++ hk_packet h ∧ ac_ciphers conn = from_params params.
Proof.
  unfold connect, async_bind, random, write_all. destruct (world_random 32 w) as [[seed|] w1] eqn:E1;
    destruct (random_apart _ _ _ _ E1) as [I1 W1]; [|intros [= <- <-]; by rewrite I1].
  destruct (world_random 160 w1) as [[params|] w2] eqn:E2; destruct (random_apart _ _ _ _ E2) as [I2 W2];
    [|intros [= <- <-]; by rewrite I2].
  destruct (client_handshake server_key (MkSecrets seed params)) as [h|e] eqn:Eh; cbn [map_err];
    [|intros [= <- <-]; by rewrite I2].
  destruct (world_write_all (hk_packet h) w2) as [r3 w3] eqn:E3. pose proof (write_all_apart _ _ _ _ E3) as I3.
  destruct r3 as [[[]|e]|]; cbn [option_fmap option_map fmap map_err]; intros [= <- <-]; (split; [congruence|]); [|done..].
  intros conn [= <-]. cbn [ac_world ac_ciphers ac_intact]. do 2 (split; [done|]). exists seed, w1, params, w2, h.
  do 3 (split; [done|]). split; [rewrite (write_all_whole _ _ _ E3); congruence|].
  unfold client_handshake in Eh. destruct (decompress server_key); [|done]. cbn [ok_or res_bind] in Eh. case_bool_decide; [done|].
  destruct (apply_keystream _ _). by injection Eh as <-.
Qed.

(** C24: a query over an intact connection answers with the first of at most eight frames
    that decodes to an answer to it. It says there was no answer after eight frames none of
    which is one, and that they are malformed when none of the eight could be decoded; it is
    refused, nothing sent, for want of randomness or a message too large for a frame. In all
    of these the connection goes on, in step: the frames it read are gone, and the rest
    come. The connection is lost only where the transport fails or the caller stops waiting:
    either while the query was sent, nothing read, or after it was sent whole and fewer than
    eight frames were passed over. No other error is possible. *)
Theorem query_answers from greeting q conn coming sent :
  in_step from greeting conn coming sent → ac_intact conn = true → sendable q →
  let '(r, conn') := query q conn in
  match r with
  | Some (Ok _) | Some (Err (NoAnswer | AMalformed | NoRandomness | AFrame (PayloadTooLarge _))) =>
      ac_intact conn' = true ∧
      ∃ coming' sent', in_step from greeting conn' coming' sent' ∧ asked q coming sent coming' sent' r
  | Some (Err (ATransport _)) | None => ac_intact conn' = false ∧ stopped from greeting q conn conn' coming sent
  | Some (Err (AHandshake _ | AFrame (ImplausibleLength _ | BodyTooShort | Checksum) | Desynchronized)) => False
  end.
Proof.
  intros Hst Hi Hq. pose proof (query_spec from greeting q conn coming sent (λ _, Hst) Hq) as Hspec.
  destruct (query q conn) as [r conn']. destruct Hspec as (_ & Hup & Hok & Hcut). destruct (ac_intact conn') eqn:E.
  - destruct (Hup eq_refl) as (_ & Hdone). pose proof Hdone as (coming' & sent' & _ & Hask).
    destruct Hask as [(_ & _ & [->|(query_id & _ & _ & ->)])|(query_id & nonce & _ & skipped & _ & H)]; [done..|].
    destruct r as [[answer|e]|]; [done| |done]. destruct H as (_ & _ & ->). by case_match.
  - destruct (Hcut Hi eq_refl) as [[->|[e ->]] Hstop]; done.
Qed.

(** C5: whatever is asked over a connection, and whatever fails or is dropped on the way, a
    connection that says it is intact is in step with the server: everything still to come
    is whole frames encrypted from where its cipher is, and what the server was given is
    the handshake and whole frames. One that does not say so refuses every query and
    neither reads nor writes another byte. *)
Theorem connection_in_sync server_key w conn w' qs :
  connect server_key w = (Some (Ok conn), w') → Forall sendable qs →
  ∃ seed w1 params w2 h, world_random 32 w = (Some seed, w1) ∧ world_random 160 w1 = (Some params, w2) ∧
    client_handshake server_key (MkSecrets seed params) = Ok h ∧ written (ac_world conn) = written w ++ hk_packet h ∧
    ∀ coming, Forall framable coming → incoming w = stream (sc_tx (server_ciphers params)) coming →
      let conn' := queries qs conn in
      (ac_intact conn' = true → ∃ gone coming' sent, coming = gone ++ coming' ∧
         in_step (sc_rx (server_ciphers params)) (written w ++ hk_packet h) conn' coming' sent) ∧
      (ac_intact conn' = false → ∀ q, sendable q →
         untouched conn' (query q conn').2 ∧
         ((query q conn').1 = Some (Err NoRandomness) ∨ (query q conn').1 = Some (Err Desynchronized))).
Proof.
  intros Hconn Hqs. destruct (connect_spec _ _ _ _ Hconn) as [Hin Hok].
  destruct (Hok conn eq_refl) as (Hw & Hi & seed & w1 & params & w2 & h & H1 & H2 & Hh & Hwr & Hc). exists seed, w1, params, w2, h.
  do 3 (split; [done|]). rewrite Hw. split; [done|]. intros coming Hf Hcoming conn'.
  assert (in_step (sc_rx (server_ciphers params)) (written w ++ hk_packet h) conn coming []) as Hst.
  { constructor; rewrite ?Hw, ?Hc; [by rewrite Hin|done|done| |done]. by rewrite app_nil_r. }
  split.
  - intros H. destruct (queries_in_step _ _ qs conn coming [] (λ _, Hst) Hqs H) as (_ & gone & coming' & sent & -> & ?).
    by exists gone, coming', sent.
  - intros H q Hq. pose proof (query_spec (sc_rx (ac_ciphers conn')) [] q conn' [] []) as Hspec.
    destruct (query q conn') as [r conn2]. apply Hspec; [congruence|done..].
Qed.

(** A transport that does not fail, to a peer that does not hang up, and randomness to be
    had. *)
Record reliable : Prop := {
  random_ready n w : 0 <= n → ∃ bytes w', world_random n w = (Some bytes, w');
  write_all_ready buf w : ∃ w', world_write_all buf w = (Some (Ok tt), w');
  read_exact_ready n w : 0 <= n <= len (incoming w) → ∃ bytes w', world_read_exact n w = (Some (Ok bytes), w');
}.

Lemma recv_completes from greeting conn f coming sent :
  reliable → in_step from greeting conn (f :: coming) sent → ac_intact conn = true →
  (recv conn).1 = Some (Ok f.2) ∧ ac_intact (recv conn).2 = true ∧ in_step from greeting (recv conn).2 coming sent.
Proof.
  intros HR Hst Hi. pose proof (recv_spec from greeting conn (f :: coming) sent (λ _, Hst)) as Hspec.
  assert (ac_intact (recv conn).2 = true) as Ht.
  { clear Hspec. destruct Hst as [Hc Hf _ _ _]. apply Forall_cons in Hf as [Hf1 Hf]. destruct f as [nonce payload].
    destruct conn as [w [rx tx] intact]. cbn [ac_world ac_ciphers ac_intact sc_rx] in *. subst intact.
    destruct (open_frame nonce payload rx tx Hf1) as (mid & Hopen & Lbody & Hbody). cbn [stream] in Hc.
    destruct (apply_keystream (plain_frame nonce payload) rx) as [frame rx'] eqn:Ek. cbn [fst snd] in *.
    pose proof (len_nonneg payload) as Hp. change MIN_FRAME with 64 in *.
    assert (4 <= len frame) as L4. { unfold len in *. rewrite length_drop in Lbody. lia. }
    unfold recv, check, async_bind, set_intact, on_world, read_exact, on_ciphers. cbn [ac_world ac_ciphers ac_intact].
    destruct (read_exact_ready HR 4 w) as (prefix & w1 & E1).
    { rewrite Hc, len_app. pose proof (len_nonneg (stream rx' coming)). lia. }
    rewrite E1. cbn [option_fmap option_map fmap map_err ac_world ac_ciphers ac_intact].
    destruct (read_front 4 w prefix w1 frame (stream rx' coming) E1 Hc L4) as [-> I1']. change (Z.to_nat 4) with 4%nat in *.
    rewrite Hopen. cbn [map_err ac_world ac_ciphers ac_intact].
    destruct (read_exact_ready HR (len payload + 64) w1) as (body & w2 & E2).
    { rewrite I1', len_app, Lbody. pose proof (len_nonneg (stream rx' coming)). lia. }
    rewrite E2. cbn [option_fmap option_map fmap map_err ac_world ac_ciphers ac_intact].
    destruct (read_exact_whole _ _ _ _ E2) as [L2 I2]. rewrite I1' in I2.
    apply app_inj_1 in I2 as [<- I2]; [|unfold len in *; lia]. by rewrite Hbody. }
  destruct (recv conn) as [r conn']. cbn [fst snd] in *. destruct Hspec as (_ & Hup & _).
  destruct (Hup Ht) as (nonce & payload & coming' & -> & [= -> ->] & _ & ?). done.
Qed.

Lemma query_loop_completes from greeting rounds query_id : ∀ count conn coming sent,
  reliable → in_step from greeting conn coming sent → ac_intact conn = true → (rounds <= length coming)%nat →
  ac_intact (query_loop rounds query_id count conn).2 = true.
Proof.
  induction rounds as [|rounds IH]; intros count conn coming sent HR Hst Hi Hl; cbn [query_loop].
  { by case_match. }
  destruct coming as [|f coming]; [cbn in Hl; lia|]. destruct (recv_completes _ _ _ _ _ _ HR Hst Hi) as (H1 & H2 & H3).
  unfold async_bind. destruct (recv conn) as [r conn1]. cbn [fst snd] in *. subst r. cbn [length] in Hl.
  assert (∀ count', ac_intact (query_loop rounds query_id count' conn1).2 = true) as Hnext by (intros ?; apply (IH _ _ coming sent); done || lia).
  repeat case_match; try done; apply Hnext.
Qed.

(** C25: over a transport that does not fail, a query that fits a frame is sent and ends
    once the server has sent eight frames: it gives the first answer among them, or the
    error that says there was none, and the connection goes on. *)
Theorem query_completes from greeting q conn coming sent :
  reliable → in_step from greeting conn coming sent → ac_intact conn = true → sendable q →
  (∀ query_id, len query_id = 32 → len (serialize_message (Query query_id q)) + MIN_FRAME <= MAX_FRAME) →
  (Z.to_nat MAX_FRAMES_PER_QUERY <= length coming)%nat →
  let '(r, conn') := query q conn in
  ac_intact conn' = true ∧ ∃ query_id nonce coming',
    in_step from greeting conn' coming' (sent ++ [(nonce, serialize_message (Query query_id q))]) ∧
    looked_at (Z.to_nat MAX_FRAMES_PER_QUERY) query_id coming coming' 0 r.
Proof.
  intros HR Hst Hi Hq Hfit Hl. unfold query. unfold async_bind at 1. pose proof (random_spec 32 conn) as H1.
  destruct (on_world (random 32) conn) as [r1 conn1] eqn:E1. destruct H1 as (U1 & [->|(query_id & -> & Lid & Bid)]).
  { unfold on_world, random in E1. destruct (random_ready HR 32 (ac_world conn) ltac:(lia)) as (bytes & w1 & E). by rewrite E in E1. }
  unfold async_bind at 1. pose proof (random_spec 32 conn1) as H2.
  destruct (on_world (random 32) conn1) as [r2 conn2] eqn:E2. destruct H2 as (U2 & [->|(nonce & -> & Ln & Bn)]).
  { unfold on_world, random in E2. destruct (random_ready HR 32 (ac_world conn1) ltac:(lia)) as (bytes & w1 & E). by rewrite E in E2. }
  assert (in_step from greeting conn2 coming sent) as Hst2 by by apply (untouched_in_step _ _ conn1), (untouched_in_step _ _ conn).
  assert (ac_intact conn2 = true) as Hi2 by (destruct U1 as (_ & _ & _ & I1), U2 as (_ & _ & _ & I2); congruence).
  unfold async_bind at 1.
  pose proof (send_spec _ _ conn2 coming sent nonce (serialize_message (Query query_id q)) (λ _, Hst2) Ln Bn (Hq _ Lid Bid)) as Hsend.
  assert (ac_intact (send nonce (serialize_message (Query query_id q)) conn2).2 = true ∧
          (send nonce (serialize_message (Query query_id q)) conn2).1 = Some (Ok tt)) as [Hi3 Hr3].
  { unfold send, check, async_bind, on_ciphers. rewrite Hi2, seal_spec by (split; [done|]; split; [done|]; split; [by apply Hq|by apply Hfit]).
    cbn [map_err]. unfold set_intact, on_world, write_all. cbn [ac_world ac_ciphers ac_intact].
    destruct (write_all_ready HR (apply_keystream (plain_frame nonce (serialize_message (Query query_id q))) (sc_tx (ac_ciphers conn2))).1 (ac_world conn2)) as [w3 E3].
    by rewrite E3. }
  destruct (send nonce _ conn2) as [r3 conn3]. cbn [fst snd] in *. subst r3. destruct Hsend as (_ & Hup & _).
  destruct (Hup Hi3) as (_ & [[_ Hst3]|[? _]]); [|done].
  pose proof (query_loop_spec from greeting (Z.to_nat MAX_FRAMES_PER_QUERY) query_id 0 conn3 coming _ (λ _, Hst3)) as Hloop.
  pose proof (query_loop_completes _ _ (Z.to_nat MAX_FRAMES_PER_QUERY) query_id 0 conn3 coming _ HR Hst3 Hi3 Hl) as Hi4.
  destruct (query_loop _ _ _ conn3) as [r conn4]. cbn [snd] in Hi4. destruct Hloop as [L1 _]. split; [done|].
  destruct (L1 Hi4) as (_ & coming' & ? & ?). by exists query_id, nonce, coming'.
Qed.

End connection.
