(* ===== verification/Lite.v ===== *)
(** The liteserver client: core/src/lite/client.rs and lite/types.rs over the session of
    Adnl.v, and the classes of error it crosses into (core/src/error.rs). The TL
    serializers the [tl_proto] macros derive for core/src/tl/lite.rs are parameters. *)

From stdpp Require Import base list list_numbers numbers strings pretty.
From Stdlib Require Import ZArith Lia Ascii.
From S2P Require Import Prelude Errors Bits Codec CellHash Chain Sync Adnl.

Local Open Scope Z_scope.

(** ** tl/lite.rs *)

Record AccountId : Type := MkAccountId { ai_workchain : Z; ai_id : list Z }.

Inductive Request : Type :=
| GetMasterchainInfo
| GetAccountState (id : BlockIdExt) (account : AccountId)
| SendMessage (body : list Z)
| GetBlockProof (known_block : BlockIdExt) (target_block : option BlockIdExt).

Record WireMasterchainInfo : Type := MkWireMasterchainInfo { wmi_last : BlockIdExt; wmi_state_root_hash : list Z }.
Record WireAccountState : Type := MkWireAccountState {
  was_id : BlockIdExt;
  was_shardblk : BlockIdExt;
  was_shard_proof : list Z;
  was_proof : list Z;
  was_state : list Z;
}.
Record WireError : Type := MkWireError { we_code : Z; we_message : list Z }.

(** What the macros derive; a failure is what it is rendered as. *)
Class LiteTl : Type := {
  serialize_query : list Z → list Z;
  serialize_request : Request → list Z;
  deserialize_error : list Z → result string WireError;
  deserialize_masterchain_info : list Z → result string WireMasterchainInfo;
  deserialize_account_state : list Z → result string WireAccountState;
  deserialize_send_msg_status : list Z → result string Z;
  deserialize_block_proof : list Z → result string PartialBlockProof;
}.

(** ** lite/types.rs *)

Record ServerReported (T : Type) : Type := MkServerReported { sr_value : T; sr_proof : list Z }.
Arguments MkServerReported {_} _ _.
Arguments sr_value {_} _.
Arguments sr_proof {_} _.

Definition try_map {T U E} (read : T → result E U) (self : ServerReported T) : result E (ServerReported U) :=
  let? value := read (sr_value self) in
  Ok (MkServerReported value (sr_proof self)).

Record Accepted : Type := MkAccepted { ac_status : Z }.

Record MasterchainInfo : Type := MkMasterchainInfo { mi_last : BlockIdExt; mi_state_root_hash : list Z }.
Record AccountState : Type := MkAccountState {
  as_block : BlockIdExt;
  as_shard_block : BlockIdExt;
  as_shard_proof : list Z;
  as_state : list Z;
}.

(** ** [String::from_utf8_lossy] and [str::contains]

    A [String] is the list of its bytes. *)

Definition REPLACEMENT : list Z := [0xEF; 0xBF; 0xBD].

Definition is_continuation (b : Z) : bool := Z.land b 192 =? 128.

(** The second byte of a character of three or four bytes. *)
Definition second_of_three (b c : Z) : bool :=
  (b =? 0xE0) && between 0xA0 c 0xBF || between 0xE1 b 0xEC && between 0x80 c 0xBF ||
  (b =? 0xED) && between 0x80 c 0x9F || between 0xEE b 0xEF && between 0x80 c 0xBF.
Definition second_of_four (b c : Z) : bool :=
  (b =? 0xF0) && between 0x90 c 0xBF || between 0xF1 b 0xF3 && between 0x80 c 0xBF ||
  (b =? 0xF4) && between 0x80 c 0x8F.

(** The bytes a text starts with: whether they are a character, and how many they are. *)
Definition first_char (b : Z) (rest : list Z) : bool * nat :=
  let get i := default 0 (rest !! i) in
  if b <? 128 then (true, 1%nat)
  else if between 0xC2 b 0xDF then if is_continuation (get 0%nat) then (true, 2%nat) else (false, 1%nat)
  else if between 0xE0 b 0xEF then
    if negb (second_of_three b (get 0%nat)) then (false, 1%nat)
    else if is_continuation (get 1%nat) then (true, 3%nat) else (false, 2%nat)
  else if between 0xF0 b 0xF4 then
    if negb (second_of_four b (get 0%nat)) then (false, 1%nat)
    else if negb (is_continuation (get 1%nat)) then (false, 2%nat)
    else if is_continuation (get 2%nat) then (true, 4%nat) else (false, 3%nat)
  else (false, 1%nat).

(** A character takes a byte at least, so the length is fuel enough. *)
Fixpoint lossy (fuel : nat) (l : list Z) : list Z :=
  match fuel, l with
  | S fuel, b :: rest =>
      let '(whole, n) := first_char b rest in
      (if whole then take n l else REPLACEMENT) ++ lossy fuel (drop n l)
  | _, _ => []
  end.

Definition from_utf8_lossy (l : list Z) : list Z := lossy (length l) l.

Fixpoint starts_with (pat l : list Z) : bool :=
  match pat, l with
  | [], _ => true
  | p :: pat, b :: l => (p =? b) && starts_with pat l
  | _ :: _, [] => false
  end.

Fixpoint contains (pat l : list Z) : bool :=
  starts_with pat l || match l with [] => false | _ :: l => contains pat l end.

Definition text (l : list Z) : string :=
  String.string_of_list_ascii ((λ b, ascii_of_N (Z.to_N b)) <$> l).

(** ** lite/client.rs *)

Definition DUPLICATE_SEND : list Z :=
  (λ a, Z.of_N (N_of_ascii a)) <$> String.list_ascii_of_string "duplicate message".

Inductive LiteError : Type :=
| LAdnl (error : AdnlError)
| LLiteServer (code : Z) (message : list Z)
| DuplicateSend (code : Z) (message : list Z)
| LDecode (error : string).

Definition build_query `{LiteTl} (request : Request) : list Z := serialize_query (serialize_request request).

Definition decode_answer `{LiteTl} {R} (deserialize : list Z → result string R) (answer : list Z) : result LiteError R :=
  match deserialize_error answer with
  | Ok error => Err (LLiteServer (we_code error) (from_utf8_lossy (we_message error)))
  | Err _ => map_err LDecode (deserialize answer)
  end.

Definition name_a_duplicate (error : LiteError) : LiteError :=
  match error with
  | LLiteServer code message => if contains DUPLICATE_SEND message then DuplicateSend code message else LLiteServer code message
  | other => other
  end.

Section client.
Context `{Hasher} `{Ctr} `{Exchange} `{AdnlTl} `{LiteTl} {W : Type} `{World W}.
Local Open Scope async_scope.

(** A [LiteClient] is the connection it holds. *)
Definition asking (q : list Z) : async (AdnlConnection W) LiteError (list Z) := λ self,
  let '(r, self) := query q self in (map_err LAdnl <$> r, self).

Definition answered {A} (r : result LiteError A) : async (AdnlConnection W) LiteError A := λ self, (Some r, self).


Definition lite_connect (server_key : list Z) (transport : W) : option (result LiteError (AdnlConnection W)) * W :=
  let '(r, w) := connect server_key transport in (map_err LAdnl <$> r, w).

Definition masterchain_info : async (AdnlConnection W) LiteError (ServerReported MasterchainInfo) :=
  await! answer <- asking (build_query GetMasterchainInfo);
  await! info <- answered (decode_answer deserialize_masterchain_info answer);
  async_ret (MkServerReported (MkMasterchainInfo (from_wire (wmi_last info)) (wmi_state_root_hash info)) []).

Definition account_state (block : BlockIdExt) (account : AccountId) : async (AdnlConnection W) LiteError (ServerReported AccountState) :=
  let request := GetAccountState (to_wire block) account in
  await! answer <- asking (build_query request);
  await! state <- answered (decode_answer deserialize_account_state answer);
  async_ret (MkServerReported
    (MkAccountState (from_wire (was_id state)) (from_wire (was_shardblk state)) (was_shard_proof state) (was_state state))
    (was_proof state)).

Definition send_message (boc : list Z) : async (AdnlConnection W) LiteError Accepted :=
  let request := SendMessage boc in
  await! answer <- asking (build_query request);
  await! status <- answered (map_err name_a_duplicate (decode_answer deserialize_send_msg_status answer));
  async_ret (MkAccepted status).

Definition block_proof (known target : BlockIdExt) : async (AdnlConnection W) LiteError PartialBlockProof :=
  let request := GetBlockProof (to_wire known) (Some (to_wire target)) in
  await! answer <- asking (build_query request);
  answered (decode_answer deserialize_block_proof answer).
End client.

(** ** error.rs *)

Definition transport_message (error : TransportError) : string :=
  match error with
  | Io message => "transport i/o failed: " +:+ message
  | ConnectTimeout => "transport connect timed out"
  end.

Definition frame_message (error : FrameError) : string :=
  match error with
  | ImplausibleLength length => "implausible frame length " +:+ pretty length
  | BodyTooShort => "frame body too short"
  | PayloadTooLarge length => "payload of " +:+ pretty length +:+ " bytes does not fit one frame"
  | Checksum => "frame checksum mismatch"
  end.

Definition from_transport_error (error : TransportError) : Error := Transport (transport_message error).

Definition from_adnl_error (error : AdnlError) : Error :=
  match error with
  | ATransport transport => from_transport_error transport
  | AHandshake _ => Sync.Handshake
  | Desynchronized => ConnectionLost
  | AFrame frame => Decode (frame_message frame)
  | AMalformed => Decode "server sent a malformed adnl message"
  | NoAnswer => Decode "no answer to the query"
  | NoRandomness => Decode "the operating system supplied no randomness"
  end.

Definition from_lite_error (error : LiteError) : Error :=
  match error with
  | LAdnl adnl => from_adnl_error adnl
  | LLiteServer code message | DuplicateSend code message => LiteServer code (text message)
  | LDecode decode => Decode decode
  end.
