(* ===== verification/LiteTheorems.v ===== *)
(** What a liteserver's answer is taken for: the rendering of an error's message loses
    nothing a search for plain text would find, and so a refused duplicate is named as one
    exactly when the server said so. *)

From stdpp Require Import base list list_numbers numbers strings pretty.
From Stdlib Require Import ZArith Lia Ascii.
From S2P Require Import Prelude Errors Bits Codec CellHash Chain Sync Adnl Lite.

Local Open Scope Z_scope.

(** ** Rendering bytes as text *)

Definition ascii (b : Z) : Prop := 0 <= b < 128.

Lemma continuation_high b : is_byte b → is_continuation b = true → 128 <= b.
Proof.
  unfold is_byte, is_continuation. intros Hb He. apply Z.eqb_eq in He. destruct (Z.le_gt_cases 128 b); [done|].
  assert (Z.testbit (Z.land b 192) 7 = true) as Ht by by rewrite He. rewrite Z.land_spec in Ht.
  apply andb_prop in Ht as [Ht _]. rewrite Z.testbit_true in Ht by lia. change (2 ^ 7) with 128 in Ht.
  rewrite Z.div_small in Ht by lia. done.
Qed.

Lemma between_spec lo c hi : between lo c hi = true ↔ lo <= c <= hi.
Proof. unfold between. rewrite andb_true_iff, !Z.leb_le. done. Qed.

Lemma second_high b c : second_of_three b c = true ∨ second_of_four b c = true → 128 <= c.
Proof.
  unfold second_of_three, second_of_four. rewrite !orb_true_iff, !andb_true_iff, !between_spec. lia.
Qed.

(** A byte asked for past the end reads as zero, which goes on with nothing. *)
Lemma high_byte (rest : list Z) (i : nat) : Forall is_byte rest → is_continuation (default 0 (rest !! i)) = true →
  ∃ c, rest !! i = Some c ∧ 128 <= c.
Proof.
  intros Hr Hc. destruct (rest !! i) as [c|] eqn:E; [|done]. exists c. split; [done|].
  apply continuation_high; [by apply (Forall_lookup_1 _ _ _ _ Hr E)|done].
Qed.

Lemma high_second b (rest : list Z) (i : nat) : second_of_three b (default 0 (rest !! i)) = true ∨ second_of_four b (default 0 (rest !! i)) = true →
  ∃ c, rest !! i = Some c ∧ 128 <= c.
Proof.
  intros Hc%second_high. destruct (rest !! i) as [c|]; [by exists c|]. cbn in Hc. lia.
Qed.

Definition high_run (n : nat) (l : list Z) : Prop := (1 <= n <= length l)%nat ∧ Forall (λ c, 128 <= c) (take n l).

Lemma high_run_cons (n : nat) b c (l : list Z) : 128 <= b → l !! n = Some c → 128 <= c → high_run (S n) (b :: l) → high_run (S (S n)) (b :: l).
Proof.
  intros Hb Hc Hh [Hn Hf]. pose proof (lookup_lt_Some _ _ _ Hc). split; [cbn; lia|].
  change (take (S (S n)) (b :: l)) with (b :: take (S n) l). rewrite (take_S_r _ _ c) by done.
  cbn [take] in Hf. apply Forall_cons in Hf as [_ Hf]. apply Forall_cons. split; [done|]. apply Forall_app. split; [done|]. by apply Forall_singleton.
Qed.

(** What stands at the front: one plain byte, or bytes none of which is plain, taken for
    a character of as many or for something that is none. *)
Lemma first_char_spec b rest : is_byte b → Forall is_byte rest →
  if b <? 128 then first_char b rest = (true, 1%nat) else high_run (first_char b rest).2 (b :: rest).
Proof.
  intros Hb Hr. unfold first_char. destruct (Z.ltb_spec b 128) as [|H0]; [done|].
  assert (high_run 1 (b :: rest)) as R1. { split; [cbn; lia|]. cbn [take]. apply Forall_cons. split; [done|constructor]. }
  assert (∀ n, high_run (S n) (b :: rest) → is_continuation (default 0 (rest !! n)) = true → high_run (S (S n)) (b :: rest)) as Rc.
  { intros n Hn Hc. destruct (high_byte rest n Hr Hc) as (c & Hc' & Hh). by apply (high_run_cons n b c). }
  assert (∀ n, high_run (S n) (b :: rest) →
    second_of_three b (default 0 (rest !! n)) = true ∨ second_of_four b (default 0 (rest !! n)) = true → high_run (S (S n)) (b :: rest)) as Rs.
  { intros n Hn Hc. destruct (high_second b rest n Hc) as (c & Hc' & Hh). by apply (high_run_cons n b c). }
  destruct (between 0xC2 b 0xDF). { destruct (is_continuation _) eqn:E; [by apply Rc|done]. }
  destruct (between 0xE0 b 0xEF).
  { destruct (second_of_three _ _) eqn:E2; cbn [negb]; [|done]. assert (high_run 2 (b :: rest)) as R2 by (apply Rs; auto).
    destruct (is_continuation _) eqn:E3; [by apply Rc|done]. }
  destruct (between 0xF0 b 0xF4); [|done].
  destruct (second_of_four _ _) eqn:E2; cbn [negb]; [|done]. assert (high_run 2 (b :: rest)) as R2 by (apply Rs; auto).
  destruct (is_continuation (default 0 (rest !! 1%nat))) eqn:E3; cbn [negb]; [|done]. assert (high_run 3 (b :: rest)) as R3 by by apply Rc.
  destruct (is_continuation (default 0 (rest !! 2%nat))) eqn:E4; [by apply Rc|done].
Qed.

(** Rendered: the plain bytes where they were, and something that is not plain where
    something was not. *)
Inductive rendered : list Z → list Z → Prop :=
| rendered_nil : rendered [] []
| rendered_plain b l m : b < 128 → rendered l m → rendered (b :: l) (b :: m)
| rendered_high h h' l m :
    h ≠ [] → h' ≠ [] → Forall (λ c, 128 <= c) h → Forall (λ c, 128 <= c) h' → rendered l m → rendered (h ++ l) (h' ++ m).

Lemma lossy_rendered fuel l : Forall is_byte l → (length l <= fuel)%nat → rendered l (lossy fuel l).
Proof.
  revert l. induction fuel as [|fuel IH]; intros [|b rest] Hb Hl; [constructor|cbn in Hl; lia|constructor|].
  pose proof (Forall_cons_1 _ _ _ Hb) as [Hb1 Hr]. pose proof (first_char_spec b rest Hb1 Hr) as Hf. cbn [lossy].
  destruct (first_char b rest) as [whole n]. destruct (Z.ltb_spec b 128).
  - injection Hf as -> ->. cbn [take drop app]. apply rendered_plain; [done|]. apply IH; [done|]. cbn in Hl. lia.
  - destruct Hf as [Hn Hh]. cbn [snd] in *. rewrite <- (take_drop n (b :: rest)) at 1.
    assert (take n (b :: rest) ≠ []) as Hne. { destruct n; [lia|done]. }
    apply rendered_high; [done| |done| |].
    + by destruct whole.
    + destruct whole; [done|]. repeat constructor; lia.
    + apply IH; [by apply Forall_drop|]. rewrite length_drop. cbn in *. lia.
Qed.

(** Text in plain bytes is found in the one exactly when it is found in the other. *)
Lemma starts_with_high pat h l : pat ≠ [] → Forall ascii pat → h ≠ [] → Forall (λ c, 128 <= c) h → starts_with pat (h ++ l) = false.
Proof.
  intros Hp Ha Hh Hf. destruct pat as [|p pat], h as [|b h]; [done..|]. cbn [app starts_with].
  apply Forall_cons in Ha as [Ha _], Hf as [Hb _]. unfold ascii in Ha. by rewrite (proj2 (Z.eqb_neq _ _)) by lia.
Qed.

Lemma rendered_starts pat l m : Forall ascii pat → rendered l m → starts_with pat l = starts_with pat m.
Proof.
  intros Ha. revert l m. induction Ha as [|p pat Hp Ha IH]; intros l m Hr; [by destruct l, m|].
  destruct Hr as [|b l m _ Hr|h h' l m]; [done|cbn; by rewrite (IH _ _ Hr)|].
  rewrite !starts_with_high; done || by constructor.
Qed.

Lemma contains_high pat h l : pat ≠ [] → Forall ascii pat → Forall (λ c, 128 <= c) h → contains pat (h ++ l) = contains pat l.
Proof.
  intros Hp Ha. induction 1 as [|b h Hb Hf IH]; [done|]. cbn [app]. change (contains pat (b :: h ++ l)) with
    (starts_with pat ((b :: h) ++ l) || contains pat (h ++ l)). by rewrite starts_with_high, IH by (done || by constructor).
Qed.

Lemma rendered_contains pat l m : pat ≠ [] → Forall ascii pat → rendered l m → contains pat l = contains pat m.
Proof.
  intros Hp Ha. induction 1 as [|b l m Hb Hr IH|h h' l m Hn Hn' Hh Hh' Hr IH]; [done| |by rewrite !contains_high].
  cbn [contains]. rewrite IH. f_equal. apply rendered_starts; [done|]. by constructor.
Qed.

Lemma contains_spec pat l : contains pat l = true ↔ ∃ before after, l = before ++ pat ++ after.
Proof.
  assert (∀ l, starts_with pat l = true ↔ ∃ after, l = pat ++ after) as Hs.
  { induction pat as [|p pat IH]; intros m; [split; [by exists m|by destruct m]|]. destruct m as [|b m]; cbn [starts_with].
    - split; [done|by intros []].
    - rewrite andb_true_iff, Z.eqb_eq, IH. split; [intros [-> [after ->]]; by exists after|]. intros [after [= -> ->]]. eauto. }
  induction l as [|b l IH]; cbn [contains]; rewrite orb_true_iff, Hs.
  - split; [intros [[after E]|?]; [by exists [], after|done]|]. intros (before & after & E). symmetry in E. apply app_eq_nil in E as [-> E]. left. by exists after.
  - rewrite IH. split.
    + intros [[after ->]|(before & after & ->)]; [by exists [], after|by exists (b :: before), after].
    + intros ([|c before] & after & E); [left; by exists after|]. injection E as -> ->. right. by exists before, after.
Qed.

(** ** Theorems *)

Section answers.
Context `{Hasher} `{Ctr} `{Exchange} `{AdnlTl} `{LiteTl} {W : Type} `{World W}.

(** The session gave a call the bytes of an answer to its request. *)
Definition answered_with (answer : list Z) (request : Request) (conn conn' : AdnlConnection W) : Prop :=
  query (build_query request) conn = (Some (Ok answer), conn').

(** A call gave what its own decoder makes of an answer, or that decoder's error. *)
Definition decoded_by {A R} (deserialize : list Z → result string R) (answer : list Z) (r : option (result LiteError A)) : Prop :=
  match deserialize answer with
  | Ok _ => ∃ a, r = Some (Ok a)
  | Err message => r = Some (Err (LDecode message))
  end.

(** C29: what an answer is taken for. An answer that decodes as an error is one whatever was
    asked, a head, an account, a proof or a message sent, with its code and its message as
    text; only a message the server turned down is named a duplicate, exactly when the bytes
    of the error say so somewhere, however much around them is not text. Any other answer
    is the call's own, or a failure to decode it. *)
Theorem duplicate_named answer conn conn' block account known target boc :
  match deserialize_error answer with
  | Ok error =>
      Forall is_byte (we_message error) →
      let message := from_utf8_lossy (we_message error) in
      let named := ∃ before after, we_message error = before ++ DUPLICATE_SEND ++ after in
      let server_error {A} : option (result LiteError A) * AdnlConnection W := (Some (Err (LLiteServer (we_code error) message)), conn') in
      (answered_with answer GetMasterchainInfo conn conn' → masterchain_info conn = server_error) ∧
      (answered_with answer (GetAccountState (to_wire block) account) conn conn' → account_state block account conn = server_error) ∧
      (answered_with answer (GetBlockProof (to_wire known) (Some (to_wire target))) conn conn' → block_proof known target conn = server_error) ∧
      (answered_with answer (SendMessage boc) conn conn' →
         named ∧ send_message boc conn = (Some (Err (DuplicateSend (we_code error) message)), conn') ∨
         ¬ named ∧ send_message boc conn = server_error)
  | Err _ =>
      (answered_with answer GetMasterchainInfo conn conn' →
         decoded_by deserialize_masterchain_info answer (masterchain_info conn).1) ∧
      (answered_with answer (GetAccountState (to_wire block) account) conn conn' →
         decoded_by deserialize_account_state answer (account_state block account conn).1) ∧
      (answered_with answer (GetBlockProof (to_wire known) (Some (to_wire target))) conn conn' →
         decoded_by deserialize_block_proof answer (block_proof known target conn).1) ∧
      (answered_with answer (SendMessage boc) conn conn' →
         decoded_by deserialize_send_msg_status answer (send_message boc conn).1)
  end.
Proof.
  unfold answered_with, decoded_by, masterchain_info, account_state, block_proof, send_message, async_bind, asking, answered, decode_answer.
  destruct (deserialize_error answer) as [[code message]|] eqn:E; cbn [we_code we_message].
  - intros Hb. cbv zeta. do 3 (split; [intros ->; cbn; by rewrite E|]). intros ->.
    cbn [fmap option_fmap option_map map_err]. rewrite E. cbn [we_code we_message map_err name_a_duplicate]. rewrite <- contains_spec.
    assert (contains DUPLICATE_SEND (from_utf8_lossy message) = contains DUPLICATE_SEND message) as ->.
    { symmetry. apply rendered_contains; [done| |by apply lossy_rendered].
      apply (bool_decide_unpack (Forall (λ b, 0 <= b < 128) DUPLICATE_SEND)). vm_compute. exact I. }
    destruct (contains DUPLICATE_SEND message); [by left|by right].
  - split; [|split; [|split]]; intros ->; cbn; rewrite E; by case_match; [eexists|].
Qed.
End answers.
