(* ===== verification/Client.v ===== *)
(** The client over a live connection: core/src/client.rs, and the configuration it
    connects by (core/src/config.rs). What Sync.v reads from a network that answers, this
    asks a server for. *)

From stdpp Require Import base list list_numbers numbers strings pretty.
From Stdlib Require Import ZArith Lia.
From S2P Require Import Prelude Errors Bits CellHash Block States Proof Chain Sync Address Adnl Lite.

Local Open Scope Z_scope.

(** ** config.rs

    The configuration as [serde_json] reads it into the types the source derives
    [Deserialize] for, and the reading itself as a parameter. *)

Definition DEFAULT_MAX_HEAD_AGE : Z := 600.

Record RawId : Type := MkRawId { ri_key_type : string; ri_key : list Z }.
Record RawLiteServer : Type := MkRawLiteServer { rl_ip : Z; rl_port : Z; rl_id : RawId }.
Record RawBlockId : Type := MkRawBlockId {
  rb_workchain : Z;
  rb_shard : Z;
  rb_seqno : Z;
  rb_root_hash : list Z;
  rb_file_hash : list Z;
}.
Record RawValidator : Type := MkRawValidator { rv_init_block : option RawBlockId }.
Record RawConfig : Type := MkRawConfig { rc_liteservers : list RawLiteServer; rc_validator : option RawValidator }.

Class Json : Type := from_str : string → result string RawConfig.

Record LiteServer : Type := MkLiteServer { ls_addr : string; ls_key : list Z }.
Record Config : Type := MkConfig {
  cf_liteservers : list LiteServer;
  cf_init_block : option BlockIdExt;
  cf_max_head_age : Z;
}.

Definition config_hash (encoded : list Z) (what : string) : result Error (list Z) :=
  match codec.base64_decode encoded with
  | Some bytes =>
      if len bytes =? 32 then Ok bytes else Err (Sync.Config (what +:+ " is not 32 base64 bytes"))
  | None => Err (Sync.Config (what +:+ " is not 32 base64 bytes"))
  end.

Definition lite_server (server : RawLiteServer) : result Error LiteServer :=
  if negb (bool_decide (ri_key_type (rl_id server) = "pub.ed25519"))
  then Err (Sync.Config ("unsupported liteserver key type `" +:+ ri_key_type (rl_id server) +:+ "`"))
  else
    let? key :=
      match codec.base64_decode (ri_key (rl_id server)) with
      | Some bytes => if len bytes =? 32 then Ok bytes else Err (Sync.Config "liteserver key is not 32 base64 bytes")
      | None => Err (Sync.Config "liteserver key is not 32 base64 bytes")
      end in
    let octets := to_be_bytes 4 (wrap 32 (rl_ip server)) in
    let octet i := default 0 (octets !! i) in
    Ok (MkLiteServer
      (pretty (octet 0%nat) +:+ "." +:+ pretty (octet 1%nat) +:+ "." +:+ pretty (octet 2%nat) +:+ "." +:+
       pretty (octet 3%nat) +:+ ":" +:+ pretty (rl_port server)) key).

Definition init_block (block : RawBlockId) : result Error BlockIdExt :=
  let shard := wrap 64 (rb_shard block) in
  let? root_hash := config_hash (rb_root_hash block) "init block root hash" in
  let? file_hash := config_hash (rb_file_hash block) "init block file hash" in
  Ok (MkBlockIdExt (rb_workchain block) shard (rb_seqno block) root_hash file_hash).

Definition from_json `{Json} (json : string) : result Error Config :=
  let? raw := map_err Sync.Config (from_str json) in
  if bool_decide (rc_liteservers raw = []) then Err (Sync.Config "config has no liteservers")
  else
    let? liteservers := res_fold (λ out server, let? server := lite_server server in Ok (out ++ [server])) (rc_liteservers raw) [] in
    let? init_block :=
      match rc_validator raw ≫= rv_init_block with
      | Some block => let? block := init_block block in Ok (Some block)
      | None => Ok None
      end in
    Ok (MkConfig liteservers init_block DEFAULT_MAX_HEAD_AGE).

Definition with_max_head_age (seconds : Z) (self : Config) : Config :=
  MkConfig (cf_liteservers self) (cf_init_block self) seconds.

(** ** client.rs *)

Definition CALL_TIMEOUT : Z := 15.
Definition PROOF_TIMEOUT : Z := 60.

(** The clocks of the standard library, in nanoseconds: one that only goes forward, and
    the time since the epoch when there is one. *)
Class Clock (W : Type) : Type := {
  world_instant : W → Z * W;
  world_since_epoch : W → option Z * W;
}.

(** [TcpTransport::connect]: its own deadline bounds it, so it always answers. *)
Class Dial (N W : Type) : Type := dial : string → N → result TransportError W * N.

Section client.
Context `{Ctr} {W : Type} `{Clock W}.

(** The client of the source: its connection, and what it keeps between calls. *)
Record NetClient : Type := MkNetClient { nc_lite : AdnlConnection W; nc_client : Client }.

(** A call past its deadline is dropped where it waits. When that is, is the world's
    say: the deadlines are [CALL_TIMEOUT] and [PROOF_TIMEOUT] seconds. *)
Definition within {A} (call : async (AdnlConnection W) LiteError A) : stm NetClient Error A := λ self,
  match call (nc_lite self) with
  | (Some result, lite) => (map_err from_lite_error result, MkNetClient lite (nc_client self))
  | (None, lite) => (Err Timeout, MkNetClient lite (nc_client self))
  end.

Definition bounded {A} (call : async (AdnlConnection W) LiteError A) : stm NetClient Error A := within call.

Definition on_clock {A} (read : W → A * W) : stm NetClient Error A := λ self,
  let lite := nc_lite self in
  let '(a, w) := read (ac_world lite) in
  (Ok a, MkNetClient (MkConnection w (ac_ciphers lite) (ac_intact lite)) (nc_client self)).

Definition NANOS : Z := 10 ^ 9.

(** [started.elapsed().as_secs()], and the seconds since the epoch, zero before it. *)
Definition elapsed (started : Z) : stm NetClient Error Z :=
  do! now <- on_clock world_instant; st_ret (saturating_sub now started / NANOS).
Definition now : stm NetClient Error Z :=
  do! since <- on_clock world_since_epoch;
  st_ret (match since with Some since => since / NANOS | None => 0 end).

End client.
Arguments NetClient {_} _.

Module NetClient.
Section client.
Context `{Hasher} `{Ctr} `{Exchange} `{AdnlTl} `{LiteTl} `{TlCodec} `{Curve} {W : Type} `{World W} `{Clock W}.
Variable parallelism : Z.

Definition masterchain_info : stm (NetClient W) Error (ServerReported MasterchainInfo) := bounded Lite.masterchain_info.

Definition account_state (address : Address) (block : BlockIdExt) : stm (NetClient W) Error (ServerReported AccountState) :=
  bounded (Lite.account_state block (MkAccountId (Address.workchain address) (Address.account_id address))).

(** The loop of [sync]: a round more than the walk allows is fuel enough. *)
Fixpoint sync_loop (fuel : nat) (started : Z) (target anchor trusted_key_block : BlockIdExt) (walk : SyncWalk) :
    stm (NetClient W) Error SyncReport :=
  match fuel with
  | O => st_lift (Err (Sync TooManyRounds))
  | S fuel =>
      do! self <- st_get;
      let max_head_age := cl_max_head_age (nc_client self) in
      do! elapsed <- elapsed started;
      run! st_lift (worth_continuing elapsed max_head_age);
      do! reply <- within (block_proof anchor target);
      run! st_lift (within_bounds reply);
      match SyncWalk.round (len (pp_steps reply)) walk with
      | (Err e, _) => st_lift (Err e)
      | (Ok _, walk) =>
          do! proven <- st_lift (map_err (λ failure, Sync (ChainRefused failure))
                                   (verify_chain parallelism (to_wire anchor) reply));
          let reached := from_wire (pb_id proven) in
          run! st_lift (advanced anchor reached);
          let trusted_key_block := default trusted_key_block (last_key_block reply) in
          let anchor := reached in
          if pp_complete reply then
            if negb (bool_decide (anchor = target))
            then st_lift (Err (Sync (ShortOfTarget (id_seqno anchor) (id_seqno target))))
            else
              do! now <- now;
              run! st_lift (fresh_enough now (pb_gen_utime proven) max_head_age);
              run! st_modify (λ self, MkNetClient (nc_lite self)
                     (MkClient (Some trusted_key_block) (cl_init_block (nc_client self)) (cl_max_head_age (nc_client self))));
              let '(links, rounds) := SyncWalk.cost walk in
              st_ret (MkSyncReport anchor links rounds)
          else if negb (pb_key_block proven) then st_lift (Err (Sync StoppedAtOrdinaryBlock))
          else sync_loop fuel started target anchor trusted_key_block walk
      end
  end.

Definition sync : stm (NetClient W) Error SyncReport :=
  do! self <- st_get;
  do! start <- st_lift
    (match cl_anchor (nc_client self), cl_init_block (nc_client self) with
     | Some anchor, _ => Ok anchor
     | None, Some init => Ok init
     | None, None => Err (Sync.Config "config names no init block to start a sync from")
     end);
  do! info <- masterchain_info;
  let target := mi_last (sr_value info) in
  if id_seqno target <=? id_seqno start
  then st_lift (Err (Sync (HeadNotAhead (id_seqno target) (id_seqno start))))
  else
    do! started <- on_clock world_instant;
    sync_loop (S (Z.to_nat MAX_ROUNDS)) started target start start SyncWalk.new.

Definition account_at (address : Address) (trusted : BlockIdExt) : stm (NetClient W) Error (Account * BlockIdExt) :=
  if negb (id_workchain trusted =? MASTERCHAIN) || negb (id_shard trusted =? MASTERCHAIN_SHARD)
  then st_lift (Err (Proof (AnchorOutsideMasterchain (id_workchain trusted))))
  else
    do! reported <- account_state address trusted;
    let anchor := id_root_hash trusted in
    let workchain := Address.workchain address in
    let state := sr_value reported in
    let read :=
      if workchain =? MASTERCHAIN
      then AccountRead.masterchain anchor (Address.account_id address) (sr_proof reported) (as_state state)
      else AccountRead.in_shard anchor workchain (Address.account_id address) (as_shard_proof state)
             (sr_proof reported) (as_state state) in
    do! account <- st_lift (map_err Error.from (verify_account parallelism read));
    st_ret (account, trusted).

Definition account (address : Address) : stm (NetClient W) Error (Account * BlockIdExt) :=
  do! report <- sync; account_at address (sr_head report).

Definition account_reported (address : Address) : stm (NetClient W) Error (ServerReported Account) :=
  do! head <- masterchain_info;
  do! reported <- account_state address (mi_last (sr_value head));
  st_lift (map_err Error.decoding (try_map (λ state, Account.decode parallelism (as_state state)) reported)).

(** The loop over the servers of a configuration. A transport a handshake failed over
    is dropped; a handshake that is never written is waited for. *)
Fixpoint connect_loop {N} `{Dial N W} (config : Config) (servers : list LiteServer) (last_error : option Error) :
    N → option (result Error (NetClient W)) * N := λ net,
  match servers with
  | [] => (Some (Err (default (Sync.Config "config has no liteservers") last_error)), net)
  | server :: servers =>
      match dial (ls_addr server) net with
      | (Err e, net) => connect_loop config servers (Some (from_transport_error e)) net
      | (Ok transport, net) =>
          match lite_connect (ls_key server) transport with
          | (Some (Ok lite), _) =>
              (Some (Ok (MkNetClient lite (MkClient None (cf_init_block config) (cf_max_head_age config)))), net)
          | (Some (Err e), _) => connect_loop config servers (Some (from_lite_error e)) net
          | (None, _) => (None, net)
          end
      end
  end.

Definition connect {N} `{Dial N W} (config : Config) : N → option (result Error (NetClient W)) * N :=
  connect_loop config (cf_liteservers config) None.

Definition connect_from {N} `{Dial N W} (config : Config) (anchor : BlockIdExt) : N → option (result Error (NetClient W)) * N := λ net,
  match connect config net with
  | (Some (Ok client), net) =>
      let client := MkNetClient (nc_lite client)
        (MkClient (Some anchor) (cl_init_block (nc_client client)) (cl_max_head_age (nc_client client))) in
      match sync client with
      | (Ok _, client) => (Some (Ok client), net)
      | (Err e, _) => (Some (Err e), net)
      end
  | (Some (Err e), net) => (Some (Err e), net)
  | (None, net) => (None, net)
  end.
End client.
End NetClient.
