(* ===== verification/ClientTheorems.v ===== *)
(** The client over a live connection does what the walk of Sync.v does over the answers
    it got, ends the connection with the first call that is timed out, and connects to the
    first server of its configuration that lets it. *)

From stdpp Require Import base list list_numbers numbers strings pretty.
From Stdlib Require Import ZArith Lia.
From S2P Require Import Prelude Errors Bits CellHash Block States Proof Chain Sync Address Adnl AdnlTheorems Lite Client.

Local Open Scope Z_scope.

(** ** The walk over the answers it got *)

Section walk.
Context `{HH : Hasher} `{C : Ctr} `{X : Exchange} `{T : AdnlTl} `{L : LiteTl} `{TC : TlCodec} `{CV : Curve}.
Context {W : Type} `{HW : World W} `{HK : Clock W}.
Variable p : Z.

(** A network that answers one round so, and the rounds after it as another does. *)
Definition round_then (round : Z) (answer : result Error PartialBlockProof) (elapsed : Z) (net : Network) : Network := {|
  nw_masterchain_info := nw_masterchain_info net;
  nw_block_proof r a t := if r =? round then answer else nw_block_proof net r a t;
  nw_elapsed r := if r =? round then elapsed else nw_elapsed net r;
  nw_now := nw_now net;
|}.

Definition silent : Network := {|
  nw_masterchain_info := Err Timeout;
  nw_block_proof _ _ _ := Err Timeout;
  nw_elapsed _ := 0;
  nw_now := 0;
|}.

Definition at_time (now : Z) (net : Network) : Network := {|
  nw_masterchain_info := nw_masterchain_info net;
  nw_block_proof := nw_block_proof net;
  nw_elapsed := nw_elapsed net;
  nw_now := now;
|}.

Lemma round_counts links walk u walk' : SyncWalk.round links walk = (Ok u, walk') → sw_rounds walk' = sw_rounds walk + 1.
Proof.
  unfold SyncWalk.round. cbv zeta. cbn [sw_rounds sw_links]. destruct (_ <? _); [done|]. destruct (_ <? _); [done|]. by intros [= _ <-].
Qed.

(** A walk reads of a network what is left of its rounds. *)
Lemma sync_loop_ext net net' limit target fuel : ∀ anchor trusted walk,
  (∀ r, sw_rounds walk <= r → nw_elapsed net r = nw_elapsed net' r ∧ ∀ a t, nw_block_proof net r a t = nw_block_proof net' r a t) →
  nw_now net = nw_now net' →
  sync_loop p fuel net limit target anchor trusted walk = sync_loop p fuel net' limit target anchor trusted walk.
Proof.
  induction fuel as [|fuel IH]; intros anchor trusted walk Hr Hn; [done|]. cbn [sync_loop].
  destruct (Hr (sw_rounds walk) ltac:(lia)) as [-> Hb]. rewrite Hb, Hn.
  destruct (worth_continuing _ _); [|done]. cbn [res_bind]. destruct (nw_block_proof net' _ _ _) as [reply|]; [|done]. cbn [res_bind].
  destruct (within_bounds reply); [|done]. cbn [res_bind].
  destruct (SyncWalk.round _ walk) as [[u|] walk'] eqn:Ew; [|done].
  apply round_counts in Ew as Hw.
  destruct (map_err _ _) as [proven|]; [|done]. cbn [res_bind]. cbv zeta. destruct (advanced _ _); [|done]. cbn [res_bind].
  destruct (pp_complete reply); [done|]. destruct (negb (pb_key_block proven)); [done|]. apply IH; [|done].
  intros r Hle. apply Hr. lia.
Qed.

(** A network that names a head so. *)
Definition heading (head : result Error BlockIdExt) (net : Network) : Network := {|
  nw_masterchain_info := head;
  nw_block_proof := nw_block_proof net;
  nw_elapsed := nw_elapsed net;
  nw_now := nw_now net;
|}.

(** ** What is asked

    A question put to the server or to a clock, with what came back. *)
Inductive Event : Type :=
| AskedHead (answer : result Error BlockIdExt)
| Started
| Waited (seconds : Z)
| AskedProof (known target : BlockIdExt) (answer : result Error PartialBlockProof)
| Looked (now : Z)
| AskedAccount (block : BlockIdExt) (account : AccountId) (answer : result Error (list Z * list Z * list Z)).

(** What the caller of a bounded call hears. *)
Definition heard {A} (r : option (result LiteError A)) : result Error A :=
  match r with Some r => map_err from_lite_error r | None => Err Timeout end.

Definition with_world (w : W) (conn : AdnlConnection W) : AdnlConnection W := MkConnection w (ac_ciphers conn) (ac_intact conn).

(** The questions that were put over a connection, in that order and no others, what came
    back being what the calls of Lite.v and the clocks gave; [start] is the instant the
    walk started at. *)
Inductive happened : Z → AdnlConnection W → list Event → AdnlConnection W → Prop :=
| happened_nil start conn : happened start conn [] conn
| happened_head start conn r conn1 es conn2 :
    masterchain_info conn = (r, conn1) → happened start conn1 es conn2 →
    happened start conn (AskedHead (res_map (λ info, mi_last (sr_value info)) (heard r)) :: es) conn2
| happened_start start conn start' w es conn2 :
    world_instant (ac_world conn) = (start', w) → happened start' (with_world w conn) es conn2 →
    happened start conn (Started :: es) conn2
| happened_wait start conn instant w es conn2 :
    world_instant (ac_world conn) = (instant, w) → happened start (with_world w conn) es conn2 →
    happened start conn (Waited (saturating_sub instant start / NANOS) :: es) conn2
| happened_proof start conn known target r conn1 es conn2 :
    block_proof known target conn = (r, conn1) → happened start conn1 es conn2 →
    happened start conn (AskedProof known target (heard r) :: es) conn2
| happened_look start conn since w es conn2 :
    world_since_epoch (ac_world conn) = (since, w) → happened start (with_world w conn) es conn2 →
    happened start conn (Looked (match since with Some since => since / NANOS | None => 0 end) :: es) conn2
| happened_account start conn block account r conn1 es conn2 :
    account_state block account conn = (r, conn1) → happened start conn1 es conn2 →
    happened start conn
      (AskedAccount block account
        (res_map (λ reported, (as_shard_proof (sr_value reported), sr_proof reported, as_state (sr_value reported))) (heard r)) :: es) conn2.

Lemma happened_head_inv start conn answer es conn2 :
  happened start conn (AskedHead answer :: es) conn2 →
  ∃ r conn1, masterchain_info conn = (r, conn1) ∧ answer = res_map (λ info, mi_last (sr_value info)) (heard r) ∧
    happened start conn1 es conn2.
Proof. inversion 1; subst. by repeat eexists. Qed.

Lemma happened_app start conn es conn1 es' conn2 :
  happened start conn es conn1 → (∀ start', happened start' conn1 es' conn2) → happened start conn (es ++ es') conn2.
Proof. induction 1; intros H'; [apply H'|..]; cbn [app]; econstructor; eauto. Qed.

(** What the walk of Sync.v asks of a network, and what the network says to it: the time
    the walk has taken, then the proof of a round, while no check stops it; and the time,
    once the head it asked for is proven. *)
Fixpoint loop_asks (fuel : nat) (net : Network) (limit : Z) (target anchor : BlockIdExt) (walk : SyncWalk) : list Event :=
  match fuel with
  | O => []
  | S fuel =>
      let seconds := nw_elapsed net (sw_rounds walk) in
      let answer := nw_block_proof net (sw_rounds walk) anchor target in
      Waited seconds ::
      if negb (is_ok (worth_continuing seconds limit)) then [] else
      AskedProof anchor target answer ::
      match answer with
      | Err _ => []
      | Ok reply =>
          if negb (is_ok (within_bounds reply)) then [] else
          match SyncWalk.round (len (pp_steps reply)) walk, verify_chain p (to_wire anchor) reply with
          | (Ok _, walk), Ok proven =>
              let reached := from_wire (pb_id proven) in
              if negb (is_ok (advanced anchor reached)) then []
              else if pp_complete reply then if negb (bool_decide (reached = target)) then [] else [Looked (nw_now net)]
              else if negb (pb_key_block proven) then []
              else loop_asks fuel net limit target reached walk
          | _, _ => []
          end
      end
  end.

Definition starts_at (self : Client) : option BlockIdExt :=
  match cl_anchor self with Some anchor => Some anchor | None => cl_init_block self end.

Definition sync_asks (net : Network) (self : Client) : list Event :=
  match starts_at self with
  | Some start =>
      AskedHead (nw_masterchain_info net) ::
      match nw_masterchain_info net with
      | Ok target =>
          if id_seqno target <=? id_seqno start then []
          else Started :: loop_asks (S (Z.to_nat MAX_ROUNDS)) net (cl_max_head_age self) target start SyncWalk.new
      | Err _ => []
      end
  | None => []
  end.

(** What the read of an account asks besides: the account's state under a trusted block of
    the masterchain. *)
Definition account_at_asks (reported : result Error (list Z * list Z * list Z)) (account : AccountId) (trusted : BlockIdExt) : list Event :=
  if negb (id_workchain trusted =? MASTERCHAIN) || negb (id_shard trusted =? MASTERCHAIN_SHARD) then []
  else [AskedAccount trusted account reported].

Definition account_asks (net : Network) (reported : result Error (list Z * list Z * list Z)) (account : AccountId) (self : Client) : list Event :=
  sync_asks net self ++
  match (sync p net self).1 with Ok report => account_at_asks reported account (sr_head report) | Err _ => [] end.

(** ** The loop against the loop *)

Lemma within_heard {A} (call : async (AdnlConnection W) LiteError A) (self : NetClient W) :
  within call self = (heard (call (nc_lite self)).1, MkNetClient (call (nc_lite self)).2 (nc_client self)).
Proof. unfold within. by destruct (call (nc_lite self)) as [[]]. Qed.

Definition kept (client : Client) (key : BlockIdExt) : Client :=
  MkClient (Some key) (cl_init_block client) (cl_max_head_age client).

Lemma loop_asks_ext net net' limit target fuel : ∀ anchor walk,
  (∀ r, sw_rounds walk <= r → nw_elapsed net r = nw_elapsed net' r ∧ ∀ a t, nw_block_proof net r a t = nw_block_proof net' r a t) →
  nw_now net = nw_now net' →
  loop_asks fuel net limit target anchor walk = loop_asks fuel net' limit target anchor walk.
Proof.
  induction fuel as [|fuel IH]; intros anchor walk Hr Hn; [done|]. cbn [loop_asks]. cbv zeta.
  destruct (Hr (sw_rounds walk) ltac:(lia)) as [-> Hb]. rewrite Hb, Hn. do 2 f_equal.
  destruct (negb (is_ok (worth_continuing _ _))); [done|]. f_equal. destruct (nw_block_proof net' _ _ _) as [reply|]; [|done].
  destruct (negb (is_ok (within_bounds reply))); [done|].
  destruct (SyncWalk.round _ walk) as [[u|] walk'] eqn:Ew; [|done]. apply round_counts in Ew as Hw.
  destruct (verify_chain _ _ _) as [proven|]; [|done]. destruct (negb _); [done|]. destruct (pp_complete reply); [done|].
  destruct (negb _); [done|]. apply IH; [|done]. intros r Hle. apply Hr. lia.
Qed.

(** One round of a walk over a network that answers it so: its result, and its questions. *)
Lemma sync_loop_round fuel answer elapsed net limit target anchor trusted walk :
  (sync_loop p (S fuel) (round_then (sw_rounds walk) answer elapsed net) limit target anchor trusted walk,
   loop_asks (S fuel) (round_then (sw_rounds walk) answer elapsed net) limit target anchor walk) =
    match worth_continuing elapsed limit with
    | Err e => (Err e, [Waited elapsed])
    | Ok _ =>
    match answer with
    | Err e => (Err e, [Waited elapsed; AskedProof anchor target (Err e)])
    | Ok reply =>
    let asked := [Waited elapsed; AskedProof anchor target (Ok reply)] in
    match within_bounds reply with
    | Err e => (Err e, asked)
    | Ok _ =>
    match SyncWalk.round (len (pp_steps reply)) walk with
    | (Err e, _) => (Err e, asked)
    | (Ok _, walk) =>
    match map_err (λ failure, Sync (ChainRefused failure)) (verify_chain p (to_wire anchor) reply) with
    | Err e => (Err e, asked)
    | Ok proven =>
    let reached := from_wire (pb_id proven) in
    match advanced anchor reached with
    | Err e => (Err e, asked)
    | Ok _ =>
    let trusted := default trusted (last_key_block reply) in
    if pp_complete reply then
      if negb (bool_decide (reached = target)) then (Err (Sync (ShortOfTarget (id_seqno reached) (id_seqno target))), asked)
      else
        (let? _ := fresh_enough (nw_now net) (pb_gen_utime proven) limit in
         let '(links, rounds) := SyncWalk.cost walk in
         Ok (MkSyncReport reached links rounds, trusted), asked ++ [Looked (nw_now net)])
    else if negb (pb_key_block proven) then (Err (Sync StoppedAtOrdinaryBlock), asked)
    else (sync_loop p fuel net limit target reached trusted walk, asked ++ loop_asks fuel net limit target reached walk)
    end end end end end end.
Proof.
  set (met := round_then (sw_rounds walk) answer elapsed net). cbn [sync_loop loop_asks]. cbv zeta.
  assert (nw_elapsed met (sw_rounds walk) = elapsed) as -> by (unfold met, round_then; cbn; by rewrite Z.eqb_refl).
  assert (nw_block_proof met (sw_rounds walk) anchor target = answer) as -> by (unfold met, round_then; cbn; by rewrite Z.eqb_refl).
  change (nw_now met) with (nw_now net).
  destruct (worth_continuing _ _); [|done]. cbn [res_bind is_ok negb]. destruct answer as [reply|] eqn:Ea; [|done]. cbn [res_bind].
  destruct (within_bounds reply); [|done]. cbn [res_bind is_ok negb].
  destruct (SyncWalk.round _ walk) as [[u|] walk'] eqn:Ew; [|done]. apply round_counts in Ew as Hw.
  destruct (verify_chain _ _ _) as [proven|]; [|done]. cbn [map_err res_bind].
  destruct (advanced _ _); [|done]. cbn [res_bind is_ok negb].
  destruct (pp_complete reply); [by destruct (negb _)|]. destruct (negb (pb_key_block proven)); [done|].
  assert (∀ r, sw_rounds walk' <= r → nw_elapsed met r = nw_elapsed net r ∧ ∀ a t, nw_block_proof met r a t = nw_block_proof net r a t) as Hmet.
  { intros r Hle. unfold met, round_then. cbn. by rewrite (proj2 (Z.eqb_neq _ _)) by lia. }
  by rewrite (sync_loop_ext met net), (loop_asks_ext met net) by done.
Qed.
(** What a client did and gave, against what the walk asks and gives. *)
Definition matched (start : Z) (self : NetClient W) (out : result Error SyncReport * NetClient W)
    (model : result Error (SyncReport * BlockIdExt) * list Event) : Prop :=
  happened start (nc_lite self) model.2 (nc_lite out.2) ∧
  match out.1, model.1 with
  | Err e, Err e' => e = e' ∧ nc_client out.2 = nc_client self
  | Ok report, Ok (report', key) => report = report' ∧ nc_client out.2 = kept (nc_client self) key
  | _, _ => False
  end.

Lemma sync_loop_refines fuel started target : ∀ anchor trusted walk (self : NetClient W),
  ∃ net, matched started self (NetClient.sync_loop p fuel started target anchor trusted walk self)
    (sync_loop p fuel net (cl_max_head_age (nc_client self)) target anchor trusted walk,
     loop_asks fuel net (cl_max_head_age (nc_client self)) target anchor walk).
Proof.
  induction fuel as [|fuel IH]; intros anchor trusted walk [conn client]; [exists silent; split; [constructor|done]|].
  cbn [NetClient.sync_loop nc_client]. unfold st_bind at 1, st_get. unfold st_bind at 1, elapsed, st_bind at 1, on_clock at 1.
  cbn [nc_lite nc_client]. destruct (world_instant (ac_world conn)) as [instant w] eqn:Ew. unfold st_ret at 1.
  pose proof (λ es conn2, happened_wait started conn instant w es conn2 Ew) as Hask.
  set (seconds := saturating_sub instant started / NANOS) in *. clearbody seconds. unfold with_world in Hask. set (conn1 := MkConnection w _ _) in *.
  clearbody conn1. clear Ew. unfold st_bind at 1, st_lift at 1.
  destruct (worth_continuing seconds (cl_max_head_age client)) as [[]|e] eqn:E1.
  2:{ exists (round_then (sw_rounds walk) (Err Timeout) seconds silent). rewrite sync_loop_round, E1. by split; [apply Hask, happened_nil|]. }
  unfold st_bind at 1. rewrite within_heard. cbn [nc_lite nc_client].
  destruct (block_proof anchor target conn1) as [r conn2] eqn:Er. cbn [fst snd].
  pose proof (λ es conn3 H, Hask _ _ (happened_proof started conn1 anchor target r conn2 es conn3 Er H)) as Hasked.
  clear Hask Er conn1. destruct (heard r) as [reply|e]; clear r.
  2:{ exists (round_then (sw_rounds walk) (Err e) seconds silent). rewrite sync_loop_round, E1. by split; [apply Hasked, happened_nil|]. }
  assert (∀ e, (∀ net, (sync_loop p (S fuel) (round_then (sw_rounds walk) (Ok reply) seconds net) (cl_max_head_age client) target anchor trusted walk,
      loop_asks (S fuel) (round_then (sw_rounds walk) (Ok reply) seconds net) (cl_max_head_age client) target anchor walk) =
      (Err e, [Waited seconds; AskedProof anchor target (Ok reply)])) →
    ∃ net, matched started (MkNetClient conn client) (Err e, MkNetClient conn2 client)
      (sync_loop p (S fuel) net (cl_max_head_age client) target anchor trusted walk,
       loop_asks (S fuel) net (cl_max_head_age client) target anchor walk)) as Hstop.
  { intros e He. exists (round_then (sw_rounds walk) (Ok reply) seconds silent). rewrite He. by split; [apply Hasked, happened_nil|]. }
  pose proof (λ net, sync_loop_round fuel (Ok reply) seconds net (cl_max_head_age client) target anchor trusted walk) as Hround.
  rewrite E1 in Hround. cbv zeta in Hround. unfold st_bind at 1, st_lift at 1.
  destruct (within_bounds reply) as [[]|e]; [|by apply Hstop].
  destruct (SyncWalk.round _ walk) as [[[]|e] walk']; [|by apply Hstop].
  unfold st_bind at 1, st_lift at 1. destruct (map_err _ _) as [proven|e]; [|by apply Hstop]. cbv zeta.
  unfold st_bind at 1, st_lift at 1. destruct (advanced _ _) as [[]|e]; [|by apply Hstop].
  destruct (pp_complete reply).
  - destruct (negb (bool_decide _)); [by apply Hstop|]. unfold st_bind at 1, now, st_bind at 1, on_clock. cbn [nc_lite nc_client].
    destruct (world_since_epoch (ac_world conn2)) as [since w2] eqn:Es. unfold st_ret at 1.
    pose proof (Hasked _ _ (happened_look started conn2 since w2 [] _ Es (happened_nil _ _))) as Hlooked.
    set (utc := match since with Some _ => _ | None => _ end) in *. clearbody utc.
    exists (round_then (sw_rounds walk) (Ok reply) seconds (at_time utc silent)). rewrite Hround. cbn [at_time nw_now].
    unfold st_bind at 1, st_lift at 1. destruct (fresh_enough utc _ _) as [[]|e]; cbn [res_bind]; [|by split].
    unfold st_bind, st_modify. cbn [nc_client nc_lite]. destruct (SyncWalk.cost walk') as [links rounds]. unfold st_ret. by split.
  - destruct (negb _); [by apply Hstop|]. clear Hstop.
    destruct (IH (from_wire (pb_id proven)) (default trusted (last_key_block reply)) walk' (MkNetClient conn2 client)) as (net & Hloop & Hr).
    exists (round_then (sw_rounds walk) (Ok reply) seconds net). rewrite Hround. split; [|exact Hr]. by apply Hasked.
Qed.

Lemma sync_refines (self : NetClient W) :
  ∃ net, let '(r, self') := NetClient.sync p self in
    sync p net (nc_client self) = (r, nc_client self') ∧
    happened 0 (nc_lite self) (sync_asks net (nc_client self)) (nc_lite self').
Proof.
  destruct self as [conn client]. unfold NetClient.sync, sync, sync_asks. unfold st_bind at 1, st_get. cbn [nc_client nc_lite].
  unfold st_bind at 1, st_lift at 1.
  assert ((∃ start, match cl_anchor client, cl_init_block client with
      | Some anchor, _ => Ok anchor | None, Some init => Ok init
      | None, None => Err (Sync.Config "config names no init block to start a sync from") end = Ok start ∧
      starts_at client = Some start) ∨ cl_anchor client = None ∧ cl_init_block client = None) as [(start & -> & ->)|[Ea Ei]].
  { unfold starts_at. destruct (cl_anchor client) as [a|]; [left; by exists a|]. destruct (cl_init_block client) as [a|]; [left; by exists a|by right]. }
  2:{ exists silent. unfold starts_at. rewrite Ea, Ei. split; [done|constructor]. }
  unfold st_bind at 1, NetClient.masterchain_info, bounded. rewrite within_heard. cbn [nc_lite nc_client].
  destruct (masterchain_info conn) as [r conn1] eqn:Er. cbn [fst snd].
  pose proof (λ es conn2, happened_head 0 conn r conn1 es conn2 Er) as Hasked. clear Er.
  destruct (heard r) as [info|e]; cbn [res_map] in Hasked; clear r.
  2:{ exists (heading (Err e) silent). split; [done|]. by apply Hasked, happened_nil. }
  cbv zeta. set (target := mi_last (sr_value info)) in *. clearbody target. clear info.
  destruct (Z.leb_spec (id_seqno target) (id_seqno start)) as [Hle|Hlt].
  { exists (heading (Ok target) silent). cbn [heading nw_masterchain_info]. rewrite (proj2 (Z.leb_le _ _)) by done.
    split; [done|]. by apply Hasked, happened_nil. }
  unfold st_bind at 1, on_clock. cbn [nc_lite nc_client]. destruct (world_instant (ac_world conn1)) as [started w] eqn:Ew.
  pose proof (λ es conn2, happened_start 0 conn1 started w es conn2 Ew) as Hstarted.
  destruct (sync_loop_refines (S (Z.to_nat MAX_ROUNDS)) started target start start SyncWalk.new
    (MkNetClient (with_world w conn1) client)) as (net & Hloop & Hr). cbn [fst snd nc_lite nc_client] in *.
  exists (heading (Ok target) net). cbn [heading nw_masterchain_info]. rewrite (proj2 (Z.leb_gt _ _)) by done.
  rewrite (sync_loop_ext (heading (Ok target) net) net), (loop_asks_ext (heading (Ok target) net) net) by done.
  unfold with_world in *. destruct (NetClient.sync_loop _ _ _ _ _ _ _ _) as [r self2]. cbn [fst snd] in *. split.
  - destruct (sync_loop p _ net _ _ _ _ _) as [[report key]|e]; destruct r; try done; by destruct Hr as [-> ->].
  - by apply Hasked, Hstarted.
Qed.

Lemma account_at_refines address trusted (self : NetClient W) :
  ∃ reported, let '(r, self') := NetClient.account_at p address trusted self in
    account_at p reported (Address.workchain address) (Address.account_id address) trusted = r ∧ nc_client self' = nc_client self ∧
    ∀ start, happened start (nc_lite self)
      (account_at_asks reported (MkAccountId (Address.workchain address) (Address.account_id address)) trusted) (nc_lite self').
Proof.
  unfold NetClient.account_at, account_at, account_at_asks. destruct (negb _ || negb _).
  { exists (Err Timeout). split; [done|]. split; [done|constructor]. }
  unfold st_bind at 1, NetClient.account_state, bounded. rewrite within_heard. set (id := MkAccountId _ _).
  destruct (account_state trusted id (nc_lite self)) as [r conn1] eqn:Er. cbn [fst snd].
  pose proof (λ start, happened_account start _ _ _ _ _ [] _ Er (happened_nil _ _)) as Hasked. clear Er.
  destruct (heard r) as [reported|e]; cbn [res_map] in Hasked; [|by exists (Err e)].
  exists (Ok (as_shard_proof (sr_value reported), sr_proof reported, as_state (sr_value reported))). cbn [res_bind]. cbv zeta. unfold st_bind, st_lift.
  by destruct (map_err Error.from _).
Qed.
End walk.

(** ** Timeouts *)

Section timeouts.
Context `{HH : Hasher} `{!HasherOk HH} `{C : Ctr} `{!CtrOk C} `{X : Exchange} `{T : AdnlTl} `{L : LiteTl} `{TC : TlCodec} `{CV : Curve}.
Context {W : Type} `{HW : World W} `{!WorldOk W} `{HK : Clock W}.
Variable p : Z.

(** A query that is dropped leaves a connection that is not intact, *)
Lemma query_dropped q (conn : AdnlConnection W) : (query q conn).1 = None → ac_intact (query q conn).2 = false.
Proof.
  assert (∀ conn : AdnlConnection W, (recv conn).1 = None → ac_intact (recv conn).2 = false) as Hrecv.
  { intros c. unfold recv, async_bind, check. destruct (ac_intact c); [|done]. unfold set_intact, on_world, read_exact. cbn [ac_world].
    destruct (world_read_exact _ _) as [[[prefix|]|] w]; [|done..]. cbn [option_fmap option_map fmap map_err]. unfold on_ciphers. cbn [ac_world ac_ciphers ac_intact].
    destruct (open_len _ _) as [[l|] ciphers]; [|done]. cbn [map_err ac_world].
    destruct (world_read_exact _ _) as [[[body|]|] w']; [|done..]. cbn [option_fmap option_map fmap map_err ac_ciphers].
    by destruct (open_body _ _) as [[payload|] ciphers']. }
  assert (∀ rounds query_id count (conn : AdnlConnection W),
    (query_loop rounds query_id count conn).1 = None → ac_intact (query_loop rounds query_id count conn).2 = false) as Hloop.
  { induction rounds as [|rounds IH]; intros query_id count c; cbn [query_loop]; [by case_match|]. unfold async_bind.
    specialize (Hrecv c). destruct (recv c) as [[[payload|]|] c1]; [|done..]. repeat case_match; try done; apply IH. }
  unfold query, async_bind. destruct (on_world (random 32) conn) as [[[query_id|]|] c1] eqn:E1; [|done|].
  2:{ intros _. unfold on_world, random in E1. by destruct (world_random _ _) as [[?|] ?]. }
  destruct (on_world (random 32) c1) as [[[nonce|]|] c2] eqn:E2; [|done|].
  2:{ intros _. unfold on_world, random in E2. by destruct (world_random _ _) as [[?|] ?]. }
  assert ((send nonce (serialize_message (Query query_id q)) c2).1 = None → ac_intact (send nonce (serialize_message (Query query_id q)) c2).2 = false) as Hsend.
  { unfold send, async_bind, check. destruct (ac_intact c2); [|done]. unfold on_ciphers. destruct (seal _ _ _) as [[frame|] ciphers]; [|done].
    cbn [map_err]. unfold set_intact, on_world, write_all. cbn [ac_world]. by destruct (world_write_all _ _) as [[[[]|]|] w]. }
  revert Hsend. destruct (send _ _ c2) as [[[[]|]|] c3]; [intros _; apply Hloop|done|intros Hsend _; by apply Hsend].
Qed.

Definition refused (e : Error) : Prop := e = ConnectionLost ∨ e = from_adnl_error NoRandomness.

(** and one over a connection that is not intact is refused and touches nothing. *)
Lemma query_refused q (conn : AdnlConnection W) : ac_intact conn = false →
  untouched conn (query q conn).2 ∧ ∃ e, (query q conn).1 = Some (Err e) ∧ refused (from_adnl_error e).
Proof.
  intros Hi. unfold query, async_bind. pose proof (random_spec 32 conn) as H1.
  destruct (on_world (random 32) conn) as [r1 c1]. destruct H1 as (U1 & [->|(query_id & -> & _)]).
  { split; [done|]. exists NoRandomness. split; [done|]. by right. }
  pose proof (random_spec 32 c1) as H2. destruct (on_world (random 32) c1) as [r2 c2]. destruct H2 as (U2 & H2).
  assert (untouched conn c2) as U. { destruct U1 as (? & ? & ? & ?), U2 as (? & ? & ? & ?). repeat split; congruence. }
  destruct H2 as [->|(nonce & -> & _)].
  { split; [done|]. exists NoRandomness. split; [done|]. by right. }
  unfold send, async_bind, check. assert (ac_intact c2 = false) as -> by (destruct U as (_ & _ & _ & ->); done).
  split; [done|]. exists Desynchronized. split; [done|]. by left.
Qed.

(** What a call over a connection comes to: a timeout only with a connection that is not
    intact, and over one that is not intact a refusal that changes nothing. *)
Definition careful {A} (m : stm (NetClient W) Error A) : Prop := ∀ self,
  (m self).1 = Err Timeout → ac_intact (nc_lite (m self).2) = false.

Definition inert {A} (m : stm (NetClient W) Error A) : Prop := ∀ self, ac_intact (nc_lite self) = false →
  is_ok (m self).1 = false ∧ untouched (nc_lite self) (nc_lite (m self).2) ∧ nc_client (m self).2 = nc_client self.

Lemma untouched_refl (conn : AdnlConnection W) : untouched conn conn.
Proof. done. Qed.

Lemma careful_bind {A B} (m : stm (NetClient W) Error A) (k : A → stm (NetClient W) Error B) :
  careful m → (∀ a, careful (k a)) → careful (st_bind m k).
Proof.
  intros Hm Hk self. unfold st_bind. specialize (Hm self). destruct (m self) as [[a|e] self1]; [apply Hk|].
  intros [= ->]. by apply Hm.
Qed.

Lemma careful_lift {A} (r : result Error A) : r ≠ Err Timeout → careful (st_lift r).
Proof. by intros Hr self. Qed.

Lemma careful_clock {A} (read : W → A * W) : careful (on_clock read).
Proof. intros self. unfold on_clock. by destruct (read _). Qed.

Lemma inert_bind {A B} (m : stm (NetClient W) Error A) (k : A → stm (NetClient W) Error B) : inert m → inert (st_bind m k).
Proof.
  intros Hm self Hi. destruct (Hm self Hi) as (Ho & Hu & Hc). unfold st_bind. by destruct (m self) as [[a|e] self1].
Qed.

Lemma inert_get {B} (k : NetClient W → stm (NetClient W) Error B) : (∀ s, inert (k s)) → inert (st_bind st_get k).
Proof. intros Hk self. apply Hk. Qed.

Lemma inert_lift {A B} (r : result Error A) (k : A → stm (NetClient W) Error B) :
  (∀ a, inert (k a)) → inert (st_bind (st_lift r) k).
Proof. intros Hk self Hi. unfold st_bind, st_lift. destruct r as [a|e]; [by apply Hk|done]. Qed.

Lemma from_lite_error_timeout e : from_lite_error e ≠ Timeout.
Proof. by destruct e as [[[]| |[]| | | |]| | |]. Qed.

Lemma within_asking {A} q (k : list Z → result LiteError A) :
  careful (within (async_bind (asking q) (λ answer, answered (k answer)))) ∧
  inert (within (async_bind (asking q) (λ answer, answered (k answer)))).
Proof.
  split; intros self.
  - unfold within, async_bind, asking. pose proof (query_dropped q (nc_lite self)) as Hd.
    destruct (query q (nc_lite self)) as [[[answer|e]|] lite]; cbn [option_fmap option_map fmap map_err fst snd answered nc_lite].
    + destruct (k answer) as [a|e]; [done|]. cbn. by intros [= ?%from_lite_error_timeout].
    + intros Ht. injection Ht as Ht. by destruct (from_lite_error_timeout (LAdnl e)).
    + intros _. by apply Hd.
  - intros Hi. destruct (query_refused q (nc_lite self) Hi) as (Hu & e & He & _). unfold within, async_bind, asking.
    destruct (query q (nc_lite self)) as [r lite]. cbn [fst snd] in *. by subst r.
Qed.
Lemma within_request {A} (m : async (AdnlConnection W) LiteError A) q (k : list Z → result LiteError A) :
  (∀ conn, m conn = async_bind (asking q) (λ answer, answered (k answer)) conn) → careful (within m) ∧ inert (within m).
Proof.
  intros Hm. destruct (within_asking q k) as [Hc Hi]. split; intros self.
  - specialize (Hc self). unfold within in *. by rewrite Hm.
  - specialize (Hi self). unfold within in *. by rewrite Hm.
Qed.

Lemma masterchain_info_within : careful (within (W := W) masterchain_info) ∧ inert (within (W := W) masterchain_info).
Proof.
  apply (within_request _ (build_query GetMasterchainInfo) (λ answer, res_map
    (λ info, MkServerReported (MkMasterchainInfo (from_wire (wmi_last info)) (wmi_state_root_hash info)) [])
    (decode_answer deserialize_masterchain_info answer))).
  intros conn. unfold masterchain_info, async_bind. destruct (asking _ conn) as [[[answer|]|] c]; [|done..].
  unfold answered. by destruct (decode_answer _ answer).
Qed.

Lemma account_state_within block account :
  careful (within (W := W) (account_state block account)) ∧ inert (within (W := W) (account_state block account)).
Proof.
  apply (within_request _ (build_query (GetAccountState (to_wire block) account)) (λ answer, res_map
    (λ state, MkServerReported (MkAccountState (from_wire (was_id state)) (from_wire (was_shardblk state)) (was_shard_proof state) (was_state state))
      (was_proof state))
    (decode_answer deserialize_account_state answer))).
  intros conn. unfold account_state, async_bind. destruct (asking _ conn) as [[[answer|]|] c]; [|done..].
  unfold answered. by destruct (decode_answer _ answer).
Qed.

Lemma block_proof_within known target :
  careful (within (W := W) (block_proof known target)) ∧ inert (within (W := W) (block_proof known target)).
Proof.
  by apply (within_request _ (build_query (GetBlockProof (to_wire known) (Some (to_wire target)))) (decode_answer deserialize_block_proof)).
Qed.

(** The checks of a walk time nothing out. *)
Lemma checks_time_nothing :
  (∀ seconds limit, worth_continuing seconds limit ≠ Err Timeout) ∧ (∀ reply, within_bounds reply ≠ Err Timeout) ∧
  (∀ before after, advanced before after ≠ Err Timeout) ∧ (∀ now utime limit, fresh_enough now utime limit ≠ Err Timeout).
Proof.
  split; [|split; [|split]].
  - intros. unfold worth_continuing. by repeat case_match.
  - intros reply. unfold within_bounds. destruct (_ <? _); [done|]. induction (pp_steps reply) as [|step l IH]; [done|]. cbn [res_fold].
    assert (link_within_bounds step ≠ Err Timeout) as Hl.
    { unfold link_within_bounds. destruct step; cbn [res_fold]; repeat (case_match; cbn [res_bind]; try done). }
    destruct (link_within_bounds step) as [[]|e]; [exact IH|]. cbn [res_bind]. congruence.
  - intros. unfold advanced. by case_match.
  - intros. unfold fresh_enough. cbv zeta. by repeat case_match.
Qed.

Lemma sync_loop_careful fuel started target : ∀ anchor trusted walk,
  careful (NetClient.sync_loop (W := W) p fuel started target anchor trusted walk).
Proof.
  destruct checks_time_nothing as (H1 & H2 & H3 & H4).
  induction fuel as [|fuel IH]; intros anchor trusted walk; cbn [NetClient.sync_loop]; [by apply careful_lift|].
  apply careful_bind; [by intros self|]. intros self. apply careful_bind.
  { apply careful_bind; [apply careful_clock|]. by intros now' self'. }
  intros seconds. apply careful_bind; [apply careful_lift, H1|]. intros _. apply careful_bind; [apply block_proof_within|].
  intros reply. apply careful_bind; [apply careful_lift, H2|]. intros _. destruct (SyncWalk.round _ walk) as [[u|e] walk'] eqn:Ew.
  2:{ apply careful_lift. unfold SyncWalk.round in Ew. cbv zeta in Ew. repeat case_match; congruence. }
  apply careful_bind; [apply careful_lift; by destruct (verify_chain _ _ _)|]. intros proven. cbv zeta.
  apply careful_bind; [apply careful_lift, H3|]. intros _. case_match.
  - case_match; [by apply careful_lift|]. apply careful_bind.
    { apply careful_bind; [apply careful_clock|]. by intros since self'. }
    intros now'. apply careful_bind; [apply careful_lift, H4|]. intros _. apply careful_bind; [by intros self'|]. intros _.
    by destruct (SyncWalk.cost walk').
  - case_match; [by apply careful_lift|]. apply IH.
Qed.

Lemma sync_careful : careful (NetClient.sync (W := W) p).
Proof.
  unfold NetClient.sync. apply careful_bind; [by intros self|]. intros self.
  apply careful_bind; [apply careful_lift; by repeat case_match|]. intros start.
  apply careful_bind; [apply masterchain_info_within|]. intros info. cbv zeta. case_match; [by apply careful_lift|].
  apply careful_bind; [apply careful_clock|]. intros started. apply sync_loop_careful.
Qed.

Lemma sync_inert : inert (NetClient.sync (W := W) p).
Proof.
  apply inert_get. intros self. apply inert_lift. intros start. apply inert_bind, masterchain_info_within.
Qed.

Lemma account_at_within address trusted :
  careful (NetClient.account_at (W := W) p address trusted) ∧ inert (NetClient.account_at (W := W) p address trusted).
Proof.
  unfold NetClient.account_at. case_match; [split; [by apply careful_lift|by intros self]|]. split.
  - apply careful_bind; [apply account_state_within|]. intros reported. cbv zeta. apply careful_bind; [|by intros ? ?].
    apply careful_lift. by destruct (verify_account _ _).
  - apply inert_bind, account_state_within.
Qed.

(** The calls of a client, for what becomes of the connection under them. *)
Inductive call : Type :=
| CallMasterchainInfo
| CallAccountState (address : Address) (block : BlockIdExt)
| CallSync
| CallAccount (address : Address)
| CallAccountAt (address : Address) (trusted : BlockIdExt)
| CallAccountReported (address : Address).

Definition run_call (c : call) : stm (NetClient W) Error unit :=
  match c with
  | CallMasterchainInfo => do! _ <- NetClient.masterchain_info; st_ret tt
  | CallAccountState address block => do! _ <- NetClient.account_state address block; st_ret tt
  | CallSync => do! _ <- NetClient.sync p; st_ret tt
  | CallAccount address => do! _ <- NetClient.account p address; st_ret tt
  | CallAccountAt address trusted => do! _ <- NetClient.account_at p address trusted; st_ret tt
  | CallAccountReported address => do! _ <- NetClient.account_reported p address; st_ret tt
  end.

Lemma run_call_within c : careful (run_call c) ∧ inert (run_call c).
Proof.
  assert (∀ {A} (m : stm (NetClient W) Error A), careful m ∧ inert m → careful (do! _ <- m; st_ret tt) ∧ inert (do! _ <- m; st_ret tt)) as Hret.
  { intros A m [Hc Hi]. split; [apply careful_bind; [done|by intros ? ?]|by apply inert_bind]. }
  destruct c as [|address block| |address|address trusted|address]; cbn [run_call]; apply Hret.
  - apply masterchain_info_within.
  - apply account_state_within.
  - split; [apply sync_careful|apply sync_inert].
  - split; [apply careful_bind; [apply sync_careful|intros report; apply account_at_within]|apply inert_bind, sync_inert].
  - apply account_at_within.
  - unfold NetClient.account_reported. split; [|apply inert_bind, masterchain_info_within].
    apply careful_bind; [apply masterchain_info_within|]. intros head. apply careful_bind; [apply account_state_within|].
    intros reported. apply careful_lift. unfold try_map. by destruct (Account.decode _ _).
Qed.

(** Calls one after another, whatever becomes of each. *)
Fixpoint run_calls (cs : list call) (self : NetClient W) : NetClient W :=
  match cs with
  | [] => self
  | c :: cs => run_calls cs (run_call c self).2
  end.

Lemma run_calls_inert cs : ∀ self, ac_intact (nc_lite self) = false →
  untouched (nc_lite self) (nc_lite (run_calls cs self)) ∧ nc_client (run_calls cs self) = nc_client self.
Proof.
  induction cs as [|c cs IH]; intros self Hi; [done|]. cbn [run_calls].
  destruct (proj2 (run_call_within c) self Hi) as (_ & U1 & E1).
  assert (ac_intact (nc_lite (run_call c self).2) = false) as Hi' by (destruct U1 as (_ & _ & _ & ->); done).
  destruct (IH _ Hi') as (U2 & E2). split; [|congruence].
  destruct U1 as (? & ? & ? & ?), U2 as (? & ? & ? & ?). repeat split; congruence.
Qed.
End timeouts.

(** ** Connecting *)

Section connecting.
Context `{HH : Hasher} `{C : Ctr} `{X : Exchange} `{T : AdnlTl} {W : Type} `{HW : World W} {N : Type} `{HD : Dial N W}.

(** Servers tried one after another, none of which lets the client in, and why. *)
Inductive tried : list LiteServer → N → N → list Error → Prop :=
| tried_none n : tried [] n n []
| tried_unreachable s l n n1 n2 e es :
    dial (ls_addr s) n = (Err e, n1) → tried l n1 n2 es → tried (s :: l) n n2 (from_transport_error e :: es)
| tried_unwelcome s l n n1 n2 t w e es :
    dial (ls_addr s) n = (Ok t, n1) → lite_connect (ls_key s) t = (Some (Err e), w) → tried l n1 n2 es →
    tried (s :: l) n n2 (from_lite_error e :: es).

(** Where a connection attempt ends: at the first server that answers. *)
Definition reached (config : Config) (servers : list LiteServer) (net : N)
    (r : option (result Error (NetClient W)) * N) (failed : list Error → Error → Prop) : Prop :=
  match r with
  | (Some (Ok client), net') => ∃ before server after net1 t w errors,
      servers = before ++ server :: after ∧ tried before net net1 errors ∧ dial (ls_addr server) net1 = (Ok t, net') ∧
      lite_connect (ls_key server) t = (Some (Ok (nc_lite client)), w) ∧
      nc_client client = MkClient None (cf_init_block config) (cf_max_head_age config)
  | (Some (Err e), net') => ∃ errors, tried servers net net' errors ∧ failed errors e
  | (None, net') => ∃ before server after net1 t w errors,
      servers = before ++ server :: after ∧ tried before net net1 errors ∧ dial (ls_addr server) net1 = (Ok t, net') ∧
      lite_connect (ls_key server) t = (None, w)
  end.

Lemma reached_later config s servers net net1 e0 r failed failed' :
  reached config servers net1 r failed →
  (∀ before net2 errors, tried before net1 net2 errors → tried (s :: before) net net2 (e0 :: errors)) →
  (∀ errors e, failed errors e → failed' (e0 :: errors) e) → reached config (s :: servers) net r failed'.
Proof.
  intros Hr Ht Hf. destruct r as [[[client|e]|] net']; cbn [reached] in *.
  - destruct Hr as (before & server & after & net2 & t & w & errors & -> & H1 & H2). exists (s :: before), server, after, net2, t, w, (e0 :: errors).
    split; [done|]. split; [by apply Ht|done].
  - destruct Hr as (errors & H1 & H2). exists (e0 :: errors). split; [by apply Ht|by apply Hf].
  - destruct Hr as (before & server & after & net2 & t & w & errors & -> & H1 & H2). exists (s :: before), server, after, net2, t, w, (e0 :: errors).
    split; [done|]. split; [by apply Ht|done].
Qed.

Lemma connect_loop_spec config servers : ∀ last_error net,
  reached config servers net (NetClient.connect_loop config servers last_error net)
    (λ errors e, e = default (Sync.Config "config has no liteservers") (last (option_list last_error ++ errors))).
Proof.
  induction servers as [|s servers IH]; intros last_error net; cbn [NetClient.connect_loop].
  { exists []. split; [constructor|]. by destruct last_error. }
  assert (∀ e0 errors e, e = default (Sync.Config "config has no liteservers") (last (option_list (Some e0) ++ errors)) →
    e = default (Sync.Config "config has no liteservers") (last (option_list last_error ++ e0 :: errors))) as Hlast.
  { intros e0 errors e ->. rewrite !last_app. cbn [option_list app]. rewrite last_cons. by destruct (last errors). }
  destruct (dial (ls_addr s) net) as [[t|e] net1] eqn:Ed.
  2:{ eapply reached_later; [apply IH| |apply Hlast]. intros before net2 errors. by apply tried_unreachable. }
  destruct (lite_connect (ls_key s) t) as [[[lite|e]|] w] eqn:El.
  - exists [], s, servers, net, t, w, []. split; [done|]. split; [constructor|]. done.
  - eapply reached_later; [apply IH| |apply Hlast]. intros before net2 errors. by eapply tried_unwelcome.
  - exists [], s, servers, net, t, w, []. split; [done|]. split; [constructor|]. done.
Qed.

Definition server_ok (raw : RawLiteServer) (server : LiteServer) : Prop :=
  ri_key_type (rl_id raw) = "pub.ed25519"%string ∧ codec.base64_decode (ri_key (rl_id raw)) = Some (ls_key server) ∧ len (ls_key server) = 32.

Lemma lite_server_ok raw server : lite_server raw = Ok server → server_ok raw server.
Proof.
  unfold lite_server, server_ok. case_bool_decide as Ht; [|done]. cbn [negb]. destruct (codec.base64_decode _) as [key|]; [|done].
  destruct (Z.eqb_spec (len key) 32); [|done]. cbn [res_bind]. by intros [= <-].
Qed.

Lemma lite_servers_ok raws : ∀ out servers,
  res_fold (λ out server, let? server := lite_server server in Ok (out ++ [server])) raws out = Ok servers →
  ∃ more, servers = out ++ more ∧ Forall2 server_ok raws more.
Proof.
  induction raws as [|raw raws IH]; intros out servers; cbn [res_fold]; [intros [= <-]; exists []; by rewrite app_nil_r|].
  destruct (lite_server raw) as [server|] eqn:E; [|done]. cbn [res_bind]. intros (more & -> & Hm)%IH.
  exists (server :: more). rewrite <- app_assoc. split; [done|]. constructor; [by apply lite_server_ok|done].
Qed.

(** A trusted block read as the configuration has it, its shard as the unsigned number. *)
Definition block_read (raw : RawBlockId) (block : BlockIdExt) : Prop :=
  codec.base64_decode (rb_root_hash raw) = Some (id_root_hash block) ∧ len (id_root_hash block) = 32 ∧
  codec.base64_decode (rb_file_hash raw) = Some (id_file_hash block) ∧ len (id_file_hash block) = 32 ∧
  id_shard block = wrap 64 (rb_shard raw) ∧ id_seqno block = rb_seqno raw ∧ id_workchain block = rb_workchain raw.

Lemma init_block_ok raw block : init_block raw = Ok block → block_read raw block.
Proof.
  unfold init_block, config_hash, block_read. destruct (codec.base64_decode (rb_root_hash raw)) as [r|]; [|done].
  destruct (Z.eqb_spec (len r) 32); [|done]. cbn [res_bind]. destruct (codec.base64_decode (rb_file_hash raw)) as [f|]; [|done].
  destruct (Z.eqb_spec (len f) 32); [|done]. cbn [res_bind]. by intros [= <-].
Qed.
End connecting.

(** ** Theorems *)

Section theorems.
Context `{HH : Hasher} `{!HasherOk HH} `{C : Ctr} `{!CtrOk C} `{X : Exchange} `{T : AdnlTl} `{L : LiteTl} `{TC : TlCodec} `{CV : Curve}.
Context {W : Type} `{HW : World W} `{!WorldOk W} `{HK : Clock W}.
Variable p : Z.

(** C4: a client over a live connection does what the walk and the read of Sync.v do over
    the network it met. Over some network they give what the client returned, errors
    included, and the anchor it kept; and what they ask of that network, the head, the
    time, the proof of each round, the account, and what it says to each, is what was asked
    over the connection and of the clocks, in that order and nothing else, and what the
    calls gave. So what those are proven to establish, whatever a network answers, the
    client establishes of the answers it got. *)
Theorem client_refines address (self : NetClient W) :
  (∃ net, let '(r, self') := NetClient.sync p self in
     sync p net (nc_client self) = (r, nc_client self') ∧
     happened 0 (nc_lite self) (sync_asks p net (nc_client self)) (nc_lite self')) ∧
  ∃ net reported, let '(r, self') := NetClient.account p address self in
    let account_id := Address.account_id address in
    account p net reported (Address.workchain address) account_id (nc_client self) = (r, nc_client self') ∧
    happened 0 (nc_lite self) (account_asks p net reported (MkAccountId (Address.workchain address) account_id) (nc_client self)) (nc_lite self').
Proof.
  split; [apply sync_refines|]. destruct (sync_refines p self) as (net & Hsync). exists net.
  unfold NetClient.account, account, account_asks, st_bind. destruct (NetClient.sync p self) as [[report|e] self1]; destruct Hsync as [-> Hasked].
  2:{ exists (Err Timeout). split; [done|]. cbn [fst]. by rewrite app_nil_r. }
  destruct (account_at_refines p address (sr_head report) self1) as (reported & Hat). exists reported. cbn [fst].
  destruct (NetClient.account_at _ _ _ _) as [r self2]. unfold st_lift. destruct Hat as (-> & -> & Hat). split; [done|].
  by eapply happened_app.
Qed.

(** C6: a call that times out ends the connection. Whatever is called after it, in any
    order, fails, and no byte is written, read or decrypted for it, so that nothing can be
    taken for the answer that was still to come; what the client trusts stays as it was. *)
Theorem timeout_is_final c cs c' (self self' : NetClient W) :
  run_call p c self = (Err Timeout, self') →
  let late := run_calls p cs self' in
  is_ok (run_call p c' late).1 = false ∧ untouched (nc_lite self') (nc_lite (run_call p c' late).2) ∧
  nc_client (run_call p c' late).2 = nc_client self'.
Proof.
  intros Hrun. destruct (run_call_within p c) as [Hc _]. specialize (Hc self). rewrite Hrun in Hc. specialize (Hc eq_refl). cbn [snd] in Hc.
  destruct (run_calls_inert p (cs ++ [c']) self' Hc) as [Hu Hk]. destruct (run_calls_inert p cs self' Hc) as [(_ & _ & _ & Hi) _].
  rewrite Hc in Hi. destruct (proj2 (run_call_within p c') _ Hi) as [Ho _]. cbv zeta. split; [done|].
  assert (∀ l (s : NetClient W), run_calls p (l ++ [c']) s = (run_call p c' (run_calls p l s)).2) as <-.
  { induction l as [|x l IH]; intros s; [done|apply IH]. }
  done.
Qed.

(** Connecting by a configuration. One that is read names at least one server, each
    with an Ed25519 key of 32 bytes, and any trusted block by hashes of 32. The client comes out connected to the first server
    that is reached and takes its handshake, trusting nothing yet; when none is, every one
    was tried and the error is the last one's. *)
Theorem connect_tries {N} `{HD : Dial N W} `{J : Json} json config (net : N) :
  from_json json = Ok config →
  (∃ raw, from_str json = Ok raw ∧ rc_liteservers raw ≠ [] ∧ Forall2 server_ok (rc_liteservers raw) (cf_liteservers config) ∧
     cf_max_head_age config = DEFAULT_MAX_HEAD_AGE ∧
     match rc_validator raw ≫= rv_init_block, cf_init_block config with
     | Some raw, Some block => block_read raw block
     | None, None => True
     | _, _ => False
     end) ∧
  reached config (cf_liteservers config) net (NetClient.connect (W := W) config net) (λ errors e, last errors = Some e).
Proof.
  unfold from_json. destruct (from_str json) as [raw|]; [|done]. cbn [map_err res_bind]. case_bool_decide as Hne; [done|].
  destruct (res_fold _ _ _) as [servers|] eqn:Es; [|done]. cbn [res_bind]. apply lite_servers_ok in Es as (more & -> & Hs). cbn [app].
  set (init := match _ ≫= _ with Some _ => _ | None => _ end). intros Hinit. destruct init as [block|] eqn:Ei; [|done]. injection Hinit as <-.
  cbn [cf_liteservers cf_max_head_age cf_init_block]. split.
  - exists raw. do 4 (split; [done|]). subst init. destruct (rc_validator raw ≫= rv_init_block) as [raw_block|]; [|by injection Ei as <-].
    destruct (init_block raw_block) as [b|] eqn:Eb; [|done]. injection Ei as <-. by apply init_block_ok.
  - pose proof (connect_loop_spec (MkConfig more block DEFAULT_MAX_HEAD_AGE) more None net) as Hr. unfold NetClient.connect. cbn [cf_liteservers].
    destruct (NetClient.connect_loop _ _ _ _) as [[[client|e]|] net']; [done| |done]. destruct Hr as (errors & Ht & ->). exists errors. split; [done|].
    change (option_list None ++ errors) with errors. destruct (last errors) eqn:El; [done|]. apply last_None in El as ->. inversion Ht; subst. by apply Forall2_nil_inv_r in Hs.
Qed.
End theorems.
