(* ===== verification/Examples.v ===== *)
(** The theorems at concrete inputs: small trees, proofs, updates and
    dictionaries, built with the model's own functions over the toy digest of
    CellHash.v, on which every hypothesis evaluates. *)

From stdpp Require Import base list list_numbers numbers strings sorting.
From Stdlib Require Import ZArith Lia.
From S2P Require Import Prelude Errors Bits CellData CellHash CellModel Binding CellCheck CellSlice CellBuilder Fields BuilderOps DictLabel Dict DictTree DictCells DictWalk DictSpec DictTheorems.
From S2P Require Merkle MerkleUpdate CellText.

Local Open Scope Z_scope.

#[local] Existing Instance toy_sha256.
#[local] Existing Instance toy_sha256_ok.

(** ** Concrete cells *)

Definition nothing : Cell := MkCell {| bytes := []; span := {| start := 0; stop := 0 |} |} 0 RNone Ordinary NONE.

Definition the {A} (d : A) (r : result CellError A) : A := match r with Ok a => a | Err _ => d end.

Definition cell8 (n : Z) (refs : list Cell) : Cell :=
  the nothing (built (run! Builder.store_u8 n; st_for refs Builder.store_ref)).

(** A pruned branch of level one answering for a cell. *)
Definition pruned (c : Cell) : Cell :=
  the nothing
    (match (run! Builder.store_bytes [1; 1]; run! Builder.store_bytes (Cell.hash c);
            Builder.store_u16 (Cell.depth c)) Builder.new with
     | (Ok _, b) => Builder.finish b PrunedBranch 1
     | (Err e, _) => Err e
     end).

Definition leaf_a : Cell := cell8 1 [].
Definition leaf_b : Cell := cell8 2 [].
Definition tree_ab : Cell := cell8 7 [leaf_a; leaf_b].
(** The same tree with its second branch pruned. *)
Definition tree_cut : Cell := cell8 7 [leaf_a; pruned leaf_b].
Definition proof_cut : Cell := the nothing (Merkle.create_proof tree_cut).

(** Well-formedness and reachability by evaluation. *)
Ltac by_wf := apply cell_wfb_ok; vm_compute; reflexivity.

Lemma reach_run b op b' : reachable b → op_typed op → snd (run_op op b) = b' → reachable b'.
Proof. intros Hb Ht <-. by apply reach_op. Qed.

(** ** Cells and builders *)

Lemma cell_eq_same_witness :
  cell_wf tree_ab ∧ (Cell.eqb tree_ab tree_ab = true ↔ same tree_ab tree_ab).
Proof.
  split; [by_wf|]. apply cell_eq_same; [by_wf|by_wf|].
  apply no_collision_two. vm_compute. reflexivity.
Defined.

(** A value of every kind, in one cell. *)
Definition one_of_each : list Stored :=
  [StBit true; StUint 5 3; StUint128 (2 ^ 100) 101; StInt (-4) 3; StInt128 (- 2 ^ 90) 91; StU8 255; StU16 256; StU32 7;
   StI32 (-7); StVarUint 1000 8; StVarInt (-1000) 8; StCoins 1000000000; StBits [true; false]; StBytes [1; 2; 3];
   StAddress (AddrStd (-1) (replicate 32 7)); StRef leaf_a; StMaybeRef (Some leaf_b); StMaybeRef None].

#[local] Instance in_range_dec x : Decision (in_range x).
Proof. destruct x; [..|destruct address| |]; unfold in_range; apply _. Defined.

Lemma one_of_each_ok : Forall in_range one_of_each ∧ Forall cell_wf (all_refs one_of_each).
Proof.
  split; [apply (bool_decide_unpack _); vm_compute; exact I|].
  change (all_refs one_of_each) with [leaf_a; leaf_b]. apply Forall_cons_2; [by_wf|]. apply Forall_cons_2; [by_wf|apply Forall_nil_2].
Qed.

Lemma build_parse_roundtrip_witness :
  ∃ b c s, st_for one_of_each store_one Builder.new = (Ok tt, b) ∧ Builder.build b = Ok c ∧
    load_all one_of_each (Slice.new c) = (Ok one_of_each, s) ∧ Slice.is_empty s = true.
Proof.
  destruct one_of_each_ok as [Hr Hc]. pose proof (build_parse_roundtrip one_of_each Hr Hc) as Hb.
  destruct (st_for one_of_each store_one Builder.new) as [r b]. rewrite bool_decide_true in Hb.
  - destruct Hb as (c & s & -> & Hbuild & _ & _ & _ & Hload & He). exists b, c, s.
    split; [reflexivity|]. split; [exact Hbuild|]. split; [exact Hload|exact He].
  - split; vm_compute; discriminate.
Defined.

Definition builder_5 : Builder := snd (Builder.store_uint 5 3 Builder.new).

Lemma builder_5_reachable : reachable builder_5.
Proof.
  apply (reach_run Builder.new (OpUint 5 3)); [apply reach_new|simpl; lia|reflexivity].
Qed.

Lemma builder_reachable_builds_witness :
  reachable builder_5 ∧ len (b_data builder_5) = div_ceil (Builder.bits_used builder_5) 8.
Proof.
  split; [apply builder_5_reachable|].
  destruct (builder_reachable_builds builder_5 builder_5_reachable) as (_ & _ & Hl & _). exact Hl.
Defined.

Definition no_fit : CellError := Malformed "value does not fit the requested bits".

Lemma builder_failure_atomic_witness :
  run_op (OpUint 8 3) builder_5 = (Err no_fit, builder_5) ∧ builder_5 = builder_5.
Proof.
  split; [vm_compute; reflexivity|].
  apply (builder_failure_atomic builder_5 (OpUint 8 3) no_fit builder_5);
    [apply builder_5_reachable|simpl; lia|reflexivity|vm_compute; reflexivity].
Defined.

Lemma snake_roundtrip_witness :
  ∃ b' c s, Builder.store_snake [104; 105] builder_5 = (Ok tt, b') ∧ Builder.build b' = Ok c ∧
    past builder_5 c = (Ok tt, s) ∧ fst (Snake.load_snake s) = Ok [104; 105].
Proof.
  apply snake_roundtrip; [apply builder_5_reachable|repeat constructor; done|vm_compute; reflexivity].
Defined.

Lemma either_roundtrip_witness :
  ∃ c s e s', Builder.build (snd (Builder.store_either_ref leaf_a builder_5)) = Ok c ∧
    past builder_5 c = (Ok tt, s) ∧ Slice.load_either_ref s = (Ok e, s') ∧
    match e with
    | ERef found => found = leaf_a
    | EInline => slice_bits s' = Cell.bits leaf_a ∧ slice_refs s' = Cell.refs leaf_a
    end.
Proof.
  apply (either_roundtrip builder_5 leaf_a); [apply builder_5_reachable|by_wf|vm_compute; reflexivity].
Defined.

Lemma to_cell_copies_witness :
  ∃ c, Builder.to_cell (Slice.new tree_ab) = Ok c ∧ cell_wf c ∧ Cell.cell_type c = Ordinary ∧
    Cell.bits c = slice_bits (Slice.new tree_ab) ∧ Cell.refs c = slice_refs (Slice.new tree_ab).
Proof. apply to_cell_copies; [apply new_wf; vm_compute; discriminate|by_wf]. Defined.

(** ** Merkle proofs and updates *)

Lemma verify_merkle_proof_sound_witness :
  Merkle.verify_merkle_proof proof_cut (Cell.hash tree_ab) = Ok tree_cut ∧
  cell_wf tree_cut ∧ agrees 0 tree_cut tree_ab.
Proof.
  assert (Merkle.verify_merkle_proof proof_cut (Cell.hash tree_ab) = Ok tree_cut) as Hv
    by (vm_compute; reflexivity).
  split; [exact Hv|].
  apply (Merkle.verify_merkle_proof_sound proof_cut (Cell.hash tree_ab)); [by_wf|exact Hv|by_wf|reflexivity|].
  apply no_collision_two. vm_compute. reflexivity.
Defined.

Lemma rooted_at_verified_witness :
  ∃ proof, proof ∈ [leaf_a; proof_cut] ∧ Cell.cell_type proof = MerkleProof ∧ tree_cut ∈ Cell.refs proof ∧
    Cell.hash tree_cut = Cell.hash tree_ab ∧
    Merkle.verify_merkle_proof proof (Cell.hash tree_ab) = Ok tree_cut.
Proof. apply Merkle.rooted_at_verified. vm_compute. reflexivity. Defined.

Lemma create_proof_roundtrip_witness :
  cell_wf tree_ab ∧ ∃ p, Merkle.create_proof tree_ab = Ok p ∧ cell_wf p ∧ Merkle.virtualize p = Ok tree_ab ∧
    Merkle.verify_merkle_proof p (Cell.hash tree_ab) = Ok tree_ab.
Proof.
  assert (cell_wf tree_ab) as Hw by by_wf. split; [exact Hw|].
  exact (Merkle.create_proof_roundtrip tree_ab Hw).
Defined.

Lemma rebuild_keeps_hash_witness :
  ∃ c, Merkle.rebuild_with_refs tree_ab [leaf_a; pruned leaf_b] = Ok c ∧ cell_wf c ∧
    Cell.refs c = [leaf_a; pruned leaf_b] ∧ Cell.bits c = Cell.bits tree_ab ∧
    Cell.hash c = Cell.hash tree_ab ∧ Cell.depth c = Cell.depth tree_ab.
Proof.
  apply Merkle.rebuild_keeps_hash; [by_wf| |reflexivity|vm_compute; reflexivity].
  repeat (apply Forall_cons_2; [by_wf|]). apply Forall_nil_2.
Defined.

(** Whether every node of a tree passes a test. *)
Fixpoint everyb (test : Cell → bool) (c : Cell) : bool :=
  match c with
  | MkCell d b r t i =>
      test (MkCell d b r t i) &&
      match r with
      | RNone => true
      | ROne x => everyb test x
      | RTwo x y => everyb test x && everyb test y
      | RThree x y z => everyb test x && everyb test y && everyb test z
      | RFour x y z w => everyb test x && everyb test y && everyb test z && everyb test w
      end
  end.

Lemma everyb_below test c x : everyb test c = true → MerkleUpdate.below c x → test x = true.
Proof.
  intros Hc Hx. assert (everyb test x = true) as Hb.
  { induction Hx as [|x y _ IH Hy]; [done|]. destruct x as [d b r t i].
    cbn [everyb] in IH. apply andb_true_iff in IH as [_ IH]. unfold Cell.refs in Hy. simpl in Hy.
    destruct r; simpl in *; rewrite ?andb_true_iff in IH; rewrite ?elem_of_cons, ?elem_of_nil in Hy;
      destruct_and?; destruct_or?; subst; done. }
  destruct x. cbn [everyb] in Hb. by apply andb_true_iff in Hb as [Hb _].
Qed.

Lemma plainb_ok c : everyb (λ x, Cell.level_mask x =? 0) c = true → MerkleUpdate.plain c.
Proof. intros Hc x Hx. by apply Z.eqb_eq, (everyb_below _ c x Hc). Qed.

Lemma ordinaryb_ok c :
  everyb (λ x, bool_decide (Cell.cell_type x = Ordinary)) c = true → MerkleUpdate.all_ordinary c.
Proof. intros Hc x Hx. exact (bool_decide_eq_true_1 _ (everyb_below _ c x Hc Hx)). Qed.

(** [tree_ab] with its first branch replaced, and the update that says so. *)
Definition leaf_c : Cell := cell8 3 [].
Definition tree_cb : Cell := cell8 9 [leaf_c; leaf_b].
Definition old_side : Cell := cell8 7 [pruned leaf_a; pruned leaf_b].
Definition new_side : Cell := cell8 9 [leaf_c; pruned leaf_b].

(** Showing a tree, node by node. *)
Ltac by_node refs_n refs_t :=
  apply MerkleUpdate.shows_node; [reflexivity|reflexivity|vm_compute; reflexivity|];
  match goal with |- Forall2 _ ?l ?l' => change l with refs_n; change l' with refs_t end;
  constructor; [|constructor; [|constructor]].

Ltac by_leaf := apply MerkleUpdate.shows_node; [reflexivity|reflexivity|reflexivity|vm_compute; constructor].

Ltac by_pruned side :=
  apply MerkleUpdate.shows_pruned; [reflexivity|vm_compute; reflexivity|];
  eapply MerkleUpdate.below_ref; [apply MerkleUpdate.below_self|]; side.

Lemma new_side_shows : MerkleUpdate.shows tree_ab new_side tree_cb.
Proof. by_node [leaf_c; pruned leaf_b] [leaf_c; leaf_b]; [by_leaf|by_pruned ltac:(right; left)]. Qed.

Lemma create_apply_update_witness :
  ∃ update result, Merkle.create_update old_side new_side = Ok update ∧
    MerkleUpdate.validate_update update = Ok tt ∧
    MerkleUpdate.apply_update tree_ab update = Ok result ∧ same result tree_cb.
Proof.
  apply MerkleUpdate.create_apply_update; [by_wf|apply plainb_ok; vm_compute; reflexivity| |by_wf|by_wf
    |reflexivity|vm_compute; reflexivity|by_wf|reflexivity|apply new_side_shows].
  apply no_collision_one. vm_compute. reflexivity.
Defined.

Definition the_update : Cell := the nothing (Merkle.create_update old_side new_side).

Lemma apply_update_sound_witness :
  get_range (Cell.data the_update) MerkleUpdate.OLD_HASH (MerkleUpdate.OLD_HASH + 32) = Some (Cell.hash tree_ab) ∧
  cell_wf (the nothing (MerkleUpdate.apply_update tree_ab the_update)) ∧
  Cell.hash (the nothing (MerkleUpdate.apply_update tree_ab the_update)) = Cell.hash tree_cb ∧
  agrees 0 (the nothing (MerkleUpdate.apply_update tree_ab the_update)) tree_cb.
Proof.
  apply MerkleUpdate.apply_update_sound; [by_wf|by_wf|vm_compute; reflexivity|by_wf|vm_compute; reflexivity|].
  apply no_collision_two. vm_compute. reflexivity.
Defined.

(** The next tree along: the second branch changes and the first one stays, so
    each update prunes what the other one carries. *)
Definition leaf_d : Cell := cell8 4 [].
Definition tree_cd : Cell := cell8 11 [leaf_c; leaf_d].
Definition middle_side : Cell := cell8 9 [pruned leaf_c; leaf_b].
Definition last_side : Cell := cell8 11 [pruned leaf_c; leaf_d].
Definition next_update : Cell := the nothing (Merkle.create_update middle_side last_side).

Lemma old_side_shows : MerkleUpdate.shows tree_ab old_side tree_ab.
Proof.
  by_node [pruned leaf_a; pruned leaf_b] [leaf_a; leaf_b]; [by_pruned ltac:(left)|by_pruned ltac:(right; left)].
Qed.

Lemma middle_side_shows : MerkleUpdate.shows tree_cb middle_side tree_cb.
Proof. by_node [pruned leaf_c; leaf_b] [leaf_c; leaf_b]; [by_pruned ltac:(left)|by_leaf]. Qed.

Lemma last_side_shows : MerkleUpdate.shows tree_cb last_side tree_cd.
Proof. by_node [pruned leaf_c; leaf_d] [leaf_c; leaf_d]; [by_pruned ltac:(left)|by_leaf]. Qed.

Lemma combine_applies_witness :
  ∃ both result, MerkleUpdate.combine_updates the_update next_update = Ok both ∧
    MerkleUpdate.validate_update both = Ok tt ∧
    MerkleUpdate.apply_update tree_ab both = Ok result ∧ same result tree_cd.
Proof.
  apply (MerkleUpdate.combine_applies tree_ab tree_cb tree_cd old_side new_side middle_side last_side);
    [by_wf|by_wf|by_wf|apply ordinaryb_ok; vm_compute; reflexivity|apply ordinaryb_ok; vm_compute; reflexivity
    |apply ordinaryb_ok; vm_compute; reflexivity| | |apply old_side_shows|apply new_side_shows
    |apply middle_side_shows|apply last_side_shows|vm_compute; reflexivity|vm_compute; reflexivity].
  - apply no_collision_two. vm_compute. reflexivity.
  - repeat (apply Forall_cons_2; [split; [by_wf|reflexivity]|]). apply Forall_nil_2.
Defined.

(** A reference to a library is grafted as it stands, but the splice refuses one:
    the two updates apply in turn and do not combine. *)
Definition library : Cell :=
  the nothing (match (run! Builder.store_u8 2; Builder.store_bytes (replicate 32 0)) Builder.new with
               | (Ok _, b) => Builder.finish b LibraryReference 0
               | (Err e, _) => Err e
               end).
Definition library_side : Cell := cell8 12 [library; pruned leaf_b].
Definition library_update : Cell := the nothing (Merkle.create_update (cell8 9 [pruned leaf_c; pruned leaf_b]) library_side).
Definition tree_lb : Cell := cell8 12 [library; leaf_b].

Example library_applies :
  (let? middle := MerkleUpdate.apply_update tree_ab the_update in
   MerkleUpdate.apply_update middle library_update) = Ok tree_lb.
Proof. vm_compute. reflexivity. Qed.

Example library_refused :
  MerkleUpdate.combine_updates the_update library_update =
  Err (Malformed "combining a merkle update over an unexpected exotic cell").
Proof. vm_compute. reflexivity. Qed.

(** ** Cells as text *)

(** A value of its own for each shape of JSON the crate makes. *)
Local Unset Elimination Schemes.
Inductive JsonValue : Type :=
| JNumber (n : Z)
| JString (text : list Z)
| JArray (values : list JsonValue)
| JObject (fields : list (string * JsonValue)).
Local Set Elimination Schemes.

#[local] Instance plain_json : CellText.Json := {
  CellText.Value := JsonValue;
  CellText.json_number := JNumber;
  CellText.json_string := JString;
  CellText.json_array := JArray;
  CellText.json_object := JObject;
  CellText.json_get := λ key v,
    match v with JObject fields => snd <$> find (λ field, bool_decide (field.1 = key)) fields | _ => None end;
  CellText.as_u64 := λ v, match v with JNumber n => Some n | _ => None end;
  CellText.as_str := λ v, match v with JString text => Some text | _ => None end;
  CellText.as_array := λ v, match v with JArray values => Some values | _ => None end;
}.

#[local] Instance plain_json_ok : CellText.JsonOk plain_json.
Proof. split; done. Qed.

Lemma json_round_trip_witness :
  ∃ v c n, CellText.to_json tree_ab = Ok v ∧ cell_wf c ∧ same c tree_ab ∧
    ∀ fuel, (n <= fuel)%nat → CellText.from_json fuel v = Ok c.
Proof. apply CellText.json_round_trip; [by_wf|apply ordinaryb_ok; vm_compute; reflexivity]. Defined.

(** A value that names bits its data does not hold is refused. *)
Example json_short :
  CellText.from_json 1 (JObject [("bits"%string, JNumber 9); ("data"%string, JString [48; 49]); ("refs"%string, JArray [])]) =
  Err (Malformed "cell json data is shorter than its bit length").
Proof. reflexivity. Qed.

Example tree_ab_dumped :
  CellText.dump tree_ab = CellText.literal "x{07}" ++ [10] ++ CellText.literal "  x{01}" ++ [10] ++ CellText.literal "  x{02}".
Proof. vm_compute. reflexivity. Qed.

(** ** Labels and dictionaries *)

Definition label_101 : Label :=
  match Label.extend [true; false; true] Label.new with (Ok _, l) => l | (Err _, l) => l end.

Lemma label_101_ok : label_ok label_101 ∧ lbits label_101 = [true; false; true].
Proof.
  destruct (extend_ok [true; false; true] Label.new) as (l & E & Hok & Hb);
    [apply bools_lawful; vm_compute; discriminate|apply new_ok|vm_compute; discriminate|].
  unfold label_101. rewrite E. split; [exact Hok|vm_compute in Hb; exact Hb].
Qed.

Lemma label_roundtrip_witness :
  writes (store_label label_101 8) (label_enc 8 (lbits label_101)).
Proof.
  destruct (label_roundtrip (S := Label) label_101 8 [] RNone (Slice.new nothing) Label.new) as [Hw _];
    [apply label_101_ok|by vm_compute|done|exact Hw].
Defined.

(** A cell holding that label and nothing else. *)
Definition cell_101 : Cell := the nothing (built (store_label label_101 8)).

Definition read_101 : result CellError unit * (Slice * Label) :=
  read_label_into 8 (Slice.new cell_101, Label.new).

Lemma label_encoding_minimal_witness :
  len (sink_bits (snd (snd read_101))) <= 8 ∧
  len (label_enc 8 (sink_bits (snd (snd read_101)))) <= s_bit (fst (snd read_101)) - s_bit (Slice.new cell_101).
Proof.
  apply (label_encoding_minimal 8 (Slice.new cell_101) Label.new (fst (snd read_101)) (snd (snd read_101)));
    [by vm_compute|apply new_wf; vm_compute; discriminate|vm_compute; reflexivity].
Defined.

Lemma skip_label_agrees_witness : skip_label 8 (Slice.new cell_101) = (Ok tt, fst (snd read_101)).
Proof.
  apply (skip_label_agrees 8 (Slice.new cell_101) Label.new (fst (snd read_101)) (snd (snd read_101)));
    [by vm_compute|apply new_wf; vm_compute; discriminate|vm_compute; reflexivity].
Defined.

(** A dictionary of byte keys, and two ways to build it. *)
Definition empty_8 : Dict := MkDict None 8.
Definition val (n : Z) : value := (uint_bits 8 n, []).
Definition edits_1 : list edit := [Put [1] (val 10); Put [3] (val 30); Put [200] (val 20); Drop [3]].
Definition edits_2 : list edit := [Put [200] (val 20); Put [1] (val 11); Put [1] (val 10)].
Definition dict_2 : Dict := fold_left apply_edit edits_2 empty_8.

Lemma val_storable n : storable (val n).
Proof.
  split; [change (len (uint_bits 8 n) <= MAX_BITS); rewrite len_uint_bits; vm_compute; discriminate|].
  split; [vm_compute; discriminate|apply Forall_nil_2].
Qed.

Lemma edits_ok : Forall edit_ok edits_1 ∧ Forall edit_ok edits_2.
Proof. split; repeat (apply Forall_cons_2; [first [apply val_storable|exact I]|]); apply Forall_nil_2. Qed.

Lemma empty_8_represents : represents true empty_8 None.
Proof. split; [vm_compute; split; discriminate|exact I]. Qed.

Lemma dict_2_represents : ∃ t, represents true dict_2 (Some t) ∧ whole t ∧ d_key_bits dict_2 = 8.
Proof.
  destruct (edits_represent true empty_8 None edits_2 empty_8_represents (proj2 edits_ok)) as (ot & Hr & Hw & Hn).
  destruct ot as [t|]; [exists t; split; [exact Hr|split; [by apply Hw|exact Hn]]|].
  exfalso. destruct Hr as [_ Hr]. fold dict_2 in Hr.
  assert (Dict.is_empty dict_2 = false) as He by (vm_compute; reflexivity).
  unfold Dict.is_empty in He. by destruct (d_root dict_2).
Qed.

Lemma dict_history_independent_witness :
  fold_left apply_edit edits_1 empty_8 = fold_left apply_edit edits_2 empty_8.
Proof.
  apply (dict_history_independent 8 empty_8 edits_1 edits_2); [lia|reflexivity|apply edits_ok|apply edits_ok|].
  intros key. assert (fold_left apply_edit edits_1 empty_8 = fold_left apply_edit edits_2 empty_8) as ->; [|reflexivity].
  vm_compute. reflexivity.
Defined.

Lemma dict_get_refines_witness :
  ∃ t, represents true dict_2 (Some t) ∧
    ∃ r, Dict.get dict_2 [200] = Ok r ∧
      match dget (Some t) (bits_of [200] (d_key_bits dict_2)), r with
      | Found v, Found e => entry_value e = v
      | Absent, Absent | PrunedAway, PrunedAway => True
      | _, _ => False
      end.
Proof.
  destruct dict_2_represents as (t & Hr & _ & Hn). exists t. split; [exact Hr|].
  pose proof (dict_get_refines true dict_2 (Some t) [200] Hr) as Hg. rewrite Hn in *. exact Hg.
Defined.

Lemma dict_set_then_get_witness :
  match Dict.set [5] (builder_of (val 9)) empty_8 with
  | (Ok tt, d') =>
      (∃ ot', represents true d' ot') ∧ d_key_bits d' = 8 ∧
      ∀ key', contents d' key' =
        if (8 <=? 8 * len key') && bool_decide (bits_of key' 8 = bits_of [5] 8)
        then Ok (Found (val 9)) else contents empty_8 key'
  | (Err _, d') => d' = empty_8 ∧ (contents empty_8 [5] = Ok PrunedAway ∨ ¬ spacious 8 (val 9))
  end.
Proof.
  apply (dict_set_then_get true empty_8 None [5] (val 9));
    [apply empty_8_represents|apply val_storable|by vm_compute].
Defined.

Lemma dict_remove_then_get_witness :
  ∃ t, represents true dict_2 (Some t) ∧
    match Dict.remove [200] dict_2 with
    | (Ok was, d') =>
        (∃ ot', represents true d' ot') ∧ d_key_bits d' = d_key_bits dict_2 ∧
        contents dict_2 [200] ≠ Ok PrunedAway ∧ (was = true ↔ contents dict_2 [200] ≠ Ok Absent) ∧
        ∀ key', contents d' key' =
          if (d_key_bits dict_2 <=? 8 * len key') &&
             bool_decide (bits_of key' (d_key_bits dict_2) = bits_of [200] (d_key_bits dict_2))
          then Ok Absent else contents dict_2 key'
    | (Err _, d') => d' = dict_2 ∧ ¬ roomy (d_key_bits dict_2) (Some t)
    end.
Proof.
  destruct dict_2_represents as (t & Hr & _ & Hn). exists t. split; [exact Hr|].
  apply (dict_remove_then_get true dict_2 (Some t) [200] Hr). rewrite Hn. by vm_compute.
Defined.

Lemma dict_iter_complete_witness :
  ∃ t kvs, represents true dict_2 (Some t) ∧
    seen <$> Dict.collect (S (length (entries [] t))) (Dict.iter dict_2) = (λ kv, Ok (packed kv.1, kv.2)) <$> kvs ∧
    StronglySorted bits_lt kvs.*1 ∧
    ∀ k v, len k = d_key_bits dict_2 → ((k, v) ∈ kvs ↔ contents dict_2 (packed k) = Ok (Found v)).
Proof.
  destruct dict_2_represents as (t & Hr & Hw & _). exists t.
  destruct (dict_iter_complete true dict_2 t (S (length (entries [] t))) Hr Hw) as (kvs & Hk); [lia|].
  exists kvs. split; [exact Hr|exact Hk].
Defined.

Lemma dict_walks_terminate_witness :
  lookup Plain (Some tree_ab) 8 [true] = lookup_loop 20 Plain [true] tree_ab 8 0 Label.new ∧
  descend Plain tree_ab 8 [true] = descend_loop 20 Plain [true] [] tree_ab 8 0 Label.new.
Proof. apply dict_walks_terminate; [by_wf|by vm_compute|]. change (8 < 20)%nat. lia. Defined.

Lemma dict_take_min_witness :
  ∃ t, represents true dict_2 (Some t) ∧ whole t ∧
    match Dict.take_min dict_2 with
    | (Ok None, d') => d' = dict_2 ∧ ∀ key, d_key_bits dict_2 <= 8 * len key → contents dict_2 key = Ok Absent
    | (Ok (Some (key, entry)), d') =>
        contents dict_2 key = Ok (Found (entry_value entry)) ∧
        (∀ k v, len k = d_key_bits dict_2 → contents dict_2 (packed k) = Ok (Found v) →
           packed k = key ∨ bits_lt (bits_of key (d_key_bits dict_2)) k) ∧
        ∀ key', contents d' key' =
          if (d_key_bits dict_2 <=? 8 * len key') &&
             bool_decide (bits_of key' (d_key_bits dict_2) = bits_of key (d_key_bits dict_2))
          then Ok Absent else contents dict_2 key'
    | (Err _, d') => d' = dict_2 ∧ ¬ roomy (d_key_bits dict_2) (Some t)
    end.
Proof.
  destruct dict_2_represents as (t & Hr & Hw & _). exists t. split; [exact Hr|]. split; [exact Hw|].
  exact (dict_take_min true dict_2 (Some t) Hr Hw).
Defined.
