(* ===== verification/ExamplesDict.v ===== *)
(** The theorems on the rest of the dictionaries at concrete inputs: building in bulk,
    queries by position, integer keys, [retain]; the augmented dictionaries; and the
    prefix-code dictionaries. *)

From stdpp Require Import base list list_numbers numbers strings sorting.
From Stdlib Require Import ZArith Lia.
From S2P Require Import Prelude Errors Bits CellData CellHash CellModel Binding CellCheck CellSlice CellBuilder Fields BuilderOps DictLabel Dict DictTree DictCells DictWalk DictSpec DictTheorems Search DictOps DictBulk DictQueries DictTyped AugDict AugSpec AugSums AugTheorems PfxDict PfxCells PfxEdit PfxSpec PfxTheorems Examples.

Local Open Scope Z_scope.

#[local] Existing Instance toy_sha256.
#[local] Existing Instance toy_sha256_ok.

(** ** Building in bulk *)

Definition bulk_entries : list (list Z * value) := [([200], val 20); ([1], val 11); ([7], val 70); ([1], val 10)].

Lemma bulk_entries_ok : Forall (entry_ok 8) bulk_entries.
Proof. repeat (apply Forall_cons_2; [split; [vm_compute; discriminate|apply val_storable]|]). apply Forall_nil_2. Qed.

Lemma bulk_entries_set :
  floor.from_items 8 (handed bulk_entries) =
    res_map (λ _, snd (st_for (handed bulk_entries) (λ '(key, value), Dict.set key value) empty_8))
      (fst (st_for (handed bulk_entries) (λ '(key, value), Dict.set key value) empty_8)).
Proof. vm_compute. reflexivity. Qed.

Lemma dict_bulk_is_sets_witness :
  match floor.from_items 8 (handed bulk_entries) with
  | Ok d => contents d [1] = Ok (Found (val 10)) ∧ contents d [3] = Ok Absent ∧ contents d [] = Err (KeyLength 0 8)
  | Err _ => False
  end ∧
  ∀ d', st_for (handed bulk_entries) (λ '(key, value), Dict.set key value) empty_8 = (Ok tt, d') →
    floor.from_items 8 (handed bulk_entries) = Ok d'.
Proof.
  destruct (dict_bulk_is_sets 8 empty_8 bulk_entries) as [Hbulk Hsets]; [lia|reflexivity|exact bulk_entries_ok|].
  split; [|exact Hsets]. assert (is_ok (floor.from_items 8 (handed bulk_entries)) = true) as Hok by (vm_compute; reflexivity).
  destruct (floor.from_items 8 (handed bulk_entries)) as [d|e]; [|discriminate].
  destruct (Hbulk d eq_refl) as [_ Hc]. rewrite !Hc. repeat split; vm_compute; reflexivity.
Defined.

(** ** Queries *)

Lemma dict_nearest_witness :
  ∃ t, represents true dict_2 (Some t) ∧
    match floor.entry_at_or_after dict_2 [100] with
    | Ok (Some (f, entry)) =>
        contents dict_2 f = Ok (Found (entry_value entry)) ∧
        ∀ k, len k = d_key_bits dict_2 → bytes_le [100] (packed k) → bytes_lt (packed k) f → contents dict_2 (packed k) = Ok Absent
    | _ => False
    end.
Proof.
  destruct dict_2_represents as (t & Hr & _ & _). exists t. split; [exact Hr|].
  destruct (dict_nearest true dict_2 (Some t) [100] Hr) as [Ha _].
  assert (match floor.entry_at_or_after dict_2 [100] with Ok (Some _) => true | _ => false end = true) as Hok
    by (vm_compute; reflexivity).
  destruct (floor.entry_at_or_after dict_2 [100]) as [[[f entry]|]|]; try discriminate.
  destruct Ha as [[Hf _] Hk]. split; [exact Hf|exact Hk].
Defined.

Lemma dict_subdict_witness :
  ∃ t, represents true dict_2 (Some t) ∧
    match floor.subdict dict_2 [192] 4 with
    | Ok d' => d_key_bits d' = d_key_bits dict_2 - 4 ∧
        ∀ k, len k = d_key_bits dict_2 - 4 → contents d' (packed k) = contents dict_2 (packed (bits_of [192] 4 ++ k))
    | Err _ => False
    end.
Proof.
  destruct dict_2_represents as (t & Hr & _ & _). exists t. split; [exact Hr|].
  pose proof (dict_subdict true dict_2 (Some t) [192] 4 Hr) as Hs.
  assert (is_ok (floor.subdict dict_2 [192] 4) = true) as Hok by (vm_compute; reflexivity).
  destruct (floor.subdict dict_2 [192] 4) as [d'|]; [|discriminate]. apply Hs. lia.
Defined.

Lemma dict_integer_keys_witness :
  ∃ t, represents true dict_2 (Some t) ∧
    match typed.set_int (- 2) (builder_of (val 9)) dict_2 with
    | (Ok tt, d') =>
        ∀ key', - 2 ^ 63 <= key' < 2 ^ 63 → - 2 ^ d_key_bits dict_2 <= 2 * key' < 2 ^ d_key_bits dict_2 →
          int_contents d' key' = if key' =? - 2 then Ok (Found (val 9)) else int_contents dict_2 key'
    | (Err _, _) => False
    end.
Proof.
  destruct dict_2_represents as (t & Hr & _ & _). exists t. split; [exact Hr|].
  destruct (dict_integer_keys true dict_2 (Some t) (val 9) (- 2) Hr (val_storable 9)) as [_ Hi].
  destruct Hi as [Hset _]; [lia|].
  assert (is_ok (fst (typed.set_int (- 2) (builder_of (val 9)) dict_2)) = true) as Hok by (vm_compute; reflexivity).
  destruct (typed.set_int (- 2) (builder_of (val 9)) dict_2) as [[[]|] d']; [|discriminate].
  apply Hset.
Defined.

(** The closure counts what it sees, and keeps the keys under 100. *)
Definition keep_low : list Z → DictEntry → Z → bool * Z := λ key _ seen, (bool_decide (bytes_le key [100]), seen + 1).

Definition item_key (item : result CellError (list Z * DictEntry)) : result CellError (list Z) := res_map fst item.

Lemma two_items (entries : list (list Z * DictEntry)) k1 k2 :
  item_key <$> (Ok <$> entries) = [Ok k1; Ok k2] → ∃ e1 e2, entries = [(k1, e1); (k2, e2)].
Proof. intros H. destruct entries as [|[k1' e1] [|[k2' e2] [|]]]; try discriminate H. injection H as -> ->. by eexists _, _. Qed.

Lemma dict_retain_witness :
  ∃ t, represents true dict_2 (Some t) ∧
    match retain keep_low 0 dict_2 with
    | (Ok seen, d') => seen = 2 ∧ contents d' (packed (uint_bits 8 1)) = contents dict_2 (packed (uint_bits 8 1)) ∧
        contents d' (packed (uint_bits 8 200)) = Ok Absent
    | (Err _, _) => False
    end.
Proof.
  destruct dict_2_represents as (t & Hr & _ & Hn). exists t. split; [exact Hr|].
  pose proof (dict_retain keep_low 0 true dict_2 (Some t) Hr) as Hk.
  assert (match retain keep_low 0 dict_2 with (Ok s, _) => s =? 2 | _ => false end = true) as Hok by (vm_compute; reflexivity).
  destruct (retain keep_low 0 dict_2) as [[s|] d']; [|discriminate]. split; [lia|].
  destruct Hk as (entries & ks & Hi & _ & _ & _ & _ & _ & _ & Hc).
  assert (item_key <$> items dict_2 = [Ok [1]; Ok [200]]) as Hi' by (vm_compute; reflexivity).
  rewrite Hi in Hi'. destruct (two_items entries _ _ Hi') as (e1 & e2 & ->).
  rewrite !Hc by (rewrite Hn; reflexivity). split; vm_compute; reflexivity.
Defined.

(** ** Prefix-code dictionaries *)

Definition pfx_8 : PfxDict := MkPfxDict None 8.

(** The codes 0, 10 and 111, in two orders and once by way of a code that goes again. *)
Definition pfx_edits_1 : list pfx_edit :=
  [PfxPut [0] 1 (val 10); PfxPut [128] 2 (val 20); PfxPut [224] 3 (val 30)].
Definition pfx_edits_2 : list pfx_edit :=
  [PfxPut [224] 3 (val 30); PfxPut [96] 3 (val 9); PfxPut [0] 1 (val 9); PfxDrop [96] 3; PfxPut [128] 2 (val 20); PfxPut [0] 1 (val 10)].

Definition pfx_3 : PfxDict := fold_left apply_pfx pfx_edits_2 pfx_8.

Lemma pfx_edits_1_ok : Forall pfx_edit_ok pfx_edits_1.
Proof. repeat (apply Forall_cons_2; [split; [vm_compute; discriminate|apply val_storable]|]). apply Forall_nil_2. Qed.

Lemma pfx_edits_2_ok : Forall pfx_edit_ok pfx_edits_2.
Proof.
  repeat (apply Forall_cons_2; [first [split; [vm_compute; discriminate|apply val_storable]|vm_compute; discriminate]|]).
  apply Forall_nil_2.
Qed.

Lemma pfx_3_represents : ∃ t, prepresents true pfx_3 (Some t) ∧ whole t ∧ pd_key_bits pfx_3 = 8.
Proof.
  destruct (pfx_new_represents 8 pfx_8) as [Hr Hb]; [lia|reflexivity|].
  destruct (pfx_edits_represent true pfx_8 None pfx_edits_2 Hr pfx_edits_2_ok) as (ot & Hr' & Hw & Hb').
  destruct ot as [t|]; [exists t; split; [exact Hr'|]; split; [by apply Hw|exact Hb']|].
  exfalso. destruct Hr' as [_ Hr']. fold pfx_3 in Hr'.
  assert (PfxDict.is_empty pfx_3 = false) as He by (vm_compute; reflexivity).
  unfold PfxDict.is_empty in He. by destruct (pd_root pfx_3).
Qed.

Lemma pfx_3_fits key n : (0 <=? n) && (n <=? 8) && (n <=? 8 * len key) = true → key_fits pfx_3 key n.
Proof.
  destruct pfx_3_represents as (_ & _ & _ & Hb). intros [[H1 H2]%andb_prop H3]%andb_prop.
  apply Z.leb_le in H1, H2, H3. unfold key_fits. rewrite Hb. clear Hb. auto.
Qed.

Lemma pfx_3_same : fold_left apply_pfx pfx_edits_1 pfx_8 = pfx_3.
Proof. vm_compute. reflexivity. Qed.

Lemma pfx_history_independent_witness :
  Forall pfx_edit_ok pfx_edits_1 ∧ Forall pfx_edit_ok pfx_edits_2 ∧
  fold_left apply_pfx pfx_edits_1 pfx_8 = fold_left apply_pfx pfx_edits_2 pfx_8.
Proof.
  split; [apply pfx_edits_1_ok|]. split; [apply pfx_edits_2_ok|].
  apply (pfx_history_independent 8 pfx_8); [lia|reflexivity|apply pfx_edits_1_ok|apply pfx_edits_2_ok|].
  intros key n. rewrite pfx_3_same. reflexivity.
Defined.

Lemma pfx_set_then_get_witness :
  ∃ t, prepresents true pfx_3 (Some t) ∧
    match PfxDict.set [192] 3 (builder_of (val 40)) pfx_3 with
    | (Ok tt, d') =>
        pfx_contents d' [192] 3 = Ok (Found (val 40)) ∧ pfx_contents d' [128] 2 = pfx_contents pfx_3 [128] 2 ∧
        ¬ in_the_way pfx_3 (bits_of [192] 3) ∧ has_room pfx_3 (bits_of [192] 3) (val 40)
    | (Err _, _) => False
    end ∧
    match PfxDict.set [192] 2 (builder_of (val 40)) pfx_3 with
    | (Ok tt, _) => False
    | (Err _, d') => d' = pfx_3 ∧ (in_the_way pfx_3 (bits_of [192] 2) ∨ ¬ has_room pfx_3 (bits_of [192] 2) (val 40))
    end.
Proof.
  destruct pfx_3_represents as (t & Hr & Hw & Hb). exists t. split; [exact Hr|].
  split.
  - pose proof (pfx_set_then_get true pfx_3 (Some t) [192] 3 (val 40) Hr Hw (val_storable 40) (pfx_3_fits [192] 3 eq_refl)) as Hs.
    assert (is_ok (fst (PfxDict.set [192] 3 (builder_of (val 40)) pfx_3)) = true) as Hok by (vm_compute; reflexivity).
    destruct (PfxDict.set [192] 3 (builder_of (val 40)) pfx_3) as [[[]|] d']; [|discriminate].
    destruct Hs as (_ & _ & Hn & Hroom & Hc). split; [etransitivity; [apply Hc, pfx_3_fits; reflexivity|vm_compute; reflexivity]|].
    split; [etransitivity; [apply Hc, pfx_3_fits; reflexivity|vm_compute; reflexivity]|split; [exact Hn|exact Hroom]].
  - pose proof (pfx_set_then_get true pfx_3 (Some t) [192] 2 (val 40) Hr Hw (val_storable 40) (pfx_3_fits [192] 2 eq_refl)) as Hs.
    assert (is_ok (fst (PfxDict.set [192] 2 (builder_of (val 40)) pfx_3)) = false) as Hok by (vm_compute; reflexivity).
    destruct (PfxDict.set [192] 2 (builder_of (val 40)) pfx_3) as [[[]|] d']; [discriminate|exact Hs].
Defined.

Lemma pfx_remove_then_get_witness :
  ∃ t, prepresents true pfx_3 (Some t) ∧
    match PfxDict.remove [128] 2 pfx_3 with
    | (Ok was, d') => was = true ∧ pfx_contents d' [128] 2 = Ok Absent ∧ pfx_contents d' [224] 3 = pfx_contents pfx_3 [224] 3
    | (Err _, _) => False
    end.
Proof.
  destruct pfx_3_represents as (t & Hr & Hw & Hb). exists t. split; [exact Hr|].
  pose proof (pfx_remove_then_get true pfx_3 (Some t) [128] 2 Hr (pfx_3_fits [128] 2 eq_refl)) as Hs.
  assert (match PfxDict.remove [128] 2 pfx_3 with (Ok b, _) => b | _ => false end = true) as Hok by (vm_compute; reflexivity).
  destruct (PfxDict.remove [128] 2 pfx_3) as [[was|] d']; [|discriminate].
  destruct Hs as (_ & _ & _ & Hc). split; [exact Hok|].
  split; (etransitivity; [apply Hc, pfx_3_fits; reflexivity|vm_compute; reflexivity]).
Defined.

Lemma pfx_lookup_prefix_witness :
  ∃ t, prepresents true pfx_3 (Some t) ∧
    match PfxDict.lookup_prefix pfx_3 [175] 8 with
    | Ok (Some m) =>
        pm_matched m = 2 ∧ ∃ k, len k = pm_matched m ∧ k `prefix_of` bits_of [175] 8 ∧
        pfx_contents pfx_3 (packed k) (len k) = Ok (Found (entry_value (pm_entry m)))
    | _ => False
    end.
Proof.
  destruct pfx_3_represents as (t & Hr & Hw & Hb). exists t. split; [exact Hr|].
  pose proof (pfx_lookup_prefix true pfx_3 (Some t) [175] 8 Hr (pfx_3_fits [175] 8 eq_refl)) as Hl.
  assert (match PfxDict.lookup_prefix pfx_3 [175] 8 with Ok (Some m) => pm_matched m =? 2 | _ => false end = true) as Hok by (vm_compute; reflexivity).
  destruct (PfxDict.lookup_prefix pfx_3 [175] 8) as [[m|]|]; [|discriminate..].
  destruct Hl as (k & Hlen & Hp & Hf & _). split; [by apply Z.eqb_eq in Hok|]. exists k. repeat split; assumption.
Defined.

Lemma prepresents_cells `{Hasher} st d ot : prepresents st d ot → ∀ c, pd_root d = Some c → cell_wf c.
Proof. intros [_ Hr] c Hc. rewrite Hc in Hr. by destruct ot; [destruct Hr|]. Qed.

Lemma pfx_validate_exact_witness : PfxDict.validate pfx_3 = Ok tt ∧ ∃ ot, prepresents false pfx_3 ot.
Proof.
  assert (PfxDict.validate pfx_3 = Ok tt) as Hv by (vm_compute; reflexivity). split; [exact Hv|].
  destruct pfx_3_represents as (t & Hr & _ & _). pose proof Hr as [Hn _].
  destruct (pfx_validate_exact pfx_3 Hn (prepresents_cells true pfx_3 (Some t) Hr)) as [Hex _]. exact (Hex Hv).
Defined.

Lemma pfx_iter_complete_witness :
  ∃ t kvs, prepresents true pfx_3 (Some t) ∧
    pfx_seen <$> PfxDict.collect (S (length (entries [] t))) (PfxDict.iter pfx_3) = (λ kv, Ok (packed kv.1, len kv.1, kv.2)) <$> kvs ∧
    StronglySorted bits_lt kvs.*1.
Proof.
  destruct pfx_3_represents as (t & Hr & Hw & _). exists t.
  destruct (pfx_iter_complete true pfx_3 t (S (length (entries [] t))) Hr Hw) as (kvs & Hk & Hs & _); [lia|].
  exists kvs. split; [exact Hr|]. split; [exact Hk|exact Hs].
Defined.

(** ** Augmented dictionaries *)

(** The summary of the documentation's example: how many entries there are below. *)
Inductive Count : Type := count_entries.

#[local] Instance count_augmentation : Augmentation Count := {|
  AugExtra := Z;
  aug_read _ := Slice.load_u32;
  aug_combine _ lhs rhs := if lhs + rhs <? 2 ^ 32 then Ok (lhs + rhs) else Err (Malformed "too many entries");
  aug_write _ extra := Builder.store_uint extra 32;
|}.

#[local] Instance count_lawful aug : LawfulAug aug.
Proof.
  refine (@Build_LawfulAug Count count_augmentation aug (λ e : Z, 0 <= e < 2 ^ 32) (uint_bits 32) _ _).
  intros el er e Hl Hr. cbn. destruct (Z.ltb_spec (el + er) (2 ^ 32)); [|done]. intros [= <-]. lia.
Defined.

Definition aug_8 : AugDict Count := MkAugDict None 8 count_entries.

(** Two ways to the same three entries, one past a key that goes again and a count put right. *)
Definition aug_edits_1 : list (aug_edit (A := Count)) :=
  [AugPut [1] 1 (val 10); AugPut [2] 1 (val 20); AugPut [200] 1 (val 30)].
Definition aug_edits_2 : list (aug_edit (A := Count)) :=
  [AugPut [200] 7 (val 30); AugPut [77] 1 (val 9); AugPut [2] 1 (val 20); AugDrop [77]; AugPut [200] 1 (val 30); AugPut [1] 1 (val 10)].

Definition aug_3 : AugDict Count := fold_left apply_aug_edit aug_edits_2 aug_8.

Lemma aug_edits_1_ok : Forall (aug_edit_ok count_entries) aug_edits_1.
Proof. repeat (apply Forall_cons_2; [split; [split; vm_compute; done|apply val_storable]|]). apply Forall_nil_2. Qed.

Lemma aug_edits_2_ok : Forall (aug_edit_ok count_entries) aug_edits_2.
Proof. repeat (apply Forall_cons_2; [first [split; [split; vm_compute; done|apply val_storable]|exact I]|]). apply Forall_nil_2. Qed.

Lemma aug_3_represents : ∃ c t, arepresents count_entries true aug_3 (Some t) ∧ whole t ∧ ad_root aug_3 = Some c ∧ ad_key_bits aug_3 = 8.
Proof.
  destruct (arepresents_new count_entries true 8 aug_8) as [Hr Hb]; [lia|reflexivity|].
  destruct (aug_edits_represent count_entries true aug_8 None aug_edits_2 Hr aug_edits_2_ok) as (ot & Hr' & Hw & Hb').
  fold aug_3 in Hr', Hb'. assert (AugDict.is_empty aug_3 = false) as He by (vm_compute; reflexivity). unfold AugDict.is_empty in He.
  pose proof Hr' as [_ [_ Hroot]]. destruct (ad_root aug_3) as [c|]; [|discriminate]. destruct ot as [t|]; [|destruct Hroot].
  exists c, t. split; [exact Hr'|]. split; [by apply Hw|]. split; [reflexivity|exact Hb'].
Qed.

Definition entries_below (e : @AugExtra Count count_augmentation) : Z := e.

Lemma count_adds el er e : aug_combine count_entries el er = Ok e → entries_below e = entries_below el + entries_below er.
Proof. cbn. destruct (Z.ltb_spec (el + er) (2 ^ 32)); [|done]. by intros [= <-]. Qed.

Lemma aug_3_same : fold_left apply_aug_edit aug_edits_1 aug_8 = aug_3.
Proof. vm_compute. reflexivity. Qed.

Lemma aug_history_independent_witness :
  Forall (aug_edit_ok count_entries) aug_edits_1 ∧ Forall (aug_edit_ok count_entries) aug_edits_2 ∧
  fold_left apply_aug_edit aug_edits_1 aug_8 = fold_left apply_aug_edit aug_edits_2 aug_8.
Proof.
  split; [apply aug_edits_1_ok|]. split; [apply aug_edits_2_ok|].
  apply (aug_history_independent count_entries 8 aug_8); [lia|reflexivity|apply aug_edits_1_ok|apply aug_edits_2_ok|].
  intros key. rewrite aug_3_same. reflexivity.
Defined.

Lemma aug_set_then_get_witness :
  ∃ t, arepresents count_entries true aug_3 (Some t) ∧
    match AugDict.set (A := Count) [3] 1 (builder_of (val 40)) aug_3 with
    | (Ok tt, d') =>
        acontents d' [3] = Ok (Found (1, val 40)) ∧ acontents d' [2] = acontents aug_3 [2] ∧ AugDict.root_extra d' = Ok (Some 4)
    | (Err _, _) => False
    end ∧
    match AugDict.set (A := Count) [3] (2 ^ 32 - 1) (builder_of (val 40)) aug_3 with
    | (Ok tt, _) => False
    | (Err _, d') => d' = aug_3
    end.
Proof.
  destruct aug_3_represents as (c & t & Hr & _ & _ & Hb). exists t. split; [exact Hr|].
  assert (ad_key_bits aug_3 <= 8 * len [3]) as Hk by (rewrite Hb; vm_compute; discriminate).
  split.
  - pose proof (aug_set_then_get count_entries true aug_3 (Some t) [3] 1 (val 40) Hr ltac:(split; vm_compute; done) (val_storable 40) Hk) as Hs.
    assert (match AugDict.set (A := Count) [3] 1 (builder_of (val 40)) aug_3 with
            | (Ok _, d) => match AugDict.root_extra d with Ok (Some e) => e =? 4 | _ => false end | _ => false end = true) as Hok by (vm_compute; reflexivity).
    destruct (@AugDict.set Count _ count_augmentation [3] 1 (builder_of (val 40)) aug_3) as [[[]|] d']; [|discriminate]. destruct Hs as (_ & _ & Hc). rewrite Hb in Hc.
    split; [etransitivity; [apply Hc|vm_compute; reflexivity]|]. split; [etransitivity; [apply Hc|vm_compute; reflexivity]|].
    clear Hc. destruct (AugDict.root_extra d') as [[e|]|]; [|discriminate..]. apply Z.eqb_eq in Hok as ->. reflexivity.
  - pose proof (aug_set_then_get count_entries true aug_3 (Some t) [3] (2 ^ 32 - 1) (val 40) Hr ltac:(split; vm_compute; done) (val_storable 40) Hk) as Hs.
    assert (is_ok (fst (AugDict.set (A := Count) [3] (2 ^ 32 - 1) (builder_of (val 40)) aug_3)) = false) as Hok by (vm_compute; reflexivity).
    destruct (@AugDict.set Count _ count_augmentation [3] (2 ^ 32 - 1) (builder_of (val 40)) aug_3) as [[[]|] d']; [discriminate|exact (proj1 Hs)].
Defined.

(** What the check makes of a dictionary the library wrote is the dictionary's own nodes. *)
Lemma strict_remade n c t f x :
  shows (Aug count_entries) true n c t → cell_wf c → n <= MAX_BITS → whole t → f ∈ remade count_entries n c t → hashed f x → hashed c x.
Proof.
  intros Hs. induction Hs as [|n c g e l p v Hx Hf Hl He Hv Hb Hr _|n c g e l ca cb a b Hx Hf Hl He Hb Hr Hst Sa IHa Sb IHb]; intros Hwf Hn Hw.
  1,2: by intros ?%elem_of_nil.
  cbn [remade]. rewrite Hr. destruct (two_refs c ca cb false Hr Hwf) as (_ & _ & Wa & Wb), Hw as [Ha Hb']. pose proof (len_nonneg l).
  rewrite !elem_of_app. intros [Hin|[Hin|Hin]] Hhx.
  - destruct (fork _ _ _ _ _ _) as [f'|] eqn:Ef; [|by apply elem_of_nil in Hin]. apply list_elem_of_singleton in Hin as ->.
    apply (remade_fork count_entries l n l ca cb a b f' (bools_lawful l ltac:(unfold U16_MAX, MAX_BITS in *; lia)) (bools_run_bits l) Hl Hn) in Ef;
      [|by apply shows_strict|by apply shows_strict|done..].
    destruct Ef as (e' & Hfe & _ & _ & Hm). destruct (Hst eq_refl) as [Hm' Hfe'].
    rewrite (shows_exotic _ _ _ _ _ Sa), (shows_exotic _ _ _ _ _ Sb) in Hfe'.
    assert (fork_extra (Aug count_entries) ca cb (n - len l - 1) = Ok e) as E by (destruct a, b; first [done|by apply Hfe']).
    rewrite Hfe in E. injection E as ->. pose proof (eq_trans (eq_sym Hm) Hm') as Heq. by injection Heq as <-.
  - apply (hashed_below c ca); [rewrite Hr; by left|]. apply IHa; [done|lia|done|done|done].
  - apply (hashed_below c cb); [rewrite Hr; right; by left|]. apply IHb; [done|lia|done|done|done].
Qed.

Lemma aug_3_free : match ad_root aug_3 with Some c => no_collision (hashed_list c) | None => false end = true.
Proof. vm_compute. reflexivity. Qed.

Lemma aug_validate_exact_witness :
  ∃ c t, ad_root aug_3 = Some c ∧ collision_free (checked_strings count_entries (ad_key_bits aug_3) c t) ∧
    AugDict.validate aug_3 = Ok tt ∧ recorded count_entries (ad_key_bits aug_3) c t ∧ shortest (ad_key_bits aug_3) c t ∧
    totalled Z.add 0 entries_below aug_3.
Proof.
  destruct aug_3_represents as (c & t & Hr & Hw & Hc & Hb). exists c, t. split; [exact Hc|].
  assert (collision_free (checked_strings count_entries (ad_key_bits aug_3) c t)) as Hcf.
  { pose proof aug_3_free as Hf. rewrite Hc in Hf. refine (no_collision_ok _ _ _ Hf). intros x Hx. apply hashed_list_spec.
    destruct Hr as [_ [Hn Hroot]]. rewrite Hc in Hroot. destruct Hroot as [Wc Sc].
    destruct Hx as [Hx|(f & Hin & Hx)]; [exact Hx|]. apply (strict_remade _ c t f x Sc Wc (proj2 Hn) Hw Hin Hx). }
  split; [exact Hcf|]. assert (arepresents count_entries false aug_3 (Some t)) as Hr'.
  { destruct Hr as [Ha [Hn Hroot]]. split; [exact Ha|]. split; [exact Hn|]. rewrite Hc in *. destruct Hroot as [Wc Sc].
    split; [exact Wc|]. apply shows_strict. exact Sc. }
  assert (AugDict.validate aug_3 = Ok tt) as Hv by (vm_compute; reflexivity).
  destruct (aug_validate_exact count_entries aug_3 c t Hr' Hc Hcf) as [Hiff Ht].
  destruct (proj1 Hiff Hv) as [Hrec Hshort]. split; [exact Hv|]. split; [exact Hrec|]. split; [exact Hshort|].
  exact (Ht Hw Hv entries_below count_adds).
Defined.

(** A fork whose summary was carried over from before a change is caught. *)
Definition aug_stale : AugDict Count :=
  match ad_root aug_3 with
  | Some root =>
      match Cell.refs root, AugDict.set (A := Count) [2] 5 (builder_of (val 20)) aug_3 with
      | [_; rhs], (Ok _, MkAugDict (Some changed) n aug) =>
          match Cell.refs changed with
          | lhs :: _ =>
              match built (run! store_label (@nil bool) 8; run! Builder.store_uint 3 32; run! Builder.store_ref lhs; Builder.store_ref rhs) with
              | Ok stale => MkAugDict (Some stale) n aug
              | Err _ => aug_8
              end
          | [] => aug_8
          end
      | _, _ => aug_8
      end
  | None => aug_8
  end.

Example stale_refused :
  AugDict.validate aug_stale = Err (Malformed "augmented fork summary disagrees with its children") ∧
  AugDict.root_extra aug_stale = Ok (Some 3).
Proof. split; vm_compute; reflexivity. Qed.

(** Two more entries under keys the three leave free. *)
Definition aug_edits_3 : list (aug_edit (A := Count)) := [AugPut [3] 1 (val 40); AugPut [255] 1 (val 50)].
Definition aug_2 : AugDict Count := fold_left apply_aug_edit aug_edits_3 aug_8.

Lemma aug_2_represents : ∃ t, arepresents count_entries true aug_2 t.
Proof.
  destruct (arepresents_new count_entries true 8 aug_8) as [Hr Hb]; [lia|reflexivity|].
  destruct (aug_edits_represent count_entries true aug_8 None aug_edits_3 Hr) as (ot & Hr' & _).
  - repeat (apply Forall_cons_2; [split; [split; vm_compute; done|apply val_storable]|]). apply Forall_nil_2.
  - by exists ot.
Qed.

Lemma aug_combine_with_witness :
  ∃ t ot2, arepresents count_entries true aug_3 (Some t) ∧ arepresents count_entries true aug_2 ot2 ∧
    match AugDict.combine_with aug_2 aug_3 with
    | (Ok _, d') =>
        acontents d' [255] = acontents aug_2 [255] ∧ acontents d' [1] = acontents aug_3 [1] ∧ AugDict.root_extra d' = Ok (Some 5)
    | (Err _, _) => False
    end ∧
    match AugDict.combine_with aug_3 aug_3 with
    | (Ok _, _) => False
    | (Err _, d') => d' = aug_3
    end.
Proof.
  destruct aug_3_represents as (c & t & Hr & _ & _ & Hb), aug_2_represents as [ot2 Hr2]. exists t, ot2. split; [exact Hr|]. split; [exact Hr2|].
  split.
  - pose proof (aug_combine_with count_entries true true aug_3 aug_2 (Some t) ot2 Hr Hr2) as Hs.
    assert (match AugDict.combine_with aug_2 aug_3 with
            | (Ok _, d) => match AugDict.root_extra d with Ok (Some e) => e =? 5 | _ => false end | _ => false end = true) as Hok by (vm_compute; reflexivity).
    destruct (AugDict.combine_with aug_2 aug_3) as [[[]|] d']; [|discriminate]. destruct Hs as (_ & _ & _ & _ & Hc). rewrite Hb in Hc.
    split; [|split].
    + etransitivity; [apply Hc; vm_compute; discriminate|vm_compute; reflexivity].
    + etransitivity; [apply Hc; vm_compute; discriminate|vm_compute; reflexivity].
    + clear Hc. destruct (AugDict.root_extra d') as [[e|]|]; [|discriminate..]. apply Z.eqb_eq in Hok as ->. reflexivity.
  - pose proof (aug_combine_with count_entries true true aug_3 aug_3 (Some t) (Some t) Hr Hr) as Hs.
    assert (is_ok (fst (AugDict.combine_with aug_3 aug_3)) = false) as Hok by (vm_compute; reflexivity).
    destruct (AugDict.combine_with aug_3 aug_3) as [[[]|] d']; [discriminate|exact (proj1 Hs)].
Defined.

(** The augmentation of the test suite (core/tests/cell/augmented.rs): an amount, and other
    currencies in a cell of their own when there are any, which it does not add. The
    theorems cover the summaries that have none. *)
Inductive SumCurrencies : Type := sum_currencies.
Record Currencies : Type := MkCurrencies { cu_grams : Z; cu_other : option Cell }.

#[local] Instance currencies_augmentation : Augmentation SumCurrencies := {|
  AugExtra := Currencies;
  aug_read _ := do! grams <- Slice.load_coins; do! other <- Slice.load_maybe_ref; st_ret (MkCurrencies grams other);
  aug_combine _ lhs rhs :=
    match cu_other lhs, cu_other rhs with
    | None, None =>
        if cu_grams lhs + cu_grams rhs <? 2 ^ 120 then Ok (MkCurrencies (cu_grams lhs + cu_grams rhs) None)
        else Err (Malformed "too many grams")
    | _, _ => Err (Malformed "extra currencies are not summed here")
    end;
  aug_write _ extra := run! Builder.store_coins (cu_grams extra); Builder.store_maybe_ref (cu_other extra);
|}.

#[local] Instance currencies_lawful aug : LawfulAug aug.
Proof.
  refine (@Build_LawfulAug SumCurrencies currencies_augmentation aug
    (λ e : Currencies, cu_other e = None ∧ 0 <= cu_grams e < 2 ^ 120)
    (λ e : Currencies, f_bits coins_field (cu_grams e) ++ [false]) _ _).
  - split; intros [grams other]; cbn [f_ok f_store f_load f_bits cu_grams cu_other].
    + intros [-> Hg]. apply writes_seq; [by apply (@f_writes _ _ coins_lawful)|apply writes_bit].
    + intros s [-> Hg] [H1 H2]%ahead_app. pose proof (@f_load_ok _ _ coins_lawful grams s Hg H1) as E1.
      assert (Slice.load_maybe_ref (step_bits (len (f_bits coins_field grams)) s) =
        (Ok None, step_bits 1 (step_bits (len (f_bits coins_field grams)) s))) as E2.
      { unfold Slice.load_maybe_ref. rewrite (st_bind_ok _ _ _ _ _ (load_bit_ok _ false H2)). reflexivity. }
      unfold aug_read, currencies_augmentation. rewrite (st_bind_ok _ _ _ _ _ E1), (st_bind_ok _ _ _ _ _ E2).
      rewrite len_app, <- step_bits_step. reflexivity.
  - intros [g1 o1] [g2 o2] e [E1 H1] [E2 H2]. cbn in *. subst. destruct (Z.ltb_spec (g1 + g2) (2 ^ 120)); [|done].
    intros [= <-]. split; [reflexivity|]. split; [by apply Z.add_nonneg_nonneg; apply H1 || apply H2|done].
Defined.

Definition grams_below (e : @AugExtra SumCurrencies currencies_augmentation) : Z := cu_grams e.

Lemma grams_add el er e : aug_combine sum_currencies el er = Ok e → grams_below e = grams_below el + grams_below er.
Proof.
  destruct el as [g1 [|]], er as [g2 [|]]; cbn; try done. destruct (_ <? _); [|done]. by intros [= <-].
Qed.

Definition grams (n : Z) : Currencies := MkCurrencies n None.
Definition balances : list (aug_edit (A := SumCurrencies)) :=
  [AugPut [200] (grams 7) (val 30); AugPut [77] (grams 1000) (val 9); AugPut [2] (grams 20) (val 20); AugDrop [77];
   AugPut [200] (grams 30) (val 30); AugPut [1] (grams 10) (val 10)].
Definition balances_3 : AugDict SumCurrencies := fold_left apply_aug_edit balances (MkAugDict None 8 sum_currencies).

Lemma balances_ok : Forall (aug_edit_ok sum_currencies) balances.
Proof.
  repeat (apply Forall_cons_2; [first [split; [split; [reflexivity|split; vm_compute; done]|apply val_storable]|exact I]|]).
  apply Forall_nil_2.
Qed.

Lemma aug_totals_witness :
  totalled Z.add 0 grams_below balances_3 ∧ AugDict.validate balances_3 = Ok tt ∧
  AugDict.root_extra balances_3 = Ok (Some (grams 60)) ∧
  AugDict.fork_extras balances_3 = Ok [([], grams 60); ([false; false; false; false; false; false], grams 30)].
Proof.
  destruct (aug_totals sum_currencies Z.add 0 grams_below 8 (MkAugDict None 8 sum_currencies) balances grams_add) as [Ht Hv];
    [lia|reflexivity|apply balances_ok|].
  split; [exact Ht|]. split; [exact Hv|]. split; vm_compute; reflexivity.
Defined.

(** *** A summary that holds a reference *)

(** A summary that is a cell, such as a balance that may have other currencies beside it. *)
Inductive Linked : Type := linked.

#[local] Instance linked_augmentation : Augmentation Linked := {|
  AugExtra := Cell;
  aug_read _ := Slice.load_ref;
  aug_combine _ lhs rhs := Ok lhs;
  aug_write _ extra := Builder.store_ref extra;
|}.

Definition linked_2 : AugDict Linked :=
  match built (Builder.store_uint 7 8) with
  | Ok c =>
      snd (AugDict.set [200] (c : @AugExtra Linked _) (builder_of (val 20))
        (snd (AugDict.set [1] (c : @AugExtra Linked _) (builder_of (val 10)) (MkAugDict None 8 linked))))
  | Err _ => MkAugDict None 8 linked
  end.

(** Writing a fork puts the summary's reference before the branches, where the walks look
    for the left branch: of the two keys stored one is an error and the other is said to be
    absent, and the dictionary does not pass its own check. *)
Example linked_misread :
  AugDict.get linked_2 [1] = Err NO_BRANCH ∧ AugDict.get linked_2 [200] = Ok Absent ∧
  AugDict.validate linked_2 = Err NotEnoughRefs.
Proof. split; [|split]; vm_compute; reflexivity. Qed.

Definition linked_1 : AugDict Linked :=
  snd (AugDict.set [1] (leaf_a : @AugExtra Linked _) (builder_of (val 10)) (MkAugDict None 8 linked)).

(** At a leaf the summary's reference is taken for the first of the value, which had none. *)
Example linked_value :
  acontents linked_1 [1] = Ok (Found (leaf_a : @AugExtra Linked _, ((val 10).1, [leaf_a]))) ∧ (val 10).2 = [].
Proof. split; vm_compute; reflexivity. Qed.
