(* ===== verification/ExamplesBoc.v ===== *)
(** The theorems of bags of cells at concrete inputs: the trees of Examples.v,
    written, read, read in part and damaged, over the toy digest. *)

From stdpp Require Import base list list_numbers numbers strings.
From Stdlib Require Import ZArith Lia.
From S2P Require Import Prelude Errors Bits CellData CellHash CellModel Binding CellCheck CellSlice CellBuilder Boc BocWaves BocRun BocCells BocParse BocTheorems BocWrite BocTrip BocChunked BocLazy BocViews Examples.

Local Open Scope Z_scope.

#[local] Existing Instance toy_sha256.
#[local] Existing Instance toy_sha256_ok.

Definition bytesb (l : list Z) : bool := forallb (λ b, (0 <=? b) && (b <? 256)) l.

Lemma bytesb_ok l : bytesb l = true → Forall is_byte l.
Proof.
  unfold bytesb. rewrite forallb_forall. intros H. apply Forall_forall. intros b Hb%list_elem_of_In.
  apply H, andb_true_iff in Hb as [H1%Z.leb_le H2%Z.ltb_lt]. by split.
Qed.

Ltac by_bytes := apply bytesb_ok; vm_compute; reflexivity.

Definition two_roots : list Cell := [tree_ab; tree_cut].
Definition all_options : BocOptions := MkBocOptions true true true.
Definition bag : list Z := the [] (serialize_boc_with two_roots all_options).
Definition bag_roots : list Cell := the [] (parse_boc 4 bag).

Lemma bag_parses : parse_boc_with 4 bag ParseOptions.default = Ok bag_roots.
Proof. vm_compute. reflexivity. Qed.

Lemma two_roots_wf : Forall cell_wf two_roots.
Proof. apply Forall_cons_2; [by_wf|apply Forall_cons_2; [by_wf|apply Forall_nil_2]]. Qed.

Lemma two_roots_free : collision_free (λ m, ∃ r, r ∈ two_roots ∧ hashed r m).
Proof.
  assert (∀ m, (∃ r, r ∈ two_roots ∧ hashed r m) → m ∈ hashed_list tree_ab ++ hashed_list tree_cut) as Hin.
  { intros m (r & Hr & Hm%hashed_list_spec). apply elem_of_app. unfold two_roots in Hr.
    apply elem_of_cons in Hr as [->|Hr%list_elem_of_singleton]; [by left|subst; by right]. }
  apply (no_collision_ok _ (hashed_list tree_ab ++ hashed_list tree_cut)); [exact Hin|].
  vm_compute. reflexivity.
Qed.

Lemma boc_round_trip_witness :
  ∃ roots, parse_boc 4 bag = Ok roots ∧ Forall2 same two_roots roots.
Proof.
  apply (boc_round_trip 4 all_options two_roots bag);
    [apply two_roots_wf|apply two_roots_free|apply Forall_cons_2; [by vm_compute|apply Forall_cons_2; [by vm_compute|apply Forall_nil_2]]|left; by vm_compute|
     vm_compute; reflexivity].
Defined.

Lemma chunks_are_the_bag_witness :
  ∃ chunks pieces finished, serialize_boc_chunks_with two_roots all_options = Ok chunks ∧
    BocChunks.drained chunks pieces finished ∧ concat pieces = bag ∧
    BocChunks.next finished = (None, finished) ∧ (length pieces <= length (bc_order chunks) + 2)%nat.
Proof.
  apply (chunks_are_the_bag all_options two_roots bag); [apply two_roots_wf|apply two_roots_free|vm_compute; reflexivity].
Defined.

Lemma parse_boc_sound_witness : len bag_roots = 2 ∧ Forall cell_wf bag_roots.
Proof.
  split; [vm_compute; reflexivity|].
  destruct (parse_boc_sound 4 bag ParseOptions.default bag_roots) as (h & rd & raw & rd' & _ & _ & _ & Hw);
    [by_bytes|apply bag_parses|exact Hw].
Defined.

Lemma parse_boc_bounds_witness : Forall (λ root, cell_height root <= MAX_DEPTH) bag_roots.
Proof.
  destruct (parse_boc_bounds 4 bag ParseOptions.default bag_roots) as (_ & Hd & _);
    [by_bytes|apply bag_parses|exact Hd].
Defined.

(** The steps of a parse, evaluated. *)
Definition read_of (l : list Z) : Boc.Header * Reader :=
  match read_header l ParseOptions.default (MkReader l 0) with
  | (Ok h, rd) => (h, rd)
  | (Err _, rd) => (MkHeader 0 0 [] false false false 0 0, rd)
  end.
Definition raw_of_bag (l : list Z) : list RawCell * Reader :=
  match read_raw (fst (read_of l)) (snd (read_of l)) with (Ok raw, rd) => (raw, rd) | (Err _, rd) => ([], rd) end.
Definition heights_of (l : list Z) : list Z := the [] (heights (fst (raw_of_bag l)) (h_count (fst (read_of l)))).

Lemma parse_boc_planned_witness :
  parse_boc_with 4 bag ParseOptions.default = Ok bag_roots ∧
  parse_boc_with 4 bag ParseOptions.default =
    build_planned 1 (fst (raw_of_bag bag)) bag (Waves.descending (h_count (fst (read_of bag)))) (fst (read_of bag)).
Proof.
  split; [apply bag_parses|].
  apply (parse_boc_planned 4 1 bag ParseOptions.default (fst (read_of bag)) (snd (read_of bag)) (fst (raw_of_bag bag))
    (snd (raw_of_bag bag)) (heights_of bag)); [by_bytes|vm_compute; reflexivity..].
Defined.

(** A bag with its stored hashes spoilt in one cell, and no checksum to catch it. *)
Definition spoilt : list Z := <[60%nat := 255]> (the [] (serialize_boc_with two_roots (MkBocOptions false false true))).
Definition stored_wrong : CellError := Malformed "cell stores a hash its contents do not give".

Lemma parse_boc_error_witness :
  parse_boc_with 4 spoilt ParseOptions.default = Err stored_wrong ∧
  ∃ built i, settled (h_count (fst (read_of spoilt))) (build_at' (fst (raw_of_bag spoilt)) spoilt) built ∧
    0 <= i < h_count (fst (read_of spoilt)) ∧ build_at' (fst (raw_of_bag spoilt)) spoilt i built = Err stored_wrong ∧
    ∀ j, 0 <= j < i → ∃ v, build_at' (fst (raw_of_bag spoilt)) spoilt j built = Ok v.
Proof.
  assert (parse_boc_with 4 spoilt ParseOptions.default = Err stored_wrong) as He by (vm_compute; reflexivity).
  split; [exact He|].
  apply (parse_boc_error 4 spoilt ParseOptions.default (fst (read_of spoilt)) (snd (read_of spoilt)) (fst (raw_of_bag spoilt))
    (snd (raw_of_bag spoilt)) (heights_of spoilt) stored_wrong); [by_bytes|vm_compute; reflexivity..|exact He].
Defined.

(** ** Bags read in part *)

Definition lazy_bag : LazyBoc :=
  the (MkLazyBoc (fst (read_of bag)) (MkRawCells [] []) (Build.new 0)) (LazyBoc.open_with bag ParseOptions.default).
Definition view_bag : BocView := the (MkBocView [] (fst (read_of bag))) (BocView.open_with bag ParseOptions.default).

Lemma lazy_history_free_witness :
  fst (LazyBoc.cell 1 (asked lazy_bag [3; 9; 0])) = BocView.cell view_bag 1 ∧
  LazyBoc.builds_run (asked lazy_bag [3; 9; 0]) = LazyBoc.built_count (asked lazy_bag [3; 9; 0]).
Proof.
  apply (lazy_history_free bag ParseOptions.default lazy_bag view_bag [3; 9; 0] 1);
    [by_bytes|vm_compute; reflexivity|vm_compute; reflexivity|repeat constructor; lia|lia].
Defined.

Lemma lazy_roots_parse_witness :
  ∃ lz, LazyBoc.open_with bag ParseOptions.default = Ok lz ∧ fst (LazyBoc.roots (asked lz [3; 9; 0])) = Ok bag_roots.
Proof.
  apply (lazy_roots_parse 4 bag ParseOptions.default bag_roots [3; 9; 0]);
    [by_bytes|apply bag_parses|repeat constructor; lia].
Defined.

Lemma verify_agrees_witness :
  BocView.verify 4 view_bag = res_map (fmap (M:=list) Cell.repr_hash) (BocView.materialize 1 view_bag) ∧
  BocView.materialize 1 view_bag = parse_boc_with 1 bag ParseOptions.default.
Proof.
  apply (verify_agrees 4 1 bag ParseOptions.default view_bag); [by_bytes|vm_compute; reflexivity].
Defined.

(** ** A root written too often *)

(** As many copies of one root as its bag's width cannot state: the count is cut to
    its low byte, and the bag written is refused. *)
Lemma roots_past_width :
  ∃ out, serialize_boc_with (replicate 256 leaf_a) (MkBocOptions false false false) = Ok out ∧
    parse_boc 1 out = Err (Errors.Header "root count").
Proof. eexists. split; [vm_compute; reflexivity|vm_compute; reflexivity]. Qed.

(** A compressor that keeps the bytes as they are, and the round trip over it. *)
#[local] Instance stored_lz4 : Lz4 := {
  compress_prepend_size := λ bytes, to_le_bytes 4 (len bytes) ++ bytes;
  decompress_size_prepended := λ bytes, Some (drop 4 bytes);
}.

#[local] Instance stored_lz4_ok : Lz4Ok stored_lz4.
Proof. split; [by eexists|done]. Qed.

Lemma compressed_two_roots bytes :
  compress_boc two_roots = Ok bytes → ∃ roots, decompress_boc 4 bytes = Ok roots ∧ Forall2 same two_roots roots.
Proof.
  apply compressed_round_trip;
    [apply two_roots_wf|apply two_roots_free
    |apply Forall_cons_2; [by vm_compute|apply Forall_cons_2; [by vm_compute|apply Forall_nil_2]]|left; by vm_compute].
Qed.

Example compressed_some : is_ok (let? bytes := compress_boc two_roots in decompress_boc 4 bytes) = true.
Proof. vm_compute. reflexivity. Qed.
