(* ===== verification/ExamplesChain.v ===== *)
(** The theorems of blocks, chains and syncs at concrete inputs: a network of three
    validators and two blocks, its proofs cut down and written as bags, a server that
    answers with them, over digests and signatures to evaluate with. *)

From stdpp Require Import base list list_numbers numbers strings relations.
From Stdlib Require Import ZArith Lia.
From S2P Require Import Prelude Errors Bits CellData CellHash CellModel Binding CellCheck CellSlice CellBuilder Merkle Dict Boc BocWrite Block BlockTheorems States Search Validators Covered CoveredProofs Proof ProofTheorems Chain ChainTheorems Sync SyncTheorems.
From S2P Require Examples ExamplesBoc.

Local Open Scope Z_scope.

(** ** A digest, a curve and a codec *)

(** A digest of all of a message: a polynomial over a field a little under [2^256]. *)
#[local] Instance poly_sha256 : Hasher := λ m,
  to_be_bytes 32 (fold_left (λ acc b, acc * 257 + b + 1) m 1 mod (2 ^ 256 - 189)).

#[local] Instance poly_sha256_ok : HasherOk poly_sha256.
Proof. split; intros m; [apply length_to_be_bytes|apply to_be_bytes_bytes]. Qed.

(** Points and scalars are their bytes, and a signature [R, S] holds when [R] is the
    digest the equation takes and [S] is the negated key. *)
#[local] Instance toy_curve : Curve := {|
  EdwardsPoint := list Z;
  Scalar := list Z;
  point_eq_dec := _;
  decompress b := Some b;
  compress b := b;
  is_small_order b := bool_decide (b = replicate 32 0);
  from_canonical_bytes s := Some s;
  from_bytes_mod_order_wide b := b;
  vartime_double_scalar_mul_basepoint k a s := if bool_decide (s = take 32 k) then replicate 32 1 else a;
  point_neg a := a;
  sha512 m := sha256 (drop 32 m);
|}.

Definition prefixed (l : list Z) : list Z := len l :: l.

#[local] Instance toy_codec : TlCodec := {|
  tl_block_id b := 0 :: prefixed (bi_root_cell_hash b) ++ bi_file_hash b;
  tl_vote v := match v with
    | Notarize id => 0 :: ci_slot id :: ci_hash id
    | Finalize id => 1 :: ci_slot id :: ci_hash id
    end;
  tl_data_to_sign d := 1 :: prefixed (ds_session_id d) ++ ds_data d;
  read_prefix l := match l with
    | w :: s :: n :: rest => Some (OrdinaryCandidate (MkBlockIdExt w s n (take 32 rest) (drop 32 rest)))
    | _ => None
    end;
|}.

Lemma prefixed_inj a b c d : prefixed a ++ b = prefixed c ++ d → a = c ∧ b = d.
Proof. intros [= El E]. apply app_inj_1 in E; [done|]. unfold len in El. lia. Qed.

#[local] Instance toy_codec_ok : TlCodecOk toy_codec.
Proof.
  split.
  - intros [r f] [r' f'] E%(f_equal tail). cbn in E. by destruct (prefixed_inj r f r' f' E) as [-> ->].
  - intros [[s h]|[s h]] [[s' h']|[s' h']] E; cbn in E; congruence.
  - intros [s d] [s' d'] E%(f_equal tail). cbn in E. by destruct (prefixed_inj s d s' d' E) as [-> ->].
  - by intros a b [=].
Qed.

(** ** A network *)

Definition the {E A} (d : A) (r : result E A) : A := match r with Ok a => a | Err _ => d end.
Definition nothing : Cell := MkCell {| bytes := []; span := {| start := 0; stop := 0 |} |} 0 RNone Ordinary NONE.
Definition node (m : stm Builder CellError unit) : Cell := the nothing (built m).
Definition value (m : stm Builder CellError unit) : Builder := snd (m Builder.new).
Definition zeros (n : nat) : list Z := replicate n 0.

Definition pruned (c : Cell) : Cell :=
  the nothing
    (match (run! Builder.store_bytes [1; 1]; run! Builder.store_bytes (Cell.hash c);
            Builder.store_u16 (Cell.depth c)) Builder.new with
     | (Ok _, b) => Builder.finish b PrunedBranch 1
     | (Err e, _) => Err e
     end).

Definition leaf (n : Z) : Cell := node (Builder.store_u8 n).

Definition key (i : Z) : list Z := replicate 32 i.
Definition member (i w : Z) : Builder := value (
  run! Builder.store_uint VALIDATOR_TAG 8; run! Builder.store_uint ED25519_PUBKEY_TAG 32;
  run! Builder.store_bytes (key i); Builder.store_uint w 64).

(** Whether no two of some byte strings share a digest, each digested once. *)
Definition apart (l : list (list Z)) : bool :=
  let l := (λ x, (sha256 x, x)) <$> l in
  forallb (λ a, forallb (λ b, negb (bool_decide (a.1 = b.1)) || bool_decide (a.2 = b.2)) l) l.

Lemma apart_ok P l : (∀ x, P x → x ∈ l) → apart l = true → collision_free P.
Proof.
  intros HP Ha x y Hx%HP Hy%HP E. unfold apart in Ha. rewrite forallb_forall in Ha.
  specialize (Ha (sha256 x, x)). rewrite <- list_elem_of_In in Ha.
  pose proof (Ha (list_elem_of_fmap_2 (λ x, (sha256 x, x)) l x Hx)) as Hb. rewrite forallb_forall in Hb.
  specialize (Hb (sha256 y, y)). rewrite <- list_elem_of_In in Hb.
  pose proof (Hb (list_elem_of_fmap_2 (λ x, (sha256 x, x)) l y Hy)) as Hc. cbn [fst snd] in Hc.
  apply orb_true_iff in Hc as [Hc%negb_true_iff%bool_decide_eq_false|Hc]; [done|by apply bool_decide_eq_true in Hc].
Qed.

(** What is hashed in building the cells of a bag. *)
Definition told_list (bag : list Z) : list (list Z) := flat_map hashed_list (the [] (parse_boc 4 bag)).

Lemma told_list_ok bag x : told 4 bag x → x ∈ told_list bag.
Proof.
  intros (roots & r & E & Hr & Hx%hashed_list_spec). unfold told_list. rewrite E. cbn [the].
  apply list_elem_of_In, in_flat_map. exists r. by rewrite <- !list_elem_of_In.
Qed.

Definition trees_list (trees : list Cell) : list (list Z) := flat_map hashed_list trees.

Lemma trees_list_ok trees x : (∃ t, t ∈ trees ∧ hashed t x) → x ∈ trees_list trees.
Proof.
  intros (t & Ht & Hx%hashed_list_spec). apply list_elem_of_In, in_flat_map. exists t. by rewrite <- !list_elem_of_In.
Qed.

Lemma in_trees i (trees : list Cell) t : trees !! i = Some t → t ∈ trees.
Proof. apply list_elem_of_lookup_2. Qed.

#[local] Opaque told_list trees_list.

(** Everything hashed in a read, and in a chain. *)
Definition account_list (trees : list Cell) (read : AccountRead) : list (list Z) :=
  told_list (ar_shard_proof read) ++ told_list (ar_proof read) ++ told_list (ar_state read) ++ trees_list trees.

Lemma account_list_ok trees read x : account_hears 4 trees read x → x ∈ account_list trees read.
Proof.
  unfold account_list, account_hears. rewrite !elem_of_app.
  intros [Hx|[Hx|[Hx|Hx]]]; apply told_list_ok in Hx || apply trees_list_ok in Hx;
    [by left|by right; left|by do 2 right; left|by do 3 right].
Qed.

Definition chain_list (trees : list Cell) (proof : PartialBlockProof) : list (list Z) :=
  flat_map (λ link, flat_map told_list (link_proofs link)) (pp_steps proof) ++ trees_list trees.

Lemma chain_list_ok trees proof x : chain_hears 4 trees proof x → x ∈ chain_list trees proof.
Proof.
  unfold chain_list. rewrite elem_of_app. intros [(link & bytes & Hl & Hb & Hx%told_list_ok)|Hx%trees_list_ok]; [left|by right].
  apply list_elem_of_In, in_flat_map. exists link. split; [by apply list_elem_of_In|].
  apply in_flat_map. exists bytes. by rewrite <- !list_elem_of_In.
Qed.

Definition wholeb (t : Cell) : bool := cell_wfb t && (Cell.level_mask t =? 0).

Lemma wholeb_ok trees : forallb wholeb trees = true → Forall whole trees.
Proof.
  rewrite forallb_forall. intros H. apply Forall_forall. intros t Ht%list_elem_of_In.
  apply H, andb_true_iff in Ht as [Hw%cell_wfb_ok Hm%Z.eqb_eq]. by split.
Qed.

Definition dict_of (key_bits : Z) (entries : list (list Z * Builder)) : Cell :=
  default nothing (d_root (fold_left (λ d '(k, v), snd (Dict.set k v d)) entries (MkDict None key_bits))).

Definition validator_list : Cell :=
  dict_of 16 [([0; 0], member 3 5); ([0; 1], member 1 4); ([0; 2], member 2 3)].
Definition set_param : Cell := node (
  run! Builder.store_uint VALIDATORS_TAG 8; run! Builder.store_u32 0; run! Builder.store_u32 9;
  run! Builder.store_u16 4; run! Builder.store_u16 3; Builder.store_ref validator_list).
Definition config : Cell := dict_of 32
  [(i32_be_bytes 0, value (Builder.store_ref (leaf 1))); (i32_be_bytes 34, value (Builder.store_ref set_param))].

Definition no_currency : stm Builder CellError unit :=
  run! Builder.store_uint 0 4; Builder.store_bit false.
Definition mc_extra : Cell := node (
  run! Builder.store_uint MC_BLOCK_EXTRA_TAG 16; run! Builder.store_bit true;
  run! Builder.store_bit false; run! Builder.store_bit false;
  run! no_currency; run! no_currency; run! Builder.store_ref (leaf 2);
  run! Builder.store_bytes (zeros 32); Builder.store_ref config).
Definition extra : Cell := node (
  run! Builder.store_u32 BLOCK_EXTRA_TAG; run! Builder.store_ref (leaf 3); run! Builder.store_ref (leaf 4);
  run! Builder.store_ref (leaf 5); run! Builder.store_bytes (zeros 64); run! Builder.store_bit true;
  Builder.store_ref mc_extra).

Definition info (key_block : bool) (workchain seqno utime : Z) : Cell := node (
  run! Builder.store_u32 BLOCK_INFO_TAG; run! Builder.store_u32 0; run! Builder.store_uint 0 6;
  run! Builder.store_bit key_block; run! Builder.store_bit false; run! Builder.store_u8 0;
  run! Builder.store_u32 seqno; run! Builder.store_u32 0; run! Builder.store_uint 0 2; run! Builder.store_uint 0 6;
  run! Builder.store_i32 workchain; run! Builder.store_uint 0 64; run! Builder.store_u32 utime;
  run! Builder.store_bytes (zeros 16); run! Builder.store_u32 0; run! Builder.store_u32 0;
  run! Builder.store_u32 0; Builder.store_u32 0).

(** A block over a state, of which it holds what an update keeps. *)
Definition block_of (info_cell state extra_cell : Cell) : Cell := node (
  run! Builder.store_u32 BLOCK_TAG; run! Builder.store_ref info_cell; run! Builder.store_ref (leaf 6);
  run! Builder.store_ref (the nothing
    (create_update (node (run! Builder.store_u8 7; Builder.store_ref (pruned (leaf 7)))) state));
  Builder.store_ref extra_cell).

(** An account with a balance, its code and data, and the state that holds it. *)
Definition account_cell : Cell := node (
  run! Builder.store_bit true; run! Builder.store_uint 2 2; run! Builder.store_bit false;
  run! Builder.store_int 0 8; run! Builder.store_bytes (zeros 32);
  run! Builder.store_uint 0 3; run! Builder.store_uint 0 3; run! Builder.store_uint 0 3;
  run! Builder.store_u32 0; run! Builder.store_bit false;
  run! Builder.store_uint 77 64; run! Builder.store_var_uint 1000 16; run! Builder.store_bit false;
  run! Builder.store_bit true; run! Builder.store_bit false; run! Builder.store_bit false;
  run! Builder.store_bit true; run! Builder.store_ref (leaf 8); run! Builder.store_bit true;
  run! Builder.store_ref (leaf 9); Builder.store_bit false).

Definition account_id : list Z := 0x2a :: zeros 31.

Definition accounts (account : Cell) : Cell := node (
  run! Builder.store_bit true;
  Builder.store_ref (dict_of 256 [
    (account_id, value (
      run! Builder.store_uint 0 5; run! Builder.store_var_uint 1000 16; run! Builder.store_bit false;
      run! Builder.store_ref account; run! Builder.store_bytes (replicate 32 6); Builder.store_uint 77 64));
    (0xaa :: zeros 31, value (
      run! Builder.store_uint 0 5; run! Builder.store_var_uint 1 16; run! Builder.store_bit false;
      run! Builder.store_ref (leaf 10); run! Builder.store_bytes (replicate 32 7); Builder.store_uint 5 64))])).

Definition state_of (accounts : Cell) (custom : option Cell) : Cell := node (
  run! Builder.store_u32 SHARD_STATE_TAG; run! Builder.store_u32 0; run! Builder.store_uint 0 2;
  run! Builder.store_bytes (zeros 12); run! Builder.store_uint 0 6; run! Builder.store_bytes (zeros 24);
  run! Builder.store_bit false; run! Builder.store_bit (match custom with Some _ => true | None => false end);
  run! Builder.store_ref (leaf 11); run! Builder.store_ref accounts; run! Builder.store_ref (leaf 12);
  match custom with Some custom => Builder.store_ref custom | None => Builder.store_bit false end).

(** The shards of a workchain, split once: the lower half is the one of a block. *)
Definition shards (block : Cell) : Cell := node (
  run! Builder.store_bit true;
  run! Builder.store_ref (node (
    run! Builder.store_bit false; run! Builder.store_uint 0xa 4; run! Builder.store_u32 41;
    run! Builder.store_bytes (zeros 20); Builder.store_bytes (Cell.hash block)));
  Builder.store_ref (leaf 13)).

Definition state_extra (block : Cell) : Cell := node (
  run! Builder.store_uint MC_STATE_EXTRA_TAG 16; run! Builder.store_bit true;
  Builder.store_ref (dict_of 32 [(i32_be_bytes 0, value (Builder.store_ref (shards block)))])).

Definition bag_of (roots : list Cell) : list Z := the [] (serialize_boc_with roots (MkBocOptions false true false)).
Definition proof_of (content : Cell) : Cell := the nothing (create_proof content).

(** ** An account of a shard *)

Definition state : Cell := state_of (accounts account_cell) None.
Definition kept : Cell := state_of (pruned (accounts account_cell)) None.
Definition block : Cell := block_of (info false 0 41 1000) kept (leaf 14).
Definition mc_state : Cell := state_of (leaf 15) (Some (state_extra block)).
Definition mc_kept : Cell := state_of (pruned (leaf 15)) (Some (pruned (state_extra block))).
Definition mc_block : Cell := block_of (info false (-1) 90 1010) mc_kept (leaf 16).

(** The same cells as a server cuts them down: what the read does not need is pruned. *)
Definition read : AccountRead := AccountRead.in_shard (Cell.hash mc_block) 0 account_id
  (bag_of [proof_of (block_of (pruned (info false (-1) 90 1010)) mc_kept (pruned (leaf 16)));
           proof_of (state_of (pruned (leaf 15)) (Some (state_extra block)))])
  (bag_of [proof_of (block_of (pruned (info false 0 41 1000)) kept (pruned (leaf 14)));
           proof_of (state_of (accounts (pruned account_cell)) None)])
  (bag_of [account_cell]).

Definition read_trees : list Cell := [block; state; mc_block; mc_state].
Definition read_account : Account := the Account.nonexistent (verify_account 4 read).

Lemma verify_account_sound_witness :
  verify_account 4 read = Ok read_account ∧ ac_balance read_account = MkCoins 1000 ∧
  match account_of state account_id with
  | Ok (Found entry) => ∃ account', Account.from_cell (sae_account entry) = Ok account' ∧ account_rel same read_account account'
  | Ok Absent => read_account = Account.nonexistent
  | _ => False
  end.
Proof.
  assert (verify_account 4 read = Ok read_account) as Hv by (vm_compute; reflexivity).
  split; [exact Hv|]. split; [vm_compute; reflexivity|].
  apply (verify_account_sound 4 read read_account read_trees block state).
  - split; [|split]; apply ExamplesBoc.bytesb_ok; vm_compute; reflexivity.
  - exact Hv.
  - apply wholeb_ok. vm_compute. reflexivity.
  - apply (in_trees 0 read_trees block). exact eq_refl.
  - apply (in_trees 1 read_trees state). exact eq_refl.
  - apply (home_shard read_trees read block mc_block mc_state (MkShardDescr 41 (Cell.hash block)));
      [vm_compute; discriminate|apply (in_trees 2 read_trees mc_block); exact eq_refl|
       apply (in_trees 3 read_trees mc_state); exact eq_refl|vm_compute; reflexivity..].
  - vm_compute. reflexivity.
  - apply (apart_ok _ (account_list read_trees read) (account_list_ok read_trees read)). vm_compute. reflexivity.
Defined.

(** ** A chain of one link *)

Definition key_block : Cell :=
  block_of (info true (-1) 7 1000) (node (run! Builder.store_u8 1; Builder.store_ref (pruned (leaf 17)))) extra.
Definition next_block : Cell :=
  block_of (info true (-1) 9 2000) (node (run! Builder.store_u8 2; Builder.store_ref (pruned (leaf 18)))) (leaf 19).
Definition chain_trees : list Cell := [key_block; next_block].

Definition id_of (seqno : Z) (block : Cell) : BlockIdExt :=
  MkBlockIdExt MASTERCHAIN MASTERCHAIN_SHARD seqno (Cell.hash block) (replicate 32 seqno).
Definition anchor : BlockIdExt := id_of 7 key_block.
Definition target : BlockIdExt := id_of 9 next_block.

(** The members' signatures: the heaviest two hold, one entry is forged, and one is a stranger's. *)
Definition candidate : list Z := [-1; MASTERCHAIN_SHARD; 9] ++ id_root_hash target ++ id_file_hash target.
Definition message : list Z := signature.simplex_message (zeros 32) 5 candidate.
Definition signed (i : Z) : Signature :=
  MkSignature (short_id (key i)) (replicate 32 1 ++ sha256 (key i ++ message)).
Definition signatures : list Signature :=
  [MkSignature (key 9) (zeros 64); MkSignature (short_id (key 2)) (zeros 64); signed 1; signed 1; signed 3].
Definition signature_set : SignatureSet := SimplexSet 3 4 signatures (zeros 32) 5 candidate.

Definition config_proof : list Z :=
  bag_of [proof_of (block_of (pruned (info true (-1) 7 1000))
    (node (run! Builder.store_u8 1; Builder.store_ref (pruned (leaf 17)))) extra)].
Definition dest_proof : list Z :=
  bag_of [proof_of (block_of (info true (-1) 9 2000)
    (node (run! Builder.store_u8 2; Builder.store_ref (pruned (leaf 18)))) (pruned (leaf 19)))].
Definition reply : PartialBlockProof :=
  MkPartialBlockProof true anchor target [ForwardLink true anchor target dest_proof config_proof signature_set].

Definition proven : ProvenBlock := MkProvenBlock target true 2000.
Definition validators : ValidatorSet := the (MkValidatorSet 0 0 0 0 [] 0) (ValidatorSet.from_cell set_param).


Lemma reply_bytes : chain_bytes reply.
Proof.
  intros link bytes Hl%list_elem_of_singleton Hb. subst link. cbn [link_proofs] in Hb.
  apply elem_of_cons in Hb as [->|Hb%list_elem_of_singleton]; [|subst bytes]; apply ExamplesBoc.bytesb_ok; vm_compute; reflexivity.
Qed.

Lemma reply_verifies : verify_chain 4 anchor reply = Ok proven.
Proof. vm_compute. reflexivity. Qed.

Lemma chain_whole : Forall whole chain_trees.
Proof. apply wholeb_ok. vm_compute. reflexivity. Qed.

Lemma chain_free : collision_free (chain_hears 4 chain_trees reply).
Proof. apply (apart_ok _ (chain_list chain_trees reply) (chain_list_ok chain_trees reply)). vm_compute. reflexivity. Qed.

Lemma verify_chain_sound_witness :
  tc (link_holds chain_trees) anchor target ∧ pb_id proven = pp_to reply ∧
  id_seqno anchor < id_seqno target ∧ tells chain_trees proven.
Proof.
  apply (verify_chain_sound 4 anchor reply proven chain_trees);
    [exact reply_bytes|exact reply_verifies|exact chain_whole|exact chain_free].
Defined.


Lemma header_in_range_witness :
  ∃ header, Block.header (MkBlock next_block) = Ok header ∧ (∃ n, shard_normal (bh_shard header) n) ∧
    0 <= bh_seqno header < 2 ^ 32.
Proof.
  assert (Block.header (MkBlock next_block) = Ok (MkBlockHeader (-1) MASTERCHAIN_SHARD 9 true 2000 0 0 0)) as H
    by (vm_compute; reflexivity).
  eexists. split; [exact H|]. destruct (header_in_range _ _ H) as (_ & Hs & Hn & _). split; [exact Hs|exact Hn].
Defined.

(** ** The weight of its signatures *)

Lemma set_reads : ValidatorSet.from_cell set_param = Ok validators.
Proof. vm_compute. reflexivity. Qed.

Lemma validator_set_read_witness :
  set_ok validators ∧ ∀ id v, ValidatorSet.find validators id = Some v ↔ (id, v) ∈ vs_members validators.
Proof. apply (validator_set_read config validators). vm_compute. reflexivity. Defined.

Lemma carried_weight_sound_witness :
  carried_weight validators signatures message = Ok 9 ∧
  ∃ w who, carried_weight validators signatures message = Ok w ∧ signers validators message signatures who ∧
    w = weigh (snd <$> who) ∧ 0 <= w <= vs_total_weight validators.
Proof.
  split; [vm_compute; reflexivity|]. apply (carried_weight_sound set_param). exact set_reads.
Defined.

(** The members of a set that signed a message. *)
Definition signs (message : list Z) (signatures : list Signature) (m : list Z * Validator) : bool :=
  existsb (λ s, bool_decide (sig_node_id_short s = m.1) && signature.verify (v_public_key m.2) message (sig_signature s))
    signatures.
Definition who_signed (set : ValidatorSet) (message : list Z) (signatures : list Signature) : list (list Z * Validator) :=
  List.filter (signs message signatures) (vs_members set).

Lemma who_signed_ok set message signatures :
  NoDup (fst <$> who_signed set message signatures) → signers set message signatures (who_signed set message signatures).
Proof.
  intros Hnd. split; [by apply (NoDup_fmap_1 fst)|]. apply Forall_forall. unfold who_signed.
  intros m [Hm (s & Hs & [E%bool_decide_eq_true Hv]%andb_true_iff)%existsb_exists]%list_elem_of_In%filter_In.
  split; [by apply list_elem_of_In|]. exists s. by rewrite list_elem_of_In.
Qed.

Definition who : list (list Z * Validator) := who_signed validators message signatures.

Lemma carried_weight_tolerates_witness :
  ∃ w, carried_weight validators signatures message = Ok w ∧ ValidatorSet.carries validators w = true.
Proof.
  apply (carried_weight_tolerates set_param validators message signatures who);
    [exact set_reads|vm_compute; discriminate|apply who_signed_ok, (bool_decide_eq_true_1 _); vm_compute; reflexivity|
     vm_compute; reflexivity].
Defined.

(** The same message under other signatures is for the same block. *)
Definition other_set : SignatureSet := SimplexSet 9 9 [signed 2] (zeros 32) 5 candidate.

Lemma signed_message_binds_witness :
  signed_message signature_set target = Ok message ∧
  id_root_hash target = id_root_hash target ∧ id_file_hash target = id_file_hash target.
Proof.
  assert (signed_message signature_set target = Ok message) as H1 by (vm_compute; reflexivity).
  assert (signed_message other_set target = Ok message) as H2 by (vm_compute; reflexivity).
  split; [exact H1|]. apply (signed_message_binds signature_set other_set target target message); [|exact H1|exact H2].
  intros x y (a & b & c & d & e & Hx) (a' & b' & c' & d' & e' & Hy) _.
  assert (x = candidate) as -> by (destruct Hx as [[=]|[=]]; done).
  by destruct Hy as [[=]|[=]].
Defined.

(** ** A sync *)

Definition client : Client := MkClient None (Some (from_wire anchor)) 600.
Definition network : Network := {|
  nw_masterchain_info := Ok target;
  nw_block_proof _ a _ := if bool_decide (a = anchor) then Ok reply else Err Timeout;
  nw_elapsed round := round;
  nw_now := 2100;
|}.

Lemma one_link_typed complete from to key_block source dest_proof config_proof signatures :
  wire_typed to →
  reply_typed (MkPartialBlockProof complete from to [ForwardLink key_block source to dest_proof config_proof signatures]).
Proof. intros Ht. split; [done|]. intros k f to' d c s Hin%list_elem_of_singleton. by injection Hin as _ _ -> _ _ _. Qed.

Lemma network_ok : network_typed network.
Proof.
  intros round a t r H. cbn [network nw_block_proof] in H. destruct (bool_decide _); [|done]. injection H as <-.
  split; [|exact reply_bytes]. apply one_link_typed. split; [vm_compute; discriminate|vm_compute; reflexivity].
Qed.

Lemma sync_free : collision_free (sync_hears 4 chain_trees network).
Proof.
  apply (λ H, apart_ok _ (chain_list chain_trees reply) H). 2: vm_compute; reflexivity.
  intros x Hx. apply chain_list_ok. destruct Hx as [(round & a & t & r & link & bytes & H & Hl & Hb & Hx)|Hx]; [|by right].
  cbn [network nw_block_proof] in H. destruct (bool_decide _); [|done]. injection H as <-. left. by exists link, bytes.
Qed.

Definition synced : Client := MkClient (Some target) (Some (from_wire anchor)) 600.

Lemma sync_sound_witness :
  sync 4 network client = (Ok (MkSyncReport target 1 1), synced) ∧
  leads chain_trees (from_wire anchor) target ∧ fresh chain_trees 2100 600 target.
Proof.
  assert (sync 4 network client = (Ok (MkSyncReport target 1 1), synced)) as H by (vm_compute; reflexivity).
  split; [exact H|].
  pose proof (sync_sound 4 network client (from_wire anchor) chain_trees) as S.
  rewrite H in S. destruct S as (Hl & _ & _ & Hf & _);
    [reflexivity|by vm_compute|exact network_ok|exact chain_whole|exact sync_free|].
  split; [exact Hl|exact Hf].
Defined.

Lemma sync_terminates_witness :
  sync_loop 4 600 network 600 target anchor anchor SyncWalk.new =
  sync_loop 4 (S (Z.to_nat MAX_ROUNDS)) network 600 target anchor anchor SyncWalk.new.
Proof. apply sync_terminates. apply Nat.leb_le. vm_compute. reflexivity. Defined.
