(* ===== verification/ExamplesNet.v ===== *)
(** The theorems on usage trees, addresses, the session to a server and the client over it
    at concrete inputs, over a toy cipher, key exchange and transport. *)

From stdpp Require Import base gmap sets list list_numbers numbers strings.
From Stdlib Require Import ZArith Lia.
From S2P Require Import Prelude Errors Bits Codec CellData CellHash CellModel Binding CellCheck CellSlice CellBuilder Merkle MerkleUpdate Address AddressTheorems Usage UsageTheorems Block States Proof Chain Sync Adnl AdnlTheorems Lite LiteTheorems Client ClientTheorems Examples.

Local Open Scope Z_scope.

#[local] Existing Instance toy_sha256.
#[local] Existing Instance toy_sha256_ok.

(** ** Usage trees *)

Definition half_used : list touch := [MarkPath leaf_a; WithoutTracing [Note leaf_b]; SetTracing false; Note leaf_b].

Lemma usage_proof_witness :
  cell_wf tree_ab ∧
  match UsageTree.prove (recorded tree_ab half_used) with
  | Ok proof => ∃ content, cell_wf proof ∧ verify_merkle_proof proof (Cell.hash tree_ab) = Ok content
  | Err _ => False
  end.
Proof.
  assert (cell_wf tree_ab) as Hwf by by_wf. split; [exact Hwf|].
  pose proof (usage_proof tree_ab half_used Hwf) as Hp. cbv zeta in Hp.
  assert (is_ok (UsageTree.prove (recorded tree_ab half_used)) = true) as Hok by (vm_compute; reflexivity).
  destruct (UsageTree.prove _) as [proof|e]; [|discriminate Hok].
  destruct Hp as [(content & Hw & Hv & _) _]. exists content. split; [exact Hw|exact Hv].
Defined.

(** ** Addresses *)

(** The example of the crate's documentation. *)
Definition shown : list Z := bytes_of "EQD8uRo6OBbQ97jCx2EIuKm8Wmt6Vb15-KsQHFLbKSMiYM0w".
Definition account : list Z := match Address.parse shown with Ok a => a_account_id a | Err _ => [] end.

Lemma shown_ok : Forall is_byte shown ∧ COLON ∉ shown.
Proof. split; apply (bool_decide_unpack _); vm_compute; exact I. Qed.

Lemma shown_parses : Address.parse shown = Ok (MkAddress 0 account true false).
Proof. vm_compute. reflexivity. Qed.

Lemma address_friendly_witness :
  standard <$> shown = base64_encode (friendly (MkAddress 0 account true false)).
Proof.
  destruct shown_ok as [Hb Hc].
  apply (proj1 (proj1 (address_friendly shown (MkAddress 0 account true false) Hb Hc) shown_parses)).
Defined.

(** The same text in the other alphabet: a run of one character replaced. *)
Lemma address_typo_witness :
  let p := take 32 shown in let q := drop 33 shown in
  p ++ [45] ++ q = shown ∧ standard <$> [45] = standard <$> [43] ∧
  Address.parse (p ++ [43] ++ q) = Address.parse shown.
Proof.
  cbv zeta. assert (take 32 shown ++ [45] ++ drop 33 shown = shown) as E by (vm_compute; reflexivity).
  split; [exact E|]. destruct shown_ok as [Hb Hc].
  assert (Address.parse (take 32 shown ++ [43] ++ drop 33 shown) = Ok (MkAddress 0 account true false)) as H2 by (vm_compute; reflexivity).
  destruct (address_typo (take 32 shown) [45] [43] (drop 33 shown) (MkAddress 0 account true false) (MkAddress 0 account true false)) as [Hs _].
  - rewrite E. exact Hb.
  - apply Forall_singleton. vm_compute. split; [discriminate|reflexivity].
  - rewrite E. exact Hc.
  - reflexivity.
  - apply Nat.leb_le. reflexivity.
  - rewrite E. exact shown_parses.
  - exact H2.
  - split; [exact Hs|]. rewrite H2. symmetry. exact shown_parses.
Defined.

Lemma address_raw_witness :
  Address.parse (raw_text (-1) account) = Ok (MkAddress (-1) account true false) ∧ len account = 32.
Proof.
  split.
  - apply (proj1 (address_raw (-1) account [] (MkAddress 0 [] true false))); [lia|vm_compute; reflexivity|].
    apply (bool_decide_unpack _). vm_compute. exact I.
  - apply (proj2 (address_raw (-1) account shown (MkAddress 0 account true false))); [apply shown_ok|exact shown_parses].
Defined.

(** ** The session: a toy cipher, exchange, wire and peer *)

(** A keystream that counts. *)
Fixpoint counted (data : list Z) (at' : Z) : list Z :=
  match data with
  | [] => []
  | b :: data => Z.lxor b (at' mod 256) :: counted data (at' + 1)
  end.

#[local] Instance toy_ctr : Ctr := {|
  Aes256Ctr := Z;
  new_ctr key iv := from_be_bytes (take 1 key) + from_be_bytes (take 1 iv);
  apply_keystream data c := (counted data c, c + len data);
|}.

Lemma counted_app d1 d2 c : counted (d1 ++ d2) c = counted d1 c ++ counted d2 (c + len d1).
Proof.
  revert c. induction d1 as [|b d1 IH]; intros c; cbn [app counted]; [by rewrite Z.add_0_r|].
  rewrite IH, len_cons. do 3 f_equal. lia.
Qed.

Lemma counted_twice data c : Forall is_byte data → counted (counted data c) c = data.
Proof.
  intros Hf. revert c. induction Hf as [|b data Hb Hf IH]; intros c; [done|]. cbn [counted].
  by rewrite IH, Z.lxor_assoc, Z.lxor_nilpotent, Z.lxor_0_r.
Qed.

Lemma length_counted data c : length (counted data c) = length data.
Proof. revert c. induction data as [|b data IH]; intros c; [done|]. cbn. by rewrite IH. Qed.

#[local] Instance toy_ctr_ok : CtrOk toy_ctr.
Proof.
  constructor.
  - intros c data Hf. cbn. rewrite counted_twice by done. unfold len. by rewrite length_counted.
  - intros c d1 d2. cbn. rewrite counted_app, len_app. f_equal. lia.
  - intros c data. apply length_counted.
Qed.

#[local] Instance toy_exchange : Exchange := {|
  EdwardsPoint := list Z;
  serialize_key key := key;
  sha512 data := take 64 (data ++ replicate 64 3);
  mul_base_clamped scalar := take 32 (scalar ++ replicate 32 0);
  decompress key := if bool_decide (key = []) then None else Some key;
  mul_clamped point scalar := zip_with Z.lxor point scalar;
|}.

#[local] Instance toy_tl : AdnlTl := {|
  serialize_message m := match m with Query id q => 0 :: id ++ q | Answer id a => 1 :: id ++ a end;
  deserialize_message l :=
    match l with
    | 0 :: l => Some (Query (take 32 l) (drop 32 l))
    | 1 :: l => Some (Answer (take 32 l) (drop 32 l))
    | _ => None
    end;
|}.

(** A peer that has said all it will say, and a wire that takes everything. *)
Record Queue : Type := MkQueue { q_incoming : list Z; q_written : list Z }.

#[local] Instance toy_world : World Queue := {|
  world_write_all buf w := (Some (Ok tt), MkQueue (q_incoming w) (q_written w ++ buf));
  world_read_exact n w :=
    if (0 <=? n) && (n <=? len (q_incoming w))
    then (Some (Ok (take (Z.to_nat n) (q_incoming w))), MkQueue (drop (Z.to_nat n) (q_incoming w)) (q_written w))
    else (None, w);
  world_random n w := if 0 <=? n then (Some (replicate (Z.to_nat n) 7), w) else (None, w);
|}.

#[local] Instance toy_world_ok : WorldOk Queue.
Proof.
  refine {| incoming := q_incoming; written := q_written |}.
  - intros n w r w'. cbn. by case_match; intros [= <- <-].
  - intros n w bytes w'. cbn. case_match eqn:E; [|done]. apply Z.leb_le in E. intros [= <- <-].
    unfold len. rewrite length_replicate. split; [lia|]. apply Forall_replicate. unfold is_byte. lia.
  - intros buf w r w'. cbn. by intros [= <- <-].
  - intros buf w w'. cbn. by intros [= <-].
  - intros n w r w'. cbn. by case_match; intros [= <- <-].
  - intros n w bytes w'. cbn. case_match eqn:E; [|done]. apply andb_prop in E as [E1%Z.leb_le E2%Z.leb_le].
    intros [= <- <-]. cbn. unfold len in *. rewrite length_take, take_drop. split; [lia|done].
Defined.

Lemma toy_reliable : reliable (W := Queue).
Proof.
  constructor.
  - intros n w Hn. cbn. rewrite (proj2 (Z.leb_le _ _)) by done. by repeat eexists.
  - intros buf w. by eexists.
  - intros n w [H0 H1]. cbn. cbn in H1. rewrite !(proj2 (Z.leb_le _ _)) by done. by repeat eexists.
Qed.

Definition nonce_5 : list Z := replicate 32 5.
Definition id_7 : list Z := replicate 32 7.

(** A confirmation, what no one decodes, an answer to something else, the answer. *)
Definition said : list (list Z * list Z) :=
  (nonce_5,.) <$> ([[]; [9]; 1 :: nonce_5 ++ [1]; 1 :: id_7 ++ [42]] ++ replicate 6 []).

Lemma said_framable : Forall framable said.
Proof. apply (bool_decide_unpack _). vm_compute. exact I. Qed.

Definition key_1 : list Z := replicate 32 1.
Definition secrets_7 : HandshakeSecrets := MkSecrets (replicate 32 7) (replicate 160 7).

Lemma frames_in_order_witness :
  ∃ wire client' server',
    seal_all said (from_params (hs_params secrets_7)) = (Ok wire, client') ∧
    open_all wire (server_ciphers (hs_params secrets_7)) = (Ok said.*2, server').
Proof.
  destruct (frames_in_order said (from_params (hs_params secrets_7)) (server_ciphers (hs_params secrets_7)) said_framable)
    as (wire & client' & server' & Hs & Ho & _); [reflexivity|].
  exists wire, client', server'. split; [exact Hs|exact Ho].
Defined.

Lemma secrets_7_ok : len (hs_params secrets_7) = 160 ∧ Forall is_byte (hs_params secrets_7).
Proof. split; [reflexivity|]. apply (bool_decide_unpack _). vm_compute. exact I. Qed.

Lemma mul_base_clamped_len scalar : len (mul_base_clamped scalar) = 32.
Proof. unfold len, mul_base_clamped, toy_exchange. rewrite length_take, length_app, length_replicate. lia. Qed.

Lemma handshake_opens_witness :
  match client_handshake key_1 secrets_7 with
  | Ok h => ∃ point, decompress key_1 = Some point ∧ len (hk_packet h) = 256 ∧ hk_ciphers h = from_params (hs_params secrets_7)
  | Err _ => False
  end.
Proof.
  destruct secrets_7_ok as [Hl Hb].
  pose proof (handshake_opens key_1 secrets_7 mul_base_clamped_len Hl Hb) as Hh. cbv zeta in Hh.
  assert (is_ok (client_handshake key_1 secrets_7) = true) as Hok by (vm_compute; reflexivity).
  destruct (client_handshake key_1 secrets_7) as [h|e]; [|discriminate Hok].
  destruct Hh as (point & Hp & _ & Hl' & _ & _ & _ & _ & Hc). exists point. split; [exact Hp|]. split; [exact Hl'|exact Hc].
Defined.

(** A wire over which the peer says all that. *)
Definition wire_0 : Queue := MkQueue (stream (sc_tx (server_ciphers (hs_params secrets_7))) said) [].
Definition conn_0 : AdnlConnection Queue :=
  match connect key_1 wire_0 with
  | (Some (Ok conn), _) => conn
  | _ => MkConnection wire_0 (server_ciphers []) false
  end.

Lemma conn_0_connected : connect key_1 wire_0 = (Some (Ok conn_0), ac_world conn_0).
Proof. vm_compute. reflexivity. Qed.

Lemma conn_0_in_step :
  in_step (sc_tx (from_params (hs_params secrets_7))) (q_written (ac_world conn_0)) conn_0 said [].
Proof. split; [vm_compute; reflexivity|exact said_framable|apply Forall_nil_2|vm_compute; reflexivity|vm_compute; reflexivity]. Qed.

Lemma conn_0_intact : ac_intact conn_0 = true.
Proof. vm_compute. reflexivity. Qed.

Lemma sendable_bytes q : Forall is_byte q → sendable q.
Proof. intros Hq id _ Hid. cbn. constructor; [unfold is_byte; lia|]. by apply Forall_app. Qed.

Lemma sendable_ask : sendable [4; 2].
Proof. apply sendable_bytes, (bool_decide_unpack _). vm_compute. exact I. Qed.

Lemma query_answers_witness :
  ac_intact (query [4; 2] conn_0).2 = true ∧ (query [4; 2] conn_0).1 = Some (Ok [42]).
Proof.
  pose proof (query_answers _ _ [4; 2] conn_0 said [] conn_0_in_step conn_0_intact sendable_ask) as Hq.
  assert ((query [4; 2] conn_0).1 = Some (Ok [42])) as Hr by (vm_compute; reflexivity).
  destruct (query [4; 2] conn_0) as [r conn']. cbn [fst snd] in *. split; [|exact Hr].
  rewrite Hr in Hq. exact (proj1 Hq).
Defined.

Lemma query_completes_witness :
  ac_intact (query [4; 2] conn_0).2 = true.
Proof.
  pose proof (query_completes _ _ [4; 2] conn_0 said [] toy_reliable conn_0_in_step conn_0_intact sendable_ask) as Hq.
  destruct (query [4; 2] conn_0) as [r conn']. cbn [snd]. apply Hq.
  - intros query_id Hid. cbn [serialize_message toy_tl]. rewrite len_cons, len_app, Hid. vm_compute. discriminate.
  - apply Nat.leb_le. vm_compute. reflexivity.
Defined.

(** Three queries: one answered, one the peer leaves unanswered, one refused. *)
Lemma connection_in_sync_witness :
  ac_intact (queries [[4; 2]; [4; 2]] conn_0) = false ∧
  (query [4; 2] (queries [[4; 2]; [4; 2]] conn_0)).1 = Some (Err Desynchronized).
Proof.
  assert (ac_intact (queries [[4; 2]; [4; 2]] conn_0) = false) as Hdead by (vm_compute; reflexivity).
  split; [exact Hdead|].
  destruct (connection_in_sync key_1 wire_0 conn_0 _ [[4; 2]; [4; 2]] conn_0_connected)
    as (seed & w1 & params & w2 & h & H1 & H2 & _ & _ & Hsync).
  { apply Forall_cons_2; [exact sendable_ask|]. apply Forall_cons_2; [exact sendable_ask|apply Forall_nil_2]. }
  injection H1 as _ <-. injection H2 as <- _.
  destruct (Hsync said said_framable eq_refl) as [_ Hd]. destruct (Hd Hdead [4; 2] sendable_ask) as [_ [Hn|Hn]]; [|exact Hn].
  exfalso. revert Hn. clear. vm_compute. discriminate.
Defined.

(** ** The client *)

(** Requests are their first byte; an answer of 9 is an error, of 1 a status, of 5 a head. *)
#[local] Instance toy_lite : LiteTl := {|
  serialize_query data := data;
  serialize_request r := match r with GetMasterchainInfo => [1] | GetAccountState _ _ => [2] | SendMessage body => 3 :: body | GetBlockProof _ _ => [4] end;
  deserialize_error l := match l with 9 :: message => Ok (MkWireError 651 message) | _ => Err "not an error"%string end;
  deserialize_masterchain_info l :=
    match l with
    | [5; seqno] => Ok (MkWireMasterchainInfo (MkBlockIdExt (-1) MASTERCHAIN_SHARD seqno [] []) [])
    | _ => Err "not a head"%string
    end;
  deserialize_account_state _ := Err "not a state"%string;
  deserialize_send_msg_status l := match l with [1; status] => Ok status | _ => Err "not a status"%string end;
  deserialize_block_proof _ := Err "not a proof"%string;
|}.

(** A refusal with a byte in it that is not text. *)
Definition refusal : list Z := 9 :: 0xFF :: DUPLICATE_SEND ++ [0xE2; 0x82].

(** A peer that answers one question, and one that turns a message down. *)
Definition conn_answering (answer : list Z) : AdnlConnection Queue :=
  match connect key_1 (MkQueue (stream (sc_tx (server_ciphers (hs_params secrets_7))) [(nonce_5, 1 :: id_7 ++ answer)]) []) with
  | (Some (Ok conn), _) => conn
  | _ => MkConnection wire_0 (server_ciphers []) false
  end.
Definition conn_refusing : AdnlConnection Queue := conn_answering refusal.
Definition conn_refused : AdnlConnection Queue := (query (build_query (SendMessage [1])) conn_refusing).2.

Lemma duplicate_named_witness :
  answered_with refusal (SendMessage [1]) conn_refusing conn_refused ∧
  send_message [1] conn_refusing =
    (Some (Err (DuplicateSend 651 (REPLACEMENT ++ DUPLICATE_SEND ++ REPLACEMENT))), conn_refused).
Proof.
  assert (answered_with refusal (SendMessage [1]) conn_refusing conn_refused) as Ha by (vm_compute; reflexivity).
  split; [exact Ha|]. pose (block := MkBlockIdExt (-1) 0 0 [] []).
  pose proof (duplicate_named refusal conn_refusing conn_refused block (MkAccountId 0 []) block block [1]) as Hd.
  unfold refusal in Hd at 1. cbn [deserialize_error toy_lite we_message we_code] in Hd.
  destruct Hd as (_ & _ & _ & Hd).
  - apply (bool_decide_unpack _). vm_compute. exact I.
  - destruct (Hd Ha) as [[_ He]|[Hn _]].
    + rewrite He. vm_compute. reflexivity.
    + exfalso. apply Hn. exists [0xFF], [0xE2; 0x82]. reflexivity.
Defined.

#[local] Instance toy_curve : Curve := {|
  Chain.EdwardsPoint := list Z;
  Chain.Scalar := list Z;
  Chain.decompress key := Some key;
  Chain.compress point := point;
  Chain.is_small_order _ := false;
  Chain.from_canonical_bytes bytes := Some bytes;
  Chain.from_bytes_mod_order_wide bytes := bytes;
  Chain.vartime_double_scalar_mul_basepoint a _ _ := a;
  Chain.point_neg point := point;
  Chain.sha512 bytes := bytes;
|}.

#[local] Instance toy_codec : TlCodec := {|
  tl_block_id _ := [];
  tl_vote _ := [];
  tl_data_to_sign _ := [];
  read_prefix _ := None;
|}.

#[local] Instance toy_clock : Clock Queue := {|
  world_instant w := (0, w);
  world_since_epoch w := (Some 0, w);
|}.

(** A server that says nothing. *)
Definition mute : NetClient Queue :=
  MkNetClient (MkConnection (MkQueue [] []) (from_params (hs_params secrets_7)) true) (MkClient (Some (MkBlockIdExt (-1) MASTERCHAIN_SHARD 5 [] [])) None 600).
Definition timed_out : NetClient Queue := (run_call 4 CallMasterchainInfo mute).2.

Lemma timeout_is_final_witness :
  run_call 4 CallMasterchainInfo mute = (Err Timeout, timed_out) ∧
  is_ok (run_call 4 CallSync (run_calls 4 [CallMasterchainInfo; CallSync] timed_out)).1 = false ∧
  ac_ciphers (nc_lite (run_call 4 CallSync (run_calls 4 [CallMasterchainInfo; CallSync] timed_out)).2) = ac_ciphers (nc_lite timed_out).
Proof.
  assert (run_call 4 CallMasterchainInfo mute = (Err Timeout, timed_out)) as Hrun by (vm_compute; reflexivity).
  split; [exact Hrun|].
  destruct (timeout_is_final 4 CallMasterchainInfo [CallMasterchainInfo; CallSync] CallSync mute timed_out Hrun) as (Ho & (_ & _ & Hc & _) & _).
  split; [exact Ho|exact Hc].
Defined.

(** A client whose server names a head behind its anchor. *)
Definition behind : NetClient Queue :=
  MkNetClient (conn_answering [5; 3]) (MkClient (Some (MkBlockIdExt (-1) MASTERCHAIN_SHARD 5 [] [])) None 600).

Lemma client_refines_witness :
  ∃ net, nw_masterchain_info net = Ok (MkBlockIdExt (-1) MASTERCHAIN_SHARD 3 [] []) ∧
    Sync.sync 4 net (nc_client behind) = (Err (Sync (HeadNotAhead 3 5)), nc_client behind) ∧
    sync_asks 4 net (nc_client behind) = [AskedHead (nw_masterchain_info net)].
Proof.
  destruct (client_refines 4 (MkAddress 0 [] true false) behind) as [(net & Hr) _].
  assert ((NetClient.sync 4 behind).1 = Err (Sync (HeadNotAhead 3 5))) as E1 by (vm_compute; reflexivity).
  assert (nc_client (NetClient.sync 4 behind).2 = nc_client behind) as E2 by (vm_compute; reflexivity).
  assert (heard (masterchain_info (nc_lite behind)).1 =
    Ok (MkServerReported (MkMasterchainInfo (MkBlockIdExt (-1) MASTERCHAIN_SHARD 3 [] []) []) [])) as E3 by (vm_compute; reflexivity).
  destruct (NetClient.sync 4 behind) as [r self']. cbn [fst snd] in E1, E2. destruct Hr as [Hs Hh]. rewrite E1, E2 in Hs. exists net.
  assert (nw_masterchain_info net = Ok (MkBlockIdExt (-1) MASTERCHAIN_SHARD 3 [] [])) as E4.
  { unfold sync_asks in Hh. cbn [starts_at cl_anchor nc_client behind] in Hh.
    apply happened_head_inv in Hh as (h & conn1 & Hm & Ha & _). rewrite Hm in E3. cbn [fst] in E3. rewrite Ha, E3. reflexivity. }
  split; [exact E4|]. split; [exact Hs|]. unfold sync_asks. rewrite E4. reflexivity.
Defined.

(** A configuration of two servers, of which the second is up. *)
Definition key_text : list Z := Codec.base64_encode key_1.
#[local] Instance toy_json : Json := λ _,
  Ok (MkRawConfig [MkRawLiteServer 1 80 (MkRawId "pub.ed25519" key_text); MkRawLiteServer (-1) 443 (MkRawId "pub.ed25519" key_text)]
        (Some (MkRawValidator (Some (MkRawBlockId (-1) (- 2 ^ 63) 7 key_text key_text))))).
#[local] Instance toy_dial : Dial nat Queue := λ addr n,
  if bool_decide (addr = "255.255.255.255:443"%string) then (Ok (MkQueue [] []), S n) else (Err ConnectTimeout, S n).

Definition two_servers : Config :=
  MkConfig [MkLiteServer "0.0.0.1:80" key_1; MkLiteServer "255.255.255.255:443" key_1]
    (Some (MkBlockIdExt (-1) MASTERCHAIN_SHARD 7 key_1 key_1)) 600.

Lemma connect_tries_witness :
  from_json "{}" = Ok two_servers ∧
  match NetClient.connect (W := Queue) two_servers 0%nat with
  | (Some (Ok client), n) => n = 2%nat ∧ nc_client client = MkClient None (cf_init_block two_servers) 600
  | _ => False
  end.
Proof.
  assert (from_json "{}" = Ok two_servers) as Hc by (vm_compute; reflexivity). split; [exact Hc|].
  destruct (connect_tries (W := Queue) "{}" two_servers 0%nat Hc) as [_ Hr].
  assert ((NetClient.connect (W := Queue) two_servers 0%nat).2 = 2%nat) as Hn by (vm_compute; reflexivity).
  assert (match (NetClient.connect (W := Queue) two_servers 0%nat).1 with Some (Ok _) => true | _ => false end = true) as Hok by (vm_compute; reflexivity).
  destruct (NetClient.connect two_servers 0%nat) as [[[client|e]|] n]; cbn [fst snd] in *; [|discriminate Hok|discriminate Hok].
  destruct Hr as (before & server & after & n1 & t & w & errors & _ & _ & _ & _ & Hk). split; [exact Hn|exact Hk].
Defined.
